(* ===== verification/_CoqProject ===== *)
-Q . S2P
Prelude.v
Errno.v
BTree.v
MemAddr.v
Frame.v
PageTable.v
Pte.v
PteTheorems.v
PageTable64.v
Radix.v
AddressSpace.v
AspaceInv.v
AspaceTxn.v
AspaceBytes.v
AspaceStatic.v
Platform.v
PtTheorems.v
VmArea.v
VmSpace.v
VmOps.v
VmLayout.v
VmInv.v
VmFault.v
VmUnmap.v
VmProtect.v
VmMap.v
SharedObject.v
VmTheorems.v
VmBytes.v
UserStack.v
UserStackSpec.v
LoadStack.v
VmFork.v
VmWitness.v
LoadStackRuns.v
VmSystem.v
VmSystemRuns.v
Assembler.v
AssemblerSpec.v
RingBuffer.v
RingSpec.v
PacketBuffer.v
PacketSpec.v
StorageTheorems.v
Wire.v
SeqSpec.v
TcpTimers.v
TcpSocket.v
TcpProcess.v
TcpDispatch.v
TcpInv.v
TcpReply.v
TcpStages.v
TcpMoves.v
TcpAcks.v
TcpReceive.v
TcpSend.v
TcpUser.v
TcpStream.v
TcpNetwork.v
TcpLife.v
TcpProgress.v
TcpTheorems.v
TcpDefects.v
TcpRuns.v
TcpWire.v
TcpCodec.v
TcpSegment.v
TcpSegmentRuns.v
TcpIface.v
TcpOctets.v
TcpOctetsRuns.v
Sched.v
SchedSpec.v
SchedCfs.v
SchedFair.v
SchedRuns.v
