(* ===== verification/Prelude.v ===== *)
(** * Verification of the StarryX kernel

    StarryX is a kernel in Rust that runs Linux programs on riscv64 and
    loongarch64. This development translates four of its parts into Rocq
    functions, definition by definition, and proves what they promise: the
    memory of processes, the TCP stack, the task schedulers, and the stack a
    program is started with. Paths below are relative to the source tree.

    ** How code is translated

    A function that can fail or panic returns an [outcome]: [Ok], [Err] with the
    source's error type, or [Panic] for an assertion, an [expect], an index out
    of range or an arithmetic overflow. A method on [&mut self] is a [prog]: a
    function from a state to an outcome and a state, composed with the monad
    notation in the order of the source; the state a panic or an error leaves is
    part of the result. Integers are [Z] at their width, with the wrap-around or
    the overflow check written out; overflow is a panic, as with overflow
    checks, but for [meta_try_get] in Frame.v, which is as without. Loops that
    end by a measure have fuel: as much as bytes to copy ([process_chunks]),
    areas to look at ([check_access]), ranges recorded ([iter_collect],
    [find_range]) or octets left ([sum_chunks], [parse_options]); the theorems
    show that it does not run out. Objects behind [Arc] are keys of a store.
    Constants are abbreviations. This file has these types, their weakest
    preconditions ([wp], with the tactics [wp_step], [wp_steps] and [wp_call])
    and lemmas on lists and bytes.

    Code outside the repository is a class, with what is documented of it as
    laws, and an instance that shows the laws can hold: bitflags ([BitFlags]) and
    memory_addr ([MemoryAddr]) in MemAddr.v, the page allocator and the memory
    map ([PageAllocator], [Config]) in Frame.v, byteorder ([NetworkEndian]) in
    TcpWire.v, intrusive_collections ([LinkedList]) in Sched.v. The classes
    [PageTable], [GenericPTE] with [PteLaws], [VmObject] with [VmObjectLaws] and
    [ReadySet] are the interfaces between parts; their instances are the modelled
    implementations.

    ** Memory

    - Errno.v: [XError] and its numbers (xmodules/xerrno/src/lib.rs). BTree.v:
      the standard library's [BTreeMap]. MemAddr.v: ranges, page sizes and
      mapping flags. Frame.v: the physical frames and their reference counts
      (xcore/xmm/src/frame.rs), on a machine of memory, allocator and counts.
    - Pte.v, PteTheorems.v: the entry formats of riscv64 and loongarch64
      (crates/page_table_multiarch/page_table_entry). Both give back the page and
      the rights they were made with.
    - PageTable.v: what a page table promises, as a finite map from virtual pages
      to leaves. PageTable64.v: the radix tables (page_table_multiarch/src/bits64.rs),
      walking entries in memory. Radix.v: they keep the promise. PtTheorems.v:
      map, unmap and protect change the translations of one page, the walk lists
      what query answers, and the destructor gives back every table page.
    - AddressSpace.v: an address space and its protection transactions
      (xcore/xmm/src/aspace.rs). AspaceInv.v: frames are referenced as often as
      entries and handles say. AspaceTxn.v: an abandoned transaction restores the
      entries. AspaceStatic.v: static ranges, creation and drop. AspaceBytes.v:
      byte copies through the table.
    - VmArea.v, VmSpace.v, VmOps.v: areas, their backings and page objects, and
      every operation of a virtual-memory space (xmodules/xvma/src). VmLayout.v,
      VmInv.v, VmFault.v, VmUnmap.v, VmProtect.v, VmMap.v: the invariant and each
      operation's effect. SharedObject.v: shared memory as a page object.
      VmTheorems.v: spaces refine a map from addresses to page views; tables
      agree with it; copy-on-write is exclusive; faults resolve, and give the
      access that faulted but for stores to pages under write guards; no byte is
      lost; no assertion fires while no reference count is at its maximum.
      VmBytes.v: the kernel's writes into private memory.
    - VmFork.v, VmSystem.v: fork, exit and stores of any number of processes.
      Processes do not see each other's private memory, a fork copies, a failed
      fork undoes itself, and all frames return when all processes are gone.
    - Platform.v, VmWitness.v, VmSystemRuns.v: a concrete machine, and the
      theorems applied to runs on it.

    ** The start of a program

    - UserStack.v: the image of the stack (crates/kernel_elf_parser/src/user_stack.rs
      and auxv.rs). UserStackSpec.v: how a program reads it, and that reading is
      the inverse of building. LoadStack.v: the part of [load_app]
      (xkernel/src/mm/init.rs) that maps and writes it into a space of the memory
      part; where the stack has room, and the strings and the auxiliary vector are
      well-formed, the program reads its arguments from the memory of its
      process. It panics without arguments. LoadStackRuns.v: a run.

    ** TCP (crates/smoltcp/src)

    - Assembler.v, RingBuffer.v, PacketBuffer.v: storage/. AssemblerSpec.v,
      RingSpec.v, PacketSpec.v, StorageTheorems.v: a set of offsets, a queue, and
      a queue of packets, which [enqueue_with_infallible] breaks in one case that
      is characterised.
    - Wire.v, SeqSpec.v: sequence numbers and representations (wire/tcp.rs,
      wire/ip.rs). TcpTimers.v: timers, the round-trip estimator, congestion
      control. TcpSocket.v, TcpProcess.v, TcpDispatch.v: the whole socket
      (socket/tcp.rs): its interface, [process] as a sequence of stages, and
      [dispatch].
    - TcpInv.v to TcpLife.v: the invariant of a socket, that every stage and call
      keeps it, the two ways a call can panic, and the state diagram. TcpStream.v,
      TcpNetwork.v: the stream a socket receives, and two sockets with a network
      that loses, repeats, delays and reorders. TcpProgress.v: what polling
      sends. TcpTheorems.v states the results. TcpDefects.v: where the code does
      not do what it means to: exactly when a poll panics over a window that was
      overrun, a close in SYN-RECEIVED that never sends a FIN, and a FIN that is
      taken although octets before it are cut off. TcpRuns.v applies the theorems.
    - The theorems on delivery hold in runs that keep clear of these: no call
      panics, the sender is not closed in SYN-RECEIVED, a FIN arrives only where
      the buffer has room up to it ([fin_fits]), and there is no keep-alive, whose
      octet is not of the stream. No segment arrives 2^29 ms or more after the
      octet whose round trip is timed, where the estimator would overflow.
    - TcpWire.v, TcpCodec.v, TcpSegment.v: headers, options and checksums as
      octets. Parsing never panics on any octets, and emission and parsing are
      inverse. TcpIface.v, TcpOctets.v: from octets to sockets and back
      (iface/interface/tcp.rs, iface/packet.rs); the stream is delivered over
      octets. TcpSegmentRuns.v and TcpOctetsRuns.v: a segment of the
      repository's own tests, and a transfer.
    - Bounds: a stream is shorter than 2^31 - 1 octets in the theorem on
      delivery, since a sequence number stands for one position; polling needs as
      many polls as there are sequence numbers left to send.

    ** Schedulers (xmodules/xsched/src)

    - Sched.v: the trait as a class, and the FIFO, round-robin and completely fair
      schedulers. SchedSpec.v, SchedCfs.v: each keeps the contract of a set of
      runnable tasks. SchedFair.v: tasks that start together are never more than
      a tick of the lightest apart in weighted time; 87 ticks end every turn.
      SchedRuns.v: runs, two of them with tasks that join late.
    - Bounds: fewer than 2^50 calls, so that no counter overflows.

    ** Not modelled

    Devices, platforms, boot, traps and input and output have no semantics here.
    What runs concurrently (xtask, xsync, xnet, the page cache, the system calls
    around them) is left out: a definition of this development is one call, with
    the locks of its caller held. File systems are over C code and crates that
    are not in the repository, as are the allocators and the ELF reader. Of
    smoltcp, the other protocols, the interface's poll loop, fragmentation and
    the floating-point Cubic controller are left out. Processes, signals,
    namespaces, the virtual file system and System V communication are not
    reached. Within the modelled parts, [copy_static_mappings_from], the region
    variants of the page table, the boot-time carving of the frame database,
    the debug assertions of xvma's space.rs, wakers, logging and printing are
    left out. *)
From stdpp Require Import prelude gmap list sorting.
#[export] Set Default Goal Selector "!".
Open Scope Z_scope.

(** ** Machine integers *)

(** [usize] is 64 bits wide on every supported target (riscv64, loongarch64). *)
Definition usize_max : Z := 2 ^ 64 - 1.
Definition u32_max : Z := 2 ^ 32 - 1.

Definition usize_checked_add (a b : Z) : option Z :=
  if a + b <=? usize_max then Some (a + b) else None.

(** ** Outcomes of Rust code: a value, an [Err], or a panic *)

Inductive outcome (E A : Type) : Type :=
| Ok (a : A)
| Err (e : E)
| Panic.
Arguments Ok {E A} a.
Arguments Err {E A} e.
Arguments Panic {E A}.

#[export] Instance outcome_ret {E} : MRet (outcome E) := λ A a, Ok a.
#[export] Instance outcome_bind {E} : MBind (outcome E) := λ A B k m,
  match m with Ok a => k a | Err e => Err e | Panic => Panic end.

#[export] Instance outcome_eq_dec {E A} `{EqDecision E, EqDecision A} :
  EqDecision (outcome E A).
Proof. solve_decision. Defined.

(** [a + b] and [a - b] on [usize]: overflow is an arithmetic panic. *)
Definition uadd {E} (a b : Z) : outcome E Z :=
  if a + b <=? usize_max then Ok (a + b) else Panic.
Definition usub {E} (a b : Z) : outcome E Z := if b <=? a then Ok (a - b) else Panic.

(** [x.ok_or(e)?] *)
Definition ok_or {E A} (e : E) (x : option A) : outcome E A :=
  match x with Some a => Ok a | None => Err e end.
(** [x.expect(..)] on an option and on a result *)
Definition expect {E A} (x : option A) : outcome E A :=
  match x with Some a => Ok a | None => Panic end.
Definition unwrap {E F A} (x : outcome F A) : outcome E A :=
  match x with Ok a => Ok a | _ => Panic end.
(** [x.map_err(f)] *)
Definition map_err {E F A} (f : F → E) (x : outcome F A) : outcome E A :=
  match x with Ok a => Ok a | Err e => Err (f e) | Panic => Panic end.
(** [assert!(b)] *)
Definition assert {E} (b : bool) : outcome E () := if b then Ok () else Panic.

Lemma assert_ok {E} b : b = true → @assert E b = Ok ().
Proof. by intros ->. Qed.

Definition no_panic {E A} (x : outcome E A) : Prop := x ≠ Panic.

(** ** Stateful code: explicit state passing with early exits *)

Definition prog (S E A : Type) : Type := S → outcome E A * S.

#[export] Instance prog_ret {S E} : MRet (prog S E) := λ A a s, (Ok a, s).
#[export] Instance prog_bind {S E} : MBind (prog S E) := λ A B k m s,
  match m s with
  | (Ok a, s') => k a s'
  | (Err e, s') => (Err e, s')
  | (Panic, s') => (Panic, s')
  end.

Section progs.
Context {S E : Type}.
Definition lift {A} (x : outcome E A) : prog S E A := λ s, (x, s).
Definition throw {A} (e : E) : prog S E A := λ s, (Err e, s).
Definition panic {A} : prog S E A := λ s, (Panic, s).
Definition gets {A} (f : S → A) : prog S E A := λ s, (Ok (f s), s).
Definition inspect {A} (f : S → outcome E A) : prog S E A := λ s, (f s, s).
Definition modify (f : S → S) : prog S E () := λ s, (Ok (), f s).
(** [match m { Ok(..) .., Err(..) .. }]: the handler sees the result *)
Definition attempt {F A B} (m : prog S F A) (k : outcome F A → prog S E B) : prog S E B :=
  λ s, match m s with (Panic, s') => (Panic, s') | (r, s') => k r s' end.
(** [m.is_ok()]-style inspection and [m.expect(..)] of a stateful call *)
Definition unwrap_prog {F A} (m : prog S F A) : prog S E A :=
  λ s, let '(r, s') := m s in (unwrap r, s').
Definition map_err_prog {F A} (f : F → E) (m : prog S F A) : prog S E A :=
  λ s, let '(r, s') := m s in (map_err f r, s').
(** [for x in l { f(x)?; }] *)
Fixpoint for_each {X} (l : list X) (f : X → prog S E ()) : prog S E () :=
  match l with
  | [] => mret ()
  | x :: l' => mbind (λ _, for_each l' f) (f x)
  end.
End progs.

(** A call that has no error to return, and one whose [return] is its result *)
Definition total {S E A} (m : prog S Empty_set A) : prog S E A := λ s,
  match m s with (Ok a, s') => (Ok a, s') | (Err e, _) => match e with end | (Panic, s') => (Panic, s') end.
Definition early {S E A} (m : prog S A A) : prog S E A := λ s,
  match m s with (Ok a, s') | (Err a, s') => (Ok a, s') | (Panic, s') => (Panic, s') end.

(** Running a program on a component of a larger state. *)
Definition zoom {S T E A} (get : S → T) (set : T → S → S) (m : prog T E A) : prog S E A :=
  λ s, let '(r, t) := m (get s) in (r, set t s).

(** ** Weakest preconditions *)

Definition wp {S E A} (m : prog S E A) (s : S) (Q : outcome E A → S → Prop) : Prop :=
  Q (m s).1 (m s).2.

(** The postcondition that continues with [Q] on success and hands errors to [R]. *)
Definition post {S E A} (Q : A → S → Prop) (R : E → S → Prop) :
    outcome E A → S → Prop :=
  λ r s, match r with Ok a => Q a s | Err e => R e s | Panic => False end.

Section wp_rules.
Context {S E : Type}.
Implicit Types (s : S).

Lemma wp_ret {A} (a : A) s (Q : outcome E A → S → Prop) :
  Q (Ok a) s → wp (mret a) s Q.
Proof. done. Qed.
Lemma wp_bind {A B} (m : prog S E A) (k : A → prog S E B) s Q :
  wp m s (λ r s', match r with
                  | Ok a => wp (k a) s' Q
                  | Err e => Q (Err e) s'
                  | Panic => Q Panic s'
                  end) →
  wp (mbind k m) s Q.
Proof. unfold wp, mbind, prog_bind. by destruct (m s) as [[] ?]. Qed.
Lemma wp_lift {A} (x : outcome E A) s (Q : outcome E A → S → Prop) :
  Q x s → wp (lift x) s Q.
Proof. done. Qed.
Lemma wp_throw {A} (e : E) s (Q : outcome E A → S → Prop) :
  Q (Err e) s → wp (throw e) s Q.
Proof. done. Qed.
Lemma wp_gets {A} (f : S → A) s (Q : outcome E A → S → Prop) :
  Q (Ok (f s)) s → wp (gets f) s Q.
Proof. done. Qed.
Lemma wp_inspect {A} (f : S → outcome E A) s (Q : outcome E A → S → Prop) :
  Q (f s) s → wp (inspect f) s Q.
Proof. done. Qed.
Lemma wp_modify (f : S → S) s (Q : outcome E () → S → Prop) :
  Q (Ok ()) (f s) → wp (modify f) s Q.
Proof. done. Qed.
Lemma wp_attempt {F A B} (m : prog S F A) (k : outcome F A → prog S E B) s Q :
  wp m s (λ r s', match r with Panic => Q Panic s' | r => wp (k r) s' Q end) →
  wp (attempt m k) s Q.
Proof. unfold wp, attempt. by destruct (m s) as [[] ?]. Qed.
Lemma wp_unwrap_prog {F A} (m : prog S F A) s (Q : outcome E A → S → Prop) :
  wp m s (λ r, Q (unwrap r)) → wp (unwrap_prog m) s Q.
Proof. unfold wp, unwrap_prog. by destruct (m s). Qed.
Lemma wp_map_err_prog {F A} (f : F → E) (m : prog S F A) s (Q : outcome E A → S → Prop) :
  wp m s (λ r, Q (map_err f r)) → wp (map_err_prog f m) s Q.
Proof. unfold wp, map_err_prog. by destruct (m s). Qed.
Lemma wp_zoom {T A} (get : S → T) (set : T → S → S) (m : prog T E A) s
    (Q : outcome E A → S → Prop) :
  wp m (get s) (λ r t, Q r (set t s)) → wp (zoom get set m) s Q.
Proof. unfold wp, zoom. by destruct (m (get s)). Qed.
Lemma wp_total {A} (m : prog S Empty_set A) s (Q : outcome E A → S → Prop) :
  wp m s (λ r, match r with Ok a => Q (Ok a) | Err _ => λ _, True | Panic => Q Panic end) →
  wp (total m) s Q.
Proof. unfold wp, total. by destruct (m s) as [[|[]|] ?]. Qed.
Lemma wp_early {A} (m : prog S A A) s (Q : outcome E A → S → Prop) :
  wp m s (λ r, match r with Ok a | Err a => Q (Ok a) | Panic => Q Panic end) →
  wp (early m) s Q.
Proof. unfold wp, early. by destruct (m s) as [[| |] ?]. Qed.
Lemma wp_eq {A} (m : prog S E A) s r s' (Q : outcome E A → S → Prop) :
  m s = (r, s') → Q r s' → wp m s Q.
Proof. unfold wp. by intros ->. Qed.
Lemma wp_run {A} (m : prog S E A) s p : wp m s (λ r s', (r, s') = p) → m s = p.
Proof. unfold wp. by destruct (m s). Qed.
Lemma wp_mono {A} (m : prog S E A) s (Q Q' : outcome E A → S → Prop) :
  wp m s Q → (∀ r s', Q r s' → Q' r s') → wp m s Q'.
Proof. unfold wp. auto. Qed.

(** Loop rule: [I] relates the elements already visited to the state. *)
Lemma wp_for_each {X} (I : list X → S → Prop) (l : list X) (f : X → prog S E ()) s
    (Q : outcome E () → S → Prop) :
  I [] s →
  (∀ pre x suf s, l = pre ++ x :: suf → I pre s →
     wp (f x) s (λ r s', match r with Ok _ => I (pre ++ [x]) s' | r => Q r s' end)) →
  (∀ s, I l s → Q (Ok ()) s) →
  wp (for_each l f) s Q.
Proof.
  intros HI Hstep Hend.
  assert (∀ suf pre s, l = pre ++ suf → I pre s → wp (for_each suf f) s Q) as Hgo.
  { induction suf as [|x suf IH]; intros pre s0 -> HI0.
    - apply wp_ret, Hend. by rewrite app_nil_r.
    - cbn [for_each]. apply wp_bind. eapply wp_mono; [by eapply Hstep|].
      intros [[]| |] s' H'; [|done..].
      apply (IH (pre ++ [x])); [by rewrite <- app_assoc|done]. }
  by apply (Hgo l []).
Qed.
End wp_rules.

(** ** Records with field updates *)

(** [eta] rebuilds a record from its projections; from it [derive_update] makes
    the update of one field, as an instance of [Update] for the projection. *)
Class Eta (R : Type) := eta : R → R.
Class Update {R T : Type} (p : R → T) := update : (T → T) → R → R.
Arguments update {R T} p {_} f r.

Ltac derive_update :=
  lazymatch goal with
  | |- @Update ?R ?T ?p =>
      let e := constr:(_ : Eta R) in
      let e := eval red in e in
      lazymatch eval pattern p in e with
      | ?g _ => let t := eval cbv beta in (λ (f : T → T) (r : R), g (λ r : R, f (p r)) r) in exact t
      end
  end.

(** [self.p = v], and a call on the field [p] *)
Definition put {R T E} (p : R → T) `{!Update p} (v : T) : prog R E () :=
  modify (update p (λ _, v)).
Definition on {R T E A} (p : R → T) `{!Update p} (m : prog T E A) : prog R E A :=
  zoom p (λ v, update p (λ _, v)) m.

(** Reads a field of an updated record: the updated one or one it leaves alone.
    The equation is checked for an arbitrary record, whatever the updates below. *)
Ltac fields :=
  repeat match goal with
  | |- context [?p (@update ?R ?T ?q ?i ?f ?s)] =>
      lazymatch p with update _ _ => fail | _ => idtac end;
      let H := lazymatch p with
        | q => constr:((λ x : R, eq_refl) : ∀ x, p (@update R T q i f x) = f (p x))
        | _ => constr:((λ x : R, eq_refl) : ∀ x, p (@update R T q i f x) = p x)
        end in
      rewrite (H s)
  end; cbv beta.
Ltac fields_in E :=
  repeat match type of E with
  | context [?p (@update ?R ?T ?q ?i ?f ?s)] =>
      lazymatch p with update _ _ => fail | _ => idtac end;
      let H := lazymatch p with
        | q => constr:((λ x : R, eq_refl) : ∀ x, p (@update R T q i f x) = f (p x))
        | _ => constr:((λ x : R, eq_refl) : ∀ x, p (@update R T q i f x) = p x)
        end in
      rewrite (H s) in E
  end; cbv beta in E.

(** [wp_step] applies the rule for the head construct of the current program. *)
Ltac wp_step :=
  lazymatch goal with
  | |- wp (mret _) _ _ => apply wp_ret
  | |- wp (mbind _ _) _ _ => apply wp_bind
  | |- wp (lift _) _ _ => apply wp_lift
  | |- wp (throw _) _ _ => apply wp_throw
  | |- wp (gets _) _ _ => apply wp_gets
  | |- wp (inspect _) _ _ => apply wp_inspect
  | |- wp (modify _) _ _ => apply wp_modify
  | |- wp (attempt _ _) _ _ => apply wp_attempt
  | |- wp (unwrap_prog _) _ _ => apply wp_unwrap_prog
  | |- wp (map_err_prog _ _) _ _ => apply wp_map_err_prog
  | |- wp (zoom _ _ _) _ _ => apply wp_zoom
  | |- wp (total _) _ _ => apply wp_total
  | |- wp (early _) _ _ => apply wp_early
  | |- wp (put _ _) _ _ => apply wp_modify
  | |- wp (on _ _) _ _ => apply wp_zoom
  end; cbn beta iota delta [assert].
Ltac wp_steps := repeat wp_step.
(** [wp_call H] runs the head call by its equation [H]. *)
Ltac wp_call H := eapply wp_eq; [eapply H|]; cbv beta iota.

(** ** Arrays: indexed access, a panic out of bounds *)

Definition aget {A E} (i : nat) : prog (list A) E A := λ l, (expect (l !! i), l).
Definition aset {A E} (i : nat) (a : A) : prog (list A) E () := λ l,
  if (i <? length l)%nat then (Ok (), <[i := a]> l) else (Panic, l).

Section arrays.
Context {A E : Type}.
Lemma aget_at (pre : list A) a post i s (Q : outcome E A → list A → Prop) :
  s = pre ++ a :: post → i = length pre → Q (Ok a) s → wp (aget i) s Q.
Proof.
  intros -> -> HQ. unfold wp, aget. cbn [fst snd]. by rewrite list_lookup_middle.
Qed.
Lemma aset_at (pre : list A) a b post i s (Q : outcome E () → list A → Prop) :
  s = pre ++ a :: post → i = length pre → Q (Ok ()) (pre ++ b :: post) → wp (aset i b) s Q.
Proof.
  intros -> -> HQ. unfold wp, aset. rewrite (proj2 (Nat.ltb_lt _ _)); [|rewrite length_app; cbn; lia].
  cbn [fst snd].
  by rewrite <- (Nat.add_0_r (length pre)) at 1; rewrite insert_app_r.
Qed.
End arrays.

(** ** Total maps on [Z], with pointwise update *)

Definition fupd {A} (f : Z → A) (k : Z) (v : A) : Z → A :=
  λ x, if x =? k then v else f x.
Lemma fupd_eq {A} (f : Z → A) k v : fupd f k v k = v.
Proof. unfold fupd. by rewrite Z.eqb_refl. Qed.
Lemma fupd_ne {A} (f : Z → A) k v x : x ≠ k → fupd f k v x = f x.
Proof. intros H. unfold fupd. by rewrite (proj2 (Z.eqb_neq x k)). Qed.
Lemma fupd_case {A} (f : Z → A) k v x :
  fupd f k v x = if decide (x = k) then v else f x.
Proof. case_decide; [subst; apply fupd_eq|by apply fupd_ne]. Qed.

(** ** Byte memory: writes, fills and copies of blocks *)

Definition mem_write (mem : Z → Z) (a : Z) (bytes : list Z) : Z → Z :=
  λ x, if (a <=? x) && (x <? a + Z.of_nat (length bytes))
       then nth (Z.to_nat (x - a)) bytes 0 else mem x.
Definition mem_fill (mem : Z → Z) (a n v : Z) : Z → Z :=
  λ x, if (a <=? x) && (x <? a + n) then v else mem x.
Definition mem_copy (mem : Z → Z) (src dst n : Z) : Z → Z :=
  λ x, if (dst <=? x) && (x <? dst + n) then mem (src + (x - dst)) else mem x.
Definition mem_read (mem : Z → Z) (a n : Z) : list Z :=
  (λ k, mem (a + k)) <$> seqZ 0 n.

(** Splits every boolean comparison of [Z] in the goal into its cases. *)
Ltac split_zbool :=
  repeat match goal with
  | |- context [?a <=? ?b] => destruct (Z.leb_spec a b)
  | |- context [?a <? ?b] => destruct (Z.ltb_spec a b)
  | |- context [?a =? ?b] => destruct (Z.eqb_spec a b)
  end; cbn [andb orb negb].

(** The same for comparisons of [nat]. *)
Ltac split_nbool :=
  repeat match goal with
  | |- context [Nat.leb ?a ?b] => destruct (Nat.leb_spec a b)
  | |- context [Nat.ltb ?a ?b] => destruct (Nat.ltb_spec a b)
  | |- context [Nat.eqb ?a ?b] => destruct (Nat.eqb_spec a b)
  end; cbn [andb orb negb].

Lemma mem_write_outside mem a bs x :
  x < a ∨ a + Z.of_nat (length bs) ≤ x → mem_write mem a bs x = mem x.
Proof. intros ?. unfold mem_write. split_zbool; try done; lia. Qed.
Lemma mem_fill_outside mem a n v x : x < a ∨ a + n ≤ x → mem_fill mem a n v x = mem x.
Proof. intros ?. unfold mem_fill. split_zbool; try done; lia. Qed.
Lemma mem_fill_inside mem a n v x : a ≤ x < a + n → mem_fill mem a n v x = v.
Proof. intros ?. unfold mem_fill. split_zbool; try done; lia. Qed.
Lemma mem_copy_outside mem src dst n x :
  x < dst ∨ dst + n ≤ x → mem_copy mem src dst n x = mem x.
Proof. intros ?. unfold mem_copy. split_zbool; try done; lia. Qed.
Lemma mem_copy_inside mem src dst n x :
  dst ≤ x < dst + n → mem_copy mem src dst n x = mem (src + (x - dst)).
Proof. intros ?. unfold mem_copy. split_zbool; try done; lia. Qed.
