(* ===== verification/Errno.v ===== *)
(** * Error codes (xmodules/xerrno)

    [XError] is the kernel-internal error enum, [LinuxError] the errno values
    of src/errno.h, from which the build generates the [LinuxError] enum; an
    errno is modelled by its number. *)
From S2P Require Import Prelude.
From stdpp Require Import prelude list strings.
Open Scope Z_scope.

Inductive XError :=
| AddrInUse | AlreadyExists | BadAddress | BadState | ConnectionRefused
| ConnectionReset | DirectoryNotEmpty | InvalidData | InvalidInput | Io
| IsADirectory | NoMemory | NotADirectory | NotConnected | NotFound
| PermissionDenied | ResourceBusy | StorageFull | UnexpectedEof | Unsupported
| WouldBlock | WriteZero.
#[export] Instance XError_eq_dec : EqDecision XError.
Proof. solve_decision. Defined.

(** The variants in declaration order; the first has discriminant 1. *)
Definition XError_variants : list XError :=
  [AddrInUse; AlreadyExists; BadAddress; BadState; ConnectionRefused;
   ConnectionReset; DirectoryNotEmpty; InvalidData; InvalidInput; Io;
   IsADirectory; NoMemory; NotADirectory; NotConnected; NotFound;
   PermissionDenied; ResourceBusy; StorageFull; UnexpectedEof; Unsupported;
   WouldBlock; WriteZero].

(** [XError::code]: [self as i32]. *)
Definition code (e : XError) : Z :=
  match e with
  | AddrInUse => 1 | AlreadyExists => 2 | BadAddress => 3 | BadState => 4
  | ConnectionRefused => 5 | ConnectionReset => 6 | DirectoryNotEmpty => 7
  | InvalidData => 8 | InvalidInput => 9 | Io => 10 | IsADirectory => 11
  | NoMemory => 12 | NotADirectory => 13 | NotConnected => 14 | NotFound => 15
  | PermissionDenied => 16 | ResourceBusy => 17 | StorageFull => 18
  | UnexpectedEof => 19 | Unsupported => 20 | WouldBlock => 21 | WriteZero => 22
  end.

Abbreviation variant_count := (Z.of_nat (length XError_variants)).

(** [TryFrom<i32> for XError]: the transmute reads the variant with that
    discriminant. *)
Definition try_from (value : Z) : outcome Z XError :=
  if (0 <? value) && (value <=? variant_count)
  then match XError_variants !! Z.to_nat (value - 1) with
       | Some e => Ok e
       | None => Panic
       end
  else Err value.

(** The errno values the modelled code returns (errno.h). *)
Definition EPERM : Z := 1.
Definition ENOENT : Z := 2.
Definition ESRCH : Z := 3.
Definition EINTR : Z := 4.
Definition EIO : Z := 5.
Definition E2BIG : Z := 7.
Definition ECHILD : Z := 10.
Definition EAGAIN : Z := 11.
Definition ENOMEM : Z := 12.
Definition EACCES : Z := 13.
Definition EFAULT : Z := 14.
Definition EBUSY : Z := 16.
Definition EEXIST : Z := 17.
Definition ENOTDIR : Z := 20.
Definition EISDIR : Z := 21.
Definition EINVAL : Z := 22.
Definition EFBIG : Z := 27.
Definition ENOSPC : Z := 28.
Definition ERANGE : Z := 34.
Definition ENAMETOOLONG : Z := 36.
Definition ENOSYS : Z := 38.
Definition ENOTEMPTY : Z := 39.
Definition ENOMSG : Z := 42.
Definition EIDRM : Z := 43.
Definition EADDRINUSE : Z := 98.
Definition ECONNRESET : Z := 104.
Definition ENOTCONN : Z := 107.
Definition ECONNREFUSED : Z := 111.

(** [From<XError> for LinuxError] *)
Definition linux_error (e : XError) : Z :=
  match e with
  | AddrInUse => EADDRINUSE
  | AlreadyExists => EEXIST
  | BadAddress | BadState => EFAULT
  | ConnectionRefused => ECONNREFUSED
  | ConnectionReset => ECONNRESET
  | DirectoryNotEmpty => ENOTEMPTY
  | InvalidInput | InvalidData => EINVAL
  | Io => EIO
  | IsADirectory => EISDIR
  | NoMemory => ENOMEM
  | NotADirectory => ENOTDIR
  | NotConnected => ENOTCONN
  | NotFound => ENOENT
  | PermissionDenied => EACCES
  | ResourceBusy => EBUSY
  | StorageFull => ENOSPC
  | Unsupported => ENOSYS
  | UnexpectedEof | WriteZero => EIO
  | WouldBlock => EAGAIN
  end.

Lemma try_from_code e : try_from (code e) = Ok e.
Proof. by destruct e. Qed.

(** The decoder accepts exactly the codes of variants, and never reaches an
    invalid transmute. *)
Lemma try_from_spec v :
  try_from v ≠ Panic ∧
  ((∃ e, try_from v = Ok e ∧ code e = v) ∨
   (try_from v = Err v ∧ ∀ e, code e ≠ v)).
Proof.
  unfold try_from. change (Z.of_nat (length XError_variants)) with 22.
  destruct (Z.ltb_spec 0 v), (Z.leb_spec v 22); cbn [andb].
  - assert (∃ n : nat, v = Z.of_nat n + 1 ∧ (n < 22)%nat) as (n & -> & Hn).
    { exists (Z.to_nat (v - 1)). lia. }
    replace (Z.to_nat (Z.of_nat n + 1 - 1)) with n by lia.
    do 22 (destruct n as [|n]; [cbn; eauto|]). lia.
  - split; [done|right]. split; [done|]. intros []; cbn; lia.
  - split; [done|right]. split; [done|]. intros []; cbn; lia.
  - split; [done|right]. split; [done|]. intros []; cbn; lia.
Qed.
