(* ===== verification/BTree.v ===== *)
(** * [BTreeMap] with integer keys

    The standard library's ordered map as the list of its entries in key
    order, with the operations the memory layer uses: [insert], [remove],
    [values] and [range(..=k).next_back()]. *)
From S2P Require Import Prelude.
From stdpp Require Import prelude list sorting.
Open Scope Z_scope.

Section btree.
Context {V : Type}.
Implicit Types (m : list (Z * V)) (k : Z) (v : V).

Fixpoint bt_insert k v m : list (Z * V) :=
  match m with
  | [] => [(k, v)]
  | (k', v') :: m' =>
      if k <? k' then (k, v) :: m
      else if k =? k' then (k, v) :: m'
      else (k', v') :: bt_insert k v m'
  end.
Fixpoint bt_remove k m : option V * list (Z * V) :=
  match m with
  | [] => (None, [])
  | (k', v') :: m' =>
      if k =? k' then (Some v', m')
      else let '(r, m'') := bt_remove k m' in (r, (k', v') :: m'')
  end.
Definition bt_values m : list V := m.*2.
(** [range(..=k).next_back()] *)
Definition bt_floor k m : option (Z * V) :=
  last (filter (λ e, e.1 ≤ k) m).
Definition bt_sorted m : Prop := StronglySorted (λ x y : Z * V, x.1 < y.1) m.

Lemma bt_insert_last k v m :
  (∀ e, e ∈ m → e.1 < k) → bt_insert k v m = m ++ [(k, v)].
Proof.
  induction m as [|[k' v'] m IH]; intros Hm; [done|]. cbn.
  assert (k' < k) by (apply (Hm (k', v')); left).
  rewrite (proj2 (Z.ltb_ge _ _)), (proj2 (Z.eqb_neq _ _)) by lia. f_equal.
  apply IH. intros e He. apply Hm. by right.
Qed.
(** Where a new key goes. *)
Lemma bt_insert_split k v m :
  bt_sorted m → (∀ e, e ∈ m → e.1 ≠ k) →
  ∃ m1 m2, m = m1 ++ m2 ∧ bt_insert k v m = m1 ++ (k, v) :: m2 ∧
    (∀ e, e ∈ m1 → e.1 < k) ∧ (∀ e, e ∈ m2 → k < e.1).
Proof.
  induction m as [|[k' v'] m IH]; intros Hs Hk.
  { exists [], []. split_and!; [done..| |]; intros e He; by apply elem_of_nil in He. }
  apply StronglySorted_inv in Hs as [Hs Hall]. cbn.
  assert (k' ≠ k) by (apply (Hk (k', v')); left).
  destruct (Z.ltb_spec k k') as [Hlt|Hge].
  - exists [], ((k', v') :: m). split_and!; [done..| |].
    + intros e He. by apply elem_of_nil in He.
    + intros e [->|He]%elem_of_cons; [done|]. rewrite Forall_forall in Hall.
      specialize (Hall e He). cbn in Hall. lia.
  - rewrite (proj2 (Z.eqb_neq _ _)) by lia.
    destruct IH as (m1 & m2 & -> & -> & H1 & H2); [done|intros e He; apply Hk; by right|].
    exists ((k', v') :: m1), m2. split_and!; [done..| |done].
    intros e [->|He]%elem_of_cons; [cbn; lia|auto].
Qed.
Lemma bt_remove_new k v m1 m2 :
  (∀ e, e ∈ m1 → e.1 < k) → bt_remove k (m1 ++ (k, v) :: m2) = (Some v, m1 ++ m2).
Proof.
  induction m1 as [|[k' v'] m1 IH]; intros Hm; cbn.
  - by rewrite Z.eqb_refl.
  - assert (k' < k) by (apply (Hm (k', v')); left). rewrite (proj2 (Z.eqb_neq _ _)) by lia.
    rewrite IH; [done|]. intros e He. apply Hm. by right.
Qed.
(** The greatest key not above [k]. *)
Lemma bt_floor_split k m1 e m2 :
  e.1 ≤ k → (∀ e', e' ∈ m2 → k < e'.1) → bt_floor k (m1 ++ e :: m2) = Some e.
Proof.
  intros He Hm2. unfold bt_floor. rewrite filter_app, filter_cons_True by done.
  assert (filter (λ e : Z * V, e.1 ≤ k) m2 = []) as ->.
  { induction m2 as [|x m2 IH]; [done|]. rewrite filter_cons_False.
    - apply IH. intros e' He'. apply Hm2. by right.
    - assert (k < x.1) by (apply Hm2; left). lia. }
  apply last_snoc.
Qed.
Lemma bt_floor_Some k m e :
  bt_sorted m → bt_floor k m = Some e →
  ∃ m1 m2, m = m1 ++ e :: m2 ∧ e.1 ≤ k ∧ ∀ e', e' ∈ m2 → k < e'.1.
Proof.
  induction m as [|x m IH]; [done|]. intros Hs Hf. unfold bt_floor in Hf.
  apply StronglySorted_inv in Hs as [Hs Hall].
  destruct (decide (x.1 ≤ k)) as [Hx|Hx].
  - rewrite filter_cons_True in Hf by done.
    destruct (filter (λ e : Z * V, e.1 ≤ k) m) as [|y l] eqn:Hfm.
    + injection Hf as <-. exists [], m. split_and!; [done..|]. intros e' He'.
      destruct (decide (e'.1 ≤ k)) as [Hle|]; [|lia].
      by pose proof (filter_nil_not_elem_of _ _ _ Hfm Hle).
    + destruct IH as (m1 & m2 & -> & ? & ?); [done| |].
      { unfold bt_floor. rewrite Hfm. exact Hf. }
      exists (x :: m1), m2. done.
  - rewrite filter_cons_False in Hf by done.
    destruct IH as (m1 & m2 & -> & ? & ?); [done|exact Hf|]. exists (x :: m1), m2. done.
Qed.
End btree.
