(* ===== verification/MemAddr.v ===== *)
(** * Addresses, page sizes and flag words

    The kernel's memory code is written against two crates that are not part
    of the repository: [memory_addr] (address alignment, [VirtAddrRange],
    [PageIter]) and [bitflags] (the operators of the [MappingFlags] struct).
    Both are class parameters here, with the documented behaviour the kernel
    relies on as the laws of the class; [memory_addr_ref] and [bitflags_ref]
    are reference instances, used to evaluate the model on concrete inputs.
    The page sizes and the flag constants are those of the repository
    (page_table_multiarch/src/lib.rs, page_table_entry/src/lib.rs). *)
From S2P Require Import Prelude.
From stdpp Require Import prelude list.
Open Scope Z_scope.

(** ** Page sizes (page_table_multiarch/src/lib.rs) *)

Inductive PageSize := Size4K | Size2M | Size1G.
#[export] Instance PageSize_eq_dec : EqDecision PageSize.
Proof. solve_decision. Defined.

(** [usize::from(page_size)] *)
Definition page_bytes (ps : PageSize) : Z :=
  match ps with Size4K => 4096 | Size2M => 2097152 | Size1G => 1073741824 end.

Definition is_huge (ps : PageSize) : bool :=
  match ps with Size1G | Size2M => true | Size4K => false end.

Abbreviation PAGE_SIZE_4K := 4096 (only parsing).

(** [usize::is_multiple_of] *)
Definition is_multiple_of (a b : Z) : bool := a mod b =? 0.

(** ** Mapping flags (page_table_entry/src/lib.rs) *)

Abbreviation READ := 1%Z (only parsing).
Abbreviation WRITE := 2%Z (only parsing).
Abbreviation EXECUTE := 4%Z (only parsing).
Abbreviation USER := 8%Z (only parsing).
Abbreviation DEVICE := 16%Z (only parsing).
Abbreviation UNCACHED := 32%Z (only parsing).
Abbreviation ALLOC_FRAME := 64%Z (only parsing).
Abbreviation PROT_NONE := 128%Z (only parsing).

(** The operators [bitflags!] generates for a flag struct. *)
Class BitFlags := {
  contains : Z → Z → bool;
  intersects : Z → Z → bool;
  flag_union : Z → Z → Z;
  flag_difference : Z → Z → Z;
  (** [T::from_bits_truncate(bits)], with the bits the struct declares *)
  from_bits_truncate : Z → Z → Z;
  contains_spec : ∀ a b, contains a b = (Z.land a b =? b);
  intersects_spec : ∀ a b, intersects a b = negb (Z.land a b =? 0);
  flag_union_spec : ∀ a b, flag_union a b = Z.lor a b;
  flag_difference_spec : ∀ a b, flag_difference a b = Z.ldiff a b;
  from_bits_truncate_spec : ∀ all a, from_bits_truncate all a = Z.land a all;
}.

Declare Scope flags_scope.
Delimit Scope flags_scope with flags.
Infix "|+|" := flag_union (at level 50, left associativity) : flags_scope.
Infix "|-|" := flag_difference (at level 50, left associativity) : flags_scope.
Open Scope flags_scope.

Definition bitflags_ref : BitFlags := {|
  contains a b := Z.land a b =? b;
  intersects a b := negb (Z.land a b =? 0);
  flag_union := Z.lor;
  flag_difference := Z.ldiff;
  from_bits_truncate all a := Z.land a all;
  contains_spec a b := eq_refl;
  intersects_spec a b := eq_refl;
  flag_union_spec a b := eq_refl;
  flag_difference_spec a b := eq_refl;
  from_bits_truncate_spec all a := eq_refl;
|}.

(** ** Address arithmetic and ranges (crate memory_addr) *)

(** [VirtAddrRange]: a half-open interval with public bounds. *)
Record vrange := VRange { vr_start : Z; vr_end : Z }.
#[export] Instance vrange_eq_dec : EqDecision vrange.
Proof. solve_decision. Defined.

Definition vr_nonempty (r : vrange) : Prop := vr_start r < vr_end r.
(** The addresses of a range are [usize] values. *)
Definition vr_usize (r : vrange) : Prop := 0 ≤ vr_start r ∧ vr_end r ≤ usize_max.

(** The pages of an aligned interval, in increasing order. *)
Definition pages (sz lo hi : Z) : list Z :=
  (λ k, lo + sz * k) <$> seqZ 0 ((hi - lo) / sz).

Class MemoryAddr := {
  align_down : Z → Z → Z;
  align_up : Z → Z → Z;
  is_aligned : Z → Z → bool;
  align_offset : Z → Z → Z;
  checked_add : Z → Z → option Z;
  vr_new : Z → Z → option vrange;
  vr_try_from_start_size : Z → Z → option vrange;
  vr_contains : vrange → Z → bool;
  vr_contains_range : vrange → vrange → bool;
  vr_overlaps : vrange → vrange → bool;
  vr_is_empty : vrange → bool;
  vr_size : vrange → Z;
  page_iter : Z → Z → Z → option (list Z);
  align_down_spec : ∀ ps a, 0 ≤ a →
    align_down a (page_bytes ps) = a - a mod page_bytes ps;
  align_up_spec : ∀ ps a, 0 ≤ a → a + page_bytes ps - 1 ≤ usize_max →
    align_up a (page_bytes ps) =
      (a + page_bytes ps - 1) - (a + page_bytes ps - 1) mod page_bytes ps;
  is_aligned_spec : ∀ ps a, 0 ≤ a →
    is_aligned a (page_bytes ps) = (a mod page_bytes ps =? 0);
  align_offset_spec : ∀ ps a, 0 ≤ a →
    align_offset a (page_bytes ps) = a mod page_bytes ps;
  checked_add_spec : ∀ a b, 0 ≤ a → 0 ≤ b →
    checked_add a b = if a + b <=? usize_max then Some (a + b) else None;
  (** [new] panics unless [start <= end]. *)
  vr_new_spec : ∀ a b, vr_new a b = if a <=? b then Some (VRange a b) else None;
  vr_try_from_start_size_spec : ∀ a n, 0 ≤ a → 0 ≤ n →
    vr_try_from_start_size a n =
      if a + n <=? usize_max then Some (VRange a (a + n)) else None;
  vr_contains_spec : ∀ r a,
    vr_contains r a = (vr_start r <=? a) && (a <? vr_end r);
  vr_contains_range_spec : ∀ r r', vr_nonempty r' →
    vr_contains_range r r' = (vr_start r <=? vr_start r') && (vr_end r' <=? vr_end r);
  vr_overlaps_spec : ∀ r r', vr_nonempty r → vr_nonempty r' →
    vr_overlaps r r' = (vr_start r <? vr_end r') && (vr_start r' <? vr_end r);
  vr_is_empty_spec : ∀ r, vr_is_empty r = (vr_end r <=? vr_start r);
  vr_size_spec : ∀ r, vr_start r ≤ vr_end r → vr_size r = vr_end r - vr_start r;
  page_iter_spec : ∀ ps lo hi, 0 ≤ lo ≤ hi →
    page_iter (page_bytes ps) lo hi =
      if (lo mod page_bytes ps =? 0) && (hi mod page_bytes ps =? 0)
      then Some (pages (page_bytes ps) lo hi) else None;
}.

Program Definition memory_addr_ref : MemoryAddr := {|
  align_down a n := a - a mod n;
  align_up a n := (a + n - 1) - (a + n - 1) mod n;
  is_aligned a n := a mod n =? 0;
  align_offset a n := a mod n;
  checked_add := usize_checked_add;
  vr_new a b := if a <=? b then Some (VRange a b) else None;
  vr_try_from_start_size a n :=
    if a + n <=? usize_max then Some (VRange a (a + n)) else None;
  vr_contains r a := (vr_start r <=? a) && (a <? vr_end r);
  vr_contains_range r r' := (vr_start r <=? vr_start r') && (vr_end r' <=? vr_end r);
  vr_overlaps r r' := (vr_start r <? vr_end r') && (vr_start r' <? vr_end r);
  vr_is_empty r := vr_end r <=? vr_start r;
  vr_size r := vr_end r - vr_start r;
  page_iter n lo hi :=
    if (lo mod n =? 0) && (hi mod n =? 0) then Some (pages n lo hi) else None;
|}.
Solve Obligations with done.

(** ** Lemmas on page sizes *)

Lemma page_bytes_pos ps : 0 < page_bytes ps.
Proof. by destruct ps. Qed.
Lemma page_bytes_4k_divide ps : (4096 | page_bytes ps).
Proof. destruct ps; [exists 1|exists 512|exists 262144]; done. Qed.
Lemma page_bytes_bound ps : 4096 ≤ page_bytes ps ≤ 1073741824.
Proof. by destruct ps. Qed.
Lemma aligned_4k ps a : a mod page_bytes ps = 0 → a mod 4096 = 0.
Proof.
  intros H. apply Z.mod_divide; [done|].
  etrans; [apply page_bytes_4k_divide|].
  apply Z.mod_divide; [|done]. pose proof (page_bytes_pos ps); lia.
Qed.

Lemma mod_add_aligned a b n : 0 < n → a mod n = 0 → (a + b) mod n = b mod n.
Proof. intros Hn Ha. rewrite Z.add_mod, Ha, Z.add_0_l, Z.mod_mod by lia. done. Qed.
Lemma mod_sub_aligned a b n :
  0 < n → a mod n = 0 → b mod n = 0 → (a - b) mod n = 0.
Proof. intros Hn Ha Hb. rewrite Zminus_mod, Ha, Hb. by apply Z.mod_0_l; lia. Qed.
Lemma align_down_aligned a n : 0 < n → (a - a mod n) mod n = 0.
Proof.
  intros Hn. rewrite Zminus_mod, Z.mod_mod, Z.sub_diag by lia.
  apply Z.mod_0_l; lia.
Qed.
(** Aligned addresses are at least one page apart. *)
Lemma aligned_lt_step a b n :
  0 < n → a mod n = 0 → b mod n = 0 → a < b → a + n ≤ b.
Proof.
  intros Hn Ha Hb Hlt.
  apply Z.mod_divide in Ha as [x ->]; [|lia]. apply Z.mod_divide in Hb as [y ->]; [|lia].
  assert (x < y) by nia. nia.
Qed.

Lemma elem_of_pages sz lo hi a :
  0 < sz → lo mod sz = 0 → hi mod sz = 0 →
  a ∈ pages sz lo hi ↔ lo ≤ a < hi ∧ a mod sz = 0.
Proof.
  intros Hsz Hlo Hhi. unfold pages. rewrite list_elem_of_fmap.
  assert ((hi - lo) mod sz = 0) as Hd by (apply mod_sub_aligned; done).
  pose proof (Z.div_mod (hi - lo) sz ltac:(lia)) as Hdm.
  split.
  - intros (k & -> & Hk%elem_of_seqZ). split; [nia|].
    rewrite mod_add_aligned by done. rewrite Z.mul_comm. apply Z.mod_mul; lia.
  - intros [Ha Hm]. exists ((a - lo) / sz).
    assert ((a - lo) mod sz = 0) as Hd' by (apply mod_sub_aligned; done).
    pose proof (Z.div_mod (a - lo) sz ltac:(lia)) as Hdm'. split; [lia|].
    apply elem_of_seqZ. nia.
Qed.
Lemma NoDup_pages sz lo hi : 0 < sz → NoDup (pages sz lo hi).
Proof.
  intros Hsz. apply NoDup_fmap_2_strong; [|apply NoDup_seqZ].
  intros x y _ _ ?. nia.
Qed.

(** ** Words as bit strings *)

Lemma testbit_mask lo hi i :
  0 ≤ lo ≤ hi → Z.testbit (Z.shiftl (Z.ones (hi - lo)) lo) i = (lo <=? i) && (i <? hi).
Proof.
  intros Hlo. destruct (Z.leb_spec lo i); cbn [andb].
  - rewrite Z.shiftl_spec by lia. destruct (Z.ltb_spec i hi).
    + apply Z.ones_spec_low. lia.
    + apply Z.ones_spec_high. lia.
  - destruct (Z.ltb_spec i 0); [apply Z.testbit_neg_r; lia|].
    rewrite Z.shiftl_spec_low; [done|lia].
Qed.
Lemma testbit_aligned p n i : 0 ≤ n → p mod 2 ^ n = 0 → i < n → Z.testbit p i = false.
Proof.
  intros Hn Hp Hi. apply Z.mod_divide in Hp as [q ->]; [|lia].
  destruct (Z.ltb_spec i 0); [apply Z.testbit_neg_r; lia|]. apply Z.mul_pow2_bits_low. lia.
Qed.
Lemma testbit_small p n i : 0 ≤ p < 2 ^ n → n ≤ i → Z.testbit p i = false.
Proof.
  intros Hp Hi. destruct (Z.ltb_spec n 0).
  { rewrite Z.pow_neg_r in Hp by done. lia. }
  rewrite <- (Z.mod_small p (2 ^ n)) by done. apply Z.mod_pow2_bits_high. lia.
Qed.

(** ** Lemmas on flags *)

Section flag_lemmas.
Context {BF : BitFlags}.

Lemma testbit_union a b i :
  Z.testbit (a |+| b) i = Z.testbit a i || Z.testbit b i.
Proof. rewrite flag_union_spec. apply Z.lor_spec. Qed.
Lemma testbit_difference a b i :
  Z.testbit (a |-| b) i = Z.testbit a i && negb (Z.testbit b i).
Proof. rewrite flag_difference_spec. apply Z.ldiff_spec. Qed.
Lemma testbit_truncate all a i :
  Z.testbit (from_bits_truncate all a) i = Z.testbit a i && Z.testbit all i.
Proof. rewrite from_bits_truncate_spec. apply Z.land_spec. Qed.
Lemma contains_testbits a b :
  contains a b = true ↔ ∀ i, Z.testbit b i = true → Z.testbit a i = true.
Proof.
  rewrite contains_spec, Z.eqb_eq. split.
  - intros H i Hi. rewrite <- H, Z.land_spec in Hi. by apply andb_true_iff in Hi as [??].
  - intros H. apply Z.bits_inj_iff. intros i. rewrite Z.land_spec.
    destruct (Z.testbit b i) eqn:Hb; [by rewrite H|apply andb_false_r].
Qed.
Lemma contains_refl a : contains a a = true.
Proof. rewrite contains_testbits. done. Qed.
Lemma contains_trans a b c : contains a b = true → contains b c = true → contains a c = true.
Proof. rewrite !contains_testbits. auto. Qed.
Lemma contains_empty a : contains a 0 = true.
Proof. rewrite contains_testbits. intros i. by rewrite Z.bits_0. Qed.
Lemma testbit_pow2 k i : 0 ≤ k → Z.testbit (2 ^ k) i = (k =? i).
Proof.
  intros Hk. rewrite <- Z.shiftl_1_l. destruct (Z.eqb_spec k i) as [->|Hne].
  - rewrite Z.shiftl_spec_high by lia. by rewrite Z.sub_diag.
  - rewrite Z.shiftl_1_l. rewrite Z.pow2_bits_false; [done|lia].
Qed.
Lemma contains_pow2 a k : 0 ≤ k → contains a (2 ^ k) = Z.testbit a k.
Proof.
  intros Hk. apply Bool.eq_true_iff_eq. rewrite contains_testbits. split.
  - intros H. apply H. rewrite testbit_pow2 by done. apply Z.eqb_refl.
  - intros H i Hi. rewrite testbit_pow2 in Hi by done.
    apply Z.eqb_eq in Hi as <-. done.
Qed.
Lemma contains_bit a c k : 0 ≤ k → c = 2 ^ k → contains a c = Z.testbit a k.
Proof. intros ? ->. by apply contains_pow2. Qed.
Lemma contains_union a b c : contains a (b |+| c) = contains a b && contains a c.
Proof.
  apply Bool.eq_true_iff_eq. rewrite andb_true_iff, !contains_testbits.
  setoid_rewrite testbit_union. setoid_rewrite orb_true_iff. naive_solver.
Qed.
Lemma intersects_intro a b i :
  Z.testbit a i = true → Z.testbit b i = true → intersects a b = true.
Proof.
  intros Ha Hb. rewrite intersects_spec, negb_true_iff, Z.eqb_neq. intros H0.
  assert (Z.testbit (Z.land a b) i = true) as H by by rewrite Z.land_spec, Ha, Hb.
  by rewrite H0, Z.bits_0 in H.
Qed.
Lemma intersects_false a b :
  (∀ i, Z.testbit b i = true → Z.testbit a i = false) → intersects a b = false.
Proof.
  intros H. rewrite intersects_spec, negb_false_iff, Z.eqb_eq.
  apply Z.bits_inj_iff. intros i. rewrite Z.land_spec, Z.bits_0.
  destruct (Z.testbit b i) eqn:Hb; [by rewrite H|apply andb_false_r].
Qed.
Lemma intersects_union a b c :
  intersects a (b |+| c) = intersects a b || intersects a c.
Proof.
  rewrite !intersects_spec, flag_union_spec, Z.land_lor_distr_r, <- negb_andb.
  f_equal. apply Bool.eq_true_iff_eq. rewrite andb_true_iff, !Z.eqb_eq. apply Z.lor_eq_0_iff.
Qed.
Lemma intersects_pow2 a k : 0 ≤ k → intersects a (2 ^ k) = Z.testbit a k.
Proof.
  intros Hk. destruct (Z.testbit a k) eqn:Ha.
  - apply (intersects_intro a _ k); [done|]. rewrite testbit_pow2 by done. apply Z.eqb_refl.
  - apply intersects_false. intros i. rewrite testbit_pow2 by done. by intros <-%Z.eqb_eq.
Qed.
Lemma intersects_bit a c k : 0 ≤ k → c = 2 ^ k → intersects a c = Z.testbit a k.
Proof. intros ? ->. by apply intersects_pow2. Qed.
End flag_lemmas.

Create Rewrite HintDb flags.
#[export] Hint Rewrite @contains_union @intersects_union
  @testbit_union @testbit_difference @testbit_truncate : flags.

Ltac word_const c :=
  first [is_const c | match c with Z0 => idtac | Zpos _ => idtac | Zneg _ => idtac end].
(** Turns tests of single flags into tests of bits. *)
Ltac test_bits :=
  repeat match goal with
  | |- context [contains ?a ?c] =>
      word_const c;
      let k := eval vm_compute in (Z.log2 c) in
      rewrite (contains_bit a c k ltac:(lia) ltac:(reflexivity))
  | |- context [intersects ?a ?c] =>
      word_const c;
      let k := eval vm_compute in (Z.log2 c) in
      rewrite (intersects_bit a c k ltac:(lia) ltac:(reflexivity))
  end.
(** Evaluates the bits of the named and literal words in the goal. *)
Ltac eval_bits :=
  repeat match goal with
  | |- context [Z.testbit ?c ?i] =>
      word_const c;
      let v := eval vm_compute in (Z.testbit c i) in
      match v with
      | true => change (Z.testbit c i) with true
      | false => change (Z.testbit c i) with false
      end
  end.
(** Reduces flag expressions to the bits of the words they are made of. *)
Ltac flag_bits :=
  autorewrite with flags; test_bits; autorewrite with flags; eval_bits; cbn [andb orb negb].
