(* ===== verification/Frame.v ===== *)
(** * Physical frames (xcore/xmm/src/frame.rs)

    Every allocator-backed 4-KiB frame has a reference count in the frame
    database; a [Frame] value and every allocator-owned page-table leaf hold
    exactly one reference. The machine state below holds the counts, the page
    allocator's state, and the bytes of the kernel's linear mapping. *)
From S2P Require Import Prelude Errno MemAddr.
From stdpp Require Import prelude gmap list.
Open Scope Z_scope.

(** ** Build configuration (xconfig) and the page allocator (xalloc) *)

(** The constants the build generates from configs/*.toml. *)
Class Config := {
  SMP : Z;
  PHYS_MEMORY_BASE : Z;
  PHYS_MEMORY_SIZE : Z;
  PHYS_VIRT_OFFSET : Z;
  target_riscv : bool;
  cfg_base_aligned : PHYS_MEMORY_BASE mod 4096 = 0;
  cfg_bounds : 0 ≤ PHYS_MEMORY_BASE ∧ 0 ≤ PHYS_MEMORY_SIZE ∧ 0 ≤ PHYS_VIRT_OFFSET ∧
    PHYS_MEMORY_BASE + PHYS_MEMORY_SIZE + PHYS_VIRT_OFFSET ≤ 2 ^ 64;
}.

(** [global_allocator().alloc_pages(1, 4096)] and [dealloc_pages(pos, 1)]:
    an allocated page is fresh until it is given back. *)
Class PageAllocator := {
  pa_state : Type;
  alloc_page : pa_state → option (Z * pa_state);
  dealloc_page : Z → pa_state → pa_state;
  pa_used : pa_state → gset Z;
  alloc_page_fresh : ∀ s v s', alloc_page s = Some (v, s') →
    (v ∉ pa_used s) ∧ pa_used s' = ({[v]} ∪ pa_used s) ∧ 0 ≤ v < 2 ^ 64;
  dealloc_page_used : ∀ s v, v ∈ pa_used s →
    pa_used (dealloc_page v s) = (pa_used s ∖ {[v]});
}.

Definition wrap64 (z : Z) : Z := z mod 2 ^ 64.

Section frame.
Context {CFG : Config} {PA : PageAllocator} {BF : BitFlags}.

(** ** xhal/src/mem.rs: the linear mapping *)

Definition virt_to_phys (vaddr : Z) : Z := wrap64 (vaddr - PHYS_VIRT_OFFSET).
Definition phys_to_virt (paddr : Z) : Z := wrap64 (paddr + PHYS_VIRT_OFFSET).

(** ** Machine state *)

Record machine := Machine {
  m_alloc : pa_state;
  (** the [FrameMeta] array: reference count by frame index *)
  m_refs : Z → Z;
  (** bytes at kernel virtual addresses of the linear mapping *)
  m_mem : Z → Z;
  (** outcomes of the next [Vec::try_reserve] calls; they succeed when the
      list is exhausted *)
  m_reserve : list bool;
  (** pages whose translation has been flushed from the TLB, latest first *)
  m_tlb : list Z;
}.

Definition set_alloc (m : machine) a := Machine a (m_refs m) (m_mem m) (m_reserve m) (m_tlb m).
Definition set_refs (m : machine) r := Machine (m_alloc m) r (m_mem m) (m_reserve m) (m_tlb m).
Definition set_mem (m : machine) w := Machine (m_alloc m) (m_refs m) w (m_reserve m) (m_tlb m).

(** [TlbFlush::flush] (page_table_multiarch/src/lib.rs) *)
Definition tlb_flush (vaddr : Z) (m : machine) : machine :=
  Machine (m_alloc m) (m_refs m) (m_mem m) (m_reserve m) (vaddr :: m_tlb m).

(** [Vec::try_reserve(..).is_ok()] *)
Definition try_reserve {E} : prog machine E bool := λ m,
  match m_reserve m with
  | [] => (Ok true, m)
  | b :: bs => (Ok b, Machine (m_alloc m) (m_refs m) (m_mem m) bs (m_tlb m))
  end.

(** ** FrameKind *)

Inductive FrameKind := Alloc | Static.
#[export] Instance FrameKind_eq_dec : EqDecision FrameKind.
Proof. solve_decision. Defined.

Definition kind_from_flags (flags : Z) : FrameKind :=
  if contains flags ALLOC_FRAME then Alloc else Static.
Definition kind_apply (k : FrameKind) (flags : Z) : Z :=
  match k with
  | Alloc => flags |+| ALLOC_FRAME
  | Static => flags |-| ALLOC_FRAME
  end.

(** ** FrameMeta: the checked reference count of one frame

    [try_get] computes [count + 1] also at the maximum, as an argument of
    [then_some]. The definition has what it returns there without overflow
    checks, [false]; with them the addition panics. *)

Definition meta_claim {E} (i : Z) : prog machine E bool := λ m,
  if m_refs m i =? 0 then (Ok true, set_refs m (fupd (m_refs m) i 1)) else (Ok false, m).
Definition meta_try_get {E} (i : Z) : prog machine E bool := λ m,
  let count := m_refs m i in
  if negb (count =? 0) && negb (count =? u32_max)
  then (Ok true, set_refs m (fupd (m_refs m) i (count + 1))) else (Ok false, m).
Definition meta_put {E} (i : Z) : prog machine E bool := λ m,
  let previous := m_refs m i in
  if previous =? 0 then (Panic, m)
  else (Ok (previous =? 1), set_refs m (fupd (m_refs m) i (previous - 1))).
Definition meta_is_unique (m : machine) (i : Z) : bool := m_refs m i =? 1.

(** ** FrameDatabase *)

Definition frame_count : Z := PHYS_MEMORY_SIZE / PAGE_SIZE_4K.

(** [FrameDatabase::metadata]: the index of the descriptor of [paddr]. *)
Definition metadata (paddr : Z) : option Z :=
  if paddr <? PHYS_MEMORY_BASE then None
  else
    let offset := paddr - PHYS_MEMORY_BASE in
    if negb (is_multiple_of offset PAGE_SIZE_4K) then None
    else
      let index := offset / PAGE_SIZE_4K in
      if frame_count <=? index then None else Some index.

Definition metadata_res (paddr : Z) : outcome XError Z := ok_or BadAddress (metadata paddr).

Definition release_reference {E} (paddr : Z) : prog machine E () :=
  i ← lift (expect (metadata paddr));
  last ← meta_put i;
  if last : bool then modify (λ m, set_alloc m (dealloc_page (phys_to_virt paddr) (m_alloc m)))
  else mret ().

(** ** Frame *)

Record Frame := MkFrame { f_paddr : Z }.

Definition frame_allocate_zeroed {E} : prog machine E (option Frame) :=
  a ← gets m_alloc;
  match alloc_page a with
  | None => mret None
  | Some (vaddr, a') =>
      modify (λ m, set_alloc m a');;
      let paddr := virt_to_phys vaddr in
      match metadata paddr with
      | None => modify (λ m, set_alloc m (dealloc_page vaddr (m_alloc m)));; mret None
      | Some i =>
          claimed ← meta_claim i;
          lift (assert claimed);;
          modify (λ m, set_mem m (mem_fill (m_mem m) vaddr PAGE_SIZE_4K 0));;
          mret (Some (MkFrame paddr))
      end
  end.

(** [Frame::try_write_at] *)
Definition frame_try_write_at {E} (f : Frame) (offset : Z) (source : list Z) :
    prog machine E bool :=
  match usize_checked_add offset (Z.of_nat (length source)) with
  | None => mret false
  | Some fin =>
      if PAGE_SIZE_4K <? fin then mret false
      else
        i ← lift (expect (metadata (f_paddr f)));
        unique ← gets (λ m, meta_is_unique m i);
        if unique : bool then
          modify (λ m, set_mem m (mem_write (m_mem m) (phys_to_virt (f_paddr f) + offset) source));;
          mret true
        else mret false
  end.

(** [Frame::is_unique] *)
Definition frame_is_unique {E} (f : Frame) : prog machine E bool :=
  i ← lift (expect (metadata (f_paddr f)));
  gets (λ m, meta_is_unique m i).

(** [Frame::access_at]: bounds check shared by the byte accessors. *)
Definition frame_access_at (f : Frame) (offset len : Z) : outcome XError Z :=
  if negb (SMP =? 1) then Err Unsupported
  else
    fin ← ok_or InvalidInput (usize_checked_add offset len);
    if PAGE_SIZE_4K <? fin then Err InvalidInput
    else Ok (phys_to_virt (f_paddr f) + offset).

Definition frame_read_bytes (f : Frame) (offset len : Z) : prog machine XError (list Z) :=
  source ← lift (frame_access_at f offset len);
  gets (λ m, mem_read (m_mem m) source len).
Definition frame_write_bytes (f : Frame) (offset : Z) (source : list Z) : prog machine XError () :=
  destination ← lift (frame_access_at f offset (Z.of_nat (length source)));
  modify (λ m, set_mem m (mem_write (m_mem m) destination source)).

Definition frame_deep_copy {E} (f : Frame) : prog machine E (option Frame) :=
  copy ← frame_allocate_zeroed;
  match copy with
  | None => mret None
  | Some c =>
      modify (λ m, set_mem m (mem_copy (m_mem m) (phys_to_virt (f_paddr f))
                                (phys_to_virt (f_paddr c)) PAGE_SIZE_4K));;
      mret (Some c)
  end.

(** [Frame::into_pte]: the reference is transferred, nothing is released. *)
Definition frame_into_pte (f : Frame) : Z := f_paddr f.

Definition frame_clone_from_pte (paddr : Z) : prog machine XError Frame :=
  i ← lift (metadata_res paddr);
  got ← meta_try_get i;
  if got : bool then mret (MkFrame paddr) else throw BadState.

(** [Frame::live_metadata] *)
Definition frame_live_metadata (paddr : Z) : prog machine XError Z :=
  i ← lift (metadata_res paddr);
  count ← gets (λ m, m_refs m i);
  if count =? 0 then throw BadState else mret i.
Definition frame_pte_is_unique (paddr : Z) : prog machine XError bool :=
  i ← frame_live_metadata paddr;
  gets (λ m, meta_is_unique m i).
Definition frame_validate_pte (paddr : Z) : prog machine XError () :=
  frame_live_metadata paddr;; mret ().
Definition frame_take_from_pte (paddr : Z) : prog machine XError Frame :=
  frame_validate_pte paddr;; mret (MkFrame paddr).

(** [Clone] and [Drop] *)
Definition frame_clone {E} (f : Frame) : prog machine E Frame :=
  i ← lift (expect (metadata (f_paddr f)));
  got ← meta_try_get i;
  lift (assert got);;
  mret (MkFrame (f_paddr f)).
Definition frame_drop {E} (f : Frame) : prog machine E () := release_reference (f_paddr f).

(** ** StaticFrameRange *)

Record StaticFrameRange := MkStaticFrameRange {
  sfr_start : Z; sfr_size : Z; sfr_allowed : Z }.

Definition sfr_new (start size allowed : Z) : outcome XError StaticFrameRange :=
  if (size =? 0) || bool_decide (usize_checked_add start size = None) then Err InvalidInput
  else Ok (MkStaticFrameRange start size (allowed |-| USER |-| ALLOC_FRAME |-| PROT_NONE)).
Definition sfr_allows (r : StaticFrameRange) (flags : Z) : bool :=
  contains (sfr_allowed r) (flags |-| USER |-| ALLOC_FRAME |-| PROT_NONE).
Definition sfr_subrange (r : StaticFrameRange) (offset size : Z) :
    outcome XError StaticFrameRange :=
  fin ← ok_or InvalidInput (usize_checked_add offset size);
  if (size =? 0) || (sfr_size r <? fin) then Err InvalidInput
  else
    start ← ok_or InvalidInput (usize_checked_add (sfr_start r) offset);
    Ok (MkStaticFrameRange start size (sfr_allowed r)).

(** ** Lemmas: the database and the linear mapping *)

Definition frame_addr (i : Z) : Z := PHYS_MEMORY_BASE + 4096 * i.
Definition frame_valid (i : Z) : Prop := 0 ≤ i < frame_count.

Lemma metadata_frame_addr i : frame_valid i → metadata (frame_addr i) = Some i.
Proof.
  unfold frame_valid, frame_addr. intros Hi. unfold metadata, is_multiple_of.
  replace (PHYS_MEMORY_BASE + 4096 * i - PHYS_MEMORY_BASE) with (i * 4096) by lia.
  rewrite Z.mod_mul, Z.div_mul by done. split_zbool; try done; lia.
Qed.
Lemma metadata_Some p i : metadata p = Some i ↔ frame_valid i ∧ p = frame_addr i.
Proof.
  split; [|intros [? ->]; by apply metadata_frame_addr].
  unfold metadata, frame_valid, frame_addr, is_multiple_of.
  pose proof (Z.div_mod (p - PHYS_MEMORY_BASE) 4096 ltac:(lia)).
  split_zbool; intros [= <-]; try done. split; [|lia]. split; [|lia].
  apply Z.div_pos; lia.
Qed.

Lemma frame_vaddr i :
  frame_valid i → phys_to_virt (frame_addr i) = frame_addr i + PHYS_VIRT_OFFSET.
Proof.
  unfold frame_valid, frame_addr, phys_to_virt, wrap64, frame_count. intros Hi.
  pose proof cfg_bounds. pose proof (Z.div_mod PHYS_MEMORY_SIZE 4096 ltac:(lia)).
  apply Z.mod_small. pose proof (Z.mod_pos_bound PHYS_MEMORY_SIZE 4096). lia.
Qed.
Lemma phys_to_virt_to_phys v : 0 ≤ v < 2 ^ 64 → phys_to_virt (virt_to_phys v) = v.
Proof.
  intros Hv. unfold phys_to_virt, virt_to_phys, wrap64.
  rewrite Zplus_mod_idemp_l. replace (v - PHYS_VIRT_OFFSET + PHYS_VIRT_OFFSET) with v by lia.
  by apply Z.mod_small.
Qed.

(** The byte addresses of a frame, in the linear mapping. *)
Definition frame_page (i x : Z) : Prop :=
  phys_to_virt (frame_addr i) ≤ x < phys_to_virt (frame_addr i) + 4096.
#[export] Instance frame_page_dec i x : Decision (frame_page i x).
Proof. unfold frame_page. apply _. Defined.
Lemma frame_page_disjoint i j x :
  frame_valid i → frame_valid j → frame_page i x → frame_page j x → i = j.
Proof. intros Hi Hj. unfold frame_page. rewrite !frame_vaddr by done. unfold frame_addr. lia. Qed.

(** ** The reference-count invariant

    Counts stay in range, and a counted frame is a page the allocator has
    handed out and not taken back. *)
Record mach_wf (m : machine) : Prop := {
  wf_refs_range : ∀ i, 0 ≤ m_refs m i ≤ u32_max;
  wf_refs_used : ∀ i, m_refs m i ≠ 0 →
    frame_valid i ∧ phys_to_virt (frame_addr i) ∈ pa_used (m_alloc m);
}.

(** What the frame primitives leave alone. *)
Definition same_mem (m m' : machine) : Prop :=
  m_mem m' = m_mem m ∧ m_reserve m' = m_reserve m ∧ m_tlb m' = m_tlb m.

(** The page of a newly allocated frame. *)
Definition fresh_page (m m' : machine) (p : Z) : Prop :=
  (phys_to_virt p ∉ pa_used (m_alloc m)) ∧
  pa_used (m_alloc m') = {[phys_to_virt p]} ∪ pa_used (m_alloc m).

Lemma mach_wf_same m m' :
  mach_wf m → m_alloc m' = m_alloc m → m_refs m' = m_refs m → mach_wf m'.
Proof. intros [? ?] Ha Hr. split; rewrite ?Ha, ?Hr; done. Qed.
Lemma mach_wf_fupd m i c :
  mach_wf m → 0 ≤ c ≤ u32_max →
  (c ≠ 0 → frame_valid i ∧ phys_to_virt (frame_addr i) ∈ pa_used (m_alloc m)) →
  mach_wf (set_refs m (fupd (m_refs m) i c)).
Proof.
  intros [Hr Hu] Hc Hi. split; cbn; intros j; rewrite fupd_case; case_decide; subst; auto.
Qed.
Lemma mach_wf_dealloc m i :
  mach_wf m → m_refs m i = 0 → frame_valid i →
  phys_to_virt (frame_addr i) ∈ pa_used (m_alloc m) →
  mach_wf (set_alloc m (dealloc_page (phys_to_virt (frame_addr i)) (m_alloc m))).
Proof.
  intros [Hr Hu] H0 Hv Hin. split; cbn; [done|]. intros j Hj.
  destruct (Hu j Hj) as [Hvj Huj]. split; [done|].
  rewrite dealloc_page_used by done. apply elem_of_difference. split; [done|].
  rewrite elem_of_singleton, !frame_vaddr by done. intros Heq.
  assert (j = i) as -> by (unfold frame_addr in Heq; lia). done.
Qed.

Lemma frame_drop_spec {E} m p i :
  mach_wf m → metadata p = Some i → m_refs m i ≠ 0 →
  wp (frame_drop (E:=E) (MkFrame p)) m (λ r m', r = Ok () ∧ mach_wf m' ∧ same_mem m m' ∧
    m_refs m' = fupd (m_refs m) i (m_refs m i - 1) ∧
    pa_used (m_alloc m') =
      pa_used (m_alloc m) ∖ if m_refs m i =? 1 then {[phys_to_virt p]} else ∅).
Proof.
  intros Hwf Hp Hi. unfold frame_drop, release_reference.
  wp_step. wp_step. cbn [f_paddr]. rewrite Hp. cbn. wp_step.
  eapply wp_eq; [unfold meta_put; rewrite (proj2 (Z.eqb_neq _ _) Hi); reflexivity|].
  destruct (wf_refs_used _ Hwf i Hi) as [Hv Hu]. apply metadata_Some in Hp as [_ ->].
  pose proof (wf_refs_range _ Hwf i).
  assert (mach_wf (set_refs m (fupd (m_refs m) i (m_refs m i - 1)))) as Hwf'
    by (apply mach_wf_fupd; [done|lia|done]).
  destruct (Z.eqb_spec (m_refs m i) 1) as [Heq|Hne]; cbn.
  - split_and!; try done; [|by apply dealloc_page_used].
    apply (mach_wf_dealloc _ i Hwf'); try done. cbn. rewrite fupd_eq. lia.
  - split_and!; try done. by rewrite difference_empty_L.
Qed.

(** Allocation: the frame is new (its count was zero), has one reference and
    reads as zeroes; no other frame changes, and neither assertion fires. *)
Lemma frame_allocate_zeroed_spec {E} m :
  mach_wf m →
  wp (frame_allocate_zeroed (E:=E)) m (λ r m', mach_wf m' ∧ (m_reserve m' = m_reserve m ∧ m_tlb m' = m_tlb m) ∧
    match r with
    | Ok None => m_refs m' = m_refs m ∧ m_mem m' = m_mem m ∧
        pa_used (m_alloc m') = pa_used (m_alloc m)
    | Ok (Some f) => ∃ i, metadata (f_paddr f) = Some i ∧ m_refs m i = 0 ∧
        m_refs m' = fupd (m_refs m) i 1 ∧ fresh_page m m' (f_paddr f) ∧
        (∀ x, m_mem m' x = if decide (frame_page i x) then 0 else m_mem m x)
    | _ => False
    end).
Proof.
  intros Hwf. unfold frame_allocate_zeroed. wp_step. wp_step.
  destruct (alloc_page (m_alloc m)) as [[v a']|] eqn:Ha; [|by wp_step].
  apply alloc_page_fresh in Ha as (Hnew & Hused & Hv). wp_step. wp_step.
  assert (mach_wf (set_alloc m a')) as Hwf'.
  { split; cbn; [apply Hwf|]. intros i Hi. apply (wf_refs_used _ Hwf) in Hi as [??].
    rewrite Hused. set_solver. }
  destruct (metadata (virt_to_phys v)) as [i|] eqn:Hmeta.
  - pose proof Hmeta as [Hvi Hp]%metadata_Some.
    assert (phys_to_virt (frame_addr i) = v) as Hpv
      by (rewrite <- Hp; by apply phys_to_virt_to_phys).
    assert (m_refs m i = 0) as H0.
    { destruct (Z.eq_dec (m_refs m i) 0) as [|Hne]; [done|].
      apply (wf_refs_used _ Hwf) in Hne as [_ Hin]. by rewrite Hpv in Hin. }
    wp_step. eapply wp_eq; [unfold meta_claim; cbn; rewrite H0; reflexivity|].
    wp_steps. cbn. split_and!; [|done|done|].
    + eapply mach_wf_same; [apply (mach_wf_fupd _ i 1 Hwf')|done..]; [done|].
      cbn. rewrite Hpv, Hused. set_solver.
    + exists i. split_and!; [done..| |].
      { split; cbn; rewrite phys_to_virt_to_phys by done; done. }
      intros x. case_decide as Hx; unfold frame_page in Hx; rewrite Hpv in Hx;
        [by apply mem_fill_inside|apply mem_fill_outside; lia].
  - wp_steps. cbn. split_and!; [split; cbn; [apply Hwf|]|done|done|done|done|].
    { intros i Hi. apply (wf_refs_used _ Hwf) in Hi as [??]. split; [done|].
      rewrite dealloc_page_used; set_solver. }
    rewrite dealloc_page_used; set_solver.
Qed.

(** A deep copy is a fresh frame with the same bytes. *)
Lemma frame_deep_copy_spec {E} m p j :
  mach_wf m → metadata p = Some j → m_refs m j ≠ 0 →
  wp (frame_deep_copy (E:=E) (MkFrame p)) m (λ r m', mach_wf m' ∧ (m_reserve m' = m_reserve m ∧ m_tlb m' = m_tlb m) ∧
    match r with
    | Ok None => m_refs m' = m_refs m ∧ m_mem m' = m_mem m ∧
        pa_used (m_alloc m') = pa_used (m_alloc m)
    | Ok (Some f) => ∃ i, metadata (f_paddr f) = Some i ∧ i ≠ j ∧ m_refs m i = 0 ∧
        m_refs m' = fupd (m_refs m) i 1 ∧ fresh_page m m' (f_paddr f) ∧
        (∀ k, 0 ≤ k < 4096 →
           m_mem m' (phys_to_virt (f_paddr f) + k) = m_mem m (phys_to_virt p + k)) ∧
        (∀ x, ¬ frame_page i x → m_mem m' x = m_mem m x)
    | _ => False
    end).
Proof.
  intros Hwf Hp Hj. unfold frame_deep_copy. wp_step.
  eapply wp_mono; [by apply frame_allocate_zeroed_spec|].
  intros [[[q]|]| |] m' (Hwf' & Hres & H); try done.
  destruct H as (i & Hi & H0 & Hrefs & Hfresh & Hmem). wp_steps. cbn in *.
  assert (i ≠ j) as Hij by (intros ->; done).
  pose proof Hi as [Hvi ->]%metadata_Some. pose proof Hp as [Hvj ->]%metadata_Some.
  split_and!; [by eapply mach_wf_same|apply Hres..|]. exists i. split_and!; [done..| |].
  - intros k Hk. rewrite mem_copy_inside by lia. rewrite Hmem.
    replace (phys_to_virt (frame_addr j) + (phys_to_virt (frame_addr i) + k -
      phys_to_virt (frame_addr i))) with (phys_to_virt (frame_addr j) + k) by lia.
    rewrite decide_False; [done|]. intros Hpage.
    apply Hij, (frame_page_disjoint i j (phys_to_virt (frame_addr j) + k)); try done.
    unfold frame_page. lia.
  - intros x Hx. rewrite mem_copy_outside by (unfold frame_page in Hx; lia).
    rewrite Hmem. by rewrite decide_False.
Qed.

Lemma meta_try_get_live {E} m i :
  m_refs m i ≠ 0 →
  meta_try_get (E:=E) i m =
    if m_refs m i =? u32_max then (Ok false, m)
    else (Ok true, set_refs m (fupd (m_refs m) i (m_refs m i + 1))).
Proof.
  intros Hi. unfold meta_try_get. rewrite (proj2 (Z.eqb_neq _ _) Hi).
  by destruct (m_refs m i =? u32_max).
Qed.

(** Taking a further reference of a live frame. *)
Lemma frame_clone_from_pte_spec m p i :
  mach_wf m → metadata p = Some i → m_refs m i ≠ 0 →
  wp (frame_clone_from_pte p) m (λ r m', mach_wf m' ∧ same_mem m m' ∧
    match r with
    | Ok f => f = MkFrame p ∧ m_alloc m' = m_alloc m ∧
        m_refs m' = fupd (m_refs m) i (m_refs m i + 1)
    | Err e => e = BadState ∧ m_refs m i = u32_max ∧ m' = m
    | Panic => False
    end).
Proof.
  intros Hwf Hp Hi. unfold frame_clone_from_pte, metadata_res. wp_step. wp_step.
  rewrite Hp. cbn. wp_step. pose proof (wf_refs_range _ Hwf i).
  unfold wp. rewrite meta_try_get_live by done.
  destruct (Z.eqb_spec (m_refs m i) u32_max); cbn; [done|]. split_and!; try done.
  apply mach_wf_fupd; [done|lia|]. intros _. by apply Hwf.
Qed.

Lemma frame_take_from_pte_spec m p i :
  metadata p = Some i → m_refs m i ≠ 0 →
  frame_take_from_pte p m = (Ok (MkFrame p), m).
Proof.
  intros Hp Hi. unfold frame_take_from_pte, frame_validate_pte, frame_live_metadata, metadata_res,
    mbind, prog_bind, lift, gets. rewrite Hp. cbn. by rewrite (proj2 (Z.eqb_neq _ _) Hi).
Qed.
End frame.
