(* ===== verification/PageTable.v ===== *)
(** * The page-table interface

    What [AddressSpace] relies on of the hardware page table
    (crates/page_table_multiarch): a set of leaves, keyed by the virtual
    address of the page, read and changed by the operations of
    [PageTable64]. [PageTable] is the contract; PageTable64.v gives the
    implementation that meets it. *)
From S2P Require Import Prelude MemAddr Frame.
From stdpp Require Import prelude gmap list sorting.
Open Scope Z_scope.

(** page_table_multiarch/src/lib.rs; in a module of its own, since [XError]
    has constructors of the same names. *)
Module Paging.
Inductive PagingError := NoMemory | NotAligned | NotMapped | AlreadyMapped | MappedToHugePage.
#[export] Instance PagingError_eq_dec : EqDecision PagingError.
Proof. solve_decision. Defined.
End Paging.
Abbreviation PagingError := Paging.PagingError.

(** ** Leaves *)

Record leaf := Leaf { lf_paddr : Z; lf_flags : Z; lf_size : PageSize }.
#[export] Instance leaf_eq_dec : EqDecision leaf.
Proof. solve_decision. Defined.

(** The bytes the leaf based at [b] translates. *)
Definition covers (L : gmap Z leaf) (a b : Z) (lf : leaf) : Prop :=
  L !! b = Some lf ∧ b ≤ a < b + page_bytes (lf_size lf).

Definition leaf_try (L : gmap Z leaf) (a : Z) (ps : PageSize) : option (Z * leaf) :=
  let b := a - a mod page_bytes ps in
  lf ← L !! b;
  if bool_decide (lf_size lf = ps) then Some (b, lf) else None.
(** The leaf that translates [a]. *)
Definition leaf_find (L : gmap Z leaf) (a : Z) : option (Z * leaf) :=
  match leaf_try L a Size4K with
  | Some r => Some r
  | None => match leaf_try L a Size2M with Some r => Some r | None => leaf_try L a Size1G end
  end.

(** A leaf that meets [lo, hi). *)
Definition leaf_meets (lo hi b : Z) (lf : leaf) : Prop :=
  b < hi ∧ lo < b + page_bytes (lf_size lf).

Section interface.
Context {CFG : Config} {PA : PageAllocator} {BF : BitFlags}.

(** Flag words that describe a resident leaf. *)
Definition leaf_flags (f : Z) : Prop :=
  contains f PROT_NONE = true ∨
  (contains f PROT_NONE = false ∧
   (intersects f (READ |+| EXECUTE) = true ∨
    target_riscv = false ∧ intersects f (READ |+| WRITE |+| EXECUTE) = true)).

Record leaves_wf (readback : Z → Z) (pa_bits : Z) (L : gmap Z leaf) : Prop := {
  lw_base : ∀ b lf, L !! b = Some lf →
    b mod page_bytes (lf_size lf) = 0 ∧ 0 ≤ b ∧ b + page_bytes (lf_size lf) ≤ 2 ^ 64;
  lw_paddr : ∀ b lf, L !! b = Some lf →
    lf_paddr lf mod page_bytes (lf_size lf) = 0 ∧ 0 ≤ lf_paddr lf < 2 ^ pa_bits;
  lw_flags : ∀ b lf, L !! b = Some lf →
    leaf_flags (lf_flags lf) ∧ readback (lf_flags lf) = lf_flags lf;
  lw_disjoint : ∀ a b b' lf lf', covers L a b lf → covers L a b' lf' → b = b';
}.

(** The operations act on the page table and, where they allocate tables, on
    the page allocator. [pt_rep t L T]: the table translates by the leaves [L]
    and owns the allocator pages [T]. *)
Class PageTable := {
  page_table : Type;
  PA_MAX_BITS : Z;
  vaddr_is_valid : Z → bool;
  readback : Z → Z;

  pt_try_new : prog pa_state PagingError page_table;
  pt_query : page_table → Z → outcome PagingError (Z * Z * PageSize);
  pt_map : Z → Z → PageSize → Z → prog (page_table * pa_state) PagingError ();
  pt_remap : Z → Z → Z → prog page_table PagingError PageSize;
  pt_protect : Z → Z → prog page_table PagingError PageSize;
  pt_unmap : Z → prog page_table PagingError (Z * PageSize);
  (** the arguments [walk_leaf_range] passes to its visitor, in order *)
  pt_walk_leaf_range : page_table → Z → Z → outcome PagingError (list (Z * Z * Z * PageSize));
  pt_drop : page_table → pa_state → pa_state;

  pt_rep : page_table → gmap Z leaf → gset Z → Prop;
  pt_rep_wf : ∀ t L T, pt_rep t L T → leaves_wf readback PA_MAX_BITS L;
  pt_rep_valid : ∀ t L T b lf, pt_rep t L T → L !! b = Some lf → vaddr_is_valid b = true;

  (** flag words: what a leaf gives back of the flags it was built with *)
  readback_ok : ∀ f, leaf_flags f → leaf_flags (readback f) ∧ readback (readback f) = readback f;
  readback_alloc : ∀ f, leaf_flags f →
    contains (readback f) ALLOC_FRAME = contains f ALLOC_FRAME;
  readback_prot_none : ∀ f, leaf_flags f →
    contains (readback f) PROT_NONE = contains f PROT_NONE;
  readback_access : ∀ f k, leaf_flags f → k = READ ∨ k = WRITE ∨ k = EXECUTE ∨ k = USER →
    contains (readback f) k = contains f k && negb (contains f PROT_NONE);

  pt_try_new_spec : ∀ a, wp pt_try_new a (λ r a',
    match r with
    | Ok t => ∃ T, pt_rep t ∅ T ∧ T ## pa_used a ∧ pa_used a' = T ∪ pa_used a
    | Err e => e = Paging.NoMemory ∧ pa_used a' = pa_used a
    | Panic => False
    end);
  pt_query_spec : ∀ t L T a, pt_rep t L T → vaddr_is_valid a = true →
    pt_query t a =
      match leaf_find L a with
      | Some (b, lf) => Ok (lf_paddr lf + (a - b), lf_flags lf, lf_size lf)
      | None => Err Paging.NotMapped
      end;
  pt_map_spec : ∀ t L T a va pa ps f,
    pt_rep t L T → T ⊆ pa_used a → vaddr_is_valid va = true → 0 ≤ va →
    va mod page_bytes ps = 0 → pa mod page_bytes ps = 0 → 0 ≤ pa < 2 ^ PA_MAX_BITS →
    leaf_flags f →
    wp (pt_map va pa ps f) (t, a) (λ r ta, ∃ N, N ## pa_used a ∧
      pa_used ta.2 = N ∪ pa_used a ∧
      match r with
      | Ok _ => pt_rep ta.1 (<[va := Leaf pa (readback f) ps]> L) (N ∪ T) ∧
          (∀ b lf, L !! b = Some lf → ¬ leaf_meets va (va + page_bytes ps) b lf)
      | Err e => pt_rep ta.1 L (N ∪ T) ∧
          (ps = Size4K → leaf_find L va = None → e = Paging.NoMemory)
      | Panic => False
      end);
  pt_remap_spec : ∀ t L T va b lf pa f,
    pt_rep t L T → vaddr_is_valid va = true → leaf_find L va = Some (b, lf) →
    pa mod page_bytes (lf_size lf) = 0 → 0 ≤ pa < 2 ^ PA_MAX_BITS → leaf_flags f →
    wp (pt_remap va pa f) t (λ r t', r = Ok (lf_size lf) ∧
      pt_rep t' (<[b := Leaf pa (readback f) (lf_size lf)]> L) T);
  pt_protect_spec : ∀ t L T va f,
    pt_rep t L T → vaddr_is_valid va = true → leaf_flags f →
    wp (pt_protect va f) t (λ r t',
      match leaf_find L va with
      | Some (b, lf) => r = Ok (lf_size lf) ∧
          pt_rep t' (<[b := Leaf (lf_paddr lf) (readback f) (lf_size lf)]> L) T
      | None => r = Err Paging.NotMapped ∧ pt_rep t' L T
      end);
  pt_unmap_spec : ∀ t L T va,
    pt_rep t L T → vaddr_is_valid va = true →
    wp (pt_unmap va) t (λ r t',
      match leaf_find L va with
      | Some (b, lf) => r = Ok (lf_paddr lf, lf_size lf) ∧ pt_rep t' (delete b L) T
      | None => r = Err Paging.NotMapped ∧ pt_rep t' L T
      end);
  (** every leaf that meets the range once, in increasing order *)
  pt_walk_spec : ∀ t L T start size, pt_rep t L T → 0 ≤ start → 0 < size →
    start + size ≤ usize_max →
    ∃ vs, pt_walk_leaf_range t start size = Ok vs ∧
      StronglySorted (λ x y : Z * Z * Z * PageSize, x.1.1.1 < y.1.1.1) vs ∧
      (∀ b p f ps, (b, p, f, ps) ∈ vs ↔
         L !! b = Some (Leaf p f ps) ∧ leaf_meets start (start + size) b (Leaf p f ps));
  pt_walk_empty : ∀ t start, pt_walk_leaf_range t start 0 = Ok [];
  pt_drop_spec : ∀ t L T a, pt_rep t L T → T ⊆ pa_used a →
    pa_used (pt_drop t a) = pa_used a ∖ T;
}.
End interface.

(** ** Lemmas on leaves *)

Lemma leaf_try_Some L a ps b lf :
  leaf_try L a ps = Some (b, lf) →
  b = a - a mod page_bytes ps ∧ L !! b = Some lf ∧ lf_size lf = ps.
Proof.
  unfold leaf_try. intros H. apply bind_Some in H as (lf' & Hl & H).
  case_bool_decide; simplify_eq. done.
Qed.
Lemma leaf_try_covers L a b lf :
  L !! b = Some lf → b mod page_bytes (lf_size lf) = 0 →
  b ≤ a < b + page_bytes (lf_size lf) → leaf_try L a (lf_size lf) = Some (b, lf).
Proof.
  intros Hl Hb Ha. unfold leaf_try. pose proof (page_bytes_pos (lf_size lf)).
  replace (a - a mod page_bytes (lf_size lf)) with b.
  - rewrite Hl. cbn. by rewrite bool_decide_eq_true_2.
  - assert ((a - b) mod page_bytes (lf_size lf) = a - b) as Hm by (apply Z.mod_small; lia).
    rewrite <- (mod_add_aligned b (a - b)) in Hm by done.
    replace (b + (a - b)) with a in Hm by lia. lia.
Qed.
Lemma leaf_find_covers L a b lf : leaf_find L a = Some (b, lf) → covers L a b lf.
Proof.
  unfold leaf_find, covers. intros H.
  assert (∃ ps, leaf_try L a ps = Some (b, lf)) as [ps Hps].
  { destruct (leaf_try L a Size4K) eqn:?; [simplify_eq; eauto|].
    destruct (leaf_try L a Size2M) eqn:?; [simplify_eq; eauto|eauto]. }
  apply leaf_try_Some in Hps as (-> & Hl & <-). split; [done|].
  pose proof (Z.mod_pos_bound a _ (page_bytes_pos (lf_size lf))). lia.
Qed.

Section leaf_lemmas.
Context {CFG : Config} {BF : BitFlags} {readback : Z → Z} {pa_bits : Z} {L : gmap Z leaf}.
Hypothesis (Hwf : leaves_wf readback pa_bits L).

Lemma covers_unique a b b' lf lf' :
  covers L a b lf → covers L a b' lf' → b = b' ∧ lf = lf'.
Proof.
  intros H H'. pose proof (lw_disjoint _ _ _ Hwf _ _ _ _ _ H H') as <-.
  destruct H as [H _], H' as [H' _]. naive_solver.
Qed.
Lemma leaf_find_Some a b lf : leaf_find L a = Some (b, lf) ↔ covers L a b lf.
Proof.
  split; [apply leaf_find_covers|]. intros Hc.
  destruct Hc as [Hl Ha]. destruct (lw_base _ _ _ Hwf _ _ Hl) as [Hb _].
  pose proof (leaf_try_covers _ _ _ _ Hl Hb Ha) as Htry.
  destruct (leaf_find L a) as [[b' lf']|] eqn:Hf.
  - apply leaf_find_covers in Hf.
    assert (covers L a b lf) as Hc by by split.
    by destruct (covers_unique _ _ _ _ _ Hf Hc) as [-> ->].
  - exfalso. unfold leaf_find in Hf. destruct (lf_size lf) eqn:Hs; rewrite Htry in Hf;
      repeat case_match; done.
Qed.
Lemma leaf_find_None a : leaf_find L a = None ↔ ∀ b lf, ¬ covers L a b lf.
Proof.
  split.
  - intros H b lf Hc. apply leaf_find_Some in Hc. by rewrite H in Hc.
  - intros H. destruct (leaf_find L a) as [[b lf]|] eqn:Hf; [|done].
    apply leaf_find_Some in Hf. by apply H in Hf.
Qed.
End leaf_lemmas.

(** ** Changing one leaf *)

Section leaf_update.
Context {CFG : Config} {PA : PageAllocator} {BF : BitFlags}.
Context {rb : Z → Z} {bits : Z}.
Implicit Types (L : gmap Z leaf).

Lemma leaf_find_iff L L' a a' :
  leaves_wf rb bits L → leaves_wf rb bits L' →
  (∀ b lf, covers L a b lf ↔ covers L' a' b lf) → leaf_find L a = leaf_find L' a'.
Proof.
  intros HL HL' Hiff. destruct (leaf_find L' a') as [[b lf]|] eqn:Hf.
  - apply (leaf_find_Some HL), Hiff, (leaf_find_Some HL'). done.
  - apply (leaf_find_None HL). intros b lf Hc%Hiff.
    by apply (leaf_find_None HL') with (b := b) (lf := lf) in Hf.
Qed.
(** Changing one leaf changes the translations of its bytes only. *)
Lemma leaf_find_insert_in L va lf a :
  leaves_wf rb bits (<[va := lf]> L) → va ≤ a < va + page_bytes (lf_size lf) →
  leaf_find (<[va := lf]> L) a = Some (va, lf).
Proof. intros HL Ha. apply (leaf_find_Some HL). split; [apply lookup_insert_eq|done]. Qed.
Lemma leaf_find_insert_out L va lf a :
  leaves_wf rb bits L → leaves_wf rb bits (<[va := lf]> L) →
  (∀ lf', L !! va = Some lf' → lf_size lf' = lf_size lf) →
  ¬ va ≤ a < va + page_bytes (lf_size lf) →
  leaf_find (<[va := lf]> L) a = leaf_find L a.
Proof.
  intros HL HL' Hsz Ha. apply leaf_find_iff; [done..|]. intros b lf'. unfold covers.
  destruct (decide (va = b)) as [<-|Hne]; [|by rewrite lookup_insert_ne].
  rewrite lookup_insert_eq. split; intros [Hb Hr].
  - by injection Hb as <-.
  - rewrite (Hsz lf' Hb) in Hr. done.
Qed.
Lemma leaf_find_delete_in L va lf a :
  leaves_wf rb bits L → leaves_wf rb bits (delete va L) → L !! va = Some lf →
  va ≤ a < va + page_bytes (lf_size lf) → leaf_find (delete va L) a = None.
Proof.
  intros HL HL' Hva Ha. apply (leaf_find_None HL'). intros b lf' [Hb Hr].
  apply lookup_delete_Some in Hb as [Hne Hb]. apply Hne.
  by apply (lw_disjoint _ _ _ HL a va b lf lf').
Qed.
Lemma leaf_find_delete_out L va lf a :
  leaves_wf rb bits L → leaves_wf rb bits (delete va L) → L !! va = Some lf →
  ¬ va ≤ a < va + page_bytes (lf_size lf) → leaf_find (delete va L) a = leaf_find L a.
Proof.
  intros HL HL' Hva Ha. apply leaf_find_iff; [done..|]. intros b lf'. unfold covers.
  destruct (decide (va = b)) as [<-|Hne]; [|by rewrite lookup_delete_ne].
  rewrite lookup_delete_eq. split; [by intros [? _]|]. intros [Hb Hr]. by simplify_eq.
Qed.
End leaf_update.
