(* ===== verification/Pte.v ===== *)
(** * Page-table entries (crates/page_table_multiarch/page_table_entry)

    The [GenericPTE] trait with the contract [PageTable64] needs of it, and
    its two implementations for the supported targets: [Rv64PTE] (riscv64) and
    [LA64PTE] (loongarch64). Entries are 64-bit words. *)
From S2P Require Import Prelude MemAddr Frame PageTable.
From stdpp Require Import prelude list.
Open Scope Z_scope.

(** [if b { ret |= x }] *)
Definition when (b : bool) (x : Z) : Z := if b then x else 0.
(** [!x] on [u64] *)
Definition u64_not (x : Z) : Z := 2 ^ 64 - 1 - x.

(** ** The trait *)

Class GenericPTE := {
  (** [None]: the assertion on the flags fails *)
  new_page : Z → Z → bool → option Z;
  new_table : Z → Z;
  pte_paddr : Z → Z;
  pte_flags_of : Z → Z;
  set_paddr : Z → Z → Z;
  set_flags : Z → Z → bool → option Z;
  is_unused : Z → bool;
  is_present : Z → bool;
  pte_is_huge : Z → bool;
}.

(** [e] is a leaf for the frame [p] with (decoded) flags [f]. *)
Definition pte_leaf `{GenericPTE} (e p f : Z) (huge : bool) : Prop :=
  pte_paddr e = p ∧ pte_flags_of e = f ∧ is_unused e = false ∧ is_present e = true ∧
  (huge = true → pte_is_huge e = true).
(** [e] points to the table at [p]. *)
Definition pte_table `{GenericPTE} (e p : Z) : Prop :=
  pte_paddr e = p ∧ p ≠ 0 ∧ is_unused e = false ∧ is_present e = true ∧
  pte_is_huge e = false.

Class PteLaws `{Config, BitFlags, GenericPTE} := {
  pte_pa_bits : Z;
  pte_pa_bits_range : 12 ≤ pte_pa_bits ≤ 64;
  pte_readback : Z → Z;
  new_page_leaf : ∀ p f h, p mod 4096 = 0 → 0 ≤ p < 2 ^ pte_pa_bits → leaf_flags f →
    ∃ e, new_page p f h = Some e ∧ pte_leaf e p (pte_readback f) h;
  new_table_table : ∀ p, p mod 4096 = 0 → 0 < p < 2 ^ pte_pa_bits → pte_table (new_table p) p;
  set_paddr_leaf : ∀ e p p' f h, pte_leaf e p f h → leaf_flags f → p' mod 4096 = 0 →
    0 ≤ p' < 2 ^ pte_pa_bits → pte_leaf (set_paddr e p') p' f h;
  set_flags_leaf : ∀ e p f f' h, pte_leaf e p f h → leaf_flags f' →
    ∃ e', set_flags e f' h = Some e' ∧ pte_leaf e' p (pte_readback f') h;
  unused_zero : ∀ e, is_unused e = true ↔ e = 0;
  zero_absent : is_present 0 = false;
  zero_paddr : pte_paddr 0 = 0;
  pte_readback_ok : ∀ f, leaf_flags f →
    leaf_flags (pte_readback f) ∧ pte_readback (pte_readback f) = pte_readback f;
  pte_readback_alloc : ∀ f, leaf_flags f →
    contains (pte_readback f) ALLOC_FRAME = contains f ALLOC_FRAME;
  pte_readback_prot_none : ∀ f, leaf_flags f →
    contains (pte_readback f) PROT_NONE = contains f PROT_NONE;
  pte_readback_access : ∀ f k, leaf_flags f → k = READ ∨ k = WRITE ∨ k = EXECUTE ∨ k = USER →
    contains (pte_readback f) k = contains f k && negb (contains f PROT_NONE);
}.

(** ** Words with an address field *)

Lemma testbit_when b x i : Z.testbit (when b x) i = b && Z.testbit x i.
Proof. destruct b; [done|apply Z.bits_0]. Qed.
#[export] Hint Rewrite testbit_when : flags.

Lemma testbit_u64_not x i :
  0 ≤ x < 2 ^ 64 → 0 ≤ i < 64 → Z.testbit (u64_not x) i = negb (Z.testbit x i).
Proof.
  intros Hx Hi. unfold u64_not.
  replace (2 ^ 64 - 1 - x) with (Z.lnot x + 1 * 2 ^ 64) by (unfold Z.lnot; lia).
  rewrite <- (Z.mod_pow2_bits_low _ 64) by lia.
  rewrite Z.mod_add by lia. rewrite Z.mod_pow2_bits_low by lia.
  apply Z.lnot_spec. lia.
Qed.

Lemma leaf_flags_nonzero `{Config, BitFlags} f : leaf_flags f → (f =? 0) = false.
Proof.
  intros Hf. apply Z.eqb_neq. intros ->. revert Hf. unfold leaf_flags. flag_bits. naive_solver.
Qed.

(** The address field [lo, hi) of a word whose other bits are [fl]. *)
Section field.
Context (lo hi mask : Z).
Hypothesis (Hlo : 0 ≤ lo ≤ hi) (Hmask : mask = Z.shiftl (Z.ones (hi - lo)) lo).

Lemma field_in fl q i :
  lo ≤ i < hi → Z.testbit fl i = false →
  Z.testbit (Z.lor fl (Z.land q mask)) i = Z.testbit q i.
Proof.
  intros Hi Hfl. rewrite Z.lor_spec, Z.land_spec, Hmask, testbit_mask, Hfl by done.
  split_zbool; try lia. by rewrite andb_true_r.
Qed.
Lemma field_out fl q i :
  i < lo ∨ hi ≤ i → Z.testbit (Z.lor fl (Z.land q mask)) i = Z.testbit fl i.
Proof.
  intros Hi. rewrite Z.lor_spec, Z.land_spec, Hmask, testbit_mask by done.
  split_zbool; rewrite ?andb_false_r, ?orb_false_r; try done; lia.
Qed.
Lemma field_get fl q :
  (∀ i, lo ≤ i < hi → Z.testbit fl i = false) →
  Z.land (Z.lor fl (Z.land q mask)) mask = Z.land q mask.
Proof.
  intros Hfl. apply Z.bits_inj_iff. intros i. rewrite Z.land_spec.
  destruct (decide (lo ≤ i < hi)) as [Hi|Hi].
  - rewrite field_in by auto. by rewrite Z.land_spec.
  - rewrite Z.land_spec, Hmask, testbit_mask by done.
    replace ((lo <=? i) && (i <? hi)) with false; [by rewrite !andb_false_r|].
    split_zbool; try done; lia.
Qed.
End field.

(** ** riscv64: [Rv64PTE] (arch/riscv.rs) *)

Module Rv64.
Abbreviation PTE_V := 1%Z (only parsing).
Abbreviation PTE_R := 2%Z (only parsing).
Abbreviation PTE_W := 4%Z (only parsing).
Abbreviation PTE_X := 8%Z (only parsing).
Abbreviation PTE_U := 16%Z (only parsing).
Abbreviation PTE_G := 32%Z (only parsing).
Abbreviation PTE_A := 64%Z (only parsing).
Abbreviation PTE_D := 128%Z (only parsing).
Abbreviation PTE_ALLOC_FRAME := 256%Z (only parsing).
Abbreviation PTE_PROT_NONE := 512%Z (only parsing).
Definition PTE_ALL : Z := 1023.

(** bits 10..54 *)
Abbreviation PHYS_ADDR_MASK := (2 ^ 54 - 2 ^ 10)%Z.

Section rv64.
Context {BF : BitFlags}.

(** [From<PTEFlags> for MappingFlags] *)
Definition mapping_from (f : Z) : Z :=
  if contains f PTE_PROT_NONE then
    PROT_NONE |+| when (contains f PTE_ALLOC_FRAME) ALLOC_FRAME
  else if negb (contains f PTE_V) then 0
  else
    when (contains f PTE_R) READ |+| when (contains f PTE_W) WRITE |+|
    when (contains f PTE_X) EXECUTE |+| when (contains f PTE_U) USER |+|
    when (contains f PTE_ALLOC_FRAME) ALLOC_FRAME.

(** [From<MappingFlags> for PTEFlags] *)
Definition pte_from (f : Z) : Z :=
  if contains f PROT_NONE then
    PTE_PROT_NONE |+| when (contains f ALLOC_FRAME) PTE_ALLOC_FRAME
  else if f =? 0 then 0
  else
    PTE_V |+| when (contains f READ) PTE_R |+| when (contains f WRITE) PTE_W |+|
    when (contains f EXECUTE) PTE_X |+| when (contains f USER) PTE_U |+|
    when (contains f ALLOC_FRAME) PTE_ALLOC_FRAME.

(** The flag word of a leaf, shared by [new_page] and [set_flags]; [None] when
    the assertion that a leaf has R or X fails. *)
Definition leaf_word (f : Z) : option Z :=
  let flags := pte_from f in
  if negb (contains flags PTE_PROT_NONE) then
    let flags := flags |+| (PTE_A |+| PTE_D) in
    if intersects flags (PTE_R |+| PTE_X) then Some flags else None
  else Some flags.

#[export] Instance Rv64PTE : GenericPTE := {
  new_page p f _ :=
    flags ← leaf_word f; Some (Z.lor flags (Z.land (Z.shiftr p 2) PHYS_ADDR_MASK));
  new_table p := Z.lor PTE_V (Z.land (Z.shiftr p 2) PHYS_ADDR_MASK);
  pte_paddr e := Z.shiftl (Z.land e PHYS_ADDR_MASK) 2;
  pte_flags_of e := mapping_from (from_bits_truncate PTE_ALL e);
  set_paddr e p :=
    Z.lor (Z.land e (u64_not PHYS_ADDR_MASK)) (Z.land (Z.shiftr p 2) PHYS_ADDR_MASK);
  set_flags e f _ := flags ← leaf_word f; Some (Z.lor (Z.land e PHYS_ADDR_MASK) flags);
  is_unused e := e =? 0;
  is_present e := intersects (from_bits_truncate PTE_ALL e) (PTE_V |+| PTE_PROT_NONE);
  pte_is_huge e :=
    intersects (from_bits_truncate PTE_ALL e) (PTE_R |+| PTE_X |+| PTE_PROT_NONE);
}.

Definition rv_readback (f : Z) : Z := mapping_from (pte_from f).

(** *** Proofs *)

(** Only the bits the conversion tests matter. *)
Lemma rv_mapping_from_ext x y :
  (∀ i, i ∈ [0; 1; 2; 3; 4; 8; 9] → Z.testbit x i = Z.testbit y i) →
  mapping_from x = mapping_from y.
Proof.
  intros H. unfold mapping_from. test_bits.
  rewrite (H 0), (H 1), (H 2), (H 3), (H 4), (H 8), (H 9) by set_solver. done.
Qed.
Lemma rv_paddr_field p :
  p mod 4096 = 0 → 0 ≤ p < 2 ^ 56 →
  Z.shiftl (Z.land (Z.shiftr p 2) PHYS_ADDR_MASK) 2 = p.
Proof.
  intros Hp Hb. apply Z.bits_inj_iff. intros i.
  destruct (Z.ltb_spec i 0); [by rewrite !Z.testbit_neg_r|].
  destruct (Z.ltb_spec i 12).
  - rewrite (testbit_aligned p 12 i) by (done || lia).
    rewrite Z.shiftl_spec by lia. destruct (Z.ltb_spec (i - 2) 0); [by apply Z.testbit_neg_r|].
    rewrite Z.land_spec, (testbit_mask 10 54) by lia.
    split_zbool; rewrite ?andb_false_r; try done; lia.
  - rewrite Z.shiftl_spec, Z.land_spec, (testbit_mask 10 54), Z.shiftr_spec by lia.
    replace (i - 2 + 2) with i by lia.
    destruct (Z.ltb_spec i 56); [|rewrite (testbit_small p 56 i) by (done || lia); done].
    split_zbool; rewrite ?andb_true_r; try done; lia.
Qed.

Context {CFG : Config}.
Hypothesis (Htarget : target_riscv = true).

Lemma leaf_word_ok f :
  leaf_flags f →
  ∃ fl, leaf_word f = Some fl ∧ 0 ≤ fl < 2 ^ 10 ∧ mapping_from fl = rv_readback f ∧
    intersects fl (PTE_V |+| PTE_PROT_NONE) = true ∧
    intersects fl (PTE_R |+| PTE_X |+| PTE_PROT_NONE) = true.
Proof.
  intros Hf. unfold leaf_word, rv_readback, pte_from. rewrite (leaf_flags_nonzero f Hf).
  revert Hf. unfold leaf_flags. rewrite Htarget. flag_bits.
  destruct (Z.testbit f 0), (Z.testbit f 1), (Z.testbit f 2), (Z.testbit f 3),
    (Z.testbit f 6), (Z.testbit f 7); intros Hf; cbn [when]; flag_bits;
    try (exfalso; naive_solver);
    (eexists; split; [reflexivity|]; unfold mapping_from;
     rewrite ?intersects_spec, ?contains_spec, ?flag_union_spec; vm_compute; done).
Qed.

Lemma word_low fl q i :
  i < 10 → Z.testbit (Z.lor fl (Z.land q PHYS_ADDR_MASK)) i = Z.testbit fl i.
Proof. intros Hi. apply (field_out 10 54); [lia|done|lia]. Qed.

Lemma rv_word_leaf fl q h :
  (∀ i, 10 ≤ i < 54 → Z.testbit fl i = false) →
  intersects fl (PTE_V |+| PTE_PROT_NONE) = true →
  (h = true → intersects fl (PTE_R |+| PTE_X |+| PTE_PROT_NONE) = true) →
  pte_leaf (Z.lor fl (Z.land q PHYS_ADDR_MASK)) (Z.shiftl (Z.land q PHYS_ADDR_MASK) 2)
    (mapping_from fl) h.
Proof.
  intros Hfl Hv Hh. revert Hv Hh. flag_bits. intros Hv Hh. unfold pte_leaf. cbn.
  rewrite (field_get 10 54) by (done || lia). split_and!.
  - done.
  - apply rv_mapping_from_ext. intros i Hi.
    rewrite testbit_truncate. set_unfold.
    by destruct_or!; subst; rewrite word_low by lia; eval_bits; rewrite ?andb_true_r.
  - apply Z.eqb_neq. intros H0.
    pose proof (word_low fl q 0 ltac:(lia)) as E0.
    pose proof (word_low fl q 9 ltac:(lia)) as E9.
    rewrite H0, Z.bits_0 in E0, E9. by rewrite <- E0, <- E9 in Hv.
  - flag_bits. rewrite !word_low by lia. by rewrite !andb_true_r.
  - intros ?. flag_bits. rewrite !word_low by lia. rewrite !andb_true_r. auto.
Qed.

Lemma rv_new_page_leaf p f h :
  p mod 4096 = 0 → 0 ≤ p < 2 ^ 56 → leaf_flags f →
  ∃ e, new_page p f h = Some e ∧ pte_leaf e p (rv_readback f) h.
Proof.
  intros Hp Hb Hf. destruct (leaf_word_ok f Hf) as (fl & Hfl & Hr & <- & Hv & Hh).
  eexists. split; [cbn; by rewrite Hfl|].
  rewrite <- (rv_paddr_field p) at 2 by done. apply rv_word_leaf; try done.
  intros i Hi. apply (testbit_small fl 10); [done|lia].
Qed.
Lemma rv_new_table_table p :
  p mod 4096 = 0 → 0 < p < 2 ^ 56 → pte_table (new_table p) p.
Proof.
  intros Hp Hb. destruct (rv_word_leaf PTE_V (Z.shiftr p 2) false) as (H1 & _ & H3 & H4 & _).
  - intros i Hi. apply (testbit_small _ 10); [done|lia].
  - by flag_bits.
  - done.
  - rewrite rv_paddr_field in H1 by (done || lia). split_and!; try done; [lia|]. cbn. flag_bits. rewrite !word_low by lia. done.
Qed.
Lemma rv_set_paddr_leaf e p p' f h :
  pte_leaf e p f h → leaf_flags f → p' mod 4096 = 0 → 0 ≤ p' < 2 ^ 56 →
  pte_leaf (set_paddr e p') p' f h.
Proof.
  intros (_ & <- & _ & Hv & Hh) _ Hp Hb. cbn in *.
  assert (∀ i, 0 ≤ i < 10 →
    Z.testbit (Z.land e (u64_not PHYS_ADDR_MASK)) i = Z.testbit e i) as Hlow.
  { intros i Hi. rewrite Z.land_spec, testbit_u64_not, (testbit_mask 10 54) by (done || lia).
    split_zbool; rewrite ?andb_true_r; try done; lia. }
  replace (mapping_from (from_bits_truncate PTE_ALL e))
    with (mapping_from (Z.land e (u64_not PHYS_ADDR_MASK))).
  - rewrite <- (rv_paddr_field p') at 2 by done. apply rv_word_leaf.
    + intros i Hi. rewrite Z.land_spec, testbit_u64_not, (testbit_mask 10 54) by (done || lia).
      split_zbool; rewrite ?andb_false_r; try done; lia.
    + revert Hv. flag_bits. rewrite !Hlow, !andb_true_r by lia. done.
    + intros ?. revert Hh. flag_bits. rewrite !Hlow, !andb_true_r by lia. auto.
  - apply rv_mapping_from_ext. intros i Hi. rewrite testbit_truncate. set_unfold.
    by destruct_or!; subst; rewrite Hlow by lia; eval_bits; rewrite ?andb_true_r.
Qed.
Lemma rv_set_flags_leaf e p f f' h :
  pte_leaf e p f h → leaf_flags f' →
  ∃ e', set_flags e f' h = Some e' ∧ pte_leaf e' p (rv_readback f') h.
Proof.
  intros (<- & _) Hf. destruct (leaf_word_ok f' Hf) as (fl & Hfl & Hr & <- & Hv & Hh).
  eexists. split; [cbn; by rewrite Hfl|]. cbn. rewrite Z.lor_comm. apply rv_word_leaf; try done.
  intros i Hi. apply (testbit_small fl 10); [done|lia].
Qed.

(** Reading flags back. *)
Lemma rv_readback_bits f :
  leaf_flags f →
  rv_readback f =
    if Z.testbit f 7 then Z.lor 128 (when (Z.testbit f 6) 64)
    else Z.lor (Z.lor (Z.lor (Z.lor (when (Z.testbit f 0) 1) (when (Z.testbit f 1) 2))
      (when (Z.testbit f 2) 4)) (when (Z.testbit f 3) 8)) (when (Z.testbit f 6) 64).
Proof.
  intros Hf. unfold rv_readback, pte_from. rewrite (leaf_flags_nonzero f Hf). test_bits.
  destruct (Z.testbit f 7).
  - unfold mapping_from. flag_bits. rewrite flag_union_spec. by destruct (Z.testbit f 6).
  - unfold mapping_from. flag_bits. rewrite !flag_union_spec, !andb_true_r, !andb_false_r,
      ?orb_false_r. done.
Qed.

Lemma leaf_flags_rv f :
  leaf_flags f ↔ Z.testbit f 7 = true ∨ Z.testbit f 0 = true ∨ Z.testbit f 2 = true.
Proof.
  unfold leaf_flags. rewrite Htarget. flag_bits.
  destruct (Z.testbit f 7), (Z.testbit f 0), (Z.testbit f 2); naive_solver.
Qed.
Lemma rv_readback_testbits f k :
  leaf_flags f → k ∈ [0; 1; 2; 3; 6] →
  Z.testbit (rv_readback f) k = Z.testbit f k && (negb (Z.testbit f 7) || (k =? 6)).
Proof.
  intros Hf Hk. rewrite rv_readback_bits by done.
  destruct (Z.testbit f 7); set_unfold; destruct_or!; subst;
    rewrite !Z.lor_spec, !testbit_when; eval_bits; cbn;
    rewrite ?andb_true_r, ?andb_false_r, ?orb_false_r; done.
Qed.
Lemma rv_readback_testbit7 f :
  leaf_flags f → Z.testbit (rv_readback f) 7 = Z.testbit f 7.
Proof.
  intros Hf. rewrite rv_readback_bits by done.
  destruct (Z.testbit f 7); rewrite !Z.lor_spec, !testbit_when; eval_bits; cbn;
    rewrite ?andb_false_r; done.
Qed.
Lemma rv_readback_ok f :
  leaf_flags f → leaf_flags (rv_readback f) ∧ rv_readback (rv_readback f) = rv_readback f.
Proof.
  intros Hf. assert (leaf_flags (rv_readback f)) as Hf'.
  { rewrite leaf_flags_rv, rv_readback_testbit7, !rv_readback_testbits by (done || set_solver).
    rewrite leaf_flags_rv in Hf. destruct (Z.testbit f 7); [by left|].
    cbn. rewrite !andb_true_r. naive_solver. }
  split; [done|]. rewrite (rv_readback_bits _ Hf').
  rewrite rv_readback_testbit7, !rv_readback_testbits by (done || set_solver).
  rewrite (rv_readback_bits f Hf). destruct (Z.testbit f 7); cbn;
    by rewrite ?andb_true_r, ?andb_false_r.
Qed.

Definition Rv64PTE_laws : PteLaws.
Proof.
  refine {| pte_pa_bits := 56; pte_readback := rv_readback;
            new_page_leaf := rv_new_page_leaf; new_table_table := rv_new_table_table;
            set_paddr_leaf := rv_set_paddr_leaf; set_flags_leaf := rv_set_flags_leaf;
            pte_readback_ok := rv_readback_ok |}.
  - done.
  - intros e. apply Z.eqb_eq.
  - cbn. by flag_bits.
  - done.
  - intros f Hf. test_bits. rewrite rv_readback_testbits by (done || set_solver).
    cbn. by rewrite orb_true_r, andb_true_r.
  - intros f Hf. test_bits. by apply rv_readback_testbit7.
  - intros f k Hf Hk. destruct_or!; subst; test_bits;
      rewrite rv_readback_testbits by (done || set_solver); cbn; by rewrite orb_false_r.
Defined.
End rv64.
End Rv64.

(** ** loongarch64: [LA64PTE] (arch/loongarch64.rs) *)

Module La64.
Abbreviation PTE_V := 1%Z (only parsing).
Abbreviation PTE_D := 2%Z (only parsing).
Abbreviation PTE_PLVL := 4%Z (only parsing).
Abbreviation PTE_PLVH := 8%Z (only parsing).
Abbreviation PTE_MATL := 16%Z (only parsing).
Abbreviation PTE_MATH := 32%Z (only parsing).
Abbreviation PTE_GH := 64%Z (only parsing).
Abbreviation PTE_P := 128%Z (only parsing).
Abbreviation PTE_W := 256%Z (only parsing).
Abbreviation PTE_ALLOC_FRAME := 512%Z (only parsing).
Abbreviation PTE_PROT_NONE := 1024%Z (only parsing).
Abbreviation PTE_G := 4096%Z (only parsing).
Abbreviation PTE_NR := 0x2000000000000000%Z (only parsing).
Abbreviation PTE_NX := 0x4000000000000000%Z (only parsing).
Abbreviation PTE_RPLV := 0x8000000000000000%Z (only parsing).
Definition PTE_ALL : Z := 2047 + 4096 + 2 ^ 61 + 2 ^ 62 + 2 ^ 63.

(** bits 12..48 *)
Abbreviation PHYS_ADDR_MASK := 0x0000fffffffff000%Z.

Section la64.
Context {BF : BitFlags}.

(** [From<PTEFlags> for MappingFlags] *)
Definition mapping_from (f : Z) : Z :=
  if contains f PTE_PROT_NONE then
    PROT_NONE |+| when (contains f PTE_ALLOC_FRAME) ALLOC_FRAME
  else if negb (contains f PTE_V) then 0
  else
    when (negb (contains f PTE_NR)) READ |+| when (contains f PTE_W) WRITE |+|
    when (negb (contains f PTE_NX)) EXECUTE |+|
    when (contains f (PTE_PLVL |+| PTE_PLVH)) USER |+|
    when (negb (contains f PTE_MATL)) (if contains f PTE_MATH then UNCACHED else DEVICE) |+|
    when (contains f PTE_ALLOC_FRAME) ALLOC_FRAME.

(** [From<MappingFlags> for PTEFlags] *)
Definition pte_from (f : Z) : Z :=
  if contains f PROT_NONE then
    PTE_PROT_NONE |+| when (contains f ALLOC_FRAME) PTE_ALLOC_FRAME
  else if f =? 0 then 0
  else
    PTE_V |+| PTE_P |+| when (negb (contains f READ)) PTE_NR |+|
    when (contains f WRITE) (PTE_W |+| PTE_D) |+|
    when (negb (contains f EXECUTE)) PTE_NX |+|
    when (contains f USER) (PTE_PLVH |+| PTE_PLVL) |+|
    when (negb (contains f DEVICE)) (if contains f UNCACHED then PTE_MATH else PTE_MATL) |+|
    when (contains f ALLOC_FRAME) PTE_ALLOC_FRAME.

Definition leaf_word (f : Z) (is_huge : bool) : Z := pte_from f |+| when is_huge PTE_GH.

#[export] Instance LA64PTE : GenericPTE := {
  new_page p f h := Some (Z.lor (leaf_word f h) (Z.land p PHYS_ADDR_MASK));
  new_table p := Z.land p PHYS_ADDR_MASK;
  pte_paddr e := Z.land e PHYS_ADDR_MASK;
  pte_flags_of e := mapping_from (from_bits_truncate PTE_ALL e);
  set_paddr e p := Z.lor (Z.land e (u64_not PHYS_ADDR_MASK)) (Z.land p PHYS_ADDR_MASK);
  set_flags e f h := Some (Z.lor (Z.land e PHYS_ADDR_MASK) (leaf_word f h));
  is_unused e := e =? 0;
  is_present e := negb (e =? 0);
  pte_is_huge e := contains (from_bits_truncate PTE_ALL e) PTE_GH;
}.

Definition la_readback (f : Z) : Z := mapping_from (pte_from f).

(** *** Proofs *)

Lemma la_mapping_from_ext x y :
  (∀ i, i ∈ [0; 2; 3; 4; 5; 8; 9; 10; 61; 62] → Z.testbit x i = Z.testbit y i) →
  mapping_from x = mapping_from y.
Proof.
  intros H. unfold mapping_from. rewrite !contains_union. test_bits.
  rewrite (H 0), (H 2), (H 3), (H 4), (H 5), (H 8), (H 9), (H 10), (H 61), (H 62)
    by set_solver. done.
Qed.
Lemma la_paddr_field p : p mod 4096 = 0 → 0 ≤ p < 2 ^ 48 → Z.land p PHYS_ADDR_MASK = p.
Proof.
  intros Hp Hb. apply Z.bits_inj_iff. intros i. rewrite Z.land_spec, (testbit_mask 12 48) by lia.
  destruct (Z.ltb_spec i 12).
  - rewrite (testbit_aligned p 12 i) by (done || lia). done.
  - destruct (Z.ltb_spec i 48); [|rewrite (testbit_small p 48 i) by (done || lia); done].
    split_zbool; rewrite ?andb_true_r; try done; lia.
Qed.
Lemma word_out fl q i :
  i < 12 ∨ 48 ≤ i → Z.testbit (Z.lor fl (Z.land q PHYS_ADDR_MASK)) i = Z.testbit fl i.
Proof. intros Hi. apply (field_out 12 48); [lia|done|lia]. Qed.

Lemma la_word_leaf fl q h :
  (∀ i, 12 ≤ i < 48 → Z.testbit fl i = false) →
  intersects fl (PTE_V |+| PTE_PROT_NONE) = true →
  (h = true → contains fl PTE_GH = true) →
  pte_leaf (Z.lor fl (Z.land q PHYS_ADDR_MASK)) (Z.land q PHYS_ADDR_MASK) (mapping_from fl) h.
Proof.
  intros Hfl Hv Hh. revert Hv Hh. flag_bits. intros Hv Hh. unfold pte_leaf. cbn.
  assert (Z.lor fl (Z.land q PHYS_ADDR_MASK) ≠ 0) as Hne.
  { intros H0. pose proof (word_out fl q 0 ltac:(lia)) as E0.
    pose proof (word_out fl q 10 ltac:(lia)) as E10.
    rewrite H0, Z.bits_0 in E0, E10. by rewrite <- E0, <- E10 in Hv. }
  split_and!.
  - apply (field_get 12 48); [lia|done..].
  - apply la_mapping_from_ext. intros i Hi. rewrite testbit_truncate. set_unfold.
    by destruct_or!; subst; rewrite word_out by lia; eval_bits; rewrite ?andb_true_r.
  - by apply Z.eqb_neq.
  - by rewrite (proj2 (Z.eqb_neq _ _) Hne).
  - intros ?. flag_bits. rewrite word_out by lia. rewrite andb_true_r. auto.
Qed.

Lemma leaf_word_field f h i : 12 ≤ i < 48 → Z.testbit (leaf_word f h) i = false.
Proof.
  intros Hi.
  assert (∀ c, 0 ≤ c < 2 ^ 12 → Z.testbit c i = false) as Hc
    by (intros c Hc; apply (testbit_small c 12); [done|lia]).
  assert (Z.testbit PTE_NR i = false) as HNR by (apply (Z.pow2_bits_false 61); lia).
  assert (Z.testbit PTE_NX i = false) as HNX by (apply (Z.pow2_bits_false 62); lia).
  unfold leaf_word, pte_from. rewrite testbit_union, testbit_when, (Hc PTE_GH) by done.
  rewrite andb_false_r, orb_false_r.
  destruct (contains f PROT_NONE); [|destruct (f =? 0); [by apply Hc|]];
    autorewrite with flags; rewrite ?HNR, ?HNX, !Hc by (by repeat case_match);
    by rewrite ?andb_false_r.
Qed.
Lemma leaf_word_mapping f h : mapping_from (leaf_word f h) = la_readback f.
Proof.
  apply la_mapping_from_ext. intros i Hi. unfold leaf_word.
  rewrite testbit_union, testbit_when. set_unfold.
  by destruct_or!; subst; eval_bits; rewrite ?andb_false_r, ?orb_false_r.
Qed.

Context {CFG : Config}.

Lemma leaf_word_present f h :
  leaf_flags f → intersects (leaf_word f h) (PTE_V |+| PTE_PROT_NONE) = true.
Proof.
  intros Hf. unfold leaf_word, pte_from. rewrite (leaf_flags_nonzero f Hf).
  destruct (contains f PROT_NONE); flag_bits; by rewrite ?orb_true_r.
Qed.
Lemma leaf_word_huge f : contains (leaf_word f true) PTE_GH = true.
Proof. unfold leaf_word. flag_bits. apply orb_true_r. Qed.

Lemma la_entry_leaf f h q :
  leaf_flags f →
  pte_leaf (Z.lor (leaf_word f h) (Z.land q PHYS_ADDR_MASK)) (Z.land q PHYS_ADDR_MASK)
    (la_readback f) h.
Proof.
  intros Hf. rewrite <- (leaf_word_mapping f h). apply la_word_leaf.
  - apply leaf_word_field.
  - by apply leaf_word_present.
  - intros ->. apply leaf_word_huge.
Qed.
Lemma la_new_page_leaf p f h :
  p mod 4096 = 0 → 0 ≤ p < 2 ^ 48 → leaf_flags f →
  ∃ e, new_page p f h = Some e ∧ pte_leaf e p (la_readback f) h.
Proof.
  intros Hp Hb Hf. eexists. split; [reflexivity|].
  rewrite <- (la_paddr_field p) at 2 by done. by apply la_entry_leaf.
Qed.
Lemma la_new_table_table p :
  p mod 4096 = 0 → 0 < p < 2 ^ 48 → pte_table (new_table p) p.
Proof.
  intros Hp Hb. assert (new_table p = p) as -> by (cbn; apply la_paddr_field; [done|lia]).
  unfold pte_table. cbn. rewrite (proj2 (Z.eqb_neq p 0)) by lia. split_and!; try done.
  - apply la_paddr_field; [done|lia].
  - lia.
  - flag_bits. by rewrite (testbit_aligned p 12 6).
Qed.
Lemma la_set_flags_leaf e p f f' h :
  pte_leaf e p f h → leaf_flags f' →
  ∃ e', set_flags e f' h = Some e' ∧ pte_leaf e' p (la_readback f') h.
Proof.
  intros (<- & _) Hf. eexists. split; [reflexivity|].
  rewrite Z.lor_comm. by apply la_entry_leaf.
Qed.
Lemma la_set_paddr_leaf e p p' f h :
  pte_leaf e p f h → leaf_flags f → p' mod 4096 = 0 → 0 ≤ p' < 2 ^ 48 →
  pte_leaf (set_paddr e p') p' f h.
Proof.
  intros (_ & <- & _ & _ & Hh) Hf Hp Hb. cbn in *.
  assert (∀ i, 0 ≤ i < 12 ∨ 48 ≤ i < 64 →
    Z.testbit (Z.land e (u64_not PHYS_ADDR_MASK)) i = Z.testbit e i) as Hout.
  { intros i Hi. rewrite Z.land_spec, testbit_u64_not, (testbit_mask 12 48) by (done || lia).
    split_zbool; rewrite ?andb_true_r; try done; lia. }
  replace (mapping_from (from_bits_truncate PTE_ALL e))
    with (mapping_from (Z.land e (u64_not PHYS_ADDR_MASK))) in *.
  - rewrite <- (la_paddr_field p') at 2 by done. apply la_word_leaf.
    + intros i Hi. rewrite Z.land_spec, testbit_u64_not, (testbit_mask 12 48) by (done || lia).
      split_zbool; rewrite ?andb_false_r; try done; lia.
    + apply leaf_flags_nonzero in Hf. revert Hf. unfold mapping_from. flag_bits.
      destruct (Z.testbit _ 10); [by rewrite orb_true_r|].
      by destruct (Z.testbit _ 0).
    + intros ?. revert Hh. flag_bits. rewrite !Hout, !andb_true_r by lia. auto.
  - apply la_mapping_from_ext. intros i Hi. rewrite testbit_truncate. set_unfold.
    by destruct_or!; subst; rewrite Hout by lia; eval_bits; rewrite ?andb_true_r.
Qed.

Lemma la_readback_bits f :
  leaf_flags f →
  la_readback f =
    if Z.testbit f 7 then Z.lor 128 (when (Z.testbit f 6) 64)
    else Z.lor (Z.lor (Z.lor (Z.lor (Z.lor (when (Z.testbit f 0) 1) (when (Z.testbit f 1) 2))
      (when (Z.testbit f 2) 4)) (when (Z.testbit f 3) 8))
      (if Z.testbit f 4 then 16 else when (Z.testbit f 5) 32)) (when (Z.testbit f 6) 64).
Proof.
  intros Hf. unfold la_readback, pte_from. rewrite (leaf_flags_nonzero f Hf). test_bits.
  unfold mapping_from.
  destruct (Z.testbit f 7); [flag_bits; rewrite flag_union_spec; by destruct (Z.testbit f 6)|].
  destruct (Z.testbit f 0), (Z.testbit f 1), (Z.testbit f 2), (Z.testbit f 3), (Z.testbit f 4),
    (Z.testbit f 5), (Z.testbit f 6); rewrite !contains_spec, !flag_union_spec; vm_compute; done.
Qed.
Lemma leaf_flags_la f g :
  Z.testbit f 7 = Z.testbit g 7 →
  (Z.testbit f 7 = false → Z.testbit f 0 = Z.testbit g 0 ∧ Z.testbit f 1 = Z.testbit g 1 ∧
     Z.testbit f 2 = Z.testbit g 2) →
  leaf_flags f → leaf_flags g.
Proof.
  unfold leaf_flags. flag_bits. intros H7 H. rewrite <- H7.
  destruct (Z.testbit f 7); [naive_solver|]. by destruct H as (-> & -> & ->).
Qed.
Lemma la_readback_testbits f k :
  leaf_flags f → k ∈ [0; 1; 2; 3; 6] →
  Z.testbit (la_readback f) k = Z.testbit f k && (negb (Z.testbit f 7) || (k =? 6)).
Proof.
  intros Hf Hk. rewrite la_readback_bits by done.
  destruct (Z.testbit f 7), (Z.testbit f 4); set_unfold; destruct_or!; subst;
    rewrite !Z.lor_spec, !testbit_when; eval_bits; cbn;
    rewrite ?andb_true_r, ?andb_false_r, ?orb_false_r; done.
Qed.
Lemma la_readback_testbit7 f :
  leaf_flags f → Z.testbit (la_readback f) 7 = Z.testbit f 7.
Proof.
  intros Hf. rewrite la_readback_bits by done.
  destruct (Z.testbit f 7), (Z.testbit f 4); rewrite !Z.lor_spec, !testbit_when; eval_bits; cbn;
    rewrite ?andb_false_r; done.
Qed.
Lemma la_readback_ok f :
  leaf_flags f → leaf_flags (la_readback f) ∧ la_readback (la_readback f) = la_readback f.
Proof.
  intros Hf. assert (leaf_flags (la_readback f)) as Hf'.
  { apply (leaf_flags_la f); [| |done].
    - by rewrite la_readback_testbit7.
    - intros H7. rewrite !la_readback_testbits, H7 by (done || set_solver).
      cbn. by rewrite !andb_true_r. }
  split; [done|]. rewrite (la_readback_bits _ Hf'), (la_readback_bits f Hf).
  destruct (Z.testbit f 7), (Z.testbit f 0), (Z.testbit f 1), (Z.testbit f 2), (Z.testbit f 3),
    (Z.testbit f 4), (Z.testbit f 5), (Z.testbit f 6); vm_compute; done.
Qed.

Definition LA64PTE_laws : PteLaws.
Proof.
  refine {| pte_pa_bits := 48; pte_readback := la_readback;
            new_page_leaf := la_new_page_leaf; new_table_table := la_new_table_table;
            set_paddr_leaf := la_set_paddr_leaf; set_flags_leaf := la_set_flags_leaf;
            pte_readback_ok := la_readback_ok |}.
  - done.
  - intros e. apply Z.eqb_eq.
  - done.
  - done.
  - intros f Hf. test_bits. rewrite la_readback_testbits by (done || set_solver).
    cbn. by rewrite orb_true_r, andb_true_r.
  - intros f Hf. test_bits. by apply la_readback_testbit7.
  - intros f k Hf Hk. destruct_or!; subst; test_bits;
      rewrite la_readback_testbits by (done || set_solver); cbn; by rewrite orb_false_r.
Defined.
End la64.
End La64.
