(* ===== verification/PteTheorems.v ===== *)
(** * Theorems on page-table entries (page_table_entry/src/arch)

    What an entry built for a page gives back, for the two formats: the page,
    its access rights and its software flags, and that changing one of them
    keeps the other. *)
From S2P Require Import Prelude MemAddr Frame PageTable Pte.
From stdpp Require Import prelude list.
Open Scope Z_scope.

(** The rights a program asks of a page. *)
Definition rights : list Z := [READ; WRITE; EXECUTE; USER].

Section pte.
Context {CFG : Config} {BF : BitFlags}.

(** Reading back an entry [e] built for the page [p] with flags [f]. *)
Definition reads_back `{GenericPTE} (e p f : Z) : Prop :=
  is_present e = true ∧ is_unused e = false ∧ pte_paddr e = p ∧
  (∀ k, k ∈ rights → contains (pte_flags_of e) k = contains f k && negb (contains f PROT_NONE)) ∧
  contains (pte_flags_of e) PROT_NONE = contains f PROT_NONE ∧
  contains (pte_flags_of e) ALLOC_FRAME = contains f ALLOC_FRAME.

Lemma leaf_reads_back {PTE : GenericPTE} {PL : PteLaws} e p f h :
  leaf_flags f → pte_leaf e p (pte_readback f) h → reads_back e p f.
Proof.
  intros Hf (Hp & Hg & Hu & Hpr & _). unfold reads_back. rewrite Hg. split_and!; try done.
  - intros k Hk. apply pte_readback_access; [done|]. unfold rights in Hk. set_solver.
  - by apply pte_readback_prot_none.
  - by apply pte_readback_alloc.
Qed.

Lemma pte_roundtrip {PTE : GenericPTE} {PL : PteLaws} p q f g h :
  p mod 4096 = 0 → 0 ≤ p < 2 ^ pte_pa_bits → q mod 4096 = 0 → 0 ≤ q < 2 ^ pte_pa_bits →
  leaf_flags f → leaf_flags g →
  ∃ e, new_page p f h = Some e ∧ reads_back e p f ∧ pte_flags_of e = pte_readback f ∧
    reads_back (set_paddr e q) q f ∧ ∃ e', set_flags e g h = Some e' ∧ reads_back e' p g.
Proof.
  intros Hp Hp' Hq Hq' Hf Hg. destruct (new_page_leaf p f h Hp Hp' Hf) as (e & He & Hleaf).
  exists e. split; [done|]. split; [by eapply leaf_reads_back|].
  split; [by destruct Hleaf as (_ & -> & _)|]. split.
  - eapply leaf_reads_back; [done|]. apply (set_paddr_leaf e p q); try done.
    by apply pte_readback_ok.
  - destruct (set_flags_leaf e p _ g h Hleaf Hg) as (e' & He' & Hleaf').
    exists e'. split; [done|]. by eapply leaf_reads_back.
Qed.

(** C21: a riscv64 entry built by [new_page] is present and gives back its page
    and every right, [PROT_NONE] and [ALLOC_FRAME]; [set_paddr] changes only
    the page and [set_flags] only the flags. The memory type is not kept: the
    flags of an entry never contain [DEVICE] or [UNCACHED]. *)
Theorem rv64_pte_roundtrip p q f g h :
  target_riscv = true → p mod 4096 = 0 → 0 ≤ p < 2 ^ 56 → q mod 4096 = 0 → 0 ≤ q < 2 ^ 56 →
  leaf_flags f → leaf_flags g →
  ∃ e, Rv64.Rv64PTE.(new_page) p f h = Some e ∧ reads_back (H := Rv64.Rv64PTE) e p f ∧
    contains (Rv64.Rv64PTE.(pte_flags_of) e) DEVICE = false ∧
    contains (Rv64.Rv64PTE.(pte_flags_of) e) UNCACHED = false ∧
    reads_back (H := Rv64.Rv64PTE) (Rv64.Rv64PTE.(set_paddr) e q) q f ∧
    ∃ e', Rv64.Rv64PTE.(set_flags) e g h = Some e' ∧ reads_back (H := Rv64.Rv64PTE) e' p g.
Proof.
  intros Ht Hp Hp' Hq Hq' Hf Hg.
  destruct (pte_roundtrip (PL := Rv64.Rv64PTE_laws Ht) p q f g h) as (e & He & Hb & Hfl & Hrest);
    [done..|]. exists e. split; [done|]. split; [done|].
  assert (∀ k, k ∈ [4; 5] → Z.testbit (Rv64.rv_readback f) k = false) as Hmem.
  { intros k Hk. rewrite Rv64.rv_readback_bits by done. destruct (Z.testbit f 7); set_unfold;
      destruct_or!; subst; rewrite !Z.lor_spec, !testbit_when; eval_bits; cbn;
      rewrite ?andb_false_r; done. }
  rewrite Hfl. split; [test_bits; apply Hmem; set_solver|].
  split; [test_bits; apply Hmem; set_solver|done].
Qed.

(** C22: a loongarch64 entry built by [new_page] is present and gives back its
    page and every right, [PROT_NONE] and [ALLOC_FRAME], and the memory type of
    an accessible page ([DEVICE] before [UNCACHED]); [set_paddr] changes only
    the page and [set_flags] only the flags. *)
Theorem la64_pte_roundtrip p q f g h :
  p mod 4096 = 0 → 0 ≤ p < 2 ^ 48 → q mod 4096 = 0 → 0 ≤ q < 2 ^ 48 →
  leaf_flags f → leaf_flags g →
  ∃ e, La64.LA64PTE.(new_page) p f h = Some e ∧ reads_back (H := La64.LA64PTE) e p f ∧
    (contains f PROT_NONE = false →
     contains (La64.LA64PTE.(pte_flags_of) e) DEVICE = contains f DEVICE ∧
     contains (La64.LA64PTE.(pte_flags_of) e) UNCACHED =
       contains f UNCACHED && negb (contains f DEVICE)) ∧
    reads_back (H := La64.LA64PTE) (La64.LA64PTE.(set_paddr) e q) q f ∧
    ∃ e', La64.LA64PTE.(set_flags) e g h = Some e' ∧ reads_back (H := La64.LA64PTE) e' p g.
Proof.
  intros Hp Hp' Hq Hq' Hf Hg.
  destruct (pte_roundtrip (PL := La64.LA64PTE_laws) p q f g h) as (e & He & Hb & Hfl & Hrest);
    [done..|]. exists e. split; [done|]. split; [done|]. split; [|done].
  rewrite Hfl. change (pte_readback f) with (La64.la_readback f).
  rewrite La64.la_readback_bits by done. test_bits. intros H7. rewrite H7.
  destruct (Z.testbit f 4), (Z.testbit f 5); rewrite !Z.lor_spec, !testbit_when; eval_bits; cbn;
    by rewrite ?andb_false_r.
Qed.
End pte.
