(* ===== verification/PageTable64.v ===== *)
(** * The radix page table (crates/page_table_multiarch, bits64.rs)

    [PageTable64] over the metadata of an architecture and its entry format,
    and the proof that it meets the contract of PageTable.v. The memory of the
    tables is a store of 64-bit entries indexed by the physical address of the
    table and the index in it. *)
From S2P Require Import Prelude MemAddr Frame PageTable Pte.
From stdpp Require Import prelude gmap list sorting.
Open Scope Z_scope.

(** ** Metadata (page_table_multiarch/src/lib.rs and arch/) *)

Class PagingMetaData := {
  LEVELS : Z;
  VA_MAX_BITS : Z;
  levels_cases : LEVELS = 3 ∨ LEVELS = 4;
  va_max_bits_eq : VA_MAX_BITS = 12 + 9 * LEVELS;
}.
Program Definition Sv39MetaData : PagingMetaData := {| LEVELS := 3; VA_MAX_BITS := 39 |}.
Solve Obligations with auto.
Program Definition LA64MetaData : PagingMetaData := {| LEVELS := 4; VA_MAX_BITS := 48 |}.
Solve Obligations with auto.

Abbreviation ENTRY_COUNT := 512%Z (only parsing).

Definition p4_index (vaddr : Z) : Z := Z.land (Z.shiftr vaddr (12 + 27)) (ENTRY_COUNT - 1).
Definition p3_index (vaddr : Z) : Z := Z.land (Z.shiftr vaddr (12 + 18)) (ENTRY_COUNT - 1).
Definition p2_index (vaddr : Z) : Z := Z.land (Z.shiftr vaddr (12 + 9)) (ENTRY_COUNT - 1).
Definition p1_index (vaddr : Z) : Z := Z.land (Z.shiftr vaddr 12) (ENTRY_COUNT - 1).

(** The page size of a leaf [l] levels above the last. *)
Definition level_size (l : nat) : option PageSize :=
  match l with
  | 0%nat => Some Size4K | 1%nat => Some Size2M | 2%nat => Some Size1G | _ => None
  end.

Record page_table64 := PT64 { root_paddr : Z; pt_store : Z → Z → Z }.

Definition store_write (s : Z → Z → Z) (q i e : Z) : Z → Z → Z := fupd s q (fupd (s q) i e).
Definition pt_write (q i e : Z) (t : page_table64) : page_table64 :=
  PT64 (root_paddr t) (store_write (pt_store t) q i e).

(** What the tables need of the pages the allocator hands out: they are
    page-aligned (the alignment argument of [alloc_pages]) pages of RAM, which
    the entries can address. *)
Class PhysPages `{Config, PageAllocator} (bits : Z) :=
  alloc_page_phys : ∀ s v s', alloc_page s = Some (v, s') →
    virt_to_phys v mod 4096 = 0 ∧ 0 < virt_to_phys v < 2 ^ bits.

Section table.
Context {CFG : Config} {PA : PageAllocator} {BF : BitFlags} {MA : MemoryAddr}.
Context {PTE : GenericPTE} {MD : PagingMetaData}.

(** [PagingMetaData::vaddr_is_valid] *)
Definition md_vaddr_is_valid (vaddr : Z) : bool :=
  let top_mask := Z.land (Z.shiftl usize_max (VA_MAX_BITS - 1)) usize_max in
  (Z.land vaddr top_mask =? 0) || (Z.land vaddr top_mask =? top_mask).

(** [PagingHandlerImpl] (xhal/src/paging.rs) *)
Definition alloc_frame (a : pa_state) : option (Z * pa_state) :=
  '(vaddr, a') ← alloc_page a; Some (virt_to_phys vaddr, a').
Definition dealloc_frame (paddr : Z) (a : pa_state) : pa_state :=
  dealloc_page (phys_to_virt paddr) a.

Definition alloc_table : prog ((Z → Z → Z) * pa_state) PagingError Z := λ st,
  match alloc_frame st.2 with
  | Some (paddr, a') => (Ok paddr, (fupd st.1 paddr (λ _, 0), a'))
  | None => (Err Paging.NoMemory, st)
  end.

(** Lifting an operation on the store to the table. *)
Definition on_store {A} (m : prog ((Z → Z → Z) * pa_state) PagingError A) :
    prog (page_table64 * pa_state) PagingError A :=
  zoom (λ ta, (pt_store ta.1, ta.2)) (λ sa ta, (PT64 (root_paddr ta.1) sa.1, sa.2)) m.

(** The tables are designated by their physical addresses ([table_of] only
    casts the pointer). *)
Definition next_table (entry : Z) : outcome PagingError Z :=
  if pte_paddr entry =? 0 then Err Paging.NotMapped
  else if pte_is_huge entry then Err Paging.MappedToHugePage
  else Ok (pte_paddr entry).

(** A reference to an entry is the table it is in and its index. *)
Definition next_table_mut_or_create (q i : Z) : prog (page_table64 * pa_state) PagingError Z :=
  entry ← gets (λ ta, pt_store ta.1 q i);
  if is_unused entry then
    paddr ← on_store alloc_table;
    modify (λ ta, (pt_write q i (new_table paddr) ta.1, ta.2));;
    mret paddr
  else lift (next_table entry).

(** [get_entry] and [get_entry_mut] *)
Definition get_entry (t : page_table64) (vaddr : Z) : outcome PagingError (Z * Z * PageSize) :=
  let s := pt_store t in
  p3 ← (if LEVELS =? 3 then Ok (root_paddr t)
        else if LEVELS =? 4 then next_table (s (root_paddr t) (p4_index vaddr))
        else Panic);
  let p3e := s p3 (p3_index vaddr) in
  if pte_is_huge p3e then Ok (p3, p3_index vaddr, Size1G)
  else
    p2 ← next_table p3e;
    let p2e := s p2 (p2_index vaddr) in
    if pte_is_huge p2e then Ok (p2, p2_index vaddr, Size2M)
    else
      p1 ← next_table p2e;
      Ok (p1, p1_index vaddr, Size4K).

Definition get_entry_mut_or_create (vaddr : Z) (page_size : PageSize) :
    prog (page_table64 * pa_state) PagingError (Z * Z) :=
  root ← gets (λ ta, root_paddr ta.1);
  p3 ← (if LEVELS =? 3 then mret root
        else if LEVELS =? 4 then next_table_mut_or_create root (p4_index vaddr)
        else panic);
  if bool_decide (page_size = Size1G) then mret (p3, p3_index vaddr)
  else
    p2 ← next_table_mut_or_create p3 (p3_index vaddr);
    if bool_decide (page_size = Size2M) then mret (p2, p2_index vaddr)
    else
      p1 ← next_table_mut_or_create p2 (p2_index vaddr);
      mret (p1, p1_index vaddr).

Definition try_new (mem : Z → Z → Z) : prog pa_state PagingError page_table64 :=
  zoom (λ a, (mem, a)) (λ sa _, sa.2)
    (root ← alloc_table; s ← gets fst; mret (PT64 root s)).

Definition map_page (vaddr target : Z) (page_size : PageSize) (flags : Z) :
    prog (page_table64 * pa_state) PagingError () :=
  slot ← get_entry_mut_or_create vaddr page_size;
  let '(q, i) := slot in
  entry ← gets (λ ta, pt_store ta.1 q i);
  if negb (is_unused entry) then throw Paging.AlreadyMapped
  else
    e ← lift (expect (new_page (align_down target (page_bytes page_size)) flags (is_huge page_size)));
    modify (λ ta, (pt_write q i e ta.1, ta.2)).

Definition remap (vaddr paddr flags : Z) : prog page_table64 PagingError PageSize :=
  t ← gets id;
  slot ← lift (get_entry t vaddr);
  let '(q, i, size) := slot in
  let entry := set_paddr (pt_store t q i) paddr in
  e ← lift (expect (set_flags entry flags (is_huge size)));
  modify (pt_write q i e);;
  mret size.

Definition protect (vaddr flags : Z) : prog page_table64 PagingError PageSize :=
  t ← gets id;
  slot ← lift (get_entry t vaddr);
  let '(q, i, size) := slot in
  if negb (is_present (pt_store t q i)) then throw Paging.NotMapped
  else
    e ← lift (expect (set_flags (pt_store t q i) flags (is_huge size)));
    modify (pt_write q i e);;
    mret size.

Definition unmap (vaddr : Z) : prog page_table64 PagingError (Z * PageSize) :=
  t ← gets id;
  slot ← lift (get_entry t vaddr);
  let '(q, i, size) := slot in
  let entry := pt_store t q i in
  if negb (is_present entry) then
    modify (pt_write q i 0);; throw Paging.NotMapped
  else
    modify (pt_write q i 0);;
    mret (pte_paddr entry, size).

Definition query (t : page_table64) (vaddr : Z) : outcome PagingError (Z * Z * PageSize) :=
  slot ← get_entry t vaddr;
  let '(q, i, size) := slot in
  let entry := pt_store t q i in
  if negb (is_present entry) then Err Paging.NotMapped
  else
    let off := align_offset vaddr (page_bytes size) in
    Ok (pte_paddr entry + off, pte_flags_of entry, size).

Definition canonicalize_vaddr (raw : Z) : Z :=
  let sign_bit := Z.shiftl 1 (VA_MAX_BITS - 1) in
  if Z.land raw sign_bit =? 0 then raw
  else Z.lor raw (Z.land (Z.shiftl usize_max VA_MAX_BITS) usize_max).

Definition saturating_add (a b : Z) : Z := Z.min (a + b) usize_max.

(** The body of the loop of [walk_leaf_range_recursive], for a table [l] levels
    above the last; [below] is the recursive call. The visitor's arguments are
    collected in order. *)
Definition visit_entry (s : Z → Z → Z) (l : nat) (table prefix start fin : Z)
    (below : Z → Z → outcome PagingError (list (Z * Z * Z * PageSize)))
    (index : Z) (rest : outcome PagingError (list (Z * Z * Z * PageSize))) :
    outcome PagingError (list (Z * Z * Z * PageSize)) :=
  let shift := 12 + Z.of_nat l * 9 in
  let span := Z.shiftl 1 shift in
  let entry := s table index in
  if negb (is_present entry) then rest
  else
    let raw_start := Z.lor prefix (Z.shiftl index shift) in
    let entry_start := canonicalize_vaddr raw_start in
    let entry_end := saturating_add entry_start span in
    if (entry_end <=? start) || (fin <=? entry_start) then rest
    else
      here ←
        (if bool_decide (l = O) || pte_is_huge entry then
          page_size ← ok_or Paging.MappedToHugePage (level_size l);
          Ok [(entry_start, pte_paddr entry, pte_flags_of entry, page_size)]
        else
          next ← next_table entry;
          below next raw_start);
      later ← rest;
      Ok (here ++ later).

Fixpoint walk_leaf_range_recursive (s : Z → Z → Z) (l : nat) (table prefix start fin : Z) :
    outcome PagingError (list (Z * Z * Z * PageSize)) :=
  let below :=
    match l with
    | O => λ _ _, Ok []
    | S l' => λ next raw_start, walk_leaf_range_recursive s l' next raw_start start fin
    end in
  foldr (visit_entry s l table prefix start fin below) (Ok []) (seqZ 0 ENTRY_COUNT).

Definition walk_leaf_range (t : page_table64) (start size : Z) :
    outcome PagingError (list (Z * Z * Z * PageSize)) :=
  if size =? 0 then Ok []
  else
    fin ← ok_or Paging.NotAligned (usize_checked_add start size);
    walk_leaf_range_recursive (pt_store t) (Z.to_nat (LEVELS - 1)) (root_paddr t) 0 start fin.

(** [dealloc_tree], [l] levels above the last *)
Fixpoint dealloc_tree (s : Z → Z → Z) (l : nat) (table : Z) (a : pa_state) : pa_state :=
  let a :=
    match l with
    | O => a
    | S l' =>
        foldl (λ a index,
          match next_table (s table index) with
          | Ok next => dealloc_tree s l' next a
          | _ => a
          end) a (seqZ 0 ENTRY_COUNT)
    end in
  dealloc_frame table a.

(** [Drop for PageTable64] *)
Definition drop_table (t : page_table64) (a : pa_state) : pa_state :=
  let a :=
    foldl (λ a index,
      match next_table (pt_store t (root_paddr t) index) with
      | Ok next => dealloc_tree (pt_store t) (Z.to_nat (LEVELS - 2)) next a
      | _ => a
      end) a (seqZ 0 ENTRY_COUNT) in
  dealloc_frame (root_paddr t) a.
End table.
