(* ===== verification/Radix.v ===== *)
(** * [PageTable64] implements the page-table contract

    The representation invariant of the radix tree: every owned table has a
    level and the address prefix it translates, and an entry is unused, points
    to the owned table for its sub-range, or is a leaf of the level's size.
    The operations are then shown to act on the set of leaves as the contract
    of PageTable.v says; [pt64] is the resulting instance. *)
From S2P Require Import Prelude MemAddr Frame PageTable Pte PageTable64.
From stdpp Require Import prelude gmap list sorting.
Open Scope Z_scope.

(** ** Spans and indices *)

(** The bytes one entry [l] levels above the last translates. *)
Definition span (l : nat) : Z := 2 ^ (12 + 9 * Z.of_nat l).
Definition idx (l : nat) (a : Z) : Z := (a / span l) mod 512.

Lemma span_pos l : 0 < span l.
Proof. apply Z.pow_pos_nonneg; lia. Qed.
Lemma span_S l : span (S l) = 512 * span l.
Proof.
  unfold span. replace (12 + 9 * Z.of_nat (S l)) with (9 + (12 + 9 * Z.of_nat l)) by lia.
  rewrite Z.pow_add_r by lia. done.
Qed.
Lemma span_divide l k : (l ≤ k)%nat → (span l | span k).
Proof.
  induction 1 as [|k _ IH]; [done|]. rewrite span_S. by apply Z.divide_mul_r.
Qed.
Lemma span_le l k : (l ≤ k)%nat → span l ≤ span k.
Proof. intros H. apply Z.divide_pos_le; [apply span_pos|by apply span_divide]. Qed.
Lemma mod_divide_trans a m n : 0 < m → (m | n) → a mod n = 0 → a mod m = 0.
Proof.
  intros Hm Hmn Ha. destruct (decide (n = 0)) as [->|Hn].
  - rewrite Z.mod_0_r in Ha. subst a. by rewrite Z.mod_0_l by lia.
  - apply Z.mod_divide in Ha; [|done]. apply Z.mod_divide; [lia|]. by etrans.
Qed.
Lemma span_aligned a l k : (l ≤ k)%nat → a mod span k = 0 → a mod span l = 0.
Proof. intros H. apply mod_divide_trans; [apply span_pos|by apply span_divide]. Qed.
Lemma level_size_span l ps : level_size l = Some ps → page_bytes ps = span l.
Proof. destruct l as [|[|[|l]]]; intros [= <-]; done. Qed.

Lemma idx_range l a : 0 ≤ idx l a < 512.
Proof. apply Z.mod_pos_bound. lia. Qed.
Lemma idx_land l a : idx l a = Z.land (Z.shiftr a (12 + 9 * Z.of_nat l)) (ENTRY_COUNT - 1).
Proof.
  unfold idx, span. rewrite Z.shiftr_div_pow2 by lia.
  change (512 - 1) with (Z.ones 9). by rewrite Z.land_ones by lia.
Qed.
Lemma p1_index_idx a : p1_index a = idx 0 a.
Proof. by rewrite idx_land. Qed.
Lemma p2_index_idx a : p2_index a = idx 1 a.
Proof. by rewrite idx_land. Qed.
Lemma p3_index_idx a : p3_index a = idx 2 a.
Proof. by rewrite idx_land. Qed.
Lemma p4_index_idx a : p4_index a = idx 3 a.
Proof. by rewrite idx_land. Qed.

(** The region of the entry that translates [a], in the table of prefix [pre]. *)
Lemma idx_region l pre a :
  pre mod span (S l) = 0 → pre ≤ a < pre + span (S l) →
  pre + idx l a * span l ≤ a < pre + idx l a * span l + span l.
Proof.
  intros Hpre Ha. pose proof (span_pos l). rewrite span_S in *.
  apply Z.mod_divide in Hpre as [k ->]; [|lia].
  unfold idx. assert (a / span l = k * 512 + (a - k * (512 * span l)) / span l) as ->.
  { rewrite <- Z.div_add_l by lia. f_equal. lia. }
  set (x := a - k * (512 * span l)) in *.
  assert (0 ≤ x / span l < 512).
  { split; [apply Z.div_pos; lia|apply Z.div_lt_upper_bound; lia]. }
  rewrite (Z.add_comm (k * 512)), Z.mod_add, Z.mod_small by lia.
  pose proof (Z.div_mod x (span l) ltac:(lia)). pose proof (Z.mod_pos_bound x (span l)). lia.
Qed.
Lemma idx_unique l pre a i :
  pre mod span (S l) = 0 → 0 ≤ i < 512 →
  pre + i * span l ≤ a < pre + i * span l + span l → idx l a = i.
Proof.
  intros Hpre Hi Ha. pose proof (span_pos l). pose proof (idx_range l a).
  pose proof (idx_region l pre a Hpre) as Hr. rewrite span_S in Hr. nia.
Qed.
(** Addresses in the same span have the same index there and above. *)
Lemma div_span_above l k a b :
  (l ≤ k)%nat → a / span l = b / span l → a / span k = b / span k.
Proof.
  intros Hlk Hab. destruct (span_divide l k Hlk) as [c Hc].
  pose proof (span_pos l). pose proof (span_pos k). assert (0 < c) by nia.
  rewrite Hc, (Z.mul_comm c), <- !Z.div_div, Hab by lia. done.
Qed.
Lemma div_span_idx l k a b : (l ≤ k)%nat → a / span l = b / span l → idx k a = idx k b.
Proof. intros Hlk Hab. unfold idx. by rewrite (div_span_above l k a b). Qed.
(** A table region is closed under staying in the same span. *)
Lemma div_span_region l a b pre :
  pre mod span l = 0 → a / span l = b / span l →
  pre ≤ a < pre + span l → pre ≤ b < pre + span l.
Proof.
  intros Hpre Hab Ha. pose proof (span_pos l).
  apply Z.mod_divide in Hpre as [k ->]; [|lia].
  assert (a / span l = k) as Hk.
  { symmetry. apply (Z.div_unique a (span l) k (a - k * span l)); lia. }
  pose proof (Z.div_mod b (span l) ltac:(lia)). pose proof (Z.mod_pos_bound b (span l)). nia.
Qed.

Section radix.
Context {CFG : Config} {PA : PageAllocator} {BF : BitFlags} {MA : MemoryAddr}.
Context {PTE : GenericPTE} {PL : PteLaws} {MD : PagingMetaData}.

(** The level of the root table. *)
Definition top : nat := Z.to_nat (LEVELS - 1).
Lemma top_cases : top = 2%nat ∧ LEVELS = 3 ∨ top = 3%nat ∧ LEVELS = 4.
Proof. unfold top. destruct levels_cases as [-> | ->]; auto. Qed.
Lemma va_bits_span : 2 ^ VA_MAX_BITS = span (S top).
Proof.
  unfold span. rewrite va_max_bits_eq. f_equal.
  destruct top_cases as [[-> ->]|[-> ->]]; done.
Qed.

(** ** The representation invariant *)

(** Owned tables: physical address to level and address prefix. *)
Abbreviation owner := (gmap Z (nat * Z)).

(** The entry for the region at [base], [l] levels above the last. *)
Inductive entry_wf (own : owner) (l : nat) (base e : Z) : Prop :=
| EZero : e = 0 → entry_wf own l base e
| ETable l' q : l = S l' → pte_table e q → own !! q = Some (l', base) → entry_wf own l base e
| ELeaf ps p f : level_size l = Some ps → pte_leaf e p f (is_huge ps) →
    leaf_flags f → pte_readback f = f → p mod page_bytes ps = 0 → 0 ≤ p < 2 ^ pte_pa_bits →
    entry_wf own l base e.

Record own_wf (s : Z → Z → Z) (root : Z) (own : owner) : Prop := {
  ow_root : own !! root = Some (top, 0);
  ow_inj : ∀ q q' k, own !! q = Some k → own !! q' = Some k → q = q';
  ow_table : ∀ q l pre, own !! q = Some (l, pre) →
    (l ≤ top)%nat ∧ pre mod span (S l) = 0 ∧ 0 ≤ pre ∧ pre + span (S l) ≤ 2 ^ VA_MAX_BITS ∧
    q mod 4096 = 0 ∧ 0 < q < 2 ^ pte_pa_bits;
  ow_entry : ∀ q l pre i, own !! q = Some (l, pre) → 0 ≤ i < 512 →
    entry_wf own l (pre + i * span l) (s q i);
  ow_parent : ∀ q l pre, own !! q = Some (l, pre) → q ≠ root →
    ∃ q' pre' i, own !! q' = Some (S l, pre') ∧ 0 ≤ i < 512 ∧
      pre = pre' + i * span (S l) ∧ pte_table (s q' i) q;
}.

(** The slot where the translation of [a] ends. *)
Fixpoint slot (s : Z → Z → Z) (l : nat) (q a : Z) : Z * Z * nat :=
  let e := s q (idx l a) in
  match l with
  | O => (q, idx l a, l)
  | S l' => if is_unused e || pte_is_huge e then (q, idx l a, l) else slot s l' (pte_paddr e) a
  end.

(** [a] translates to the leaf [lf]. *)
Definition translates (s : Z → Z → Z) (root a : Z) (lf : leaf) : Prop :=
  let '(q, i, l) := slot s top root a in
  level_size l = Some (lf_size lf) ∧
  pte_leaf (s q i) (lf_paddr lf) (lf_flags lf) (is_huge (lf_size lf)).

Definition owned_pages (own : owner) : gset Z := set_map phys_to_virt (dom own).

Definition rep (t : page_table64) (L : gmap Z leaf) (T : gset Z) : Prop :=
  ∃ own, own_wf (pt_store t) (root_paddr t) own ∧ T = owned_pages own ∧
    ∀ b lf, L !! b = Some lf ↔
      md_vaddr_is_valid b = true ∧ 0 ≤ b < 2 ^ 64 ∧ b mod page_bytes (lf_size lf) = 0 ∧
      translates (pt_store t) (root_paddr t) b lf.

(** ** Entries *)

Lemma is_unused_false e : is_unused e = false ↔ e ≠ 0.
Proof.
  pose proof (unused_zero e). destruct (is_unused e); naive_solver.
Qed.
Lemma is_unused_0 : is_unused 0 = true.
Proof. by apply unused_zero. Qed.
Lemma level_size_huge l ps : level_size (S l) = Some ps → is_huge ps = true.
Proof. destruct l as [|[|l]]; intros [= <-]; done. Qed.
Lemma pte_leaf_fun e p f h p' f' h' : pte_leaf e p f h → pte_leaf e p' f' h' → p = p' ∧ f = f'.
Proof. intros (<- & <- & _) (<- & <- & _). done. Qed.

Section own.
Context {s : Z → Z → Z} {root : Z} {own : owner}.
Hypothesis (Hown : own_wf s root own).

(** Where a translation ends: in an owned table that covers the address, at
    an unused entry or a leaf. *)
Lemma slot_spec l q pre a q' i' l' :
  own !! q = Some (l, pre) → pre ≤ a < pre + span (S l) → slot s l q a = (q', i', l') →
  (l' ≤ l)%nat ∧ i' = idx l' a ∧
  ∃ pre', own !! q' = Some (l', pre') ∧ pre' ≤ a < pre' + span (S l') ∧
    (s q' i' = 0 ∨ ∃ ps p f, level_size l' = Some ps ∧ pte_leaf (s q' i') p f (is_huge ps) ∧
       leaf_flags f ∧ pte_readback f = f ∧ p mod page_bytes ps = 0 ∧ 0 ≤ p < 2 ^ pte_pa_bits).
Proof.
  revert q pre. induction l as [|l IH]; intros q pre Hq Ha Hslot; cbn in Hslot.
  - simplify_eq. split; [done|]. split; [done|]. exists pre. split; [done|]. split; [done|].
    destruct (ow_entry _ _ _ Hown q' 0 pre (idx 0 a) Hq (idx_range 0 a)); [by left|done|].
    right. eauto 10.
  - pose proof (ow_entry _ _ _ Hown q (S l) pre (idx (S l) a) Hq (idx_range _ a)) as He.
    destruct (ow_table _ _ _ Hown _ _ _ Hq) as (_ & Hpre & _).
    pose proof (idx_region _ _ _ Hpre Ha).
    destruct He as [He|l'' q'' [= <-] Ht Hq''|ps p f Hps Hleaf Hf Hr Hal Hp].
    + rewrite He, is_unused_0 in Hslot. cbn in Hslot. simplify_eq.
      split_and!; [done..|]. exists pre. split_and!; [done|lia|lia|]. by left.
    + destruct Ht as (Hqp & _ & Hu & _ & Hh). rewrite Hu, Hh, Hqp in Hslot. cbn in Hslot.
      destruct (IH q'' _ Hq'' ltac:(lia) Hslot) as (? & ? & ?). split_and!; [lia|done..].
    + destruct Hleaf as (H1 & H2 & H3 & H4 & H5).
      rewrite (H5 (level_size_huge _ _ Hps)), orb_true_r in Hslot. simplify_eq.
      split_and!; [done..|]. exists pre. split_and!; [done|lia|lia|]. right.
      exists ps, (pte_paddr (s q' (idx (S l) a))), (pte_flags_of (s q' (idx (S l) a))).
      done.
Qed.

(** Addresses in the same span as [a] end in the same slot. *)
Lemma slot_level l q a q' i' l' : slot s l q a = (q', i', l') → (l' ≤ l)%nat.
Proof.
  revert q. induction l as [|l IH]; intros q; cbn; [intros; by simplify_eq|].
  case_match; intros Hs; [by simplify_eq|]. apply IH in Hs. lia.
Qed.
Lemma slot_same l q a b q' i' l' :
  slot s l q a = (q', i', l') → a / span l' = b / span l' → slot s l q b = (q', i', l').
Proof.
  revert q. induction l as [|l IH]; intros q Hslot Hab.
  - cbn in *. simplify_eq. by rewrite (div_span_idx 0 0 a b).
  - pose proof (slot_level _ _ _ _ _ _ Hslot). cbn in *.
    rewrite (div_span_idx l' (S l) b a) by done.
    destruct (_ || _); [by simplify_eq|by apply IH].
Qed.
End own.

(** ** Canonical addresses *)

Lemma land_field a n k :
  0 ≤ n → 0 ≤ k → Z.land a (Z.shiftl (Z.ones n) k) = (a / 2 ^ k) mod 2 ^ n * 2 ^ k.
Proof.
  intros Hn Hk. rewrite <- Z.land_ones, <- Z.shiftr_div_pow2, <- Z.shiftl_mul_pow2 by lia.
  apply Z.bits_inj_iff. intros i. rewrite Z.land_spec.
  destruct (Z.ltb_spec i 0); [by rewrite !Z.testbit_neg_r|].
  destruct (Z.ltb_spec i k).
  - by rewrite !Z.shiftl_spec_low, andb_false_r by lia.
  - rewrite !Z.shiftl_spec, Z.land_spec, Z.shiftr_spec by lia. do 2 f_equal. lia.
Qed.

Lemma lor_disjoint a b : Z.land a b = 0 → Z.lor a b = a + b.
Proof. intros H. by rewrite <- Z.lxor_lor, <- Z.add_nocarry_lxor. Qed.

(** The size of one half of the address space. *)
Definition half : Z := 2 ^ (VA_MAX_BITS - 1).
Lemma half_cases : VA_MAX_BITS = 39 ∨ VA_MAX_BITS = 48.
Proof. rewrite va_max_bits_eq. destruct levels_cases as [-> | ->]; auto. Qed.
Lemma half_double : 2 ^ VA_MAX_BITS = 2 * half.
Proof. unfold half. destruct half_cases as [-> | ->]; done. Qed.
Lemma half_bound : 0 < half ∧ 2 * half ≤ 2 ^ 48.
Proof. unfold half. destruct half_cases as [-> | ->]; done. Qed.
Lemma half_aligned l : (l ≤ top)%nat → half mod span l = 0.
Proof.
  intros Hl. apply (span_aligned _ l top Hl). pose proof half_double as Hd.
  rewrite va_bits_span, span_S in Hd.
  replace half with (256 * span top) by lia. apply Z.mod_mul. pose proof (span_pos top). lia.
Qed.

Lemma valid_spec a :
  0 ≤ a < 2 ^ 64 →
  md_vaddr_is_valid a = true ↔ a < half ∨ 2 ^ 64 - half ≤ a.
Proof.
  intros Ha. unfold md_vaddr_is_valid, half.
  assert (∀ k, 0 ≤ k ≤ 64 →
    Z.land a (Z.shiftl (Z.ones (64 - k)) k) = a / 2 ^ k * 2 ^ k) as Hland.
  { intros k Hk. pose proof (Z.pow_pos_nonneg 2 k).
    rewrite land_field by lia. rewrite (Z.mod_small (a / 2 ^ k)); [done|].
    split; [apply Z.div_pos; lia|]. apply Z.div_lt_upper_bound; [lia|].
    rewrite <- Z.pow_add_r by lia. replace (k + (64 - k)) with 64 by lia. lia. }
  rewrite orb_true_iff, !Z.eqb_eq.
  destruct half_cases as [-> | ->].
  - change (Z.land (Z.shiftl usize_max (39 - 1)) usize_max) with (Z.shiftl (Z.ones (64 - 38)) 38).
    rewrite Hland by lia. change (Z.shiftl _ _) with (67108863 * 2 ^ 38).
    pose proof (Z.div_mod a (2 ^ 38) ltac:(lia)). pose proof (Z.mod_pos_bound a (2 ^ 38) ltac:(lia)). lia.
  - change (Z.land (Z.shiftl usize_max (48 - 1)) usize_max) with (Z.shiftl (Z.ones (64 - 47)) 47).
    rewrite Hland by lia. change (Z.shiftl _ _) with (131071 * 2 ^ 47).
    pose proof (Z.div_mod a (2 ^ 47) ltac:(lia)). pose proof (Z.mod_pos_bound a (2 ^ 47) ltac:(lia)). lia.
Qed.
Lemma canon_spec r :
  0 ≤ r < 2 ^ VA_MAX_BITS →
  canonicalize_vaddr r = if r <? half then r else r + (2 ^ 64 - 2 ^ VA_MAX_BITS).
Proof.
  intros Hr. unfold canonicalize_vaddr, half.
  assert (∀ k, 0 ≤ k → Z.land r (Z.shiftl 1 k) = (r / 2 ^ k) mod 2 * 2 ^ k) as Hsign
    by (intros k Hk; exact (land_field r 1 k ltac:(lia) Hk)).
  rewrite Hsign by (destruct half_cases; lia).
  assert (∀ k, r < 2 ^ k → 0 ≤ k ≤ 64 →
    Z.lor r (Z.shiftl (Z.ones (64 - k)) k) = r + (2 ^ 64 - 2 ^ k)) as Hor.
  { intros k Hk Hk'. rewrite lor_disjoint.
    - rewrite Z.shiftl_mul_pow2, Z.ones_equiv by lia. f_equal.
      rewrite <- Z.sub_1_r, Z.mul_sub_distr_r, <- Z.pow_add_r by lia.
      f_equal; [f_equal; lia|lia].
    - rewrite land_field by lia. rewrite (Z.div_small r) by lia. done. }
  destruct half_cases as [Hv|Hv]; rewrite Hv in *.
  - change (Z.land (Z.shiftl usize_max 39) usize_max) with (Z.shiftl (Z.ones (64 - 39)) 39).
    rewrite Hor by lia. change (39 - 1) with 38. destruct (Z.ltb_spec r (2 ^ 38)).
    + by rewrite (Z.div_small r) by lia.
    + replace (r / 2 ^ 38) with 1; [done|].
      apply (Z.div_unique r (2 ^ 38) 1 (r - 2 ^ 38)); lia.
  - change (Z.land (Z.shiftl usize_max 48) usize_max) with (Z.shiftl (Z.ones (64 - 48)) 48).
    rewrite Hor by lia. change (48 - 1) with 47. destruct (Z.ltb_spec r (2 ^ 47)).
    + by rewrite (Z.div_small r) by lia.
    + replace (r / 2 ^ 47) with 1; [done|].
      apply (Z.div_unique r (2 ^ 47) 1 (r - 2 ^ 47)); lia.
Qed.

(** [raw] forgets the sign extension; on valid addresses [canonicalize_vaddr]
    puts it back. *)
Definition raw (a : Z) : Z := a mod 2 ^ VA_MAX_BITS.
Lemma raw_range a : 0 ≤ raw a < 2 ^ VA_MAX_BITS.
Proof. apply Z.mod_pos_bound. pose proof half_double. pose proof half_bound. lia. Qed.
Lemma raw_spec a :
  0 ≤ a < 2 ^ 64 → md_vaddr_is_valid a = true →
  raw a = if a <? half then a else a - (2 ^ 64 - 2 ^ VA_MAX_BITS).
Proof.
  intros Ha Hv. apply valid_spec in Hv; [|done]. unfold raw.
  pose proof half_double. pose proof half_bound. destruct (Z.ltb_spec a half).
  - apply Z.mod_small. lia.
  - assert (∃ c, 2 ^ 64 = c * 2 ^ VA_MAX_BITS) as [c Hc]
      by (destruct half_cases as [-> | ->]; [by exists (2 ^ 25)|by exists (2 ^ 16)]).
    symmetry. apply (Z.mod_unique a _ (c - 1)); lia.
Qed.
Lemma canon_raw a :
  0 ≤ a < 2 ^ 64 → md_vaddr_is_valid a = true → canonicalize_vaddr (raw a) = a.
Proof.
  intros Ha Hv. rewrite canon_spec by apply raw_range. rewrite raw_spec by done.
  apply valid_spec in Hv; [|done]. pose proof half_double. pose proof half_bound.
  split_zbool; lia.
Qed.
Lemma canon_valid r :
  0 ≤ r < 2 ^ VA_MAX_BITS →
  0 ≤ canonicalize_vaddr r < 2 ^ 64 ∧ md_vaddr_is_valid (canonicalize_vaddr r) = true ∧
  raw (canonicalize_vaddr r) = r.
Proof.
  intros Hr. pose proof half_double. pose proof half_bound.
  assert (0 ≤ canonicalize_vaddr r < 2 ^ 64) as Hc
    by (rewrite canon_spec by done; split_zbool; lia).
  assert (md_vaddr_is_valid (canonicalize_vaddr r) = true) as Hv
    by (apply valid_spec; [done|]; rewrite canon_spec by done; split_zbool; lia).
  split; [done|]. split; [done|]. rewrite raw_spec by done. rewrite canon_spec by done.
  split_zbool; lia.
Qed.

Lemma idx_raw l a : (l ≤ top)%nat → idx l (raw a) = idx l a.
Proof.
  intros Hl. unfold raw, idx. rewrite va_bits_span.
  assert (S l ≤ S top)%nat as Hl' by lia.
  destruct (span_divide _ _ Hl') as [c Hc]. rewrite (span_S l) in Hc.
  pose proof (span_pos l). pose proof (span_pos (S top)).
  rewrite (Z.mod_eq a) by lia. set (d := a / span (S top)).
  replace (a - span (S top) * d) with (a + (- (c * d) * 512) * span l) by (rewrite Hc; ring).
  rewrite Z.div_add, Z.mod_add by lia. done.
Qed.
Lemma slot_raw s l q a : (l ≤ top)%nat → slot s l q (raw a) = slot s l q a.
Proof.
  revert q. induction l as [|l IH]; intros q Hl; cbn; rewrite idx_raw by done; [done|].
  by rewrite IH by lia.
Qed.

(** ** Reading the table *)

Section read.
Context {t : page_table64} {own : owner}.
Hypothesis (Hown : own_wf (pt_store t) (root_paddr t) own).

Lemma root_slot a q i l :
  slot (pt_store t) top (root_paddr t) a = (q, i, l) →
  (l ≤ top)%nat ∧ i = idx l a ∧
  ∃ pre, own !! q = Some (l, pre) ∧ pre ≤ raw a < pre + span (S l) ∧
    (pt_store t q i = 0 ∨ ∃ ps p f, level_size l = Some ps ∧
       pte_leaf (pt_store t q i) p f (is_huge ps) ∧
       leaf_flags f ∧ pte_readback f = f ∧ p mod page_bytes ps = 0 ∧ 0 ≤ p < 2 ^ pte_pa_bits).
Proof.
  intros Hs. rewrite <- slot_raw in Hs by done.
  pose proof (raw_range a) as Hr. rewrite va_bits_span in Hr.
  destruct (slot_spec Hown top (root_paddr t) 0 (raw a) q i l (ow_root _ _ _ Hown) ltac:(lia) Hs)
    as (? & Hi & Hrest). split_and!; [done| |done]. by rewrite idx_raw in Hi.
Qed.

(** One step of the walk down. *)
Lemma step_down l q pre a :
  own !! q = Some (S l, pre) →
  let e := pt_store t q (idx (S l) a) in
  (e = 0 ∧ next_table e = Err Paging.NotMapped) ∨
  (∃ q', pte_is_huge e = false ∧ is_unused e = false ∧ next_table e = Ok q' ∧ pte_paddr e = q' ∧
     own !! q' = Some (l, pre + idx (S l) a * span (S l))) ∨
  (pte_is_huge e = true ∧ is_unused e = false ∧ is_present e = true ∧
   ∃ ps, level_size (S l) = Some ps).
Proof.
  intros Hq e. unfold next_table.
  destruct (ow_entry _ _ _ Hown q (S l) pre (idx (S l) a) Hq (idx_range _ a))
    as [He|l' q' [= <-] (Hp & Hne & Hu & Hpr & Hh) Hq'|ps p f Hps (H1 & H2 & H3 & H4 & H5) Hf Hr Hal Hp].
  - left. fold e in He. split; [done|]. by rewrite He, zero_paddr.
  - right; left. exists q'. fold e in Hp, Hu, Hh. split_and!; [done..| |done|done].
    rewrite Hp, Hh. by rewrite (proj2 (Z.eqb_neq _ _) Hne).
  - right; right. fold e in H3, H4, H5. split_and!; [|done|done|eauto].
    apply H5. by eapply level_size_huge.
Qed.

(** [get_entry] finds the slot of the address, unless it stops early. *)
Lemma get_entry_spec a q i l :
  slot (pt_store t) top (root_paddr t) a = (q, i, l) →
  (∃ ps, level_size l = Some ps ∧ get_entry t a = Ok (q, i, ps)) ∨
  (pt_store t q i = 0 ∧ get_entry t a = Err Paging.NotMapped).
Proof.
  intros Hs. unfold get_entry. rewrite p1_index_idx, p2_index_idx, p3_index_idx, p4_index_idx.
  assert (∀ p3 pre, own !! p3 = Some (2%nat, pre) → slot (pt_store t) 2 p3 a = (q, i, l) →
    let r := if pte_is_huge (pt_store t p3 (idx 2 a)) then Ok (p3, idx 2 a, Size1G) else
      p2 ← next_table (pt_store t p3 (idx 2 a));
      if pte_is_huge (pt_store t p2 (idx 1 a)) then Ok (p2, idx 1 a, Size2M) else
      p1 ← next_table (pt_store t p2 (idx 1 a)); Ok (p1, idx 0 a, Size4K) in
    (∃ ps, level_size l = Some ps ∧ r = Ok (q, i, ps)) ∨
    (pt_store t q i = 0 ∧ r = Err Paging.NotMapped)) as H3.
  { clear Hs. intros p3 pre Hp3 Hs. cbn [slot] in Hs.
    destruct (step_down 1 p3 pre a Hp3) as [[He Hn]|[(p2 & Hh & Hu & Hn & Hp & Hp2)|(Hh & Hu & _ & ps & Hps)]].
    - rewrite He, is_unused_0 in Hs. cbn in Hs. simplify_eq. rewrite He.
      destruct (pte_is_huge 0); [left; eexists; split; reflexivity|]. rewrite He in Hn. rewrite Hn. by right.
    - rewrite Hh, Hu, Hp in Hs. rewrite Hh, Hn. cbn in *.
      destruct (step_down 0 p2 _ a Hp2) as [[He' Hn']|[(p1 & Hh' & Hu' & Hn' & Hp' & Hp1)|(Hh' & Hu' & _ & ps & Hps)]].
      + rewrite He', is_unused_0 in Hs. cbn in Hs. simplify_eq. rewrite He'.
        destruct (pte_is_huge 0); [left; eexists; split; reflexivity|]. rewrite He' in Hn'. rewrite Hn'. by right.
      + rewrite Hh', Hu', Hp' in Hs. rewrite Hh', Hn'. cbn in *. simplify_eq. left. eexists. split; reflexivity.
      + rewrite Hh', orb_true_r in Hs. rewrite Hh'. simplify_eq. left. eexists. split; reflexivity.
    - rewrite Hh, orb_true_r in Hs. rewrite Hh. simplify_eq. left. eexists. split; reflexivity. }
  destruct top_cases as [[Ht HL]|[Ht HL]]; rewrite HL; cbn [Z.eqb Pos.eqb]; rewrite Ht in Hs.
  - apply (H3 _ 0); [|done]. rewrite <- Ht. apply Hown.
  - pose proof (ow_root _ _ _ Hown) as Hroot. rewrite Ht in Hroot. cbn [slot] in Hs.
    destruct (step_down 2 _ _ a Hroot) as [[He Hn]|[(p3 & Hh & Hu & Hn & Hp & Hp3)|(_ & _ & _ & ps & Hps)]]; [| |done].
    + rewrite He, is_unused_0 in Hs. cbn in Hs. simplify_eq. rewrite He in Hn.
      rewrite He, Hn. by right.
    + rewrite Hh, Hu, Hp in Hs. rewrite Hn. cbn [mbind outcome_bind]. by eapply H3.
Qed.

Lemma slot_leaf a q i l p f ps :
  slot (pt_store t) top (root_paddr t) a = (q, i, l) → level_size l = Some ps →
  pte_leaf (pt_store t q i) p f (is_huge ps) →
  leaf_flags f ∧ pte_readback f = f ∧ p mod page_bytes ps = 0 ∧ 0 ≤ p < 2 ^ pte_pa_bits.
Proof.
  intros Hs Hps Hleaf. destruct (root_slot _ _ _ _ Hs) as (_ & _ & pre & _ & _ & Hcase).
  destruct Hcase as [H0|(ps' & p' & f' & Hps' & Hleaf' & Hf & Hr & Hal & Hp)].
  - destruct Hleaf as (_ & _ & Hu & _). by rewrite H0, is_unused_0 in Hu.
  - destruct (pte_leaf_fun _ _ _ _ _ _ _ Hleaf Hleaf') as [-> ->]. by simplify_eq.
Qed.
End read.

(** The characterisation of the leaves in [rep]. *)
Definition leaves_of (t : page_table64) (L : gmap Z leaf) : Prop :=
  ∀ b lf, L !! b = Some lf ↔
    md_vaddr_is_valid b = true ∧ 0 ≤ b < 2 ^ 64 ∧ b mod page_bytes (lf_size lf) = 0 ∧
    translates (pt_store t) (root_paddr t) b lf.

(** A page is valid as a whole. *)
Lemma page_valid l a b :
  (l ≤ top)%nat → 0 ≤ b < 2 ^ 64 → md_vaddr_is_valid b = true → b mod span l = 0 →
  b ≤ a < b + span l → 0 ≤ a < 2 ^ 64 ∧ md_vaddr_is_valid a = true.
Proof.
  intros Hl Hb Hv Hal Ha. pose proof half_bound. pose proof (span_pos l).
  assert (2 ^ 64 mod span l = 0) as H64.
  { assert ((l ≤ 3)%nat) as Hl3 by (destruct top_cases as [[??]|[??]]; lia).
    apply (span_aligned _ _ 3 Hl3). done. }
  pose proof (aligned_lt_step b (2 ^ 64) _ (span_pos l) Hal H64 ltac:(lia)).
  apply valid_spec in Hv; [|done]. split; [lia|]. apply valid_spec; [lia|].
  destruct Hv as [Hv|Hv]; [|lia].
  pose proof (aligned_lt_step b half _ (span_pos l) Hal (half_aligned l Hl) Hv). lia.
Qed.
Lemma page_div l a b : b mod span l = 0 → b ≤ a < b + span l → b / span l = a / span l.
Proof.
  intros Hal Ha. pose proof (span_pos l). apply Z.mod_divide in Hal as [k ->]; [|lia].
  rewrite Z.div_mul by lia. apply (Z.div_unique a (span l) k (a - k * span l)); lia.
Qed.
Lemma page_align_down l a b :
  b mod span l = 0 → b ≤ a < b + span l → b = a - a mod span l.
Proof.
  intros Hal Ha. pose proof (page_div l a b Hal Ha). pose proof (span_pos l).
  rewrite (Z.mod_eq a) by lia. apply Z.mod_divide in Hal as [k ->]; [|lia].
  rewrite Z.div_mul in * by lia. subst k. lia.
Qed.

Lemma align_down_valid l a :
  (l ≤ top)%nat → 0 ≤ a < 2 ^ 64 → md_vaddr_is_valid a = true →
  0 ≤ a - a mod span l < 2 ^ 64 ∧ md_vaddr_is_valid (a - a mod span l) = true.
Proof.
  intros Hlt Ha Hv. pose proof (span_pos l).
  pose proof (Z.mod_pos_bound a (span l) ltac:(lia)) as Hm.
  set (b := a - a mod span l). assert (b mod span l = 0) as Hal by (by apply align_down_aligned).
  assert (0 ≤ b) as Hb0.
  { unfold b. pose proof (Z.mod_le a (span l)). lia. }
  assert (0 ≤ b < 2 ^ 64) as Hb by lia. split; [done|].
  pose proof half_bound. apply valid_spec; [done|]. apply valid_spec in Hv; [|done].
  destruct Hv as [Hv|Hv]; [left; lia|]. right.
  assert ((2 ^ 64 - half) mod span l = 0) as Hh.
  { apply mod_sub_aligned; [done| |by apply half_aligned].
    assert ((l ≤ 3)%nat) as Hl3 by (destruct top_cases as [[??]|[??]]; lia).
    by apply (span_aligned _ _ 3 Hl3). }
  destruct (Z.leb_spec (2 ^ 64 - half) b); [done|].
  pose proof (aligned_lt_step b _ _ (span_pos l) Hal Hh ltac:(lia)). lia.
Qed.

Section leaves.
Context {t : page_table64} {own : owner} {L : gmap Z leaf}.
Hypothesis (Hown : own_wf (pt_store t) (root_paddr t) own).
Hypothesis (HL : leaves_of t L).

(** What a leaf says about the slot of an address it covers. *)
Lemma covers_slot a b lf :
  covers L a b lf →
  0 ≤ a < 2 ^ 64 ∧ md_vaddr_is_valid a = true ∧
  ∃ q i l, slot (pt_store t) top (root_paddr t) a = (q, i, l) ∧
    level_size l = Some (lf_size lf) ∧ b = a - a mod page_bytes (lf_size lf) ∧
    pte_leaf (pt_store t q i) (lf_paddr lf) (lf_flags lf) (is_huge (lf_size lf)).
Proof.
  intros [Hb Ha]. apply HL in Hb as (Hv & Hr & Hal & Htr). unfold translates in Htr.
  destruct (slot _ _ _ b) as [[q i] l] eqn:Hs. destruct Htr as [Hl Hleaf].
  destruct (root_slot Hown _ _ _ _ Hs) as (Hlt & _ & _).
  rewrite (level_size_span _ _ Hl) in *.
  destruct (page_valid l a b) as [Hra Hva]; try done.
  split; [done|]. split; [done|]. exists q, i, l. split_and!; try done.
  - eapply slot_same; [done|]. by apply page_div.
  - by apply page_align_down.
Qed.
Lemma slot_covers a q i l p f ps :
  0 ≤ a < 2 ^ 64 → md_vaddr_is_valid a = true →
  slot (pt_store t) top (root_paddr t) a = (q, i, l) → level_size l = Some ps →
  pte_leaf (pt_store t q i) p f (is_huge ps) →
  covers L a (a - a mod page_bytes ps) (Leaf p f ps).
Proof.
  intros Ha Hv Hs Hl Hleaf. destruct (root_slot Hown _ _ _ _ Hs) as (Hlt & _ & _).
  rewrite (level_size_span _ _ Hl). pose proof (span_pos l).
  pose proof (Z.mod_pos_bound a (span l) ltac:(lia)) as Hm.
  destruct (align_down_valid l a) as [Hb Hvb]; [done..|].
  pose proof (align_down_aligned a (span l) ltac:(lia)) as Hal.
  split; [|cbn; rewrite (level_size_span _ _ Hl); lia]. apply HL. cbn.
  rewrite (level_size_span _ _ Hl). split_and!; try done; try lia.
  unfold translates. rewrite (slot_same _ _ _ _ _ _ _ Hs); [done|].
  symmetry. apply page_div; [done|lia].
Qed.

Lemma leaves_of_wf : leaves_wf pte_readback pte_pa_bits L.
Proof.
  assert (∀ b lf, L !! b = Some lf → covers L b b lf) as Hself.
  { intros b lf Hb. split; [done|]. pose proof (page_bytes_pos (lf_size lf)). lia. }
  split.
  - intros b lf Hb. destruct (covers_slot _ _ _ (Hself _ _ Hb)) as (_ & _ & q & i & l & Hs & Hl & _).
    apply HL in Hb as (Hv & Hr & Hal & _). split; [done|]. split; [lia|].
    destruct (root_slot Hown _ _ _ _ Hs) as (Hlt & _ & _).
    rewrite (level_size_span _ _ Hl) in *. pose proof (span_pos l).
    destruct (page_valid l (b + span l - 1) b); try done; lia.
  - intros b lf Hb. destruct (covers_slot _ _ _ (Hself _ _ Hb)) as (_ & _ & q & i & l & Hs & Hl & _ & Hleaf).
    by destruct (slot_leaf Hown _ _ _ _ _ _ _ Hs Hl Hleaf) as (_ & _ & ? & ?).
  - intros b lf Hb. destruct (covers_slot _ _ _ (Hself _ _ Hb)) as (_ & _ & q & i & l & Hs & Hl & _ & Hleaf).
    by destruct (slot_leaf Hown _ _ _ _ _ _ _ Hs Hl Hleaf) as (? & ? & _).
  - intros a b b' lf lf' H H'.
    destruct (covers_slot _ _ _ H) as (_ & _ & q & i & l & Hs & Hl & -> & _).
    destruct (covers_slot _ _ _ H') as (_ & _ & q' & i' & l' & Hs' & Hl' & -> & _).
    rewrite Hs in Hs'. injection Hs' as <- <- <-. rewrite Hl in Hl'. by injection Hl' as ->.
Qed.

(** [leaf_find] in terms of the slot. *)
Lemma find_leaf a q i l p f ps :
  0 ≤ a < 2 ^ 64 → md_vaddr_is_valid a = true →
  slot (pt_store t) top (root_paddr t) a = (q, i, l) → level_size l = Some ps →
  pte_leaf (pt_store t q i) p f (is_huge ps) →
  leaf_find L a = Some (a - a mod page_bytes ps, Leaf p f ps).
Proof.
  intros. apply (leaf_find_Some leaves_of_wf). by eapply slot_covers.
Qed.
Lemma find_zero a q i l :
  slot (pt_store t) top (root_paddr t) a = (q, i, l) → pt_store t q i = 0 →
  leaf_find L a = None.
Proof.
  intros Hs H0. apply (leaf_find_None leaves_of_wf). intros b lf Hc.
  destruct (covers_slot _ _ _ Hc) as (_ & _ & q' & i' & l' & Hs' & _ & _ & Hleaf).
  rewrite Hs in Hs'. injection Hs' as <- <- <-.
  destruct Hleaf as (_ & _ & Hu & _). by rewrite H0, is_unused_0 in Hu.
Qed.
Lemma query_spec a :
  0 ≤ a < 2 ^ 64 → md_vaddr_is_valid a = true →
  query t a =
    match leaf_find L a with
    | Some (b, lf) => Ok (lf_paddr lf + (a - b), lf_flags lf, lf_size lf)
    | None => Err Paging.NotMapped
    end.
Proof.
  intros Ha Hv. unfold query. destruct (slot (pt_store t) top (root_paddr t) a) as [[q i] l] eqn:Hs.
  destruct (root_slot Hown _ _ _ _ Hs) as (_ & _ & pre & _ & _ & [H0|(ps & p & f & Hps & Hleaf & _)]).
  - rewrite (find_zero _ _ _ _ Hs H0).
    destruct (get_entry_spec Hown _ _ _ _ Hs) as [(ps & _ & ->)|[_ ->]]; cbn; [|done].
    by rewrite H0, zero_absent.
  - rewrite (find_leaf _ _ _ _ _ _ _ Ha Hv Hs Hps Hleaf).
    destruct Hleaf as (Hp & Hf & Hu & Hpr & _).
    destruct (get_entry_spec Hown _ _ _ _ Hs) as [(ps' & Hps' & ->)|[H0 _]]; cbn.
    + simplify_eq. rewrite Hpr. cbn. rewrite align_offset_spec by lia. do 3 f_equal. lia.
    + by rewrite H0, is_unused_0 in Hu.
Qed.
End leaves.

(** ** Changing one entry *)

(** The addresses that slot [i] of the table of prefix [pre] translates. *)
Definition in_slot (pre i : Z) (l : nat) (r : Z) : Prop :=
  pre + i * span l ≤ r < pre + i * span l + span l.

Section update.
Context {s s' : Z → Z → Z} {root : Z} {own : owner}.
Context {q i pre : Z} {l : nat}.
Hypothesis (Hown : own_wf s root own).
Hypothesis (Hq : own !! q = Some (l, pre)) (Hi : 0 ≤ i < 512).
(** [s'] differs from [s], on the owned tables, at most in the slot [(q, i)]. *)
Hypothesis (Hagree : ∀ x j, is_Some (own !! x) → (x, j) ≠ (q, i) → s' x j = s x j).

Lemma in_slot_idx r : in_slot pre i l r → pre ≤ r < pre + span (S l) ∧ idx l r = i.
Proof.
  intros Hr. destruct (ow_table _ _ _ Hown _ _ _ Hq) as (_ & Hpre & _).
  pose proof (span_pos l). split; [rewrite span_S; unfold in_slot in Hr; nia|].
  by apply (idx_unique l pre).
Qed.
Lemma idx_in_slot r : pre ≤ r < pre + span (S l) → idx l r = i → in_slot pre i l r.
Proof.
  intros Hr Hidx. destruct (ow_table _ _ _ Hown _ _ _ Hq) as (_ & Hpre & _).
  unfold in_slot. rewrite <- Hidx. by apply idx_region.
Qed.
Lemma slot_other l0 q0 pre0 r :
  own !! q0 = Some (l0, pre0) → pre0 ≤ r < pre0 + span (S l0) → ¬ in_slot pre i l r →
  slot s' l0 q0 r = slot s l0 q0 r ∧
  ∀ q1 i1 l1, slot s l0 q0 r = (q1, i1, l1) → s' q1 i1 = s q1 i1.
Proof.
  revert q0 pre0. induction l0 as [|l0 IH]; intros q0 pre0 Hq0 Hr Hnot.
  - assert (s' q0 (idx 0 r) = s q0 (idx 0 r)) as He.
    { apply Hagree; [eauto|]. intros [= -> Hidx]. rewrite Hq in Hq0.
      injection Hq0 as Hl0 Hpre0. apply Hnot, idx_in_slot; congruence. }
    cbn. split; [done|]. by intros ??? [= <- <- <-].
  - assert (s' q0 (idx (S l0) r) = s q0 (idx (S l0) r)) as He.
    { apply Hagree; [eauto|]. intros [= -> Hidx]. rewrite Hq in Hq0.
      injection Hq0 as Hl0 Hpre0. apply Hnot, idx_in_slot; congruence. }
    cbn. rewrite He.
    destruct (ow_table _ _ _ Hown _ _ _ Hq0) as (_ & Hpre0 & _).
    pose proof (idx_region _ _ _ Hpre0 Hr) as Hreg.
    destruct (ow_entry _ _ _ Hown q0 (S l0) pre0 (idx (S l0) r) Hq0 (idx_range _ r))
      as [H0|l' q' [= <-] (Hp & _ & Hu & _ & Hh) Hq'|ps p f Hps (_ & _ & _ & _ & Hh) _ _ _ _].
    + rewrite H0, is_unused_0. cbn. split; [done|]. by intros ??? [= <- <- <-].
    + rewrite Hu, Hh, Hp. cbn. by apply (IH q' _ Hq').
    + rewrite (Hh (level_size_huge _ _ Hps)), orb_true_r.
      split; [done|]. by intros ??? [= <- <- <-].
Qed.
Lemma slot_here l0 q0 pre0 r :
  own !! q0 = Some (l0, pre0) → slot s l0 q0 r = (q, i, l) →
  slot s' l0 q0 r = slot s' l q r.
Proof.
  revert q0 pre0. induction l0 as [|l0 IH]; intros q0 pre0 Hq0 Hs.
  - cbn in Hs. by simplify_eq.
  - destruct (decide (q0 = q)) as [->|Hne]; [by simplify_eq|].
    assert (s' q0 (idx (S l0) r) = s q0 (idx (S l0) r)) as He
      by (apply Hagree; [eauto|congruence]).
    cbn in Hs |- *. rewrite He.
    destruct (ow_entry _ _ _ Hown q0 (S l0) pre0 (idx (S l0) r) Hq0 (idx_range _ r))
      as [H0|l' q' [= <-] (Hp & _ & Hu & _ & Hh) Hq'|ps p f Hps (_ & _ & _ & _ & Hh) _ _ _ _].
    + rewrite H0, is_unused_0 in Hs. cbn in Hs. congruence.
    + rewrite Hu, Hh, Hp in *. cbn in *. by eapply IH.
    + rewrite (Hh (level_size_huge _ _ Hps)), orb_true_r in Hs. congruence.
Qed.

Lemma own_root_range b : 0 ≤ raw b < 0 + span (S top).
Proof. pose proof (raw_range b) as Hr. by rewrite va_bits_span in Hr. Qed.
Lemma translates_other b lf :
  ¬ in_slot pre i l (raw b) → translates s' root b lf ↔ translates s root b lf.
Proof.
  intros Hnot. unfold translates. rewrite <- (slot_raw s'), <- (slot_raw s) by done.
  destruct (slot_other top root 0 (raw b) (ow_root _ _ _ Hown) (own_root_range b) Hnot)
    as [-> He].
  destruct (slot s top root (raw b)) as [[q1 i1] l1]. by rewrite (He q1 i1 l1).
Qed.

Context {a : Z}.
Hypothesis (Hslot : slot s top root a = (q, i, l)).

Lemma slot_in_slot : (l ≤ top)%nat ∧ in_slot pre i l (raw a).
Proof.
  destruct (root_slot (t := PT64 root s) Hown _ _ _ _ Hslot) as (Hl & Hidx & pre' & Hq' & Hr & _).
  split; [done|]. rewrite Hq in Hq'. injection Hq' as <-.
  apply idx_in_slot; [done|]. by rewrite idx_raw.
Qed.
Lemma in_slot_same b : in_slot pre i l (raw b) → slot s top root b = (q, i, l).
Proof.
  intros Hb. destruct slot_in_slot as [Hl Ha]. rewrite <- slot_raw by done.
  apply (slot_same _ _ (raw a)); [by rewrite slot_raw|].
  destruct (ow_table _ _ _ Hown _ _ _ Hq) as (_ & Hpre & _).
  assert ((pre + i * span l) mod span l = 0) as Hal.
  { rewrite Z.add_comm, mod_add_aligned; [|apply span_pos|apply Z.mod_mul; pose proof (span_pos l); lia].
    by apply (span_aligned _ l (S l)); [lia|]. }
  rewrite <- (page_div l (raw a) _ Hal) by done. by apply page_div.
Qed.
Lemma slot_here_root b : in_slot pre i l (raw b) → slot s' top root b = slot s' l q b.
Proof.
  intros Hb. eapply slot_here; [apply Hown|by apply in_slot_same].
Qed.

(** The aligned address of the slot's page. *)
Lemma in_slot_base b b' :
  0 ≤ b < 2 ^ 64 → md_vaddr_is_valid b = true → b mod span l = 0 →
  0 ≤ b' < 2 ^ 64 → md_vaddr_is_valid b' = true → b' mod span l = 0 →
  in_slot pre i l (raw b) → in_slot pre i l (raw b') → b = b'.
Proof.
  intros Hb Hv Hal Hb' Hv' Hal' Hin Hin'.
  destruct slot_in_slot as [Hl _].
  assert (∀ b, b mod span l = 0 → raw b mod span l = 0) as Hraw.
  { intros x Hx. unfold raw. rewrite va_bits_span.
    pose proof (span_pos l). pose proof (span_pos (S top)).
    rewrite (Z.mod_eq x (span (S top))) by lia.
    apply mod_sub_aligned; [done..|]. apply Z.mod_divide; [lia|].
    apply Z.divide_mul_l, span_divide. lia. }
  assert (raw b = raw b') as Heq.
  { pose proof (aligned_lt_step _ _ _ (span_pos l) (Hraw b Hal) (Hraw b' Hal')) as H1.
    pose proof (aligned_lt_step _ _ _ (span_pos l) (Hraw b' Hal') (Hraw b Hal)) as H2.
    unfold in_slot in *. lia. }
  rewrite <- (canon_raw b), <- (canon_raw b') by done. by rewrite Heq.
Qed.
End update.

Lemma store_write_eq s q i e : store_write s q i e q i = e.
Proof. unfold store_write. by rewrite !fupd_eq. Qed.
Lemma store_write_ne s q i e x j : (x, j) ≠ (q, i) → store_write s q i e x j = s x j.
Proof.
  intros Hne. unfold store_write. rewrite fupd_case. case_decide; [subst|done].
  apply fupd_ne. congruence.
Qed.

(** Overwriting the end of a translation with a leaf or with nothing. *)
Section write.
Context {t : page_table64} {own : owner} {L : gmap Z leaf} {a q i : Z} {l : nat}.
Hypothesis (Hown : own_wf (pt_store t) (root_paddr t) own).
Hypothesis (HL : leaves_of t L).
Hypothesis (Hslot : slot (pt_store t) top (root_paddr t) a = (q, i, l)).

Lemma write_own e' :
  (∀ base, entry_wf own l base e') → own_wf (pt_store (pt_write q i e' t)) (root_paddr t) own.
Proof.
  intros He'. cbn. split; [apply Hown|apply Hown|apply Hown| |].
  - intros x lx prex j Hx Hj. destruct (decide ((x, j) = (q, i))) as [[= -> ->]|Hne].
    + destruct (root_slot Hown _ _ _ _ Hslot) as (_ & _ & pre & Hq & _).
      rewrite Hq in Hx. injection Hx as <- <-. rewrite store_write_eq. apply He'.
    + rewrite store_write_ne by done. by apply Hown.
  - intros x lx prex Hx Hne. destruct (ow_parent _ _ _ Hown _ _ _ Hx Hne)
      as (x' & pre' & j & Hx' & Hj & Hpre & Ht).
    exists x', pre', j. split_and!; try done; [lia|lia|].
    rewrite store_write_ne; [done|]. intros [= -> ->].
    destruct (root_slot Hown _ _ _ _ Hslot) as (_ & _ & pre & Hq & _ & Hcase).
    rewrite Hq in Hx'. injection Hx' as -> <-. destruct Ht as (_ & _ & Hu & _ & Hh).
    destruct Hcase as [H0|(ps & p & f & Hps & (_ & _ & _ & _ & Hh') & _)].
    + by rewrite H0, is_unused_0 in Hu.
    + rewrite Hh' in Hh; [done|]. by eapply level_size_huge.
Qed.

(** The page of the slot, and what the leaves in the slot look like. *)
Lemma slot_page ps :
  0 ≤ a < 2 ^ 64 → md_vaddr_is_valid a = true → level_size l = Some ps →
  let base := a - a mod page_bytes ps in
  0 ≤ base < 2 ^ 64 ∧ md_vaddr_is_valid base = true ∧ base mod page_bytes ps = 0 ∧
  slot (pt_store t) top (root_paddr t) base = (q, i, l).
Proof.
  intros Ha Hv Hps base.
  destruct (root_slot Hown _ _ _ _ Hslot) as (Hl & _ & _). pose proof (span_pos l).
  unfold base. rewrite (level_size_span _ _ Hps).
  pose proof (align_down_aligned a (span l) ltac:(lia)) as Hal.
  pose proof (Z.mod_pos_bound a (span l) ltac:(lia)).
  pose proof (Z.mod_le a (span l) ltac:(lia) ltac:(lia)).
  destruct (align_down_valid l a) as [Hb Hvb]; [done..|].
  split_and!; try done; [lia|lia|]. eapply slot_same; [done|]. symmetry.
  apply page_div; [done|lia].
Qed.

(** A slot of a leaf's size holds at most the leaf of its page. *)
Lemma in_slot_leaf pre ps b lf :
  own !! q = Some (l, pre) → 0 ≤ a < 2 ^ 64 → md_vaddr_is_valid a = true →
  level_size l = Some ps → in_slot pre i l (raw b) →
  md_vaddr_is_valid b = true → 0 ≤ b < 2 ^ 64 → b mod page_bytes (lf_size lf) = 0 →
  lf_size lf = ps → b = a - a mod page_bytes ps.
Proof.
  intros Hq Ha Hv Hps Hin Hvb Hb Hal Hsz.
  destruct (slot_page ps Ha Hv Hps) as (Hbase & Hvbase & Halbase & Hsbase).
  rewrite Hsz in Hal. rewrite (level_size_span _ _ Hps) in *.
  assert (in_slot pre i l (raw (a - a mod span l))) as Hin'.
  { by destruct (slot_in_slot Hown Hq Hsbase). }
  by apply (in_slot_base Hown Hq Hslot b (a - a mod span l)).
Qed.

(** The leaves after the slot's entry has become [e']. *)
Lemma write_leaves e' ps (olf : option leaf) :
  0 ≤ a < 2 ^ 64 → md_vaddr_is_valid a = true → level_size l = Some ps →
  (is_huge ps = true → pte_is_huge e' = true ∨ is_unused e' = true) →
  (∀ lf, olf = Some lf ↔ lf_size lf = ps ∧
     pte_leaf e' (lf_paddr lf) (lf_flags lf) (is_huge ps)) →
  leaves_of (pt_write q i e' t) (partial_alter (λ _, olf) (a - a mod page_bytes ps) L).
Proof.
  intros Ha Hv Hps Hstop Holf b lf.
  destruct (root_slot Hown _ _ _ _ Hslot) as (Hl & Hidx & pre & Hq & _).
  assert (0 ≤ i < 512) as Hi by (rewrite Hidx; apply idx_range).
  destruct (slot_page ps Ha Hv Hps) as (Hbase & Hvbase & Halbase & Hsbase).
  set (base := a - a mod page_bytes ps) in *.
  set (s' := store_write (pt_store t) q i e').
  assert (∀ x j, is_Some (own !! x) → (x, j) ≠ (q, i) → s' x j = pt_store t x j) as Hagree
    by (intros x j _ Hne; by apply store_write_ne).
  assert (in_slot pre i l (raw base)) as Hinbase by by destruct (slot_in_slot Hown Hq Hsbase).
  cbn [pt_write pt_store root_paddr]. fold s'.
  destruct (decide (in_slot pre i l (raw b))) as [Hin|Hout].
  - assert (translates s' (root_paddr t) b lf ↔ olf = Some lf) as ->.
    { unfold translates. rewrite (slot_here_root Hown Hq Hi Hagree Hslot b Hin).
      assert (slot s' l q b = (q, i, l)) as ->; [|].
      { destruct (in_slot_idx Hown Hq Hi (raw b) Hin) as [_ Hib]. rewrite idx_raw in Hib by done.
        destruct l as [|l']; cbn; rewrite Hib; [done|].
        unfold s'. rewrite store_write_eq. apply level_size_huge in Hps.
        destruct Hstop as [Hs|Hs]; [done|by rewrite Hs, orb_true_r|by rewrite Hs]. }
      unfold s'. rewrite store_write_eq, Hps, Holf.
      split; [intros [[= ->] ?]; done|intros [<- ?]; done]. }
    destruct (decide (b = base)) as [->|Hne].
    + rewrite lookup_partial_alter_eq. split; [|by intros (_ & _ & _ & Ho)].
      intros Ho. pose proof Ho as [Hsz _]%Holf. split_and!; try done; try lia. by rewrite Hsz.
    + rewrite lookup_partial_alter_ne by done. split.
      * intros Hb. exfalso. apply Hne. apply HL in Hb as (Hvb & Hrb & Hal & Htr).
        unfold translates in Htr. rewrite (in_slot_same Hown Hq Hslot b Hin), Hps in Htr.
        destruct Htr as [[= Hsz] _]. by apply (in_slot_leaf pre ps b lf).
      * intros (Hvb & Hrb & Hal & Ho). exfalso. apply Hne. pose proof Ho as [Hsz _]%Holf.
        by apply (in_slot_leaf pre ps b lf).
  - rewrite (translates_other Hown Hq Hagree b lf Hout).
    rewrite lookup_partial_alter_ne by (intros <-; done). apply HL.
Qed.

Lemma write_leaf e' p f ps :
  0 ≤ a < 2 ^ 64 → md_vaddr_is_valid a = true →
  level_size l = Some ps → pte_leaf e' p f (is_huge ps) → leaf_flags f →
  pte_readback f = f → p mod page_bytes ps = 0 → 0 ≤ p < 2 ^ pte_pa_bits →
  rep (pt_write q i e' t) (<[a - a mod page_bytes ps := Leaf p f ps]> L) (owned_pages own).
Proof.
  intros Ha Hv Hps Hleaf Hf Hr Hal Hp. exists own. split_and!; [|done|].
  - apply write_own. intros base. by eapply ELeaf.
  - apply (write_leaves e' ps (Some (Leaf p f ps))); try done.
    + destruct Hleaf as (_ & _ & _ & _ & Hh). auto.
    + intros [p' f' ps']. cbn. split; [by intros [= <- <- <-]|].
      intros [-> Hleaf']. by destruct (pte_leaf_fun _ _ _ _ _ _ _ Hleaf Hleaf') as [-> ->].
Qed.
Lemma write_clear ps :
  0 ≤ a < 2 ^ 64 → md_vaddr_is_valid a = true → level_size l = Some ps →
  rep (pt_write q i 0 t) (delete (a - a mod page_bytes ps) L) (owned_pages own).
Proof.
  intros Ha Hv Hps. exists own. split_and!; [|done|].
  - apply write_own. intros base. by apply EZero.
  - apply (write_leaves 0 ps None); try done.
    + intros _. right. apply is_unused_0.
    + intros lf. split; [done|]. intros (_ & _ & _ & Hu & _). by rewrite is_unused_0 in Hu.
Qed.
End write.

(** The invariant only depends on the contents of the store. *)
Lemma slot_ext s s' l q a : (∀ x j, s' x j = s x j) → slot s' l q a = slot s l q a.
Proof.
  intros Hs. revert q. induction l as [|l IH]; intros q; cbn; rewrite ?Hs; [done|].
  by case_match.
Qed.
Lemma rep_rewrite t L T q i e :
  rep t L T → pt_store t q i = e → rep (pt_write q i e t) L T.
Proof.
  intros (own & Hown & -> & HL) He.
  assert (∀ x j, pt_store (pt_write q i e t) x j = pt_store t x j) as Hs.
  { intros x j. cbn. destruct (decide ((x, j) = (q, i))) as [[= -> ->]|Hne].
    - by rewrite store_write_eq.
    - by apply store_write_ne. }
  exists own. split_and!; [|done|].
  - split; [apply Hown|apply Hown|apply Hown| |].
    + intros x l pre j Hx Hj. rewrite Hs. by apply Hown.
    + intros x l pre Hx Hne. destruct (ow_parent _ _ _ Hown _ _ _ Hx Hne)
        as (x' & pre' & j & ?). exists x', pre', j. by rewrite Hs.
  - intros b lf. rewrite HL. unfold translates. rewrite (slot_ext _ _ _ _ _ Hs).
    cbn [root_paddr pt_write]. destruct (slot _ _ _ b) as [[q' i'] l']. by rewrite Hs.
Qed.

(** ** The operations on existing mappings *)

Section ops.
Context {t : page_table64} {L : gmap Z leaf} {T : gset Z} {a : Z}.
Hypothesis (Hrep : rep t L T) (Ha : 0 ≤ a < 2 ^ 64) (Hv : md_vaddr_is_valid a = true).

(** The two cases of an address: it ends at an unused entry, or at a leaf. *)
Lemma address_cases (P : outcome PagingError (Z * Z * PageSize) → Prop) :
  (leaf_find L a = None →
     P (Err Paging.NotMapped) ∧ ∀ q i ps, pt_store t q i = 0 → P (Ok (q, i, ps))) →
  (∀ q i b lf, leaf_find L a = Some (b, lf) →
     pte_leaf (pt_store t q i) (lf_paddr lf) (lf_flags lf) (is_huge (lf_size lf)) →
     (∀ e' p f, pte_leaf e' p f (is_huge (lf_size lf)) → leaf_flags f → pte_readback f = f →
        p mod page_bytes (lf_size lf) = 0 → 0 ≤ p < 2 ^ pte_pa_bits →
        rep (pt_write q i e' t) (<[b := Leaf p f (lf_size lf)]> L) T) →
     rep (pt_write q i 0 t) (delete b L) T →
     P (Ok (q, i, lf_size lf))) →
  P (get_entry t a).
Proof.
  intros Hnone Hsome. destruct Hrep as (own & Hown & -> & HL).
  destruct (slot (pt_store t) top (root_paddr t) a) as [[q i] l] eqn:Hs.
  destruct (root_slot Hown _ _ _ _ Hs) as (_ & _ & pre & _ & _ & Hcase).
  destruct Hcase as [H0|(ps & p & f & Hps & Hleaf & Hf & Hr & Hal & Hp)].
  - destruct (Hnone (find_zero Hown HL _ _ _ _ Hs H0)) as [HP1 HP2].
    destruct (get_entry_spec Hown _ _ _ _ Hs) as [(ps & _ & ->)|[_ ->]]; auto.
  - destruct (get_entry_spec Hown _ _ _ _ Hs) as [(ps' & Hps' & ->)|[H0 _]].
    + rewrite Hps in Hps'. injection Hps' as <-.
      apply (Hsome q i (a - a mod page_bytes ps) (Leaf p f ps)).
      * by eapply find_leaf.
      * done.
      * intros. by eapply write_leaf.
      * by eapply write_clear.
    + destruct Hleaf as (_ & _ & Hu & _). by rewrite H0, is_unused_0 in Hu.
Qed.

Lemma found_leaf b lf :
  leaf_find L a = Some (b, lf) →
  leaf_flags (lf_flags lf) ∧ lf_paddr lf mod page_bytes (lf_size lf) = 0 ∧
  0 ≤ lf_paddr lf < 2 ^ pte_pa_bits.
Proof.
  intros [Hb _]%leaf_find_covers. destruct Hrep as (own & Hown & _ & HL).
  pose proof (leaves_of_wf Hown HL) as Hwf.
  destruct (lw_paddr _ _ _ Hwf _ _ Hb), (lw_flags _ _ _ Hwf _ _ Hb). done.
Qed.

Lemma protect_spec f :
  leaf_flags f →
  wp (protect a f) t (λ r t',
    match leaf_find L a with
    | Some (b, lf) => r = Ok (lf_size lf) ∧
        rep t' (<[b := Leaf (lf_paddr lf) (pte_readback f) (lf_size lf)]> L) T
    | None => r = Err Paging.NotMapped ∧ rep t' L T
    end).
Proof.
  intros Hf. unfold protect. wp_step. wp_step. wp_step. wp_step. cbn.
  apply address_cases.
  - intros ->. split; [done|]. intros q i ps H0. rewrite H0, zero_absent. cbn. by wp_steps.
  - intros q i b lf Hfind Hleaf Hwrite _. rewrite Hfind.
    destruct (found_leaf b lf Hfind) as (_ & Hal & Hp).
    destruct (set_flags_leaf _ _ _ f _ Hleaf Hf) as (e' & He' & Hleaf').
    destruct Hleaf as (_ & _ & _ & Hpr & _). rewrite Hpr. cbn [negb].
    wp_step. wp_step. rewrite He'. cbn. wp_steps. split; [done|].
    destruct (pte_readback_ok f Hf). by apply Hwrite.
Qed.
Lemma unmap_spec :
  wp (unmap a) t (λ r t',
    match leaf_find L a with
    | Some (b, lf) => r = Ok (lf_paddr lf, lf_size lf) ∧ rep t' (delete b L) T
    | None => r = Err Paging.NotMapped ∧ rep t' L T
    end).
Proof.
  unfold unmap. wp_step. wp_step. wp_step. wp_step. cbn. apply address_cases.
  - intros Hnone. rewrite Hnone. split; [done|]. intros q i ps H0. rewrite H0, zero_absent. cbn.
    wp_steps. split; [done|]. by apply rep_rewrite.
  - intros q i b lf Hfind Hleaf _ Hclear. rewrite Hfind.
    destruct Hleaf as (Hp & _ & _ & Hpr & _). rewrite Hpr. cbn. wp_steps. by rewrite Hp.
Qed.
Lemma remap_spec b lf p f :
  leaf_find L a = Some (b, lf) → p mod page_bytes (lf_size lf) = 0 → 0 ≤ p < 2 ^ pte_pa_bits →
  leaf_flags f →
  wp (remap a p f) t (λ r t', r = Ok (lf_size lf) ∧
    rep t' (<[b := Leaf p (pte_readback f) (lf_size lf)]> L) T).
Proof.
  intros Hfind Hal Hp Hf. unfold remap. wp_step. wp_step. wp_step. wp_step. cbn.
  apply address_cases; [by rewrite Hfind|].
  intros q i b' lf' Hfind' Hleaf Hwrite _. rewrite Hfind in Hfind'. injection Hfind' as <- <-.
  destruct (found_leaf b lf Hfind) as (Hf' & _ & _).
  pose proof (set_paddr_leaf _ _ p _ _ Hleaf Hf' (aligned_4k _ _ Hal) Hp) as Hleaf'.
  destruct (set_flags_leaf _ _ _ f _ Hleaf' Hf) as (e' & He' & Hleaf'').
  wp_step. wp_step. rewrite He'. cbn. wp_steps. split; [done|].
  destruct (pte_readback_ok f Hf). by apply Hwrite.
Qed.
End ops.

(** ** Adding a table below an unused entry *)

Lemma entry_wf_mono own own' l base e : own ⊆ own' → entry_wf own l base e → entry_wf own' l base e.
Proof.
  intros Hsub [He|l' q Hl Ht Hq|ps p f ? ? ? ? ? ?]; [by apply EZero| |by eapply ELeaf].
  eapply ETable; [done..|]. by eapply lookup_weaken.
Qed.

Section new_table.
Context {t : page_table64} {own : owner} {L : gmap Z leaf} {a q i pre q' : Z} {l : nat}.
Hypothesis (Hown : own_wf (pt_store t) (root_paddr t) own) (HL : leaves_of t L).
Hypothesis (Hslot : slot (pt_store t) top (root_paddr t) a = (q, i, S l)).
Hypothesis (Hzero : pt_store t q i = 0) (Hq : own !! q = Some (S l, pre)).
Hypothesis (Hfresh : own !! q' = None) (Hal : q' mod 4096 = 0) (Hq' : 0 < q' < 2 ^ pte_pa_bits).

Let base : Z := pre + i * span (S l).
Let own' : owner := <[q' := (l, base)]> own.
Let t' : page_table64 :=
  PT64 (root_paddr t) (store_write (fupd (pt_store t) q' (λ _, 0)) q i (new_table q')).

Lemma new_table_facts : (S l ≤ top)%nat ∧ i = idx (S l) a ∧ 0 ≤ i < 512 ∧ q ≠ q' ∧
  pre ≤ raw a < pre + span (S (S l)).
Proof.
  destruct (root_slot Hown _ _ _ _ Hslot) as (Hl & Hidx & pre' & Hq0 & Hr & _).
  rewrite Hq in Hq0. injection Hq0 as <-. split; [done|]. split; [done|].
  split; [rewrite Hidx; apply idx_range|]. split; [congruence|done].
Qed.
Lemma new_table_store x j :
  pt_store t' x j =
    if decide ((x, j) = (q, i)) then new_table q'
    else if decide (x = q') then 0 else pt_store t x j.
Proof.
  cbn. case_decide as Hd; [simplify_eq; apply store_write_eq|].
  rewrite store_write_ne by done. rewrite fupd_case. by case_decide.
Qed.
Lemma new_table_base : base mod span (S l) = 0 ∧ 0 ≤ base ∧ base + span (S l) ≤ 2 ^ VA_MAX_BITS.
Proof.
  destruct new_table_facts as (_ & _ & Hi & _).
  destruct (ow_table _ _ _ Hown _ _ _ Hq) as (_ & Hpre & Hp0 & Hp1 & _).
  unfold base. pose proof (span_pos (S l)). rewrite (span_S (S l)) in *. split_and!; [|nia..].
  rewrite Z.add_comm, mod_add_aligned; [|done|apply Z.mod_mul; lia].
  rewrite <- span_S in Hpre. by apply (span_aligned _ (S l) (S (S l))); [lia|].
Qed.

(** No owned table has the new table's place. *)
Lemma new_table_place x : own !! x = Some (l, base) → False.
Proof.
  intros Hx. destruct new_table_facts as (Hl & _ & Hi & _).
  destruct (decide (x = root_paddr t)) as [->|Hne].
  { rewrite (ow_root _ _ _ Hown) in Hx. injection Hx as Htop _. lia. }
  destruct (ow_parent _ _ _ Hown _ _ _ Hx Hne) as (y & pre' & j & Hy & Hj & Hbase & Ht).
  destruct (ow_table _ _ _ Hown _ _ _ Hy) as (_ & Hpre' & _).
  destruct (ow_table _ _ _ Hown _ _ _ Hq) as (_ & Hpre & _).
  assert (pre' = pre ∧ j = i) as [-> ->].
  { unfold base in Hbase. pose proof (span_pos (S l)). rewrite (span_S (S l)) in *.
    apply Z.mod_divide in Hpre as [c ->]; [|lia]. apply Z.mod_divide in Hpre' as [c' ->]; [|lia].
    assert (512 * c + i = 512 * c' + j) by nia. assert (c = c') by lia. lia. }
  assert (y = q) as -> by by eapply (ow_inj _ _ _ Hown).
  destruct Ht as (_ & _ & Hu & _). by rewrite Hzero, is_unused_0 in Hu.
Qed.
Lemma new_table_own : own_wf (pt_store t') (root_paddr t') own'.
Proof.
  destruct new_table_facts as (Hl & Hidx & Hi & Hne & Hr). unfold own'. split.
  - cbn. rewrite lookup_insert_ne; [apply Hown|]. intros ->.
    by rewrite (ow_root _ _ _ Hown) in Hfresh.
  - intros x y k Hx Hy. rewrite lookup_insert_Some in Hx. rewrite lookup_insert_Some in Hy.
    destruct Hx as [[<- <-]|[? Hx]], Hy as [[<- Hk]|[? Hy]]; try done.
    + by apply new_table_place in Hy.
    + subst k. by apply new_table_place in Hx.
    + by eapply (ow_inj _ _ _ Hown).
  - intros x lx prex Hx. rewrite lookup_insert_Some in Hx.
    destruct Hx as [[<- [= <- <-]]|[? Hx]]; [|by apply Hown].
    destruct new_table_base as (? & ? & ?). split_and!; try done; lia.
  - intros x lx prex j Hx Hj. rewrite new_table_store. rewrite lookup_insert_Some in Hx.
    destruct Hx as [[<- [= <- <-]]|[Hx' Hx]].
    { rewrite decide_False by congruence. rewrite decide_True by done. by apply EZero. }
    case_decide as Hd.
    + injection Hd as -> ->. rewrite Hq in Hx. injection Hx as <- <-.
      eapply (ETable _ _ _ _ l q'); [done|by apply new_table_table|]. by rewrite lookup_insert_eq.
    + rewrite decide_False by done. eapply entry_wf_mono; [by apply insert_subseteq|].
      by apply (ow_entry _ _ _ Hown).
  - intros x lx prex Hx Hroot. rewrite lookup_insert_Some in Hx.
    destruct Hx as [[<- [= <- <-]]|[Hx' Hx]].
    + exists q, pre, i. rewrite lookup_insert_ne by done. split_and!; try done; [lia|lia|].
      rewrite new_table_store, decide_True by done. by apply new_table_table.
    + destruct (ow_parent _ _ _ Hown _ _ _ Hx Hroot) as (y & pre' & j & Hy & Hj & Hp & Ht).
      assert (y ≠ q') by congruence.
      exists y, pre', j. rewrite lookup_insert_ne by done. split_and!; try done; [lia|lia|].
      rewrite new_table_store. rewrite !decide_False; [done|done|].
      intros [= -> ->]. destruct Ht as (_ & _ & Hu & _). by rewrite Hzero, is_unused_0 in Hu.
Qed.

Lemma new_table_agree x j :
  is_Some (own !! x) → (x, j) ≠ (q, i) → pt_store t' x j = pt_store t x j.
Proof.
  intros [k Hx] Hne. rewrite new_table_store, decide_False by done.
  rewrite decide_False; [done|]. congruence.
Qed.
Lemma new_table_slot b :
  in_slot pre i (S l) (raw b) →
  slot (pt_store t') top (root_paddr t) b = (q', idx l b, l) ∧ pt_store t' q' (idx l b) = 0.
Proof.
  intros Hb. destruct new_table_facts as (Hl & Hidx & Hi & Hne & Hr).
  destruct (in_slot_idx Hown Hq Hi (raw b) Hb) as [_ Hib]. rewrite idx_raw in Hib by done.
  assert (∀ j, pt_store t' q' j = 0) as H0.
  { intros j. rewrite new_table_store, decide_False by congruence. by rewrite decide_True. }
  split; [|apply H0].
  rewrite (slot_here_root Hown Hq Hi new_table_agree Hslot b Hb).
  cbn [slot]. rewrite Hib, new_table_store, decide_True by done.
  destruct (new_table_table q' Hal Hq') as (Hp & _ & Hu & _ & Hh). rewrite Hu, Hh, Hp. cbn [orb].
  destruct l as [|l']; cbn [slot]; [done|]. by rewrite H0, is_unused_0.
Qed.
Lemma new_table_leaves : leaves_of t' L.
Proof.
  destruct new_table_facts as (Hl & Hidx & Hi & Hne & Hr). intros b lf. rewrite (HL b lf).
  destruct (decide (in_slot pre i (S l) (raw b))) as [Hin|Hout].
  - unfold translates. destruct (new_table_slot b Hin) as [Hs H0].
    cbn [root_paddr t']. rewrite Hs, H0.
    rewrite (in_slot_same Hown Hq Hslot b Hin), Hzero.
    split; intros (_ & _ & _ & _ & _ & _ & Hu & _); by rewrite is_unused_0 in Hu.
  - change (root_paddr t') with (root_paddr t).
    by rewrite (translates_other Hown Hq new_table_agree b lf Hout).
Qed.
End new_table.

(** ** [map] *)

Context {PP : PhysPages pte_pa_bits}.

(** The table [q] is on the path of [va]. *)
Definition on_path (t : page_table64) (own : owner) (va q : Z) (l : nat) : Prop :=
  ∃ pre, own !! q = Some (l, pre) ∧ pre ≤ raw va < pre + span (S l) ∧
    slot (pt_store t) top (root_paddr t) va = slot (pt_store t) l q va.
(** Owned pages and allocator usage grow by the same fresh pages. *)
Definition grows (T T' U U' : gset Z) : Prop := ∃ N, N ## U ∧ U' = N ∪ U ∧ T' = N ∪ T.
Lemma grows_refl T U : grows T T U U.
Proof. exists ∅. set_solver. Qed.
Lemma grows_trans T T' T'' U U' U'' :
  grows T T' U U' → grows T' T'' U' U'' → grows T T'' U U''.
Proof. intros (N & ? & -> & ->) (N' & ? & -> & ->). exists (N' ∪ N). set_solver. Qed.
Lemma grows_sub T T' U U' : grows T T' U U' → T ⊆ U → T' ⊆ U'.
Proof. intros (N & ? & -> & ->). set_solver. Qed.

Lemma phys_virt_inj p p' :
  0 ≤ p < 2 ^ 64 → 0 ≤ p' < 2 ^ 64 → phys_to_virt p = phys_to_virt p' → p = p'.
Proof.
  unfold phys_to_virt, wrap64. intros Hp Hp' Heq.
  rewrite <- (Z.mod_small p (2 ^ 64)), <- (Z.mod_small p' (2 ^ 64)) by done.
  replace p with (p + PHYS_VIRT_OFFSET - PHYS_VIRT_OFFSET) by lia.
  replace p' with (p' + PHYS_VIRT_OFFSET - PHYS_VIRT_OFFSET) by lia.
  by rewrite Zminus_mod, Heq, <- Zminus_mod.
Qed.

Definition table_inv (own : owner) (t : page_table64) (a : pa_state) (L : gmap Z leaf) : Prop :=
  own_wf (pt_store t) (root_paddr t) own ∧ leaves_of t L ∧ owned_pages own ⊆ pa_used a.

(** A fresh table for the unused end of the path. *)
Lemma create_fresh t a own L va q l pre v a' :
  table_inv own t a L → 0 ≤ va < 2 ^ 64 → md_vaddr_is_valid va = true →
  own !! q = Some (S l, pre) → pre ≤ raw va < pre + span (S (S l)) →
  slot (pt_store t) top (root_paddr t) va = (q, idx (S l) va, S l) →
  pt_store t q (idx (S l) va) = 0 → alloc_page a = Some (v, a') →
  let p := virt_to_phys v in
  let t' := PT64 (root_paddr t)
    (store_write (fupd (pt_store t) p (λ _, 0)) q (idx (S l) va) (new_table p)) in
  ∃ own', table_inv own' t' a' L ∧
    grows (owned_pages own) (owned_pages own') (pa_used a) (pa_used a') ∧ on_path t' own' va p l.
Proof.
  intros (Hown & HL & HT) Hva Hv Hq Hr Hslot H0 Halloc p t'.
  destruct (alloc_page_phys _ _ _ Halloc) as [Hal Hp].
  destruct (alloc_page_fresh _ _ _ Halloc) as (Hnew & Hused & Hv64).
  assert (phys_to_virt p = v) as Hpv by by apply phys_to_virt_to_phys.
  assert (own !! p = None) as Hfresh.
  { destruct (own !! p) as [k|] eqn:Hk; [|done]. exfalso. apply Hnew, HT.
    unfold owned_pages. apply elem_of_map. exists p. split; [done|].
    by apply elem_of_dom_2 in Hk. }
  pose proof (new_table_own Hown Hslot H0 Hq Hfresh Hal Hp) as Hown'.
  pose proof (new_table_leaves Hown HL Hslot H0 Hq Hfresh Hal Hp) as HL'.
  set (base := pre + idx (S l) va * span (S l)) in *.
  assert (owned_pages (<[p := (l, base)]> own) = {[v]} ∪ owned_pages own) as Hpages.
  { unfold owned_pages. rewrite dom_insert_L, set_map_union_L, set_map_singleton_L.
    by rewrite Hpv. }
  destruct (ow_table _ _ _ Hown _ _ _ Hq) as (Hl & Hpre & _).
  pose proof (idx_region _ _ _ Hpre Hr) as Hreg. rewrite idx_raw in Hreg by done.
  exists (<[p := (l, base)]> own). split; [|split].
  - split; [done|]. split; [done|]. rewrite Hpages, Hused. set_solver.
  - exists {[v]}. set_solver.
  - exists base. rewrite lookup_insert_eq. split; [done|]. split; [done|].
    destruct (new_table_slot Hown Hslot Hq Hfresh Hal Hp va Hreg) as [Hs' H0'].
    etrans; [exact Hs'|]. clearbody base. destruct l as [|l']; [done|]. cbn [slot].
    replace (pt_store t' p (idx (S l') va)) with 0 by done. by rewrite is_unused_0.
Qed.

Lemma create_step t a own L va q l :
  table_inv own t a L → 0 ≤ va < 2 ^ 64 → md_vaddr_is_valid va = true →
  on_path t own va q (S l) →
  wp (next_table_mut_or_create q (idx (S l) va)) (t, a) (λ r ta, ∃ own',
    table_inv own' ta.1 ta.2 L ∧
    grows (owned_pages own) (owned_pages own') (pa_used a) (pa_used ta.2) ∧
    match r with
    | Ok q' => on_path ta.1 own' va q' l
    | Err e => e = Paging.NoMemory ∨ leaf_find L va ≠ None
    | Panic => False
    end).
Proof.
  intros (Hown & HL & HT) Hva Hv (pre & Hq & Hr & Hslot). unfold next_table_mut_or_create.
  wp_step. wp_step. cbn [fst]. set (e := pt_store t q (idx (S l) va)).
  destruct (step_down Hown l q pre va Hq) as [[H0 _]|[(q' & Hh & Hu & Hn & Hp & Hq')|(Hh & Hu & _ & ps & Hps)]];
    fold e in H0 || fold e in Hh, Hu.
  - rewrite H0, is_unused_0. cbn [slot] in Hslot. fold e in Hslot.
    rewrite H0, is_unused_0 in Hslot. unfold on_store. wp_step. wp_step. cbn [fst snd].
    unfold wp at 1, alloc_table, alloc_frame. cbn [fst snd].
    destruct (alloc_page a) as [[v a']|] eqn:Halloc; cbn.
    + wp_steps. by apply (create_fresh t a own L va q l pre v a').
    + exists own. split; [by destruct t|]. split; [apply grows_refl|by left].
  - fold e in Hn, Hp. rewrite Hu. wp_step. rewrite Hn. exists own.
    split; [done|]. split; [apply grows_refl|]. exists (pre + idx (S l) va * span (S l)).
    split; [done|]. destruct (ow_table _ _ _ Hown _ _ _ Hq) as (Hl & Hpre & _). split.
    + pose proof (idx_region _ _ _ Hpre Hr) as Hreg. by rewrite idx_raw in Hreg.
    + cbn [fst]. rewrite Hslot. cbn [slot]. fold e. by rewrite Hh, Hu, Hp.
  - rewrite Hu. wp_step. exists own. split; [done|]. split; [apply grows_refl|].
    cbn [slot] in Hslot. fold e in Hslot. rewrite Hh, orb_true_r in Hslot.
    assert (leaf_find L va ≠ None).
    { destruct (root_slot Hown _ _ _ _ Hslot) as (_ & _ & _ & _ & _ & [H0|(ps' & p & f & Hps' & Hleaf & _)]).
      - fold e in H0. by rewrite H0, is_unused_0 in Hu.
      - by rewrite (find_leaf Hown HL _ _ _ _ _ _ _ Hva Hv Hslot Hps' Hleaf). }
    unfold next_table. rewrite Hh. destruct (pte_paddr e =? 0); by right.
Qed.
Lemma get_entry_create_spec t a own L va ps l :
  table_inv own t a L → 0 ≤ va < 2 ^ 64 → md_vaddr_is_valid va = true →
  level_size l = Some ps →
  wp (get_entry_mut_or_create va ps) (t, a) (λ r ta, ∃ own',
    table_inv own' ta.1 ta.2 L ∧
    grows (owned_pages own) (owned_pages own') (pa_used a) (pa_used ta.2) ∧
    match r with
    | Ok (q, i) => i = idx l va ∧ on_path ta.1 own' va q l
    | Err e => e = Paging.NoMemory ∨ leaf_find L va ≠ None
    | Panic => False
    end).
Proof.
  intros Hinv Hva Hv Hl. unfold get_entry_mut_or_create.
  rewrite p1_index_idx, p2_index_idx, p3_index_idx, p4_index_idx. wp_step. wp_step. cbn [fst].
  assert (on_path t own va (root_paddr t) top) as Hroot.
  { destruct Hinv as (Hown & _). exists 0. split; [apply Hown|]. split; [|done].
    apply own_root_range. }
  wp_step.
  assert (wp (if LEVELS =? 3 then mret (root_paddr t)
              else if LEVELS =? 4 then next_table_mut_or_create (root_paddr t) (idx 3 va)
              else panic) (t, a) (λ r ta, ∃ own',
    table_inv own' ta.1 ta.2 L ∧
    grows (owned_pages own) (owned_pages own') (pa_used a) (pa_used ta.2) ∧
    match r with
    | Ok q => on_path ta.1 own' va q 2
    | Err e => e = Paging.NoMemory ∨ leaf_find L va ≠ None
    | Panic => False
    end)) as Hp3.
  { destruct top_cases as [[Ht ->]|[Ht ->]]; rewrite Ht in Hroot; cbn [Z.eqb Pos.eqb].
    - wp_step. exists own. split; [done|]. split; [apply grows_refl|done].
    - by apply create_step. }
  eapply wp_mono; [exact Hp3|]. clear Hp3 Hinv Hroot.
  intros [p3|e|] [t1 a1] (own1 & Hinv1 & Hg1 & Hp3); [|by eauto..].
  cbn [fst snd] in *.
  case_bool_decide as H1G; [subst ps; wp_step; destruct l as [|[|[|l]]]; try done; by eauto|].
  wp_step. eapply wp_mono; [by apply (create_step t1 a1 own1 L va p3 1)|]. clear Hp3 Hinv1.
  intros [p2|e|] [t2 a2] (own2 & Hinv2 & Hg2 & Hp2); cbn [fst snd] in *;
    [|exists own2; split; [done|]; split; [by eapply grows_trans|done]..].
  pose proof (grows_trans _ _ _ _ _ _ Hg1 Hg2) as Hg. clear Hg1 Hg2.
  case_bool_decide as H2M; [subst ps; wp_step; destruct l as [|[|[|l]]]; try done; by eauto|].
  wp_step. eapply wp_mono; [by apply (create_step t2 a2 own2 L va p2 0)|]. clear Hp2 Hinv2.
  intros [p1|e|] [t3 a3] (own3 & Hinv3 & Hg3 & Hp1); cbn [fst snd] in *;
    [|exists own3; split; [done|]; split; [by eapply grows_trans|done]..].
  wp_step. destruct l as [|[|[|l]]]; try done; try by injection Hl as <-.
  exists own3. split; [done|]. split; [by eapply grows_trans|done].
Qed.
(** An unused slot of a page's size: nothing overlaps the page. *)
Lemma unused_no_overlap t own L va q i l ps b lf :
  own_wf (pt_store t) (root_paddr t) own → leaves_of t L → level_size l = Some ps →
  0 ≤ va < 2 ^ 64 → md_vaddr_is_valid va = true → va mod page_bytes ps = 0 →
  slot (pt_store t) top (root_paddr t) va = (q, i, l) → pt_store t q i = 0 →
  L !! b = Some lf → ¬ leaf_meets va (va + page_bytes ps) b lf.
Proof.
  intros Hown HL Hps Hva Hv Hal Hs H0 Hb [Hlo Hhi].
  assert (∃ x, covers L x b lf ∧ slot (pt_store t) top (root_paddr t) x = (q, i, l))
    as (x & Hc & Hx).
  { pose proof (page_bytes_pos (lf_size lf)).
    exists (Z.max va b). split; [split; [done|lia]|].
    rewrite (level_size_span _ _ Hps) in *. pose proof (span_pos l).
    eapply slot_same; [done|]. apply page_div; [done|lia]. }
  destruct (covers_slot Hown HL _ _ _ Hc) as (_ & _ & q' & i' & l' & Hs' & _ & _ & Hleaf).
  rewrite Hx in Hs'. injection Hs' as <- <- <-.
  destruct Hleaf as (_ & _ & Hu & _). by rewrite H0, is_unused_0 in Hu.
Qed.

Lemma map_page_spec t L T a va pa ps f :
  rep t L T → T ⊆ pa_used a → 0 ≤ va < 2 ^ 64 → md_vaddr_is_valid va = true →
  va mod page_bytes ps = 0 → pa mod page_bytes ps = 0 → 0 ≤ pa < 2 ^ pte_pa_bits →
  leaf_flags f →
  wp (map_page va pa ps f) (t, a) (λ r ta, ∃ N, N ## pa_used a ∧
    pa_used ta.2 = N ∪ pa_used a ∧
    match r with
    | Ok _ => rep ta.1 (<[va := Leaf pa (pte_readback f) ps]> L) (N ∪ T) ∧
        (∀ b lf, L !! b = Some lf → ¬ leaf_meets va (va + page_bytes ps) b lf)
    | Err e => rep ta.1 L (N ∪ T) ∧
        (ps = Size4K → leaf_find L va = None → e = Paging.NoMemory)
    | Panic => False
    end).
Proof.
  intros (own & Hown & -> & HL) HT Hva Hv Hal Hpal Hpa Hf. unfold map_page.
  assert (∃ l, level_size l = Some ps) as [l Hl]
    by (destruct ps; [by exists 0%nat|by exists 1%nat|by exists 2%nat]).
  wp_step. eapply wp_mono; [by apply (get_entry_create_spec t a own L va ps l)|].
  intros [[q i]|e|] [t1 a1] (own1 & (Hown1 & HL1 & _) & (N & HN & Hused & Hpages) & Hr);
    cbn [fst snd] in *; [| |done].
  2: { exists N. split_and!; try done.
       - rewrite <- Hpages. by exists own1.
       - intros _ Hnone. destruct Hr as [|Hr]; [done|]. by rewrite Hnone in Hr. }
  destruct Hr as (-> & pre & Hq & _ & Hslot). wp_step. wp_step. cbn [fst].
  set (e := pt_store t1 q (idx l va)).
  destruct (is_unused e) eqn:Hu; cbn [negb].
  - apply unused_zero in Hu.
    assert (slot (pt_store t1) top (root_paddr t1) va = (q, idx l va, l)) as Hs.
    { rewrite Hslot. destruct l; cbn [slot]; [done|]. fold e. by rewrite Hu, is_unused_0. }
    destruct (new_page_leaf pa f (is_huge ps) (aligned_4k _ _ Hpal) Hpa Hf) as (e' & He' & Hleaf).
    rewrite align_down_spec, Hpal, Z.sub_0_r by lia. rewrite He'. cbn [expect]. wp_steps.
    exists N. split_and!; try done; cbn [fst].
    + rewrite <- Hpages. replace va with (va - va mod page_bytes ps) at 2 by lia.
      destruct (pte_readback_ok f Hf). by eapply write_leaf.
    + intros b lf Hb. by eapply unused_no_overlap.
  - wp_step. exists N. split_and!; try done.
    + rewrite <- Hpages. by exists own1.
    + intros -> Hnone. assert (l = 0%nat) as -> by (destruct l as [|[|[|l]]]; done).
      cbn [slot] in Hslot.
      destruct (root_slot Hown1 _ _ _ _ Hslot) as (_ & _ & _ & _ & _ & [H0|(ps' & p & f' & Hps' & Hleaf & _)]).
      * fold e in H0. by rewrite H0, is_unused_0 in Hu.
      * by rewrite (find_leaf Hown1 HL1 _ _ _ _ _ _ _ Hva Hv Hslot Hps' Hleaf) in Hnone.
Qed.
(** ** [walk_leaf_range] *)

Lemma canon_shift l base r :
  (l ≤ top)%nat → base mod span l = 0 → 0 ≤ base → base + span l ≤ 2 ^ VA_MAX_BITS →
  base ≤ r < base + span l → canonicalize_vaddr r = canonicalize_vaddr base + (r - base).
Proof.
  intros Hl Hal H0 H1 Hr. rewrite !canon_spec by lia.
  destruct (Z.ltb_spec r half), (Z.ltb_spec base half); try lia.
  pose proof (aligned_lt_step base half _ (span_pos l) Hal (half_aligned l Hl) ltac:(lia)). lia.
Qed.
Lemma canon_aligned l base :
  (l ≤ top)%nat → base mod span l = 0 → 0 ≤ base < 2 ^ VA_MAX_BITS →
  canonicalize_vaddr base mod span l = 0.
Proof.
  intros Hl Hal Hb. rewrite canon_spec by done. destruct (base <? half); [done|].
  rewrite mod_add_aligned by (apply span_pos || done). rewrite va_bits_span.
  apply mod_sub_aligned; [apply span_pos| |].
  - assert ((l ≤ 3)%nat) as Hl3 by (destruct top_cases as [[??]|[??]]; lia).
    by apply (span_aligned _ _ 3 Hl3).
  - apply Z.mod_divide; [pose proof (span_pos l); lia|]. apply span_divide. lia.
Qed.
Lemma canon_mono r r' :
  0 ≤ r → r < r' → r' < 2 ^ VA_MAX_BITS → canonicalize_vaddr r < canonicalize_vaddr r'.
Proof.
  intros. pose proof half_double. pose proof half_bound.
  rewrite !canon_spec by lia. split_zbool; lia.
Qed.
Lemma lor_prefix pre i l :
  pre mod span (S l) = 0 → 0 ≤ i < 512 →
  Z.lor pre (Z.shiftl i (12 + Z.of_nat l * 9)) = pre + i * span l.
Proof.
  intros Hpre Hi. rewrite (Z.mul_comm (Z.of_nat l)), Z.shiftl_mul_pow2 by lia.
  apply lor_disjoint. apply Z.bits_inj_iff. intros j. rewrite Z.land_spec, Z.bits_0.
  destruct (Z.ltb_spec j (12 + 9 * Z.of_nat (S l))) as [Hj|Hj].
  - rewrite (testbit_aligned pre (12 + 9 * Z.of_nat (S l)) j) by (done || lia). done.
  - rewrite (testbit_small (i * _) (12 + 9 * Z.of_nat (S l)) j); [apply andb_false_r| |done].
    fold (span l). fold (span (S l)). rewrite span_S. pose proof (span_pos l). nia.
Qed.

Abbreviation visit := (Z * Z * Z * PageSize)%type.
Definition visit_lt (x y : visit) : Prop := x.1.1.1 < y.1.1.1.

Section walk.
Context {t : page_table64} {own : owner} {start fin : Z}.
Hypothesis (Hown : own_wf (pt_store t) (root_paddr t) own).
Hypothesis (Hrange : 0 ≤ start < fin ∧ fin ≤ usize_max).

(** What the walk visits below a table. *)
Definition visits (l : nat) (q : Z) (x : visit) : Prop :=
  let '(b, p, f, ps) := x in
  md_vaddr_is_valid b = true ∧ 0 ≤ b < 2 ^ 64 ∧ b mod page_bytes ps = 0 ∧
  leaf_meets start fin b (Leaf p f ps) ∧
  let '(q', i', l') := slot (pt_store t) l q b in
  level_size l' = Some ps ∧ pte_leaf (pt_store t q' i') p f (is_huge ps).
Definition visited (l : nat) (q lo hi : Z) (vs : list visit) : Prop :=
  StronglySorted visit_lt vs ∧
  ∀ x, x ∈ vs ↔ visits l q x ∧ lo ≤ raw x.1.1.1 < hi.

Lemma visited_nil l q lo hi :
  (∀ x, visits l q x → lo ≤ raw x.1.1.1 < hi → False) → visited l q lo hi [].
Proof.
  intros H. split; [constructor|]. intros x. rewrite elem_of_nil. naive_solver.
Qed.
Lemma visited_app l q lo mid hi vs vs' :
  lo ≤ mid ≤ hi → visited l q lo mid vs → visited l q mid hi vs' →
  visited l q lo hi (vs ++ vs').
Proof.
  intros Hmid [Hs Hvs] [Hs' Hvs']. split.
  - apply StronglySorted_app_2; [|done..]. intros x y Hx Hy.
    apply Hvs in Hx as [Hx Hrx]. apply Hvs' in Hy as [Hy Hry].
    destruct x as [[[b p] f] ps], y as [[[b' p'] f'] ps']. cbn in *.
    destruct Hx as (Hv & Hb & _), Hy as (Hv' & Hb' & _).
    unfold visit_lt. cbn. rewrite <- (canon_raw b), <- (canon_raw b') by done.
    pose proof (raw_range b). pose proof (raw_range b'). apply canon_mono; lia.
  - intros x. rewrite elem_of_app, Hvs, Hvs'. split; [intuition lia|].
    intros [Hx Hr]. destruct (Z.ltb_spec (raw x.1.1.1) mid); [left|right]; split; (done || lia).
Qed.

(** Pages of a slot: their canonical addresses, and whether they can meet the
    range. *)
Lemma slot_pages l base b ps :
  (l ≤ top)%nat → base mod span l = 0 → 0 ≤ base → base + span l ≤ 2 ^ VA_MAX_BITS →
  0 ≤ b < 2 ^ 64 → md_vaddr_is_valid b = true → base ≤ raw b < base + span l →
  b mod page_bytes ps = 0 → page_bytes ps ≤ span l →  (page_bytes ps | span l) →
  canonicalize_vaddr base ≤ b ∧ b + page_bytes ps ≤ canonicalize_vaddr base + span l.
Proof.
  intros Hl Hal H0 H1 Hb Hv Hr Hbal Hle Hdiv.
  pose proof (canon_shift l base (raw b) Hl Hal H0 H1 Hr) as Hc. rewrite canon_raw in Hc by done.
  split; [lia|].
  assert ((canonicalize_vaddr base + span l) mod page_bytes ps = 0) as Hend.
  { apply (mod_divide_trans _ _ (span l)); [apply page_bytes_pos|done|].
    rewrite Z.add_comm, mod_add_aligned; [|apply span_pos|apply Z.mod_same; pose proof (span_pos l); lia].
    apply canon_aligned; [done|done|]. pose proof (span_pos l). lia. }
  apply aligned_lt_step; [apply page_bytes_pos|done|done|lia].
Qed.

Lemma skip_spec cs sp :
  0 ≤ cs → 0 < sp → cs + sp ≤ 2 ^ 64 →
  (saturating_add cs sp <=? start) || (fin <=? cs) = true ↔ cs + sp ≤ start ∨ fin ≤ cs.
Proof.
  intros. unfold saturating_add, usize_max in *. rewrite orb_true_iff, !Z.leb_le. lia.
Qed.

Lemma visits_skip l q base x :
  (l ≤ top)%nat → base mod span l = 0 → 0 ≤ base → base + span l ≤ 2 ^ VA_MAX_BITS →
  canonicalize_vaddr base + span l ≤ start ∨ fin ≤ canonicalize_vaddr base →
  visits l q x → base ≤ raw x.1.1.1 < base + span l → False.
Proof.
  intros Hl Hal H0 H1 Hskip Hx Hr. destruct x as [[[b p] f] ps]. cbn [fst] in Hr.
  destruct Hx as (Hv & Hb & Hbal & [Hm1 Hm2] & Hs). cbn [lf_size] in *.
  destruct (slot _ l q b) as [[q' i'] l'] eqn:Hslot. destruct Hs as [Hps _].
  apply slot_level in Hslot. pose proof (level_size_span _ _ Hps) as Hsz.
  assert (page_bytes ps ≤ span l) as Hle by (rewrite Hsz; by apply span_le).
  assert ((page_bytes ps | span l)) as Hdiv by (rewrite Hsz; by apply span_divide).
  pose proof (slot_pages l base b ps Hl Hal H0 H1 Hb Hv Hr Hbal Hle Hdiv). lia.
Qed.
Lemma visit_entry_spec l q pre i below :
  own !! q = Some (l, pre) → 0 ≤ i < 512 →
  (∀ l' q' base, l = S l' → own !! q' = Some (l', base) →
     ∃ vs, below q' base = Ok vs ∧ visited l' q' base (base + span l) vs) →
  ∃ vs, visited l q (pre + i * span l) (pre + i * span l + span l) vs ∧
    ∀ rest, visit_entry (pt_store t) l q pre start fin below i rest =
      (later ← rest; Ok (vs ++ later)).
Proof.
  intros Hq Hi Hbelow. destruct (ow_table _ _ _ Hown _ _ _ Hq) as (Hl & Hpre & Hp0 & Hp1 & _).
  pose proof (span_pos l) as Hsp. rewrite span_S in Hp1.
  set (base := pre + i * span l).
  assert (base mod span l = 0) as Hal.
  { unfold base. rewrite Z.add_comm, mod_add_aligned; [|done|apply Z.mod_mul; lia].
    by apply (span_aligned _ l (S l)); [lia|]. }
  assert (0 ≤ base ∧ base + span l ≤ 2 ^ VA_MAX_BITS) as [Hb0 Hb1] by (unfold base; nia).
  destruct (canon_valid base ltac:(lia)) as (Hcs & Hcv & Hcr).
  destruct (page_valid l (canonicalize_vaddr base + span l - 1) (canonicalize_vaddr base))
    as [Hcend _]; try done.
  { apply canon_aligned; [done|done|lia]. }
  { lia. }
  unfold visit_entry. rewrite lor_prefix by done. fold base.
  replace (Z.shiftl 1 (12 + Z.of_nat l * 9)) with (span l)
    by (unfold span; rewrite Z.shiftl_1_l; f_equal; lia).
  pose proof (ow_entry _ _ _ Hown q l pre i Hq Hi) as Hentry. fold base in Hentry.
  assert (∀ r, base ≤ r < base + span l → idx l r = i) as Hidx
    by (intros r Hr; by apply (idx_unique l pre)).
  clearbody base.
  assert (0 ≤ canonicalize_vaddr base ∧ canonicalize_vaddr base + span l ≤ 2 ^ 64) as [Hcs0 Hcs1]
    by lia.
  pose proof (skip_spec (canonicalize_vaddr base) (span l) Hcs0 Hsp Hcs1) as Hskip.
  destruct (_ || _) eqn:Hsk in |- *.
  { apply proj1 in Hskip. exists []. split.
    - apply visited_nil. intros x. by apply visits_skip; [..|apply Hskip].
    - intros []; by destruct (negb _). }
  clear Hskip.
  rewrite orb_false_iff, !Z.leb_gt in Hsk. destruct Hsk as [Hsk1 Hsk2].
  unfold saturating_add in Hsk1.
  assert (∀ b, base ≤ raw b < base + span l → idx l b = i) as Hib
    by (intros b Hb; rewrite <- (idx_raw l) by done; auto).
  destruct Hentry as [He|l' q' -> Ht Hq'|ps p f Hps Hleaf Hf Hr Hpal Hp].
  - exists []. split; [|intros []; by rewrite He, zero_absent].
    apply visited_nil. intros [[[b p] f] ps] (_ & _ & _ & _ & Hs) Hb. cbn [fst] in Hb.
    assert (slot (pt_store t) l q b = (q, i, l)) as Hslot.
    { destruct l; cbn [slot]; rewrite Hib by done; [done|]. by rewrite He, is_unused_0. }
    rewrite Hslot, He in Hs. destruct Hs as (_ & _ & _ & Hu & _). by rewrite is_unused_0 in Hu.
  - destruct Ht as (Hp & Hne & Hu & Hpr & Hh). rewrite Hpr, Hh. cbn [negb orb bool_decide].
    destruct (Hbelow l' q' base eq_refl Hq') as (vs & Hvs & Hsorted & Hin).
    exists vs. split.
    + split; [done|]. intros [[[b p] f] ps]. rewrite Hin. cbn [fst].
      assert (base ≤ raw b < base + span (S l') →
        slot (pt_store t) (S l') q b = slot (pt_store t) l' q' b) as Hslot.
      { intros Hb. cbn [slot]. rewrite Hib by done. by rewrite Hu, Hh, Hp. }
      unfold visits. split; intros [Hx Hb]; (split; [|done]);
        [rewrite Hslot by done|rewrite Hslot in Hx by done]; done.
    + intros rest. unfold next_table. rewrite Hp, Hh, (proj2 (Z.eqb_neq _ _) Hne). cbn.
      by rewrite Hvs.
  - assert (∀ b, base ≤ raw b < base + span l → slot (pt_store t) l q b = (q, i, l)) as Hslot.
    { intros b Hb. destruct l; cbn [slot]; rewrite Hib by done; [done|].
      destruct Hleaf as (_ & _ & _ & _ & Hh).
      by rewrite (Hh (level_size_huge _ _ Hps)), orb_true_r. }
    exists [(canonicalize_vaddr base, p, f, ps)]. split.
    + split; [repeat constructor|]. intros [[[b p'] f'] ps']. rewrite list_elem_of_singleton.
      cbn [fst]. split.
      * intros [= -> -> -> ->]. rewrite Hcr. split; [|lia]. split; [done|]. split; [done|].
        rewrite (level_size_span _ _ Hps). split; [apply canon_aligned; [done|done|lia]|].
        split; [split; cbn [lf_size]; rewrite ?(level_size_span _ _ Hps); unfold usize_max in *; lia|].
        by rewrite Hslot by lia.
      * intros [(Hv & Hb & Hbal & _ & Hs) Hrb]. rewrite Hslot, Hps in Hs by done.
        destruct Hs as [[= <-] Hleaf'].
        destruct (pte_leaf_fun _ _ _ _ _ _ _ Hleaf Hleaf') as [<- <-]. do 3 f_equal.
        rewrite (level_size_span _ _ Hps) in Hbal.
        pose proof (canon_shift l base (raw b) Hl Hal Hb0 Hb1 Hrb) as Hc.
        rewrite canon_raw in Hc by done.
        pose proof (aligned_lt_step _ b _ Hsp (canon_aligned l base Hl Hal ltac:(lia)) Hbal). lia.
    + intros rest. destruct Hleaf as (Hp' & Hf' & _ & Hpr & Hh). rewrite Hpr. cbn [negb].
      assert (bool_decide (l = 0%nat) || pte_is_huge (pt_store t q i) = true) as ->.
      { destruct l; [done|]. by rewrite (Hh (level_size_huge _ _ Hps)), orb_true_r. }
      rewrite Hps, Hp', Hf'. done.
Qed.

Lemma visit_fold l q pre below :
  own !! q = Some (l, pre) →
  (∀ l' q' base, l = S l' → own !! q' = Some (l', base) →
     ∃ vs, below q' base = Ok vs ∧ visited l' q' base (base + span l) vs) →
  ∃ vs, foldr (visit_entry (pt_store t) l q pre start fin below) (Ok []) (seqZ 0 ENTRY_COUNT) = Ok vs ∧
    visited l q pre (pre + span (S l)) vs.
Proof.
  intros Hq Hbelow. pose proof (span_pos l) as Hsp.
  assert (∀ n : nat, (n ≤ 512)%nat → ∃ vs,
    foldr (visit_entry (pt_store t) l q pre start fin below) (Ok [])
      (seqZ (512 - Z.of_nat n) (Z.of_nat n)) = Ok vs ∧
    visited l q (pre + (512 - Z.of_nat n) * span l) (pre + span (S l)) vs) as Hfold.
  { induction n as [|n IHn]; intros Hn.
    - exists []. split; [done|]. rewrite span_S. apply visited_nil. intros x _ Hx. lia.
    - destruct IHn as (vs & Hvs & Hvis); [lia|].
      destruct (visit_entry_spec l q pre (512 - Z.of_nat (S n)) below Hq ltac:(lia) Hbelow)
        as (vs0 & Hvis0 & Hstep).
      exists (vs0 ++ vs). rewrite seqZ_cons by lia.
      replace (Z.succ (512 - Z.of_nat (S n))) with (512 - Z.of_nat n) by lia.
      replace (Z.pred (Z.of_nat (S n))) with (Z.of_nat n) by lia.
      cbn [foldr]. rewrite Hvs, Hstep. split; [done|].
      eapply visited_app; [|exact Hvis0|].
      + rewrite span_S. nia.
      + replace (pre + (512 - Z.of_nat (S n)) * span l + span l)
          with (pre + (512 - Z.of_nat n) * span l) by lia. done. }
  destruct (Hfold 512%nat ltac:(lia)) as (vs & Hvs & Hvis). exists vs. split; [exact Hvs|].
  by replace (pre + (512 - Z.of_nat 512) * span l) with pre in Hvis by lia.
Qed.
Lemma walk_recursive_spec l q pre :
  own !! q = Some (l, pre) →
  ∃ vs, walk_leaf_range_recursive (pt_store t) l q pre start fin = Ok vs ∧
    visited l q pre (pre + span (S l)) vs.
Proof.
  revert q pre. induction l as [|l IH]; intros q pre Hq; cbn [walk_leaf_range_recursive];
    apply visit_fold; try done.
  intros l' q' base [= <-]. apply IH.
Qed.
End walk.

Lemma walk_leaf_range_spec t L T start size :
  rep t L T → 0 ≤ start → 0 < size → start + size ≤ usize_max →
  ∃ vs, walk_leaf_range t start size = Ok vs ∧ StronglySorted visit_lt vs ∧
    (∀ b p f ps, (b, p, f, ps) ∈ vs ↔
       L !! b = Some (Leaf p f ps) ∧ leaf_meets start (start + size) b (Leaf p f ps)).
Proof.
  intros (own & Hown & _ & HL) H0 Hsz Hmax. unfold walk_leaf_range, usize_checked_add.
  rewrite (proj2 (Z.eqb_neq size 0)), (proj2 (Z.leb_le _ _) Hmax) by lia. cbn [ok_or mbind outcome_bind].
  destruct (walk_recursive_spec (start := start) (fin := start + size) Hown ltac:(lia) _ _ _
    (ow_root _ _ _ Hown)) as (vs & Hvs & Hsorted & Hin).
  exists vs. split; [exact Hvs|]. split; [done|]. intros b p f ps. rewrite Hin, (HL b). cbn [fst].
  unfold visits, translates. pose proof (own_root_range b).
  destruct (slot _ _ _ b) as [[q i] l]. cbn [lf_size lf_paddr lf_flags]. naive_solver.
Qed.

(** ** [try_new] and [drop] *)

Lemma try_new_spec mem a :
  wp (try_new mem) a (λ r a',
    match r with
    | Ok t => ∃ T, rep t ∅ T ∧ T ## pa_used a ∧ pa_used a' = T ∪ pa_used a
    | Err e => e = Paging.NoMemory ∧ pa_used a' = pa_used a
    | Panic => False
    end).
Proof.
  unfold try_new. wp_step. wp_step. unfold wp at 1, alloc_table, alloc_frame. cbn [fst snd].
  destruct (alloc_page a) as [[v a']|] eqn:Halloc; cbn; [|done].
  destruct (alloc_page_phys _ _ _ Halloc) as [Hal Hp].
  destruct (alloc_page_fresh _ _ _ Halloc) as (Hnew & Hused & Hv64).
  set (root := virt_to_phys v) in *. wp_steps. cbn [fst].
  assert (∀ j, fupd mem root (λ _ : Z, 0) root j = 0) as H0 by (intros j; by rewrite fupd_eq).
  exists {[v]}. split; [|set_solver]. exists {[root := (top, 0)]}. split; [|split].
  - split; cbn [pt_store root_paddr].
    + apply lookup_singleton_eq.
    + intros x y k Hx Hy. apply lookup_singleton_Some in Hx as [<- _], Hy as [<- _]. done.
    + intros x l pre [<- [= <- <-]]%lookup_singleton_Some. rewrite va_bits_span.
      split_and!; try done; lia.
    + intros x l pre j [<- _]%lookup_singleton_Some _. apply EZero, H0.
    + intros x l pre [<- _]%lookup_singleton_Some. done.
  - unfold owned_pages. rewrite dom_singleton_L, set_map_singleton_L. f_equal.
    symmetry. by apply phys_to_virt_to_phys.
  - intros b lf. rewrite lookup_empty. split; [done|]. cbn [pt_store root_paddr].
    intros (_ & _ & _ & Htr). unfold translates in Htr.
    assert (slot (fupd mem root (λ _, 0)) top root b = (root, idx top b, top)) as Hs.
    { destruct top; cbn [slot]; [done|]. by rewrite H0, is_unused_0. }
    rewrite Hs, H0 in Htr. destruct Htr as (_ & _ & _ & Hu & _). by rewrite is_unused_0 in Hu.
Qed.
Section dealloc.
Context {t : page_table64} {own : owner}.
Hypothesis (Hown : own_wf (pt_store t) (root_paddr t) own).

(** The owned tables of level at most [l] in an address range. *)
Definition subtree (l : nat) (lo hi x : Z) : Prop :=
  ∃ k p, own !! x = Some (k, p) ∧ (k ≤ l)%nat ∧ lo ≤ p < hi.

Lemma ancestor l k x p :
  own !! x = Some (k, p) → (k ≤ l)%nat → (l ≤ top)%nat →
  ∃ y p', own !! y = Some (l, p') ∧ p' ≤ p < p' + span (S l).
Proof.
  intros Hx Hk Hl. induction Hk as [|l Hk IH].
  { exists x, p. pose proof (span_pos (S k)). split; [done|lia]. }
  destruct IH as (y & p' & Hy & Hp); [lia|].
  assert (y ≠ root_paddr t).
  { intros ->. rewrite (ow_root _ _ _ Hown) in Hy. injection Hy as Htop _. lia. }
  destruct (ow_parent _ _ _ Hown _ _ _ Hy) as (z & pre & i & Hz & Hi & -> & _); [done|].
  exists z, pre. split; [done|]. rewrite (span_S (S l)). pose proof (span_pos (S l)). nia.
Qed.
(** Tables below a slot hang under the slot's table. *)
Lemma subtree_slot l q pre i x :
  own !! q = Some (S l, pre) → 0 ≤ i < 512 →
  subtree l (pre + i * span (S l)) (pre + i * span (S l) + span (S l)) x →
  ∃ q', pte_table (pt_store t q i) q' ∧ own !! q' = Some (l, pre + i * span (S l)).
Proof.
  intros Hq Hi (k & p & Hx & Hk & Hp).
  destruct (ow_table _ _ _ Hown _ _ _ Hq) as (Hl & Hpre & _).
  destruct (ancestor l k x p Hx Hk ltac:(lia)) as (y & p' & Hy & Hp').
  assert (y ≠ root_paddr t).
  { intros ->. rewrite (ow_root _ _ _ Hown) in Hy. injection Hy as Htop _. lia. }
  destruct (ow_parent _ _ _ Hown _ _ _ Hy) as (z & pre' & j & Hz & Hj & -> & Ht); [done|].
  destruct (ow_table _ _ _ Hown _ _ _ Hz) as (_ & Hpre' & _).
  assert (pre' = pre ∧ j = i) as [-> ->].
  { pose proof (span_pos (S l)). rewrite (span_S (S l)) in Hpre, Hpre'.
    apply Z.mod_divide in Hpre as [c ->]; [|lia]. apply Z.mod_divide in Hpre' as [c' ->]; [|lia].
    assert (512 * c + i = 512 * c' + j) by nia. assert (c = c') by lia. lia. }
  assert (z = q) as -> by by eapply (ow_inj _ _ _ Hown).
  by exists y.
Qed.

Definition freed (P : Z → Prop) (a a' : pa_state) : Prop :=
  ∀ v, v ∈ pa_used a' ↔ v ∈ pa_used a ∧ ¬ ∃ x, P x ∧ v = phys_to_virt x.

Lemma own_page_inj x y :
  is_Some (own !! x) → is_Some (own !! y) → phys_to_virt x = phys_to_virt y → x = y.
Proof.
  intros [[k p] Hx] [[k' p'] Hy]. destruct (ow_table _ _ _ Hown _ _ _ Hx) as (_ & _ & _ & _ & _ & Hx').
  destruct (ow_table _ _ _ Hown _ _ _ Hy) as (_ & _ & _ & _ & _ & Hy').
  pose proof pte_pa_bits_range. pose proof (Z.pow_le_mono_r 2 pte_pa_bits 64).
  apply phys_virt_inj; lia.
Qed.

Lemma freed_app P Q a a' a'' :
  freed P a a' → freed Q a' a'' → freed (λ x, P x ∨ Q x) a a''.
Proof. intros H H' v. rewrite (H' v), (H v). naive_solver. Qed.
Lemma freed_ext P Q a a' : (∀ x, P x ↔ Q x) → freed P a a' → freed Q a a'.
Proof. intros HPQ H v. rewrite (H v). setoid_rewrite HPQ. done. Qed.
Lemma freed_none P a : (∀ x, ¬ P x) → freed P a a.
Proof. intros HP v. naive_solver. Qed.
(** Pages that are not freed by the first step can be freed by the second. *)
Lemma freed_keep P a a' x :
  freed P a a' → (∀ y, P y → is_Some (own !! y)) → is_Some (own !! x) → ¬ P x →
  phys_to_virt x ∈ pa_used a → phys_to_virt x ∈ pa_used a'.
Proof.
  intros Hf HP Hx Hnot Hin. apply Hf. split; [done|]. intros (y & Hy & Heq).
  apply Hnot. by rewrite (own_page_inj x y) by auto.
Qed.
Lemma freed_frame q a :
  phys_to_virt q ∈ pa_used a → freed (λ x, x = q) a (dealloc_frame q a).
Proof.
  intros Hin v. unfold dealloc_frame. rewrite dealloc_page_used by done.
  rewrite elem_of_difference, elem_of_singleton. naive_solver.
Qed.
Lemma subtree_own l lo hi x : subtree l lo hi x → is_Some (own !! x).
Proof. intros (k & p & -> & _). eauto. Qed.
Lemma subtree_split l lo mid hi x :
  lo ≤ mid ≤ hi → subtree l lo hi x ↔ subtree l lo mid x ∨ subtree l mid hi x.
Proof.
  intros Hm. split.
  - intros (k & p & Hx & Hk & Hp). destruct (Z.ltb_spec p mid); [left|right]; exists k, p;
      (split; [done|]); (split; [done|lia]).
  - intros [(k & p & Hx & Hk & Hp)|(k & p & Hx & Hk & Hp)]; exists k, p;
      (split; [done|]); (split; [done|lia]).
Qed.
Lemma subtree_self l q pre x :
  own !! q = Some (S l, pre) →
  subtree (S l) pre (pre + span (S (S l))) x ↔ subtree l pre (pre + span (S (S l))) x ∨ x = q.
Proof.
  intros Hq. destruct (ow_table _ _ _ Hown _ _ _ Hq) as (_ & Hpre & _). split.
  - intros (k & p & Hx & Hk & Hp). destruct (decide (k = S l)) as [->|].
    + right. destruct (ow_table _ _ _ Hown _ _ _ Hx) as (_ & Hpal & _).
      pose proof (aligned_lt_step pre p _ (span_pos _) Hpre Hpal). assert (p = pre) as -> by lia.
      by eapply (ow_inj _ _ _ Hown).
    + left. exists k, p. split; [done|]. split; [lia|done].
  - pose proof (span_pos (S (S l))). intros [(k & p & Hx & Hk & Hp)| ->].
    + exists k, p. split; [done|]. split; [lia|done].
    + exists (S l), pre. split; [done|]. split; [lia|lia].
Qed.
Lemma subtree_leaf q pre x :
  own !! q = Some (O, pre) → subtree 0 pre (pre + span 1) x ↔ x = q.
Proof.
  intros Hq. destruct (ow_table _ _ _ Hown _ _ _ Hq) as (_ & Hpre & _). split.
  - intros (k & p & Hx & Hk & Hp). assert (k = 0%nat) as -> by lia.
    destruct (ow_table _ _ _ Hown _ _ _ Hx) as (_ & Hpal & _).
    pose proof (aligned_lt_step pre p _ (span_pos _) Hpre Hpal). assert (p = pre) as -> by lia.
    by eapply (ow_inj _ _ _ Hown).
  - intros ->. exists 0%nat, pre. pose proof (span_pos 1). split; [done|]. split; [lia|lia].
Qed.

Definition dealloc_entry (l : nat) (q : Z) (a : pa_state) (index : Z) : pa_state :=
  match next_table (pt_store t q index) with
  | Ok next => dealloc_tree (pt_store t) l next a
  | _ => a
  end.
Lemma dealloc_entry_spec l q pre i a :
  own !! q = Some (S l, pre) → 0 ≤ i < 512 →
  let base := pre + i * span (S l) in
  (∀ q' a, own !! q' = Some (l, base) →
     (∀ x, subtree l base (base + span (S l)) x → phys_to_virt x ∈ pa_used a) →
     freed (subtree l base (base + span (S l))) a (dealloc_tree (pt_store t) l q' a)) →
  (∀ x, subtree l base (base + span (S l)) x → phys_to_virt x ∈ pa_used a) →
  freed (subtree l base (base + span (S l))) a (dealloc_entry l q a i).
Proof.
  intros Hq Hi base IH Hused. unfold dealloc_entry, next_table.
  pose proof (λ x, subtree_slot l q pre i x Hq Hi) as Hsub. fold base in Hsub.
  destruct (ow_entry _ _ _ Hown q (S l) pre i Hq Hi)
    as [He|l' q' [= <-] (Hp & Hne & Hu & _ & Hh) Hq'|ps p f Hps (_ & _ & _ & _ & Hh) _ _ _ _].
  - rewrite He, zero_paddr. cbn. apply freed_none. intros x (q' & (_ & _ & Hu & _) & _)%Hsub.
    by rewrite He, is_unused_0 in Hu.
  - rewrite Hp, Hh, (proj2 (Z.eqb_neq _ _) Hne). by apply IH.
  - rewrite (Hh (level_size_huge _ _ Hps)).
    assert (freed (subtree l base (base + span (S l))) a a).
    { apply freed_none. intros x (q' & (_ & _ & _ & _ & Hh') & _)%Hsub.
      by rewrite (Hh (level_size_huge _ _ Hps)) in Hh'. }
    by destruct (pte_paddr _ =? 0).
Qed.
Lemma dealloc_entries_spec l q pre a (n : nat) :
  own !! q = Some (S l, pre) → (n ≤ 512)%nat →
  (∀ q' base a, own !! q' = Some (l, base) →
     (∀ x, subtree l base (base + span (S l)) x → phys_to_virt x ∈ pa_used a) →
     freed (subtree l base (base + span (S l))) a (dealloc_tree (pt_store t) l q' a)) →
  (∀ x, subtree l pre (pre + span (S (S l))) x → phys_to_virt x ∈ pa_used a) →
  freed (subtree l pre (pre + Z.of_nat n * span (S l))) a
    (foldl (dealloc_entry l q) a (seqZ 0 (Z.of_nat n))).
Proof.
  intros Hq Hn IH Hused. pose proof (span_pos (S l)) as Hsp. rewrite (span_S (S l)) in Hused.
  induction n as [|n IHn]; [apply freed_none; intros x (k & p & _ & _ & Hp); lia|].
  replace (Z.of_nat (S n)) with (Z.of_nat n + 1) by lia.
  rewrite seqZ_app, foldl_app, Z.add_0_l, (seqZ_cons (Z.of_nat n) 1),
    (seqZ_nil _ (Z.pred 1)) by lia. cbn [foldl].
  specialize (IHn ltac:(lia)). set (a' := foldl _ a _) in *.
  pose proof (λ x, subtree_split l pre (pre + Z.of_nat n * span (S l))
    (pre + (Z.of_nat n + 1) * span (S l)) x ltac:(lia)) as Hsplit.
  eapply freed_ext; [intros x; symmetry; apply Hsplit|].
  eapply freed_app; [exact IHn|].
  replace (pre + (Z.of_nat n + 1) * span (S l))
    with (pre + Z.of_nat n * span (S l) + span (S l)) in * by lia.
  apply (dealloc_entry_spec l q pre); [done|lia|by auto|].
  intros x Hx. eapply freed_keep; [exact IHn|apply subtree_own|by eapply subtree_own| |].
  - intros (k & p & Hx1 & _ & Hp1). destruct Hx as (k' & p' & Hx2 & _ & Hp2).
    rewrite Hx1 in Hx2. injection Hx2 as <- <-. lia.
  - apply Hused. destruct Hx as (k & p & Hx & Hk & Hp). exists k, p.
    split; [done|]. split; [done|nia].
Qed.
Lemma dealloc_tree_spec l q pre a :
  own !! q = Some (l, pre) →
  (∀ x, subtree l pre (pre + span (S l)) x → phys_to_virt x ∈ pa_used a) →
  freed (subtree l pre (pre + span (S l))) a (dealloc_tree (pt_store t) l q a).
Proof.
  revert q pre a. induction l as [|l IH]; intros q pre a Hq Hused; cbn [dealloc_tree].
  { eapply freed_ext; [intros x; symmetry; by apply subtree_leaf|].
    apply freed_frame, Hused. by apply (subtree_leaf q). }
  assert (freed (subtree l pre (pre + span (S (S l)))) a
    (foldl (dealloc_entry l q) a (seqZ 0 ENTRY_COUNT))) as Hf.
  { rewrite (span_S (S l)). apply (dealloc_entries_spec l q pre a 512); try done.
    intros x Hx. apply Hused. apply (subtree_self l q); [done|]. by left. }
  eapply freed_ext; [intros x; symmetry; by apply subtree_self|].
  eapply freed_app; [exact Hf|]. apply freed_frame.
  eapply freed_keep; [exact Hf|apply subtree_own|by eexists| |].
  - intros (k & p & Hq' & Hk & _). rewrite Hq in Hq'. injection Hq' as <- _. lia.
  - apply Hused. apply (subtree_self l q); [done|]. by right.
Qed.
End dealloc.

Lemma drop_table_spec t L T a :
  rep t L T → T ⊆ pa_used a → pa_used (drop_table t a) = pa_used a ∖ T.
Proof.
  intros (own & Hown & -> & _) HT.
  assert (drop_table t a = dealloc_tree (pt_store t) top (root_paddr t) a) as ->.
  { unfold drop_table, top. by destruct levels_cases as [-> | ->]. }
  assert (∀ x, subtree (own := own) top 0 (0 + span (S top)) x ↔ is_Some (own !! x)) as Hall.
  { intros x. split; [apply subtree_own|]. intros [[k p] Hx].
    destruct (ow_table _ _ _ Hown _ _ _ Hx) as (Hk & _ & Hp0 & Hp1 & _). exists k, p.
    rewrite va_bits_span in Hp1. pose proof (span_pos (S k)). split; [done|]. split; [done|lia]. }
  pose proof (dealloc_tree_spec Hown top (root_paddr t) 0 a (ow_root _ _ _ Hown)) as Hf.
  assert (∀ x, subtree (own := own) top 0 (0 + span (S top)) x → phys_to_virt x ∈ pa_used a)
    as Hin.
  { intros x Hx%Hall. apply HT. unfold owned_pages. apply elem_of_map. exists x.
    split; [done|]. by apply elem_of_dom. }
  apply set_eq. intros v. rewrite (Hf Hin v), elem_of_difference.
  unfold owned_pages. rewrite elem_of_map. setoid_rewrite Hall. setoid_rewrite elem_of_dom.
  naive_solver.
Qed.

(** ** The instance *)

(** A [VirtAddr] is a [usize]. *)
Definition va_valid (a : Z) : bool :=
  (0 <=? a) && (a <=? usize_max) && md_vaddr_is_valid a.
Lemma va_valid_spec a :
  va_valid a = true ↔ 0 ≤ a < 2 ^ 64 ∧ md_vaddr_is_valid a = true.
Proof.
  unfold va_valid, usize_max. rewrite !andb_true_iff, !Z.leb_le. split; [intuition lia|].
  intros [??]. split; [lia|done].
Qed.

Context (mem : Z → Z → Z).
Definition pt64 : PageTable.
Proof.
  refine {|
    page_table := page_table64; PA_MAX_BITS := pte_pa_bits; vaddr_is_valid := va_valid;
    readback := pte_readback;
    pt_try_new := try_new mem; pt_query := query; pt_map := map_page; pt_remap := remap;
    pt_protect := protect; pt_unmap := unmap; pt_walk_leaf_range := walk_leaf_range;
    pt_drop := drop_table; pt_rep := rep;
    readback_ok := pte_readback_ok; readback_alloc := pte_readback_alloc;
    readback_prot_none := pte_readback_prot_none; readback_access := pte_readback_access;
    pt_try_new_spec := try_new_spec mem; pt_walk_spec := walk_leaf_range_spec;
    pt_drop_spec := drop_table_spec |}.
  - intros t L T (own & Hown & _ & HL). by apply (leaves_of_wf Hown).
  - intros t L T b lf (own & Hown & _ & HL) Hb. apply HL in Hb as (Hv & Hr & _).
    by apply va_valid_spec.
  - intros t L T a (own & Hown & _ & HL) [Ha Hv]%va_valid_spec. by apply (query_spec Hown HL).
  - intros t L T a va pa ps f Hrep HT [Hva Hv]%va_valid_spec _. by apply map_page_spec.
  - intros t L T va b lf pa f Hrep [Hva Hv]%va_valid_spec. by apply remap_spec.
  - intros t L T va f Hrep [Hva Hv]%va_valid_spec. by apply protect_spec.
  - intros t L T va Hrep [Hva Hv]%va_valid_spec. by apply unmap_spec.
  - done.
Defined.
End radix.
