(* ===== verification/AddressSpace.v ===== *)
(** * Hardware address spaces (xcore/xmm/src/aspace.rs)

    [AddressSpace] ties the page table to the reference-counted frames: an
    allocator-owned leaf holds one reference of its frame, which mapping
    transfers in and unmapping releases. Operations act on the address space
    and the machine; a frame passed by value is dropped on every early return. *)
From S2P Require Import Prelude Errno MemAddr Frame PageTable.
From stdpp Require Import prelude gmap list sorting.
Open Scope Z_scope.

Section aspace.
Context {CFG : Config} {PA : PageAllocator} {BF : BitFlags} {MA : MemoryAddr} {PT : PageTable}.

Definition has_leaf_access (flags : Z) : bool :=
  intersects flags (READ |+| WRITE |+| EXECUTE).

Definition pte_flags (kind : FrameKind) (flags : Z) : outcome XError Z :=
  let flags := kind_apply kind (flags |-| PROT_NONE) in
  if negb (has_leaf_access flags) then Ok (flags |+| PROT_NONE)
  else if target_riscv && negb (intersects flags (READ |+| EXECUTE)) then Err InvalidInput
  else Ok flags.

Record AddressSpace := MkAddressSpace { as_range : vrange; as_table : page_table }.
Record ProtectionChange := MkChange {
  pc_address : Z; pc_old_flags : Z; pc_new_flags : Z }.

Abbreviation state := (AddressSpace * machine)%type.

(** Running page-table and frame operations on the combined state. *)
Definition on_table_alloc {E A} (m : prog (page_table * pa_state) E A) : prog state E A :=
  zoom (λ s, (as_table s.1, m_alloc s.2))
    (λ ta s, (MkAddressSpace (as_range s.1) ta.1, set_alloc s.2 ta.2)) m.
Definition on_table {E A} (m : prog page_table E A) : prog state E A :=
  zoom (λ s, as_table s.1) (λ t s, (MkAddressSpace (as_range s.1) t, s.2)) m.
Definition on_machine {E A} (m : prog machine E A) : prog state E A :=
  zoom snd (λ m s, (s.1, m)) m.
Definition flush {E} (vaddr : Z) : prog state E () := on_machine (modify (tlb_flush vaddr)).

Definition paging_error (e : PagingError) : XError :=
  match e with
  | Paging.NoMemory => NoMemory
  | Paging.AlreadyMapped => AlreadyExists
  | Paging.NotMapped => BadAddress
  | Paging.NotAligned | Paging.MappedToHugePage => InvalidInput
  end.

Definition contains_range (aspace : AddressSpace) (start size : Z) : bool :=
  match vr_try_from_start_size start size with
  | Some range => vr_contains_range (as_range aspace) range
  | None => false
  end.

Definition new_empty (base size : Z) : prog machine XError AddressSpace :=
  range ← lift (ok_or InvalidInput (vr_try_from_start_size base size));
  table ← zoom m_alloc (λ a m, set_alloc m a) (map_err_prog paging_error pt_try_new);
  mret (MkAddressSpace range table).
Definition new_user (base size : Z) : prog machine XError AddressSpace :=
  if negb (SMP =? 1) then throw Unsupported else new_empty base size.

Definition validate_range (aspace : AddressSpace) (start size : Z) (page_size : PageSize) :
    outcome XError () :=
  if (size =? 0) || negb (is_aligned start (page_bytes page_size))
     || negb (is_aligned size (page_bytes page_size)) || negb (contains_range aspace start size)
  then Err InvalidInput else Ok ().

Definition query_ok (aspace : AddressSpace) (address : Z) : bool :=
  match pt_query (as_table aspace) address with Ok _ => true | _ => false end.

(** [PageIter::new(start, end, page_size).ok_or(InvalidInput)?] *)
Definition page_addresses (start fin : Z) (page_size : PageSize) : outcome XError (list Z) :=
  ok_or InvalidInput (page_iter (page_bytes page_size) start fin).

Definition map_static_range (start : Z) (frames : StaticFrameRange) (flags : Z)
    (page_size : PageSize) : prog state XError () :=
  let physical_start := sfr_start frames in
  let size := sfr_size frames in
  aspace ← gets fst;
  lift (validate_range aspace start size page_size);;
  if negb (is_aligned physical_start (page_bytes page_size)) || negb (sfr_allows frames flags)
  then throw InvalidInput
  else
    fin ← lift (ok_or InvalidInput (checked_add start size));
    addresses ← lift (page_addresses start fin page_size);
    for_each addresses (λ address,
      aspace ← gets fst;
      if query_ok aspace address then throw AlreadyExists else mret ());;
    flags ← lift (pte_flags Static flags);
    for_each addresses (λ address,
      let offset := address - start in
      attempt (on_table_alloc (pt_map address (physical_start + offset) page_size flags)) (λ r,
        match r with
        | Err error =>
            installed ← lift (expect (page_iter (page_bytes page_size) start address));
            for_each installed (λ installed_address,
              unwrap_prog (on_table (pt_unmap installed_address));;
              flush installed_address);;
            throw (paging_error error)
        | _ => flush address
        end)).

Definition map_frame (address : Z) (frame : Frame) (flags : Z) : prog state XError () :=
  attempt
    (aspace ← gets fst;
     lift (validate_range aspace address (page_bytes Size4K) Size4K);;
     if query_ok aspace address then throw AlreadyExists
     else
       flags ← lift (pte_flags Alloc flags);
       let physical := f_paddr frame in
       map_err_prog paging_error (on_table_alloc (pt_map address physical Size4K flags));;
       flush address)
    (λ r,
      match r with
      | Err error => on_machine (frame_drop frame);; throw error
      | _ =>
          let transferred := frame_into_pte frame in
          lift (assert (transferred =? f_paddr frame))
      end).

Definition replace_frame (address : Z) (expected replacement : Frame) (flags : Z) :
    prog state XError () :=
  attempt
    (let address := align_down address (page_bytes Size4K) in
     aspace ← gets fst;
     found ← lift (map_err paging_error (pt_query (as_table aspace) address));
     let '(mapped, current_flags, page_size) := found in
     if negb (mapped =? f_paddr expected) || negb (bool_decide (page_size = Size4K))
        || negb (contains current_flags ALLOC_FRAME)
     then throw BadState
     else
       flags ← lift (pte_flags Alloc flags);
       map_err_prog paging_error (on_table (pt_remap address (f_paddr replacement) flags));;
       flush address;;
       mret mapped)
    (λ r,
      match r with
      | Ok mapped =>
          lift (assert (frame_into_pte replacement =? f_paddr replacement));;
          old ← on_machine (unwrap_prog (frame_take_from_pte mapped));
          on_machine (frame_drop old)
      | Err error => on_machine (frame_drop replacement);; throw error
      | Panic => panic
      end).

(** The visitor of [preflight_range]: the count and the last error. *)
Definition preflight_visit (m : machine) (start fin : Z) (kind : FrameKind)
    (expected_page_size : PageSize) (acc : Z * option XError) (v : Z * Z * Z * PageSize) :
    Z * option XError :=
  let '(leaf_count, validation_error) := acc in
  let '(address, physical, flags, page_size) := v in
  let leaf_count := leaf_count + 1 in
  match checked_add address (page_bytes page_size) with
  | None => (leaf_count, Some InvalidInput)
  | Some leaf_end =>
      if (address <? start) || (fin <? leaf_end) then (leaf_count, Some InvalidInput)
      else if negb (bool_decide (kind_from_flags flags = kind))
              || negb (bool_decide (page_size = expected_page_size))
      then (leaf_count, Some BadState)
      else if bool_decide (kind = Alloc) then
        match (frame_validate_pte physical m).1 with
        | Err error => (leaf_count, Some error)
        | _ => (leaf_count, validation_error)
        end
      else (leaf_count, validation_error)
  end.
Definition preflight_range (start size : Z) (kind : FrameKind) (expected_page_size : PageSize) :
    prog state XError Z :=
  aspace ← gets fst;
  m ← gets snd;
  lift (validate_range aspace start size expected_page_size);;
  fin ← lift (ok_or InvalidInput (checked_add start size));
  vs ← lift (map_err paging_error (pt_walk_leaf_range (as_table aspace) start size));
  let '(leaf_count, validation_error) :=
    foldl (preflight_visit m start fin kind expected_page_size) (0, None) vs in
  match validation_error with
  | Some error => throw error
  | None => mret leaf_count
  end.

Definition unmap_range (start size : Z) (kind : FrameKind) (page_size : PageSize) :
    prog state XError () :=
  preflight_range start size kind page_size;;
  fin ← lift (ok_or InvalidInput (checked_add start size));
  addresses ← lift (page_addresses start fin page_size);
  for_each addresses (λ address,
    attempt (on_table (pt_unmap address)) (λ r,
      match r with
      | Ok (physical, actual_size) =>
          lift (assert (bool_decide (actual_size = page_size)));;
          flush address;;
          if bool_decide (kind = Alloc) then
            frame ← on_machine (unwrap_prog (frame_take_from_pte physical));
            on_machine (frame_drop frame)
          else mret ()
      | Err Paging.NotMapped => mret ()
      | _ => panic
      end)).
Definition unmap_static_range (start size : Z) (page_size : PageSize) : prog state XError () :=
  unmap_range start size Static page_size.
Definition unmap_alloc_range (start size : Z) : prog state XError () :=
  unmap_range start size Alloc Size4K.
Definition validate_alloc_range (start size : Z) : prog state XError () :=
  preflight_range start size Alloc Size4K;; mret ().

(** [AddressSpace::protect_alloc_range] *)
Definition protect_alloc_range (start size flags : Z) : prog state XError () :=
  preflight_range start size Alloc Size4K;;
  flags ← lift (pte_flags Alloc flags);
  fin ← lift (ok_or InvalidInput (checked_add start size));
  addresses ← lift (page_addresses start fin Size4K);
  for_each addresses (λ address,
    attempt (on_table (pt_protect address flags)) (λ r,
      match r with
      | Ok actual_size =>
          lift (assert (bool_decide (actual_size = Size4K)));;
          flush address
      | Err Paging.NotMapped => mret ()
      | _ => panic
      end)).
Definition protect_alloc_page (address flags : Z) : prog state XError () :=
  protect_alloc_range (align_down address (page_bytes Size4K)) (page_bytes Size4K) flags.

Definition frame_if_shared (address : Z) : prog state XError (option Frame) :=
  aspace ← gets fst;
  found ← lift (map_err paging_error (pt_query (as_table aspace) address));
  let '(physical, flags, page_size) := found in
  if negb (bool_decide (kind_from_flags flags = Alloc)) || negb (bool_decide (page_size = Size4K))
  then throw BadState
  else
    let physical := align_down physical (page_bytes page_size) in
    unique ← on_machine (frame_pte_is_unique physical);
    if unique : bool then mret None
    else frame ← on_machine (frame_clone_from_pte physical); mret (Some frame).

(** The visitor of [mapped_frames]; the vector is in push order. *)
Definition snapshot_visit (acc : list (Z * Frame * Z) * option XError)
    (v : Z * Z * Z * PageSize) :
    prog machine XError (list (Z * Frame * Z) * option XError) :=
  let '(frames, validation_error) := acc in
  let '(address, physical, flags, page_size) := v in
  match validation_error with
  | Some _ => mret acc
  | None =>
      if negb (bool_decide (kind_from_flags flags = Alloc))
         || negb (bool_decide (page_size = Size4K))
      then mret (frames, Some BadState)
      else
        attempt (frame_clone_from_pte physical) (λ r,
          match r with
          | Ok frame =>
              mret (frames ++ [(address, frame, flags |-| ALLOC_FRAME |-| PROT_NONE)], None)
          | Err error => mret (frames, Some error)
          | Panic => panic
          end)
  end.
Fixpoint fold_visits (vs : list (Z * Z * Z * PageSize))
    (acc : list (Z * Frame * Z) * option XError) :
    prog machine XError (list (Z * Frame * Z) * option XError) :=
  match vs with
  | [] => mret acc
  | v :: vs' => acc' ← snapshot_visit acc v; fold_visits vs' acc'
  end.
(** Dropping a vector of snapshots. *)
Definition drop_snapshots {E} (frames : list (Z * Frame * Z)) : prog machine E () :=
  for_each frames (λ x, frame_drop x.1.2).
Definition mapped_frames (range : vrange) : prog state XError (list (Z * Frame * Z)) :=
  aspace ← gets fst;
  vs ← lift (map_err paging_error
         (pt_walk_leaf_range (as_table aspace) (vr_start range) (vr_size range)));
  acc ← on_machine (fold_visits vs ([], None));
  match acc.2 with
  | Some error => on_machine (drop_snapshots acc.1);; throw error
  | None => mret acc.1
  end.

Definition mapping_flags (aspace : AddressSpace) (address : Z) : option Z :=
  match pt_query (as_table aspace) address with Ok (_, flags, _) => Some flags | _ => None end.

(** The loop of [process_bytes]. Every iteration copies at least one byte, so
    [size] iterations are enough fuel. [copy] gets the kernel address, the
    offset and the count, and acts on the machine and the caller's buffer. *)
Fixpoint process_chunks {B} (fuel : nat) (aspace : AddressSpace) (start size access : Z)
    (kind : option FrameKind) (copy : Z → Z → Z → B * machine → B * machine) (copied : Z) :
    prog (B * machine) XError () :=
  if negb (copied <? size) then mret ()
  else
    match fuel with
    | O => panic
    | S fuel' =>
        let address := start + copied in
        found ← lift (map_err paging_error (pt_query (as_table aspace) address));
        let '(physical, flags, page_size) := found in
        if negb (contains flags access) || contains flags DEVICE
           || match kind with
              | Some kind => negb (bool_decide (kind_from_flags flags = kind))
              | None => false
              end
        then throw PermissionDenied
        else
          let available := page_bytes page_size - align_offset address (page_bytes page_size) in
          let count := Z.min available (size - copied) in
          modify (copy (phys_to_virt physical) copied count);;
          process_chunks fuel' aspace start size access kind copy (copied + count)
    end.
Definition process_bytes {B} (aspace : AddressSpace) (start size access : Z)
    (kind : option FrameKind) (copy : Z → Z → Z → B * machine → B * machine) :
    prog (B * machine) XError () :=
  if size =? 0 then mret ()
  else if negb (contains_range aspace start size) then throw InvalidInput
  else process_chunks (Z.to_nat size) aspace start size access kind copy 0.

(** [read_bytes]: the output buffer is indexed from zero. *)
Definition read_bytes (aspace : AddressSpace) (start len : Z) :
    prog ((Z → Z) * machine) XError () :=
  process_bytes aspace start len READ None (λ source offset count '(output, m),
    (λ k, if (offset <=? k) && (k <? offset + count) then m_mem m (source + (k - offset))
          else output k, m)).
Definition write_alloc_bytes (aspace : AddressSpace) (start : Z) (input : list Z) :
    prog (() * machine) XError () :=
  process_bytes aspace start (Z.of_nat (length input)) WRITE (Some Alloc)
    (λ destination offset count '(u, m),
      (u, set_mem m (mem_write (m_mem m) destination
            (take (Z.to_nat count) (drop (Z.to_nat offset) input))))).

(** ** [ProtectionTransaction]

    The transaction borrows the address space; its journal is threaded
    through, and the drop at the end of its scope is [txn_finish]. *)
Definition txn_state : Type := list ProtectionChange * state.
Definition in_txn {E A} (m : prog state E A) : prog txn_state E A :=
  zoom snd (λ s t, (t.1, s)) m.

(** The visitor that prepares the journal. *)
Fixpoint prepare_changes (vs : list (Z * Z * Z * PageSize)) (kind : FrameKind)
    (new_flags : Z → Z → prog machine XError Z) (acc : list ProtectionChange) :
    prog machine XError (list ProtectionChange * option XError) :=
  match vs with
  | [] => mret (acc, None)
  | (address, physical, old_flags, _) :: vs' =>
      attempt (flags ← new_flags address physical; lift (pte_flags kind flags)) (λ r,
        match r with
        | Ok flags => prepare_changes vs' kind new_flags (acc ++ [MkChange address old_flags flags])
        | Err error => mret (acc, Some error)
        | Panic => panic
        end)
  end.
Definition apply_change (flags_of : ProtectionChange → Z) (c : ProtectionChange) :
    prog state XError () :=
  unwrap_prog (on_table (pt_protect (pc_address c) (flags_of c)));;
  flush (pc_address c).

Definition txn_protect_range (start size : Z) (kind : FrameKind) (page_size : PageSize)
    (expected_leaf_count : option Z) (new_flags : Z → Z → prog machine XError Z) :
    prog txn_state XError () :=
  leaf_count ← in_txn (preflight_range start size kind page_size);
  if match expected_leaf_count with
     | Some expected => negb (expected =? leaf_count) | None => false end
  then throw BadState
  else
    reserved ← in_txn (on_machine try_reserve);
    if negb reserved then throw NoMemory
    else
      changes ← gets fst;
      let first_change := length changes in
      aspace ← gets (λ t, t.2.1);
      vs ← lift (map_err paging_error (pt_walk_leaf_range (as_table aspace) start size));
      prepared ← in_txn (on_machine (prepare_changes vs kind new_flags changes));
      modify (λ t, (prepared.1, t.2));;
      match prepared.2 with
      | Some error => modify (λ t, (take first_change t.1, t.2));; throw error
      | None =>
          in_txn (for_each (drop first_change prepared.1) (apply_change pc_new_flags))
      end.

Definition txn_protect_alloc_range (start size flags : Z) : prog txn_state XError () :=
  txn_protect_range start size Alloc Size4K None (λ _ _, mret flags).
Definition txn_protect_alloc_range_with (start size : Z) (flags : bool → Z) :
    prog txn_state XError () :=
  txn_protect_range start size Alloc Size4K None
    (λ _ physical, unique ← frame_pte_is_unique physical; mret (flags unique)).
Definition txn_protect_static_range (start : Z) (frames : StaticFrameRange) (flags : Z)
    (page_size : PageSize) : prog txn_state XError () :=
  aspace ← gets (λ t, t.2.1);
  lift (validate_range aspace start (sfr_size frames) page_size);;
  if negb (sfr_allows frames flags) then throw PermissionDenied
  else
    txn_protect_range start (sfr_size frames) Static page_size
      (Some (sfr_size frames / page_bytes page_size))
      (λ address physical,
        if physical =? sfr_start frames + (address - start) then mret flags else throw BadState).

(** [Drop for ProtectionTransaction] *)
Definition txn_drop (committed : bool) : prog txn_state XError () :=
  if committed then mret ()
  else
    changes ← gets fst;
    in_txn (for_each (reverse changes) (apply_change pc_old_flags)).

(** A transaction run by [body]: begun with an empty journal, committed by
    [Ok], rolled back by the drop otherwise. *)
Definition with_txn {A} (body : prog txn_state XError A) : prog state XError A :=
  λ s,
    match body ([], s) with
    | (Ok x, (_, s')) => (Ok x, s')
    | (Err e, t) =>
        match txn_drop false t with
        | (Ok _, (_, s')) => (Err e, s')
        | (_, (_, s')) => (Panic, s')
        end
    | (Panic, (_, s')) => (Panic, s')
    end.

(** [Drop for AddressSpace], then the drop of the page table. *)
Definition aspace_drop (aspace : AddressSpace) : prog machine XError () :=
  vs ← lift (unwrap (pt_walk_leaf_range (as_table aspace) (vr_start (as_range aspace))
                      (vr_size (as_range aspace))));
  lift (assert (negb (existsb (λ v : Z * Z * Z * PageSize,
          bool_decide (kind_from_flags v.1.2 = Alloc)) vs)));;
  modify (λ m, set_alloc m (pt_drop (as_table aspace) (m_alloc m))).
End aspace.
