(* ===== verification/AspaceInv.v ===== *)
(** * Ownership in address spaces

    The invariant that ties the leaves of a page table to the frame database:
    the reference count of a frame is the number of allocator-owned leaves
    that map it plus the handles held elsewhere ([Frame] values and the leaves
    of other address spaces). The lemmas below say what each operation of
    AddressSpace.v does to the leaves and to the handles, on every branch. *)
From S2P Require Import Prelude Errno MemAddr Frame PageTable AddressSpace.
From stdpp Require Import prelude gmap list sorting.
Open Scope Z_scope.

(** ** Counting the leaves that own a frame *)

Section count.
Context {CFG : Config} {BF : BitFlags}.

Definition is_alloc (lf : leaf) : bool := contains (lf_flags lf) ALLOC_FRAME.
Definition owns (i : Z) (lf : leaf) : bool :=
  is_alloc lf && bool_decide (metadata (lf_paddr lf) = Some i).
Definition own_count (L : gmap Z leaf) (i : Z) : Z :=
  Z.of_nat (size (filter (λ kv : Z * leaf, owns i kv.2 = true) L)).

Lemma own_count_empty i : own_count ∅ i = 0.
Proof. unfold own_count. by rewrite map_filter_empty, map_size_empty. Qed.
Lemma own_count_nonneg L i : 0 ≤ own_count L i.
Proof. unfold own_count. lia. Qed.
Lemma own_count_insert L b lf i :
  L !! b = None → own_count (<[b := lf]> L) i = own_count L i + if owns i lf then 1 else 0.
Proof.
  intros Hb. unfold own_count. rewrite map_filter_insert. cbn. destruct (owns i lf) eqn:Ho.
  - rewrite decide_True by done. rewrite map_size_insert_None; [lia|].
    apply map_lookup_filter_None. by left.
  - rewrite decide_False by done. rewrite delete_id by done. lia.
Qed.
Lemma own_count_delete L b lf i :
  L !! b = Some lf → own_count (delete b L) i = own_count L i - if owns i lf then 1 else 0.
Proof.
  intros Hb. rewrite <- (insert_delete_id L b lf Hb) at 2.
  rewrite own_count_insert by apply lookup_delete_eq. lia.
Qed.
Lemma own_count_replace L b lf lf' i :
  L !! b = Some lf →
  own_count (<[b := lf']> L) i =
    own_count L i - (if owns i lf then 1 else 0) + (if owns i lf' then 1 else 0).
Proof.
  intros Hb. rewrite <- insert_delete_eq, own_count_insert by apply lookup_delete_eq.
  by rewrite (own_count_delete L b lf i Hb).
Qed.
Lemma own_count_pos L b lf i : L !! b = Some lf → owns i lf = true → 1 ≤ own_count L i.
Proof.
  intros Hb Ho. pose proof (own_count_delete L b lf i Hb) as Hd. rewrite Ho in Hd.
  pose proof (own_count_nonneg (delete b L) i). lia.
Qed.
End count.

(** Physical memory is addressable by the page-table entries. *)
Class PhysFits `{CFG : Config, PA : PageAllocator, BF : BitFlags, PT : !PageTable} :=
  phys_fits : PHYS_MEMORY_BASE + PHYS_MEMORY_SIZE ≤ 2 ^ PA_MAX_BITS.

(** What the rest of the system owns: the table pages of the other address
    spaces, the references held by their leaves and by others outside, the frames
    that only they reference, and the bytes of the frames they reference. *)
Class Foreign := {
  foreign : gset Z;
  others : Z → Z;
  exclusive : Z → Prop;
  image : Z → Z;
}.

Section inv.
Context {CFG : Config} {PA : PageAllocator} {BF : BitFlags} {MA : MemoryAddr} {PT : PageTable}.
Context {PF : PhysFits} {FT : Foreign}.

(** Allocator-owned leaves are 4-KiB pages of counted frames. *)
Definition alloc_ok (L : gmap Z leaf) : Prop :=
  ∀ b lf, L !! b = Some lf → is_alloc lf = true →
    lf_size lf = Size4K ∧ ∃ i, metadata (lf_paddr lf) = Some i.

(** Table pages are allocated and hold no counted frame. *)
Definition tables_ok (m : machine) (T : gset Z) : Prop :=
  T ⊆ pa_used (m_alloc m) ∧ ∀ i, m_refs m i ≠ 0 → phys_to_virt (frame_addr i) ∉ T.
(** The rest of the system is left alone. *)
Record foreign_ok (m : machine) (L : gmap Z leaf) (T : gset Z) (H : Z → Z) : Prop := {
  fo_tables : tables_ok m foreign;
  fo_disjoint : T ## foreign;
  fo_exclusive : ∀ i, exclusive i → own_count L i = 0 ∧ H i = others i ∧ 0 < others i;
  fo_image : ∀ i x, 0 < others i → frame_page i x → m_mem m x = image x;
}.
(** [L] the leaves, [T] the table pages, [H] the handles held elsewhere. *)
Record as_inv (s : AddressSpace * machine) (L : gmap Z leaf) (T : gset Z) (H : Z → Z) : Prop := {
  ai_rep : pt_rep (as_table s.1) L T;
  ai_mach : mach_wf s.2;
  ai_tables : T ⊆ pa_used (m_alloc s.2);
  ai_disjoint : ∀ i, m_refs s.2 i ≠ 0 → phys_to_virt (frame_addr i) ∉ T;
  ai_count : ∀ i, m_refs s.2 i = own_count L i + H i;
  ai_handles : ∀ i, 0 ≤ others i ≤ H i;
  ai_alloc : alloc_ok L;
  ai_usize : vr_usize (as_range s.1);
  ai_valid : ∀ a, vr_start (as_range s.1) ≤ a < vr_end (as_range s.1) → vaddr_is_valid a = true;
  ai_foreign : foreign_ok s.2 L T H;
}.

Lemma as_inv_wf s L T H : as_inv s L T H → leaves_wf readback PA_MAX_BITS L.
Proof. intros Hinv. eapply pt_rep_wf, ai_rep, Hinv. Qed.

(** An allocator-owned leaf keeps its frame alive. *)
Lemma leaf_live s L T H b lf i :
  as_inv s L T H → L !! b = Some lf → is_alloc lf = true → metadata (lf_paddr lf) = Some i →
  m_refs s.2 i ≠ 0.
Proof.
  intros Hinv Hb Ha Hi. rewrite (ai_count _ _ _ _ Hinv).
  pose proof (ai_handles _ _ _ _ Hinv i).
  assert (owns i lf = true) as Ho by (unfold owns; by rewrite Ha, bool_decide_eq_true_2).
  pose proof (own_count_pos L b lf i Hb Ho). lia.
Qed.

(** Changing only the TLB log and the reservation oracle. *)
Lemma as_inv_machine s L T H m' :
  as_inv s L T H → m_alloc m' = m_alloc s.2 → m_refs m' = m_refs s.2 → m_mem m' = m_mem s.2 → as_inv (s.1, m') L T H.
Proof.
  intros [? Hm ? ? ? ? ? ? ? [Hf ? ? ?]] Ha Hr He.
  split; cbn; rewrite ?Ha, ?Hr; try done; [by eapply mach_wf_same|].
  unfold tables_ok in *. split; unfold tables_ok; rewrite ?Ha, ?Hr, ?He; done.
Qed.
(** What moves between the leaves and the handles does not concern the others. *)
Lemma exclusive_balance m L T H L' H' :
  foreign_ok m L T H → (∀ i, own_count L' i + H' i = own_count L i + H i) → (∀ i, 0 ≤ others i ≤ H' i) →
  ∀ i, exclusive i → own_count L' i = 0 ∧ H' i = others i ∧ 0 < others i.
Proof.
  intros Hf Hc Hh i Hi. destruct (fo_exclusive _ _ _ _ Hf i Hi) as (H1 & H2 & H3).
  specialize (Hc i). specialize (Hh i). pose proof (own_count_nonneg L' i). lia.
Qed.

(** ** Flags *)

Lemma pte_flags_leaf kind f f' :
  pte_flags kind f = Ok f' →
  leaf_flags f' ∧ contains f' ALLOC_FRAME = bool_decide (kind = Alloc).
Proof.
  unfold pte_flags, has_leaf_access. set (g := kind_apply kind (f |-| PROT_NONE)).
  assert (contains g PROT_NONE = false ∧ contains g ALLOC_FRAME = bool_decide (kind = Alloc))
    as [Hpn Ha].
  { unfold g. destruct kind; cbn [kind_apply]; flag_bits;
      by rewrite ?andb_true_r, ?andb_false_r, ?orb_true_r. }
  destruct (intersects g (READ |+| WRITE |+| EXECUTE)) eqn:Hacc; cbn [negb].
  - destruct (target_riscv && negb (intersects g (READ |+| EXECUTE))) eqn:Hrv; [done|].
    intros [= <-]. split; [|done]. right. split; [done|].
    apply andb_false_iff in Hrv as [Hrv|Hrv]; [by right|]. left. by apply negb_false_iff in Hrv.
  - intros [= <-]. split.
    + left. flag_bits. by rewrite orb_true_r.
    + rewrite <- Ha. flag_bits. by rewrite orb_false_r.
Qed.

(** ** Ranges *)

Definition range_ok (aspace : AddressSpace) (start size : Z) (ps : PageSize) : Prop :=
  0 < size ∧ start mod page_bytes ps = 0 ∧ size mod page_bytes ps = 0 ∧
  start + size ≤ usize_max ∧
  vr_start (as_range aspace) ≤ start ∧ start + size ≤ vr_end (as_range aspace).
#[export] Instance range_ok_dec aspace start size ps : Decision (range_ok aspace start size ps).
Proof. unfold range_ok. apply _. Defined.

Lemma validate_range_spec aspace start size ps :
  0 ≤ start → 0 ≤ size →
  validate_range aspace start size ps =
    if decide (range_ok aspace start size ps) then Ok () else Err InvalidInput.
Proof.
  intros Hst Hsz. unfold validate_range, contains_range.
  rewrite !is_aligned_spec, vr_try_from_start_size_spec by done.
  destruct (Z.eqb_spec size 0) as [->|Hne]; cbn [orb].
  { rewrite decide_False; [done|]. intros [? _]. lia. }
  destruct (Z.eqb_spec (start mod page_bytes ps) 0) as [Hs|Hs]; cbn [negb orb];
    [|rewrite decide_False; [done|by intros (_ & ? & _)]].
  destruct (Z.eqb_spec (size mod page_bytes ps) 0) as [Hz|Hz]; cbn [negb orb];
    [|rewrite decide_False; [done|by intros (_ & _ & ? & _)]].
  destruct (Z.leb_spec (start + size) usize_max) as [Hm|Hm]; cbn [negb orb];
    [|rewrite decide_False; [done|intros (_ & _ & _ & ? & _); lia]].
  rewrite vr_contains_range_spec by (unfold vr_nonempty; cbn; lia). cbn.
  destruct (Z.leb_spec (vr_start (as_range aspace)) start), (Z.leb_spec (start + size) (vr_end (as_range aspace)));
    cbn [negb andb]; case_decide as Hd; unfold range_ok in Hd; done || (exfalso; lia || (apply Hd; done)).
Qed.
Lemma checked_add_ok a b : 0 ≤ a → 0 ≤ b → a + b ≤ usize_max → checked_add a b = Some (a + b).
Proof. intros. rewrite checked_add_spec by done. by rewrite (proj2 (Z.leb_le _ _)). Qed.

(** ** Dropping a handle *)

Lemma as_drop {E} s L T H p i :
  as_inv s L T H → metadata p = Some i → others i < H i →
  wp (on_machine (E:=E) (frame_drop (MkFrame p))) s (λ r s', r = Ok () ∧ s'.1 = s.1 ∧
    as_inv s' L T (fupd H i (H i - 1)) ∧ same_mem s.2 s'.2).
Proof.
  intros Hinv Hp Hi.
  assert (m_refs s.2 i ≠ 0) as Hlive.
  { rewrite (ai_count _ _ _ _ Hinv). pose proof (own_count_nonneg L i). pose proof (ai_handles _ _ _ _ Hinv i). lia. }
  unfold on_machine. wp_step.
  eapply wp_mono; [by apply (frame_drop_spec s.2 p i), Hlive; [apply Hinv|]|].
  intros r m' (-> & Hwf & Hsame & Hrefs & Hused). split; [done|]. split; [done|].
  split; [|done]. destruct Hinv as [? ? HT Hdis Hcount Hh ? ? ? [[HF HFd] ? HX HI]].
  assert (∀ j, m_refs m' j ≠ 0 → m_refs s.2 j ≠ 0) as Hstill.
  { intros j Hj Hz. apply Hj. rewrite Hrefs, fupd_case. case_decide; [by subst|done]. }
  assert (∀ T0 : gset Z, T0 ⊆ pa_used (m_alloc s.2) → phys_to_virt (frame_addr i) ∉ T0 → T0 ⊆ pa_used (m_alloc m')) as Hkeep.
  { intros T0 HT0 Hi0. rewrite Hused. destruct (_ =? 1); [|set_solver]. apply metadata_Some in Hp as [_ ->]. set_solver. }
  split; cbn; try done.
  - apply Hkeep; auto.
  - intros j Hj. apply Hdis. auto.
  - intros j. rewrite Hrefs, !fupd_case. case_decide; [subst|]; rewrite Hcount; lia.
  - intros j. specialize (Hh j). rewrite fupd_case. case_decide; [subst; lia|done].
  - destruct Hsame as [Hmem _]. split; [split; [apply Hkeep; auto|auto]|done| |by rewrite Hmem].
    intros j Hj. destruct (HX j Hj) as (H1 & H2 & H3). rewrite fupd_ne; [done|]. intros ->. lia.
Qed.

(** ** Page-table updates preserve the invariant *)

Lemma as_inv_grow s L T H L' H' t' a' N :
  as_inv s L T H → pt_rep t' L' (N ∪ T) →
  N ## pa_used (m_alloc s.2) → pa_used a' = N ∪ pa_used (m_alloc s.2) →
  (∀ i, own_count L' i + H' i = own_count L i + H i) → (∀ i, 0 ≤ others i ≤ H' i) →
  alloc_ok L' →
  as_inv (MkAddressSpace (as_range s.1) t', set_alloc s.2 a') L' (N ∪ T) H'.
Proof.
  intros [Hrep [Hr Hu] HT Hdis Hcount Hh Hal ? ? Hfo] Hrep' HN Hused Hc Hh' Hal'.
  pose proof Hfo as [[HF HFd] HTF _ HI]. split; cbn; try done.
  - split; cbn; [done|]. intros i Hi. destruct (Hu i Hi). split; [done|]. rewrite Hused. set_solver.
  - rewrite Hused. set_solver.
  - intros i Hi. destruct (Hu i Hi). pose proof (Hdis i Hi). set_solver.
  - intros i. by rewrite Hc.
  - split; [split; cbn; [rewrite Hused; set_solver|done]|set_solver|by eapply exclusive_balance|done].
Qed.
Lemma as_inv_table s L T H L' H' t' :
  as_inv s L T H → pt_rep t' L' T →
  (∀ i, own_count L' i + H' i = own_count L i + H i) → (∀ i, 0 ≤ others i ≤ H' i) →
  alloc_ok L' →
  as_inv (MkAddressSpace (as_range s.1) t', s.2) L' T H'.
Proof.
  intros [Hrep Hm HT Hdis Hcount Hh Hal ? ? Hfo] Hrep' Hc Hh' Hal'. split; cbn; try done.
  - intros i. by rewrite Hc.
  - pose proof Hfo as []. split; try done. by eapply exclusive_balance.
Qed.

Lemma frame_phys p i :
  metadata p = Some i → p mod page_bytes Size4K = 0 ∧ 0 ≤ p < 2 ^ PA_MAX_BITS.
Proof.
  intros [Hi ->]%metadata_Some. unfold frame_addr, frame_valid, frame_count in *.
  pose proof phys_fits. pose proof cfg_bounds. pose proof cfg_base_aligned as Hb.
  pose proof (Z.div_mod PHYS_MEMORY_SIZE 4096 ltac:(lia)).
  pose proof (Z.mod_pos_bound PHYS_MEMORY_SIZE 4096 ltac:(lia)). cbn [page_bytes]. split; [|lia].
  rewrite mod_add_aligned, Z.mul_comm, Z.mod_mul by (done || lia). done.
Qed.

Lemma query_ok_spec s L T H a :
  as_inv s L T H → vaddr_is_valid a = true →
  query_ok s.1 a = bool_decide (leaf_find L a ≠ None).
Proof.
  intros Hinv Hv. unfold query_ok. rewrite (pt_query_spec _ _ _ _ (ai_rep _ _ _ _ Hinv) Hv).
  by destruct (leaf_find L a) as [[b lf]|].
Qed.
Lemma owns_leaf p f i j :
  leaf_flags f → contains f ALLOC_FRAME = true → metadata p = Some i →
  owns j (Leaf p (readback f) Size4K) = bool_decide (j = i).
Proof.
  intros Hf Ha Hp. unfold owns, is_alloc. cbn. rewrite readback_alloc, Ha, Hp by done. cbn.
  apply bool_decide_ext. naive_solver.
Qed.
Lemma alloc_insert L b p f i :
  metadata p = Some i → alloc_ok L → alloc_ok (<[b := Leaf p f Size4K]> L).
Proof.
  intros Hp HL b' lf Hb'. apply lookup_insert_Some in Hb' as [[<- <-]|[_ Hb']]; [|exact (HL b' lf Hb')].
  intros _. cbn. eauto.
Qed.

(** ** [map_frame] *)

Section map_frame.
Context (s : AddressSpace * machine) (L : gmap Z leaf) (H : Z → Z) (va p i f : Z).

(** On every branch the frame's handle is used up: it becomes the leaf's
    reference, or it is dropped. *)
Definition map_frame_error (e : XError) : Prop :=
  ¬ range_ok s.1 va 4096 Size4K ∧ e = InvalidInput ∨
  range_ok s.1 va 4096 Size4K ∧
    (leaf_find L va ≠ None ∧ e = AlreadyExists ∨ pte_flags Alloc f = Err e ∨ e = NoMemory).
Definition map_frame_post (r : outcome XError ()) (s' : AddressSpace * machine) : Prop :=
  as_range s'.1 = as_range s.1 ∧ m_mem s'.2 = m_mem s.2 ∧ m_reserve s'.2 = m_reserve s.2 ∧
  ∃ T', match r with
    | Ok _ => ∃ f', pte_flags Alloc f = Ok f' ∧ range_ok s.1 va 4096 Size4K ∧
        leaf_find L va = None ∧ hd_error (m_tlb s'.2) = Some va ∧
        as_inv s' (<[va := Leaf p (readback f') Size4K]> L) T' (fupd H i (H i - 1))
    | Err e => as_inv s' L T' (fupd H i (H i - 1)) ∧ map_frame_error e
    | Panic => False
    end.
End map_frame.

Lemma map_frame_spec s L T H va p i f :
  as_inv s L T H → metadata p = Some i → others i < H i → 0 ≤ va →
  wp (map_frame va (MkFrame p) f) s (map_frame_post s L H va p i f).
Proof.
  intros Hinv Hp Hi Hva. unfold map_frame. wp_step.
  assert (∀ e s' T', as_inv s' L T' H → as_range s'.1 = as_range s.1 →
    m_mem s'.2 = m_mem s.2 → m_reserve s'.2 = m_reserve s.2 → map_frame_error s L va f e →
    wp (on_machine (frame_drop (MkFrame p));; throw (A:=()) e) s' (map_frame_post s L H va p i f))
    as Herr.
  { intros e s' T' Hinv' Hr Hm Hres He. wp_step.
    eapply wp_mono; [by eapply as_drop|]. intros r s'' (-> & Hs & Hinv'' & Hsm & Hsr & _).
    wp_step. unfold map_frame_post. rewrite Hs, Hsm, Hsr. split_and!; try done. by exists T'. }
  wp_step. wp_step. wp_step. wp_step. rewrite validate_range_spec by done.
  change (page_bytes Size4K) with 4096. case_decide as Hok; [|by eapply Herr; eauto; left].
  assert (vaddr_is_valid va = true) as Hv.
  { apply (ai_valid _ _ _ _ Hinv). destruct Hok as (? & ? & ? & ? & ? & ?). lia. }
  cbn [fst]. rewrite (query_ok_spec s L T H) by done.
  case_bool_decide as Hq; [wp_step; eapply Herr; eauto; right; eauto|].
  wp_step. wp_step.
  destruct (pte_flags Alloc f) as [f'|e|] eqn:Hf; [|eapply Herr; eauto; right; eauto|].
  2: { exfalso. revert Hf. unfold pte_flags. by repeat case_match. }
  apply pte_flags_leaf in Hf as Hf'. destruct Hf' as [Hleaf Halloc].
  rewrite bool_decide_eq_true_2 in Halloc by done.
  destruct (frame_phys p i Hp) as [Hpal Hpr]. destruct Hok as (Hok1 & Hok2 & Hok3 & Hok4 & Hok5 & Hok6).
  wp_step. wp_step. unfold on_table_alloc. wp_step.
  eapply wp_mono; [apply (pt_map_spec _ L T); try done; [apply Hinv|apply Hinv]|].
  intros r [t' a'] (N & HN & Hused & Hr). cbn [fst snd] in *.
  destruct r as [[]|e|]; [| |done]; cbn [map_err].
  - destruct Hr as [Hrep Hno]. unfold flush, on_machine. wp_steps. cbn.
    rewrite Z.eqb_refl. unfold map_frame_post. split_and!; try done. exists (N ∪ T), f'. split_and!; try done.
    eapply (as_inv_machine (_, _)); [eapply (as_inv_grow s L T H); try done|done..].
    + intros j. rewrite own_count_insert.
      * rewrite (owns_leaf p f' i j) by done. rewrite fupd_case.
        case_bool_decide; [rewrite decide_True by done; subst; lia|rewrite decide_False by done; lia].
      * destruct (L !! va) as [lf|] eqn:Hl; [|done]. exfalso. apply (Hno va lf Hl).
        pose proof (page_bytes_pos (lf_size lf)). unfold leaf_meets. cbn. lia.
    + intros j. pose proof (ai_handles _ _ _ _ Hinv j). rewrite fupd_case. case_decide; subst; lia.
    + by eapply alloc_insert; [|apply Hinv].
  - destruct Hr as [Hrep He]. rewrite He by done. eapply (Herr _ _ (N ∪ T)); try done.
    + eapply as_inv_grow; try done; apply Hinv.
    + right. split; [done|]. right. by right.
Qed.

Lemma as_inv_ext s L T H H' : (∀ i, H i = H' i) → as_inv s L T H → as_inv s L T H'.
Proof.
  intros HH [? ? ? ? Hc Hh ? ? ? [? ? Hx ?]]. split; try done; [..|split; try done]; intros i; rewrite <- HH; auto.
Qed.
Lemma pte_flags_no_panic kind f : pte_flags kind f ≠ Panic.
Proof. unfold pte_flags. by repeat case_match. Qed.

(** Finding the leaf of a page-aligned address. *)
Lemma as_query_spec s L T H a :
  as_inv s L T H → vaddr_is_valid a = true →
  pt_query (as_table s.1) a =
    match leaf_find L a with
    | Some (b, lf) => Ok (lf_paddr lf + (a - b), lf_flags lf, lf_size lf)
    | None => Err Paging.NotMapped
    end.
Proof. intros Hinv Hv. by apply (pt_query_spec _ _ _ _ (ai_rep _ _ _ _ Hinv)). Qed.
Lemma find_4k L a b lf :
  leaf_find L a = Some (b, lf) → lf_size lf = Size4K → a mod 4096 = 0 → b mod 4096 = 0 → b = a.
Proof.
  intros [_ Hb]%leaf_find_covers Hsz Ha Hbal. rewrite Hsz in Hb. cbn in Hb.
  pose proof (aligned_lt_step b a 4096 ltac:(lia) Hbal Ha). lia.
Qed.
Lemma find_base s L T H a b lf :
  as_inv s L T H → leaf_find L a = Some (b, lf) → L !! b = Some lf ∧ b mod 4096 = 0.
Proof.
  intros Hinv [Hb _]%leaf_find_covers. split; [done|].
  destruct (lw_base _ _ _ (as_inv_wf _ _ _ _ Hinv) _ _ Hb) as [Hal _]. by eapply aligned_4k.
Qed.

(** ** [replace_frame] *)

Lemma replace_frame_spec s L T H va pe p i f :
  as_inv s L T H → metadata p = Some i → others i < H i → 0 ≤ va →
  vaddr_is_valid (va - va mod 4096) = true →
  wp (replace_frame va (MkFrame pe) (MkFrame p) f) s (λ r s',
    as_range s'.1 = as_range s.1 ∧ m_mem s'.2 = m_mem s.2 ∧ m_reserve s'.2 = m_reserve s.2 ∧
    match r with
    | Ok _ => ∃ lf f', pte_flags Alloc f = Ok f' ∧ L !! (va - va mod 4096) = Some lf ∧
        lf_paddr lf = pe ∧ is_alloc lf = true ∧
        as_inv s' (<[va - va mod 4096 := Leaf p (readback f') Size4K]> L) T (fupd H i (H i - 1))
    | Err e => as_inv s' L T (fupd H i (H i - 1))
    | Panic => False
    end).
Proof.
  intros Hinv Hp Hi Hva Hv. unfold replace_frame. wp_step.
  rewrite (align_down_spec Size4K) by done. change (page_bytes Size4K) with 4096.
  set (a := va - va mod 4096) in *. set (Q := λ r s', _ ∧ _).
  assert (∀ e, wp (on_machine (frame_drop (MkFrame p));; throw (A:=()) e) s Q) as Herr.
  { intros e. wp_step. eapply wp_mono; [by eapply as_drop|].
    intros r s'' (-> & Hs & Hinv'' & Hsm & Hsr & _). wp_step. unfold Q. rewrite Hs. done. }
  wp_step. wp_step. wp_step. wp_step. cbn [fst]. rewrite (as_query_spec s L T H) by done.
  destruct (leaf_find L a) as [[b lf]|] eqn:Hfind; [|apply Herr]. cbn [map_err].
  destruct (find_base _ _ _ _ _ _ _ Hinv Hfind) as [Hb Hbal].
  destruct (negb (_ =? _) || _ || _) eqn:Hchk; [wp_step; apply Herr|].
  apply orb_false_iff in Hchk as [[Hm Hsz]%orb_false_iff Ha].
  apply negb_false_iff in Hm, Hsz, Ha. apply Z.eqb_eq in Hm. apply bool_decide_eq_true in Hsz.
  assert (b = a) as ->.
  { eapply find_4k; [done|done| |done]. by apply align_down_aligned. }
  replace (lf_paddr lf + (a - a)) with (lf_paddr lf) in * by lia. cbn [f_paddr] in *.
  wp_step. wp_step. destruct (pte_flags Alloc f) as [f'|e|] eqn:Hf;
    [|apply Herr|by apply pte_flags_no_panic in Hf].
  apply pte_flags_leaf in Hf as Hf'. destruct Hf' as [Hleaf Halloc].
  rewrite bool_decide_eq_true_2 in Halloc by done.
  destruct (frame_phys p i Hp) as [Hpal Hpr].
  wp_step. wp_step. unfold on_table. wp_step.
  eapply wp_mono; [eapply (pt_remap_spec _ L T _ a lf); try done; [apply Hinv|by rewrite Hsz]|].
  intros r t' [-> Hrep]. rewrite Hsz in Hrep. cbn [map_err]. unfold flush, on_machine. wp_steps.
  cbn [snd fst]. rewrite Z.eqb_refl. cbn [assert]. cbn beta iota.
  destruct (ai_alloc _ _ _ _ Hinv a lf Hb Ha) as [_ [j Hj]].
  set (H' := λ k, H k + (if decide (k = j) then 1 else 0) - (if decide (k = i) then 1 else 0)).
  set (m1 := tlb_flush a s.2).
  assert (as_inv (MkAddressSpace (as_range s.1) t', m1)
    (<[a := Leaf p (readback f') Size4K]> L) T H') as Hinv'.
  { eapply (as_inv_machine (_, _)); [eapply (as_inv_table s L T H); try done|done..].
    - intros k. rewrite (own_count_replace L a lf) by done. rewrite (owns_leaf p f' i k) by done.
      unfold owns. unfold is_alloc. rewrite Ha, Hj. cbn. unfold H'.
      repeat case_bool_decide; repeat case_decide; simplify_eq; lia.
    - intros k. pose proof (ai_handles _ _ _ _ Hinv k). unfold H'.
      repeat case_decide; subst; lia.
    - by eapply alloc_insert; [|apply Hinv]. }
  assert (others j < H' j) as Hj1.
  { pose proof (ai_handles _ _ _ _ Hinv j). unfold H'. repeat case_decide; subst; lia. }
  assert (m_refs m1 j ≠ 0) as Hlive.
  { pose proof (ai_count _ _ _ _ Hinv' j) as Hc. cbn [snd] in Hc.
    pose proof (own_count_nonneg (<[a := Leaf p (readback f') Size4K]> L) j). pose proof (ai_handles _ _ _ _ Hinv' j). lia. }
  wp_steps. eapply wp_eq; [by apply (frame_take_from_pte_spec m1 _ j)|]. cbn [unwrap].
  eapply wp_mono; [by eapply (as_drop (_, m1) _ _ _ _ j Hinv')|].
  intros r s'' (-> & Hs & Hinv'' & Hsm & Hsr & _). unfold Q. rewrite Hs, Hsm, Hsr.
  split_and!; try done. exists lf, f'. split_and!; try done. eapply as_inv_ext; [|exact Hinv''].
  intros k. rewrite !fupd_case. unfold H'. repeat case_decide; subst; lia.
Qed.

(** ** [preflight_range] *)

(** The leaves of the range are all of the expected kind and size, and none
    sticks out of it. *)
Definition leaf_fits (start fin : Z) (kind : FrameKind) (ps : PageSize) (b : Z) (lf : leaf) : Prop :=
  start ≤ b ∧ b + page_bytes (lf_size lf) ≤ fin ∧
  kind_from_flags (lf_flags lf) = kind ∧ lf_size lf = ps.
Definition range_fits (L : gmap Z leaf) (start fin : Z) (kind : FrameKind) (ps : PageSize) : Prop :=
  ∀ b lf, L !! b = Some lf → leaf_meets start fin b lf → leaf_fits start fin kind ps b lf.

Lemma preflight_visit_acc m start fin kind ps n e v :
  preflight_visit m start fin kind ps (n, e) v =
    (n + 1, match (preflight_visit m start fin kind ps (0, None) v).2 with
            | Some x => Some x | None => e end).
Proof.
  destruct v as [[[b p] f] ps']. unfold preflight_visit.
  destruct (checked_add b _); [|done]. repeat (case_match; try done).
Qed.
Lemma preflight_fold m start fin kind ps vs n e :
  ∃ e', foldl (preflight_visit m start fin kind ps) (n, e) vs = (n + Z.of_nat (length vs), e') ∧
    (e' = None ↔ e = None ∧
       ∀ v, v ∈ vs → (preflight_visit m start fin kind ps (0, None) v).2 = None).
Proof.
  revert n e. induction vs as [|v vs IH]; intros n e.
  - exists e. cbn. split; [f_equal; lia|]. split; [|naive_solver]. intros ->. split; [done|].
    intros v Hv. by apply elem_of_nil in Hv.
  - cbn [foldl]. rewrite preflight_visit_acc.
    destruct (IH (n + 1) (match (preflight_visit m start fin kind ps (0, None) v).2 with
            | Some x => Some x | None => e end)) as (e' & -> & He').
    exists e'. split; [f_equal; cbn [length]; lia|]. rewrite He'. setoid_rewrite elem_of_cons.
    destruct (preflight_visit m start fin kind ps (0, None) v).2 eqn:Hv; [|naive_solver].
    split; [naive_solver|]. intros [_ Hall]. specialize (Hall v (or_introl eq_refl)). naive_solver.
Qed.
Lemma validate_pte_live m p i :
  metadata p = Some i → m_refs m i ≠ 0 → frame_validate_pte p m = (Ok (), m).
Proof.
  intros Hp Hi. unfold frame_validate_pte, frame_live_metadata, metadata_res,
    mbind, prog_bind, lift, gets. rewrite Hp. cbn. by rewrite (proj2 (Z.eqb_neq _ _) Hi).
Qed.
Lemma preflight_visit_ok s L T H start fin kind ps b p f ps' :
  as_inv s L T H → fin ≤ usize_max → L !! b = Some (Leaf p f ps') →
  (preflight_visit s.2 start fin kind ps (0, None) (b, p, f, ps')).2 = None ↔
  leaf_fits start fin kind ps b (Leaf p f ps').
Proof.
  intros Hinv Hfin Hb. destruct (lw_base _ _ _ (as_inv_wf _ _ _ _ Hinv) _ _ Hb) as (_ & Hb0 & _).
  unfold preflight_visit, leaf_fits. pose proof (page_bytes_pos ps'). cbn in Hb0 |- *.
  rewrite checked_add_spec by lia.
  destruct (Z.leb_spec (b + page_bytes ps') usize_max); [|split; [done|intros (? & ? & _); lia]].
  destruct (Z.ltb_spec b start); cbn [orb]; [split; [done|intros (? & _); lia]|].
  destruct (Z.ltb_spec fin (b + page_bytes ps')); [split; [done|intros (_ & ? & _); lia]|].
  case_bool_decide as Hk; cbn [negb orb]; [|by split; [|intros (_ & _ & ? & _)]].
  case_bool_decide as Hsz; cbn [negb]; [|by split; [|intros (_ & _ & _ & ?)]].
  case_bool_decide as Ha; [|done]. subst kind.
  assert (is_alloc (Leaf p f ps') = true) as Hal.
  { unfold kind_from_flags in Ha. unfold is_alloc. cbn. by destruct (contains f ALLOC_FRAME). }
  destruct (ai_alloc _ _ _ _ Hinv b _ Hb Hal) as [_ [i Hi]]. cbn in Hi.
  rewrite (validate_pte_live _ _ i Hi); [done|]. by eapply (leaf_live s L T H b).
Qed.

Lemma preflight_spec s L T H start size kind ps :
  as_inv s L T H → 0 ≤ start → 0 ≤ size →
  ∃ r, preflight_range start size kind ps s = (r, s) ∧
    match r with
    | Ok n => range_ok s.1 start size ps ∧ range_fits L start (start + size) kind ps ∧
        ∃ vs, pt_walk_leaf_range (as_table s.1) start size = Ok vs ∧ n = Z.of_nat (length vs)
    | Err e => ¬ range_ok s.1 start size ps ∧ e = InvalidInput ∨
        range_ok s.1 start size ps ∧ ¬ range_fits L start (start + size) kind ps
    | Panic => False
    end.
Proof.
  intros Hinv Hst Hsz. unfold preflight_range, mbind, prog_bind, gets, lift. cbn.
  rewrite validate_range_spec by done.
  case_decide as Hok; [|eexists; split; [done|]; by left].
  destruct Hok as (Hok1 & Hok2 & Hok3 & Hok4 & Hok5 & Hok6).
  rewrite checked_add_ok by (done || lia). cbn.
  destruct (pt_walk_spec _ _ _ start size (ai_rep _ _ _ _ Hinv)) as (vs & -> & _ & Hvs); try done.
  cbn. destruct (preflight_fold s.2 start (start + size) kind ps vs 0 None) as (e' & -> & He').
  assert (e' = None ↔ range_fits L start (start + size) kind ps) as Hfits.
  { rewrite He'. split.
    - intros [_ Hall] b [p f ps'] Hb Hm.
      by apply (preflight_visit_ok s L T H), Hall, Hvs.
    - intros Hf. split; [done|]. intros [[[b p] f] ps'] [Hb Hm]%Hvs.
      apply (preflight_visit_ok s L T H); auto. }
  destruct e' as [e|]; cbn; eexists; (split; [reflexivity|]); cbn.
  - right. split; [done|]. rewrite <- Hfits. done.
  - split; [done|]. split; [by apply Hfits|]. by exists vs.
Qed.

(** ** [unmap_range] *)

Definition without (L : gmap Z leaf) (bs : list Z) : gmap Z leaf :=
  filter (λ kv, kv.1 ∉ bs) L.
(** The leaves based outside [start, fin). *)
Definition outside (start fin : Z) (L : gmap Z leaf) : gmap Z leaf :=
  filter (λ kv, ¬ (start ≤ kv.1 < fin)) L.

Lemma without_lookup L bs b lf :
  without L bs !! b = Some lf ↔ L !! b = Some lf ∧ b ∉ bs.
Proof. apply map_lookup_filter_Some. Qed.
Lemma without_delete L bs x : delete x (without L bs) = without L (bs ++ [x]).
Proof.
  apply map_eq. intros b. apply option_eq. intros lf.
  rewrite lookup_delete_Some, !without_lookup, not_elem_of_app, list_elem_of_singleton. naive_solver.
Qed.
Lemma without_none L bs x : without L bs !! x = None → without L (bs ++ [x]) = without L bs.
Proof. intros Hx. rewrite <- without_delete. by apply delete_id. Qed.
Lemma without_range L start fin bs :
  (∀ b lf, L !! b = Some lf → b ∈ bs ↔ start ≤ b < fin) → without L bs = outside start fin L.
Proof.
  intros Hbs. apply map_filter_ext. intros b lf Hb. cbn. by rewrite (Hbs b lf Hb).
Qed.

Lemma alloc_ok_delete L b : alloc_ok L → alloc_ok (delete b L).
Proof. intros HL b' lf [_ Hb']%lookup_delete_Some. exact (HL b' lf Hb'). Qed.
Lemma kind_alloc lf : kind_from_flags (lf_flags lf) = Alloc → is_alloc lf = true.
Proof. unfold kind_from_flags, is_alloc. by destruct (contains _ _). Qed.

(** Removing one leaf and releasing its frame. *)
Lemma unmap_one s L T H kind ps x bs :
  as_inv s (without L bs) T H → vaddr_is_valid x = true →
  (∀ b lf, leaf_find (without L bs) x = Some (b, lf) →
     b = x ∧ kind_from_flags (lf_flags lf) = kind ∧ lf_size lf = ps) →
  wp (attempt (on_table (pt_unmap x)) (λ r,
      match r with
      | Ok (physical, actual_size) =>
          lift (assert (bool_decide (actual_size = ps)));;
          flush x;;
          if bool_decide (kind = Alloc) then
            frame ← on_machine (unwrap_prog (frame_take_from_pte physical));
            on_machine (frame_drop frame)
          else mret ()
      | Err Paging.NotMapped => mret ()
      | _ => panic
      end)) s (λ r s', r = Ok (E := XError) () ∧ as_range s'.1 = as_range s.1 ∧
        m_mem s'.2 = m_mem s.2 ∧ m_reserve s'.2 = m_reserve s.2 ∧
        m_tlb s.2 ⊆ m_tlb s'.2 ∧ (is_Some (without L bs !! x) → x ∈ m_tlb s'.2) ∧
        as_inv s' (without L (bs ++ [x])) T H).
Proof.
  intros Hinv Hv Hfit. wp_step. unfold on_table. wp_step.
  eapply wp_mono; [apply (pt_unmap_spec _ _ _ _ (ai_rep _ _ _ _ Hinv) Hv)|].
  intros r t'. destruct (leaf_find (without L bs) x) as [[b lf]|] eqn:Hfind.
  - intros [-> Hrep]. destruct (Hfit b lf eq_refl) as (-> & Hk & Hsz).
    destruct (find_base _ _ _ _ _ _ _ Hinv Hfind) as [Hb _].
    cbn beta iota. rewrite (bool_decide_eq_true_2 (lf_size lf = ps)) by done. rewrite without_delete in Hrep.
    unfold flush, on_machine. wp_steps. cbn [fst snd].
    set (s1 := (MkAddressSpace (as_range s.1) t', tlb_flush x s.2)).
    case_bool_decide as Ha.
    + rewrite Ha in Hk. pose proof (kind_alloc lf Hk) as Hal.
      destruct (ai_alloc _ _ _ _ Hinv x lf Hb Hal) as [_ [i Hi]].
      assert (as_inv s1 (without L (bs ++ [x])) T (fupd H i (H i + 1))) as Hinv1.
      { eapply (as_inv_machine (_, _)); [eapply (as_inv_table s _ T H); try done|done..].
        - intros k. rewrite <- without_delete, (own_count_delete _ x lf) by done.
          unfold owns. rewrite Hal, Hi, fupd_case. cbn.
          case_bool_decide; case_decide; simplify_eq; lia.
        - intros k. pose proof (ai_handles _ _ _ _ Hinv k). rewrite fupd_case.
          case_decide; [subst; lia|done].
        - rewrite <- without_delete. apply alloc_ok_delete, Hinv. }
      wp_steps. eapply wp_eq; [apply (frame_take_from_pte_spec _ _ i Hi)|].
      { eapply (leaf_live s _ T H x); try done. }
      cbn [unwrap]. eapply wp_mono; [eapply (as_drop s1 _ _ _ _ i Hinv1 Hi)|].
      { rewrite fupd_eq. pose proof (ai_handles _ _ _ _ Hinv i). lia. }
      intros r s' (-> & Hs & Hinv' & Hm & Hr & Ht). rewrite Hs, Hm, Hr, Ht. cbn [snd s1 tlb_flush m_tlb].
      split_and!; try done; [set_solver|set_solver|].
      eapply as_inv_ext; [|exact Hinv']. intros k. rewrite !fupd_case.
      repeat case_decide; subst; lia.
    + wp_steps. cbn [snd s1 tlb_flush m_tlb]. split_and!; try done; [set_solver|set_solver|].
      eapply (as_inv_machine (_, _)); [eapply (as_inv_table s _ T H); try done|done..].
      * intros k. rewrite <- without_delete, (own_count_delete _ x lf) by done.
        unfold owns. destruct (is_alloc lf) eqn:Hal; cbn; [|lia].
        exfalso. apply Ha. rewrite <- Hk. unfold kind_from_flags. unfold is_alloc in Hal. by rewrite Hal.
      * apply Hinv.
      * rewrite <- without_delete. apply alloc_ok_delete, Hinv.
  - intros [-> Hrep]. wp_step.
    assert (without L bs !! x = None) as Hx.
    { destruct (without L bs !! x) as [lf|] eqn:Hx; [|done].
      apply (leaf_find_None (as_inv_wf _ _ _ _ Hinv)) with (b := x) (lf := lf) in Hfind.
      exfalso. apply Hfind. split; [done|]. pose proof (page_bytes_pos (lf_size lf)). lia. }
    rewrite without_none by done. split_and!; try done.
    + by rewrite Hx; intros [? ?].
    + eapply (as_inv_table s _ T H); try done; apply Hinv.
Qed.

(** The page iterator over a validated range. *)
Lemma page_addresses_ok aspace start size ps :
  range_ok aspace start size ps → 0 ≤ start →
  page_addresses start (start + size) ps = Ok (pages (page_bytes ps) start (start + size)).
Proof.
  intros (Hok1 & Hok2 & Hok3 & _) Hst. unfold page_addresses. rewrite page_iter_spec by lia.
  rewrite Hok2, mod_add_aligned, Hok3 by (done || apply page_bytes_pos). done.
Qed.
Lemma range_pages aspace start size ps a :
  range_ok aspace start size ps →
  a ∈ pages (page_bytes ps) start (start + size) ↔ start ≤ a < start + size ∧ a mod page_bytes ps = 0.
Proof.
  intros (Hok1 & Hok2 & Hok3 & _). apply elem_of_pages; [apply page_bytes_pos|done|].
  rewrite mod_add_aligned by (done || apply page_bytes_pos). done.
Qed.
(** In a range that fits, the leaf of a page address is based there. *)
Lemma fits_find s L T H start fin kind ps bs x b lf :
  as_inv s (without L bs) T H → range_fits L start fin kind ps →
  start ≤ x < fin → x mod page_bytes ps = 0 →
  leaf_find (without L bs) x = Some (b, lf) →
  b = x ∧ kind_from_flags (lf_flags lf) = kind ∧ lf_size lf = ps.
Proof.
  intros Hinv Hfit Hx Hal Hfind. apply leaf_find_covers in Hfind as [Hb Hc].
  pose proof (lw_base _ _ _ (as_inv_wf _ _ _ _ Hinv) _ _ Hb) as (Hbal & _).
  apply without_lookup in Hb as [Hb _].
  destruct (Hfit b lf Hb) as (Hlo & Hhi & Hk & Hsz); [split; lia|].
  split; [|done]. rewrite Hsz in *.
  pose proof (aligned_lt_step b x _ (page_bytes_pos ps) Hbal Hal). lia.
Qed.

Lemma unmap_range_spec s L T H start size kind ps :
  as_inv s L T H → 0 ≤ start → 0 ≤ size →
  wp (unmap_range start size kind ps) s (λ r s',
    as_range s'.1 = as_range s.1 ∧ m_mem s'.2 = m_mem s.2 ∧ m_reserve s'.2 = m_reserve s.2 ∧
    match r with
    | Ok _ => range_ok s.1 start size ps ∧ range_fits L start (start + size) kind ps ∧
        as_inv s' (outside start (start + size) L) T H ∧
        (∀ b, is_Some (L !! b) → start ≤ b < start + size → b ∈ m_tlb s'.2)
    | Err e => s' = s ∧ (¬ range_ok s.1 start size ps ∧ e = InvalidInput ∨
        range_ok s.1 start size ps ∧ ¬ range_fits L start (start + size) kind ps)
    | Panic => False
    end).
Proof.
  intros Hinv Hst Hsz. unfold unmap_range. wp_step.
  destruct (preflight_spec s L T H start size kind ps) as (r & Hpre & Hr); try done.
  eapply wp_eq; [exact Hpre|]. destruct r as [n|e|]; [|done|done].
  destruct Hr as (Hok & Hfit & _).
  assert (∀ b lf, L !! b = Some lf →
    b ∈ pages (page_bytes ps) start (start + size) ↔ start ≤ b < start + size) as Hpages.
  { intros b lf Hb. rewrite (range_pages s.1) by done. split; [by intros [? _]|]. intros Hb'.
    split; [done|]. destruct (Hfit b lf Hb) as (_ & _ & _ & <-).
    { pose proof (page_bytes_pos (lf_size lf)). split; lia. }
    by destruct (lw_base _ _ _ (as_inv_wf _ _ _ _ Hinv) _ _ Hb). }
  wp_step. wp_step. rewrite checked_add_ok by (done || apply Hok). cbn [ok_or].
  wp_step. wp_step. rewrite (page_addresses_ok s.1) by done.
  apply (wp_for_each (λ pre s', as_range s'.1 = as_range s.1 ∧ m_mem s'.2 = m_mem s.2 ∧
    m_reserve s'.2 = m_reserve s.2 ∧ as_inv s' (without L pre) T H ∧
    ∀ b, is_Some (L !! b) → b ∈ pre → b ∈ m_tlb s'.2)).
  - split_and!; try done.
    + replace (without L []) with L; [done|]. symmetry. apply map_filter_id. intros; set_solver.
    + intros b _ Hb. by apply elem_of_nil in Hb.
  - intros pre x suf s1 Heq (Hr1 & Hm1 & Hres1 & Hinv1 & Htlb).
    assert (x ∈ pages (page_bytes ps) start (start + size)) as Hx by (rewrite Heq; set_solver).
    apply (range_pages s.1) in Hx as [Hx Hal]; [|done].
    assert (vaddr_is_valid x = true) as Hv.
    { apply (ai_valid _ _ _ _ Hinv). destruct Hok as (_ & _ & _ & _ & ? & ?). lia. }
    eapply wp_mono; [apply (unmap_one s1 L T H kind ps x pre); try done|].
    { intros b lf. by eapply fits_find. }
    intros r s2 (-> & Hr2 & Hm2 & Hres2 & Hsub & Hin & Hinv2).
    rewrite Hr2, Hm2, Hres2. split_and!; try done. intros b Hb [Hb'|Hb']%elem_of_app.
    + apply Hsub. auto.
    + apply list_elem_of_singleton in Hb' as ->. destruct (decide (x ∈ pre)); [apply Hsub; auto|].
      apply Hin. destruct Hb as [lf Hb]. exists lf. by apply without_lookup.
  - intros s1 (Hr1 & Hm1 & Hres1 & Hinv1 & Htlb). split_and!; try done.
    + by rewrite <- (without_range L start (start + size) _ Hpages).
    + intros b [lf Hb] Hb'. apply Htlb; [by exists lf|]. by apply (Hpages b lf).
Qed.
End inv.
