(* ===== verification/AspaceTxn.v ===== *)
(** * Protection changes and their rollback

    [ProtectionTransaction] of aspace.rs: every change is journalled before it
    is applied, and an uncommitted transaction restores the journal in
    reverse. The invariant below relates the journal to the leaves before and
    after, so that the drop gives back exactly the leaves the transaction
    began with. Single-page protection and the snapshots follow. *)
From S2P Require Import Prelude Errno MemAddr Frame PageTable AddressSpace AspaceInv.
From stdpp Require Import prelude gmap list sorting.
Open Scope Z_scope.

Section txn.
Context {CFG : Config} {PA : PageAllocator} {BF : BitFlags} {MA : MemoryAddr} {PT : PageTable}.
Context {PF : PhysFits} {FT : Foreign}.
Implicit Types (L : gmap Z leaf) (T : gset Z) (H : Z → Z).

Definition set_leaf_flags (f : Z) (lf : leaf) : leaf :=
  Leaf (lf_paddr lf) (readback f) (lf_size lf).

(** States that differ at most in the table, the TLB log and the outcomes of
    future reservations. *)
Definition quiet (s s' : AddressSpace * machine) : Prop :=
  as_range s'.1 = as_range s.1 ∧ m_mem s'.2 = m_mem s.2 ∧ m_refs s'.2 = m_refs s.2 ∧
  m_alloc s'.2 = m_alloc s.2.
Lemma same_mem_trans m m' m'' : same_mem m m' → same_mem m' m'' → same_mem m m''.
Proof.
  intros (H1 & H2 & H3) (H1' & H2' & H3'). unfold same_mem. by rewrite H1', H2', H3'.
Qed.
Lemma quiet_refl s : quiet s s.
Proof. done. Qed.
Lemma quiet_trans s s' s'' : quiet s s' → quiet s' s'' → quiet s s''.
Proof.
  intros (H1 & H2 & H3 & H4) (H1' & H2' & H3' & H4').
  unfold quiet. by rewrite H1', H2', H3', H4'.
Qed.

Lemma alter_leaf L x f lf :
  L !! x = Some lf → alter (set_leaf_flags f) x L = <[x := set_leaf_flags f lf]> L.
Proof.
  intros Hx. apply map_eq. intros b. destruct (decide (b = x)) as [->|Hne].
  - by rewrite lookup_alter_eq, lookup_insert_eq, Hx.
  - by rewrite lookup_alter_ne, lookup_insert_ne.
Qed.

(** Protecting the leaf based at [x]. *)
Lemma protect_one s L T H x lf f :
  as_inv s L T H → L !! x = Some lf → leaf_flags f →
  contains f ALLOC_FRAME = is_alloc lf →
  wp (on_table (pt_protect x f)) s (λ r s', r = Ok (lf_size lf) ∧ quiet s s' ∧
    m_tlb s'.2 = m_tlb s.2 ∧ as_inv s' (alter (set_leaf_flags f) x L) T H).
Proof.
  intros Hinv Hx Hf Ha. pose proof (pt_rep_valid _ _ _ _ _ (ai_rep _ _ _ _ Hinv) Hx) as Hv.
  assert (leaf_find L x = Some (x, lf)) as Hfind.
  { apply (leaf_find_Some (as_inv_wf _ _ _ _ Hinv)). split; [done|].
    pose proof (page_bytes_pos (lf_size lf)). lia. }
  unfold on_table. wp_step.
  eapply wp_mono; [apply (pt_protect_spec _ _ _ _ f (ai_rep _ _ _ _ Hinv) Hv Hf)|].
  intros r t'. rewrite Hfind. intros [-> Hrep]. split; [done|]. split; [done|]. split; [done|].
  rewrite (alter_leaf L x f lf) by done.
  assert (is_alloc (set_leaf_flags f lf) = is_alloc lf) as Hal.
  { unfold is_alloc, set_leaf_flags in *. cbn. by rewrite readback_alloc. }
  eapply (as_inv_table s L T H); try done.
  - intros i. rewrite (own_count_replace L x lf) by done. unfold owns at 2. rewrite Hal. cbn.
    fold (owns i lf). lia.
  - apply Hinv.
  - intros b lf' Hb Hb'. apply lookup_insert_Some in Hb as [[<- <-]|[_ Hb]].
    + rewrite Hal in Hb'. exact (ai_alloc _ _ _ _ Hinv x lf Hx Hb').
    + exact (ai_alloc _ _ _ _ Hinv b lf' Hb Hb').
Qed.

(** ** The journal *)

Inductive journal (L : gmap Z leaf) : list ProtectionChange → gmap Z leaf → Prop :=
| journal_nil : journal L [] L
| journal_snoc cs L1 c lf :
    journal L cs L1 → L1 !! pc_address c = Some lf → lf_flags lf = pc_old_flags c →
    leaf_flags (pc_new_flags c) → contains (pc_new_flags c) ALLOC_FRAME = is_alloc lf →
    journal L (cs ++ [c]) (alter (set_leaf_flags (pc_new_flags c)) (pc_address c) L1).

Definition txn_inv (t : txn_state) (L0 L : gmap Z leaf) (T : gset Z) (H : Z → Z) : Prop :=
  as_inv t.2 L T H ∧ journal L0 t.1 L.

(** Applying one journalled change, forwards and backwards. *)
Lemma apply_change_spec s L T H flags_of c lf :
  as_inv s L T H → L !! pc_address c = Some lf → leaf_flags (flags_of c) →
  contains (flags_of c) ALLOC_FRAME = is_alloc lf →
  wp (apply_change flags_of c) s (λ r s', r = Ok () ∧ quiet s s' ∧
    as_inv s' (alter (set_leaf_flags (flags_of c)) (pc_address c) L) T H).
Proof.
  intros Hinv Hx Hf Ha. unfold apply_change. wp_step. wp_step.
  eapply wp_mono; [by eapply protect_one|]. intros r s' (-> & Hq & _ & Hinv').
  cbn [unwrap]. unfold flush, on_machine. wp_steps. split; [done|]. split; [done|].
  by eapply (as_inv_machine s').
Qed.

(** ** Rollback *)

Lemma journal_inv_snoc L0 cs c L :
  journal L0 (cs ++ [c]) L →
  ∃ L1 lf, journal L0 cs L1 ∧ L1 !! pc_address c = Some lf ∧ lf_flags lf = pc_old_flags c ∧
    leaf_flags (pc_new_flags c) ∧ contains (pc_new_flags c) ALLOC_FRAME = is_alloc lf ∧
    L = alter (set_leaf_flags (pc_new_flags c)) (pc_address c) L1.
Proof.
  inversion 1 as [Heq|cs' L1 c' lf ? ? ? ? ? Heq]; [by destruct cs|].
  apply app_inj_tail in Heq as [-> ->]. eauto 10.
Qed.
Lemma alter_back L x f lf :
  L !! x = Some lf → readback (lf_flags lf) = lf_flags lf →
  alter (set_leaf_flags (lf_flags lf)) x (alter (set_leaf_flags f) x L) = L.
Proof.
  intros Hx Hr. apply map_eq. intros b. destruct (decide (b = x)) as [->|Hne].
  - rewrite !lookup_alter_eq, Hx. cbn. unfold set_leaf_flags. cbn. rewrite Hr. by destruct lf.
  - by rewrite !lookup_alter_ne by done.
Qed.
(** A leaf from before the transaction that the journal has touched is intact
    apart from its flags, which are well-formed throughout. *)
Definition old_ok (L : gmap Z leaf) : Prop :=
  ∀ b lf, L !! b = Some lf → leaf_flags (lf_flags lf) ∧ readback (lf_flags lf) = lf_flags lf.
Lemma journal_old_ok L0 cs L : old_ok L0 → journal L0 cs L → old_ok L.
Proof.
  intros H0. induction 1 as [|cs L1 c lf Hj IH Hc Hold Hnew Ha]; [done|].
  intros b lf' Hb. apply lookup_alter_Some in Hb as [(<- & lf1 & Hb & ->)|[_ Hb]]; [|exact (IH b lf' Hb)].
  cbn. apply readback_ok. done.
Qed.
Lemma rollback_spec cs s L0 L T H :
  old_ok L0 → as_inv s L T H → journal L0 cs L →
  wp (for_each (reverse cs) (apply_change pc_old_flags)) s (λ r s', r = Ok () ∧ quiet s s' ∧
    as_inv s' L0 T H).
Proof.
  intros H0. revert s L. induction cs as [|c cs IH] using rev_ind; intros s L Hinv Hj.
  { inversion Hj as [Heq|? ? ? ? ? ? ? ? ? Heq]; [|by destruct cs]. subst. by apply wp_ret. }
  rewrite reverse_app. cbn. apply journal_inv_snoc in Hj as (L1 & lf & Hj & Hc & Hold & Hnew & Ha & ->).
  destruct (journal_old_ok _ _ _ H0 Hj _ _ Hc) as [Hf Hr].
  wp_step. eapply wp_mono; [eapply (apply_change_spec s _ T H pc_old_flags c)|]; try done.
  - by rewrite lookup_alter_eq, Hc.
  - by rewrite <- Hold.
  - cbn. rewrite <- Hold. unfold is_alloc. cbn. rewrite readback_alloc by done. by rewrite Ha.
  - intros r s' (-> & Hq & Hinv'). rewrite <- Hold, alter_back in Hinv' by done.
    eapply wp_mono; [by eapply IH|]. intros r s'' (-> & Hq' & Hinv'').
    split; [done|]. split; [by eapply quiet_trans|done].
Qed.

(** ** [protect_range] *)

(** A flag computation that reads the reference counts only. *)
Definition reads_refs (nf : Z → Z → prog machine XError Z) : Prop :=
  ∀ a p m, ∃ r, r ≠ Panic ∧ ∀ m', m_refs m' = m_refs m → nf a p m' = (r, m').

Definition planned (nf : Z → Z → prog machine XError Z) (kind : FrameKind) (m : machine)
    (v : Z * Z * Z * PageSize) (c : ProtectionChange) : Prop :=
  pc_address c = v.1.1.1 ∧ pc_old_flags c = v.1.2 ∧
  ∃ g, (nf v.1.1.1 v.1.1.2 m).1 = Ok g ∧ pte_flags kind g = Ok (pc_new_flags c).

Lemma prepare_changes_spec nf kind vs acc m :
  reads_refs nf →
  ∃ cs err, prepare_changes vs kind nf acc m = (Ok (acc ++ cs, err), m) ∧
    (err = None → Forall2 (planned nf kind m) vs cs).
Proof.
  intros Hnf. revert acc. induction vs as [|[[[b p] f] ps] vs IH]; intros acc; cbn.
  { exists [], None. rewrite app_nil_r. split; [done|]. constructor. }
  unfold attempt, mbind, prog_bind. destruct (Hnf b p m) as (r & Hr & Hm). rewrite (Hm m eq_refl).
  destruct r as [g|e|]; [|by exists [], (Some e); rewrite app_nil_r|done].
  unfold lift. destruct (pte_flags kind g) as [f'|e|] eqn:Hf;
    [|by exists [], (Some e); rewrite app_nil_r|by apply pte_flags_no_panic in Hf].
  destruct (IH (acc ++ [MkChange b f f'])) as (cs & err & -> & Hcs).
  exists (MkChange b f f' :: cs), err. rewrite <- app_assoc. split; [done|].
  intros ->. constructor; [|by apply Hcs]. split; [done|]. split; [done|]. cbn.
  exists g. by rewrite (Hm m eq_refl).
Qed.

(** Applying a plan. *)
Definition apply_plan (cs : list ProtectionChange) L : gmap Z leaf :=
  foldl (λ L c, alter (set_leaf_flags (pc_new_flags c)) (pc_address c) L) L cs.
Lemma apply_plan_other cs L b :
  b ∉ (pc_address <$> cs) → apply_plan cs L !! b = L !! b.
Proof.
  revert L. induction cs as [|c cs IH]; intros L Hb; [done|]. cbn in Hb |- *.
  apply not_elem_of_cons in Hb as [Hne Hb].
  unfold apply_plan in *. cbn. rewrite IH by done. by apply lookup_alter_ne.
Qed.
Lemma apply_plan_here cs L c :
  NoDup (pc_address <$> cs) → c ∈ cs →
  apply_plan cs L !! pc_address c = set_leaf_flags (pc_new_flags c) <$> L !! pc_address c.
Proof.
  revert L. induction cs as [|c' cs IH]; intros L Hnd Hc; [by apply elem_of_nil in Hc|].
  cbn in Hnd. apply NoDup_cons in Hnd as [Hnot Hnd]. unfold apply_plan in *. cbn.
  apply elem_of_cons in Hc as [->|Hc].
  - fold (apply_plan cs (alter (set_leaf_flags (pc_new_flags c')) (pc_address c') L)).
    rewrite apply_plan_other by done. apply lookup_alter_eq.
  - rewrite IH by done. rewrite lookup_alter_ne; [done|].
    intros Heq. apply Hnot. rewrite Heq. by apply list_elem_of_fmap_2.
Qed.

Lemma apply_changes_spec cs s changes L0 L T H :
  as_inv s L T H → journal L0 changes L → NoDup (pc_address <$> cs) →
  (∀ c, c ∈ cs → ∃ lf, L !! pc_address c = Some lf ∧ lf_flags lf = pc_old_flags c ∧
     leaf_flags (pc_new_flags c) ∧ contains (pc_new_flags c) ALLOC_FRAME = is_alloc lf) →
  wp (for_each cs (apply_change pc_new_flags)) s (λ r s', r = Ok () ∧ quiet s s' ∧
    as_inv s' (apply_plan cs L) T H ∧ journal L0 (changes ++ cs) (apply_plan cs L)).
Proof.
  revert s changes L. induction cs as [|c cs IH]; intros s changes L Hinv Hj Hnd Hcs.
  { rewrite app_nil_r. by apply wp_ret. }
  cbn in Hnd. apply NoDup_cons in Hnd as [Hnot Hnd].
  destruct (Hcs c) as (lf & Hc & Hold & Hnew & Ha); [set_solver|].
  cbn [for_each]. wp_step. eapply wp_mono; [by eapply apply_change_spec|].
  intros r s1 (-> & Hq & Hinv1).
  eapply wp_mono; [eapply (IH s1 (changes ++ [c])); [done| |done|]|].
  - by eapply journal_snoc.
  - intros c' Hc'. rewrite lookup_alter_ne.
    + apply Hcs. set_solver.
    + intros Heq. apply Hnot. rewrite Heq. by apply list_elem_of_fmap_2.
  - intros r s2 (-> & Hq' & Hinv2 & Hj2). rewrite <- app_assoc in Hj2.
    split; [done|]. split; [by eapply quiet_trans|done].
Qed.

(** The leaves after a successful [protect_range]: those based in the range
    have the planned flags, the others are untouched. *)
Definition reflagged (nf : Z → Z → prog machine XError Z) (kind : FrameKind) (m : machine)
    (start fin : Z) L L' : Prop :=
  (∀ b, ¬ (start ≤ b < fin) → L' !! b = L !! b) ∧
  (∀ b, L !! b = None → L' !! b = None) ∧
  (∀ b lf, L !! b = Some lf → start ≤ b < fin →
     ∃ g f', (nf b (lf_paddr lf) m).1 = Ok g ∧ pte_flags kind g = Ok f' ∧
       L' !! b = Some (set_leaf_flags f' lf)).

Lemma sorted_addresses_nodup (vs : list (Z * Z * Z * PageSize)) :
  StronglySorted (λ x y, x.1.1.1 < y.1.1.1) vs → NoDup ((λ v, v.1.1.1) <$> vs).
Proof.
  induction 1 as [|v vs Hs IH Hall]; cbn; constructor; [|done].
  intros (w & Heq & Hw)%list_elem_of_fmap. rewrite Forall_forall in Hall.
  specialize (Hall w Hw). lia.
Qed.
Lemma planned_addresses nf kind m vs cs :
  Forall2 (planned nf kind m) vs cs → pc_address <$> cs = (λ v, v.1.1.1) <$> vs.
Proof.
  induction 1 as [|v c vs cs [Ha _] _ IH]; [done|]. by rewrite !fmap_cons, IH, Ha.
Qed.

Lemma plan_reflags nf kind ps m m1 start fin L vs cs :
  reads_refs nf → m_refs m1 = m_refs m → range_fits L start fin kind ps →
  (∀ b p f ps, (b, p, f, ps) ∈ vs ↔
     L !! b = Some (Leaf p f ps) ∧ leaf_meets start fin b (Leaf p f ps)) →
  Forall2 (planned nf kind m1) vs cs → NoDup (pc_address <$> cs) →
  reflagged nf kind m start fin L (apply_plan cs L).
Proof.
  intros Hnf Hm Hfit Hin Hcs Hnd.
  assert (∀ b, b ∈ (pc_address <$> cs) → is_Some (L !! b) ∧ start ≤ b < fin) as Haddr.
  { intros b. rewrite (planned_addresses _ _ _ _ _ Hcs). intros ([[[b' p] f] ps'] & -> & Hv)%list_elem_of_fmap.
    apply Hin in Hv as [Hb Hmeet]. destruct (Hfit _ _ Hb Hmeet) as (? & ? & _).
    cbn in *. split; [by eexists|]. pose proof (page_bytes_pos ps'). lia. }
  split; [|split].
  - intros b Hb. apply apply_plan_other. by intros [_ ?]%Haddr.
  - intros b Hb. rewrite apply_plan_other; [done|]. intros [[lf Hlf] _]%Haddr. congruence.
  - intros b [p f ps'] Hb Hr.
    assert ((b, p, f, ps') ∈ vs) as Hv.
    { apply Hin. split; [done|]. pose proof (page_bytes_pos ps'). split; cbn; lia. }
    apply list_elem_of_lookup in Hv as [k Hk].
    destruct (Forall2_lookup_l _ _ _ _ _ Hcs Hk) as (c & Hc & Ha & _ & g & Hg & Hf). cbn in *.
    exists g, (pc_new_flags c). split; [|split; [done|]].
    + destruct (Hnf b p m) as (r & _ & Hr'). rewrite (Hr' m eq_refl).
      rewrite (Hr' m1 Hm) in Hg. done.
    + rewrite <- Ha, apply_plan_here by (done || by eapply list_elem_of_lookup_2).
      rewrite Ha, Hb. done.
Qed.

Lemma txn_protect_range_spec t L0 L T H start size kind ps n nf :
  txn_inv t L0 L T H → 0 ≤ start → 0 ≤ size → reads_refs nf →
  wp (txn_protect_range start size kind ps n nf) t (λ r t', quiet t.2 t'.2 ∧
    match r with
    | Ok _ => ∃ L', txn_inv t' L0 L' T H ∧ range_ok t.2.1 start size ps ∧
        range_fits L start (start + size) kind ps ∧
        reflagged nf kind t.2.2 start (start + size) L L'
    | Err e => txn_inv t' L0 L T H ∧ t'.1 = t.1 ∧ t'.2.1 = t.2.1
    | Panic => False
    end).
Proof.
  intros [Hinv Hj] Hst Hsz Hnf. destruct t as [changes s]. cbn [fst snd] in *.
  unfold txn_protect_range. wp_step. unfold in_txn at 1. wp_step.
  destruct (preflight_spec s L T H start size kind ps) as (r & Hpre & Hr); try done.
  eapply wp_eq; [exact Hpre|]. destruct r as [k|e|]; cbn [fst snd]; [|by destruct s..].
  destruct Hr as (Hok & Hfit & vs & Hvs & ->).
  destruct (match n with Some _ => _ | None => false end);
    [wp_step; cbn; split; [done|]; split; [split; [by destruct s|done]|by destruct s]|].
  wp_step. unfold in_txn at 1, on_machine at 1. wp_step. wp_step.
  set (m1 := (try_reserve (E := XError) s.2).2).
  assert (as_inv (s.1, m1) L T H ∧ m_refs m1 = m_refs s.2 ∧ m_mem m1 = m_mem s.2 ∧
    m_alloc m1 = m_alloc s.2 ∧ ∃ b, try_reserve (E:=XError) s.2 = (Ok b, m1)) as (Hinv1 & Hm1 & Hm2 & Hm3 & b & Hres).
  { unfold m1, try_reserve. destruct (m_reserve s.2); cbn;
      (split; [by apply (as_inv_machine s)|]; split_and!; eauto). }
  eapply wp_eq; [exact Hres|]. cbn [fst snd]. destruct b; cbn [negb].
  2: { wp_step. split; [done|]. done. }
  wp_step. wp_step. wp_step. wp_step. cbn [fst snd]. wp_step. wp_step. rewrite Hvs. cbn [map_err].
  wp_step. unfold in_txn at 1, on_machine at 1. wp_step. wp_step. cbn [fst snd].
  destruct (prepare_changes_spec nf kind vs changes m1 Hnf) as (cs & err & Hprep & Hcs).
  eapply wp_eq; [exact Hprep|]. cbn [fst snd]. wp_step. wp_step. cbn [fst snd].
  destruct err as [e|].
  { wp_steps. cbn [fst snd]. rewrite take_app_length. split; [done|]. done. }
  specialize (Hcs eq_refl). rewrite drop_app_length. unfold in_txn. wp_step. cbn [fst snd].
  destruct (pt_walk_spec _ _ _ start size (ai_rep _ _ _ _ Hinv)) as (vs' & Hvs' & Hsort & Hin);
    [done|apply Hok|apply Hok|]. rewrite Hvs in Hvs'. injection Hvs' as <-.
  assert (NoDup (pc_address <$> cs)) as Hnd.
  { rewrite (planned_addresses _ _ _ _ _ Hcs). by apply sorted_addresses_nodup. }
  assert (∀ v c, v ∈ vs → planned nf kind m1 v c → ∃ lf, L !! pc_address c = Some lf ∧
    lf_flags lf = pc_old_flags c ∧ leaf_flags (pc_new_flags c) ∧
    contains (pc_new_flags c) ALLOC_FRAME = is_alloc lf) as Hplan.
  { intros [[[b p] f] ps'] c [Hb Hm]%Hin (Ha & Ho & g & Hg & Hf). cbn in Ha, Ho. rewrite Ha, Ho.
    exists (Leaf p f ps'). split; [done|]. split; [done|].
    apply pte_flags_leaf in Hf as [Hlf Hal]. split; [done|]. rewrite Hal.
    destruct (Hfit b _ Hb Hm) as (_ & _ & <- & _). unfold kind_from_flags, is_alloc. cbn.
    by destruct (contains f ALLOC_FRAME). }
  eapply wp_mono; [eapply (apply_changes_spec cs (s.1, m1) changes L0 L T H); try done|].
  { intros c Hc. apply list_elem_of_lookup in Hc as [k Hk].
    destruct (Forall2_lookup_r _ _ _ _ _ Hcs Hk) as (v & Hv & Hp).
    apply (Hplan v); [by eapply list_elem_of_lookup_2|done]. }
  intros r s' (-> & Hq & Hinv' & Hj'). cbn [fst snd].
  split; [eapply quiet_trans; [|exact Hq]; done|].
  exists (apply_plan cs L). split; [done|]. split; [done|]. split; [done|].
  by eapply (plan_reflags nf kind ps s.2 m1 _ _ L vs).
Qed.

(** ** Whole transactions *)

Lemma as_inv_old_ok s L T H : as_inv s L T H → old_ok L.
Proof. intros Hinv b lf Hb. exact (lw_flags _ _ _ (as_inv_wf _ _ _ _ Hinv) _ _ Hb). Qed.

(** A transaction that fails leaves no trace; one that succeeds keeps what its
    body established. *)
Lemma with_txn_spec {A} (body : prog txn_state XError A) s L T H
    (Q : A → AddressSpace * machine → gmap Z leaf → Prop) (R : XError → Prop) :
  as_inv s L T H →
  wp body ([], s) (λ r t',
    match r with
    | Ok x => ∃ L', txn_inv t' L L' T H ∧ Q x t'.2 L'
    | Err e => (∃ L', txn_inv t' L L' T H) ∧ quiet s t'.2 ∧ R e
    | Panic => False
    end) →
  wp (with_txn body) s (λ r s',
    match r with
    | Ok x => ∃ L', as_inv s' L' T H ∧ Q x s' L'
    | Err e => as_inv s' L T H ∧ quiet s s' ∧ R e
    | Panic => False
    end).
Proof.
  intros Hinv Hbody. unfold wp, with_txn in *.
  destruct (body ([], s)) as [[x|e|] [cs s1]]; cbn in *; [| |done].
  - destruct Hbody as (L' & [Hinv' _] & HQ). by exists L'.
  - destruct Hbody as ((L' & Hinv' & Hj) & Hq & HR).
    pose proof (rollback_spec cs s1 L L' T H (as_inv_old_ok _ _ _ _ Hinv) Hinv' Hj) as Hroll.
    unfold txn_drop, in_txn, zoom, mbind, prog_bind, gets. cbn. unfold wp in Hroll.
    destruct (for_each _ _ s1) as [r s2]. cbn in Hroll. destruct Hroll as (-> & Hq' & Hinv2).
    cbn. split; [done|]. split; [by eapply quiet_trans|done].
Qed.

Lemma reads_refs_const flags : reads_refs (λ _ _, mret flags).
Proof. intros a p m. exists (Ok flags). done. Qed.
Lemma reads_refs_unique flags :
  reads_refs (λ _ physical, unique ← frame_pte_is_unique physical; mret (flags unique)).
Proof.
  intros a p m. unfold frame_pte_is_unique, frame_live_metadata, metadata_res, mbind, prog_bind,
    lift, gets, mret, prog_ret.
  destruct (metadata p) as [i|]; cbn; [|by exists (Err BadAddress)].
  destruct (m_refs m i =? 0) eqn:H0.
  - exists (Err BadState). split; [done|]. intros m' ->. by rewrite H0.
  - exists (Ok (flags (m_refs m i =? 1))). split; [done|]. intros m' Hm. rewrite Hm, H0. cbn.
    unfold meta_is_unique. by rewrite Hm.
Qed.
Lemma reads_refs_static frames flags start :
  reads_refs (λ address physical,
    if physical =? sfr_start frames + (address - start) then mret flags else throw BadState).
Proof.
  intros a p m. destruct (_ =? _); [by exists (Ok flags)|by exists (Err BadState)].
Qed.

(** ** [protect_alloc_page] *)

Lemma protect_alloc_page_spec s L T H va f :
  as_inv s L T H → 0 ≤ va →
  wp (protect_alloc_page va f) s (λ r s', quiet s s' ∧
    let a := va - va mod 4096 in
    match r with
    | Ok _ => ∃ f', pte_flags Alloc f = Ok f' ∧
        as_inv s' (alter (set_leaf_flags f') a L) T H ∧
        (is_Some (L !! a) → a ∈ m_tlb s'.2)
    | Err e => s' = s
    | Panic => False
    end).
Proof.
  intros Hinv Hva. unfold protect_alloc_page, protect_alloc_range.
  rewrite (align_down_spec Size4K) by done. change (page_bytes Size4K) with 4096.
  set (a := va - va mod 4096).
  assert (0 ≤ a) as Ha by (pose proof (Z.mod_le va 4096); lia).
  wp_step. destruct (preflight_spec s L T H a 4096 Alloc Size4K) as (r & Hpre & Hr); try done.
  eapply wp_eq; [exact Hpre|]. destruct r as [n|e|]; [|by split|done].
  destruct Hr as (Hok & Hfit & _). wp_step. wp_step.
  destruct (pte_flags Alloc f) as [f'|e|] eqn:Hf; [|by split|by apply pte_flags_no_panic in Hf].
  apply pte_flags_leaf in Hf as Hf'. destruct Hf' as [Hlf Hal].
  rewrite bool_decide_eq_true_2 in Hal by done.
  wp_step. wp_step. rewrite checked_add_ok by (done || apply Hok). cbn [ok_or].
  wp_step. wp_step. rewrite (page_addresses_ok s.1 a 4096 Size4K) by done.
  assert (pages (page_bytes Size4K) a (a + 4096) = [a]) as ->.
  { unfold pages. cbn [page_bytes]. replace (a + 4096 - a) with 4096 by lia.
    change (seqZ 0 (4096 / 4096)) with [0]. cbn. f_equal. lia. }
  assert (vaddr_is_valid a = true) as Hv.
  { apply (ai_valid _ _ _ _ Hinv). destruct Hok as (_ & _ & _ & _ & ? & ?). lia. }
  cbn [for_each]. wp_step. wp_step. destruct (L !! a) as [lf|] eqn:Hl.
  - destruct (Hfit a lf Hl) as (_ & _ & Hk & Hsz).
    { pose proof (page_bytes_pos (lf_size lf)). split; lia. }
    eapply wp_mono; [eapply (protect_one s L T H a lf f'); try done; by rewrite (kind_alloc lf)|].
    intros r s' (-> & Hq & Htlb & Hinv'). rewrite Hsz. unfold flush, on_machine. wp_steps.
    split; [done|]. exists f'. split; [done|]. cbn [snd]. split; [by eapply (as_inv_machine s')|].
    intros _. cbn. set_solver.
  - assert (leaf_find L a = None) as Hnone.
    { destruct (leaf_find L a) as [[b lf]|] eqn:Hfind; [|done].
      destruct (find_base _ _ _ _ _ _ _ Hinv Hfind) as [Hb Hbal]. pose proof Hfind as [_ Hc]%leaf_find_covers.
      destruct (Hfit b lf Hb) as (Hlo & _ & _ & Hsz); [split; lia|].
      assert (b = a) as -> by (eapply find_4k; [done|done|by apply align_down_aligned|done]).
      congruence. }
    unfold on_table. wp_step.
    eapply wp_mono; [apply (pt_protect_spec _ _ _ _ f' (ai_rep _ _ _ _ Hinv) Hv Hlf)|].
    intros r t'. rewrite Hnone. intros [-> Hrep]. wp_steps. split; [done|]. exists f'. split; [done|].
    replace (alter (set_leaf_flags f') a L) with L by (by rewrite alter_id; [|intros; congruence]).
    split; [|by intros [? ?]]. eapply (as_inv_table s L T H); try done; apply Hinv.
Qed.

(** ** Snapshots: [frame_if_shared] and [mapped_frames] *)

(** Taking one more handle of a leaf's frame. *)
Lemma clone_leaf s L T H b lf i :
  as_inv s L T H → L !! b = Some lf → is_alloc lf = true → metadata (lf_paddr lf) = Some i →
  wp (frame_clone_from_pte (lf_paddr lf)) s.2 (λ r m', same_mem s.2 m' ∧
    match r with
    | Ok fr => fr = MkFrame (lf_paddr lf) ∧ as_inv (s.1, m') L T (fupd H i (H i + 1))
    | Err e => e = BadState ∧ m' = s.2
    | Panic => False
    end).
Proof.
  intros Hinv Hb Ha Hi. pose proof (leaf_live s L T H b lf i Hinv Hb Ha Hi) as Hlive.
  eapply wp_mono; [by apply (frame_clone_from_pte_spec s.2 _ i), Hlive; [apply Hinv|]|].
  intros r m' (Hwf & Hsame & Hr). split; [done|]. destruct r as [fr|e|]; [|naive_solver|done].
  destruct Hr as (-> & Halloc & Hrefs). split; [done|].
  assert (1 ≤ own_count L i) as Hown by (eapply own_count_pos; [done|]; unfold owns; by rewrite Ha, bool_decide_eq_true_2).
  destruct Hinv as [? ? HT Hdis Hcount Hh ? ? ? [[HF HFd] ? HX HI]].
  assert (∀ j, m_refs m' j ≠ 0 → m_refs s.2 j ≠ 0) as Hstill.
  { intros j Hj. destruct (decide (j = i)) as [->|Hne]; [done|]. by rewrite Hrefs, fupd_ne in Hj. }
  split; cbn; try done.
  - by rewrite Halloc.
  - intros j Hj. apply Hdis. auto.
  - intros j. rewrite Hrefs, !fupd_case. case_decide; subst; rewrite Hcount; lia.
  - intros j. rewrite fupd_case. case_decide; [subst; pose proof (Hh i); lia|done].
  - destruct Hsame as [Hmem _]. split; [split; [by rewrite Halloc|auto]|done| |by rewrite Hmem].
    intros j Hj. destruct (HX j Hj) as (H1 & H2 & H3). rewrite fupd_ne; [done|]. intros ->. lia.
Qed.

Lemma frame_if_shared_spec s L T H va :
  as_inv s L T H → vaddr_is_valid va = true → 0 ≤ va →
  wp (frame_if_shared va) s (λ r s', s'.1 = s.1 ∧ same_mem s.2 s'.2 ∧
    match r with
    | Ok None => s' = s ∧ ∃ b lf i, leaf_find L va = Some (b, lf) ∧ is_alloc lf = true ∧
        metadata (lf_paddr lf) = Some i ∧ m_refs s.2 i = 1
    | Ok (Some fr) => ∃ b lf i, leaf_find L va = Some (b, lf) ∧ is_alloc lf = true ∧
        metadata (lf_paddr lf) = Some i ∧ 1 < m_refs s.2 i ∧
        fr = MkFrame (lf_paddr lf) ∧ as_inv s' L T (fupd H i (H i + 1))
    | Err e => s' = s
    | Panic => False
    end).
Proof.
  intros Hinv Hv Hva. unfold frame_if_shared. wp_step. wp_step. wp_step. wp_step. cbn [fst].
  rewrite (as_query_spec s L T H) by done.
  destruct (leaf_find L va) as [[b lf]|] eqn:Hfind; cbn [map_err]; [|by destruct s].
  destruct (negb _ || _) eqn:Hchk; [by wp_step|].
  apply orb_false_iff in Hchk as [Hk%negb_false_iff%bool_decide_eq_true Hsz%negb_false_iff%bool_decide_eq_true].
  apply kind_alloc in Hk. destruct (find_base _ _ _ _ _ _ _ Hinv Hfind) as [Hb Hbal].
  pose proof Hfind as [_ Hc]%leaf_find_covers. rewrite Hsz in *. cbn [page_bytes] in Hc.
  destruct (ai_alloc _ _ _ _ Hinv b lf Hb Hk) as [_ [i Hi]].
  destruct (frame_phys _ i Hi) as [Hpal Hpr]. cbn [page_bytes] in Hpal.
  assert (align_down (lf_paddr lf + (va - b)) (page_bytes Size4K) = lf_paddr lf) as ->.
  { rewrite (align_down_spec Size4K) by lia. cbn [page_bytes].
    rewrite mod_add_aligned, (Z.mod_small (va - b)) by lia. lia. }
  pose proof (leaf_live s L T H b lf i Hinv Hb Hk Hi) as Hlive.
  assert (frame_pte_is_unique (lf_paddr lf) s.2 = (Ok (m_refs s.2 i =? 1), s.2)) as Hu.
  { unfold frame_pte_is_unique, frame_live_metadata, metadata_res, mbind, prog_bind, lift, gets.
    rewrite Hi. cbn. by rewrite (proj2 (Z.eqb_neq _ _) Hlive). }
  wp_step. unfold on_machine. wp_step. eapply wp_eq; [exact Hu|].
  destruct (Z.eqb_spec (m_refs s.2 i) 1) as [H1|H1].
  - wp_step. cbn. split_and!; try done; [by destruct s|]. eauto 10.
  - wp_step. wp_step. cbn [fst snd].
    eapply wp_mono; [by eapply (clone_leaf s L T H b lf i)|].
    intros r m' [Hsame Hr]. cbn [fst]. destruct r as [fr|e|]; [|by destruct Hr as [_ ->]; destruct s|done].
    destruct Hr as [-> Hinv']. wp_step. split_and!; try done.
    pose proof (wf_refs_range _ (ai_mach _ _ _ _ Hinv) i).
    exists b, lf, i. split_and!; try done. lia.
Qed.

(** The handles a vector of snapshots holds. *)
Definition holds (i : Z) (x : Z * Frame * Z) : bool :=
  bool_decide (metadata (f_paddr x.1.2) = Some i).
Definition handles (fs : list (Z * Frame * Z)) (i : Z) : Z :=
  Z.of_nat (length (filter (λ x, holds i x = true) fs)).
Lemma handles_app fs fs' i : handles (fs ++ fs') i = handles fs i + handles fs' i.
Proof. unfold handles. rewrite filter_app, length_app. lia. Qed.
Lemma handles_cons x fs i :
  handles (x :: fs) i = (if holds i x then 1 else 0) + handles fs i.
Proof.
  unfold handles. rewrite filter_cons. case_decide as Hd; [rewrite Hd; cbn [length]; lia|].
  destruct (holds i x); [done|lia].
Qed.
Lemma handles_nil i : handles [] i = 0.
Proof. done. Qed.
Lemma handles_nonneg fs i : 0 ≤ handles fs i.
Proof. unfold handles. lia. Qed.

Lemma drop_snapshots_spec {E} fs s L T H :
  as_inv s L T (λ i, H i + handles fs i) → (∀ i, 0 ≤ others i ≤ H i) →
  (∀ x, x ∈ fs → is_Some (metadata (f_paddr x.1.2))) →
  wp (drop_snapshots (E:=E) fs) s.2 (λ r m', r = Ok () ∧ same_mem s.2 m' ∧
    as_inv (s.1, m') L T H).
Proof.
  revert s. induction fs as [|x fs IH]; intros s Hinv HH Hfs.
  { apply wp_ret. split; [done|]. split; [done|].
    eapply as_inv_ext; [|by apply (as_inv_machine s _ _ _ s.2 Hinv)].
    intros i. unfold handles. cbn. lia. }
  unfold drop_snapshots. cbn [for_each]. wp_step. destruct (Hfs x) as [i Hi]; [set_solver|].
  pose proof (as_drop (E := E) s L T _ (f_paddr x.1.2) i Hinv Hi) as Hdrop.
  assert (others i < H i + handles (x :: fs) i) as H1.
  { pose proof (HH i). pose proof (handles_nonneg fs i). rewrite handles_cons.
    unfold holds. rewrite bool_decide_eq_true_2 by done. lia. }
  specialize (Hdrop H1). unfold on_machine, zoom in Hdrop. unfold wp in Hdrop |- *.
  destruct x as [[a [p]] f]. cbn [fst snd f_paddr] in *.
  destruct (frame_drop (MkFrame p) s.2) as [r m1]. cbn in Hdrop.
  destruct Hdrop as (-> & _ & Hinv1 & Hsame1). cbn.
  specialize (IH (s.1, m1)). cbn in IH. unfold wp in IH.
  destruct IH as (Hr & Hsame & Hinv2).
  - eapply as_inv_ext; [|exact Hinv1]. intros j. cbn. rewrite fupd_case, !handles_cons.
    unfold holds. cbn. case_decide as Hj; case_bool_decide as Hj'; simplify_eq; try lia.
    all: congruence.
  - done.
  - intros y Hy. apply Hfs. set_solver.
  - split; [done|]. split; [|done]. by eapply same_mem_trans.
Qed.

(** The snapshot of one visited leaf. *)
Definition snapshot_of (v : Z * Z * Z * PageSize) (x : Z * Frame * Z) : Prop :=
  let '(b, p, f, ps) := v in
  x = (b, MkFrame p, f |-| ALLOC_FRAME |-| PROT_NONE) ∧ is_alloc (Leaf p f ps) = true ∧ ps = Size4K.
Definition frames_ok (fs : list (Z * Frame * Z)) : Prop :=
  ∀ x, x ∈ fs → is_Some (metadata (f_paddr x.1.2)).

Lemma fold_visits_err vs fs e m : fold_visits vs (fs, Some e) m = (Ok (fs, Some e), m).
Proof. induction vs as [|[[[b p] f] ps] vs IH]; [done|]. cbn. by unfold mbind, prog_bind. Qed.

Lemma fold_visits_spec vs fs0 s L T H :
  as_inv s L T (λ i, H i + handles fs0 i) → (∀ i, 0 ≤ others i ≤ H i) → frames_ok fs0 →
  (∀ b p f ps, (b, p, f, ps) ∈ vs → L !! b = Some (Leaf p f ps)) →
  wp (fold_visits vs (fs0, None)) s.2 (λ r m', same_mem s.2 m' ∧ ∃ fs err,
    r = Ok (fs0 ++ fs, err) ∧ as_inv (s.1, m') L T (λ i, H i + handles (fs0 ++ fs) i) ∧
    frames_ok (fs0 ++ fs) ∧ (err = None → Forall2 snapshot_of vs fs)).
Proof.
  revert fs0 s. induction vs as [|[[[b p] f] ps] vs IH]; intros fs0 s Hinv HH Hok Hvs.
  { apply wp_ret. split; [done|]. exists [], None. rewrite app_nil_r. split; [done|].
    split; [by apply (as_inv_machine s)|]. split; [done|]. constructor. }
  assert (L !! b = Some (Leaf p f ps)) as Hb by (apply Hvs; set_solver).
  cbn [fold_visits snapshot_visit]. wp_step.
  destruct (negb _ || _) eqn:Hchk.
  { wp_step. unfold wp. rewrite fold_visits_err. split; [done|]. exists [], (Some BadState).
    rewrite app_nil_r. split; [done|]. split; [by apply (as_inv_machine s)|]. done. }
  apply orb_false_iff in Hchk as [Hk%negb_false_iff%bool_decide_eq_true Hsz%negb_false_iff%bool_decide_eq_true].
  pose proof (kind_alloc (Leaf p f ps) Hk) as Ha.
  destruct (ai_alloc _ _ _ _ Hinv b _ Hb Ha) as [_ [i Hi]]. cbn in Hi.
  wp_step. eapply wp_mono; [by eapply (clone_leaf s L T _ b (Leaf p f ps) i)|].
  intros r m1 [Hsame Hr]. destruct r as [fr|e|]; [| |done].
  - destruct Hr as [-> Hinv1]. wp_step. cbn [lf_paddr].
    set (x := (b, MkFrame p, f |-| ALLOC_FRAME |-| PROT_NONE)).
    eapply wp_mono; [apply (IH (fs0 ++ [x]) (s.1, m1))|].
    + eapply as_inv_ext; [|exact Hinv1]. intros j. cbn. rewrite fupd_case, handles_app,
        handles_cons, handles_nil. unfold holds. cbn.
      case_decide as Hj; case_bool_decide as Hj'; simplify_eq; try lia; congruence.
    + done.
    + intros y [Hy| ->%list_elem_of_singleton]%elem_of_app; [by apply Hok|]. by exists i.
    + intros. apply Hvs. set_solver.
    + intros r m2 (Hsame2 & fs & err & -> & Hinv2 & Hok2 & Hfs). rewrite <- app_assoc in *.
      split; [by eapply same_mem_trans|]. exists (x :: fs), err. split; [done|].
      split; [done|]. split; [done|]. intros Herr. constructor; [done|by apply Hfs].
  - destruct Hr as [-> ->]. wp_step. unfold wp. rewrite fold_visits_err. split; [done|].
    exists [], (Some BadState). rewrite app_nil_r. split; [done|].
    split; [by apply (as_inv_machine s)|]. done.
Qed.

Lemma mapped_frames_spec s L T H r :
  as_inv s L T H → 0 ≤ vr_start r ≤ vr_end r → vr_end r ≤ usize_max →
  wp (mapped_frames r) s (λ res s', s'.1 = s.1 ∧ same_mem s.2 s'.2 ∧
    match res with
    | Ok fs => as_inv s' L T (λ i, H i + handles fs i) ∧ frames_ok fs ∧ ∃ vs,
        Forall2 snapshot_of vs fs ∧ StronglySorted (λ x y, x.1.1.1 < y.1.1.1) vs ∧
        ∀ b p f ps, (b, p, f, ps) ∈ vs ↔ vr_start r < vr_end r ∧
          L !! b = Some (Leaf p f ps) ∧ leaf_meets (vr_start r) (vr_end r) b (Leaf p f ps)
    | Err e => as_inv s' L T H
    | Panic => False
    end).
Proof.
  intros Hinv Hr Hmax. unfold mapped_frames. wp_step. wp_step. wp_step. wp_step. cbn [fst].
  rewrite vr_size_spec by lia.
  assert (∃ vs, pt_walk_leaf_range (as_table s.1) (vr_start r) (vr_end r - vr_start r) = Ok vs ∧
    StronglySorted (λ x y : Z * Z * Z * PageSize, x.1.1.1 < y.1.1.1) vs ∧
    ∀ b p f ps, (b, p, f, ps) ∈ vs ↔ vr_start r < vr_end r ∧
      L !! b = Some (Leaf p f ps) ∧ leaf_meets (vr_start r) (vr_end r) b (Leaf p f ps))
    as (vs & Hvs & Hsort & Hin).
  { destruct (decide (vr_start r < vr_end r)) as [Hlt|Hge].
    - destruct (pt_walk_spec _ _ _ (vr_start r) (vr_end r - vr_start r) (ai_rep _ _ _ _ Hinv))
        as (vs & Hvs & Hsort & Hin); [lia..|].
      replace (vr_start r + (vr_end r - vr_start r)) with (vr_end r) in Hin by lia.
      exists vs. split; [done|]. split; [done|]. intros. rewrite Hin. naive_solver.
    - replace (vr_end r - vr_start r) with 0 by lia. rewrite pt_walk_empty. exists [].
      split; [done|]. split; [constructor|]. intros. rewrite elem_of_nil. naive_solver lia. }
  rewrite Hvs. cbn [map_err]. wp_step. unfold on_machine. wp_step.
  eapply wp_mono; [eapply (fold_visits_spec vs [] s L T H); try done|].
  - eapply as_inv_ext; [|exact Hinv]. intros i. unfold handles. cbn. lia.
  - apply Hinv.
  - intros x Hx. by apply elem_of_nil in Hx.
  - intros b p f ps Hv. by apply Hin in Hv as (_ & ? & _).
  - intros res m1 (Hsame & fs & err & -> & Hinv1 & Hok & Hfs). cbn [app] in *. cbn [fst snd].
    destruct err as [e|].
    + wp_step. wp_step. eapply wp_mono; [eapply (drop_snapshots_spec fs (s.1, m1)); try done; apply Hinv|].
      intros res' m2 (-> & Hsame2 & Hinv2). wp_step. split; [done|].
      split; [by eapply same_mem_trans|done].
    + wp_step. split; [done|]. split; [done|]. split; [done|]. split; [done|].
      exists vs. split; [by apply Hfs|]. done.
Qed.
End txn.
