(* ===== verification/AspaceBytes.v ===== *)
(** * Byte access through the page table (aspace.rs, [process_bytes])

    [read_bytes] and [write_alloc_bytes] copy chunk by chunk, each chunk up to
    the end of the leaf that translates its first byte. They are shown to
    copy exactly the bytes the translation of each address names, to stop at
    the first address without the access, and to terminate. *)
From S2P Require Import Prelude Errno MemAddr Frame PageTable AddressSpace AspaceInv.
From stdpp Require Import prelude gmap list.
Open Scope Z_scope.

Section bytes.
Context {CFG : Config} {PA : PageAllocator} {BF : BitFlags} {MA : MemoryAddr} {PT : PageTable}.
Context {PF : PhysFits} {FT : Foreign}.
Context (aspace : AddressSpace) (L : gmap Z leaf) (T : gset Z).
Hypothesis (Hrep : pt_rep (as_table aspace) L T).
Hypothesis (Husize : vr_usize (as_range aspace)).
Hypothesis (Hvalid : ∀ a, vr_start (as_range aspace) ≤ a < vr_end (as_range aspace) →
  vaddr_is_valid a = true).
(** The linear mapping covers the physical pages with certain flags. *)
Context (linear : Z → Prop).
Hypothesis (Hlinear : ∀ b lf, L !! b = Some lf → linear (lf_flags lf) →
  lf_paddr lf + page_bytes (lf_size lf) + PHYS_VIRT_OFFSET ≤ 2 ^ 64).

(** The byte of the linear mapping that [a] translates to. *)
Definition byte_addr (a : Z) : option (Z * Z) :=
  '(b, lf) ← leaf_find L a; Some (phys_to_virt (lf_paddr lf + (a - b)), lf_flags lf).
Definition access_ok (access : Z) (kind : option FrameKind) (flags : Z) : bool :=
  contains flags access && negb (contains flags DEVICE) &&
  match kind with Some k => bool_decide (kind_from_flags flags = k) | None => true end.
Definition byte_ok (access : Z) (kind : option FrameKind) (a : Z) : Prop :=
  ∃ x flags, byte_addr a = Some (x, flags) ∧ access_ok access kind flags = true.
(** The address a byte is copied from or to. *)
Definition kaddr (a : Z) : Z := match byte_addr a with Some (x, _) => x | None => 0 end.

Lemma leaf_linear b lf o :
  L !! b = Some lf → linear (lf_flags lf) → 0 ≤ o < page_bytes (lf_size lf) →
  phys_to_virt (lf_paddr lf + o) = lf_paddr lf + o + PHYS_VIRT_OFFSET.
Proof.
  intros Hb Hl Ho. destruct (lw_paddr _ _ _ (pt_rep_wf _ _ _ Hrep) _ _ Hb) as [_ Hp].
  pose proof (Hlinear b lf Hb Hl). pose proof cfg_bounds. unfold phys_to_virt, wrap64.
  apply Z.mod_small. lia.
Qed.
(** Within a leaf the translation is linear. *)
Lemma chunk_bytes a b lf o :
  leaf_find L a = Some (b, lf) → linear (lf_flags lf) → 0 ≤ o → a + o < b + page_bytes (lf_size lf) →
  byte_addr (a + o) = Some (phys_to_virt (lf_paddr lf + (a - b)) + o, lf_flags lf).
Proof.
  intros Hfind Hl Ho Hlt. pose proof Hfind as [Hb Hc]%leaf_find_covers. unfold byte_addr.
  assert (leaf_find L (a + o) = Some (b, lf)) as ->.
  { apply (leaf_find_Some (pt_rep_wf _ _ _ Hrep)). split; [done|lia]. }
  cbn. rewrite !(leaf_linear b lf) by (done || lia). do 2 f_equal. lia.
Qed.

(** One iteration of the loop. *)
Lemma chunk_step {B} fuel start size access kind (copy : Z → Z → Z → B * machine → B * machine)
    copied st :
  (∀ flags, access_ok access kind flags = true → linear flags) → 0 ≤ copied < size → vr_start (as_range aspace) ≤ start →
  start + size ≤ vr_end (as_range aspace) →
  (¬ byte_ok access kind (start + copied) ∧ ∃ e,
     process_chunks (S fuel) aspace start size access kind copy copied st = (Err e, st) ∧
     (e = BadAddress ∧ byte_addr (start + copied) = None ∨
      e = PermissionDenied ∧ byte_addr (start + copied) ≠ None)) ∨
  ∃ count, 0 < count ≤ size - copied ∧
    (∀ o, 0 ≤ o < count → byte_ok access kind (start + copied + o) ∧
       kaddr (start + copied + o) = kaddr (start + copied) + o) ∧
    process_chunks (S fuel) aspace start size access kind copy copied st =
      process_chunks fuel aspace start size access kind copy (copied + count)
        (copy (kaddr (start + copied)) copied count st).
Proof.
  intros Hlin Hc Hlo Hhi. cbn [process_chunks]. rewrite (proj2 (Z.ltb_lt copied size)) by lia. cbn [negb].
  set (a := start + copied).
  assert (vaddr_is_valid a = true) as Hv by (apply Hvalid; lia).
  unfold mbind, prog_bind, lift. rewrite (pt_query_spec _ _ _ _ Hrep Hv).
  destruct (leaf_find L a) as [[b lf]|] eqn:Hfind; cbn [map_err paging_error].
  2: { left. assert (byte_addr a = None) as Hn by (unfold byte_addr; by rewrite Hfind).
       split; [by intros (x & f & Hx & _); congruence|]. eexists. split; [done|]. by left. }
  pose proof Hfind as [Hb Hcov]%leaf_find_covers.
  destruct (lw_base _ _ _ (pt_rep_wf _ _ _ Hrep) _ _ Hb) as (Hbal & Hb0 & _).
  assert (byte_addr a = Some (phys_to_virt (lf_paddr lf + (a - b)), lf_flags lf)) as Hba
    by (unfold byte_addr; by rewrite Hfind).
  destruct (access_ok access kind (lf_flags lf)) eqn:Hacc.
  - right. replace (negb _ || _ || _) with false; cycle 1.
    { unfold access_ok in Hacc. apply andb_true_iff in Hacc as [[-> ->%negb_true_iff]%andb_true_iff Hk].
      cbn. destruct kind; [by rewrite Hk|done]. }
    rewrite align_offset_spec by lia.
    assert (a mod page_bytes (lf_size lf) = a - b) as Hmod.
    { replace a with (b + (a - b)) at 1 by lia. rewrite mod_add_aligned by (done || apply page_bytes_pos).
      apply Z.mod_small. lia. }
    rewrite Hmod. set (count := Z.min _ _). exists count. split; [lia|]. split.
    + intros o Ho. unfold byte_ok, kaddr. rewrite (chunk_bytes a b lf o) by (done || auto || lia). rewrite Hba.
      split; [by eexists _, _|done].
    + unfold modify. cbn. unfold kaddr. by rewrite Hba.
  - left. split; [intros (x & f & Hx & Hf); congruence|].
    replace (negb _ || _ || _) with true; cycle 1.
    { unfold access_ok in Hacc. destruct (contains _ access), (contains _ DEVICE); cbn in *; try done.
      destruct kind; [by rewrite Hacc|done]. }
    eexists. split; [done|]. right. by rewrite Hba.
Qed.

(** Why a copy stops: the first address without the access. *)
Definition denied (access : Z) (kind : option FrameKind) (start lo size : Z) (e : XError) : Prop :=
  ∃ k, lo ≤ k < size ∧ ¬ byte_ok access kind (start + k) ∧
    (∀ j, lo ≤ j < k → byte_ok access kind (start + j)) ∧
    (e = BadAddress ∧ byte_addr (start + k) = None ∨
     e = PermissionDenied ∧ byte_addr (start + k) ≠ None).
Lemma denied_later access kind start lo lo' size e :
  lo ≤ lo' → (∀ j, lo ≤ j < lo' → byte_ok access kind (start + j)) →
  denied access kind start lo' size e → denied access kind start lo size e.
Proof.
  intros Hlo Hok (k & Hk & Hno & Hbefore & He). exists k. split; [lia|]. split; [done|].
  split; [|done]. intros j Hj. destruct (Z.ltb_spec j lo'); auto with lia.
Qed.

Section read.
Hypothesis (Hlin : ∀ flags, access_ok READ None flags = true → linear flags).
Context (start size : Z) (m : machine).
Hypothesis (Hlo : vr_start (as_range aspace) ≤ start) (Hhi : start + size ≤ vr_end (as_range aspace)).
Definition read_copy (source offset count : Z) (st : (Z → Z) * machine) : (Z → Z) * machine :=
  let '(output, m) := st in
  (λ k, if (offset <=? k) && (k <? offset + count) then m_mem m (source + (k - offset))
        else output k, m).

Lemma read_loop fuel copied out :
  0 ≤ copied → size - copied ≤ Z.of_nat fuel →
  wp (process_chunks fuel aspace start size READ None read_copy copied) (out, m) (λ r st,
    st.2 = m ∧ (∀ k, ¬ copied ≤ k < size → st.1 k = out k) ∧
    match r with
    | Ok _ => ∀ k, copied ≤ k < size → byte_ok READ None (start + k) ∧
        st.1 k = m_mem m (kaddr (start + k))
    | Err e => denied READ None start copied size e
    | Panic => False
    end).
Proof.
  revert copied out. induction fuel as [|fuel IH]; intros copied out Hc Hfuel.
  { cbn [process_chunks]. rewrite (proj2 (Z.ltb_ge copied size)) by lia. cbn.
    split; [done|]. split; [done|]. intros k Hk. exfalso. lia. }
  destruct (Z.ltb_spec copied size) as [Hlt|Hge].
  2: { cbn [process_chunks]. rewrite (proj2 (Z.ltb_ge copied size)) by lia. cbn.
       split; [done|]. split; [done|]. intros k Hk. exfalso. lia. }
  unfold wp. destruct (chunk_step fuel start size READ None read_copy copied (out, m))
    as [(Hno & e & -> & He)|(count & Hcount & Hok & ->)]; try done.
  { cbn. split; [done|]. split; [done|]. exists copied. split; [lia|]. split; [done|].
    split; [lia|done]. }
  specialize (IH (copied + count)). unfold wp in IH. cbn [read_copy].
  set (out' := λ k : Z, if (copied <=? k) && (k <? copied + count)
    then m_mem m (kaddr (start + copied) + (k - copied)) else out k).
  specialize (IH out' ltac:(lia) ltac:(lia)).
  destruct (process_chunks _ _ _ _ _ _ _ _ _) as [r [out2 m2]]. cbn in *.
  destruct IH as (-> & Hkeep & Hr). split; [done|].
  assert (∀ j, copied ≤ j < copied + count →
    byte_ok READ None (start + j) ∧ out' j = m_mem m (kaddr (start + j))) as Hchunk.
  { intros j Hj. destruct (Hok (j - copied)) as [Hb Hk]; [lia|].
    replace (start + copied + (j - copied)) with (start + j) in * by lia. split; [done|].
    unfold out'. rewrite Hk. split_zbool; (done || lia). }
  split.
  - intros k Hk. rewrite Hkeep by lia. unfold out'. split_zbool; try done; lia.
  - destruct r as [[]|e|]; [| |done].
    + intros k Hk. destruct (Z.ltb_spec k (copied + count)).
      * rewrite Hkeep by lia. apply Hchunk. lia.
      * apply Hr. lia.
    + eapply denied_later; [|intros j Hj; by apply Hchunk|exact Hr]. lia.
Qed.
End read.

Lemma contains_range_spec start size :
  0 ≤ start → 0 < size →
  contains_range aspace start size = true ↔
  start + size ≤ usize_max ∧ vr_start (as_range aspace) ≤ start ∧
  start + size ≤ vr_end (as_range aspace).
Proof.
  intros Hst Hsz. unfold contains_range. rewrite vr_try_from_start_size_spec by lia.
  destruct (Z.leb_spec (start + size) usize_max); [|split; [done|lia]].
  rewrite vr_contains_range_spec by (unfold vr_nonempty; cbn; lia). cbn.
  rewrite andb_true_iff, !Z.leb_le. lia.
Qed.

(** [read_bytes] returns the bytes the addresses translate to; it fails
    exactly when the range is not inside the address space or some byte of it
    is not readable ordinary memory. *)
Lemma read_bytes_spec start len out m :
  (∀ flags, access_ok READ None flags = true → linear flags) → 0 ≤ start → 0 ≤ len →
  wp (read_bytes aspace start len) (out, m) (λ r st, st.2 = m ∧
    (∀ k, ¬ 0 ≤ k < len → st.1 k = out k) ∧
    match r with
    | Ok _ => ∀ k, 0 ≤ k < len → byte_ok READ None (start + k) ∧
        st.1 k = m_mem m (kaddr (start + k))
    | Err e => e = InvalidInput ∧ contains_range aspace start len = false ∨
        denied READ None start 0 len e
    | Panic => False
    end).
Proof.
  intros Hlin Hst Hlen. unfold read_bytes, process_bytes.
  destruct (Z.eqb_spec len 0) as [->|Hne]; [wp_step; split; [done|]; split; [done|]; intros k Hk; exfalso; lia|].
  destruct (contains_range aspace start len) eqn:Hc; cbn [negb].
  2: { wp_step. split; [done|]. split; [done|]. by left. }
  apply contains_range_spec in Hc as (_ & Hlo & Hhi); [|lia..].
  eapply wp_mono; [apply (read_loop Hlin start len m Hlo Hhi (Z.to_nat len) 0 out); lia|].
  intros r st (-> & Hkeep & Hr). split; [done|]. split; [done|].
  destruct r; [done|by right|done].
Qed.

Section write.
Hypothesis (Hlin : ∀ flags, access_ok WRITE (Some Alloc) flags = true → linear flags).
Context (start : Z) (input : list Z).
Let size : Z := Z.of_nat (length input).
Hypothesis (Hlo : vr_start (as_range aspace) ≤ start) (Hhi : start + size ≤ vr_end (as_range aspace)).
(** No two addresses of the range alias the same byte. *)
Hypothesis (Hinj : ∀ j k, 0 ≤ j < size → 0 ≤ k < size →
  byte_ok WRITE (Some Alloc) (start + j) → byte_ok WRITE (Some Alloc) (start + k) →
  kaddr (start + j) = kaddr (start + k) → j = k).
Definition write_copy (destination offset count : Z) (st : () * machine) : () * machine :=
  let '(u, m) := st in
  (u, set_mem m (mem_write (m_mem m) destination
        (take (Z.to_nat count) (drop (Z.to_nat offset) input)))).

Lemma write_chunk w d copied count x :
  0 ≤ copied → 0 ≤ count → copied + count ≤ size →
  mem_write w d (take (Z.to_nat count) (drop (Z.to_nat copied) input)) x =
    if (d <=? x) && (x <? d + count) then nth (Z.to_nat (copied + (x - d))) input 0 else w x.
Proof.
  intros Hc Hn Hle. unfold mem_write. rewrite length_take, length_drop.
  replace (Z.of_nat (Z.to_nat count `min` (length input - Z.to_nat copied))) with count by lia.
  destruct (Z.leb_spec d x), (Z.ltb_spec x (d + count)); cbn; try done.
  rewrite !nth_lookup, lookup_take_lt, lookup_drop by lia. do 2 f_equal. lia.
Qed.

Lemma write_loop fuel copied m :
  0 ≤ copied ≤ size → size - copied ≤ Z.of_nat fuel →
  wp (process_chunks fuel aspace start size WRITE (Some Alloc) write_copy copied) ((), m) (λ r st,
    m_alloc st.2 = m_alloc m ∧ m_refs st.2 = m_refs m ∧
    (∀ x, (∀ k, copied ≤ k < size → byte_ok WRITE (Some Alloc) (start + k) → kaddr (start + k) ≠ x) →
       m_mem st.2 x = m_mem m x) ∧
    match r with
    | Ok _ => ∀ k, copied ≤ k < size → byte_ok WRITE (Some Alloc) (start + k) ∧
        m_mem st.2 (kaddr (start + k)) = nth (Z.to_nat k) input 0
    | Err e => denied WRITE (Some Alloc) start copied size e
    | Panic => False
    end).
Proof.
  revert copied m. induction fuel as [|fuel IH]; intros copied m Hc Hfuel.
  { cbn [process_chunks]. rewrite (proj2 (Z.ltb_ge copied size)) by lia. cbn.
    split_and!; [done..|]. intros k Hk. exfalso. lia. }
  destruct (Z.ltb_spec copied size) as [Hlt|Hge].
  2: { cbn [process_chunks]. rewrite (proj2 (Z.ltb_ge copied size)) by lia. cbn.
       split_and!; [done..|]. intros k Hk. exfalso. lia. }
  unfold wp. destruct (chunk_step fuel start size WRITE (Some Alloc) write_copy copied ((), m))
    as [(Hno & e & -> & He)|(count & Hcount & Hok & ->)]; try done; [lia| |].
  { cbn. split_and!; try done. exists copied. split; [lia|]. split; [done|]. split; [lia|done]. }
  cbn [write_copy]. set (d := kaddr (start + copied)) in *. set (m' := set_mem _ _).
  specialize (IH (copied + count) m' ltac:(lia) ltac:(lia)). unfold wp in IH.
  destruct (process_chunks _ _ _ _ _ _ _ _ _) as [r [u m2]]. cbn in *.
  destruct IH as (Ha & Hr & Hkeep & Hres).
  assert (∀ j, copied ≤ j < copied + count →
    byte_ok WRITE (Some Alloc) (start + j) ∧ kaddr (start + j) = d + (j - copied)) as Hchunk.
  { intros j Hj. destruct (Hok (j - copied)) as [Hb Hk]; [lia|].
    by replace (start + copied + (j - copied)) with (start + j) in * by lia. }
  split; [done|]. split; [done|]. split.
  - intros x Hx. rewrite Hkeep by (intros k Hk; apply Hx; lia).
    unfold m'. cbn. rewrite write_chunk by lia.
    destruct (Z.leb_spec d x), (Z.ltb_spec x (d + count)); cbn; try done.
    destruct (Hchunk (copied + (x - d))) as [Hb Hk]; [lia|].
    exfalso. apply (Hx (copied + (x - d))); [lia|done|lia].
  - destruct r as [[]|e|]; [| |done].
    + intros k Hk. destruct (Z.ltb_spec k (copied + count)); [|apply Hres; lia].
      destruct (Hchunk k) as [Hb Hk']; [lia|]. split; [done|]. rewrite Hkeep.
      * unfold m'. cbn. rewrite write_chunk by lia. rewrite Hk'.
        split_zbool; try lia. do 2 f_equal. lia.
      * intros j Hj Hbj Heq. assert (j = k) by (apply Hinj; (done || lia)). lia.
    + eapply denied_later; [|intros j Hj; by apply Hchunk|exact Hres]. lia.
Qed.
End write.

(** [write_alloc_bytes] stores the input at the bytes the addresses translate
    to and nowhere else. *)
Lemma write_alloc_bytes_spec start input m :
  (∀ flags, access_ok WRITE (Some Alloc) flags = true → linear flags) → 0 ≤ start →
  (∀ j k, 0 ≤ j < Z.of_nat (length input) → 0 ≤ k < Z.of_nat (length input) →
    byte_ok WRITE (Some Alloc) (start + j) → byte_ok WRITE (Some Alloc) (start + k) →
    kaddr (start + j) = kaddr (start + k) → j = k) →
  wp (write_alloc_bytes aspace start input) ((), m) (λ r st,
    m_alloc st.2 = m_alloc m ∧ m_refs st.2 = m_refs m ∧
    (∀ x, (∀ k, 0 ≤ k < Z.of_nat (length input) → byte_ok WRITE (Some Alloc) (start + k) →
       kaddr (start + k) ≠ x) → m_mem st.2 x = m_mem m x) ∧
    match r with
    | Ok _ => ∀ k, 0 ≤ k < Z.of_nat (length input) → byte_ok WRITE (Some Alloc) (start + k) ∧
        m_mem st.2 (kaddr (start + k)) = nth (Z.to_nat k) input 0
    | Err e => e = InvalidInput ∧ contains_range aspace start (Z.of_nat (length input)) = false ∨
        denied WRITE (Some Alloc) start 0 (Z.of_nat (length input)) e
    | Panic => False
    end).
Proof.
  intros Hlin Hst Hinj. unfold write_alloc_bytes, process_bytes. set (len := Z.of_nat _) in *.
  destruct (Z.eqb_spec len 0) as [Hz|Hne].
  { wp_step. split_and!; [done..|]. intros k Hk. exfalso. lia. }
  destruct (contains_range aspace start len) eqn:Hc; cbn [negb].
  2: { wp_step. split_and!; [done..|]. by left. }
  apply contains_range_spec in Hc as (_ & Hlo & Hhi); [|lia..].
  eapply wp_mono; [apply (write_loop Hlin start input Hlo Hhi Hinj (Z.to_nat len) 0 m); lia|].
  intros r st (Ha & Hr & Hkeep & Hres). split_and!; try done. destruct r; [done|by right|done].
Qed.
End bytes.
