(* ===== verification/AspaceStatic.v ===== *)
(** * Static mappings and the life of an address space (aspace.rs)

    [map_static_range] installs the leaves of a static range or none of them,
    and the constructor and destructor of an address space take and give back
    exactly the pages of its tables. *)
From S2P Require Import Prelude Errno MemAddr Frame PageTable AddressSpace AspaceInv.
From stdpp Require Import prelude gmap list.
Open Scope Z_scope.

Lemma pages_prefix sz lo hi pre x suf :
  0 < sz → pages sz lo hi = pre ++ x :: suf → pages sz lo x = pre.
Proof.
  unfold pages. intros Hsz Heq. apply fmap_app_inv in Heq as (l1 & l2 & -> & H2 & Hs).
  destruct l2 as [|k l2]; [done|]. cbn in H2. injection H2 as -> _. f_equal.
  pose proof (f_equal length Hs) as Hlen. rewrite length_app, length_seqZ in Hlen. cbn in Hlen.
  set (n := Z.of_nat (length l1)) in *.
  replace ((hi - lo) / sz) with (n + ((hi - lo) / sz - n)) in Hs by lia.
  rewrite seqZ_app in Hs by lia. apply app_inj_1 in Hs as [Hl Hr]; [|rewrite length_seqZ; lia].
  rewrite seqZ_cons in Hr by lia. injection Hr as <- _.
  replace (lo + sz * (0 + n) - lo) with (n * sz) by lia.
  by rewrite Z.div_mul by lia.
Qed.

Section static.
Context {CFG : Config} {PA : PageAllocator} {BF : BitFlags} {MA : MemoryAddr} {PT : PageTable}.
Context {PF : PhysFits} {FT : Foreign}.

Section install.
Context (start phys f : Z) (ps : PageSize).
Hypothesis (Hf : leaf_flags f) (Hkind : contains f ALLOC_FRAME = false).
Implicit Types (L : gmap Z leaf).

(** The leaf of one page of the range, and the leaves of several. *)
Definition static_leaf (a : Z) : leaf := Leaf (phys + (a - start)) (readback f) ps.
Definition installed (xs : list Z) (L : gmap Z leaf) : gmap Z leaf :=
  list_to_map ((λ a, (a, static_leaf a)) <$> xs) ∪ L.

Lemma installed_keys xs : ((λ a, (a, static_leaf a)) <$> xs).*1 = xs.
Proof. rewrite <- list_fmap_compose. apply list_fmap_id. Qed.
Lemma installed_snoc xs a L :
  a ∉ xs → installed (xs ++ [a]) L = <[a := static_leaf a]> (installed xs L).
Proof.
  intros Ha. unfold installed. rewrite fmap_app. cbn.
  rewrite list_to_map_snoc, insert_union_l; [done|]. by rewrite installed_keys.
Qed.
Lemma installed_delete a xs L :
  a ∉ xs → L !! a = None → delete a (installed (a :: xs) L) = installed xs L.
Proof.
  intros Ha HL. unfold installed. cbn. rewrite delete_union, delete_insert_id, delete_id; [done|done|].
  apply not_elem_of_list_to_map. by rewrite installed_keys.
Qed.
Lemma installed_lookup xs L b lf :
  installed xs L !! b = Some lf ↔ b ∈ xs ∧ lf = static_leaf b ∨ (b ∉ xs) ∧ L !! b = Some lf.
Proof.
  unfold installed. rewrite lookup_union. destruct (decide (b ∈ xs)) as [Hb|Hb].
  - replace (list_to_map _ !! b) with (Some (static_leaf b)).
    { rewrite union_Some_l. naive_solver. }
    symmetry. clear L. induction xs as [|x xs IH]; [by apply elem_of_nil in Hb|]. cbn.
    destruct (decide (x = b)) as [->|Hne]; [by rewrite lookup_insert_eq|].
    rewrite lookup_insert_ne by done. apply IH. set_solver.
  - rewrite not_elem_of_list_to_map_1 by (by rewrite installed_keys).
    rewrite (left_id_L None union). naive_solver.
Qed.
Lemma static_owns a i : owns i (static_leaf a) = false.
Proof. unfold owns, is_alloc. cbn. by rewrite readback_alloc, Hkind. Qed.
Lemma static_alloc_ok a L : alloc_ok L → alloc_ok (<[a := static_leaf a]> L).
Proof.
  intros HL b lf Hb. apply lookup_insert_Some in Hb as [[<- <-]|[_ Hb]]; [|exact (HL b lf Hb)].
  unfold is_alloc. cbn. by rewrite readback_alloc, Hkind.
Qed.

(** Installing one leaf. *)
Lemma static_map_one s L T H a :
  as_inv s L T H → vaddr_is_valid a = true → 0 ≤ a → a mod page_bytes ps = 0 →
  (phys + (a - start)) mod page_bytes ps = 0 → 0 ≤ phys + (a - start) < 2 ^ PA_MAX_BITS →
  wp (on_table_alloc (pt_map a (phys + (a - start)) ps f)) s (λ r s',
    as_range s'.1 = as_range s.1 ∧ m_mem s'.2 = m_mem s.2 ∧ m_tlb s'.2 = m_tlb s.2 ∧ ∃ T',
    match r with
    | Ok _ => L !! a = None ∧ as_inv s' (<[a := static_leaf a]> L) T' H
    | Err e => as_inv s' L T' H
    | Panic => False
    end).
Proof.
  intros Hinv Hv Ha Hal Hpal Hpa. unfold on_table_alloc. wp_step.
  eapply wp_mono; [apply (pt_map_spec _ L T); try done; apply Hinv|].
  intros r [t' a'] (N & HN & Hused & Hr). cbn [fst snd] in *. split_and!; [done..|].
  exists (N ∪ T). destruct r as [[]|e|]; [| |done].
  - destruct Hr as [Hrep Hno].
    assert (L !! a = None) as HLa.
    { destruct (L !! a) as [lf|] eqn:Hl; [|done]. exfalso. apply (Hno a lf Hl).
      pose proof (page_bytes_pos (lf_size lf)). pose proof (page_bytes_pos ps).
      unfold leaf_meets. cbn. lia. }
    split; [done|]. eapply (as_inv_grow s L T H); try done.
    + intros i. rewrite own_count_insert, static_owns by done. lia.
    + apply Hinv.
    + apply static_alloc_ok, Hinv.
  - destruct Hr as [Hrep _]. eapply as_inv_grow; try done; apply Hinv.
Qed.

(** Removing an installed leaf. *)
Lemma static_unmap_one s L T H a xs :
  as_inv s (installed (a :: xs) L) T H → a ∉ xs → L !! a = None → vaddr_is_valid a = true →
  alloc_ok L →
  wp (unwrap_prog (E := XError) (on_table (pt_unmap a));; flush a) s (λ r s', r = Ok () ∧
    as_range s'.1 = as_range s.1 ∧ m_mem s'.2 = m_mem s.2 ∧
    as_inv s' (installed xs L) T H).
Proof.
  intros Hinv Ha HLa Hv HL. wp_step. wp_step. unfold on_table. wp_step.
  eapply wp_mono; [apply (pt_unmap_spec _ _ _ _ (ai_rep _ _ _ _ Hinv) Hv)|].
  assert (installed (a :: xs) L !! a = Some (static_leaf a)) as Hla.
  { apply installed_lookup. left. split; [left|done]. }
  assert (leaf_find (installed (a :: xs) L) a = Some (a, static_leaf a)) as ->.
  { apply (leaf_find_Some (as_inv_wf _ _ _ _ Hinv)). split; [done|].
    pose proof (page_bytes_pos (lf_size (static_leaf a))). lia. }
  intros r t' [-> Hrep]. cbn [unwrap]. unfold flush, on_machine. wp_steps.
  split_and!; [done..|].
  rewrite installed_delete in Hrep by done.
  eapply (as_inv_machine (_, _)); [eapply (as_inv_table s _ T H); try done|done..].
  - intros i. rewrite <- (installed_delete a xs L) by done.
    rewrite (own_count_delete _ a (static_leaf a)), static_owns by done. lia.
  - apply Hinv.
  - intros b lf Hb. rewrite <- (installed_delete a xs L) in Hb by done.
    apply lookup_delete_Some in Hb as [_ Hb]. exact (ai_alloc _ _ _ _ Hinv b lf Hb).
Qed.

(** Undoing the installed prefix. *)
Lemma static_rollback s L T H xs :
  as_inv s (installed xs L) T H → NoDup xs → alloc_ok L →
  (∀ a, a ∈ xs → L !! a = None ∧ vaddr_is_valid a = true) →
  wp (for_each xs (λ a, unwrap_prog (E := XError) (on_table (pt_unmap a));; flush a)) s (λ r s',
    r = Ok () ∧ as_range s'.1 = as_range s.1 ∧ m_mem s'.2 = m_mem s.2 ∧ as_inv s' L T H).
Proof.
  intros Hinv Hnd HL Hxs.
  apply (wp_for_each (λ pre s', as_range s'.1 = as_range s.1 ∧ m_mem s'.2 = m_mem s.2 ∧
    ∃ suf, xs = pre ++ suf ∧ as_inv s' (installed suf L) T H)).
  - split_and!; [done..|]. by exists xs.
  - intros pre x suf s1 Heq (Hr & Hm & suf' & Heq' & Hinv1).
    rewrite Heq in Heq'. apply app_inv_head in Heq' as <-.
    rewrite Heq in Hnd. apply NoDup_app in Hnd as (_ & _ & Hnd). apply NoDup_cons in Hnd as [Hx _].
    destruct (Hxs x) as [HLx Hv]; [rewrite Heq; set_solver|].
    eapply wp_mono; [apply (static_unmap_one s1 L T H x suf); done|].
    intros r s2 (-> & Hr2 & Hm2 & Hinv2). rewrite Hr2, Hm2. split_and!; [done..|].
    exists suf. by rewrite <- app_assoc.
  - intros s1 (Hr & Hm & suf & Heq & Hinv1). split_and!; [done..|].
    assert (suf = []) as ->.
    { apply (app_inv_head xs). by rewrite app_nil_r. }
    unfold installed in Hinv1. cbn in Hinv1. by rewrite (left_id_L ∅ union) in Hinv1.
Qed.
End install.

(** What [map_static_range] needs of its arguments. *)
Definition static_ok (s : AddressSpace * machine) (L : gmap Z leaf) (start : Z)
    (frames : StaticFrameRange) (flags : Z) (ps : PageSize) : Prop :=
  range_ok s.1 start (sfr_size frames) ps ∧ sfr_start frames mod page_bytes ps = 0 ∧
  sfr_allows frames flags = true ∧
  (∀ a, a ∈ pages (page_bytes ps) start (start + sfr_size frames) → leaf_find L a = None).

Lemma static_check s L T H xs (Q : outcome XError () → AddressSpace * machine → Prop) :
  as_inv s L T H → (∀ a, a ∈ xs → vaddr_is_valid a = true) →
  Q (Err AlreadyExists) s → ((∀ a, a ∈ xs → leaf_find L a = None) → Q (Ok ()) s) →
  wp (for_each xs (λ address, aspace ← gets fst;
        if query_ok aspace address then throw AlreadyExists else mret ())) s Q.
Proof.
  intros Hinv Hv Hbad Hgood.
  apply (wp_for_each (λ pre s', s' = s ∧ ∀ a, a ∈ pre → leaf_find L a = None)).
  - split; [done|]. intros a Ha. by apply elem_of_nil in Ha.
  - intros pre x suf s1 -> [-> Hpre]. wp_step. wp_step.
    rewrite (query_ok_spec s L T H) by (done || apply Hv; set_solver).
    case_bool_decide as Hx; wp_step; [done|]. split; [done|].
    intros a [Ha|Ha%list_elem_of_singleton]%elem_of_app; [auto|subst].
    done.
  - intros s1 [-> Hall]. auto.
Qed.

Section range.
Context (s : AddressSpace * machine) (L : gmap Z leaf) (T : gset Z) (H : Z → Z).
Context (start : Z) (frames : StaticFrameRange) (flags : Z) (ps : PageSize).
Hypothesis (Hinv : as_inv s L T H) (Hst : 0 ≤ start) (Hps : 0 ≤ sfr_start frames).
Hypothesis (Hsz : 0 ≤ sfr_size frames).
Hypothesis (Hpa : sfr_start frames + sfr_size frames ≤ 2 ^ PA_MAX_BITS).
Let xs : list Z := pages (page_bytes ps) start (start + sfr_size frames).

Definition static_post (r : outcome XError ()) (s' : AddressSpace * machine) : Prop :=
  as_range s'.1 = as_range s.1 ∧ m_mem s'.2 = m_mem s.2 ∧ ∃ T',
  match r with
  | Ok _ => static_ok s L start frames flags ps ∧ ∃ f', pte_flags Static flags = Ok f' ∧
      as_inv s' (installed start (sfr_start frames) f' ps
        (pages (page_bytes ps) start (start + sfr_size frames)) L) T' H
  | Err e => as_inv s' L T' H
  | Panic => False
  end.

(** The installing loop with its rollback. *)
Lemma static_install f' :
  static_ok s L start frames flags ps → pte_flags Static flags = Ok f' →
  wp (for_each xs (λ address,
      let offset := address - start in
      attempt (on_table_alloc (pt_map address (sfr_start frames + offset) ps f')) (λ r,
        match r with
        | Err error =>
            installed ← lift (expect (page_iter (page_bytes ps) start address));
            for_each installed (λ installed_address,
              unwrap_prog (on_table (pt_unmap installed_address));;
              flush installed_address);;
            throw (paging_error error)
        | _ => flush address
        end))) s static_post.
Proof.
  intros Hs Hf. pose proof Hs as (Hok & Hal & _ & Hnone).
  apply pte_flags_leaf in Hf as Hf'. destruct Hf' as [Hleaf Hkind].
  rewrite bool_decide_eq_false_2 in Hkind by done.
  pose proof (page_bytes_pos ps) as Hpos. pose proof (NoDup_pages _ start (start + sfr_size frames) Hpos) as Hnd.
  assert (∀ a, a ∈ xs → start ≤ a < start + sfr_size frames ∧ a mod page_bytes ps = 0 ∧
    vaddr_is_valid a = true ∧ L !! a = None) as Hxs.
  { intros a Ha. pose proof (Hnone a Ha) as Hn. apply (range_pages s.1) in Ha as [Hr Hm]; [|done].
    split_and!; [lia|lia|done| |].
    - apply (ai_valid _ _ _ _ Hinv). destruct Hok as (_ & _ & _ & _ & ? & ?). lia.
    - destruct (L !! a) as [lf|] eqn:Hl; [|done].
      apply (leaf_find_None (as_inv_wf _ _ _ _ Hinv)) with (b := a) (lf := lf) in Hn.
      destruct Hn. split; [done|].
      pose proof (page_bytes_pos (lf_size lf)). lia. }
  apply (wp_for_each (λ pre s', as_range s'.1 = as_range s.1 ∧ m_mem s'.2 = m_mem s.2 ∧
    ∃ T', as_inv s' (installed start (sfr_start frames) f' ps pre L) T' H)).
  - split_and!; [done..|]. exists T. unfold installed. cbn. by rewrite (left_id_L ∅ union).
  - intros pre x suf s1 Heq (Hr1 & Hm1 & T1 & Hinv1).
    destruct (Hxs x) as (Hxr & Hxal & Hxv & HLx); [rewrite Heq; set_solver|].
    unfold xs in Heq. pose proof Heq as Hpre%pages_prefix; [|done]. rewrite Heq in Hnd.
    apply NoDup_app in Hnd as (Hndpre & Hsep & _).
    cbv zeta. wp_step. eapply wp_mono.
    { apply (static_map_one start (sfr_start frames) f' ps Hleaf Hkind s1 _ T1 H x Hinv1); try (done || lia).
      rewrite mod_add_aligned by done. apply mod_sub_aligned; [done..|apply Hok]. }
    intros r s2 (Hr2 & Hm2 & _ & T2 & Hr). destruct r as [[]|e|]; [| |done].
    + destruct Hr as [_ Hinv2]. unfold flush, on_machine. wp_steps. cbn. rewrite Hr2, Hm2.
      split_and!; [done..|]. exists T2. rewrite installed_snoc.
      * by eapply (as_inv_machine s2).
      * intros Hin. apply (Hsep x Hin). left.
    + wp_step. wp_step. rewrite page_iter_spec, Hxal by lia. destruct Hok as (_ & -> & _).
      cbn [Z.eqb andb expect]. rewrite Hpre. wp_step. eapply wp_mono.
      { apply (static_rollback start (sfr_start frames) f' ps Hleaf Hkind s2 L T2 H pre); try done.
        - apply Hinv.
        - intros a Ha. destruct (Hxs a) as (_ & _ & ? & ?); [|done]. unfold xs. rewrite Heq. set_solver. }
      intros r s3 (-> & Hr3 & Hm3 & Hinv3). wp_step. unfold static_post. rewrite Hr3, Hm3, Hr2, Hm2.
      split_and!; [done..|]. by exists T2.
  - intros s1 (Hr & Hm & T' & Hinv'). split_and!; [done..|]. exists T'. split; [done|].
    by exists f'.
Qed.

Lemma map_static_range_spec : wp (map_static_range start frames flags ps) s static_post.
Proof.
  assert (∀ e, static_post (Err e) s) as Hfail.
  { intros e. split_and!; [done..|]. by exists T. }
  unfold map_static_range. wp_step. wp_step. wp_step. wp_step. rewrite validate_range_spec by done.
  case_decide as Hok; [|apply Hfail].
  rewrite is_aligned_spec by done. destruct (Z.eqb_spec (sfr_start frames mod page_bytes ps) 0) as [Hal|];
    cbn [negb orb]; [|by wp_step].
  destruct (sfr_allows frames flags) eqn:Hallow; cbn [negb]; [|by wp_step].
  wp_step. wp_step. rewrite checked_add_ok by (done || apply Hok). cbn [ok_or].
  wp_step. wp_step. rewrite (page_addresses_ok s.1) by done. wp_step.
  eapply (static_check s L T H); [done| |by apply Hfail|].
  { intros a Ha. apply (range_pages s.1) in Ha as [Hr _]; [|done].
    apply (ai_valid _ _ _ _ Hinv). destruct Hok as (_ & _ & _ & _ & ? & ?). lia. }
  intros Hnone. wp_step. wp_step.
  destruct (pte_flags Static flags) as [f'|e|] eqn:Hf; [|apply Hfail|by apply pte_flags_no_panic in Hf].
  by apply static_install.
Qed.
End range.

(** ** Construction and destruction *)

Lemma new_user_spec base size m :
  mach_wf m → (∀ i, 0 ≤ others i ≤ m_refs m i) → foreign_ok m ∅ ∅ (m_refs m) → 0 ≤ base → 0 < size →
  (∀ a, base ≤ a < base + size → vaddr_is_valid a = true) →

  wp (new_user base size) m (λ r m',
    m_refs m' = m_refs m ∧ m_mem m' = m_mem m ∧
    match r with
    | Ok aspace => as_range aspace = VRange base (base + size) ∧ ∃ T,
        T ## pa_used (m_alloc m) ∧ pa_used (m_alloc m') = T ∪ pa_used (m_alloc m) ∧
        as_inv (aspace, m') ∅ T (m_refs m)
    | Err e => pa_used (m_alloc m') = pa_used (m_alloc m) ∧
        (e = Unsupported ∧ SMP ≠ 1 ∨ e = InvalidInput ∧ usize_max < base + size ∨ e = NoMemory)
    | Panic => False
    end).
Proof.
  intros Hm Hoth [[HF HFd] _ HX HI] Hb Hs Hv. unfold new_user. destruct (Z.eqb_spec SMP 1) as [Hsmp|Hsmp]; cbn [negb].
  2: { wp_step. split_and!; try done. by left. }
  unfold new_empty. wp_step. wp_step. rewrite vr_try_from_start_size_spec by lia.
  destruct (Z.leb_spec (base + size) usize_max) as [Hle|Hgt]; cbn [ok_or].
  2: { split_and!; try done. by right; left. }
  wp_step. wp_step. wp_step. eapply wp_mono; [apply pt_try_new_spec|].
  intros r a' Hr. destruct r as [t|e|]; cbn [map_err].
  - destruct Hr as (T & Hrep & Hdis & Hused). wp_step. split_and!; try done.
    exists T. split_and!; try done. destruct Hm as [Hm1 Hm2].
    assert (∀ i, m_refs m i ≠ 0 → phys_to_virt (frame_addr i) ∈ pa_used (m_alloc m)) as Hlive
      by (intros i Hi; apply (Hm2 i Hi)).
    split; cbn; try done.
    + split; cbn; [done|]. intros i Hi. destruct (Hm2 i Hi). split; [done|]. set_solver.
    + set_solver.
    + intros i Hi. pose proof (Hlive i Hi). set_solver.
    + split; [split; cbn; [rewrite Hused; set_solver|done]|set_solver|done|done].
  - destruct Hr as [-> Hused]. split_and!; try done. by right; right.
  - done.
Qed.

(** The destructor panics exactly when an allocator-owned leaf is left in the
    range; otherwise it gives back the pages of the tables and nothing else. *)
Lemma aspace_drop_spec aspace m L T H :
  as_inv (aspace, m) L T H → vr_start (as_range aspace) < vr_end (as_range aspace) →
  wp (aspace_drop aspace) m (λ r m',
    let left b lf := L !! b = Some lf ∧ is_alloc lf = true ∧
      leaf_meets (vr_start (as_range aspace)) (vr_end (as_range aspace)) b lf in
    match r with
    | Ok _ => (∀ b lf, ¬ left b lf) ∧ m_refs m' = m_refs m ∧ m_mem m' = m_mem m ∧
        pa_used (m_alloc m') = pa_used (m_alloc m) ∖ T
    | Err _ => False
    | Panic => (∃ b lf, left b lf) ∧ m' = m
    end).
Proof.
  intros Hinv Hne. pose proof (ai_usize _ _ _ _ Hinv) as [Hlo Hhi]. cbn in Hlo, Hhi.
  unfold aspace_drop. wp_step. wp_step. rewrite vr_size_spec by (unfold vr_nonempty; lia).
  destruct (pt_walk_spec (as_table aspace) L T (vr_start (as_range aspace))
    (vr_end (as_range aspace) - vr_start (as_range aspace))) as (vs & -> & _ & Hvs);
    [apply Hinv|lia..|].
  replace (vr_start (as_range aspace) + (vr_end (as_range aspace) - vr_start (as_range aspace)))
    with (vr_end (as_range aspace)) in Hvs by lia.
  cbn [unwrap]. wp_step. wp_step. destruct (existsb _ vs) eqn:Hex; cbn [negb assert].
  - split; [|done]. apply existsb_exists in Hex as ([[[b p] f] ps] & Hin & Hk%bool_decide_eq_true).
    apply list_elem_of_In, Hvs in Hin as [Hb Hmeet]. exists b, (Leaf p f ps).
    split; [done|]. split; [by apply kind_alloc|done].
  - wp_step. split_and!; try done; [|by apply (pt_drop_spec _ L T); apply Hinv].
    intros b [p f ps] (Hb & Hal & Hmeet). apply not_true_iff_false in Hex. apply Hex, existsb_exists.
    exists (b, p, f, ps). split; [by apply list_elem_of_In, Hvs|]. apply bool_decide_eq_true.
    unfold kind_from_flags. unfold is_alloc in Hal. cbn in *. by rewrite Hal.
Qed.
End static.
