(* ===== verification/Platform.v ===== *)
(** * A concrete platform

    Instances of the external parameters for one small machine: a riscv64
    target with one hart and 64 frames of memory, a page allocator that hands
    out its lowest free page, and the Sv39 page table over them. The theorems
    are stated for every instance; the evaluated examples run on this one. *)
From S2P Require Import Prelude Errno MemAddr Frame PageTable Pte PageTable64 Radix AddressSpace AspaceInv AspaceStatic.
From stdpp Require Import prelude gmap list.
Open Scope Z_scope.

Module Platform.
#[export] Existing Instance bitflags_ref.
#[export] Existing Instance memory_addr_ref.

#[export] Program Instance config : Config := {|
  SMP := 1; PHYS_MEMORY_BASE := 0x80000000; PHYS_MEMORY_SIZE := 0x40000;
  PHYS_VIRT_OFFSET := 0xffffffc000000000; target_riscv := true |}.
Solve Obligations with (vm_compute; intuition congruence).

(** The same memory on a loongarch64 target. *)
Program Definition la_config : Config := {|
  SMP := 1; PHYS_MEMORY_BASE := 0x80000000; PHYS_MEMORY_SIZE := 0x40000;
  PHYS_VIRT_OFFSET := 0x9000000000000000; target_riscv := false |}.
Solve Obligations with (vm_compute; intuition congruence).

(** The pages the allocator manages, by their linear-mapping address. *)
Definition pool : list Z := (λ k, 0x80000000 + 0xffffffc000000000 + 4096 * k) <$> seqZ 0 64.

Definition pool_alloc (used : gset Z) : option (Z * gset Z) :=
  '(_, v) ← list_find (λ v, v ∉ used) pool; Some (v, {[v]} ∪ used).
Lemma pool_alloc_Some used v used' :
  pool_alloc used = Some (v, used') → v ∈ pool ∧ (v ∉ used) ∧ used' = {[v]} ∪ used.
Proof.
  unfold pool_alloc. intros ([k w] & Hf & Hv)%bind_Some. simplify_eq.
  apply list_find_Some in Hf as (Hk & Hu & _). split; [|done]. by eapply list_elem_of_lookup_2.
Qed.
Lemma pool_forall (P : Z → Prop) `{!∀ v, Decision (P v)} :
  bool_decide (Forall P pool) = true → ∀ v, v ∈ pool → P v.
Proof. intros Hp%bool_decide_eq_true v Hv. by eapply Forall_forall in Hp. Qed.

#[export] Program Instance allocator : PageAllocator := {|
  pa_state := gset Z; alloc_page := pool_alloc; dealloc_page v used := used ∖ {[v]};
  pa_used := id |}.
Next Obligation.
  intros s v s' (Hv & Hu & ->)%pool_alloc_Some. split_and!; try done;
  apply (pool_forall (λ v, 0 ≤ v < 2 ^ 64)) in Hv; try lia; by vm_compute.
Qed.
Next Obligation. done. Qed.

#[export] Instance phys_pages : PhysPages 56.
Proof.
  intros s v s' (Hv & _ & _)%pool_alloc_Some.
  apply (pool_forall (λ v, virt_to_phys v mod 4096 = 0 ∧ 0 < virt_to_phys v < 2 ^ 56)) in Hv; [done|].
  by vm_compute.
Qed.

#[export] Existing Instance Sv39MetaData.
#[export] Existing Instance Rv64.Rv64PTE.
#[export] Instance pte_laws : PteLaws := Rv64.Rv64PTE_laws eq_refl.
#[export] Instance table : PageTable := pt64 (λ _ _, 0).
#[export] Instance phys_fits_ref : PhysFits.
Proof. by vm_compute. Qed.

(** The machine at boot: no page used, no frame counted. *)
Definition boot : machine := {|
  m_alloc := (∅ : gset Z); m_refs := λ _, 0; m_mem := λ _, 0xff; m_reserve := []; m_tlb := [] |}.
Lemma boot_wf : mach_wf boot.
Proof. split; [done|]. by intros i Hi. Qed.
End Platform.
