(* ===== verification/PtTheorems.v ===== *)
(** * Theorems on the page table (bits64.rs)

    What a user of [PageTable64] observes through [query], for every page
    table reachable from [try_new] by the operations: mappings appear where
    they were made and nowhere else, the walk lists what [query] answers, and
    the destructor gives every table page back. *)
From S2P Require Import Prelude Errno MemAddr Frame PageTable Pte PteTheorems PageTable64 Radix AddressSpace AspaceInv AspaceStatic Platform.
From stdpp Require Import prelude gmap list sorting.
Open Scope Z_scope.

Section theorems.
Context {CFG : Config} {PA : PageAllocator} {BF : BitFlags} {MA : MemoryAddr}.
Context {PTE : GenericPTE} {PL : PteLaws} {MD : PagingMetaData} {PP : PhysPages pte_pa_bits}.
Context (mem : Z → Z → Z).

(** ** Reachable page tables *)

Inductive pt_op :=
  | OpMap (va pa : Z) (ps : PageSize) (f : Z)
  | OpRemap (va pa f : Z)
  | OpProtect (va f : Z)
  | OpUnmap (va : Z).

Definition on_pt {A} (m : prog page_table64 PagingError A) :
    prog (page_table64 * pa_state) PagingError A := zoom fst (λ t s, (t, s.2)) m.
Definition exec_op (op : pt_op) : prog (page_table64 * pa_state) PagingError () :=
  match op with
  | OpMap va pa ps f => map_page va pa ps f
  | OpRemap va pa f => on_pt (remap va pa f);; mret ()
  | OpProtect va f => on_pt (protect va f);; mret ()
  | OpUnmap va => on_pt (unmap va);; mret ()
  end.
(** What the callers provide: canonical addresses, aligned physical pages the
    entries can hold, flags of a resident page. *)
Definition op_ok (t : page_table64) (op : pt_op) : Prop :=
  match op with
  | OpMap va pa ps f => va_valid va = true ∧ va mod page_bytes ps = 0 ∧
      pa mod page_bytes ps = 0 ∧ 0 ≤ pa < 2 ^ pte_pa_bits ∧ leaf_flags f
  | OpRemap va pa f => va_valid va = true ∧ leaf_flags f ∧ 0 ≤ pa < 2 ^ pte_pa_bits ∧
      ∃ p g ps, query t va = Ok (p, g, ps) ∧ pa mod page_bytes ps = 0
  | OpProtect va f => va_valid va = true ∧ leaf_flags f
  | OpUnmap va => va_valid va = true
  end.
Inductive reachable (a0 : pa_state) : page_table64 → pa_state → Prop :=
  | reach_new t a : try_new mem a0 = (Ok t, a) → reachable a0 t a
  | reach_op t a op r t' a' : reachable a0 t a → op_ok t op →
      exec_op op (t, a) = (r, (t', a')) → reachable a0 t' a'.

Lemma exec_op_rep t L T a op :
  rep t L T → T ⊆ pa_used a → op_ok t op →
  wp (exec_op op) (t, a) (λ r ta, ∃ N L', N ## pa_used a ∧
    pa_used ta.2 = N ∪ pa_used a ∧ rep ta.1 L' (N ∪ T)).
Proof.
  intros Hrep HT Hok. destruct op as [va pa ps f|va pa f|va f|va]; cbn in Hok |- *.
  - destruct Hok as ([Hva Hv]%va_valid_spec & Hal & Hpal & Hpa & Hf).
    eapply wp_mono; [by apply (map_page_spec t L T)|].
    intros r ta (N & HN & Hused & Hr). destruct r as [[]|e|]; [| |done].
    + destruct Hr as [Hr _]. by exists N, (<[va := Leaf pa (pte_readback f) ps]> L).
    + destruct Hr as [Hr _]. by exists N, L.
  - destruct Hok as ([Hva Hv]%va_valid_spec & Hf & Hpa & p & g & ps & Hq & Hal).
    pose proof Hrep as (own & Hown & _ & HL). rewrite (query_spec Hown HL) in Hq by done.
    destruct (leaf_find L va) as [[b lf]|] eqn:Hfind; [|done]. injection Hq as <- <- <-.
    wp_step. unfold on_pt. wp_step.
    eapply wp_mono; [by apply (remap_spec Hrep Hva Hv b lf pa f)|]. intros r t' [-> Hr]. wp_step.
    eexists ∅, _. rewrite !(left_id_L ∅ union). split; [set_solver|]. split; [done|exact Hr].
  - destruct Hok as ([Hva Hv]%va_valid_spec & Hf). wp_step. unfold on_pt. wp_step.
    eapply wp_mono; [by apply (protect_spec Hrep Hva Hv f)|]. intros r t' Hr.
    assert (∃ L', rep t' L' T) as [L' Hr'] by (destruct (leaf_find L va) as [[b lf]|]; destruct Hr; eauto).
    assert (∃ N L0, N ## pa_used a ∧ pa_used a = N ∪ pa_used a ∧ rep t' L0 (N ∪ T)) as Hex.
    { eexists ∅, L'. rewrite !(left_id_L ∅ union). split; [set_solver|done]. }
    by destruct r; [wp_step| |].
  - apply va_valid_spec in Hok as [Hva Hv]. wp_step. unfold on_pt. wp_step.
    eapply wp_mono; [by apply (unmap_spec Hrep Hva Hv)|]. intros r t' Hr.
    assert (∃ L', rep t' L' T) as [L' Hr'] by (destruct (leaf_find L va) as [[b lf]|]; destruct Hr; eauto).
    assert (∃ N L0, N ## pa_used a ∧ pa_used a = N ∪ pa_used a ∧ rep t' L0 (N ∪ T)) as Hex.
    { eexists ∅, L'. rewrite !(left_id_L ∅ union). split; [set_solver|done]. }
    by destruct r; [wp_step| |].
Qed.

Lemma reachable_rep a0 t a :
  reachable a0 t a → ∃ L T, rep t L T ∧ T ## pa_used a0 ∧ pa_used a = T ∪ pa_used a0.
Proof.
  induction 1 as [t a Hnew|t a op r t' a' _ (L & T & Hrep & Hdis & Hused) Hok Hexec].
  - pose proof (try_new_spec mem a0) as H. unfold wp in H. rewrite Hnew in H.
    destruct H as (T & Hrep & ? & ?). by exists ∅, T.
  - pose proof (exec_op_rep t L T a op Hrep ltac:(set_solver) Hok) as H. unfold wp in H.
    rewrite Hexec in H. destruct H as (N & L' & HN & Hu & Hrep'). exists L', (N ∪ T).
    cbn in *. split; [done|]. rewrite Hu, Hused. clear -HN Hdis Hused.
    split; [set_solver|by rewrite (assoc_L union)].
Qed.

Lemma rep_leaves t L T : rep t L T → leaves_wf pte_readback pte_pa_bits L.
Proof. intros (own & Hown & _ & HL). by apply (leaves_of_wf Hown). Qed.
Lemma rep_query t L T a :
  rep t L T → va_valid a = true →
  query t a =
    match leaf_find L a with
    | Some (b, lf) => Ok (lf_paddr lf + (a - b), lf_flags lf, lf_size lf)
    | None => Err Paging.NotMapped
    end.
Proof. intros (own & Hown & _ & HL) [Ha Hv]%va_valid_spec. by apply (query_spec Hown HL). Qed.
(** Equal leaves at an address answer the same query. *)
Lemma rep_query_same t t' L L' T T' a :
  rep t L T → rep t' L' T' → va_valid a = true → leaf_find L' a = leaf_find L a →
  query t' a = query t a.
Proof. intros Hr Hr' Ha Hf. by rewrite (rep_query t L T), (rep_query t' L' T'), Hf. Qed.
(** The leaf behind a successful query. *)
Lemma rep_query_leaf t L T a p f ps :
  rep t L T → va_valid a = true → query t a = Ok (p, f, ps) →
  leaf_find L a = Some (a - a mod page_bytes ps, Leaf (p - a mod page_bytes ps) f ps) ∧
  L !! (a - a mod page_bytes ps) = Some (Leaf (p - a mod page_bytes ps) f ps).
Proof.
  intros Hr Ha. rewrite (rep_query t L T) by done.
  destruct (leaf_find L a) as [[b [p' f' ps']]|] eqn:Hf; [|done]. cbn. intros [= <- <- <-].
  pose proof Hf as [Hb Hc]%leaf_find_covers. cbn in Hc.
  destruct (lw_base _ _ _ (rep_leaves _ _ _ Hr) _ _ Hb) as (Hal & _). cbn in Hal.
  assert (a mod page_bytes ps' = a - b) as ->.
  { replace a with (b + (a - b)) at 1 by lia. rewrite mod_add_aligned by (done || apply page_bytes_pos).
    apply Z.mod_small. lia. }
  replace (a - (a - b)) with b by lia. replace (p' + (a - b) - (a - b)) with p' by lia. done.
Qed.

(** ** What [query] sees of each operation *)

(** C11: [map] answers for every byte of the page it maps with the translation
    and the flags it was given (as the entry format keeps them), leaves every
    other translation as it was, never maps over a translated address, and
    changes no translation at all when it fails. *)
Theorem map_page_query a0 t a va pa ps f :
  reachable a0 t a → op_ok t (OpMap va pa ps f) →
  match map_page va pa ps f (t, a) with
  | (Ok _, (t', _)) =>
      (∀ x, va_valid x = true → va ≤ x < va + page_bytes ps →
         query t x = Err Paging.NotMapped ∧
         query t' x = Ok (pa + (x - va), pte_readback f, ps)) ∧
      (∀ x, va_valid x = true → ¬ va ≤ x < va + page_bytes ps → query t' x = query t x)
  | (Err e, (t', _)) =>
      (∀ x, va_valid x = true → query t' x = query t x) ∧
      (ps = Size4K → query t va = Err Paging.NotMapped → e = Paging.NoMemory)
  | (Panic, _) => False
  end.
Proof.
  intros (L & T & Hrep & Hdis & Hused)%reachable_rep (Hva & Hal & Hpal & Hpa & Hf).
  pose proof Hva as [Hva' Hv]%va_valid_spec.
  pose proof (map_page_spec t L T a va pa ps f Hrep ltac:(set_solver) Hva' Hv Hal Hpal Hpa Hf) as H.
  unfold wp in H. destruct (map_page va pa ps f (t, a)) as [r [t' a']].
  destruct H as (N & _ & _ & Hr). cbn in Hr. destruct r as [[]|e|]; [| |done].
  - destruct Hr as [Hrep' Hno]. pose proof (rep_leaves _ _ _ Hrep) as HL.
    pose proof (rep_leaves _ _ _ Hrep') as HL'. split.
    + intros x Hx Hin. rewrite (rep_query _ _ _ _ Hrep Hx), (rep_query _ _ _ _ Hrep' Hx).
      rewrite leaf_find_insert_in by done. cbn. split; [|done].
      replace (leaf_find L x) with (@None (Z * leaf)); [done|]. symmetry.
      apply (leaf_find_None HL). intros b lf [Hb Hc]. apply (Hno b lf Hb). split; lia.
    + intros x Hx Hout. eapply rep_query_same; [done..|]. eapply leaf_find_insert_out; [exact HL|exact HL'| |done].
      intros lf' Hb. exfalso. apply (Hno va lf' Hb). pose proof (page_bytes_pos (lf_size lf')).
      pose proof (page_bytes_pos ps). split; lia.
  - destruct Hr as [Hrep' He]. split; [intros x Hx; by eapply rep_query_same|].
    intros Hps Hq. apply He; [done|]. rewrite (rep_query _ _ _ _ Hrep Hva) in Hq.
    by destruct (leaf_find L va) as [[b lf]|].
Qed.

(** C17: [unmap] of a mapped address returns the page and its size and removes
    exactly the translations of that page; of an unmapped address it fails
    with [NotMapped] and changes no translation. *)
Theorem unmap_query a0 t a va :
  reachable a0 t a → va_valid va = true →
  match query t va with
  | Ok (p, f, ps) =>
      let b := va - va mod page_bytes ps in
      ∃ t', unmap va t = (Ok (p - va mod page_bytes ps, ps), t') ∧
        (∀ x, va_valid x = true → b ≤ x < b + page_bytes ps → query t' x = Err Paging.NotMapped) ∧
        (∀ x, va_valid x = true → ¬ b ≤ x < b + page_bytes ps → query t' x = query t x)
  | Err e => e = Paging.NotMapped ∧ ∃ t', unmap va t = (Err Paging.NotMapped, t') ∧
      ∀ x, va_valid x = true → query t' x = query t x
  | Panic => False
  end.
Proof.
  intros (L & T & Hrep & _)%reachable_rep Hva. pose proof Hva as [Hva' Hv]%va_valid_spec.
  pose proof (unmap_spec Hrep Hva' Hv) as H. unfold wp in H.
  destruct (unmap va t) as [r t']. cbn [fst snd] in H. pose proof (rep_leaves _ _ _ Hrep) as HL.
  destruct (query t va) as [[[p f] ps]|e|] eqn:Hq.
  - destruct (rep_query_leaf _ _ _ _ _ _ _ Hrep Hva Hq) as [Hf Hb]. rewrite Hf in H.
    destruct H as [-> Hrep']. exists t'. split; [done|]. pose proof (rep_leaves _ _ _ Hrep') as HL'.
    split; intros x Hx Hin.
    + rewrite (rep_query _ _ _ _ Hrep' Hx). by erewrite leaf_find_delete_in.
    + eapply rep_query_same; [done..|]. by eapply leaf_find_delete_out.
  - rewrite (rep_query _ _ _ _ Hrep Hva) in Hq. destruct (leaf_find L va) as [[b lf]|]; [done|].
    injection Hq as <-. destruct H as [-> Hrep']. split; [done|]. exists t'. split; [done|].
    intros x Hx. by eapply rep_query_same.
  - rewrite (rep_query _ _ _ _ Hrep Hva) in Hq. by destruct (leaf_find L va) as [[b lf]|].
Qed.

(** C18: [protect] gives every byte of the page the new flags and keeps where it
    translates to; it changes no other page, and fails with [NotMapped],
    changing nothing, where nothing is mapped. *)
Theorem protect_query a0 t a va f :
  reachable a0 t a → va_valid va = true → leaf_flags f →
  match query t va with
  | Ok (p, g, ps) =>
      let b := va - va mod page_bytes ps in
      ∃ t', protect va f t = (Ok ps, t') ∧
        (∀ x, va_valid x = true → b ≤ x < b + page_bytes ps →
           query t' x = Ok (p + (x - va), pte_readback f, ps)) ∧
        (∀ x, va_valid x = true → ¬ b ≤ x < b + page_bytes ps → query t' x = query t x)
  | Err e => e = Paging.NotMapped ∧ ∃ t', protect va f t = (Err Paging.NotMapped, t') ∧
      ∀ x, va_valid x = true → query t' x = query t x
  | Panic => False
  end.
Proof.
  intros (L & T & Hrep & _)%reachable_rep Hva Hf. pose proof Hva as [Hva' Hv]%va_valid_spec.
  pose proof (protect_spec Hrep Hva' Hv f Hf) as H. unfold wp in H.
  destruct (protect va f t) as [r t']. cbn [fst snd] in H. pose proof (rep_leaves _ _ _ Hrep) as HL.
  destruct (query t va) as [[[p g] ps]|e|] eqn:Hq.
  - destruct (rep_query_leaf _ _ _ _ _ _ _ Hrep Hva Hq) as [Hfind Hb]. rewrite Hfind in H. cbn in H.
    destruct H as [-> Hrep']. exists t'. split; [done|]. pose proof (rep_leaves _ _ _ Hrep') as HL'.
    split; intros x Hx Hin.
    + rewrite (rep_query _ _ _ _ Hrep' Hx). rewrite leaf_find_insert_in by done. cbn.
      do 3 f_equal. lia.
    + eapply rep_query_same; [done..|]. eapply leaf_find_insert_out; [exact HL|exact HL'| |done].
      intros lf' Hb'. by simplify_eq.
  - rewrite (rep_query _ _ _ _ Hrep Hva) in Hq. destruct (leaf_find L va) as [[b lf]|]; [done|].
    injection Hq as <-. destruct H as [-> Hrep']. split; [done|]. exists t'. split; [done|].
    intros x Hx. by eapply rep_query_same.
  - rewrite (rep_query _ _ _ _ Hrep Hva) in Hq. by destruct (leaf_find L va) as [[b lf]|].
Qed.

(** C19: the walk of a range visits exactly the pages that meet it and that
    [query] answers for, each once, in increasing address order, with the
    translation [query] gives. *)
Theorem walk_query a0 t a start size :
  reachable a0 t a → 0 ≤ start → 0 < size → start + size ≤ usize_max →
  ∃ vs, walk_leaf_range t start size = Ok vs ∧
    StronglySorted (λ v w : Z * Z * Z * PageSize, v.1.1.1 < w.1.1.1) vs ∧
    ∀ b p f ps, (b, p, f, ps) ∈ vs ↔
      va_valid b = true ∧ query t b = Ok (p, f, ps) ∧ b mod page_bytes ps = 0 ∧
      b < start + size ∧ start < b + page_bytes ps.
Proof.
  intros (L & T & Hrep & _)%reachable_rep Hst Hsz Hmax. pose proof (rep_leaves _ _ _ Hrep) as HL.
  destruct (walk_leaf_range_spec t L T start size Hrep Hst Hsz Hmax) as (vs & Hvs & Hsort & Hin).
  exists vs. split; [done|]. split; [exact Hsort|]. intros b p f ps. rewrite Hin. split.
  - intros [Hb [H1 H2]]. assert (va_valid b = true) as Hv by exact (pt_rep_valid (PageTable := pt64 mem) t L T b _ Hrep Hb).
    split; [done|]. rewrite (rep_query _ _ _ _ Hrep Hv). destruct (lw_base _ _ _ HL _ _ Hb) as (Hal & _).
    replace (leaf_find L b) with (Some (b, Leaf p f ps)).
    { cbn. replace (p + (b - b)) with p by lia. done. }
    symmetry. apply (leaf_find_Some HL). split; [done|]. pose proof (page_bytes_pos ps). cbn. lia.
  - intros (Hv & Hq & Hal & Hlo & Hhi). destruct (rep_query_leaf _ _ _ _ _ _ _ Hrep Hv Hq) as [_ Hb].
    rewrite Hal, !Z.sub_0_r in Hb. split; [done|]. split; done.
Qed.

(** C20: whatever was mapped, remapped, protected and unmapped between, the
    destructor leaves the page allocator with exactly the pages that were in
    use before the table was created. *)
Theorem drop_balanced a0 t a :
  reachable a0 t a → pa_used (drop_table t a) = pa_used a0.
Proof.
  intros (L & T & Hrep & Hdis & Hused)%reachable_rep.
  rewrite (drop_table_spec t L T) by (done || set_solver). rewrite Hused. set_solver.
Qed.
End theorems.

(** ** Evaluated on the concrete platform *)

Module PtExample.
Import Platform.
Definition no_pages : pa_state := (∅ : gset Z).
Definition blank : page_table64 := {| root_paddr := 0; pt_store := λ _ _, 0 |}.
Definition fresh : page_table64 * pa_state :=
  match try_new (λ _ _, 0) no_pages with (Ok t, a) => (t, a) | (_, a) => (blank, a) end.
Lemma fresh_reachable : reachable (λ _ _, 0) no_pages fresh.1 fresh.2.
Proof. by apply reach_new. Qed.
Definition user_rw : Z := READ |+| WRITE |+| USER.
Lemma user_rw_leaf : leaf_flags user_rw.
Proof. right. split; [by vm_compute|]. left. by vm_compute. Qed.
Definition op : pt_op := OpMap 0x5000 0x80007000 Size4K user_rw.
Lemma op_fits t : op_ok t op.
Proof. split_and!; try by vm_compute. apply user_rw_leaf. Qed.
Definition mapped : page_table64 * pa_state := (exec_op op fresh).2.
Lemma mapped_reachable : reachable (λ _ _, 0) no_pages mapped.1 mapped.2.
Proof.
  eapply (reach_op _ _ fresh.1 fresh.2 op (exec_op op fresh).1); [apply fresh_reachable|apply op_fits|].
  unfold mapped. change (fresh.1, fresh.2) with fresh.
  by destruct (exec_op op fresh) as [r [t a]].
Qed.

Lemma map_page_query_witness :
  reachable (λ _ _, 0) no_pages fresh.1 fresh.2 ∧ op_ok fresh.1 op ∧
  (map_page 0x5000 0x80007000 Size4K user_rw fresh).1 = Ok () ∧
  query (map_page 0x5000 0x80007000 Size4K user_rw fresh).2.1 0x5123 =
    Ok (0x80007123, Rv64.rv_readback user_rw, Size4K).
Proof.
  pose proof (map_page_query (λ _ _, 0) no_pages fresh.1 fresh.2 0x5000 0x80007000 Size4K user_rw
    fresh_reachable (op_fits _)) as H.
  split; [apply fresh_reachable|]. split; [apply op_fits|].
  assert ((map_page 0x5000 0x80007000 Size4K user_rw fresh).1 = Ok ()) as Hok by (by vm_compute).
  split; [exact Hok|]. change (fresh.1, fresh.2) with fresh in H.
  destruct (map_page 0x5000 0x80007000 Size4K user_rw fresh) as [r [t' a']]. cbn in Hok. subst r.
  destruct H as [H _]. destruct (H 0x5123) as [_ Hq]; [by vm_compute|cbn; lia|]. exact Hq.
Defined.

Lemma mapped_query : query mapped.1 0x5123 = Ok (0x80007123, Rv64.rv_readback user_rw, Size4K).
Proof. by vm_compute. Qed.

Lemma unmap_query_witness :
  reachable (λ _ _, 0) no_pages mapped.1 mapped.2 ∧ va_valid 0x5123 = true ∧
  ∃ t', unmap 0x5123 mapped.1 = (Ok (0x80007000, Size4K), t') ∧
    query t' 0x5fff = Err Paging.NotMapped.
Proof.
  pose proof (unmap_query (λ _ _, 0) no_pages mapped.1 mapped.2 0x5123 mapped_reachable eq_refl) as H.
  rewrite mapped_query in H. destruct H as (t' & Hu & Hin & _).
  split; [apply mapped_reachable|]. split; [done|]. exists t'. split; [exact Hu|].
  apply Hin; [done|]. split; by vm_compute.
Defined.

Lemma protect_query_witness :
  reachable (λ _ _, 0) no_pages mapped.1 mapped.2 ∧ va_valid 0x5123 = true ∧
  leaf_flags (READ |+| USER) ∧
  ∃ t', protect 0x5123 (READ |+| USER) mapped.1 = (Ok Size4K, t') ∧
    query t' 0x5fff = Ok (0x80007fff, Rv64.rv_readback (READ |+| USER), Size4K).
Proof.
  assert (leaf_flags (READ |+| USER)) as Hf
    by (right; split; [by vm_compute|]; left; by vm_compute).
  pose proof (protect_query (λ _ _, 0) no_pages mapped.1 mapped.2 0x5123 (READ |+| USER)
    mapped_reachable eq_refl Hf) as H.
  rewrite mapped_query in H. destruct H as (t' & Hu & Hin & _).
  split; [apply mapped_reachable|]. split; [done|]. split; [done|]. exists t'. split; [exact Hu|].
  apply Hin; [done|]. split; by vm_compute.
Defined.

Lemma walk_query_witness :
  reachable (λ _ _, 0) no_pages mapped.1 mapped.2 ∧
  ∃ vs, walk_leaf_range mapped.1 0x1000 0x100000 = Ok vs ∧
    (0x5000, 0x80007000, Rv64.rv_readback user_rw, Size4K) ∈ vs.
Proof.
  destruct (walk_query (λ _ _, 0) no_pages mapped.1 mapped.2 0x1000 0x100000 mapped_reachable)
    as (vs & Hvs & _ & Hin); [lia|lia|by vm_compute|].
  split; [apply mapped_reachable|]. exists vs. split; [exact Hvs|]. apply Hin.
  split_and!; by vm_compute.
Defined.

Lemma drop_balanced_witness :
  reachable (λ _ _, 0) no_pages mapped.1 mapped.2 ∧
  pa_used mapped.2 ≠ ∅ ∧ pa_used (drop_table mapped.1 mapped.2) = ∅.
Proof.
  split; [apply mapped_reachable|]. split; [by vm_compute|].
  exact (drop_balanced (λ _ _, 0) no_pages mapped.1 mapped.2 mapped_reachable).
Defined.

Lemma rv64_pte_roundtrip_witness :
  ∃ e, Rv64.Rv64PTE.(new_page) 0x80007000 user_rw false = Some e ∧
    reads_back e 0x80007000 user_rw ∧ reads_back (set_paddr e 0x80009000) 0x80009000 user_rw.
Proof.
  destruct (rv64_pte_roundtrip 0x80007000 0x80009000 user_rw user_rw false)
    as (e & He & Hb & _ & _ & Hq & _);
    [done|done|lia|done|lia|apply user_rw_leaf|apply user_rw_leaf|]. by exists e.
Defined.

Lemma la64_pte_roundtrip_witness :
  ∃ e, La64.LA64PTE.(new_page) 0x80007000 (READ |+| WRITE |+| DEVICE) true = Some e ∧
    reads_back (H := La64.LA64PTE) e 0x80007000 (READ |+| WRITE |+| DEVICE) ∧
    contains (La64.LA64PTE.(pte_flags_of) e) DEVICE = true.
Proof.
  assert (leaf_flags (CFG := la_config) (READ |+| WRITE |+| DEVICE)) as Hf
    by (right; split; [by vm_compute|]; left; by vm_compute).
  destruct (la64_pte_roundtrip (CFG := la_config) 0x80007000 0x80009000 (READ |+| WRITE |+| DEVICE)
    (READ |+| WRITE |+| DEVICE) true) as (e & He & Hb & Hd & _); [done|lia|done|lia|done|done|].
  exists e. split; [done|]. split; [done|]. destruct Hd as [-> _]; by vm_compute.
Defined.
End PtExample.
