(* ===== verification/VmArea.v ===== *)
(** * Virtual-memory areas (xvma/src/{object,area,backend}.rs)

    The page source interface [VmObject], the backing of an area, and the
    operations of one area on the page tables. Programs act on an address
    space and the machine; where an area is changed in two address spaces
    ([map_child]), the parent is read only. *)
From S2P Require Import Prelude Errno MemAddr Frame PageTable AddressSpace.
From stdpp Require Import prelude gmap list.
Open Scope Z_scope.

(** ** Page sources (object.rs) *)

(** [VmPage]: a counted frame, and the guard of a writable page. *)
Record VmPage {guard : Type} := MkVmPage { vp_frame : Frame; vp_guard : option guard }.
Arguments VmPage : clear implicits.
Arguments MkVmPage {guard}.

(** [dyn VmObject] (its operations) with the state of all page sources. *)
Class VmObject `{CFG : Config, PA : PageAllocator} := {
  vm_object : Type;
  vm_guard : Type;
  objects : Type;
  object_id : vm_object → Z;
  object_byte_len : vm_object → objects → outcome Z Z;
  object_page : vm_object → Z → bool → prog (objects * machine) Z (VmPage vm_guard);
  object_sync : vm_object → Z → Z → bool → prog objects Z ();
  object_requires_write_guard : vm_object → bool;
}.

(** ** Backing (backend.rs) *)

Section area.
Context {CFG : Config} {PA : PageAllocator} {BF : BitFlags} {MA : MemoryAddr} {PT : PageTable}.
Context {VO : VmObject}.
Abbreviation state := (AddressSpace * machine)%type.

Inductive Source :=
  | SrcZero
  | SrcStatic (frames : StaticFrameRange)
  | SrcObject (object : vm_object) (offset : Z).
Record Backing := MkBacking { source : Source; private : bool }.
Record VmArea := MkVmArea {
  a_range : vrange; a_flags : Z; a_page_size : PageSize; a_backing : Backing }.
Record Backend := MkBackend { be_backing : Backing; be_page_size : PageSize; be_populate : bool }.

Definition static_frames (frames : StaticFrameRange) (page_size : PageSize) : Backend :=
  MkBackend (MkBacking (SrcStatic frames) false) page_size false.
Definition anonymous (populate : bool) : Backend :=
  MkBackend (MkBacking SrcZero true) Size4K populate.
Definition backend_object (object : vm_object) (offset : Z) (private populate : bool) : Backend :=
  MkBackend (MkBacking (SrcObject object offset) private) Size4K populate.
Definition backend_private (object : vm_object) (offset : Z) (populate : bool) : Backend :=
  backend_object object offset true populate.
Definition backend_shared (object : vm_object) (offset : Z) (populate : bool) : Backend :=
  backend_object object offset false populate.

Definition backend_prepare (b : Backend) (size : Z) :
    outcome XError (PageSize * Backing * bool) :=
  let ok := Ok (be_page_size b, be_backing b, be_populate b) in
  match source (be_backing b) with
  | SrcZero => ok
  | SrcStatic frames => if negb (sfr_size frames =? size) then Err InvalidInput else ok
  | SrcObject _ offset =>
      if negb (is_multiple_of offset (page_bytes Size4K))
         || bool_decide (usize_checked_add offset size = None)
      then Err InvalidInput else ok
  end.

Definition shifted (b : Backing) (delta size : Z) : option Backing :=
  src ← match source b with
        | SrcZero => Some SrcZero
        | SrcStatic frames =>
            match sfr_subrange frames delta size with
            | Ok frames => Some (SrcStatic frames) | _ => None end
        | SrcObject object offset =>
            offset ← usize_checked_add offset delta; Some (SrcObject object offset)
        end;
  Some (MkBacking src (private b)).

Definition backing_can_merge (b next : Backing) (left_size : Z) : bool :=
  if negb (Bool.eqb (private b) (private next)) then false
  else
    match source b, source next with
    | SrcZero, SrcZero => true
    | SrcObject left_object left_offset, SrcObject right_object right_offset =>
        (object_id left_object =? object_id right_object)
        && match usize_checked_add left_offset left_size with
           | Some offset => offset =? right_offset | None => false end
    | _, _ => false
    end.

Definition object_at (b : Backing) (delta : Z) : option (Z * vm_object) :=
  match source b with
  | SrcObject object offset => offset ← usize_checked_add offset delta; Some (offset, object)
  | _ => None
  end.

Definition requires_write_guard (b : Backing) : bool :=
  negb (private b)
  && match source b with SrcObject object _ => object_requires_write_guard object | _ => false end.

Definition backing_map (b : Backing) (area : VmArea) : prog state XError () :=
  match source b with
  | SrcStatic frames =>
      map_static_range (vr_start (a_range area)) frames (a_flags area) (a_page_size area)
  | SrcZero | SrcObject _ _ => mret ()
  end.

Definition backing_unmap (b : Backing) (area : VmArea) (range : vrange) : prog state XError () :=
  match source b with
  | SrcStatic _ => unmap_static_range (vr_start range) (vr_size range) (a_page_size area)
  | SrcZero | SrcObject _ _ => unmap_alloc_range (vr_start range) (vr_size range)
  end.

Definition backing_protect (b : Backing) (area : VmArea) (range : vrange) (flags : Z) :
    prog txn_state XError () :=
  match source b with
  | SrcStatic frames =>
      let offset := vr_start range - vr_start (a_range area) in
      sub ← lift (sfr_subrange frames offset (vr_size range));
      txn_protect_static_range (vr_start range) sub flags (a_page_size area)
  | _ =>
      if negb (contains flags WRITE) then
        txn_protect_alloc_range (vr_start range) (vr_size range) flags
      else if private b then
        txn_protect_alloc_range_with (vr_start range) (vr_size range)
          (λ exclusive, if exclusive : bool then flags else flags |-| WRITE)
      else if requires_write_guard b then
        txn_protect_alloc_range (vr_start range) (vr_size range) (flags |-| WRITE)
      else txn_protect_alloc_range (vr_start range) (vr_size range) flags
  end.

(** The loop of [map_child]; what is left of the snapshot is dropped when
    [map_frame] fails. *)
Fixpoint map_child_frames (private : bool) (frames : list (Z * Frame * Z)) :
    prog state XError () :=
  match frames with
  | [] => mret ()
  | (address, frame, flags) :: rest =>
      let flags := if private then flags |-| WRITE else flags in
      attempt (map_frame address frame flags) (λ r,
        match r with
        | Ok _ => map_child_frames private rest
        | Err error => on_machine (drop_snapshots rest);; throw error
        | Panic => panic
        end)
  end.
Definition backing_map_child (b : Backing) (area : VmArea) (parent : AddressSpace) :
    prog state XError () :=
  match source b with
  | SrcStatic frames =>
      map_static_range (vr_start (a_range area)) frames (a_flags area) (a_page_size area)
  | _ =>
      frames ← on_machine (zoom (λ m, (parent, m)) (λ s _, s.2) (mapped_frames (a_range area)));
      map_child_frames (private b) frames
  end.

Definition backing_protect_parent_after_fork (b : Backing) (area : VmArea) :
    prog txn_state XError () :=
  if private b && contains (a_flags area) WRITE then
    txn_protect_alloc_range (vr_start (a_range area)) (vr_size (a_range area))
      (a_flags area |-| WRITE)
  else mret ().

(** ** Areas (area.rs) *)

Definition overlap_with (area : VmArea) (range : vrange) : outcome XError vrange :=
  expect (vr_new (Z.max (vr_start (a_range area)) (vr_start range))
                 (Z.min (vr_end (a_range area)) (vr_end range))).

Definition checked_slice (area : VmArea) (range : vrange) (flags : Z) : option VmArea :=
  if negb (vr_contains_range (a_range area) range)
     || negb (is_aligned (vr_start range) (page_bytes (a_page_size area)))
     || negb (is_multiple_of (vr_size range) (page_bytes (a_page_size area)))
  then None
  else
    backing ← shifted (a_backing area) (vr_start range - vr_start (a_range area)) (vr_size range);
    Some (MkVmArea range flags (a_page_size area) backing).

Definition is_private (area : VmArea) : bool := private (a_backing area).

Definition can_merge (left right : VmArea) : bool :=
  if negb (vr_end (a_range left) =? vr_start (a_range right))
     || negb (a_flags left =? a_flags right)
     || negb (bool_decide (a_page_size left = a_page_size right))
  then false
  else backing_can_merge (a_backing left) (a_backing right) (vr_size (a_range left)).

Definition area_map (area : VmArea) : prog state XError () := backing_map (a_backing area) area.
Definition area_unmap (area : VmArea) (range : vrange) : prog state XError () :=
  backing_unmap (a_backing area) area range.
Definition area_protect (area : VmArea) (range : vrange) (flags : Z) : prog txn_state XError () :=
  backing_protect (a_backing area) area range flags.
Definition area_map_child (area : VmArea) (parent : AddressSpace) : prog state XError () :=
  backing_map_child (a_backing area) area parent.
Definition area_protect_parent_after_fork (area : VmArea) : prog txn_state XError () :=
  backing_protect_parent_after_fork (a_backing area) area.
End area.
