(* ===== verification/VmSpace.v ===== *)
(** * Virtual-memory spaces (xvma/src/{space,fault}.rs)

    [VmSpace]: the areas of one user address space, its page tables and the
    guards of its writable shared pages. Programs act on the space, the page
    sources and the machine. *)
From S2P Require Import Prelude Errno MemAddr Frame PageTable AddressSpace BTree VmArea.
From stdpp Require Import prelude gmap list.
Open Scope Z_scope.

Inductive FaultResolution := Resolved | Retry | Segv | Bus | FaultNoMemory.
#[export] Instance FaultResolution_eq_dec : EqDecision FaultResolution.
Proof. solve_decision. Defined.

Definition from_page_error (error : Z) : FaultResolution :=
  if error =? EAGAIN then Retry else if error =? ENOMEM then FaultNoMemory else Bus.

Section space.
Context {CFG : Config} {PA : PageAllocator} {BF : BitFlags} {MA : MemoryAddr} {PT : PageTable}.
Context {VO : VmObject}.

Record VmSpace := MkVmSpace {
  vs_range : vrange;
  (** [BTreeMap<VirtAddr, VmArea>] *)
  vs_areas : list (Z * VmArea);
  vs_aspace : AddressSpace;
  vs_guards : list (Z * vm_guard);
}.
Record world := World { w_space : VmSpace; w_objects : objects; w_machine : machine }.

Definition set_areas (areas : list (Z * VmArea)) (w : world) : world :=
  let vs := w_space w in
  World (MkVmSpace (vs_range vs) areas (vs_aspace vs) (vs_guards vs)) (w_objects w) (w_machine w).
Definition set_guards (guards : list (Z * vm_guard)) (w : world) : world :=
  let vs := w_space w in
  World (MkVmSpace (vs_range vs) (vs_areas vs) (vs_aspace vs) guards) (w_objects w) (w_machine w).
Definition on_aspace {E A} (m : prog (AddressSpace * machine) E A) : prog world E A :=
  zoom (λ w, (vs_aspace (w_space w), w_machine w))
    (λ s w, let vs := w_space w in
       World (MkVmSpace (vs_range vs) (vs_areas vs) s.1 (vs_guards vs)) (w_objects w) s.2) m.
Definition on_wm {E A} (m : prog machine E A) : prog world E A :=
  zoom w_machine (λ m w, World (w_space w) (w_objects w) m) m.
Definition on_objects {E A} (m : prog (objects * machine) E A) : prog world E A :=
  zoom (λ w, (w_objects w, w_machine w)) (λ s w, World (w_space w) s.1 s.2) m.

(** ** Layout queries *)

Definition area_at (vs : VmSpace) (address : Z) : option VmArea :=
  '(_, area) ← bt_floor address (vs_areas vs);
  if vr_contains (a_range area) address then Some area else None.

Definition vm_validate_range (vs : VmSpace) (start size : Z) (page_size : PageSize) :
    outcome XError vrange :=
  if (size =? 0) || negb (is_aligned start (page_bytes page_size))
     || negb (is_multiple_of size (page_bytes page_size))
  then Err InvalidInput
  else
    range ← ok_or InvalidInput (vr_try_from_start_size start size);
    if vr_contains_range (vs_range vs) range then Ok range else Err InvalidInput.
Definition validate_existing_range (vs : VmSpace) (start size : Z) : outcome XError vrange :=
  vm_validate_range vs start size Size4K.
Definition validate_new_area (vs : VmSpace) (start size : Z) (page_size : PageSize) :
    outcome XError vrange :=
  range ← vm_validate_range vs start size page_size;
  if existsb (λ area, vr_overlaps (a_range area) range) (bt_values (vs_areas vs))
  then Err AlreadyExists else Ok range.

(** The areas an operation on [range] touches. *)
Definition overlapping (areas : list (Z * VmArea)) (range : vrange) : list VmArea :=
  filter (λ area, vr_overlaps (a_range area) range = true) (bt_values areas).

(** The part of [area] before [range], and the part after it. *)
Definition slice_before (area : VmArea) (range : vrange) : outcome XError (option VmArea) :=
  r ← expect (vr_new (vr_start (a_range area)) (vr_start range));
  Ok (checked_slice area r (a_flags area)).
Definition slice_after (area : VmArea) (range : vrange) : outcome XError (option VmArea) :=
  r ← expect (vr_new (vr_end range) (vr_end (a_range area)));
  Ok (checked_slice area r (a_flags area)).

Fixpoint validate_splits (areas : list VmArea) (changed : vrange) : outcome XError () :=
  match areas with
  | [] => Ok ()
  | area :: rest =>
      (if vr_start (a_range area) <? vr_start changed then
         s ← slice_before area changed; _ ← ok_or InvalidInput s; Ok ()
       else Ok ());;
      (if vr_end changed <? vr_end (a_range area) then
         s ← slice_after area changed; _ ← ok_or InvalidInput s; Ok ()
       else Ok ());;
      validate_splits rest changed
  end.
Definition validate_split_offsets (vs : VmSpace) (changed : vrange) : outcome XError () :=
  validate_splits (overlapping (vs_areas vs) changed) changed.

(** The loop of [check_region_access]; it visits every area at most once. *)
Fixpoint check_access (fuel : nat) (vs : VmSpace) (range : vrange) (access : Z) :
    outcome XError bool :=
  if vr_is_empty range then Ok true
  else
    match fuel with
    | O => Panic
    | S fuel' =>
        match area_at vs (vr_start range) with
        | None => Ok false
        | Some area =>
            if negb (contains (a_flags area) access) then Ok false
            else
              check_access fuel' vs
                (VRange (Z.min (vr_end (a_range area)) (vr_end range)) (vr_end range)) access
        end
    end.
Definition check_region_access (vs : VmSpace) (range : vrange) (access : Z) : outcome XError bool :=
  check_access (S (length (vs_areas vs))) vs range access.

(** The loop of [find_free_area]. *)
Fixpoint find_free (areas : list VmArea) (size : Z) (search : vrange) (page_size : PageSize)
    (candidate : Z) : option Z :=
  let last :=
    fin ← checked_add candidate size; if fin <=? vr_end search then Some candidate else None in
  match areas with
  | [] => last
  | area :: rest =>
      if vr_end (a_range area) <=? candidate then find_free rest size search page_size candidate
      else if vr_end search <=? vr_start (a_range area) then last
      else if match checked_add candidate size with
              | Some fin => (fin <=? vr_start (a_range area)) && (fin <=? vr_end search)
              | None => false end
      then Some candidate
      else find_free rest size search page_size (align_up (vr_end (a_range area)) (page_bytes page_size))
  end.
Definition find_free_area (vs : VmSpace) (hint size : Z) (limit : vrange) (page_size : PageSize) :
    outcome XError (option Z) :=
  if (size =? 0) || negb (is_multiple_of size (page_bytes page_size)) then Ok None
  else
    let search_start := Z.max (vr_start limit) (vr_start (vs_range vs)) in
    let search_end := Z.min (vr_end limit) (vr_end (vs_range vs)) in
    if search_end <=? search_start then Ok None
    else
      search ← expect (vr_new search_start search_end);
      let candidate := align_up (Z.max hint (vr_start search)) (page_bytes page_size) in
      Ok (find_free (bt_values (vs_areas vs)) size search page_size candidate).

Definition shared_object_at (vs : VmSpace) (address : Z) : option (Z * Z) :=
  area ← area_at vs address;
  if is_private area then None
  else
    '(offset, object) ← object_at (a_backing area) (address - vr_start (a_range area));
    Some (object_id object, offset).
Definition maps_object (vs : VmSpace) (id : Z) : bool :=
  existsb (λ area, match object_at (a_backing area) 0 with
                   | Some (_, object) => object_id object =? id | None => false end)
    (bt_values (vs_areas vs)).

(** ** Splitting and merging areas *)

(** [merged_area_map], with the map under construction and the area being
    extended. *)
Definition merge_step (acc : list (Z * VmArea) * option VmArea) (area : VmArea) :
    outcome XError (list (Z * VmArea) * option VmArea) :=
  match acc.2 with
  | Some previous =>
      if can_merge previous area then
        range ← expect (vr_new (vr_start (a_range previous)) (vr_end (a_range area)));
        Ok (acc.1, Some (MkVmArea range (a_flags previous) (a_page_size previous) (a_backing previous)))
      else Ok (bt_insert (vr_start (a_range previous)) previous acc.1, Some area)
  | None => Ok (acc.1, Some area)
  end.
Fixpoint merge_areas (areas : list VmArea) (acc : list (Z * VmArea) * option VmArea) :
    outcome XError (list (Z * VmArea)) :=
  match areas with
  | [] =>
      Ok match acc.2 with
         | Some area => bt_insert (vr_start (a_range area)) area acc.1 | None => acc.1 end
  | area :: rest => acc' ← merge_step acc area; merge_areas rest acc'
  end.
Definition merged_area_map (old : list (Z * VmArea)) : outcome XError (list (Z * VmArea)) :=
  merge_areas (bt_values old) ([], None).

Definition insert_area (area : VmArea) (areas : list (Z * VmArea)) : list (Z * VmArea) :=
  bt_insert (vr_start (a_range area)) area areas.
(** Inserting a slice that the caller validated. *)
Definition insert_slice (s : option VmArea) (areas : list (Z * VmArea)) :
    outcome XError (list (Z * VmArea)) :=
  area ← expect s; Ok (insert_area area areas).

(** One iteration of [retain_outside] and of the commit of [protect], where
    the middle part is kept with other flags. *)
Definition carve_area (area : VmArea) (range : vrange) (middle : option Z)
    (areas : list (Z * VmArea)) : outcome XError (list (Z * VmArea)) :=
  if negb (vr_overlaps (a_range area) range) then Ok (insert_area area areas)
  else
    areas ← (if vr_start (a_range area) <? vr_start range then
               s ← slice_before area range; insert_slice s areas
             else Ok areas);
    areas ← match middle with
            | Some flags => r ← overlap_with area range; insert_slice (checked_slice area r flags) areas
            | None => Ok areas
            end;
    if vr_end range <? vr_end (a_range area) then
      s ← slice_after area range; insert_slice s areas
    else Ok areas.
Fixpoint carve_areas (old : list VmArea) (range : vrange) (middle : option Z)
    (areas : list (Z * VmArea)) : outcome XError (list (Z * VmArea)) :=
  match old with
  | [] => Ok areas
  | area :: rest => areas ← carve_area area range middle areas; carve_areas rest range middle areas
  end.
Definition retain_outside (old : list (Z * VmArea)) (removed : vrange) :
    outcome XError (list (Z * VmArea)) :=
  areas ← carve_areas (bt_values old) removed None [];
  merged_area_map areas.
(** The areas [protect] commits. *)
Definition protected_areas (old : list (Z * VmArea)) (protected : vrange) (flags : Z) :
    outcome XError (list (Z * VmArea)) :=
  areas ← carve_areas (bt_values old) protected (Some flags) [];
  merged_area_map areas.

(** ** Write guards *)

Definition drop_write_guards (range : vrange) : prog world XError () :=
  modify (λ w, set_guards
    (filter (λ g, vr_contains range g.1 = false) (vs_guards (w_space w))) w).
(** The index [binary_search_by_key] gives for keys in increasing order: that
    of the key, or where it would be. *)
Definition insert_write_guard (address : Z) (guard : vm_guard) : prog world XError () :=
  modify (λ w,
    let guards := vs_guards (w_space w) in
    let index := length (filter (λ g, g.1 < address) guards) in
    set_guards (take index guards ++ (address, guard) :: drop index guards) w).
End space.
