(* ===== verification/VmOps.v ===== *)
(** * Operations on virtual-memory spaces (xvma/src/{space,fault}.rs)

    Mapping, unmapping, protection, fork and page faults. Values dropped at
    the end of a scope (frames, the child of a failed fork) are dropped
    explicitly, in the order Rust drops them. *)
From S2P Require Import Prelude Errno MemAddr Frame PageTable AddressSpace BTree VmArea VmSpace.
From stdpp Require Import prelude gmap list.
Open Scope Z_scope.

Section ops.
Context {CFG : Config} {PA : PageAllocator} {BF : BitFlags} {MA : MemoryAddr} {PT : PageTable}.
Context {VO : VmObject}.

Definition vm_new_empty (base size : Z) : prog machine XError VmSpace :=
  range ← lift (ok_or InvalidInput (vr_try_from_start_size base size));
  aspace ← new_user base size;
  mret (MkVmSpace range [] aspace []).

(** ** Page faults (fault.rs) *)

Definition resolution (r : outcome XError ()) : FaultResolution :=
  match r with
  | Ok _ => Resolved
  | Err NoMemory => FaultNoMemory
  | _ => Segv
  end.

Definition resolve_private_write (page flags : Z) : prog world XError FaultResolution :=
  attempt (on_aspace (frame_if_shared page)) (λ shared,
    match shared with
    | Ok None =>
        attempt (on_aspace (protect_alloc_page page flags)) (λ r,
          mret match r with Ok _ => Resolved | _ => Segv end)
    | Ok (Some current) =>
        copy ← on_wm (frame_deep_copy current);
        match copy with
        | None => on_wm (frame_drop current);; mret FaultNoMemory
        | Some replacement =>
            attempt (on_aspace (replace_frame page current replacement flags)) (λ r,
              on_wm (frame_drop current);; mret (resolution r))
        end
    | _ => mret Segv
    end).

Definition reserve_write_guard : prog world XError bool := on_wm try_reserve.

(** [dropped]: what the closure owns, dropped when it is not called *)
Definition commit_page (page : Z) (guard : option vm_guard)
    (pte_change : prog (AddressSpace * machine) XError ()) (dropped : prog machine XError ()) :
    prog world XError FaultResolution :=
  reserved ← (match guard with Some _ => reserve_write_guard | None => mret true end);
  if negb reserved then on_wm dropped;; mret FaultNoMemory
  else
    attempt (on_aspace pte_change) (λ r,
      match r with
      | Ok _ =>
          match guard with Some guard => insert_write_guard page guard | None => mret () end;;
          mret Resolved
      | _ => mret (resolution r)
      end).
Definition install_page (page : Z) (frame : Frame) (flags : Z) (guard : option vm_guard) :
    prog world XError FaultResolution :=
  commit_page page guard (map_frame page frame flags) (frame_drop frame).

Definition resolve_object_fault (page : Z) (area : VmArea) (object : vm_object)
    (source_offset : Z) (private : bool) (access : Z) : prog world XError FaultResolution :=
  match usize_checked_add source_offset (page - vr_start (a_range area)) with
  | None => mret Bus
  | Some object_offset =>
      objs ← gets w_objects;
      match object_byte_len object objs with
      | Err error => mret (from_page_error error)
      | Panic => panic
      | Ok object_len =>
          if object_len <=? object_offset then mret Bus
          else
            let writing := contains access WRITE in
            let index := object_offset / PAGE_SIZE_4K in
            attempt (on_objects (object_page object index (negb private && writing))) (λ r,
              match r with
              | Err error => mret (from_page_error error)
              | Panic => panic
              | Ok supplied =>
                  let frame := vp_frame supplied in
                  if private then
                    if negb writing then install_page page frame (a_flags area |-| WRITE) None
                    else
                      copy ← on_wm (frame_deep_copy frame);
                      match copy with
                      | None => on_wm (frame_drop frame);; mret FaultNoMemory
                      | Some copy =>
                          result ← install_page page copy (a_flags area) None;
                          on_wm (frame_drop frame);;
                          mret result
                      end
                  else
                    let flags :=
                      if object_requires_write_guard object
                         && bool_decide (vp_guard supplied = None)
                      then a_flags area |-| WRITE else a_flags area in
                    install_page page frame flags (vp_guard supplied)
              end)
      end
  end.

Definition upgrade_shared_write (page : Z) (area : VmArea) (object : vm_object)
    (object_offset : Z) : prog world XError FaultResolution :=
  let index := object_offset / PAGE_SIZE_4K in
  attempt (on_objects (object_page object index true)) (λ r,
    match r with
    | Err error => mret (from_page_error error)
    | Panic => panic
    | Ok supplied =>
        result ←
          (if object_requires_write_guard object && bool_decide (vp_guard supplied = None)
           then mret Bus
           else commit_page page (vp_guard supplied) (protect_alloc_page page (a_flags area)) (mret ()));
        on_wm (frame_drop (vp_frame supplied));;
        mret result
    end).

(** [Backing::resolve_fault] (backend.rs) *)
Definition resolve_fault (b : Backing) (area : VmArea) (page access : Z) :
    prog world XError FaultResolution :=
  match source b with
  | SrcZero =>
      frame ← on_wm frame_allocate_zeroed;
      match frame with
      | None => mret FaultNoMemory
      | Some frame =>
          attempt (on_aspace (map_frame page frame (a_flags area))) (λ r, mret (resolution r))
      end
  | SrcObject object offset => resolve_object_fault page area object offset (private b) access
  | SrcStatic _ => mret Segv
  end.

Definition handle_page_fault (address access : Z) : prog world XError FaultResolution :=
  vs ← gets w_space;
  match area_at vs address with
  | None => mret Segv
  | Some area =>
      if negb (contains (a_flags area) access) then mret Segv
      else
        let page := align_down address (page_bytes (a_page_size area)) in
        match mapping_flags (vs_aspace vs) page with
        | Some flags =>
            if contains flags access then mret Resolved
            else if negb (contains access WRITE) then mret Segv
            else if is_private area then resolve_private_write page (a_flags area)
            else
              match object_at (a_backing area) (page - vr_start (a_range area)) with
              | None => mret Segv
              | Some (offset, object) => upgrade_shared_write page area object offset
              end
        | None => resolve_fault (a_backing area) area page access
        end
  end.

Definition populate_area (start size access : Z) : prog world XError () :=
  vs ← gets w_space;
  range ← lift (validate_existing_range vs start size);
  ok ← lift (check_region_access vs range access);
  if negb ok then throw NoMemory
  else
    addresses ← lift (ok_or InvalidInput (page_iter (page_bytes Size4K) (vr_start range) (vr_end range)));
    for_each addresses (λ page,
      r ← handle_page_fault page access;
      match r with
      | Resolved => mret ()
      | Retry => throw WouldBlock
      | FaultNoMemory => throw NoMemory
      | Segv => throw BadAddress
      | Bus => throw Io
      end).

(** ** Mapping, unmapping and protection (space.rs) *)

Definition vm_map (start size flags : Z) (backend : Backend) : prog world XError () :=
  vs ← gets w_space;
  prepared ← lift (backend_prepare backend size);
  let '(page_size, backing, eager) := prepared in
  range ← lift (validate_new_area vs start size page_size);
  let area := MkVmArea range flags page_size backing in
  on_aspace (area_map area);;
  modify (λ w, set_areas (insert_area area (vs_areas (w_space w))) w);;
  if negb eager then mret ()
  else
    attempt (populate_area start size flags) (λ r,
      match r with
      | Err error =>
          areas ← gets (λ w, vs_areas (w_space w));
          let '(removed, areas) := bt_remove start areas in
          area ← lift (expect removed);
          modify (set_areas areas);;
          unwrap_prog (on_aspace (area_unmap area range));;
          throw error
      | _ => mret ()
      end).

Definition vm_unmap (start size : Z) : prog world XError () :=
  vs ← gets w_space;
  removed ← lift (validate_existing_range vs start size);
  lift (validate_split_offsets vs removed);;
  for_each (overlapping (vs_areas vs) removed) (λ area,
    overlap ← lift (overlap_with area removed);
    on_aspace (area_unmap area overlap));;
  areas ← lift (retain_outside (vs_areas vs) removed);
  modify (set_areas areas);;
  drop_write_guards removed.

Definition vm_protect (start size flags : Z) : prog world XError () :=
  vs ← gets w_space;
  protected ← lift (validate_existing_range vs start size);
  mapped ← lift (check_region_access vs protected 0);
  if negb mapped then throw NoMemory
  else
    lift (validate_split_offsets vs protected);;
    committed ← lift (protected_areas (vs_areas vs) protected flags);
    on_aspace (with_txn (for_each (overlapping (vs_areas vs) protected) (λ area,
      overlap ← lift (overlap_with area protected);
      area_protect area overlap flags)));;
    modify (set_areas committed);;
    drop_write_guards protected.

Definition unmap_user_areas : prog world XError () :=
  vs ← gets w_space;
  for_each (bt_values (vs_areas vs)) (λ area, on_aspace (area_unmap area (a_range area)));;
  modify (set_areas []);;
  modify (set_guards []).

(** [Drop for VmSpace], then the drop of its address space. *)
Definition vm_drop (vs : VmSpace) : prog (objects * machine) XError () :=
  w ← zoom (λ s, World vs s.1 s.2) (λ w s, (w_objects w, w_machine w))
        (unwrap_prog unmap_user_areas;; gets id);
  zoom snd (λ m s, (s.1, m)) (aspace_drop (vs_aspace (w_space w))).

(** ** Fork *)

(** The parent's world and the child under construction. *)
Definition on_parent {E A} (m : prog world E A) : prog (world * VmSpace) E A :=
  zoom fst (λ w s, (w, s.2)) m.
Definition on_child {E A} (m : prog (AddressSpace * machine) E A) : prog (world * VmSpace) E A :=
  zoom (λ s, (vs_aspace s.2, w_machine s.1))
    (λ t s, (World (w_space s.1) (w_objects s.1) t.2,
             MkVmSpace (vs_range s.2) (vs_areas s.2) t.1 (vs_guards s.2))) m.

Definition clone_into_child : prog (world * VmSpace) XError () :=
  parent ← gets (λ s, w_space s.1);
  modify (λ s, (s.1, MkVmSpace (vs_range s.2) (vs_areas parent) (vs_aspace s.2) (vs_guards s.2)));;
  reserved ← on_parent (on_wm try_reserve);
  if negb reserved then throw NoMemory
  else
    modify (λ s, (s.1, MkVmSpace (vs_range s.2) (vs_areas s.2) (vs_aspace s.2) (vs_guards parent)));;
    for_each (bt_values (vs_areas parent)) (λ area,
      on_child (area_map_child area (vs_aspace parent)));;
    on_parent (on_aspace (with_txn (for_each (bt_values (vs_areas parent))
      area_protect_parent_after_fork))).

(** The child is dropped when its construction fails. *)
Definition run_clone (child : VmSpace) : prog world XError VmSpace := λ w,
  match clone_into_child (w, child) with
  | (Ok _, (w', child')) => (Ok child', w')
  | (Err error, (w', child')) =>
      (on_objects (vm_drop child');; throw error : prog world XError VmSpace) w'
  | (Panic, (w', _)) => (Panic, w')
  end.
Definition try_clone : prog world XError VmSpace :=
  parent ← gets w_space;
  child ← on_wm (vm_new_empty (vr_start (vs_range parent)) (vr_size (vs_range parent)));
  run_clone child.

(** ** Access and invalidation *)

Definition vm_read_bytes (vs : VmSpace) (start len : Z) : prog ((Z → Z) * machine) XError () :=
  if len =? 0 then mret ()
  else
    range ← lift (ok_or InvalidInput (vr_try_from_start_size start len));
    ok ← lift (check_region_access vs range READ);
    if negb ok then throw PermissionDenied
    else read_bytes (vs_aspace vs) start len.
Definition vm_write_bytes (vs : VmSpace) (start : Z) (input : list Z) :
    prog (() * machine) XError () :=
  if Z.of_nat (length input) =? 0 then mret ()
  else
    range ← lift (ok_or InvalidInput (vr_try_from_start_size start (Z.of_nat (length input))));
    ok ← lift (check_region_access vs range WRITE);
    if negb ok then throw PermissionDenied
    else write_alloc_bytes (vs_aspace vs) start input.

(** The part of [area] that maps the bytes [lo, hi) of the object [id]. *)
Definition invalidated_range (area : VmArea) (id lo hi : Z) : outcome XError (option vrange) :=
  match object_at (a_backing area) 0 with
  | None => Ok None
  | Some (area_offset, object) =>
      if negb (object_id object =? id) then Ok None
      else
        let area_start := area_offset in
        area_end ← expect (usize_checked_add area_start (vr_size (a_range area)));
        let overlap_start := Z.max area_start lo in
        let overlap_end := Z.min area_end hi in
        if overlap_end <=? overlap_start then Ok None
        else
          start ← expect (checked_add (vr_start (a_range area)) (overlap_start - area_start));
          fin ← expect (checked_add (vr_start (a_range area)) (overlap_end - area_start));
          let start := align_down start (page_bytes Size4K) in
          let fin := Z.min (align_up fin (page_bytes Size4K)) (vr_end (a_range area)) in
          range ← expect (vr_new start fin);
          Ok (Some range)
  end.
Definition validate_object_range (id lo hi : Z) : prog world XError () :=
  if hi <=? lo then mret ()
  else
    vs ← gets w_space;
    for_each (bt_values (vs_areas vs)) (λ area,
      invalidated ← lift (invalidated_range area id lo hi);
      match invalidated with
      | Some r => on_aspace (validate_alloc_range (vr_start r) (vr_size r))
      | None => mret ()
      end).
Definition unmap_object_range (id lo hi : Z) : prog world XError () :=
  vs ← gets w_space;
  for_each (bt_values (vs_areas vs)) (λ area,
    invalidated ← lift (invalidated_range area id lo hi);
    match invalidated with
    | Some r => unwrap_prog (on_aspace (area_unmap area r));; drop_write_guards r
    | None => mret ()
    end).

Definition sync_object_range (vs : VmSpace) (range : vrange) (wait : bool) :
    prog objects Z () :=
  for_each (overlapping (vs_areas vs) range) (λ area,
    if is_private area then mret ()
    else
      match object_at (a_backing area) 0 with
      | None => mret ()
      | Some (area_offset, object) =>
          overlap ← lift (unwrap (overlap_with area range));
          let start := area_offset + (vr_start overlap - vr_start (a_range area)) in
          let fin := start + vr_size overlap in
          object_sync object start fin wait
      end).
End ops.
