(* ===== verification/VmLayout.v ===== *)
(** * The layout of a virtual-memory space (xvma/src/space.rs)

    Areas are disjoint, in address order, aligned to their page size and
    consistent with their backing. What an address sees of the layout (its
    [view]) is what splitting and merging must preserve: the rights, the page
    size, the policy and the byte of the source behind it. *)
From S2P Require Import Prelude Errno MemAddr Frame PageTable AddressSpace BTree VmArea VmSpace.
From stdpp Require Import prelude gmap list sorting.
Open Scope Z_scope.

(** The byte of a source that an address is backed by. *)
Inductive page_source :=
  | PZero
  | PStatic (paddr allowed : Z)
  | PObject (id offset : Z).
Record page_view := PageView {
  pv_flags : Z; pv_page_size : PageSize; pv_private : bool; pv_source : page_source }.

Section layout.
Context {CFG : Config} {PA : PageAllocator} {BF : BitFlags} {MA : MemoryAddr} {PT : PageTable}.
Context {VO : VmObject}.
Implicit Types (a : VmArea) (l : list VmArea).

Abbreviation a_start a := (vr_start (a_range a)).
Abbreviation a_end a := (vr_end (a_range a)).
Abbreviation a_size a := (a_end a - a_start a).
Abbreviation psb a := (page_bytes (a_page_size a)).

(** ** Well-formed areas *)

Definition source_ok (src : Source) (private : bool) (ps : PageSize) (size : Z) : Prop :=
  match src with
  | SrcZero => private = true ∧ ps = Size4K
  | SrcStatic frames => private = false ∧ sfr_size frames = size ∧
      sfr_start frames mod page_bytes ps = 0 ∧ 0 ≤ sfr_start frames ∧
      sfr_start frames + size ≤ 2 ^ PA_MAX_BITS ∧ sfr_start frames + size ≤ usize_max
  | SrcObject _ offset => ps = Size4K ∧ offset mod 4096 = 0 ∧ 0 ≤ offset ∧
      offset + size ≤ usize_max
  end.
Record area_ok (a : VmArea) : Prop := {
  ao_nonempty : a_start a < a_end a;
  ao_usize : 0 ≤ a_start a ∧ a_end a ≤ usize_max;
  ao_start : a_start a mod psb a = 0;
  ao_end : a_end a mod psb a = 0;
  ao_source : source_ok (source (a_backing a)) (is_private a) (a_page_size a) (a_size a);
}.
Definition ordered l : Prop := StronglySorted (λ a b, a_end a ≤ a_start b) l.
Definition areas_ok l : Prop := ordered l ∧ Forall area_ok l.
Definition keyed l : list (Z * VmArea) := (λ a, (a_start a, a)) <$> l.
Record layout_wf (vs : VmSpace) (l : list VmArea) : Prop := {
  lo_areas : vs_areas vs = keyed l;
  lo_ok : areas_ok l;
  lo_inside : ∀ a, a ∈ l → vr_start (vs_range vs) ≤ a_start a ∧ a_end a ≤ vr_end (vs_range vs);
  lo_usize : vr_usize (vs_range vs);
}.

(** ** Views *)

Definition source_view (src : Source) (delta : Z) : page_source :=
  match src with
  | SrcZero => PZero
  | SrcStatic frames => PStatic (sfr_start frames + delta) (sfr_allowed frames)
  | SrcObject object offset => PObject (object_id object) (offset + delta)
  end.
Definition area_view a (x : Z) : page_view :=
  PageView (a_flags a) (a_page_size a) (is_private a)
    (source_view (source (a_backing a)) (x - a_start a)).
Definition inside a (x : Z) : Prop := a_start a ≤ x < a_end a.
#[export] Instance inside_dec a x : Decision (inside a x) := _.
Fixpoint lookup_area l (x : Z) : option VmArea :=
  match l with
  | [] => None
  | a :: l' => if decide (inside a x) then Some a else lookup_area l' x
  end.
Definition view l (x : Z) : option page_view :=
  match lookup_area l x with Some a => Some (area_view a x) | None => None end.

Lemma bt_values_keyed l : bt_values (keyed l) = l.
Proof. unfold bt_values, keyed. rewrite <- list_fmap_compose. apply list_fmap_id. Qed.
Lemma lo_values vs l : layout_wf vs l → bt_values (vs_areas vs) = l.
Proof. intros Hl. by rewrite (lo_areas _ _ Hl), bt_values_keyed. Qed.

Lemma areas_ok_elem l a : areas_ok l → a ∈ l → area_ok a.
Proof. intros [_ Hl] Ha. by eapply Forall_forall in Hl. Qed.
Lemma areas_ok_cons a l :
  areas_ok (a :: l) ↔ area_ok a ∧ areas_ok l ∧ ∀ b, b ∈ l → a_end a ≤ a_start b.
Proof.
  unfold areas_ok, ordered. rewrite Forall_cons. split.
  - intros [[Hs Hall]%StronglySorted_inv [Ha Hl]]. rewrite Forall_forall in Hall. done.
  - intros (Ha & [Hs Hl] & Hall). split; [|done]. constructor; [done|]. by rewrite Forall_forall.
Qed.
Lemma areas_ok_nil : areas_ok [].
Proof. split; constructor. Qed.
Lemma areas_ok_app l1 l2 :
  areas_ok (l1 ++ l2) ↔ areas_ok l1 ∧ areas_ok l2 ∧
    ∀ a b, a ∈ l1 → b ∈ l2 → a_end a ≤ a_start b.
Proof.
  induction l1 as [|x l1 IH]; cbn.
  - split; [intros; split_and!; [apply areas_ok_nil|done|intros a b Ha; by apply elem_of_nil in Ha]|].
    by intros (_ & ? & _).
  - rewrite !areas_ok_cons, IH. setoid_rewrite elem_of_app. setoid_rewrite elem_of_cons.
    naive_solver.
Qed.

Lemma lookup_area_Some l x a :
  areas_ok l → lookup_area l x = Some a ↔ a ∈ l ∧ inside a x.
Proof.
  induction l as [|b l IH]; intros Hl.
  { cbn. rewrite elem_of_nil. naive_solver. }
  apply areas_ok_cons in Hl as (Hb & Hl & Hbl). cbn. rewrite elem_of_cons.
  case_decide as Hx.
  - split; [intros [= ->]; auto|]. intros [[->|Ha] Hin]; [done|]. exfalso.
    specialize (Hbl a Ha). unfold inside in *. lia.
  - rewrite IH by done. naive_solver.
Qed.
Lemma lookup_area_None l x : lookup_area l x = None ↔ ∀ a, a ∈ l → ¬ inside a x.
Proof.
  induction l as [|b l IH]; cbn.
  - split; [intros _ a Ha; by apply elem_of_nil in Ha|done].
  - case_decide as Hx.
    + split; [done|]. intros Hall. exfalso. apply (Hall b); [left|done].
    + rewrite IH. split; [|intros Hall a Ha; apply Hall; by right].
      intros Hall a [->|Ha]%elem_of_cons; [done|auto].
Qed.
Lemma lookup_area_app l1 l2 x :
  lookup_area (l1 ++ l2) x =
    match lookup_area l1 x with Some a => Some a | None => lookup_area l2 x end.
Proof. induction l1 as [|a l1 IH]; cbn; [done|]. by case_decide. Qed.

Lemma keyed_sorted l : areas_ok l → bt_sorted (keyed l).
Proof.
  induction l as [|a l IH]; intros Hl; [constructor|].
  apply areas_ok_cons in Hl as (Ha & Hl & Hal). constructor; [by apply IH|].
  rewrite Forall_forall. intros [k b] (b' & [= -> ->] & Hb)%list_elem_of_fmap. cbn.
  specialize (Hal b' Hb). pose proof (ao_nonempty a Ha). lia.
Qed.
(** [area_at] finds the area that contains the address. *)
Lemma area_at_spec vs l x : layout_wf vs l → area_at vs x = lookup_area l x.
Proof.
  intros Hl. unfold area_at. rewrite (lo_areas _ _ Hl). pose proof (lo_ok _ _ Hl) as Hok.
  destruct (lookup_area l x) as [a|] eqn:Ha.
  - apply lookup_area_Some in Ha as [Ha Hin]; [|done].
    apply list_elem_of_split in Ha as (l1 & l2 & ->). unfold keyed. rewrite fmap_app. cbn.
    apply areas_ok_app in Hok as (_ & [Hoka [Hok2 Hal2]]%areas_ok_cons & _).
    rewrite bt_floor_split.
    + cbn. rewrite vr_contains_spec. unfold inside in Hin. split_zbool; try lia. done.
    + cbn. unfold inside in Hin. lia.
    + intros e (b & -> & Hb)%list_elem_of_fmap. cbn. specialize (Hal2 b Hb).
      unfold inside in Hin. lia.
  - destruct (bt_floor x (keyed l)) as [[k a]|] eqn:Hf; [|done]. cbn.
    apply bt_floor_Some in Hf as (m1 & m2 & Hm & Hle & Hm2); [|by apply keyed_sorted].
    assert ((k, a) ∈ keyed l) as Hin by (rewrite Hm; set_solver).
    apply list_elem_of_fmap in Hin as (a' & [= -> ->] & Hin).
    pose proof (proj1 (lookup_area_None l x) Ha a' Hin) as Hno. cbn in Hle.
    rewrite vr_contains_spec. unfold inside in Hno. split_zbool; try lia; done.
Qed.

(** ** Slices *)

Definition slice_source (src : Source) (delta size : Z) : Source :=
  match src with
  | SrcZero => SrcZero
  | SrcStatic frames =>
      SrcStatic (MkStaticFrameRange (sfr_start frames + delta) size (sfr_allowed frames))
  | SrcObject object offset => SrcObject object (offset + delta)
  end.
Definition slice_at a (lo hi flags : Z) : VmArea :=
  MkVmArea (VRange lo hi) flags (a_page_size a)
    (MkBacking (slice_source (source (a_backing a)) (lo - a_start a) (hi - lo)) (is_private a)).

Lemma shifted_spec a lo hi :
  area_ok a → a_start a ≤ lo → lo < hi → hi ≤ a_end a →
  shifted (a_backing a) (lo - a_start a) (hi - lo) =
    Some (MkBacking (slice_source (source (a_backing a)) (lo - a_start a) (hi - lo)) (is_private a)).
Proof.
  intros Ha Hlo Hlt Hhi. pose proof (ao_source a Ha) as Hs. unfold shifted, source_ok in *.
  destruct (source (a_backing a)) as [|fr|o off]; cbn.
  - done.
  - destruct Hs as (_ & Hsz & _ & H0 & _ & Hmax). unfold sfr_subrange, usize_checked_add.
    rewrite (proj2 (Z.leb_le (lo - a_start a + (hi - lo)) usize_max)) by lia.
    cbn [ok_or mbind outcome_bind].
    rewrite (proj2 (Z.eqb_neq _ _)), (proj2 (Z.ltb_ge _ _)) by lia. cbn [orb].
    rewrite (proj2 (Z.leb_le _ _)) by lia. done.
  - destruct Hs as (_ & _ & H0 & Hmax). unfold usize_checked_add.
    rewrite (proj2 (Z.leb_le _ _)) by lia. done.
Qed.
Lemma checked_slice_spec a lo hi flags :
  area_ok a → a_start a ≤ lo → lo < hi → hi ≤ a_end a →
  checked_slice a (VRange lo hi) flags =
    if (lo mod psb a =? 0) && ((hi - lo) mod psb a =? 0) then Some (slice_at a lo hi flags) else None.
Proof.
  intros Ha Hlo Hlt Hhi. pose proof (ao_usize a Ha). unfold checked_slice.
  rewrite vr_contains_range_spec by done. cbn [vr_start vr_end].
  rewrite !(proj2 (Z.leb_le _ _)) by lia. cbn [andb negb orb].
  rewrite is_aligned_spec by lia. unfold is_multiple_of. rewrite vr_size_spec by (cbn; lia).
  cbn [vr_start vr_end]. destruct (lo mod psb a =? 0), ((hi - lo) mod psb a =? 0); cbn; try done.
  by rewrite shifted_spec.
Qed.
Lemma mod_sub_iff lo hi n : 0 < n → lo mod n = 0 → (hi - lo) mod n = 0 ↔ hi mod n = 0.
Proof.
  intros Hn Hlo. split; intros Hh.
  - replace hi with (lo + (hi - lo)) by lia. by rewrite mod_add_aligned.
  - by apply mod_sub_aligned.
Qed.
Lemma slice_at_ok a lo hi flags :
  area_ok a → a_start a ≤ lo → lo < hi → hi ≤ a_end a →
  lo mod psb a = 0 → hi mod psb a = 0 → area_ok (slice_at a lo hi flags).
Proof.
  intros Ha Hlo Hlt Hhi Hml Hmh. destruct Ha as [_ Husize Hst _ Hs]. split; cbn; try done; [lia|].
  unfold source_ok, is_private, slice_source in *. cbn.
  pose proof (page_bytes_pos (a_page_size a)) as Hpos.
  assert ((lo - a_start a) mod psb a = 0) as Hd by (by apply mod_sub_iff).
  destruct (source (a_backing a)) as [|fr|o off]; cbn.
  - done.
  - destruct Hs as (Hp & Hsz & Hal & H0 & Hb & Hm). split_and!; try done; try lia.
    by rewrite mod_add_aligned.
  - destruct Hs as (Hps & Hal & H0 & Hm). rewrite Hps in Hd. cbn in Hd. split_and!; try done; try lia.
    rewrite mod_add_aligned by (done || lia). done.
Qed.
(** A slice shows its addresses what the area showed them. *)
Lemma slice_at_view a lo hi flags x :
  area_view (slice_at a lo hi flags) x =
    PageView flags (a_page_size a) (is_private a) (pv_source (area_view a x)).
Proof.
  unfold area_view, slice_at. cbn. f_equal.
  destruct (source (a_backing a)) as [|fr|o off]; cbn; [done|f_equal; lia|f_equal; lia].
Qed.

(** ** Splitting at a changed range *)

(** The area can be cut where [r] starts and ends inside it. *)
Definition splits a (r : vrange) : Prop :=
  (a_start a < vr_start r → vr_start r mod psb a = 0) ∧
  (vr_end r < a_end a → vr_end r mod psb a = 0).
#[export] Instance splits_dec a r : Decision (splits a r) := _.

Definition meets a (r : vrange) : Prop := a_start a < vr_end r ∧ vr_start r < a_end a.
#[export] Instance meets_dec a r : Decision (meets a r) := _.
Lemma overlaps_meets a r :
  area_ok a → vr_nonempty r → vr_overlaps (a_range a) r = bool_decide (meets a r).
Proof.
  intros Ha Hr. rewrite vr_overlaps_spec by (done || apply (ao_nonempty a Ha)).
  case_bool_decide as Hm; unfold meets in Hm; split_zbool; try done; lia.
Qed.

Lemma slice_before_spec a r :
  area_ok a → a_start a < vr_start r → vr_start r ≤ a_end a →
  slice_before a r =
    Ok (if vr_start r mod psb a =? 0 then Some (slice_at a (a_start a) (vr_start r) (a_flags a)) else None).
Proof.
  intros Ha Hlt Hle. unfold slice_before. rewrite vr_new_spec, (proj2 (Z.leb_le _ _)) by lia. cbn.
  rewrite checked_slice_spec by (done || lia). rewrite (ao_start a Ha). cbn [Z.eqb andb].
  pose proof (mod_sub_iff (a_start a) (vr_start r) (psb a) (page_bytes_pos _) (ao_start a Ha)).
  destruct (Z.eqb_spec (vr_start r mod psb a) 0), (Z.eqb_spec ((vr_start r - a_start a) mod psb a) 0);
    intuition congruence.
Qed.
Lemma slice_after_spec a r :
  area_ok a → a_start a ≤ vr_end r → vr_end r < a_end a →
  slice_after a r =
    Ok (if vr_end r mod psb a =? 0 then Some (slice_at a (vr_end r) (a_end a) (a_flags a)) else None).
Proof.
  intros Ha Hle Hlt. unfold slice_after. rewrite vr_new_spec, (proj2 (Z.leb_le _ _)) by lia. cbn.
  rewrite checked_slice_spec by (done || lia).
  destruct (Z.eqb_spec (vr_end r mod psb a) 0) as [He|He]; [|done]. cbn [andb].
  rewrite (proj2 (mod_sub_iff (vr_end r) (a_end a) (psb a) (page_bytes_pos _) He) (ao_end a Ha)).
  done.
Qed.

Lemma validate_splits_spec l r :
  vr_nonempty r → (∀ a, a ∈ l → area_ok a ∧ meets a r) →
  validate_splits l r = if decide (Forall (λ a, splits a r) l) then Ok () else Err InvalidInput.
Proof.
  intros Hr. induction l as [|a l IH]; intros Hl; cbn [validate_splits]; [by rewrite decide_True|].
  destruct (Hl a) as [Ha [Hm1 Hm2]]; [left|].
  assert ((if a_start a <? vr_start r then
             s ← slice_before a r; _ ← ok_or InvalidInput s; Ok () else Ok ()) =
          if decide (a_start a < vr_start r → vr_start r mod psb a = 0)
          then Ok () else Err InvalidInput) as ->.
  { destruct (Z.ltb_spec (a_start a) (vr_start r)) as [Hlt|Hge]; [|by rewrite decide_True by lia].
    rewrite slice_before_spec by (done || lia).
    destruct (Z.eqb_spec (vr_start r mod psb a) 0);
      [rewrite decide_True by done|rewrite decide_False by auto]; done. }
  assert ((if vr_end r <? a_end a then
             s ← slice_after a r; _ ← ok_or InvalidInput s; Ok () else Ok ()) =
          if decide (vr_end r < a_end a → vr_end r mod psb a = 0)
          then Ok () else Err InvalidInput) as ->.
  { destruct (Z.ltb_spec (vr_end r) (a_end a)) as [Hlt|Hge]; [|by rewrite decide_True by lia].
    rewrite slice_after_spec by (done || lia).
    destruct (Z.eqb_spec (vr_end r mod psb a) 0);
      [rewrite decide_True by done|rewrite decide_False by auto]; done. }
  rewrite IH by (intros b Hb; apply Hl; by right).
  destruct (decide (a_start a < _ → _)) as [H1|H1]; cbn.
  2: { rewrite decide_False; [done|]. by intros [[? _] _]%Forall_cons. }
  destruct (decide (vr_end r < _ → _)) as [H2|H2]; cbn.
  2: { rewrite decide_False; [done|]. by intros [[_ ?] _]%Forall_cons. }
  apply decide_ext. rewrite Forall_cons. unfold splits. naive_solver.
Qed.

Lemma insert_area_last l b :
  (∀ a, a ∈ l → a_start a < a_start b) → insert_area b (keyed l) = keyed (l ++ [b]).
Proof.
  intros Hl. unfold insert_area. rewrite bt_insert_last.
  - unfold keyed. by rewrite fmap_app.
  - intros e (a & -> & Ha)%list_elem_of_fmap. cbn. auto.
Qed.

(** What carving [r] out of an area leaves. *)
Definition pieces (r : vrange) (middle : option Z) a : list VmArea :=
  if decide (meets a r) then
    (if decide (a_start a < vr_start r)
     then [slice_at a (a_start a) (vr_start r) (a_flags a)] else []) ++
    match middle with
    | Some f => [slice_at a (Z.max (a_start a) (vr_start r)) (Z.min (a_end a) (vr_end r)) f]
    | None => [] end ++
    (if decide (vr_end r < a_end a)
     then [slice_at a (vr_end r) (a_end a) (a_flags a)] else [])
  else [a].

(** The page sources a layout refers to. *)
Definition uses l (o : vm_object) : Prop :=
  ∃ a off, a ∈ l ∧ source (a_backing a) = SrcObject o off.
(** [l'] stays within the bounds of [l] and refers to no other source. *)
Definition within l l' : Prop :=
  (∀ lo hi, (∀ a, a ∈ l → lo ≤ a_start a ∧ a_end a ≤ hi) →
     ∀ a, a ∈ l' → lo ≤ a_start a ∧ a_end a ≤ hi) ∧
  (∀ o, uses l' o → uses l o).

Section carve.
Context (r : vrange) (middle : option Z).
Hypothesis (Hr : vr_nonempty r).

Lemma pieces_within a b :
  area_ok a → b ∈ pieces r middle a → a_start a ≤ a_start b ∧ a_end b ≤ a_end a.
Proof.
  intros Ha. pose proof (ao_nonempty a Ha). unfold vr_nonempty in Hr. unfold pieces, meets.
  case_decide as Hm; [|intros ->%list_elem_of_singleton; lia].
  rewrite !elem_of_app. intros [Hb|[Hb|Hb]].
  - case_decide; [apply list_elem_of_singleton in Hb as ->; cbn; lia|by apply elem_of_nil in Hb].
  - destruct middle; [apply list_elem_of_singleton in Hb as ->; cbn; lia|by apply elem_of_nil in Hb].
  - case_decide; [apply list_elem_of_singleton in Hb as ->; cbn; lia|by apply elem_of_nil in Hb].
Qed.
Lemma middle_aligned a :
  area_ok a → meets a r → splits a r →
  Z.max (a_start a) (vr_start r) mod psb a = 0 ∧ Z.min (a_end a) (vr_end r) mod psb a = 0.
Proof.
  intros [_ _ Hs He _] _ [H1 H2].
  split; [destruct (Z.max_spec (a_start a) (vr_start r)) as [[? ->]|[? ->]]
         |destruct (Z.min_spec (a_end a) (vr_end r)) as [[? ->]|[? ->]]]; auto.
  destruct (decide (vr_end r = a_end a)) as [->|]; [done|]. apply H2. lia.
Qed.
Lemma pieces_ok a : area_ok a → (meets a r → splits a r) → areas_ok (pieces r middle a).
Proof.
  intros Ha Hsp. pose proof (ao_nonempty a Ha). unfold vr_nonempty in Hr. unfold pieces.
  case_decide as Hm; [|apply areas_ok_cons; split; [done|]; split; [apply areas_ok_nil|];
    intros b Hb; by apply elem_of_nil in Hb].
  specialize (Hsp Hm). destruct (middle_aligned a Ha Hm Hsp) as [Hml Hmh].
  pose proof Hm as [Hm1 Hm2]. destruct Hsp as [Hs1 Hs2].
  assert (∀ b, area_ok b → areas_ok [b]) as Hone.
  { intros b Hb. apply areas_ok_cons. split; [done|]. split; [apply areas_ok_nil|].
    intros c Hc. by apply elem_of_nil in Hc. }
  rewrite !areas_ok_app. split_and!.
  - case_decide; [|apply areas_ok_nil]. apply Hone, slice_at_ok; auto using ao_start; lia.
  - destruct middle; [|apply areas_ok_nil]. apply Hone, slice_at_ok; (done || lia).
  - case_decide; [|apply areas_ok_nil]. apply Hone, slice_at_ok; auto using ao_end; lia.
  - intros x y Hx Hy. destruct middle; [|by apply elem_of_nil in Hx].
    case_decide; [|by apply elem_of_nil in Hy].
    apply list_elem_of_singleton in Hx as ->. apply list_elem_of_singleton in Hy as ->. cbn. lia.
  - intros x y Hx Hy. destruct (decide (a_start a < vr_start r)); [|by apply elem_of_nil in Hx].
    apply list_elem_of_singleton in Hx as ->. cbn. apply elem_of_app in Hy as [Hy|Hy].
    + destruct middle; [|by apply elem_of_nil in Hy]. apply list_elem_of_singleton in Hy as ->. cbn. lia.
    + case_decide; [|by apply elem_of_nil in Hy]. apply list_elem_of_singleton in Hy as ->. cbn. lia.
Qed.

Lemma carve_area_spec a acc :
  area_ok a → (meets a r → splits a r) → (∀ b, b ∈ acc → a_start b < a_start a) →
  carve_area a r middle (keyed acc) = Ok (keyed (acc ++ pieces r middle a)).
Proof.
  intros Ha Hsp Hacc. pose proof (ao_nonempty a Ha) as Hne. unfold carve_area, pieces, vr_nonempty in *.
  rewrite overlaps_meets by done. case_bool_decide as Hm.
  2: { rewrite decide_False by done. cbn. by rewrite insert_area_last. }
  rewrite decide_True by done. cbn [negb]. specialize (Hsp Hm).
  destruct (middle_aligned a Ha Hm Hsp) as [Hml Hmh]. pose proof Hm as [Hm1 Hm2].
  destruct Hsp as [Hs1 Hs2].
  set (p1 := if decide (a_start a < vr_start r) then _ else _).
  set (p3 := if decide (vr_end r < a_end a) then _ else _).
  assert ((if a_start a <? vr_start r then s ← slice_before a r; insert_slice s (keyed acc)
           else Ok (keyed acc)) = Ok (keyed (acc ++ p1))) as ->.
  { unfold p1. destruct (Z.ltb_spec (a_start a) (vr_start r)) as [Hlt|Hge].
    - rewrite decide_True, slice_before_spec, Hs1 by (done || lia). cbn. f_equal.
      by apply insert_area_last.
    - rewrite decide_False by lia. by rewrite app_nil_r. }
  cbn [mbind outcome_bind].
  set (p2 := match middle with Some f => [slice_at a _ _ f] | None => [] end).
  assert (match middle with
          | Some flags => s ← overlap_with a r; insert_slice (checked_slice a s flags) (keyed (acc ++ p1))
          | None => Ok (keyed (acc ++ p1))
          end = Ok (keyed ((acc ++ p1) ++ p2))) as ->.
  { unfold p2. destruct middle as [f|]; [|by rewrite app_nil_r]. unfold overlap_with.
    rewrite vr_new_spec, (proj2 (Z.leb_le _ _)) by lia. cbn [expect mbind outcome_bind].
    rewrite checked_slice_spec, Hml by (done || lia).
    rewrite (proj2 (mod_sub_iff _ _ (psb a) (page_bytes_pos _) Hml) Hmh). cbn. f_equal.
    apply insert_area_last. cbn. intros b [Hb|Hb]%elem_of_app.
    - specialize (Hacc b Hb). lia.
    - unfold p1 in Hb. case_decide; [|by apply elem_of_nil in Hb].
      apply list_elem_of_singleton in Hb as ->. cbn. lia. }
  cbn [mbind outcome_bind]. unfold p3. destruct (Z.ltb_spec (vr_end r) (a_end a)) as [Hlt|Hge].
  - rewrite decide_True, slice_after_spec, Hs2 by (done || lia). cbn. f_equal.
    rewrite insert_area_last; [by rewrite <- !app_assoc|]. cbn.
    intros b [[Hb|Hb]%elem_of_app|Hb]%elem_of_app.
    + specialize (Hacc b Hb). lia.
    + unfold p1 in Hb. case_decide; [|by apply elem_of_nil in Hb].
      apply list_elem_of_singleton in Hb as ->. cbn. lia.
    + unfold p2 in Hb. destruct middle; [|by apply elem_of_nil in Hb].
      apply list_elem_of_singleton in Hb as ->. cbn. lia.
  - rewrite decide_False by lia. by rewrite app_nil_r, <- !app_assoc.
Qed.

(** What an address sees after [r] is carved out. *)
Definition carved (x : Z) (v : option page_view) : option page_view :=
  if decide (vr_start r ≤ x < vr_end r)
  then match v, middle with
       | Some v, Some f => Some (PageView f (pv_page_size v) (pv_private v) (pv_source v))
       | _, _ => None end
  else v.
Lemma view_nil x : view [] x = None.
Proof. done. Qed.
Lemma view_app l1 l2 x :
  view (l1 ++ l2) x = match view l1 x with Some v => Some v | None => view l2 x end.
Proof. unfold view. rewrite lookup_area_app. by destruct (lookup_area l1 x). Qed.
Lemma view_one a x : view [a] x = if decide (inside a x) then Some (area_view a x) else None.
Proof. unfold view. cbn. by case_decide. Qed.
Lemma slice_view a lo hi f x :
  view [slice_at a lo hi f] x =
    if decide (lo ≤ x < hi)
    then Some (PageView f (a_page_size a) (is_private a) (pv_source (area_view a x))) else None.
Proof. rewrite view_one, slice_at_view. by unfold inside, slice_at; cbn. Qed.

Lemma pieces_view a x :
  area_ok a → view (pieces r middle a) x = carved x (view [a] x).
Proof.
  intros Ha. pose proof (ao_nonempty a Ha). unfold vr_nonempty in Hr. unfold pieces, carved.
  rewrite view_one. unfold inside.
  destruct (decide (meets a r)) as [[Hm1 Hm2]|Hm].
  2: { unfold meets in Hm. rewrite view_one. unfold inside.
       repeat case_decide; try done; exfalso; lia. }
  rewrite !view_app.
  replace (view (if decide (a_start a < vr_start r) then _ else _) x)
    with (if decide (a_start a ≤ x < vr_start r) then Some (area_view a x) else None).
  2: { destruct (decide (a_start a < vr_start r)); [by rewrite slice_view|].
       rewrite decide_False by lia. done. }
  replace (view (if decide (vr_end r < a_end a) then _ else _) x)
    with (if decide (vr_end r ≤ x < a_end a) then Some (area_view a x) else None).
  2: { destruct (decide (vr_end r < a_end a)); [by rewrite slice_view|].
       rewrite decide_False by lia. done. }
  destruct middle as [f|]; [rewrite slice_view|rewrite view_nil];
    repeat case_decide; try done; exfalso; lia.
Qed.

Lemma carve_areas_spec l acc :
  areas_ok (acc ++ l) → (∀ a, a ∈ l → meets a r → splits a r) →
  carve_areas l r middle (keyed acc) = Ok (keyed (acc ++ flat_map (pieces r middle) l)).
Proof.
  revert acc. induction l as [|a l IH]; intros acc Hok Hsp.
  { cbn. by rewrite app_nil_r. }
  cbn [carve_areas flat_map]. pose proof Hok as (Hacc & [Ha [Hl Hal]]%areas_ok_cons & Hsep)%areas_ok_app.
  rewrite carve_area_spec; [|done|apply Hsp; left|].
  2: { intros b Hb. pose proof (ao_nonempty b (areas_ok_elem _ _ Hacc Hb)).
       specialize (Hsep b a Hb ltac:(left)). lia. }
  cbn [mbind outcome_bind]. rewrite IH, <- app_assoc; [done| |intros b Hb; apply Hsp; by right].
  assert (areas_ok (pieces r middle a)) as Hp by (apply pieces_ok; [done|apply Hsp; left]).
  rewrite !areas_ok_app. split_and!; try done.
  - intros b c Hb Hc. destruct (pieces_within a c Ha Hc).
    specialize (Hsep b a Hb ltac:(left)). lia.
  - intros b c [Hb|Hb]%elem_of_app Hc.
    + apply Hsep; [done|by right].
    + destruct (pieces_within a b Ha Hb). specialize (Hal c Hc). lia.
Qed.
Lemma carved_ok l :
  areas_ok l → (∀ a, a ∈ l → meets a r → splits a r) → areas_ok (flat_map (pieces r middle) l).
Proof.
  induction l as [|a l IH]; intros Hok Hsp; [apply areas_ok_nil|]. cbn.
  apply areas_ok_cons in Hok as (Ha & Hl & Hal). rewrite areas_ok_app. split_and!.
  - apply pieces_ok; [done|apply Hsp; left].
  - apply IH; [done|]. intros b Hb. apply Hsp. by right.
  - intros b c Hb Hc. destruct (pieces_within a b Ha Hb).
    apply list_elem_of_In, in_flat_map in Hc as (d & Hd%list_elem_of_In & Hc%list_elem_of_In).
    specialize (Hal d Hd). destruct (pieces_within d c (areas_ok_elem _ _ Hl Hd) Hc). lia.
Qed.
Lemma carved_view l x :
  areas_ok l → view (flat_map (pieces r middle) l) x = carved x (view l x).
Proof.
  induction l as [|a l IH]; intros Hok; cbn [flat_map].
  { rewrite !view_nil. unfold carved. by case_decide. }
  pose proof Hok as (Ha & Hl & Hal)%areas_ok_cons.
  rewrite view_app, pieces_view, IH by done.
  change (a :: l) with ([a] ++ l). rewrite view_app.
  assert (view [a] x ≠ None → view l x = None) as Hdis.
  { rewrite view_one. case_decide as Hin; [|done]. intros _. unfold view.
    replace (lookup_area l x) with (@None VmArea); [done|]. symmetry. apply lookup_area_None.
    intros b Hb. specialize (Hal b Hb). unfold inside in *. lia. }
  destruct (view [a] x) as [v|]; [rewrite Hdis by done|];
    unfold carved; case_decide; try done. by destruct middle.
Qed.
Lemma carved_inside l b lo hi :
  Forall area_ok l → (∀ a, a ∈ l → lo ≤ a_start a ∧ a_end a ≤ hi) →
  b ∈ flat_map (pieces r middle) l → lo ≤ a_start b ∧ a_end b ≤ hi.
Proof.
  intros Hok Hin (a & Ha%list_elem_of_In & Hb%list_elem_of_In)%list_elem_of_In%in_flat_map.
  rewrite Forall_forall in Hok. destruct (pieces_within a b (Hok a Ha) Hb). specialize (Hin a Ha). lia.
Qed.
Lemma pieces_source a b :
  b ∈ pieces r middle a → source (a_backing b) = source (a_backing a) ∨
    ∃ d n, source (a_backing b) = slice_source (source (a_backing a)) d n.
Proof.
  unfold pieces. case_decide; [|intros ->%list_elem_of_singleton; by left].
  intros Hb. right. repeat (apply elem_of_app in Hb as [Hb|Hb] || case_decide || case_match);
    try (by apply elem_of_nil in Hb); apply list_elem_of_singleton in Hb as ->; cbn; eauto.
Qed.
Lemma carved_within l : Forall area_ok l → within l (flat_map (pieces r middle) l).
Proof.
  intros Hok. split.
  - intros lo hi Hall a Ha. exact (carved_inside l a lo hi Hok Hall Ha).
  - intros o (b & off & (a & Ha%list_elem_of_In & Hb%list_elem_of_In)%list_elem_of_In%in_flat_map & Hs).
    exists a. destruct (pieces_source a b Hb) as [He|(d & n & He)]; rewrite He in Hs; [by eauto|].
    destruct (source (a_backing a)); cbn in Hs; simplify_eq. eauto.
Qed.
End carve.

(** ** Merging *)

Definition merged a b : VmArea :=
  MkVmArea (VRange (a_start a) (a_end b)) (a_flags a) (a_page_size a) (a_backing a).

Lemma can_merge_spec a b :
  area_ok a → area_ok b → can_merge a b = true →
  area_ok (merged a b) ∧ a_end a = a_start b ∧ ∀ x, area_view b x = area_view a x.
Proof.
  intros Ha Hb. unfold can_merge. intros Hm.
  destruct (negb (a_end a =? a_start b) || negb (a_flags a =? a_flags b)
    || negb (bool_decide (a_page_size a = a_page_size b))) eqn:Hc; [done|].
  apply orb_false_iff in Hc as [[He%negb_false_iff Hf%negb_false_iff]%orb_false_iff Hp%negb_false_iff].
  apply Z.eqb_eq in He, Hf. apply bool_decide_eq_true in Hp.
  rewrite vr_size_spec in Hm by (pose proof (ao_nonempty a Ha); lia).
  destruct Ha as [Hna Hua Hsa Hea Hoa], Hb as [Hnb Hub Hsb Heb Hob].
  unfold backing_can_merge, is_private in *.
  destruct (Bool.eqb (private (a_backing a)) (private (a_backing b))) eqn:Hpr; [|done].
  apply eqb_prop in Hpr. cbn [negb] in Hm.
  assert (source_ok (source (a_backing a)) (private (a_backing a)) (a_page_size a) (a_end b - a_start a) ∧
    ∀ x, source_view (source (a_backing b)) (x - a_start b) =
         source_view (source (a_backing a)) (x - a_start a)) as [Hs Hv].
  { destruct (source (a_backing a)) as [|fr|o off], (source (a_backing b)) as [|fr'|o' off']; try done.
    apply andb_true_iff in Hm as [Hid Ho]. apply Z.eqb_eq in Hid. unfold usize_checked_add in Ho.
    destruct (off + a_size a <=? usize_max); [|done]. apply Z.eqb_eq in Ho. cbn in *.
    destruct Hoa as (? & ? & ? & ?), Hob as (? & ? & ? & ?).
    split; [split_and!; try done; lia|]. intros x. rewrite Hid. f_equal. lia. }
  split; [split; cbn; try done; [lia|lia|]|].
  - by rewrite Hp.
  - split; [done|]. intros x. unfold area_view, is_private. by rewrite Hf, Hp, Hpr, Hv.
Qed.
Lemma merged_view a b l x :
  area_ok a → area_ok b → can_merge a b = true →
  view (merged a b :: l) x = view (a :: b :: l) x.
Proof.
  intros Ha Hb Hm. destruct (can_merge_spec a b Ha Hb Hm) as (_ & He & Hv).
  pose proof (ao_nonempty a Ha). pose proof (ao_nonempty b Hb). specialize (Hv x).
  unfold view. cbn. unfold inside. cbn.
  destruct (decide (a_start a ≤ x < a_end b)) as [Hi|Hi].
  - destruct (decide (a_start a ≤ x < a_end a)); [done|].
    rewrite decide_True by lia. by rewrite Hv.
  - by rewrite !decide_False by lia.
Qed.

Lemma merge_areas_spec l done_ cur :
  areas_ok (done_ ++ cur :: l) →
  ∃ l', merge_areas l (keyed done_, Some cur) = Ok (keyed l') ∧ areas_ok l' ∧
    (∀ x, view l' x = view (done_ ++ cur :: l) x) ∧
    within (done_ ++ cur :: l) l'.
Proof.
  revert done_ cur. induction l as [|b l IH]; intros dn cur Hok;
    pose proof Hok as (Hdn & [Hcur [Hl Hcl]]%areas_ok_cons & Hsep)%areas_ok_app.
  - assert (∀ a, a ∈ dn → a_start a < a_start cur) as Hlt.
    { intros a Ha. pose proof (ao_nonempty a (areas_ok_elem _ _ Hdn Ha)).
      specialize (Hsep a cur Ha ltac:(left)). lia. }
    exists (dn ++ [cur]). split; [cbn; f_equal; by apply insert_area_last|]. by split_and!.
  - cbn [merge_areas merge_step]. unfold merge_step. cbn [snd fst].
    pose proof Hl as (Hb & Hl' & Hbl)%areas_ok_cons.
    destruct (can_merge cur b) eqn:Hm.
    + destruct (can_merge_spec cur b Hcur Hb Hm) as (Hmok & He & _).
      pose proof (ao_nonempty cur Hcur). pose proof (ao_nonempty b Hb).
      rewrite vr_new_spec, (proj2 (Z.leb_le _ _)) by lia. cbn [expect mbind outcome_bind].
      destruct (IH dn (merged cur b)) as (l' & Hl1 & Hok' & Hv & Hbound).
      { rewrite areas_ok_app, areas_ok_cons. split_and!; try done.
        intros a c Ha [->|Hc]%elem_of_cons; cbn; [apply Hsep; [done|left]|].
        apply Hsep; [done|]. by right; right. }
      exists l'. split; [exact Hl1|]. split; [done|]. split.
      * intros x. rewrite Hv, !view_app. by rewrite merged_view.
      * destruct Hbound as [Hbound Huses]. split.
        -- intros lo hi Hall. apply Hbound. intros a [Ha|[->|Ha]%elem_of_cons]%elem_of_app.
           ++ apply Hall, elem_of_app. by left.
           ++ cbn. destruct (Hall cur), (Hall b); [set_solver..|]. lia.
           ++ apply Hall. set_solver.
        -- intros o Ho. destruct (Huses o Ho) as (a & off & Ha & Hs).
           apply elem_of_app in Ha as [Ha|[->|Ha]%elem_of_cons]; [exists a|exists cur|exists a]; exists off;
             (split; [clear -Ha; set_solver|done]) || (split; [clear; set_solver|done]).
    + cbn [mbind outcome_bind]. change (bt_insert (a_start cur) cur (keyed dn)) with (insert_area cur (keyed dn)).
      rewrite insert_area_last.
      2: { intros a Ha. pose proof (ao_nonempty a (areas_ok_elem _ _ Hdn Ha)).
           specialize (Hsep a cur Ha ltac:(left)). lia. }
      destruct (IH (dn ++ [cur]) b) as (l' & Hl1 & Hok' & Hv & Hbound).
      { by rewrite <- app_assoc. }
      exists l'. rewrite <- app_assoc in Hbound. split; [done|]. split; [done|]. split; [|done].
      intros x. by rewrite Hv, <- app_assoc.
Qed.
Lemma merged_area_map_spec l :
  areas_ok l →
  ∃ l', merged_area_map (keyed l) = Ok (keyed l') ∧ areas_ok l' ∧ (∀ x, view l' x = view l x) ∧
    within l l'.
Proof.
  intros Hl. unfold merged_area_map. rewrite bt_values_keyed.
  destruct l as [|a l]; [by exists []; split_and!|]. exact (merge_areas_spec l [] a Hl).
Qed.

(** ** The two edits of the layout *)

Lemma carve_merge_spec l r middle :
  areas_ok l → vr_nonempty r → (∀ a, a ∈ l → meets a r → splits a r) →
  ∃ l', (areas ← carve_areas l r middle []; merged_area_map areas) = Ok (keyed l') ∧
    areas_ok l' ∧ (∀ x, view l' x = carved r middle x (view l x)) ∧
    within l l'.
Proof.
  intros Hl Hr Hsp. change [] with (keyed []). rewrite carve_areas_spec by done. cbn [app mbind outcome_bind].
  destruct (merged_area_map_spec (flat_map (pieces r middle) l)) as (l' & -> & Hok & Hv & Hb);
    [by apply carved_ok|]. exists l'. split; [done|]. split; [done|]. split.
  - intros x. by rewrite Hv, carved_view.
  - destruct (carved_within r middle l (proj2 Hl)) as [Hin Hus], Hb as [Hin' Hus']. split; [|auto].
    intros lo hi Hall. apply Hin'. by apply Hin.
Qed.

(** ** Validation *)

Definition range_valid (vs : VmSpace) (start size : Z) (ps : PageSize) : Prop :=
  0 < size ∧ start mod page_bytes ps = 0 ∧ size mod page_bytes ps = 0 ∧
  start + size ≤ usize_max ∧
  vr_start (vs_range vs) ≤ start ∧ start + size ≤ vr_end (vs_range vs).
#[export] Instance range_valid_dec vs start size ps : Decision (range_valid vs start size ps) := _.

Lemma vm_validate_range_spec vs start size ps :
  0 ≤ start → 0 ≤ size →
  vm_validate_range vs start size ps =
    if decide (range_valid vs start size ps) then Ok (VRange start (start + size)) else Err InvalidInput.
Proof.
  intros Hst Hsz. unfold vm_validate_range, is_multiple_of. rewrite is_aligned_spec by done.
  destruct (Z.eqb_spec size 0), (Z.eqb_spec (start mod page_bytes ps) 0),
    (Z.eqb_spec (size mod page_bytes ps) 0); cbn [orb negb];
    try (rewrite decide_False; [done|]; unfold range_valid; intuition (lia || done)).
  rewrite vr_try_from_start_size_spec by done.
  destruct (Z.leb_spec (start + size) usize_max); cbn [ok_or mbind outcome_bind].
  2: { rewrite decide_False; [done|]. unfold range_valid. intuition lia. }
  rewrite vr_contains_range_spec by (unfold vr_nonempty; cbn; lia). cbn [vr_start vr_end].
  case_decide as Hd; unfold range_valid in Hd; split_zbool; try done; intuition lia.
Qed.

Lemma existsb_meets l r :
  areas_ok l → vr_nonempty r →
  existsb (λ a, vr_overlaps (a_range a) r) l = true ↔ ∃ a, a ∈ l ∧ meets a r.
Proof.
  intros Hl Hr. rewrite existsb_exists. split; intros (a & Ha & Hm).
  - apply list_elem_of_In in Ha. exists a. split; [done|].
    rewrite overlaps_meets in Hm by (done || by eapply areas_ok_elem). by apply bool_decide_eq_true in Hm.
  - exists a. split; [by apply list_elem_of_In|].
    rewrite overlaps_meets by (done || by eapply areas_ok_elem). by apply bool_decide_eq_true.
Qed.
Lemma overlapping_elem vs l r a :
  layout_wf vs l → vr_nonempty r → a ∈ overlapping (vs_areas vs) r ↔ a ∈ l ∧ meets a r.
Proof.
  intros Hl Hr. unfold overlapping. rewrite (lo_values _ _ Hl), list_elem_of_filter.
  split; intros [H1 H2].
  - split; [done|]. rewrite overlaps_meets in H1 by (done || by eapply areas_ok_elem, H2; apply Hl).
    by apply bool_decide_eq_true in H1.
  - split; [|done]. rewrite overlaps_meets by (done || by eapply areas_ok_elem, H1; apply Hl).
    by apply bool_decide_eq_true.
Qed.

(** ** [check_region_access] *)

Definition granted l (access x : Z) : Prop :=
  ∃ v, view l x = Some v ∧ contains (pv_flags v) access = true.

Lemma filter_length_mono {A} (P Q : A → Prop) `{!∀ x, Decision (P x), !∀ x, Decision (Q x)} (k : list A) :
  (∀ x, P x → Q x) → (length (filter P k) ≤ length (filter Q k))%nat.
Proof.
  intros HPQ. induction k as [|x k IH]; [done|]. rewrite !filter_cons.
  repeat case_decide; cbn; try lia. exfalso. auto.
Qed.

Lemma check_access_spec vs l access fuel r :
  layout_wf vs l →
  vr_end r ≤ vr_start r ∨ (length (filter (λ a, (vr_start r < a_end a)%Z) l) < fuel)%nat →
  ∃ b, check_access fuel vs r access = Ok b ∧
    (b = true ↔ ∀ x, vr_start r ≤ x < vr_end r → granted l access x).
Proof.
  intros Hl. revert r. induction fuel as [|fuel IH]; intros r Hfuel; cbn [check_access];
    rewrite vr_is_empty_spec;
    (destruct (Z.leb_spec (vr_end r) (vr_start r)) as [He|Hne];
     [exists true; split; [done|]; split; [intros _ x Hx; lia|done]|]);
    (destruct Hfuel as [|Hfuel]; [lia|]); [lia|].
  rewrite (area_at_spec vs l) by done.
  destruct (lookup_area l (vr_start r)) as [a|] eqn:Ha.
  2: { exists false. split; [done|]. split; [done|]. intros Hall.
       destruct (Hall (vr_start r)) as (v & Hv & _); [lia|]. unfold view in Hv. by rewrite Ha in Hv. }
  pose proof Ha as [Hin Hi]%lookup_area_Some; [|apply Hl].
  assert (∀ x, vr_start r ≤ x < Z.min (a_end a) (vr_end r) →
    granted l access x ↔ contains (a_flags a) access = true) as Hgr.
  { intros x Hx. unfold granted, view. replace (lookup_area l x) with (Some a).
    - split; [by intros (v & [= <-] & ?)|eauto].
    - symmetry. apply lookup_area_Some; [apply Hl|]. unfold inside in *. split; [done|lia]. }
  destruct (contains (a_flags a) access) eqn:Hc; cbn [negb].
  2: { exists false. split; [done|]. split; [done|]. intros Hall. unfold inside in Hi.
       specialize (Hall (vr_start r) ltac:(lia)). apply Hgr in Hall; [done|lia]. }
  set (r' := VRange (Z.min (a_end a) (vr_end r)) (vr_end r)).
  unfold inside in Hi. destruct (IH r') as (b & Hb & Hiff).
  { cbn [vr_start vr_end r']. destruct (decide (a_end a < vr_end r)) as [Hle|Hgt]; [right|left; lia].
    eapply Nat.lt_le_trans; [|apply Nat.lt_succ_r, Hfuel].
    apply list_elem_of_split in Hin as (l1 & l2 & ->). rewrite !filter_app, !length_app.
    rewrite (filter_cons_True (λ a, vr_start r < a_end a)) by lia.
    rewrite (filter_cons_False (λ a0, Z.min (a_end a) (vr_end r) < a_end a0)) by lia. cbn [length].
    assert (∀ k, (length (filter (λ a0, (a_end a `min` vr_end r < a_end a0)%Z) k) ≤
      length (filter (λ a0, (vr_start r < a_end a0)%Z) k))%nat) as Hmono
      by (intros k; apply filter_length_mono; intros; lia).
    pose proof (Hmono l1). pose proof (Hmono l2). lia. }
  exists b. split; [exact Hb|]. rewrite Hiff. cbn [vr_start vr_end r']. split; intros Hall x Hx.
  - destruct (decide (x < Z.min (a_end a) (vr_end r))); [apply Hgr; [lia|done]|apply Hall; lia].
  - apply Hall. lia.
Qed.
Lemma check_region_access_spec vs l access r :
  layout_wf vs l →
  ∃ b, check_region_access vs r access = Ok b ∧
    (b = true ↔ ∀ x, vr_start r ≤ x < vr_end r → granted l access x).
Proof.
  intros Hl. apply check_access_spec; [done|]. right. rewrite (lo_areas _ _ Hl).
  unfold keyed. rewrite length_fmap. apply Nat.lt_succ_r. apply length_filter.
Qed.

(** ** [find_free_area] *)

(** [y, y + size) is inside the search range and meets no area. *)
Definition free_at l (size hi : Z) (y : Z) : Prop :=
  y + size ≤ hi ∧ ∀ a, a ∈ l → ¬ meets a (VRange y (y + size)).

Lemma align_up_least ps x y :
  0 ≤ x → x + page_bytes ps - 1 ≤ usize_max →
  align_up x (page_bytes ps) mod page_bytes ps = 0 ∧ x ≤ align_up x (page_bytes ps) ∧
  (y mod page_bytes ps = 0 → x ≤ y → align_up x (page_bytes ps) ≤ y).
Proof.
  intros Hx Hmax. rewrite align_up_spec by done. pose proof (page_bytes_pos ps) as Hpos.
  set (n := page_bytes ps) in *. pose proof (Z.div_mod (x + n - 1) n ltac:(lia)) as Hdm.
  pose proof (Z.mod_pos_bound (x + n - 1) n Hpos).
  replace (x + n - 1 - (x + n - 1) mod n) with ((x + n - 1) / n * n) by lia. split_and!.
  - apply Z.mod_mul. lia.
  - lia.
  - intros [k ->]%Z.mod_divide Hle; [|lia]. apply Z.mul_le_mono_nonneg_r; [lia|].
    assert ((x + n - 1) / n < k + 1); [|lia]. apply Z.div_lt_upper_bound; [lia|]. lia.
Qed.

Lemma find_free_spec l size search ps c :
  areas_ok l → 0 < size → 0 ≤ c → c mod page_bytes ps = 0 →
  0 ≤ vr_end search ≤ usize_max →
  (∀ a, a ∈ l → a_end a + page_bytes ps - 1 ≤ usize_max) →
  match find_free l size search ps c with
  | Some y => c ≤ y ∧ y mod page_bytes ps = 0 ∧ free_at l size (vr_end search) y ∧
      ∀ z, c ≤ z → z mod page_bytes ps = 0 → free_at l size (vr_end search) z → y ≤ z
  | None => ∀ z, c ≤ z → z mod page_bytes ps = 0 → ¬ free_at l size (vr_end search) z
  end.
Proof.
  revert c. induction l as [|a l IH]; intros c Hok Hsz Hc Hal Hse Hmax; cbn [find_free].
  - rewrite checked_add_spec by lia.
    destruct (Z.leb_spec (c + size) usize_max); cbn.
    + destruct (Z.leb_spec (c + size) (vr_end search)).
      * split; [lia|]. split; [done|]. split; [|lia]. split; [done|]. intros a Ha. by apply elem_of_nil in Ha.
      * intros z Hz _ [Hf _]. lia.
    + intros z Hz _ [Hf _]. lia.
  - pose proof Hok as (Ha & Hl & Hal')%areas_ok_cons. pose proof (ao_nonempty a Ha) as Hne.
    pose proof (ao_usize a Ha).
    destruct (Z.leb_spec (a_end a) c) as [Hpast|Hnot].
    { assert (∀ z, c ≤ z → free_at (a :: l) size (vr_end search) z ↔ free_at l size (vr_end search) z) as Hiff.
      { intros z Hz. unfold free_at, meets. cbn. setoid_rewrite elem_of_cons. split; [naive_solver|].
        intros [Hf Hno]. split; [done|]. intros b [->|Hb]; [lia|auto]. }
      specialize (IH c Hl Hsz Hc Hal Hse (λ b Hb, Hmax b (list_elem_of_further _ _ _ Hb))).
      destruct (find_free l size search ps c) as [y|].
      - destruct IH as (Hy & Hym & Hyf & Hmin). split_and!; try done; [by apply Hiff|].
        intros z Hz Hzm Hzf. apply Hmin; [done..|]. by apply Hiff.
      - intros z Hz Hzm Hzf. apply (IH z Hz Hzm). by apply Hiff. }
    rewrite checked_add_spec by lia.
    destruct (Z.leb_spec (vr_end search) (a_start a)) as [Hbeyond|Hwithin].
    { assert (∀ b, b ∈ a :: l → vr_end search ≤ a_start b) as Hb.
      { intros b [->|Hb]%elem_of_cons; [done|]. specialize (Hal' b Hb). lia. }
      destruct (Z.leb_spec (c + size) usize_max); cbn.
      - destruct (Z.leb_spec (c + size) (vr_end search)).
        + split; [lia|]. split; [done|]. split; [|lia]. split; [done|]. intros b Hb'. specialize (Hb b Hb').
          unfold meets. cbn. lia.
        + intros z Hz _ [Hf _]. lia.
      - intros z Hz _ [Hf _]. lia. }
    destruct (match (if c + size <=? usize_max then Some (c + size) else None) with
      | Some fin => (fin <=? a_start a) && (fin <=? vr_end search) | None => false end) eqn:Hfit.
    { destruct (Z.leb_spec (c + size) usize_max); [|done].
      apply andb_true_iff in Hfit as [H1%Z.leb_le H2%Z.leb_le].
      split; [lia|]. split; [done|]. split; [|lia]. split; [done|].
      intros b [->|Hb]%elem_of_cons; unfold meets; cbn; [lia|]. specialize (Hal' b Hb). lia. }
    assert (a_end a + page_bytes ps - 1 ≤ usize_max) as Hmaxa by (apply Hmax; left).
    destruct (align_up_least ps (a_end a) 0 ltac:(lia) Hmaxa) as (Hcm & Hcl & _).
    set (c' := align_up (a_end a) (page_bytes ps)) in *.
    assert (∀ z, c ≤ z → z mod page_bytes ps = 0 → free_at (a :: l) size (vr_end search) z →
      c' ≤ z ∧ free_at l size (vr_end search) z) as Hnext.
    { intros z Hz Hzm [Hzf Hno]. split; [|split; [done|]; intros b Hb; apply Hno; by right].
      apply (proj2 (proj2 (align_up_least ps (a_end a) z ltac:(lia) Hmaxa))); [done|].
      specialize (Hno a ltac:(left)). unfold meets in Hno. cbn in Hno.
      destruct (decide (a_end a ≤ z)) as [|Hlt]; [done|]. exfalso.
      rewrite (proj2 (Z.leb_le (c + size) usize_max)) in Hfit by lia.
      apply andb_false_iff in Hfit as [Hf%Z.leb_gt|Hf%Z.leb_gt]; lia. }
    specialize (IH c' Hl Hsz ltac:(lia) Hcm Hse (λ b Hb, Hmax b (list_elem_of_further _ _ _ Hb))).
    destruct (find_free l size search ps c') as [y|].
    + destruct IH as (Hy & Hym & [Hyf Hyno] & Hmin). split_and!; try done; [lia| |].
      * split; [done|]. intros b [->|Hb]%elem_of_cons; [unfold meets; cbn; lia|auto].
      * intros z Hz Hzm Hzf. destruct (Hnext z Hz Hzm Hzf). auto.
    + intros z Hz Hzm Hzf. destruct (Hnext z Hz Hzm Hzf). by apply (IH z).
Qed.
End layout.
