(* ===== verification/VmInv.v ===== *)
(** * The invariant of a virtual-memory space

    [vm_inv w l L T H]: the areas [l] are a well-formed layout, the page
    tables translate by the leaves [L], and every leaf belongs to an area and
    grants no right the area does not. A writable page of a private area is
    owned by that one leaf and nobody else (copy-on-write). [T] are the table
    pages and [H] counts the frame handles held outside the page tables. *)
From S2P Require Import Prelude Errno MemAddr Frame PageTable AddressSpace AspaceInv AspaceTxn.
From S2P Require Import BTree VmArea VmSpace VmLayout.
From stdpp Require Import prelude gmap list.
Open Scope Z_scope.

(** Some frame has as many references as its count can hold. *)
Definition saturated `{CFG : Config, PA : PageAllocator} (m : machine) : Prop :=
  ∃ i, m_refs m i = u32_max.

(** ** What a page source promises (the contract of [trait VmObject])

    [held os i]: the handles the sources keep of frame [i]. [page] returns a
    counted handle of a frame that the source keeps a handle of as well; it
    takes no handle of a frame it does not own, leaves the frames and table
    pages of others alone, and panics only when a reference count is at its
    maximum ([Frame::clone] asserts that it is not). *)
Class VmObjectLaws `{VO : VmObject} := {
  object_live : objects → vm_object → Prop;
  held : objects → Z → Z;
  object_byte_len_total : ∀ o os, object_live os o → object_byte_len o os ≠ Panic;
  object_page_spec : ∀ o index w os m,
    object_live os o → mach_wf m → (∀ i, 0 ≤ held os i ≤ m_refs m i) →
    wp (object_page o index w) (os, m) (λ r st,
      mach_wf st.2 ∧ (∀ i, 0 ≤ held st.1 i) ∧
      (∀ o', object_live os o' → object_live st.1 o') ∧
      (∀ i, m_refs m i ≠ 0 → held os i = 0 → held st.1 i = 0) ∧
      (∀ T : gset Z, T ⊆ pa_used (m_alloc m) →
         (∀ i, m_refs m i ≠ 0 → phys_to_virt (frame_addr i) ∉ T) →
         T ⊆ pa_used (m_alloc st.2) ∧
         (∀ i, m_refs st.2 i ≠ 0 → phys_to_virt (frame_addr i) ∉ T)) ∧
      (∀ i x, m_refs m i ≠ 0 → frame_page i x → m_mem st.2 x = m_mem m x) ∧
      match r with
      | Ok pg => ∃ i, metadata (f_paddr (vp_frame pg)) = Some i ∧ 1 ≤ held st.1 i ∧
          ∀ j, m_refs st.2 j - held st.1 j =
            m_refs m j - held os j + (if bool_decide (j = i) then 1 else 0)
      | Err _ => ∀ j, m_refs st.2 j - held st.1 j = m_refs m j - held os j
      | Panic => (∀ j, m_refs st.2 j - held st.1 j = m_refs m j - held os j) ∧ saturated st.2
      end);
}.

(** The page sources that other spaces map *)
Class Bystanders `{VO : VmObject} := bystander : vm_object → Prop.

Definition right_bits : list Z := [READ; WRITE; EXECUTE; USER].

Section inv.
Context {CFG : Config} {PA : PageAllocator} {BF : BitFlags} {MA : MemoryAddr} {PT : PageTable}.
Context {PF : PhysFits} {FT : Foreign} {VO : VmObject} {VL : VmObjectLaws} {BY : Bystanders}.
Implicit Types (a : VmArea) (l : list VmArea) (L : gmap Z leaf) (T : gset Z) (H : Z → Z).

(** ** Rights *)

(** An entry made from [f] grants only rights of [f]. *)
Lemma pte_flags_rights kind f f' k :
  pte_flags kind f = Ok f' → k ∈ right_bits →
  contains (readback f') k = true → contains f k = true.
Proof.
  intros Hf Hk. pose proof (pte_flags_leaf kind f f' Hf) as [Hleaf _].
  rewrite readback_access by (done || (unfold right_bits in Hk; set_solver)).
  intros [Hc _]%andb_true_iff. revert Hc. revert Hf. unfold pte_flags.
  set (g := kind_apply kind (f |-| PROT_NONE)).
  assert (contains g k = true → contains f k = true) as Hg.
  { unfold g, right_bits in *. destruct kind; cbn [kind_apply]; set_unfold; destruct_or!; subst;
      flag_bits; rewrite ?andb_true_r, ?orb_false_r; done. }
  assert (contains (g |+| PROT_NONE) k = true → contains g k = true) as Hg'.
  { unfold right_bits in *. set_unfold; destruct_or!; subst; flag_bits; by rewrite ?orb_false_r. }
  destruct (negb (has_leaf_access g)); [intros [= <-]; auto|].
  destruct (_ && _); [done|]. intros [= <-]. auto.
Qed.
(** An entry made from [f] grants every right of [f] a program can use. *)
Lemma pte_flags_grants kind f f' access :
  pte_flags kind f = Ok f' → contains f access = true →
  contains (READ |+| WRITE |+| EXECUTE |+| USER) access = true →
  intersects access (READ |+| WRITE |+| EXECUTE) = true →
  contains (readback f') access = true.
Proof.
  intros Hf Hc Hsub Hacc. pose proof (pte_flags_leaf kind f f' Hf) as [Hleaf _].
  apply contains_testbits. intros i Hi.
  rewrite contains_testbits in Hc, Hsub. specialize (Hsub i Hi). pose proof (Hc i Hi) as Hfi.
  assert (0 ≤ i ≤ 3) as Hi3.
  { destruct (decide (0 ≤ i)); [|rewrite Z.testbit_neg_r in Hi by lia; done].
    destruct (decide (i ≤ 3)); [lia|]. exfalso. revert Hsub. rewrite !flag_union_spec.
    change (Z.lor (Z.lor (Z.lor READ WRITE) EXECUTE) USER) with 15.
    by rewrite (testbit_small 15 4) by lia. }
  assert (∃ k, k ∈ right_bits ∧ k = 2 ^ i) as (k & Hk & Hki).
  { exists (2 ^ i). split; [|done]. assert (i = 0 ∨ i = 1 ∨ i = 2 ∨ i = 3) as H by lia.
    unfold right_bits. destruct_or!; subst; cbn; set_solver. }
  rewrite <- (contains_bit (readback f') k i) by (done || lia).
  rewrite readback_access by (done || (unfold right_bits in Hk; set_solver)).
  apply andb_true_iff.
  assert (intersects f (READ |+| WRITE |+| EXECUTE) = true) as Hfa.
  { rewrite intersects_spec, negb_true_iff, Z.eqb_neq in Hacc |- *. intros H0. apply Hacc.
    apply Z.bits_inj_iff. intros j. rewrite Z.bits_0, Z.land_spec.
    destruct (Z.testbit access j) eqn:Hj; [|done]. cbn.
    pose proof (f_equal (λ z, Z.testbit z j) H0) as Hz. cbn in Hz.
    by rewrite Z.land_spec, Z.bits_0, (Hc j Hj) in Hz. }
  revert Hf. unfold pte_flags. set (g := kind_apply kind (f |-| PROT_NONE)).
  assert (contains g k = true ∧ contains g PROT_NONE = false ∧ has_leaf_access g = true) as (Hgk & Hgp & Hga).
  { assert (contains f k = true) as Hfk by (rewrite (contains_bit f k i) by (done || lia); done).
    unfold g, has_leaf_access in *. revert Hfk Hfa. unfold right_bits in Hk.
    destruct kind; cbn [kind_apply]; flag_bits; set_unfold; destruct_or!; subst k; flag_bits;
      rewrite ?andb_true_r, ?orb_false_r, ?andb_false_r; done. }
  rewrite Hga. cbn [negb]. destruct (_ && _); [done|]. intros [= <-]. by rewrite Hgk, Hgp.
Qed.

(** ** The invariant *)

Definition view_kind (v : page_view) : FrameKind :=
  match pv_source v with PStatic _ _ => Static | _ => Alloc end.

Record leaf_ok (l : list VmArea) (refs : Z → Z) (b : Z) (lf : leaf) (v : page_view) : Prop := {
  lv_view : view l b = Some v;
  lv_size : lf_size lf = pv_page_size v;
  lv_kind : kind_from_flags (lf_flags lf) = view_kind v;
  lv_rights : ∀ k, k ∈ right_bits →
    contains (lf_flags lf) k = true → contains (pv_flags v) k = true;
  lv_cow : pv_private v = true → contains (lf_flags lf) WRITE = true →
    ∀ i, metadata (lf_paddr lf) = Some i → refs i = 1;
  lv_static : ∀ p allowed, pv_source v = PStatic p allowed → lf_paddr lf = p;
}.

Record vm_inv (w : world) (l : list VmArea) L T H : Prop := {
  vi_layout : layout_wf (w_space w) l;
  vi_range : as_range (vs_aspace (w_space w)) = vs_range (w_space w);
  vi_as : as_inv (vs_aspace (w_space w), w_machine w) L T H;
  vi_held : ∀ i, 0 ≤ held (w_objects w) i ∧ 0 ≤ others i ≤ H i - held (w_objects w) i;
  vi_live : ∀ a o off, a ∈ l → source (a_backing a) = SrcObject o off → object_live (w_objects w) o;
  vi_leaves : ∀ b lf, L !! b = Some lf → ∃ v, leaf_ok l (m_refs (w_machine w)) b lf v;
  vi_bystanders : ∀ o, bystander o → object_live (w_objects w) o;
}.

(** ** Areas and leaves *)

Definition area_kind a : FrameKind :=
  match source (a_backing a) with SrcStatic _ => Static | _ => Alloc end.

Lemma view_Some l x v :
  view l x = Some v → ∃ a, lookup_area l x = Some a ∧ v = area_view a x.
Proof. unfold view. destruct (lookup_area l x) as [a|]; [intros [= <-]; eauto|done]. Qed.
Lemma view_area l x a : lookup_area l x = Some a → view l x = Some (area_view a x).
Proof. intros Ha. unfold view. by rewrite Ha. Qed.
Lemma view_kind_area a x : view_kind (area_view a x) = area_kind a.
Proof. unfold view_kind, area_kind, area_view. cbn. by destruct (source (a_backing a)). Qed.

(** A leaf lies inside the area that contains its base. *)
Lemma leaf_in_area w l L T H b lf :
  vm_inv w l L T H → L !! b = Some lf →
  ∃ a, a ∈ l ∧ inside a b ∧ b + page_bytes (lf_size lf) ≤ vr_end (a_range a) ∧
    lf_size lf = a_page_size a ∧ kind_from_flags (lf_flags lf) = area_kind a.
Proof.
  intros Hinv Hb. destruct (vi_leaves _ _ _ _ _ Hinv b lf Hb) as (v & Hv).
  destruct (view_Some l b v (lv_view _ _ _ _ _ Hv)) as (a & Ha & ->).
  pose proof (lo_ok _ _ (vi_layout _ _ _ _ _ Hinv)) as Hok.
  apply lookup_area_Some in Ha as [Hin Hi]; [|done]. exists a.
  pose proof (areas_ok_elem _ _ Hok Hin) as Haok.
  pose proof (lv_size _ _ _ _ _ Hv) as Hsz. cbn in Hsz.
  split; [done|]. split; [done|]. split; [|split; [done|]].
  - rewrite Hsz. unfold inside in Hi.
    destruct (lw_base _ _ _ (as_inv_wf _ _ _ _ (vi_as _ _ _ _ _ Hinv)) _ _ Hb) as (Hal & _).
    rewrite Hsz in Hal. apply aligned_lt_step; [apply page_bytes_pos|done|apply (ao_end a Haok)|lia].
  - rewrite (lv_kind _ _ _ _ _ Hv). apply view_kind_area.
Qed.

(** Two areas that share an address are the same. *)
Lemma area_unique l a a' x :
  areas_ok l → a ∈ l → a' ∈ l → inside a x → inside a' x → a = a'.
Proof.
  intros Hok Ha Ha' Hx Hx'.
  assert (lookup_area l x = Some a) as H1 by (by apply lookup_area_Some).
  assert (lookup_area l x = Some a') as H2 by (by apply lookup_area_Some). congruence.
Qed.

(** The leaves a slice of an area meets are exactly what unmapping and
    protecting it expect. *)
Lemma area_range_fits w l L T H a lo hi :
  vm_inv w l L T H → a ∈ l → vr_start (a_range a) ≤ lo → lo < hi → hi ≤ vr_end (a_range a) →
  lo mod page_bytes (a_page_size a) = 0 → hi mod page_bytes (a_page_size a) = 0 →
  range_fits L lo hi (area_kind a) (a_page_size a).
Proof.
  intros Hinv Ha Hlo Hlt Hhi Hml Hmh b lf Hb [Hm1 Hm2].
  destruct (leaf_in_area w l L T H b lf Hinv Hb) as (a' & Ha' & Hi' & He' & Hsz & Hk).
  pose proof (lo_ok _ _ (vi_layout _ _ _ _ _ Hinv)) as Hok.
  assert (a' = a) as ->.
  { unfold inside in Hi'. apply (area_unique l a' a (Z.max b lo) Hok Ha' Ha); unfold inside; lia. }
  destruct (lw_base _ _ _ (as_inv_wf _ _ _ _ (vi_as _ _ _ _ _ Hinv)) _ _ Hb) as (Hal & _).
  rewrite Hsz in *. unfold inside in Hi'. pose proof (page_bytes_pos (a_page_size a)) as Hpos.
  split; [|split; [|done]].
  - destruct (decide (lo ≤ b)) as [|Hgt]; [done|].
    pose proof (aligned_lt_step b lo _ Hpos Hal Hml). lia.
  - rewrite Hsz. pose proof (aligned_lt_step b hi _ Hpos Hal Hmh). lia.
Qed.

(** ** Updates *)

Definition put_as (w : world) (s : AddressSpace * machine) : world :=
  World (MkVmSpace (vs_range (w_space w)) (vs_areas (w_space w)) s.1 (vs_guards (w_space w)))
    (w_objects w) s.2.
Lemma layout_same vs vs' l :
  layout_wf vs l → vs_areas vs' = vs_areas vs → vs_range vs' = vs_range vs → layout_wf vs' l.
Proof. intros [H1 H2 H3 H4] Ha Hr. split; rewrite ?Ha, ?Hr; done. Qed.
Lemma vm_inv_update w l L T H w' L' T' H' :
  vm_inv w l L T H →
  vs_areas (w_space w') = vs_areas (w_space w) → vs_range (w_space w') = vs_range (w_space w) →
  as_range (vs_aspace (w_space w')) = as_range (vs_aspace (w_space w)) →
  as_inv (vs_aspace (w_space w'), w_machine w') L' T' H' →
  (∀ i, 0 ≤ held (w_objects w') i ∧ 0 ≤ others i ≤ H' i - held (w_objects w') i) →
  (∀ o, object_live (w_objects w) o → object_live (w_objects w') o) →
  (∀ b lf, L' !! b = Some lf → ∃ v, leaf_ok l (m_refs (w_machine w')) b lf v) →
  vm_inv w' l L' T' H'.
Proof.
  intros [Hl Hr Ha Hh Hlive Hle Hby] Hareas Hrange Hasr Has Hheld Hlive' Hleaves. split; try done.
  - by eapply layout_same.
  - by rewrite Hasr, Hr, Hrange.
  - intros a o off Hin Hsrc. eauto.
  - auto.
Qed.
(** Reference counts through the ownership equation. *)
Lemma refs_by_count s L T H s' L' T' H' i :
  as_inv s L T H → as_inv s' L' T' H' → own_count L' i + H' i = own_count L i + H i →
  m_refs s'.2 i = m_refs s.2 i.
Proof. intros Hs Hs' Heq. by rewrite (ai_count _ _ _ _ Hs'), Heq, (ai_count _ _ _ _ Hs). Qed.
(** The frame of a uniquely owned leaf is in no other hands. *)
Lemma unique_leaf s L T H b lf i :
  as_inv s L T H → L !! b = Some lf → is_alloc lf = true → metadata (lf_paddr lf) = Some i →
  m_refs s.2 i = 1 → H i = 0 ∧ own_count L i = 1.
Proof.
  intros Hinv Hb Ha Hi H1. rewrite (ai_count _ _ _ _ Hinv) in H1.
  pose proof (ai_handles _ _ _ _ Hinv i).
  assert (owns i lf = true) as Ho by (unfold owns; by rewrite Ha, bool_decide_eq_true_2).
  pose proof (own_count_pos L b lf i Hb Ho). lia.
Qed.

(** Pages of private areas are allocator-owned. *)
Lemma leaf_private_alloc l refs b lf v :
  areas_ok l → leaf_ok l refs b lf v → pv_private v = true → is_alloc lf = true.
Proof.
  intros Hok Hv Hp. destruct (view_Some l b v (lv_view _ _ _ _ _ Hv)) as (a & Ha & ->).
  apply lookup_area_Some in Ha as [Hin _]; [|done].
  pose proof (ao_source a (areas_ok_elem _ _ Hok Hin)) as Hs.
  apply kind_alloc. rewrite (lv_kind _ _ _ _ _ Hv), view_kind_area. unfold area_kind.
  cbn in Hp. unfold source_ok in Hs. destruct (source (a_backing a)); try done.
  destruct Hs as [Hs _]. congruence.
Qed.
Lemma private_alloc w l L T H b lf v :
  vm_inv w l L T H → leaf_ok l (m_refs (w_machine w)) b lf v → pv_private v = true →
  is_alloc lf = true.
Proof. intros Hinv. apply leaf_private_alloc, Hinv. Qed.
(** A leaf stays fine when its frame, if it was its only owner, still has one
    reference. *)
Lemma leaf_ok_keep w l L T H b lf refs' :
  vm_inv w l L T H → L !! b = Some lf →
  (∀ j, is_alloc lf = true → metadata (lf_paddr lf) = Some j → m_refs (w_machine w) j = 1 →
     H j = 0 → own_count L j = 1 → refs' j = 1) →
  ∃ v, leaf_ok l refs' b lf v.
Proof.
  intros Hinv Hb Hkeep. destruct (vi_leaves _ _ _ _ _ Hinv b lf Hb) as (v & Hv). exists v.
  pose proof (private_alloc _ _ _ _ _ _ _ _ Hinv Hv) as Hpa.
  destruct Hv as [? ? ? ? Hcow ?]. split; try done. intros Hp Hw i Hi.
  specialize (Hcow Hp Hw i Hi). specialize (Hpa Hp).
  destruct (unique_leaf _ L T H b lf i (vi_as _ _ _ _ _ Hinv) Hb Hpa Hi Hcow). auto.
Qed.

(** ** What user code sees of memory *)

Definition keeps_bytes (L : gmap Z leaf) (m : machine) (L' : gmap Z leaf) (m' : machine) : Prop :=
  ∀ x b lf, leaf_find L x = Some (b, lf) → is_alloc lf = true →
    ∃ lf', leaf_find L' x = Some (b, lf') ∧ is_alloc lf' = true ∧
      m_mem m' (phys_to_virt (lf_paddr lf' + (x - b))) = m_mem m (phys_to_virt (lf_paddr lf + (x - b))).
Lemma keeps_bytes_refl L m m' : m_mem m' = m_mem m → keeps_bytes L m L m'.
Proof. intros Hm x b lf Hf Ha. exists lf. by rewrite Hm. Qed.
Lemma keeps_bytes_trans L m L' m' L'' m'' :
  keeps_bytes L m L' m' → keeps_bytes L' m' L'' m'' → keeps_bytes L m L'' m''.
Proof.
  intros H1 H2 x b lf Hf Ha. destruct (H1 x b lf Hf Ha) as (lf' & Hf' & Ha' & Hm).
  destruct (H2 x b lf' Hf' Ha') as (lf'' & Hf'' & Ha'' & Hm'). exists lf''. split_and!; try done.
  by rewrite Hm', Hm.
Qed.
Lemma frame_byte p i o :
  metadata p = Some i → 0 ≤ o < 4096 →
  phys_to_virt (p + o) = phys_to_virt p + o ∧ frame_page i (phys_to_virt (p + o)).
Proof.
  intros [Hv ->]%metadata_Some Ho.
  assert (phys_to_virt (frame_addr i + o) = phys_to_virt (frame_addr i) + o) as Heq.
  { rewrite frame_vaddr by done. unfold frame_valid, frame_addr, phys_to_virt, wrap64, frame_count in *.
    pose proof cfg_bounds. pose proof (Z.div_mod PHYS_MEMORY_SIZE 4096 ltac:(lia)).
    pose proof (Z.mod_pos_bound PHYS_MEMORY_SIZE 4096). rewrite Z.mod_small; lia. }
  split; [done|]. unfold frame_page. rewrite Heq. lia.
Qed.
(** The bytes of resident pages are in counted frames. *)
Lemma resident_byte s L T H x b lf :
  as_inv s L T H → leaf_find L x = Some (b, lf) → is_alloc lf = true →
  ∃ i, metadata (lf_paddr lf) = Some i ∧ m_refs s.2 i ≠ 0 ∧ 0 ≤ x - b < 4096 ∧
    frame_page i (phys_to_virt (lf_paddr lf + (x - b))).
Proof.
  intros Hinv Hf Ha. pose proof Hf as [Hb Hc]%leaf_find_covers.
  destruct (ai_alloc _ _ _ _ Hinv b lf Hb Ha) as [Hsz [i Hi]]. rewrite Hsz in Hc. cbn in Hc.
  exists i. split; [done|]. split; [by eapply leaf_live|]. split; [lia|].
  apply (frame_byte _ _ _ Hi). lia.
Qed.
Lemma keeps_bytes_mem s L T H m' :
  as_inv s L T H →
  (∀ i x, m_refs s.2 i ≠ 0 → frame_page i x → m_mem m' x = m_mem s.2 x) →
  keeps_bytes L s.2 L m'.
Proof.
  intros Hinv Hm x b lf Hf Ha. exists lf. split; [done|]. split; [done|].
  destruct (resident_byte s L T H x b lf Hinv Hf Ha) as (i & _ & Hi & _ & Hp). by apply (Hm i).
Qed.
End inv.
