(* ===== verification/VmFault.v ===== *)
(** * Page faults (xvma/src/fault.rs)

    Resolving a fault keeps the invariant of the space, loses and gains no
    frame handle, and leaves the bytes of every resident page as they were;
    a resolved fault has made the page resident with the access it needed. *)
From S2P Require Import Prelude Errno MemAddr Frame PageTable AddressSpace AspaceInv AspaceTxn.
From S2P Require Import BTree VmArea VmSpace VmOps VmLayout VmInv.
From stdpp Require Import prelude gmap list.
Open Scope Z_scope.

Section fault.
Context {CFG : Config} {PA : PageAllocator} {BF : BitFlags} {MA : MemoryAddr} {PT : PageTable}.
Context {PF : PhysFits} {FT : Foreign} {VO : VmObject} {VL : VmObjectLaws} {BY : Bystanders}.
Implicit Types (a : VmArea) (l : list VmArea) (L : gmap Z leaf) (T : gset Z) (H : Z → Z).

(** The layout is not touched. *)
Definition same_layout (w w' : world) : Prop :=
  vs_areas (w_space w') = vs_areas (w_space w) ∧ vs_range (w_space w') = vs_range (w_space w).
Lemma same_layout_trans w w' w'' : same_layout w w' → same_layout w' w'' → same_layout w w''.
Proof. intros [H1 H2] [H1' H2']. split; congruence. Qed.

(** ** Frames in flight *)

Definition delta (i j : Z) : Z := if bool_decide (j = i) then 1 else 0.
Lemma fupd_add H i c j : fupd H i (H i + c) j = H j + c * delta i j.
Proof. rewrite fupd_case. unfold delta. case_decide; case_bool_decide; subst; try done; lia. Qed.

Lemma as_inv_alloc s L T H m' p i :
  as_inv s L T H → mach_wf m' → metadata p = Some i → m_refs s.2 i = 0 →
  m_refs m' = fupd (m_refs s.2) i 1 → fresh_page s.2 m' p →
  (∀ j x, m_refs s.2 j ≠ 0 → frame_page j x → m_mem m' x = m_mem s.2 x) →
  as_inv (s.1, m') L T (λ j, H j + delta i j).
Proof.
  intros [Hrep Hm HT Hdis Hcount Hh Hal Hus Hva [[HF HFd] HTF HX HI]] Hm' Hp H0 Hrefs [Hnew Hused] Hmem.
  apply metadata_Some in Hp as [Hv ->]. split; cbn; try done.
  - rewrite Hused. set_solver.
  - intros j Hj. rewrite Hrefs, fupd_case in Hj. case_decide; [subst; set_solver|by apply Hdis].
  - intros j. rewrite Hrefs, fupd_case. unfold delta.
    case_decide; case_bool_decide; subst; try done.
    + rewrite Hcount in H0. lia.
    + rewrite Hcount. lia.
  - intros j. specialize (Hh j). unfold delta. case_bool_decide; lia.
  - assert (∀ j, 0 < others j → m_refs s.2 j ≠ 0) as Hlive.
    { intros j Hj. rewrite Hcount. specialize (Hh j). pose proof (own_count_nonneg L j). lia. }
    split; [split|done|..]; cbn.
    + rewrite Hused. set_solver.
    + intros j Hj. rewrite Hrefs, fupd_case in Hj. case_decide; [subst; set_solver|by apply HFd].
    + intros j Hj. destruct (HX j Hj) as (H1 & H2 & H3). unfold delta. rewrite bool_decide_eq_false_2; [split_and!; lia|].
      intros ->. by apply (Hlive i).
    + intros j x Hj Hx. rewrite (Hmem j x) by auto. by apply (HI j).
Qed.

(** A new frame leaves every page and its sharing as they were. *)
Lemma vm_inv_alloc w l L T H m' p i :
  vm_inv w l L T H → mach_wf m' → metadata p = Some i → m_refs (w_machine w) i = 0 →
  m_refs m' = fupd (m_refs (w_machine w)) i 1 → fresh_page (w_machine w) m' p →
  (∀ j x, m_refs (w_machine w) j ≠ 0 → frame_page j x → m_mem m' x = m_mem (w_machine w) x) →
  vm_inv (World (w_space w) (w_objects w) m') l L T (λ j, H j + delta i j).
Proof.
  intros Hinv Hm' Hp H0 Hrefs Hfresh Hmem. pose proof (vi_as _ _ _ _ _ Hinv) as Has.
  eapply (vm_inv_update w l L T H); try done.
  - by eapply (as_inv_alloc (_, _)).
  - intros j. cbn. pose proof (vi_held _ _ _ _ _ Hinv j). unfold delta. case_bool_decide; lia.
  - intros b lf Hb. eapply (leaf_ok_keep w); [done..|]. intros j _ _ H1 _ _. cbn.
    rewrite Hrefs, fupd_case. case_decide; [subst; lia|done].
Qed.
Lemma vm_inv_machine w l L T H m' :
  vm_inv w l L T H → m_alloc m' = m_alloc (w_machine w) → m_refs m' = m_refs (w_machine w) →
  m_mem m' = m_mem (w_machine w) → vm_inv (World (w_space w) (w_objects w) m') l L T H.
Proof.
  intros Hinv Ha Hr He. eapply (vm_inv_update w l L T H); try done.
  - by apply (as_inv_machine (vs_aspace (w_space w), w_machine w)); [apply Hinv|..].
  - apply Hinv.
  - cbn. rewrite Hr. apply Hinv.
Qed.
Lemma vm_inv_guards w l L T H g : vm_inv w l L T H → vm_inv (set_guards g w) l L T H.
Proof. intros Hinv. eapply (vm_inv_update w l L T H); try done; apply Hinv. Qed.

Lemma vm_allocate w l L T H :
  vm_inv w l L T H →
  wp (on_wm (E := XError) frame_allocate_zeroed) w (λ r w', w_space w' = w_space w ∧
    w_objects w' = w_objects w ∧ keeps_bytes L (w_machine w) L (w_machine w') ∧
    match r with
    | Ok None => vm_inv w' l L T H
    | Ok (Some f) => ∃ i, metadata (f_paddr f) = Some i ∧
        vm_inv w' l L T (λ j, H j + delta i j) ∧ m_refs (w_machine w') i = 1 ∧
        ∀ x, frame_page i x → m_mem (w_machine w') x = 0
    | _ => False
    end).
Proof.
  intros Hinv. pose proof (vi_as _ _ _ _ _ Hinv) as Has. unfold on_wm. wp_step.
  eapply wp_mono; [apply frame_allocate_zeroed_spec, Has|].
  intros r m' (Hwf & (Hres & Htlb) & Hr). split; [done|]. split; [done|].
  destruct r as [[f|]| |]; try done.
  - destruct Hr as (i & Hi & H0 & Hrefs & Hfresh & Hmem).
    assert (∀ j x, m_refs (w_machine w) j ≠ 0 → frame_page j x → m_mem m' x = m_mem (w_machine w) x) as Hlive.
    { intros j x Hj Hx. rewrite Hmem. rewrite decide_False; [done|].
      intros Hx'. destruct (wf_refs_used _ (ai_mach _ _ _ _ Has) j Hj) as [Hvj _].
      pose proof Hi as [Hvi _]%metadata_Some.
      pose proof (frame_page_disjoint j i x Hvj Hvi Hx Hx'). subst. done. }
    split; [by apply (keeps_bytes_mem _ _ _ _ _ Has)|].
    + exists i. split; [done|]. split; [by eapply vm_inv_alloc|]. cbn. split.
      * by rewrite Hrefs, fupd_eq.
      * intros x Hx. rewrite Hmem. by rewrite decide_True.
  - destruct Hr as (Hrefs & Hmem & Hused). split; [by apply keeps_bytes_refl|].
    eapply (vm_inv_update w l L T H); try done.
    + cbn. destruct Has as [? ? HT Hdis Hcount ? ? ? ? [HF ? ? ?]]. split; cbn; rewrite ?Hrefs, ?Hused; try done.
      unfold tables_ok in *. split; unfold tables_ok; cbn; rewrite ?Hrefs, ?Hused, ?Hmem; done.
    + apply Hinv.
    + cbn. rewrite Hrefs. apply Hinv.
Qed.

Lemma vm_copy w l L T H p j :
  vm_inv w l L T H → metadata p = Some j → 1 ≤ H j →
  wp (on_wm (E := XError) (frame_deep_copy (MkFrame p))) w (λ r w', w_space w' = w_space w ∧
    w_objects w' = w_objects w ∧ keeps_bytes L (w_machine w) L (w_machine w') ∧
    match r with
    | Ok None => vm_inv w' l L T H
    | Ok (Some f) => ∃ i, metadata (f_paddr f) = Some i ∧ i ≠ j ∧
        vm_inv w' l L T (λ k, H k + delta i k) ∧ m_refs (w_machine w') i = 1 ∧
        m_refs (w_machine w') j = m_refs (w_machine w) j ∧
        (∀ o, 0 ≤ o < 4096 → m_mem (w_machine w') (phys_to_virt (f_paddr f) + o) =
           m_mem (w_machine w') (phys_to_virt p + o))
    | _ => False
    end).
Proof.
  intros Hinv Hp Hj. pose proof (vi_as _ _ _ _ _ Hinv) as Has. unfold on_wm. wp_step.
  assert (m_refs (w_machine w) j ≠ 0) as Hlive.
  { rewrite (ai_count _ _ _ _ Has). pose proof (own_count_nonneg L j). lia. }
  eapply wp_mono; [by apply (frame_deep_copy_spec _ p j); [apply Has|..]|].
  intros r m' (Hwf & (Hres & Htlb) & Hr). split; [done|]. split; [done|].
  destruct r as [[f|]| |]; try done.
  - destruct Hr as (i & Hi & Hij & H0 & Hrefs & Hfresh & Hcopy & Hmem).
    assert (∀ k x, m_refs (w_machine w) k ≠ 0 → frame_page k x → m_mem m' x = m_mem (w_machine w) x) as Hkeep.
    { intros k x Hk Hx. apply Hmem. intros Hx'.
      destruct (wf_refs_used _ (ai_mach _ _ _ _ Has) k Hk) as [Hvk _].
      pose proof Hi as [Hvi _]%metadata_Some.
      pose proof (frame_page_disjoint k i x Hvk Hvi Hx Hx'). subst. done. }
    split; [by apply (keeps_bytes_mem _ _ _ _ _ Has)|].
    + exists i. split; [done|]. split; [done|]. split; [by eapply vm_inv_alloc|]. cbn.
      rewrite Hrefs, fupd_eq, fupd_ne by done. split; [done|]. split; [done|].
      intros o Ho. rewrite Hcopy by done. symmetry. apply Hmem. intros Hx.
      destruct (frame_byte p j o Hp Ho) as [Heq Hx']. rewrite Heq in Hx'.
      apply metadata_Some in Hp as [Hvj _]. apply metadata_Some in Hi as [Hvi _].
      by apply Hij, (frame_page_disjoint _ _ _ Hvi Hvj Hx).
  - destruct Hr as (Hrefs & Hmem & Hused). split; [by apply keeps_bytes_refl|].
    eapply (vm_inv_update w l L T H); try done.
    + cbn. destruct Has as [? ? HT Hdis Hcount ? ? ? ? [HF ? ? ?]]. split; cbn; rewrite ?Hrefs, ?Hused; try done.
      unfold tables_ok in *. split; unfold tables_ok; cbn; rewrite ?Hrefs, ?Hused, ?Hmem; done.
    + apply Hinv.
    + cbn. rewrite Hrefs. apply Hinv.
Qed.

(** Giving back a handle nobody else counts. *)
Lemma vm_release w l L T H p i :
  vm_inv w l L T H → metadata p = Some i → others i + held (w_objects w) i < H i →
  wp (on_wm (E := XError) (frame_drop (MkFrame p))) w (λ r w', r = Ok () ∧ w_space w' = w_space w ∧
    w_objects w' = w_objects w ∧ m_mem (w_machine w') = m_mem (w_machine w) ∧
    vm_inv w' l L T (λ j, H j - delta i j)).
Proof.
  intros Hinv Hp Hi. pose proof (vi_as _ _ _ _ _ Hinv) as Has. pose proof (vi_held _ _ _ _ _ Hinv i).
  unfold on_wm. wp_step. pose proof (as_drop (E := XError) _ L T H p i Has Hp ltac:(lia)) as Hd.
  unfold on_machine, zoom, wp in *. cbn [snd fst] in Hd.
  destruct (frame_drop (MkFrame p) (w_machine w)) as [r m']. cbn in *.
  destruct Hd as (-> & _ & Has' & Hmem & _). split; [done|]. split; [done|]. split; [done|]. split; [done|].
  assert (∀ j, fupd H i (H i - 1) j = H j - delta i j) as Hfd.
  { intros j. rewrite fupd_case. unfold delta. case_decide; case_bool_decide; subst; try done; lia. }
  eapply (vm_inv_update w l L T H); try done.
  - cbn. eapply as_inv_ext; [|exact Has']. done.
  - intros j. cbn. pose proof (vi_held _ _ _ _ _ Hinv j). unfold delta. case_bool_decide; subst; lia.
  - intros b lf Hb. eapply (leaf_ok_keep w); [done..|]. intros j _ _ H1 Hj0 Ho. cbn.
    rewrite (ai_count _ _ _ _ Has'), Hfd, Ho, Hj0. unfold delta.
    rewrite bool_decide_eq_false_2; [done|]. intros ->. lia.
Qed.

(** Asking a page source for a page. *)
Lemma vm_object_page w l L T H o index wr :
  vm_inv w l L T H → object_live (w_objects w) o →
  wp (on_objects (object_page o index wr)) w (λ r w', w_space w' = w_space w ∧
    keeps_bytes L (w_machine w) L (w_machine w') ∧ ∃ H', vm_inv w' l L T H' ∧
    match r with
    | Ok pg => ∃ i, metadata (f_paddr (vp_frame pg)) = Some i ∧ 1 ≤ held (w_objects w') i ∧
        ∀ j, H' j - held (w_objects w') j = H j - held (w_objects w) j + delta i j
    | Err _ => ∀ j, H' j - held (w_objects w') j = H j - held (w_objects w) j
    | Panic => saturated (w_machine w')
    end).
Proof.
  intros Hinv Ho. pose proof (vi_as _ _ _ _ _ Hinv) as Has. unfold on_objects. wp_step.
  eapply wp_mono.
  { apply object_page_spec; [done|apply Has|]. intros i. rewrite (ai_count _ _ _ _ Has). cbn [snd].
    pose proof (vi_held _ _ _ _ _ Hinv i). pose proof (own_count_nonneg L i). lia. }
  intros r [os' m'] (Hwf & Hh & Hlive & Hforeign & Htab & Hmem & Hr). cbn [fst snd] in *.
  split; [done|]. split; [by apply (keeps_bytes_mem _ _ _ _ _ Has)|].
  set (d := λ j, match r with
                 | Ok pg => match metadata (f_paddr (vp_frame pg)) with
                            | Some i => delta i j | None => 0 end
                 | _ => 0 end).
  assert (∀ j, m_refs m' j - held os' j = m_refs (w_machine w) j - held (w_objects w) j + d j ∧
    (d j = 0 ∨ d j = 1 ∧ 1 ≤ held os' j)) as Hd.
  { intros j. unfold d. destruct r as [pg|e|]; [| |destruct Hr as [Hr _]].
    - destruct Hr as (i & -> & Hi & Hr). split; [exact (Hr j)|]. unfold delta.
      case_bool_decide; [subst; auto|auto].
    - split; [rewrite (Hr j); lia|by left].
    - split; [rewrite (Hr j); lia|by left]. }
  set (H' := λ j, H j - held (w_objects w) j + held os' j + d j). exists H'.
  assert (∀ j, m_refs m' j = own_count L j + H' j) as Hcount.
  { intros j. unfold H'. destruct (Hd j) as [He _]. rewrite (ai_count _ _ _ _ Has) in He.
    cbn in He. lia. }
  assert (∀ j, 0 ≤ held os' j ∧ 0 ≤ others j ≤ H' j - held os' j) as Hheld.
  { intros j. unfold H'. pose proof (vi_held _ _ _ _ _ Hinv j). specialize (Hh j).
    destruct (Hd j) as [_ Hdj]. lia. }
  split.
  - eapply (vm_inv_update w l L T H); try done.
    + cbn. destruct (Htab T) as [HT Hdis]; [apply Has|apply Has|].
      destruct (Htab foreign) as [HF HFd]; [apply Has|apply Has|].
      destruct Has as [? ? ? ? Hc ? ? ? ? [_ ? HX HI]]. cbn in Hc. split; cbn; try done; [intros j; pose proof (Hheld j); lia|].
      split; [done|done| |].
      * intros j Hj. destruct (HX j Hj) as (H1 & H2 & H3). split; [done|]. split; [|done].
        pose proof (vi_held _ _ _ _ _ Hinv j) as Hvh. specialize (Hc j).
        assert (held os' j = 0) as Hh0 by (apply Hforeign; lia). unfold H'. destruct (Hd j) as [_ [->|[_ ?]]]; lia.
      * intros j x Hj Hx. rewrite (Hmem j x); [by apply (HI j)| |done]. specialize (Hc j).
        pose proof (vi_held _ _ _ _ _ Hinv j). pose proof (own_count_nonneg L j). lia.
    + intros b lf Hb. eapply (leaf_ok_keep w); [done..|]. intros j _ _ H1 Hj0 Hown. cbn.
      rewrite Hcount, Hown. pose proof (vi_held _ _ _ _ _ Hinv j).
      assert (held os' j = 0) as Hh0 by (apply Hforeign; lia).
      unfold H'. destruct (Hd j) as [_ [->|[_ ?]]]; lia.
  - unfold H', d. destruct r as [pg|e|]; [| |apply Hr].
    + destruct Hr as (i & Hi & Hi' & _). exists i. rewrite Hi. split; [done|]. split; [done|].
      intros j. cbn. lia.
    + intros j. cbn. lia.
Qed.

(** ** Installing a page *)

Lemma leaf_ok_new l refs a page p f f' i :
  lookup_area l page = Some a → a_page_size a = Size4K → area_kind a = Alloc →
  pte_flags Alloc f = Ok f' → metadata p = Some i →
  (∀ k, k ∈ right_bits → contains f k = true → contains (a_flags a) k = true) →
  (is_private a = true → contains f WRITE = true → refs i = 1) →
  leaf_ok l refs page (Leaf p (readback f') Size4K) (area_view a page).
Proof.
  intros Ha Hps Hk Hf Hp Hrights Hcow. pose proof (pte_flags_leaf _ _ _ Hf) as [Hleaf Hal].
  split; cbn; try done.
  - by apply view_area.
  - rewrite view_kind_area, Hk. unfold kind_from_flags. by rewrite readback_alloc, Hal.
  - intros k Hk' Hc. apply Hrights; [done|]. by eapply pte_flags_rights.
  - intros Hpr Hw j Hj. rewrite Hp in Hj. injection Hj as <-. apply Hcow; [done|].
    apply (pte_flags_rights Alloc f f' WRITE); [done|unfold right_bits; set_solver|done].
  - intros q allowed Hsrc. unfold area_kind in Hk.
    destruct (source (a_backing a)); cbn in Hsrc; done.
Qed.

(** The effect of [map_frame] on the space. *)
Lemma vm_map_frame w l L T H a page p i f :
  vm_inv w l L T H → metadata p = Some i → others i + held (w_objects w) i < H i → 0 ≤ page →
  lookup_area l page = Some a → a_page_size a = Size4K → area_kind a = Alloc →
  (∀ k, k ∈ right_bits → contains f k = true → contains (a_flags a) k = true) →
  (is_private a = true → contains f WRITE = true → m_refs (w_machine w) i = 1) →
  wp (on_aspace (map_frame page (MkFrame p) f)) w (λ r w',
    w_objects w' = w_objects w ∧ same_layout w w' ∧
    vs_guards (w_space w') = vs_guards (w_space w) ∧
    m_mem (w_machine w') = m_mem (w_machine w) ∧ ∃ T',
    match r with
    | Ok _ => ∃ f', pte_flags Alloc f = Ok f' ∧ leaf_find L page = None ∧
        vm_inv w' l (<[page := Leaf p (readback f') Size4K]> L) T' (λ j, H j - delta i j)
    | Err _ => vm_inv w' l L T' (λ j, H j - delta i j)
    | Panic => False
    end).
Proof.
  intros Hinv Hp Hi Hpage Ha Hps Hk Hrights Hcow. pose proof (vi_as _ _ _ _ _ Hinv) as Has.
  pose proof (vi_held _ _ _ _ _ Hinv i) as Hhi. unfold on_aspace. wp_step.
  eapply wp_mono; [eapply (map_frame_spec _ L T H page p i f Has Hp); lia|].
  intros r s' (Hr & Hm & Hres & T' & Hpost). cbn [fst snd] in *.
  split; [done|]. split; [done|]. split; [done|]. split; [done|]. exists T'.
  assert (∀ j, fupd H i (H i - 1) j = H j - delta i j) as Hfd.
  { intros j. rewrite fupd_case. unfold delta. case_decide; case_bool_decide; subst; try done; lia. }
  assert (∀ j, 0 ≤ held (w_objects w) j ∧ 0 ≤ others j ≤ H j - delta i j - held (w_objects w) j) as Hheld.
  { intros j. pose proof (vi_held _ _ _ _ _ Hinv j). unfold delta. case_bool_decide; subst; lia. }
  destruct r as [[]|e|]; [| |done].
  - destruct Hpost as (f' & Hf & Hok & Hnone & _ & Has'). exists f'. split; [done|]. split; [done|].
    apply (as_inv_ext _ _ _ _ _ Hfd) in Has'.
    pose proof (pte_flags_leaf _ _ _ Hf) as [Hleaf Hal].
    assert (L !! page = None) as HLp.
    { destruct (L !! page) as [lf|] eqn:Hl; [|done].
      apply (leaf_find_None (as_inv_wf _ _ _ _ Has)) with (b := page) (lf := lf) in Hnone.
      destruct Hnone. split; [done|]. pose proof (page_bytes_pos (lf_size lf)). lia. }
    assert (∀ j, m_refs s'.2 j = m_refs (w_machine w) j) as Hrefs.
    { intros j. apply (refs_by_count _ _ _ _ _ _ _ _ j Has Has').
      rewrite own_count_insert, (owns_leaf p f' i j) by done.
      unfold delta. case_bool_decide; lia. }
    eapply (vm_inv_update w l L T H); try done.
    + by destruct s'.
    + intros b lf [[<- <-]|[_ Hb]]%lookup_insert_Some.
      * exists (area_view a page). eapply leaf_ok_new; try done. cbn. intros. rewrite Hrefs. auto.
      * eapply (leaf_ok_keep w); [done..|]. intros j _ _ H1 _ _. cbn. by rewrite Hrefs.
  - destruct Hpost as [Has' _]. apply (as_inv_ext _ _ _ _ _ Hfd) in Has'.
    eapply (vm_inv_update w l L T H); try done.
    + by destruct s'.
    + intros b lf Hb. eapply (leaf_ok_keep w); [done..|]. intros j _ _ H1 Hj0 Ho. cbn.
      rewrite (ai_count _ _ _ _ Has'), Ho, Hj0. unfold delta.
      rewrite bool_decide_eq_false_2; [done|]. intros ->. lia.
Qed.

(** ** Changing a resident page *)

Lemma keeps_bytes_insert s L T H s' page lf T' H' :
  as_inv s L T H → as_inv s' (<[page := lf]> L) T' H' → leaf_find L page = None →
  m_mem s'.2 = m_mem s.2 → keeps_bytes L s.2 (<[page := lf]> L) s'.2.
Proof.
  intros Has Has' Hnone Hm x b lf' Hf Ha. exists lf'. rewrite Hm. split; [|done].
  pose proof Hf as [Hb Hc]%leaf_find_covers.
  apply (leaf_find_Some (as_inv_wf _ _ _ _ Has')). split; [|done].
  rewrite lookup_insert_ne; [done|]. intros ->.
  apply (leaf_find_None (as_inv_wf _ _ _ _ Has)) with (b := b) (lf := lf') in Hnone.
  apply Hnone. split; [done|]. pose proof (page_bytes_pos (lf_size lf')). lia.
Qed.
(** Exchanging the leaf of a page for one of the same size. *)
Lemma keeps_bytes_change s L T H s' T' H' page lf lf' :
  as_inv s L T H → as_inv s' (<[page := lf']> L) T' H' → L !! page = Some lf →
  lf_size lf' = lf_size lf → is_alloc lf' = true →
  (∀ o, 0 ≤ o < page_bytes (lf_size lf) →
     m_mem s'.2 (phys_to_virt (lf_paddr lf' + o)) = m_mem s.2 (phys_to_virt (lf_paddr lf + o))) →
  (∀ x b lf0, b ≠ page → leaf_find L x = Some (b, lf0) → is_alloc lf0 = true →
     m_mem s'.2 (phys_to_virt (lf_paddr lf0 + (x - b))) = m_mem s.2 (phys_to_virt (lf_paddr lf0 + (x - b)))) →
  keeps_bytes L s.2 (<[page := lf']> L) s'.2.
Proof.
  intros Has Has' Hpage Hsz Hal Hsame Hother x b lf0 Hf Ha.
  pose proof Hf as [Hb Hc]%leaf_find_covers. destruct (decide (b = page)) as [->|Hne].
  - rewrite Hpage in Hb. injection Hb as <-. exists lf'. split; [|split; [done|]].
    + apply (leaf_find_Some (as_inv_wf _ _ _ _ Has')). split; [apply lookup_insert_eq|].
      by rewrite Hsz.
    + apply Hsame. lia.
  - exists lf0. split; [|split; [done|by apply Hother]].
    apply (leaf_find_Some (as_inv_wf _ _ _ _ Has')). split; [|done].
    by rewrite lookup_insert_ne.
Qed.

Lemma vm_frame_if_shared w l L T H page lf i :
  vm_inv w l L T H → vaddr_is_valid page = true → 0 ≤ page → L !! page = Some lf →
  is_alloc lf = true → metadata (lf_paddr lf) = Some i →
  wp (on_aspace (frame_if_shared page)) w (λ r w',
    match r with
    | Ok None => w' = w ∧ m_refs (w_machine w) i = 1
    | Ok (Some fr) => fr = MkFrame (lf_paddr lf) ∧ 1 < m_refs (w_machine w) i ∧
        w_objects w' = w_objects w ∧ same_layout w w' ∧
        m_mem (w_machine w') = m_mem (w_machine w) ∧
        vm_inv w' l L T (λ j, H j + delta i j) ∧ 1 < m_refs (w_machine w') i
    | Err _ => w' = w
    | Panic => False
    end).
Proof.
  intros Hinv Hv Hpage Hlf Hal Hi. pose proof (vi_as _ _ _ _ _ Hinv) as Has. unfold on_aspace. wp_step.
  assert (leaf_find L page = Some (page, lf)) as Hfind.
  { apply (leaf_find_Some (as_inv_wf _ _ _ _ Has)). split; [done|].
    pose proof (page_bytes_pos (lf_size lf)). lia. }
  eapply wp_mono; [by apply (frame_if_shared_spec _ L T H page Has)|].
  intros r s' (Hs & (Hm & _ & _) & Hr).
  assert (World (MkVmSpace (vs_range (w_space w)) (vs_areas (w_space w)) (vs_aspace (w_space w))
    (vs_guards (w_space w))) (w_objects w) (w_machine w) = w) as Heta by by destruct w as [[]].
  destruct r as [[fr|]|e|]; [| |by subst s'|done].
  - destruct Hr as (b & lf' & i' & Hf' & _ & Hi' & Hgt & -> & Has').
    rewrite Hfind in Hf'. injection Hf' as <- <-. rewrite Hi in Hi'. injection Hi' as <-.
    destruct s' as [as' m']. cbn [fst snd] in *. subst as'. split; [done|]. split; [done|].
    split; [done|]. split; [done|]. split; [done|].
    apply (as_inv_ext _ _ _ _ (λ j, H j + delta i j)) in Has'.
    2: { intros j. rewrite (fupd_add H i 1 j). lia. }
    split.
    + eapply (vm_inv_update w l L T H); try done.
      * intros j. cbn. pose proof (vi_held _ _ _ _ _ Hinv j). unfold delta. case_bool_decide; lia.
      * intros b lf' Hb. eapply (leaf_ok_keep w); [done..|]. intros j _ _ H1 Hj0 Ho. cbn.
        rewrite (ai_count _ _ _ _ Has'), Ho, Hj0. unfold delta.
        rewrite bool_decide_eq_false_2; [done|]. intros ->. lia.
    + cbn. rewrite (ai_count _ _ _ _ Has'). cbn in Hgt. rewrite (ai_count _ _ _ _ Has) in Hgt.
      unfold delta. rewrite bool_decide_eq_true_2 by done. lia.
  - destruct Hr as (-> & b & lf' & i' & Hf' & _ & Hi' & H1).
    rewrite Hfind in Hf'. injection Hf' as <- <-. rewrite Hi in Hi'. injection Hi' as <-. done.
Qed.

Lemma vm_protect_page w l L T H a page lf i f :
  vm_inv w l L T H → 0 ≤ page → page mod 4096 = 0 → L !! page = Some lf → is_alloc lf = true →
  metadata (lf_paddr lf) = Some i →
  lookup_area l page = Some a → a_page_size a = Size4K → area_kind a = Alloc →
  (∀ k, k ∈ right_bits → contains f k = true → contains (a_flags a) k = true) →
  (is_private a = true → contains f WRITE = true → m_refs (w_machine w) i = 1) →
  wp (on_aspace (protect_alloc_page page f)) w (λ r w',
    w_objects w' = w_objects w ∧ same_layout w w' ∧
    vs_guards (w_space w') = vs_guards (w_space w) ∧
    match r with
    | Ok _ => ∃ f', pte_flags Alloc f = Ok f' ∧
        vm_inv w' l (<[page := set_leaf_flags f' lf]> L) T H ∧
        keeps_bytes L (w_machine w) (<[page := set_leaf_flags f' lf]> L) (w_machine w')
    | Err _ => w' = w
    | Panic => False
    end).
Proof.
  intros Hinv Hpage Hmod Hlf Hal Hi Ha Hps Hk Hrights Hcow.
  pose proof (vi_as _ _ _ _ _ Hinv) as Has. unfold on_aspace. wp_step.
  eapply wp_mono; [by apply (protect_alloc_page_spec _ L T H page f Has)|].
  intros r s' ((Hr & Hm & Hrefs & _) & Hpost). cbn zeta in Hpost. rewrite Hmod, Z.sub_0_r in Hpost.
  cbn [fst snd] in *. split; [done|]. split; [done|]. split; [done|].
  destruct r as [[]|e|]; [|by subst s'; destruct w as [[]]|done].
  destruct Hpost as (f' & Hf & Has' & _). exists f'. split; [done|].
  rewrite (alter_leaf L page f' lf) in Has' by done.
  pose proof (pte_flags_leaf _ _ _ Hf) as [Hleaf Hal'].
  assert (lf_size lf = Size4K) as Hsz by (by destruct (ai_alloc _ _ _ _ Has page lf Hlf Hal)).
  assert (is_alloc (set_leaf_flags f' lf) = true) as Hal2.
  { unfold is_alloc, set_leaf_flags. cbn. by rewrite readback_alloc, Hal'. }
  split.
  - eapply (vm_inv_update w l L T H); try done.
    + by destruct s'.
    + apply Hinv.
    + intros b lf' [[<- <-]|[_ Hb]]%lookup_insert_Some.
      * exists (area_view a page). unfold set_leaf_flags. rewrite Hsz.
        eapply leaf_ok_new; try done. cbn. intros. rewrite Hrefs. auto.
      * eapply (leaf_ok_keep w); [done..|]. intros j _ _ H1 _ _. cbn. by rewrite Hrefs.
  - cbn. destruct s' as [as' m']. cbn [fst snd] in *.
    eapply (keeps_bytes_change (vs_aspace (w_space w), w_machine w) L T H (as', m')); try done; cbn.
    + intros o Ho. by rewrite Hm.
    + intros x b lf0 Hne Hf0 Ha0. by rewrite Hm.
Qed.

Lemma vm_replace w l L T H a page lf i p k f :
  vm_inv w l L T H → vaddr_is_valid page = true → 0 ≤ page → page mod 4096 = 0 →
  L !! page = Some lf → is_alloc lf = true → metadata (lf_paddr lf) = Some i →
  1 < m_refs (w_machine w) i →
  metadata p = Some k → others k + held (w_objects w) k < H k → m_refs (w_machine w) k = 1 →
  lookup_area l page = Some a → a_page_size a = Size4K → area_kind a = Alloc →
  (∀ k, k ∈ right_bits → contains f k = true → contains (a_flags a) k = true) →
  (∀ o, 0 ≤ o < 4096 → m_mem (w_machine w) (phys_to_virt p + o) =
     m_mem (w_machine w) (phys_to_virt (lf_paddr lf) + o)) →
  wp (on_aspace (replace_frame page (MkFrame (lf_paddr lf)) (MkFrame p) f)) w (λ r w',
    w_objects w' = w_objects w ∧ same_layout w w' ∧
    match r with
    | Ok _ => ∃ f', pte_flags Alloc f = Ok f' ∧
        vm_inv w' l (<[page := Leaf p (readback f') Size4K]> L) T (λ j, H j - delta k j) ∧
        keeps_bytes L (w_machine w) (<[page := Leaf p (readback f') Size4K]> L) (w_machine w')
    | Err _ => vm_inv w' l L T (λ j, H j - delta k j) ∧ m_mem (w_machine w') = m_mem (w_machine w)
    | Panic => False
    end).
Proof.
  intros Hinv Hv Hpage Hmod Hlf Hal Hi Hshared Hp Hk Hk1 Ha Hps Hkind Hrights Hcopy.
  pose proof (vi_as _ _ _ _ _ Hinv) as Has. pose proof (vi_held _ _ _ _ _ Hinv k) as Hhk.
  unfold on_aspace. wp_step.
  assert (page - page mod 4096 = page) as Hpp by lia.
  eapply wp_mono.
  { apply (replace_frame_spec _ L T H page (lf_paddr lf) p k f Has Hp); [lia|done|by rewrite Hpp]. }
  intros r s' (Hr & Hm & _ & Hpost). rewrite Hpp in Hpost. cbn [fst snd] in *.
  split; [done|]. split; [done|]. destruct s' as [as' m']. cbn [fst snd] in *.
  assert (∀ j, fupd H k (H k - 1) j = H j - delta k j) as Hfd.
  { intros j. rewrite fupd_case. unfold delta. case_decide; case_bool_decide; subst; try done; lia. }
  assert (∀ j, 0 ≤ held (w_objects w) j ∧ 0 ≤ others j ≤ H j - delta k j - held (w_objects w) j) as Hheld.
  { intros j. pose proof (vi_held _ _ _ _ _ Hinv j). unfold delta. case_bool_decide; subst; lia. }
  assert (own_count L k = 0 ∧ H k = 1) as [Hok0 Hk1'].
  { rewrite (ai_count _ _ _ _ Has) in Hk1. cbn in Hk1. pose proof (own_count_nonneg L k). lia. }
  destruct r as [[]|e|]; [| |done].
  - destruct Hpost as (lf' & f' & Hf & Hlf' & _ & _ & Has'). exists f'. split; [done|].
    apply (as_inv_ext _ _ _ _ _ Hfd) in Has'.
    pose proof (pte_flags_leaf _ _ _ Hf) as [Hleaf Hal'].
    assert (∀ j, owns j lf = bool_decide (j = i)) as Howns.
    { intros j. unfold owns. rewrite Hal, Hi. cbn. apply bool_decide_ext. naive_solver. }
    assert (∀ j, m_refs m' j = m_refs (w_machine w) j - delta i j) as Hrefs.
    { intros j. pose proof (ai_count _ _ _ _ Has' j) as Hc'. pose proof (ai_count _ _ _ _ Has j) as Hc.
      cbn [snd] in Hc, Hc'. rewrite Hc, Hc'. rewrite (own_count_replace L page lf) by done.
      rewrite (owns_leaf p f' k j), Howns by done. unfold delta. repeat case_bool_decide; lia. }
    assert (i ≠ k) as Hik by (intros ->; lia).
    split.
    + eapply (vm_inv_update w l L T H); try done.
      intros b lf0 [[<- <-]|[_ Hb]]%lookup_insert_Some.
      * exists (area_view a page). eapply leaf_ok_new; try done. intros _ _. cbn. rewrite Hrefs. unfold delta.
        rewrite bool_decide_eq_false_2 by done. lia.
      * eapply (leaf_ok_keep w); [done..|]. intros j _ _ H1 Hj0 Ho. cbn. rewrite Hrefs, H1.
        unfold delta. rewrite bool_decide_eq_false_2; [done|]. intros ->. lia.
    + destruct (ai_alloc _ _ _ _ Has page lf Hlf Hal) as [Hsz _].
      cbn. eapply (keeps_bytes_change (vs_aspace (w_space w), w_machine w) L T H (as', m') _ _ page lf); try done; cbn.
      * unfold is_alloc. cbn. by rewrite readback_alloc, Hal'.
      * rewrite Hsz. cbn. intros o Ho. rewrite Hm.
        destruct (frame_byte p k o Hp Ho) as [Hb1 _].
        destruct (frame_byte (lf_paddr lf) i o Hi Ho) as [Hb2 _]. rewrite Hb1, Hb2.
        by apply Hcopy.
      * intros x b lf0 Hne Hf0 Ha0. by rewrite Hm.
  - apply (as_inv_ext _ _ _ _ _ Hfd) in Hpost. split; [|done].
    eapply (vm_inv_update w l L T H); try done.
    intros b lf0 Hb. eapply (leaf_ok_keep w); [done..|]. intros j _ _ H1 Hj0 Ho. cbn.
    pose proof (ai_count _ _ _ _ Hpost j) as Hc'. cbn [snd] in Hc'. rewrite Hc', Ho, Hj0. unfold delta.
    rewrite bool_decide_eq_false_2; [done|]. intros ->. lia.
Qed.

(** ** The fault handlers *)

(** Access rights a program can ask for. *)
Definition usable (access : Z) : Prop :=
  contains (READ |+| WRITE |+| EXECUTE |+| USER) access = true ∧
  intersects access (READ |+| WRITE |+| EXECUTE) = true.
(** The page is resident with the access; if the access is a store that a page
    guard has to account for first, with all of it but the store. *)
Definition resident L a (page access : Z) : Prop :=
  ∃ lf, L !! page = Some lf ∧
    (usable access → ¬ (requires_write_guard (a_backing a) = true ∧ contains access WRITE = true) →
     contains (lf_flags lf) access = true) ∧
    (usable (access |-| WRITE) → contains (lf_flags lf) (access |-| WRITE) = true).
Definition fault_post (w : world) l L H a (page access : Z) (r : outcome XError FaultResolution)
    (w' : world) : Prop :=
  r = Panic ∧ saturated (w_machine w') ∨
  same_layout w w' ∧ ∃ res L' T' H', r = Ok res ∧ vm_inv w' l L' T' H' ∧
    (∀ j, H' j - held (w_objects w') j = H j - held (w_objects w) j) ∧
    keeps_bytes L (w_machine w) L' (w_machine w') ∧ (res = Resolved → resident L' a page access).

Lemma page_facts w l L T H a page :
  vm_inv w l L T H → lookup_area l page = Some a →
  a ∈ l ∧ inside a page ∧ 0 ≤ page ∧ vaddr_is_valid page = true.
Proof.
  intros Hinv Ha. pose proof (vi_layout _ _ _ _ _ Hinv) as Hl.
  pose proof Ha as [Hin Hi]%lookup_area_Some; [|apply Hl].
  pose proof (ao_usize a (areas_ok_elem _ _ (lo_ok _ _ Hl) Hin)).
  split; [done|]. split; [done|]. unfold inside in Hi. split; [lia|].
  apply (ai_valid _ _ _ _ (vi_as _ _ _ _ _ Hinv)). cbn. rewrite (vi_range _ _ _ _ _ Hinv).
  destruct (lo_inside _ _ Hl a Hin). lia.
Qed.

(** [commit_page]: the reservation, then the change, then the guard. *)
Definition same_machine (m m' : machine) : Prop :=
  m_alloc m' = m_alloc m ∧ m_refs m' = m_refs m ∧ m_mem m' = m_mem m.
Lemma try_reserve_spec {E} m :
  ∃ b m', try_reserve (E := E) m = (Ok b, m') ∧ same_machine m m'.
Proof. unfold try_reserve. destruct (m_reserve m) as [|b bs]; eexists _, _; split; done. Qed.

Lemma commit_page_spec w page guard pte dropped (Q : FaultResolution → world → Prop) :
  (∀ m1, same_machine (w_machine w) m1 →
     wp (on_wm dropped) (World (w_space w) (w_objects w) m1)
       (λ r w', r = Ok () ∧ Q FaultNoMemory w') ∧
     wp (on_aspace pte) (World (w_space w) (w_objects w) m1) (λ r w',
       match r with
       | Ok _ => Q Resolved w' ∧ ∀ g, Q Resolved (set_guards g w')
       | Err e => Q (resolution (Err e)) w'
       | Panic => False
       end)) →
  wp (commit_page page guard pte dropped) w (λ r w', ∃ res, r = Ok res ∧ Q res w').
Proof.
  intros HQ. unfold commit_page. wp_step.
  assert (∀ m1, same_machine (w_machine w) m1 →
    wp (attempt (on_aspace pte) (λ r,
      match r with
      | Ok _ =>
          match guard with Some guard => insert_write_guard page guard | None => mret () end;;
          mret Resolved
      | _ => mret (resolution r)
      end)) (World (w_space w) (w_objects w) m1) (λ r w', ∃ res, r = Ok res ∧ Q res w')) as Hgo.
  { intros m1 Hm1. wp_step. eapply wp_mono; [apply HQ, Hm1|].
    intros r w1 Hr. destruct r as [[]|e|]; [| |done].
    - destruct Hr as [Hr Hg]. wp_step. destruct guard; [unfold insert_write_guard|]; wp_steps; eauto.
    - wp_step. eauto. }
  destruct guard as [g|].
  - unfold reserve_write_guard, on_wm at 1. wp_step.
    destruct (try_reserve_spec (E := XError) (w_machine w)) as (b & m1 & Hres & Hm1).
    eapply wp_eq; [exact Hres|]. cbn beta iota. destruct b; cbn [negb]; [by apply Hgo|].
    wp_step. eapply wp_mono; [apply (HQ m1 Hm1)|]. intros r w1 [-> Hr]. wp_step. eauto.
  - wp_step. cbn [negb]. replace w with (World (w_space w) (w_objects w) (w_machine w)) by by destruct w.
    by apply Hgo.
Qed.

Lemma install_page_spec w l L T H a page p i f guard :
  vm_inv w l L T H → lookup_area l page = Some a → a_page_size a = Size4K → area_kind a = Alloc →
  metadata p = Some i → others i + held (w_objects w) i < H i →
  (∀ k, k ∈ right_bits → contains f k = true → contains (a_flags a) k = true) →
  (is_private a = true → contains f WRITE = true → m_refs (w_machine w) i = 1) →
  wp (install_page page (MkFrame p) f guard) w (λ r w', ∃ res, r = Ok res ∧
    w_objects w' = w_objects w ∧ same_layout w w' ∧ ∃ L' T',
    vm_inv w' l L' T' (λ j, H j - delta i j) ∧ keeps_bytes L (w_machine w) L' (w_machine w') ∧
    (res = Resolved → ∃ f', pte_flags Alloc f = Ok f' ∧
       L' !! page = Some (Leaf p (readback f') Size4K))).
Proof.
  intros Hinv Ha Hps Hk Hp Hi Hrights Hcow.
  destruct (page_facts _ _ _ _ _ _ _ Hinv Ha) as (_ & _ & Hpage & _).
  apply commit_page_spec. intros m1 (Hm1 & Hm2 & Hm3).
  set (w1 := World (w_space w) (w_objects w) m1).
  assert (vm_inv w1 l L T H) as Hinv1 by (by apply vm_inv_machine). split.
  - eapply wp_mono; [by apply (vm_release w1 l L T H p i)|].
    intros r w2 (-> & Hs & Ho & Hm & Hinv2). split; [done|]. unfold same_layout. rewrite Hs. split_and!; try done.
    exists L, T. split; [done|]. split; [|done]. apply keeps_bytes_refl. by rewrite Hm.
  - eapply wp_mono; [apply (vm_map_frame w1 l L T H a page p i f); try done|].
    { intros Hpr Hw. cbn. rewrite Hm2. auto. }
    intros r w2 (Ho & Har & Hg & Hm & T' & Hr). destruct r as [[]|e|]; [| |done].
    + destruct Hr as (f' & Hf & Hnone & Hinv2).
      assert (keeps_bytes L (w_machine w) (<[page := Leaf p (readback f') Size4K]> L) (w_machine w2)) as Hkb.
      { apply (keeps_bytes_insert (vs_aspace (w_space w), w_machine w) L T H
          (vs_aspace (w_space w2), w_machine w2) page _ T' (λ j, H j - delta i j)); try done.
        - apply Hinv.
        - apply Hinv2.
        - cbn. by rewrite Hm. }
      split; [|intros g]; (split; [done|]; split; [done|]); eexists _, T';
        (split; [first [exact Hinv2|by apply vm_inv_guards; exact Hinv2]|]); (split; [exact Hkb|]);
        intros _; exists f'; (split; [done|apply lookup_insert_eq]).
    + split; [done|]. split; [done|]. exists L, T'. split; [done|]. split; [apply keeps_bytes_refl; by rewrite Hm|].
      by destruct e.
Qed.

(** A fault that was not resolved. *)
Lemma fault_post_not w l L H a page access w' T' H' res :
  same_layout w w' → vm_inv w' l L T' H' →
  (∀ j, H' j - held (w_objects w') j = H j - held (w_objects w) j) →
  keeps_bytes L (w_machine w) L (w_machine w') → res ≠ Resolved →
  fault_post w l L H a page access (Ok res) w'.
Proof. intros. right. split; [done|]. exists res, L, T', H'. by split_and!. Qed.
Lemma fault_post_same w l L T H a page access res :
  vm_inv w l L T H → res ≠ Resolved → fault_post w l L H a page access (Ok res) w.
Proof. intros. eapply fault_post_not; try done. by apply keeps_bytes_refl. Qed.
Lemma without_WRITE access : contains access (access |-| WRITE) = true.
Proof. rewrite contains_testbits. intros i Hi. rewrite testbit_difference in Hi. by apply andb_true_iff in Hi as [? _]. Qed.
Lemma difference_mono f access : contains f access = true → contains (f |-| WRITE) (access |-| WRITE) = true.
Proof.
  rewrite !contains_testbits. intros Hf i Hi. rewrite testbit_difference in *. apply andb_true_iff in Hi as [Hi Hw].
  by rewrite (Hf i Hi), Hw.
Qed.
Lemma resident_new L a page access lf f f' :
  L !! page = Some lf → lf_flags lf = readback f' → pte_flags Alloc f = Ok f' →
  contains f access = true → resident L a page access.
Proof.
  intros Hlf Hf Hpf Hc. exists lf. rewrite Hf. split; [done|]. split; [intros [Hu Hi] _|intros [Hu Hi]]; [by eapply pte_flags_grants|].
  eapply pte_flags_grants; try done. eapply contains_trans; [exact Hc|apply without_WRITE].
Qed.
Lemma resolution_Resolved r : resolution r = Resolved → r = Ok ().
Proof. destruct r as [[]|[]|]; done. Qed.

Lemma private_facts a : area_ok a → is_private a = true → a_page_size a = Size4K ∧ area_kind a = Alloc.
Proof.
  intros Ha Hp. pose proof (ao_source _ Ha) as Hs. unfold area_kind. rewrite Hp in Hs.
  destruct (source (a_backing a)); cbn in Hs; naive_solver.
Qed.
Lemma alloc_index s L T H b lf :
  as_inv s L T H → L !! b = Some lf → is_alloc lf = true →
  ∃ i, metadata (lf_paddr lf) = Some i ∧ lf_size lf = Size4K.
Proof. intros Has Hlf Hal. destruct (ai_alloc _ _ _ _ Has b lf Hlf Hal) as (Hs & i & Hi). eauto. Qed.
Lemma delta_eq i : delta i i = 1.
Proof. unfold delta. by rewrite bool_decide_eq_true_2. Qed.

(** The copying branch of [resolve_private_write], with a handle of the
    shared frame in hand. *)
Lemma copy_page_spec w l L T H a page lf i access :
  vm_inv w l L T H → lookup_area l page = Some a → a_page_size a = Size4K → area_kind a = Alloc →
  L !! page = Some lf → is_alloc lf = true → metadata (lf_paddr lf) = Some i →
  page mod 4096 = 0 → contains (a_flags a) access = true →
  others i + held (w_objects w) i < H i → 1 < m_refs (w_machine w) i →
  wp (copy ← on_wm (frame_deep_copy (MkFrame (lf_paddr lf)));
      match copy with
      | None => on_wm (frame_drop (MkFrame (lf_paddr lf)));; mret FaultNoMemory
      | Some replacement =>
          attempt (on_aspace (replace_frame page (MkFrame (lf_paddr lf)) replacement (a_flags a)))
            (λ r, on_wm (frame_drop (MkFrame (lf_paddr lf)));; mret (resolution r))
      end) w (fault_post w l L (λ j, H j - delta i j) a page access).
Proof.
  intros Hinv Ha Hps Hk Hlf Hal Hi Hmod Hacc Hhi Hsh.
  destruct (page_facts _ _ _ _ _ _ _ Hinv Ha) as (_ & _ & Hpage & Hval).
  pose proof (vi_held _ _ _ _ _ Hinv i) as Hhi0.
  wp_step. eapply wp_mono; [apply (vm_copy w l L T _ _ i Hinv Hi); lia|].
  intros r w2 (Hs2 & Ho2 & Hkb2 & Hr).
  assert (∀ w3 L' H3 res, vm_inv w3 l L' T H3 → (∀ j, H3 j = H j) → w_objects w3 = w_objects w →
    same_layout w w3 → keeps_bytes L (w_machine w) L' (w_machine w3) →
    (res = Resolved → resident L' a page access) →
    wp (on_wm (frame_drop (MkFrame (lf_paddr lf)));; mret res) w3
      (fault_post w l L (λ j, H j - delta i j) a page access)) as Hend.
  { intros w3 L' H3 res Hinv3 HH3 Ho3 Hl3 Hkb3 Hres. wp_step.
    eapply wp_mono; [apply (vm_release w3 l L' T _ _ i Hinv3 Hi); by rewrite Ho3, HH3|].
    intros r' w4 (-> & Hs4 & Ho4 & Hm4 & Hinv4). wp_step. right. split.
    { eapply same_layout_trans; [exact Hl3|]. unfold same_layout. by rewrite Hs4. }
    eexists res, L', T, _. split; [done|]. split; [exact Hinv4|]. split_and!; [|intros..|done].
    - intros j. cbn. rewrite HH3, Ho4, Ho3. lia.
    - eapply keeps_bytes_trans; [exact Hkb3|by apply keeps_bytes_refl]. }
  assert (same_layout w w2) as Hl2 by (unfold same_layout; by rewrite Hs2).
  destruct r as [[[q]|]|e|]; [| |done..].
  - destruct Hr as (k & Hk' & Hki & Hinv2 & Hk1 & Hrefi & Hcopy). cbn in Hk'. wp_step.
    assert (others k + held (w_objects w2) k < H k + delta k k) as Hheldk.
    { rewrite Ho2, delta_eq. pose proof (vi_held _ _ _ _ _ Hinv k). lia. }
    eapply wp_mono.
    { apply (vm_replace w2 l L T _ a page lf i q k (a_flags a) Hinv2); try done. lia. }
    intros r w3 (Ho3 & Hl3 & Hr). destruct r as [[]|e|]; [| |done].
    + destruct Hr as (f' & Hf & Hinv3 & Hkb3).
      eapply Hend; [exact Hinv3|intros j; cbn; lia|congruence|by eapply same_layout_trans|
        by eapply keeps_bytes_trans|intros _; eapply resident_new; [apply lookup_insert_eq|done..]].
    + destruct Hr as [Hinv3 Hm3].
      eapply Hend; [exact Hinv3|intros j; cbn; lia|congruence|by eapply same_layout_trans|
        eapply keeps_bytes_trans; [exact Hkb2|by apply keeps_bytes_refl]|].
      intros Hres%resolution_Resolved. done.
  - by eapply Hend.
Qed.

(** A store to a shared page of a private area: the page is copied, or made
    writable when nobody else has it. *)
Lemma resolve_private_write_spec w l L T H a page lf access :
  vm_inv w l L T H → lookup_area l page = Some a → is_private a = true → L !! page = Some lf →
  page mod 4096 = 0 → contains (a_flags a) access = true →
  wp (resolve_private_write page (a_flags a)) w (fault_post w l L H a page access).
Proof.
  intros Hinv Ha Hpriv Hlf Hmod Hacc.
  destruct (page_facts _ _ _ _ _ _ _ Hinv Ha) as (Hin & _ & Hpage & Hval).
  pose proof (areas_ok_elem _ _ (lo_ok _ _ (vi_layout _ _ _ _ _ Hinv)) Hin) as Hok.
  destruct (private_facts _ Hok Hpriv) as [Hps Hk].
  destruct (vi_leaves _ _ _ _ _ Hinv _ _ Hlf) as [v Hv].
  assert (is_alloc lf = true) as Hal.
  { eapply private_alloc; [done..|]. pose proof (lv_view _ _ _ _ _ Hv) as Hvw.
    rewrite (view_area _ _ _ Ha) in Hvw. by simplify_eq. }
  destruct (alloc_index _ _ _ _ _ _ (vi_as _ _ _ _ _ Hinv) Hlf Hal) as (i & Hi & Hsz).
  unfold resolve_private_write. wp_step.
  eapply wp_mono; [by apply (vm_frame_if_shared w l L T H page lf i)|].
  intros r w1 Hr. destruct r as [[fr|]|e|]; [| | |done].
  - destruct Hr as (-> & _ & Ho1 & Hl1 & Hm1 & Hinv1 & Hsh).
    pose proof (vi_held _ _ _ _ _ Hinv i) as Hhi.
    eapply wp_mono; [eapply (copy_page_spec w1 l L T _ a page lf i access Hinv1); try done|].
    { rewrite Ho1, delta_eq. lia. }
    intros r w2 [[-> Hsat]|[Hl2 (res & L' & T' & H' & -> & Hinv2 & Hbal & Hkb & Hres)]]; [by left|].
    right. split; [by eapply same_layout_trans|]. exists res, L', T', H'. split_and!; try done.
    + intros j. specialize (Hbal j). cbn in Hbal. rewrite Ho1 in Hbal. lia.
    + eapply keeps_bytes_trans; [by apply keeps_bytes_refl|done].
  - destruct Hr as [-> H1]. wp_step.
    eapply wp_mono; [by apply (vm_protect_page w l L T H a page lf i)|].
    intros r w2 (Ho2 & Hl2 & Hg2 & Hr). destruct r as [[]|e|]; [| |done]; wp_step.
    + destruct Hr as (f' & Hf & Hinv2 & Hkb2). right. split; [done|]. eexists _, _, T, H.
      split; [done|]. split; [exact Hinv2|]. split; [by rewrite Ho2|]. split; [done|]. intros _.
      eapply resident_new; [apply lookup_insert_eq|done..].
    + subst w2. by eapply fault_post_same.
  - subst w1. wp_step. by eapply fault_post_same.
Qed.

(** Taking the write right away. *)
Lemma difference_contains f g k : contains (f |-| g) k = true → contains f k = true.
Proof.
  rewrite !contains_testbits. intros Hf i Hi. specialize (Hf i Hi).
  rewrite testbit_difference in Hf. by apply andb_true_iff in Hf as [? _].
Qed.
Lemma difference_WRITE f : contains (f |-| WRITE) WRITE = false.
Proof. flag_bits. apply andb_false_r. Qed.
Lemma difference_keeps f access :
  contains f access = true → contains access WRITE = false → contains (f |-| WRITE) access = true.
Proof.
  rewrite !contains_testbits. intros Hf Hw i Hi. rewrite testbit_difference, (Hf i Hi). cbn.
  change WRITE with (2 ^ 1) in *. rewrite testbit_pow2 by done.
  destruct (Z.eqb_spec 1 i) as [<-|]; [|done]. by rewrite contains_pow2, Hi in Hw.
Qed.

(** A handle given back at the end of a handler. *)
Lemma fault_release w l L H a page access p i (m : prog world XError FaultResolution) w1 :
  (∀ i, 0 ≤ held (w_objects w) i ∧ 0 ≤ others i ≤ H i - held (w_objects w) i) → metadata p = Some i →
  wp m w1 (fault_post w l L (λ j, H j + delta i j) a page access) →
  wp (result ← m; on_wm (frame_drop (MkFrame p));; mret result) w1 (fault_post w l L H a page access).
Proof.
  intros Hheld Hi Hm. wp_step. eapply wp_mono; [exact Hm|].
  intros r w2 [[-> Hsat]|[Hl2 (res & L' & T' & H' & -> & Hinv2 & Hbal & Hkb & Hres)]]; [by left|]. wp_step.
  eapply wp_mono; [apply (vm_release w2 l L' T' H' p i Hinv2 Hi)|].
  { specialize (Hbal i). cbn in Hbal. rewrite delta_eq in Hbal. specialize (Hheld i). lia. }
  intros r w3 (-> & Hs3 & Ho3 & Hm3 & Hinv3). wp_step. right. split.
  { unfold same_layout in *. by rewrite Hs3. }
  eexists res, L', T', _. split; [done|]. split; [exact Hinv3|]. split_and!; [| |done].
  - intros j. specialize (Hbal j). cbn in *. rewrite Ho3. lia.
  - eapply keeps_bytes_trans; [exact Hkb|by apply keeps_bytes_refl].
Qed.

(** Installing the frame in hand resolves the fault. *)
Lemma install_fault w w1 l L H T1 H1 a page access p i f guard :
  (∀ i, 0 ≤ held (w_objects w) i ∧ 0 ≤ others i ≤ H i - held (w_objects w) i) → vm_inv w1 l L T1 H1 → same_layout w w1 →
  keeps_bytes L (w_machine w) L (w_machine w1) →
  (∀ j, H1 j - held (w_objects w1) j = H j - held (w_objects w) j + delta i j) →
  lookup_area l page = Some a → a_page_size a = Size4K → area_kind a = Alloc →
  metadata p = Some i →
  (∀ k, k ∈ right_bits → contains f k = true → contains (a_flags a) k = true) →
  (is_private a = true → contains f WRITE = true → m_refs (w_machine w1) i = 1) →
  (contains f access = true ∨ contains f (access |-| WRITE) = true ∧
    requires_write_guard (a_backing a) = true ∧ contains access WRITE = true) →
  wp (install_page page (MkFrame p) f guard) w1 (fault_post w l L H a page access).
Proof.
  intros Hheld Hinv1 Hl1 Hkb1 Hbal Ha Hps Hk Hi Hrights Hcow Hacc.
  eapply wp_mono; [apply (install_page_spec w1 l L T1 H1 a page p i f guard); try done|].
  { specialize (Hbal i). rewrite delta_eq in Hbal. specialize (Hheld i). lia. }
  intros r w2 (res & -> & Ho2 & Hl2 & L' & T' & Hinv2 & Hkb2 & Hres).
  right. split; [by eapply same_layout_trans|]. eexists res, L', T', _. split; [done|].
  split; [exact Hinv2|]. split_and!.
  - intros j. specialize (Hbal j). cbn. rewrite Ho2. lia.
  - by eapply keeps_bytes_trans.
  - intros Hr. destruct (Hres Hr) as (f' & Hf & Hlf). destruct Hacc as [Hacc|[Hacc Hex]].
    + by eapply resident_new.
    + eexists. split; [exact Hlf|]. split; [by intros _ []|]. intros [Hu Hi']. by eapply pte_flags_grants.
Qed.

Lemma from_page_error_not error : from_page_error error ≠ Resolved.
Proof. unfold from_page_error. repeat case_match; done. Qed.

Lemma object_facts w l L T H a object offset page :
  vm_inv w l L T H → lookup_area l page = Some a → source (a_backing a) = SrcObject object offset →
  object_live (w_objects w) object ∧ a_page_size a = Size4K ∧ area_kind a = Alloc ∧
  usize_checked_add offset (page - vr_start (a_range a)) = Some (offset + (page - vr_start (a_range a))).
Proof.
  intros Hinv Ha Hsrc.
  destruct (page_facts _ _ _ _ _ _ _ Hinv Ha) as (Hin & Hp & _ & _).
  pose proof (areas_ok_elem _ _ (lo_ok _ _ (vi_layout _ _ _ _ _ Hinv)) Hin) as Hok.
  pose proof (ao_source _ Hok) as Hs. rewrite Hsrc in Hs. destruct Hs as (Hps & _ & Ho & Hmax).
  split; [by eapply (vi_live _ _ _ _ _ Hinv)|]. split; [done|]. unfold area_kind. rewrite Hsrc.
  split; [done|]. unfold inside in Hp. unfold usize_checked_add. rewrite bool_decide_eq_true_2 || case_match; try done; lia.
Qed.

(** A store to a page of a private mapping copies the page of the source. *)
Lemma private_copy_fault w w1 l L H T1 H1 a page access p i :
  (∀ i, 0 ≤ held (w_objects w) i ∧ 0 ≤ others i ≤ H i - held (w_objects w) i) → vm_inv w1 l L T1 H1 → same_layout w w1 →
  keeps_bytes L (w_machine w) L (w_machine w1) →
  (∀ j, H1 j - held (w_objects w1) j = H j - held (w_objects w) j + delta i j) →
  lookup_area l page = Some a → a_page_size a = Size4K → area_kind a = Alloc →
  metadata p = Some i → contains (a_flags a) access = true →
  wp (copy ← on_wm (frame_deep_copy (MkFrame p));
      match copy with
      | None => on_wm (frame_drop (MkFrame p));; mret FaultNoMemory
      | Some copy =>
          result ← install_page page copy (a_flags a) None;
          on_wm (frame_drop (MkFrame p));; mret result
      end) w1 (fault_post w l L H a page access).
Proof.
  intros Hheld Hinv1 Hl1 Hkb1 Hbal Ha Hps Hk Hi Hacc.
  assert (1 ≤ H1 i) as HH1.
  { specialize (Hbal i). rewrite delta_eq in Hbal. specialize (Hheld i).
    pose proof (vi_held _ _ _ _ _ Hinv1 i). lia. }
  wp_step. eapply wp_mono; [by apply (vm_copy w1 l L T1 H1 p i)|].
  intros r w2 (Hs2 & Ho2 & Hkb2 & Hr).
  assert (same_layout w w2) as Hl2 by (unfold same_layout in *; by rewrite Hs2).
  assert (∀ j, 0 ≤ held (w_objects w) j ∧ 0 ≤ others j ≤ H j + delta i j - held (w_objects w) j) as Hheld'.
  { intros j. specialize (Hheld j). unfold delta. case_bool_decide; lia. }
  destruct r as [[[q]|]|e|]; [| |done..].
  - destruct Hr as (k & Hk' & Hki & Hinv2 & Hk1 & _). eapply fault_release; [done..|].
    eapply install_fault; [done|exact Hinv2|done|by eapply keeps_bytes_trans|..]; try done; [|auto].
    intros j. specialize (Hbal j). cbn. rewrite Ho2. lia.
  - change (wp (result ← mret FaultNoMemory; on_wm (frame_drop (MkFrame p));; mret result) w2
      (fault_post w l L H a page access)).
    eapply fault_release; [done..|]. wp_step.
    eapply fault_post_not; [done|exact Hr| |by eapply keeps_bytes_trans|done].
    intros j. specialize (Hbal j). cbn. rewrite Ho2. lia.
Qed.

(** The first fault on a page of a page source. *)
Lemma resolve_object_fault_spec w l L T H a object offset page access :
  vm_inv w l L T H → lookup_area l page = Some a →
  source (a_backing a) = SrcObject object offset → contains (a_flags a) access = true →
  wp (resolve_object_fault page a object offset (private (a_backing a)) access) w
    (fault_post w l L H a page access).
Proof.
  intros Hinv Ha Hsrc Hacc.
  destruct (object_facts _ _ _ _ _ _ _ _ _ Hinv Ha Hsrc) as (Hlive & Hps & Hk & Hoff).
  unfold resolve_object_fault. rewrite Hoff. do 2 wp_step.
  pose proof (object_byte_len_total object _ Hlive) as Htot.
  destruct (object_byte_len object (w_objects w)) as [len|error|]; [| |done].
  2: { wp_step. eapply fault_post_same; [done|apply from_page_error_not]. }
  destruct (len <=? _); [wp_step; by eapply fault_post_same|].
  wp_step. eapply wp_mono; [by apply vm_object_page|].
  intros r w1 (Hs1 & Hkb1 & H1 & Hinv1 & Hr).
  assert (same_layout w w1) as Hl1 by (unfold same_layout; by rewrite Hs1).
  destruct r as [[[p] guard]|error|]; [| |by left]; cbn [vp_frame vp_guard] in *.
  2: { wp_step. by eapply fault_post_not; [..|apply from_page_error_not]. }
  destruct Hr as (i & Hi & _ & Hbal). cbn in Hi.
  assert (∀ k, k ∈ right_bits → contains (a_flags a |-| WRITE) k = true →
    contains (a_flags a) k = true) as Hsub by (intros k _; apply difference_contains).
  destruct (private (a_backing a)) eqn:Hpriv.
  - destruct (contains access WRITE) eqn:Hw; cbn [negb].
    + by eapply private_copy_fault; try apply (vi_held _ _ _ _ _ Hinv).
    + eapply install_fault; try done; [apply Hinv|by rewrite difference_WRITE|]. left. by apply difference_keeps.
  - eapply install_fault; try done; [apply Hinv| |unfold is_private; by rewrite Hpriv|]; case_match eqn:Hg; try done; [|auto].
    destruct (contains access WRITE) eqn:Hw; [right|left; by apply difference_keeps].
    apply andb_true_iff in Hg as [Hg _]. unfold requires_write_guard. rewrite Hpriv, Hsrc, Hg. split; [by apply difference_mono|done].
Qed.

(** A store to a resident read-only page of a shared mapping. *)
Lemma upgrade_shared_write_spec w l L T H a object offset page lf access :
  vm_inv w l L T H → lookup_area l page = Some a → L !! page = Some lf → page mod 4096 = 0 →
  source (a_backing a) = SrcObject object offset → is_private a = false →
  contains (a_flags a) access = true →
  wp (upgrade_shared_write page a object (offset + (page - vr_start (a_range a)))) w
    (fault_post w l L H a page access).
Proof.
  intros Hinv Ha Hlf Hmod Hsrc Hpriv Hacc.
  destruct (object_facts _ _ _ _ _ _ _ _ _ Hinv Ha Hsrc) as (Hlive & Hps & Hk & _).
  destruct (page_facts _ _ _ _ _ _ _ Hinv Ha) as (_ & _ & Hpage & _).
  assert (is_alloc lf = true) as Hal.
  { destruct (vi_leaves _ _ _ _ _ Hinv _ _ Hlf) as [v Hv].
    pose proof (lv_view _ _ _ _ _ Hv) as Hvw. rewrite (view_area _ _ _ Ha) in Hvw. simplify_eq.
    apply kind_alloc. by rewrite (lv_kind _ _ _ _ _ Hv), view_kind_area, Hk. }
  destruct (alloc_index _ _ _ _ _ _ (vi_as _ _ _ _ _ Hinv) Hlf Hal) as (j & Hj & Hsz).
  unfold upgrade_shared_write. wp_step. eapply wp_mono; [by apply vm_object_page|].
  intros r w1 (Hs1 & Hkb1 & H1 & Hinv1 & Hr).
  assert (same_layout w w1) as Hl1 by (unfold same_layout; by rewrite Hs1).
  destruct r as [[[p] guard]|error|]; [| |by left]; cbn [vp_frame vp_guard] in *.
  2: { wp_step. by eapply fault_post_not; [..|apply from_page_error_not]. }
  destruct Hr as (i & Hi & _ & Hbal). cbn in Hi.
  assert (∀ k, H1 k - held (w_objects w1) k = H k + delta i k - held (w_objects w) k) as Hbal1.
  { intros k. rewrite Hbal. lia. }
  eapply fault_release; [apply Hinv|done|].
  case_match; [wp_step; by eapply fault_post_not|].
  eapply wp_mono; [apply (commit_page_spec w1 page guard _ _ (λ res w2,
    fault_post w l L (λ j, H j + delta i j) a page access (Ok res) w2))|by intros r w2 (res & -> & Hp)].
  intros m1 (Hm1 & Hm2 & Hm3).
  pose proof (vm_inv_machine w1 l L T H1 m1 Hinv1 Hm1 Hm2 Hm3) as Hinv1'.
  assert (keeps_bytes L (w_machine w) L m1) as Hkb1'.
  { eapply keeps_bytes_trans; [exact Hkb1|by apply keeps_bytes_refl]. }
  split; [unfold on_wm; wp_steps; split; [done|]; by eapply fault_post_not|].
  eapply wp_mono; [apply (vm_protect_page _ l L T H1 a page lf j (a_flags a) Hinv1'); try done; by rewrite Hpriv|].
  intros r w2 (Ho2 & Hl2 & _ & Hr). destruct r as [[]|e|]; [| |done].
  - destruct Hr as (f' & Hf & Hinv2 & Hkb2).
    assert (∀ g, fault_post w l L (λ j, H j + delta i j) a page access (Ok Resolved) (set_guards g w2)) as Hpost.
    { intros g. right. split; [by eapply same_layout_trans; [exact Hl1|]|]. eexists _, _, T, H1. split; [done|].
      split; [by apply vm_inv_guards|]. split; [by cbn in Ho2; cbn; rewrite Ho2|].
      split; [by eapply keeps_bytes_trans|]. intros _. eapply resident_new; [apply lookup_insert_eq|done..]. }
    split; [|done]. specialize (Hpost (vs_guards (w_space w2))). by destruct w2 as [[]].
  - subst w2. eapply fault_post_not; try done. by destruct e.
Qed.

(** The first touch of a page of anonymous memory: a page of zeros. *)
Definition zero_page (w : world) l (page : Z) : Prop :=
  ∃ lf i L T H, vm_inv w l L T H ∧ L !! page = Some lf ∧ is_alloc lf = true ∧
    metadata (lf_paddr lf) = Some i ∧ ∀ x, frame_page i x → m_mem (w_machine w) x = 0.
Lemma zero_fault_spec w l L T H a page access :
  vm_inv w l L T H → lookup_area l page = Some a → source (a_backing a) = SrcZero →
  contains (a_flags a) access = true →
  wp (resolve_fault (a_backing a) a page access) w (λ r w',
    fault_post w l L H a page access r w' ∧ (r = Ok Resolved → zero_page w' l page)).
Proof.
  intros Hinv Ha Hsrc Hacc. unfold resolve_fault. rewrite Hsrc.
  destruct (page_facts _ _ _ _ _ _ _ Hinv Ha) as (Hin & _ & Hpage & _).
  pose proof (ao_source _ (areas_ok_elem _ _ (lo_ok _ _ (vi_layout _ _ _ _ _ Hinv)) Hin)) as Hs.
  rewrite Hsrc in Hs. destruct Hs as [Hpriv Hps].
  assert (area_kind a = Alloc) as Hk by (unfold area_kind; by rewrite Hsrc).
  wp_step. eapply wp_mono; [by apply vm_allocate|].
  intros r w1 (Hs1 & Ho1 & Hkb1 & Hr).
  assert (same_layout w w1) as Hl1 by (unfold same_layout; by rewrite Hs1).
  destruct r as [[[p]|]|e|]; [| |done..].
  2: { wp_step. split; [|done]. eapply fault_post_not; try done. by rewrite Ho1. }
  destruct Hr as (i & Hi & Hinv1 & Hi1 & Hzero). cbn in Hi. wp_step.
  pose proof (vi_held _ _ _ _ _ Hinv i) as Hhi.
  eapply wp_mono; [apply (vm_map_frame w1 l L T _ a page p i (a_flags a) Hinv1); try done|].
  { rewrite Ho1, delta_eq. lia. }
  intros r w2 (Ho2 & Hl2 & _ & Hm2 & T' & Hr). destruct r as [[]|e|]; [| |done]; wp_step.
  - destruct Hr as (f' & Hf & Hnone & Hinv2). pose proof (pte_flags_leaf _ _ _ Hf) as [Hleaf Hal].
    split.
    2: { intros _. eexists _, i, _, T', _. split; [exact Hinv2|]. split; [apply lookup_insert_eq|].
         split; [unfold is_alloc; cbn; by rewrite readback_alloc, Hal|]. split; [done|].
         intros x Hx. rewrite Hm2. by apply Hzero. }
    right. split; [by eapply same_layout_trans|].
    eexists _, _, T', _. split; [done|]. split; [exact Hinv2|]. split_and!.
    + intros j. cbn. rewrite Ho2, Ho1. lia.
    + eapply keeps_bytes_trans; [exact Hkb1|].
      by eapply (keeps_bytes_insert (_, _) _ _ _ (_, _)); [apply Hinv1|apply Hinv2|..].
    + intros _. eapply resident_new; [apply lookup_insert_eq|done..].
  - assert (resolution (Err e) ≠ Resolved) as Hne by by intros ?%resolution_Resolved.
    split; [|by intros [= ?]]. eapply fault_post_not; [by eapply same_layout_trans|exact Hr|..|done].
    + intros j. cbn. rewrite Ho2, Ho1. lia.
    + eapply keeps_bytes_trans; [exact Hkb1|by apply keeps_bytes_refl].
Qed.

(** [Backing::resolve_fault]. *)
Lemma resolve_fault_spec w l L T H a page access :
  vm_inv w l L T H → lookup_area l page = Some a → contains (a_flags a) access = true →
  wp (resolve_fault (a_backing a) a page access) w (fault_post w l L H a page access).
Proof.
  intros Hinv Ha Hacc. destruct (source (a_backing a)) as [|frames|object offset] eqn:Hsrc.
  - eapply wp_mono; [by eapply zero_fault_spec|]. by intros r w' [? _].
  - unfold resolve_fault. rewrite Hsrc. wp_step. by eapply fault_post_same.
  - unfold resolve_fault. rewrite Hsrc. by eapply resolve_object_fault_spec.
Qed.

(** The page of an address in an area. *)
Lemma page_of_spec w l L T H a address :
  vm_inv w l L T H → lookup_area l address = Some a →
  let page := align_down address (page_bytes (a_page_size a)) in
  lookup_area l page = Some a ∧ page mod page_bytes (a_page_size a) = 0 ∧
  mapping_flags (vs_aspace (w_space w)) page = lf_flags <$> L !! page ∧
  page ≤ address < page + page_bytes (a_page_size a).
Proof.
  intros Hinv Ha. pose proof (vi_layout _ _ _ _ _ Hinv) as Hl. pose proof (lo_ok _ _ Hl) as Hok.
  pose proof (page_facts _ _ _ _ _ _ _ Hinv Ha) as (Hin & Hi & H0 & _).
  pose proof (areas_ok_elem _ _ Hok Hin) as Haok. pose proof (page_bytes_pos (a_page_size a)) as Hpos.
  cbn zeta. rewrite align_down_spec by done. set (n := page_bytes (a_page_size a)) in *.
  pose proof (align_down_aligned address n Hpos) as Hmod.
  pose proof (Z.mod_pos_bound address n Hpos). set (page := address - address mod n) in *.
  assert (vr_start (a_range a) ≤ page) as Hge.
  { destruct (decide (page < vr_start (a_range a))) as [Hlt|]; [|lia].
    pose proof (aligned_lt_step page _ n Hpos Hmod (ao_start a Haok) Hlt). unfold inside in Hi. lia. }
  assert (inside a page) as Hip by (unfold inside in *; lia).
  assert (lookup_area l page = Some a) as Hap by by apply lookup_area_Some.
  split; [done|]. split; [done|]. split; [|lia].
  pose proof (page_facts _ _ _ _ _ _ _ Hinv Hap) as (_ & _ & _ & Hv).
  pose proof (as_query_spec _ _ _ _ page (vi_as _ _ _ _ _ Hinv) Hv) as Hq. cbn [fst] in Hq.
  unfold mapping_flags. rewrite Hq.
  pose proof (as_inv_wf _ _ _ _ (vi_as _ _ _ _ _ Hinv)) as Hwf.
  destruct (leaf_find L page) as [[b lf]|] eqn:Hf; cbn.
  - apply (leaf_find_Some Hwf) in Hf as [Hb Hr].
    destruct (leaf_in_area _ _ _ _ _ _ _ Hinv Hb) as (a' & Hin' & Hi' & Hend & Hsz & _).
    assert (a' = a) as -> by (apply (area_unique l _ _ page Hok); try done; unfold inside in *; lia).
    destruct (lw_base _ _ _ Hwf _ _ Hb) as (Hal & _). rewrite Hsz in Hal, Hr. fold n in Hal, Hr.
    destruct (decide (b = page)) as [->|]; [by rewrite Hb|].
    pose proof (aligned_lt_step b page n Hpos Hal Hmod). lia.
  - destruct (L !! page) as [lf|] eqn:Hlf; [|done]. exfalso.
    apply (leaf_find_None Hwf) with (b := page) (lf := lf) in Hf. apply Hf. split; [done|].
    pose proof (page_bytes_pos (lf_size lf)). lia.
Qed.

(** [handle_page_fault]: outside the areas, or with an access the area does
    not grant, nothing happens; otherwise the fault is resolved or refused. *)
Lemma handle_page_fault_spec w l L T H address access :
  vm_inv w l L T H →
  wp (handle_page_fault address access) w (λ r w',
    match lookup_area l address with
    | Some a =>
        if contains (a_flags a) access
        then fault_post w l L H a (align_down address (page_bytes (a_page_size a))) access r w'
        else r = Ok Segv ∧ w' = w
    | None => r = Ok Segv ∧ w' = w
    end).
Proof.
  intros Hinv. unfold handle_page_fault. do 2 wp_step.
  rewrite (area_at_spec _ l) by apply Hinv.
  destruct (lookup_area l address) as [a|] eqn:Ha; [|by wp_step].
  destruct (contains (a_flags a) access) eqn:Hacc; cbn [negb]; [|by wp_step].
  destruct (page_of_spec _ _ _ _ _ _ _ Hinv Ha) as (Hap & Hmod & Hq & _). rewrite Hq.
  set (page := align_down address (page_bytes (a_page_size a))) in *.
  destruct (L !! page) as [lf|] eqn:Hlf; cbn [fmap option_fmap option_map]; [|by eapply resolve_fault_spec].
  destruct (contains (lf_flags lf) access) eqn:Hc.
  { wp_step. right. split; [done|]. exists Resolved, L, T, H. split_and!; try done; [by apply keeps_bytes_refl|].
    intros _. exists lf. split; [done|]. split; [done|]. intros _. eapply contains_trans; [exact Hc|apply without_WRITE]. }
  destruct (contains access WRITE); cbn [negb]; [|wp_step; by eapply fault_post_same].
  apply aligned_4k in Hmod.
  destruct (is_private a) eqn:Hpriv; [by eapply resolve_private_write_spec|].
  unfold object_at. destruct (source (a_backing a)) as [|frames|object offset] eqn:Hsrc;
    [wp_step; by eapply fault_post_same..|].
  destruct (object_facts _ _ _ _ _ _ _ _ _ Hinv Hap Hsrc) as (_ & _ & _ & Hoff). rewrite Hoff.
  by eapply upgrade_shared_write_spec.
Qed.
End fault.
