(* ===== verification/VmUnmap.v ===== *)
(** * Unmapping (xvma/src/space.rs: [unmap], [unmap_user_areas] and drop)

    Once the range is validated unmapping cannot fail: the leaves of the
    range and the areas over it disappear together, every other page keeps
    its leaf and its view, and the frames go back to their other owners. *)
From S2P Require Import Prelude Errno MemAddr Frame PageTable AddressSpace AspaceInv AspaceTxn.
From S2P Require Import AspaceStatic BTree VmArea VmSpace VmOps VmLayout VmInv VmFault.
From stdpp Require Import prelude gmap list.
Open Scope Z_scope.

Section unmap.
Context {CFG : Config} {PA : PageAllocator} {BF : BitFlags} {MA : MemoryAddr} {PT : PageTable}.
Context {PF : PhysFits} {FT : Foreign} {VO : VmObject} {VL : VmObjectLaws} {BY : Bystanders}.
Implicit Types (a : VmArea) (l : list VmArea) (L : gmap Z leaf) (T : gset Z) (H : Z → Z).

(** ** One area *)

Lemma own_count_subseteq L L' i : L' ⊆ L → own_count L' i ≤ own_count L i.
Proof.
  revert L'. induction L as [|b lf L Hb IH] using map_ind; intros L' Hsub.
  - assert (L' = ∅) as ->; [|done]. apply map_empty. intros c.
    destruct (L' !! c) eqn:Hc; [|done]. by pose proof (lookup_weaken _ _ _ _ Hc Hsub).
  - destruct (L' !! b) as [lf'|] eqn:Hb'.
    + pose proof (lookup_weaken _ _ _ _ Hb' Hsub) as Heq. rewrite lookup_insert_eq in Heq. simplify_eq.
      rewrite <- (insert_delete_id L' b lf') by done.
      rewrite !own_count_insert by (done || apply lookup_delete_eq).
      assert (delete b L' ⊆ L) as Hd; [|specialize (IH _ Hd); lia].
      apply map_subseteq_spec. intros c lf Hc. apply lookup_delete_Some in Hc as [Hne Hc].
      pose proof (lookup_weaken _ _ _ _ Hc Hsub) as Hl. by rewrite lookup_insert_ne in Hl.
    + assert (L' ⊆ L) as Hd.
      { apply map_subseteq_spec. intros c lf' Hc. pose proof (lookup_weaken _ _ _ _ Hc Hsub) as Hl.
        rewrite lookup_insert_ne in Hl; [done|]. intros ->. congruence. }
      specialize (IH _ Hd). rewrite own_count_insert by done. destruct (owns i lf); lia.
Qed.
(** A leaf whose frame has no other owner keeps that property when other
    leaves go. *)
Lemma leaf_ok_fewer w l L T H L' s' T' b lf :
  vm_inv w l L T H → as_inv s' L' T' H → L' ⊆ L → L' !! b = Some lf →
  ∃ v, leaf_ok l (m_refs s'.2) b lf v.
Proof.
  intros Hinv Has' Hsub Hb. pose proof (lookup_weaken _ _ _ _ Hb Hsub) as Hb0.
  eapply (leaf_ok_keep w); [done..|]. intros j Hal Hj _ HH Ho.
  rewrite (ai_count _ _ _ _ Has'), HH. pose proof (own_count_subseteq _ _ j Hsub).
  assert (1 ≤ own_count L' j); [|lia].
  eapply own_count_pos; [exact Hb|]. unfold owns. by rewrite Hal, bool_decide_eq_true_2.
Qed.

Lemma outside_subseteq lo hi L : outside lo hi L ⊆ L.
Proof. apply map_filter_subseteq. Qed.

Lemma area_range_ok w l L T H a lo hi :
  vm_inv w l L T H → a ∈ l → vr_start (a_range a) ≤ lo → lo < hi → hi ≤ vr_end (a_range a) →
  lo mod page_bytes (a_page_size a) = 0 → hi mod page_bytes (a_page_size a) = 0 →
  range_ok (vs_aspace (w_space w)) lo (hi - lo) (a_page_size a).
Proof.
  intros Hinv Ha Hlo Hlt Hhi Hml Hmh. pose proof (vi_layout _ _ _ _ _ Hinv) as Hl.
  pose proof (ao_usize a (areas_ok_elem _ _ (lo_ok _ _ Hl) Ha)). destruct (lo_inside _ _ Hl a Ha).
  unfold range_ok. rewrite (vi_range _ _ _ _ _ Hinv). split_and!; try done; try lia.
  by apply mod_sub_iff; [apply page_bytes_pos|..].
Qed.

(** What unmapping leaves of everything but the leaves. *)
Definition only_leaves (w w' : world) : Prop :=
  w_objects w' = w_objects w ∧ same_layout w w' ∧
  vs_guards (w_space w') = vs_guards (w_space w) ∧ m_mem (w_machine w') = m_mem (w_machine w).
Lemma only_leaves_refl w : only_leaves w w.
Proof. done. Qed.
Lemma only_leaves_trans w w' w'' : only_leaves w w' → only_leaves w' w'' → only_leaves w w''.
Proof.
  intros (H1 & H2 & H3 & H4) (H1' & H2' & H3' & H4').
  split_and!; [congruence|by eapply same_layout_trans|congruence|congruence].
Qed.

Lemma area_unmap_spec w l L T H a lo hi :
  vm_inv w l L T H → a ∈ l → vr_start (a_range a) ≤ lo → lo < hi → hi ≤ vr_end (a_range a) →
  lo mod page_bytes (a_page_size a) = 0 → hi mod page_bytes (a_page_size a) = 0 →
  wp (on_aspace (area_unmap a (VRange lo hi))) w (λ r w',
    r = Ok () ∧ only_leaves w w' ∧ vm_inv w' l (outside lo hi L) T H).
Proof.
  intros Hinv Ha Hlo Hlt Hhi Hml Hmh.
  pose proof (area_range_fits _ _ _ _ _ a lo hi Hinv Ha Hlo Hlt Hhi Hml Hmh) as Hfits.
  pose proof (area_range_ok _ _ _ _ _ a lo hi Hinv Ha Hlo Hlt Hhi Hml Hmh) as Hrok.
  pose proof (lo_ok _ _ (vi_layout _ _ _ _ _ Hinv)) as Hok. pose proof (areas_ok_elem _ _ Hok Ha) as Haok.
  pose proof (ao_usize a Haok).
  assert (area_unmap a (VRange lo hi) = unmap_range lo (hi - lo) (area_kind a) (a_page_size a)) as Heq.
  { unfold area_unmap, backing_unmap, area_kind, unmap_static_range, unmap_alloc_range.
    rewrite vr_size_spec by (cbn; lia). cbn [vr_start vr_end].
    pose proof (ao_source a Haok) as Hs. destruct (source (a_backing a)); [|done|].
    - destruct Hs as [_ ->]. done.
    - destruct Hs as [-> _]. done. }
  rewrite Heq. unfold on_aspace. wp_step.
  eapply wp_mono; [apply (unmap_range_spec _ L T H lo (hi - lo)); [apply Hinv|lia..]|].
  intros r s' (Hr & Hm & _ & Hpost). replace (lo + (hi - lo)) with hi in Hpost by lia.
  destruct r as [[]|e|]; [|destruct Hpost as [_ [[? _]|[_ ?]]]; done|done].
  destruct Hpost as (_ & _ & Has' & _). split; [done|]. split; [done|].
  destruct s' as [as' m']. cbn [fst snd] in *.
  eapply (vm_inv_update w l L T H); try done; [apply Hinv|].
  intros b lf Hb. eapply (leaf_ok_fewer w l L T H _ (as', m')); try done. apply outside_subseteq.
Qed.

(** ** The areas of a range *)

Definition overlap a (r : vrange) : vrange :=
  VRange (Z.max (vr_start (a_range a)) (vr_start r)) (Z.min (vr_end (a_range a)) (vr_end r)).
Lemma overlap_with_spec a r :
  area_ok a → vr_nonempty r → meets a r → overlap_with a r = Ok (overlap a r).
Proof.
  intros Ha Hr [H1 H2]. pose proof (ao_nonempty a Ha). unfold overlap_with, vr_nonempty in *.
  by rewrite vr_new_spec, (proj2 (Z.leb_le _ _)) by lia.
Qed.

(** The leaves left when the part of [r] under the areas [k] is unmapped. *)
Definition shed (k : list VmArea) (r : vrange) L : gmap Z leaf :=
  filter (λ kv, ¬ ((vr_start r ≤ kv.1 < vr_end r) ∧ Exists (λ a, inside a kv.1) k)) L.
Lemma shed_nil r L : shed [] r L = L.
Proof. apply map_filter_id. intros b lf _ [_ Hex]. by apply Exists_nil in Hex. Qed.
Lemma shed_snoc k a r L :
  outside (vr_start (overlap a r)) (vr_end (overlap a r)) (shed k r L) = shed (k ++ [a]) r L.
Proof.
  unfold outside, shed. rewrite map_filter_filter. apply map_filter_ext. intros b lf _. cbn.
  rewrite Exists_app, Exists_cons, Exists_nil. unfold inside.
  destruct (decide (Exists (λ a, inside a b) k)); unfold inside in *; intuition lia.
Qed.
Lemma shed_all w l L T H r k :
  vm_inv w l L T H → (∀ a, a ∈ l → meets a r → a ∈ k) →
  shed k r L = outside (vr_start r) (vr_end r) L.
Proof.
  intros Hinv Hk. apply map_filter_ext. intros b lf Hb. cbn.
  destruct (leaf_in_area _ _ _ _ _ _ _ Hinv Hb) as (a & Ha & Hi & _).
  assert (vr_start r ≤ b < vr_end r → Exists (λ a, inside a b) k); [|intuition].
  intros Hr. apply Exists_exists. exists a. split; [|done]. apply Hk; [done|].
  unfold meets, inside in *. lia.
Qed.

Lemma unmap_areas_spec w l L T H r k (body : VmArea → prog world XError ()) :
  vm_inv w l L T H → vr_nonempty r → (∀ a, a ∈ k → a ∈ l ∧ meets a r ∧ splits a r) →
  (∀ a w Q, a ∈ k → wp (on_aspace (area_unmap a (overlap a r))) w Q → wp (body a) w Q) →
  wp (for_each k body) w (λ res w', res = Ok () ∧ only_leaves w w' ∧ vm_inv w' l (shed k r L) T H).
Proof.
  intros Hinv Hr Hk Hbody. unfold vr_nonempty in Hr.
  apply (wp_for_each (λ pre w', only_leaves w w' ∧ vm_inv w' l (shed pre r L) T H)).
  - by rewrite shed_nil.
  - intros pre a suf w1 -> [Ho1 Hinv1].
    destruct (Hk a) as (Ha & Hm & Hsp); [apply elem_of_app; right; left|].
    pose proof (lo_ok _ _ (vi_layout _ _ _ _ _ Hinv)) as Hok. pose proof (areas_ok_elem _ _ Hok Ha) as Haok.
    destruct (middle_aligned r a Haok Hm Hsp) as [Hml Hmh].
    pose proof (ao_nonempty a Haok). pose proof Hm as [Hm1 Hm2].
    apply Hbody; [apply elem_of_app; right; left|].
    eapply wp_mono; [apply (area_unmap_spec w1 l (shed pre r L) T H a); (done || cbn; lia)|].
    intros res w2 (-> & Ho2 & Hinv2). split; [by eapply only_leaves_trans|].
    rewrite <- shed_snoc. exact Hinv2.
  - intros w'. done.
Qed.

(** ** [unmap] *)

Lemma leaf_ok_view l l' refs b lf v :
  view l' b = view l b → leaf_ok l refs b lf v → leaf_ok l' refs b lf v.
Proof. intros Hv [H1 H2 H3 H4 H5 H6]. split; try done. congruence. Qed.

(** Another layout over the same leaves. *)
Lemma vm_inv_relayout w l L T H l' :
  vm_inv w l L T H → areas_ok l' → within l l' →
  (∀ b lf, L !! b = Some lf → ∃ v, leaf_ok l' (m_refs (w_machine w)) b lf v) →
  vm_inv (set_areas (keyed l') w) l' L T H.
Proof.
  intros [Hlay Hr Has Hh Hlive _] Hok [Hin Hus] Hleaves. split; try done.
  - destruct Hlay as [_ _ Hi Hu]. split; try done. by apply Hin.
  - intros a o off Ha Hs. destruct (Hus o) as (a' & off' & Ha' & Hs'); [by exists a, off|].
    by eapply Hlive.
Qed.

(** The validated range, and what is checked about it. *)
Definition unmappable (w : world) l (start size : Z) : Prop :=
  range_valid (w_space w) start size Size4K ∧
  ∀ a, a ∈ l → meets a (VRange start (start + size)) → splits a (VRange start (start + size)).

Lemma validated w l L T H start size (B : Type) (k : vrange → prog world XError B) Q :
  vm_inv w l L T H → 0 ≤ start → 0 ≤ size →
  (range_valid (w_space w) start size Size4K → wp (k (VRange start (start + size))) w Q) →
  (¬ range_valid (w_space w) start size Size4K → Q (Err InvalidInput) w) →
  wp (mbind k (lift (validate_existing_range (w_space w) start size))) w Q.
Proof.
  intros Hinv H0 H1 Hyes Hno. do 2 wp_step. unfold validate_existing_range.
  rewrite vm_validate_range_spec by done. case_decide; auto.
Qed.
Lemma split_check w l L T H start size (B : Type) (k : () → prog world XError B) Q :
  vm_inv w l L T H → 0 < size →
  (let r := VRange start (start + size) in
   ((∀ a, a ∈ l → meets a r → splits a r) → wp (k ()) w Q) ∧
   (¬ (∀ a, a ∈ l → meets a r → splits a r) → Q (Err InvalidInput) w)) →
  wp (mbind k (lift (validate_split_offsets (w_space w) (VRange start (start + size))))) w Q.
Proof.
  intros Hinv Hsz. cbn zeta. set (r := VRange start (start + size)). intros [Hyes Hno].
  assert (vr_nonempty r) as Hr by (unfold vr_nonempty; cbn; lia).
  pose proof (vi_layout _ _ _ _ _ Hinv) as Hl. do 2 wp_step. unfold validate_split_offsets.
  rewrite validate_splits_spec; [|done|].
  2: { intros a [Ha Hm]%(overlapping_elem _ l); [|done..]. split; [|done].
       eapply areas_ok_elem; [apply Hl|done]. }
  case_decide as Hs.
  - apply Hyes. intros a Ha Hm. rewrite Forall_forall in Hs. apply Hs. by apply (overlapping_elem _ l).
  - apply Hno. intros Hall. apply Hs, Forall_forall. intros a [Ha Hm]%(overlapping_elem _ l); [|done..]. auto.
Qed.

Definition kept_guards (r : vrange) (w : world) : list (Z * vm_guard) :=
  filter (λ g, vr_contains r g.1 = false) (vs_guards (w_space w)).

(** [unmap] removes the range from the layout and from the page tables, or
    refuses before it has changed anything. *)
Lemma vm_unmap_spec w l L T H start size :
  vm_inv w l L T H → 0 ≤ start → 0 ≤ size →
  let r := VRange start (start + size) in
  wp (vm_unmap start size) w (λ res w',
    match res with
    | Ok _ => unmappable w l start size ∧ w_objects w' = w_objects w ∧
        m_mem (w_machine w') = m_mem (w_machine w) ∧
        vs_guards (w_space w') = kept_guards r w ∧ vs_range (w_space w') = vs_range (w_space w) ∧
        ∃ l', vm_inv w' l' (outside start (start + size) L) T H ∧
          ∀ x, view l' x = if decide (start ≤ x < start + size) then None else view l x
    | Err e => ¬ unmappable w l start size ∧ e = InvalidInput ∧ w' = w
    | Panic => False
    end).
Proof.
  intros Hinv H0 H1. cbn zeta. set (r := VRange start (start + size)).
  unfold vm_unmap. do 2 wp_step. eapply validated; [done..| |].
  2: { intros Hnv. split; [by intros [? _]|done]. }
  intros Hv. pose proof Hv as (Hsz & _). eapply split_check; [done..|]. cbn zeta. fold r.
  split; [|intros Hns; split; [by intros [_ ?]|done]].
  intros Hsp. assert (vr_nonempty r) as Hr by (unfold vr_nonempty; cbn; lia).
  pose proof (vi_layout _ _ _ _ _ Hinv) as Hl. pose proof (lo_ok _ _ Hl) as Hok. wp_step.
  eapply wp_mono; [apply (unmap_areas_spec w l L T H r); [done|done| |]|].
  - intros a [Ha Hm]%(overlapping_elem _ l); [auto|done..].
  - intros a w1 Q [Ha Hm]%(overlapping_elem _ l) HQ; [|done..].
    do 2 wp_step. by rewrite overlap_with_spec by (done || by eapply areas_ok_elem).
  - intros res w1 (-> & (Ho1 & [Hl1 Hr1] & Hg1 & Hm1) & Hinv1).
    rewrite (shed_all w l L T H) in Hinv1; [|done|intros a Ha Hm; by apply (overlapping_elem _ l)].
    destruct (carve_merge_spec l r None Hok Hr Hsp) as (l' & Hc & Hok' & Hv' & Hw).
    do 2 wp_step. unfold retain_outside. rewrite (lo_values _ _ Hl), Hc. do 2 wp_step.
    unfold drop_write_guards. wp_step. split; [done|]. cbn [w_objects w_machine set_areas set_guards].
    split; [done|]. split; [done|]. split; [cbn; by rewrite Hg1|]. split; [done|]. exists l'.
    split; [|intros x; rewrite Hv'; unfold carved; cbn; case_decide; [by destruct (view l x)|done]].
    apply vm_inv_guards, (vm_inv_relayout w1 l); try done.
    intros b lf Hb. pose proof (vi_leaves _ _ _ _ _ Hinv1 b lf Hb) as (v & Hlv). exists v.
    eapply leaf_ok_view; [|exact Hlv]. rewrite Hv'. unfold carved. rewrite decide_False; [done|].
    apply map_lookup_filter_Some in Hb as [_ Hb]. exact Hb.
Qed.

(** ** Tearing a space down *)

Lemma unmap_user_areas_spec w l L T H :
  vm_inv w l L T H →
  wp unmap_user_areas w (λ r w', r = Ok () ∧ w_objects w' = w_objects w ∧
    m_mem (w_machine w') = m_mem (w_machine w) ∧ vs_guards (w_space w') = [] ∧
    vs_range (w_space w') = vs_range (w_space w) ∧ vm_inv w' [] ∅ T H).
Proof.
  intros Hinv. pose proof (vi_layout _ _ _ _ _ Hinv) as Hl. pose proof (lo_ok _ _ Hl) as Hok.
  unfold unmap_user_areas. do 3 wp_step. rewrite (lo_values _ _ Hl).
  set (r := vs_range (w_space w)).
  assert (∀ a, a ∈ l → vr_nonempty r ∧ meets a r ∧ splits a r ∧ overlap a r = a_range a) as Hall.
  { intros a Ha. destruct (lo_inside _ _ Hl a Ha). pose proof (ao_nonempty a (areas_ok_elem _ _ Hok Ha)).
    unfold vr_nonempty, meets, splits, overlap. fold r in H0, H1. split_and!; try lia.
    rewrite Z.max_l, Z.min_l by done. by destruct (a_range a). }
  assert (∀ w', vm_inv w' l ∅ T H → vm_inv (set_guards [] (set_areas [] w')) [] ∅ T H) as Hend.
  { intros w' Hinv'. apply vm_inv_guards. change [] with (keyed []) at 1.
    eapply vm_inv_relayout; [done|apply areas_ok_nil| |done].
    split; [intros lo hi _ a Ha|intros o (a & off & Ha & _)]; by apply elem_of_nil in Ha. }
  destruct l as [|a0 l0] eqn:Heql.
  { cbn [for_each]. do 4 wp_step. split_and!; try done. cbn [w_objects w_machine set_areas set_guards].
    apply Hend. assert (L = ∅) as <-; [|done]. apply map_empty. intros b.
    destruct (L !! b) eqn:Hb; [|done].
    destruct (leaf_in_area _ _ _ _ _ _ _ Hinv Hb) as (a & Ha & _). by apply elem_of_nil in Ha. }
  rewrite <- Heql in *. assert (vr_nonempty r) as Hr by (apply (Hall a0); rewrite Heql; left).
  eapply wp_mono; [apply (unmap_areas_spec w l L T H r); [done|done| |]|].
  - intros a Ha. destruct (Hall a Ha) as (_ & ? & ? & _). done.
  - intros a w1 Q Ha HQ. destruct (Hall a Ha) as (_ & _ & _ & He). by rewrite He in HQ.
  - intros res w1 (-> & (Ho1 & [Hl1 Hr1] & Hg1 & Hm1) & Hinv1).
    assert (shed l r L = ∅) as Hemp.
    { apply map_empty. intros b. apply map_lookup_filter_None. right. intros lf Hb Hn. apply Hn. cbn.
      destruct (leaf_in_area _ _ _ _ _ _ _ Hinv Hb) as (a & Ha & Hi & _).
      destruct (lo_inside _ _ Hl a Ha). unfold inside in Hi. fold r in H0, H1. split; [lia|].
      apply Exists_exists. by exists a. }
    rewrite Hemp in Hinv1. do 3 wp_step. split_and!; try done. by apply Hend.
Qed.

(** Dropping a space releases every frame reference of its page tables and
    every table page, and cannot panic. *)
Lemma vm_drop_spec w l L T H :
  vm_inv w l L T H → vr_nonempty (vs_range (w_space w)) →
  wp (vm_drop (w_space w)) (w_objects w, w_machine w) (λ r st,
    r = Ok () ∧ st.1 = w_objects w ∧ (∀ i, m_refs st.2 i = H i) ∧
    m_mem st.2 = m_mem (w_machine w) ∧
    mach_wf st.2 ∧ (∀ v, v ∈ T → v ∉ pa_used (m_alloc st.2)) ∧ tables_ok st.2 foreign).
Proof.
  intros Hinv Hne. unfold vm_drop. wp_step. wp_step. cbn [fst snd].
  replace (World (w_space w) (w_objects w) (w_machine w)) with w by by destruct w.
  wp_step. wp_step. eapply wp_mono; [by apply (unmap_user_areas_spec w l L T H)|].
  intros r w1 (-> & Ho1 & Hm1 & _ & Hr1 & Hinv1). cbn [unwrap]. wp_step. cbn [fst snd id].
  wp_step. pose proof (vi_as _ _ _ _ _ Hinv1) as Has.
  eapply wp_mono; [apply (aspace_drop_spec _ _ ∅ T H Has)|].
  { rewrite (vi_range _ _ _ _ _ Hinv1), Hr1. done. }
  intros r m' Hr. cbn zeta in Hr. destruct r as [[]|e|]; [|done|].
  - destruct Hr as (_ & Hrefs & Hm' & Hu). cbn. split; [done|]. split; [done|]. split_and!.
    + intros i. rewrite Hrefs, (ai_count _ _ _ _ Has), own_count_empty. lia.
    + congruence.
    + destruct (ai_mach _ _ _ _ Has) as [Hm2 Hm3]. split; cbn; rewrite Hrefs; [done|]. intros i Hi.
      destruct (Hm3 i Hi) as [? ?]. split; [done|]. rewrite Hu. apply elem_of_difference. split; [done|].
      by apply (ai_disjoint _ _ _ _ Has).
    + intros v Hv. rewrite Hu. clear -Hv. set_solver.
    + destruct (ai_foreign _ _ _ _ Has) as [[HF HFd] HTF]. split; [rewrite Hu; set_solver|]. intros i. rewrite Hrefs. apply HFd.
  - destruct Hr as [(b & lf & Hb & _) _]. done.
Qed.
End unmap.
