(* ===== verification/VmProtect.v ===== *)
(** * Changing the protection of a range (xvma/src/space.rs: [protect])

    All leaves of the range change or none does. The new leaves grant what the
    new flags grant, except that a private page with other owners stays
    read-only; frames and bytes are not touched. *)
From S2P Require Import Prelude Errno MemAddr Frame PageTable AddressSpace AspaceInv AspaceTxn.
From S2P Require Import BTree VmArea VmSpace VmOps VmLayout VmInv VmFault VmUnmap.
From stdpp Require Import prelude gmap list.
Open Scope Z_scope.

Section protect.
Context {CFG : Config} {PA : PageAllocator} {BF : BitFlags} {MA : MemoryAddr} {PT : PageTable}.
Context {PF : PhysFits} {FT : Foreign} {VO : VmObject} {VL : VmObjectLaws} {BY : Bystanders}.
Implicit Types (a : VmArea) (l : list VmArea) (L : gmap Z leaf) (T : gset Z) (H : Z → Z).

(** ** One area *)

(** The flags [g] a leaf may be given when its area gets [flags]. *)
Definition permitted a (flags : Z) (refs : Z → Z) (p g : Z) : Prop :=
  (∀ k, k ∈ right_bits → contains g k = true → contains flags k = true) ∧
  (is_private a = true → contains g WRITE = true → ∀ i, metadata p = Some i → refs i = 1).
Definition new_leaf a (flags : Z) (refs : Z → Z) (lf lf' : leaf) : Prop :=
  ∃ g f', pte_flags (area_kind a) g = Ok f' ∧ lf' = set_leaf_flags f' lf ∧
    permitted a flags refs (lf_paddr lf) g.
Record repainted a (flags : Z) (refs : Z → Z) (lo hi : Z) L L' : Prop := {
  rp_out : ∀ b, ¬ (lo ≤ b < hi) → L' !! b = L !! b;
  rp_none : ∀ b, L !! b = None → L' !! b = None;
  rp_in : ∀ b lf, L !! b = Some lf → lo ≤ b < hi →
    ∃ lf', L' !! b = Some lf' ∧ new_leaf a flags refs lf lf';
}.

Definition protect_post (t : txn_state) L0 L T H a flags lo hi
    (r : outcome XError ()) (t' : txn_state) : Prop :=
  quiet t.2 t'.2 ∧
  match r with
  | Ok _ => ∃ L', txn_inv t' L0 L' T H ∧ repainted a flags (m_refs t.2.2) lo hi L L'
  | Err _ => ∃ L', txn_inv t' L0 L' T H
  | Panic => False
  end.

Lemma protect_with t L0 L T H a lo hi flags n nf :
  txn_inv t L0 L T H → 0 ≤ lo → lo ≤ hi → reads_refs nf →
  (∀ b p g, (nf b p t.2.2).1 = Ok g → permitted a flags (m_refs t.2.2) p g) →
  wp (txn_protect_range lo (hi - lo) (area_kind a) (a_page_size a) n nf) t
    (protect_post t L0 L T H a flags lo hi).
Proof.
  intros Ht H0 Hle Hnf Hg.
  eapply wp_mono; [apply (txn_protect_range_spec t L0 L T H); (done || lia)|].
  intros r t' [Hq Hr]. split; [done|]. replace (lo + (hi - lo)) with hi in Hr by lia.
  destruct r as [[]|e|]; [| |done].
  - destruct Hr as (L' & Ht' & _ & _ & [Hout [Hnone Hin]]). exists L'. split; [done|]. split; try done.
    intros b lf Hb Hr. destruct (Hin b lf Hb Hr) as (g & f' & Hnfg & Hf & Hl').
    exists (set_leaf_flags f' lf). split; [done|]. exists g, f'. eauto.
  - destruct Hr as [Ht' _]. eauto.
Qed.

Lemma permitted_refl a flags refs p :
  is_private a = false ∨ contains flags WRITE = false → permitted a flags refs p flags.
Proof. intros Hc. split; [done|]. destruct Hc; congruence. Qed.
Lemma permitted_readonly a flags refs p : permitted a flags refs p (flags |-| WRITE).
Proof.
  split; [intros k _; apply difference_contains|]. by rewrite difference_WRITE.
Qed.
(** [pte_is_unique] tells whether the leaf is the only owner. *)
Lemma pte_is_unique_true p m b :
  (frame_pte_is_unique p m).1 = Ok b → b = true → ∀ i, metadata p = Some i → m_refs m i = 1.
Proof.
  unfold frame_pte_is_unique, frame_live_metadata, metadata_res, mbind, prog_bind, lift, gets.
  intros Hb -> i Hi. revert Hb. rewrite Hi. cbn. destruct (m_refs m i =? 0); [done|].
  intros [= Hu]. unfold meta_is_unique in Hu. by apply Z.eqb_eq.
Qed.

Lemma subrange_size frames offset size :
  match sfr_subrange frames offset size with
  | Ok sub => sfr_size sub = size
  | Err _ => True
  | Panic => False
  end.
Proof.
  unfold sfr_subrange. destruct (usize_checked_add offset size); cbn [ok_or mbind outcome_bind]; [|done].
  destruct (_ || _); [done|]. by destruct (usize_checked_add (sfr_start frames) offset).
Qed.

Lemma area_protect_spec t L0 L T H a r flags :
  txn_inv t L0 L T H → area_ok a → 0 ≤ vr_start r → vr_start r ≤ vr_end r →
  vr_start (a_range a) ≤ vr_start r → vr_end r ≤ vr_end (a_range a) →
  wp (area_protect a r flags) t (protect_post t L0 L T H a flags (vr_start r) (vr_end r)).
Proof.
  intros Ht Ha H0 Hle Hlo Hhi. unfold area_protect, backing_protect. rewrite vr_size_spec by done.
  pose proof (ao_source a Ha) as Hs.
  assert (∀ nf, area_kind a = Alloc → a_page_size a = Size4K → reads_refs nf →
    (∀ b p g, (nf b p t.2.2).1 = Ok g → permitted a flags (m_refs t.2.2) p g) →
    wp (txn_protect_range (vr_start r) (vr_end r - vr_start r) Alloc Size4K None nf) t
      (protect_post t L0 L T H a flags (vr_start r) (vr_end r))) as Halloc.
  { intros nf Hk Hps. rewrite <- Hk, <- Hps. by apply protect_with. }
  assert (area_kind a = Alloc → a_page_size a = Size4K →
    wp (if negb (contains flags WRITE) then
        txn_protect_alloc_range (vr_start r) (vr_end r - vr_start r) flags
      else if private (a_backing a) then
        txn_protect_alloc_range_with (vr_start r) (vr_end r - vr_start r)
          (λ exclusive, if exclusive : bool then flags else flags |-| WRITE)
      else if requires_write_guard (a_backing a) then
        txn_protect_alloc_range (vr_start r) (vr_end r - vr_start r) (flags |-| WRITE)
      else txn_protect_alloc_range (vr_start r) (vr_end r - vr_start r) flags) t
      (protect_post t L0 L T H a flags (vr_start r) (vr_end r))) as Hdyn.
  { intros Hk Hps. unfold txn_protect_alloc_range, txn_protect_alloc_range_with.
    destruct (contains flags WRITE) eqn:Hw; cbn [negb].
    2: { apply Halloc; [done..|apply reads_refs_const|]. intros b p g [= <-]. apply permitted_refl. auto. }
    destruct (private (a_backing a)) eqn:Hp.
    { apply Halloc; [done..|apply reads_refs_unique|]. intros b p g Hg.
      unfold mbind, prog_bind in Hg. pose proof (pte_is_unique_true p t.2.2) as Hu.
      destruct (frame_pte_is_unique p t.2.2) as [[u|e|] m']; cbn in Hg; simplify_eq.
      destruct u; [|apply permitted_readonly]. split; [done|]. intros _ _. by eapply Hu. }
    destruct (requires_write_guard (a_backing a)).
    - apply Halloc; [done..|apply reads_refs_const|]. intros b p g [= <-]. apply permitted_readonly.
    - apply Halloc; [done..|apply reads_refs_const|]. intros b p g [= <-]. apply permitted_refl. by left. }
  destruct (source (a_backing a)) as [|frames|o off] eqn:Hsrc.
  - apply Hdyn; [unfold area_kind; by rewrite Hsrc|apply Hs].
  - destruct Hs as (Hp & Hsz & _ & Hst & _). do 2 wp_step.
    assert (∀ e, protect_post t L0 L T H a flags (vr_start r) (vr_end r) (Err e) t) as Hfail.
    { intros e. split; [apply quiet_refl|]. eauto. }
    pose proof (subrange_size frames (vr_start r - vr_start (a_range a)) (vr_end r - vr_start r)) as Hsize.
    destruct (sfr_subrange frames _ _) as [sub|e|]; [|apply Hfail|done].
    unfold txn_protect_static_range. rewrite Hsize. do 4 wp_step. rewrite validate_range_spec by lia.
    case_decide; [|apply Hfail]. destruct (sfr_allows sub flags); cbn [negb]; [|wp_step; apply Hfail].
    assert (area_kind a = Static) as <- by (unfold area_kind; by rewrite Hsrc).
    apply protect_with; [done..|apply reads_refs_static|]. intros b p g. destruct (p =? _); [|done].
    intros [= <-]. apply permitted_refl. by left.
  - apply Hdyn; [unfold area_kind; by rewrite Hsrc|apply Hs].
Qed.

(** ** The areas of a range *)

Record painted (k : list VmArea) (r : vrange) (flags : Z) (refs : Z → Z) L L' : Prop := {
  pn_none : ∀ b, L !! b = None → L' !! b = None;
  pn_out : ∀ b, ¬ (vr_start r ≤ b < vr_end r ∧ Exists (λ a, inside a b) k) → L' !! b = L !! b;
  pn_in : ∀ b lf, L !! b = Some lf → vr_start r ≤ b < vr_end r → Exists (λ a, inside a b) k →
    ∃ a lf', a ∈ k ∧ inside a b ∧ L' !! b = Some lf' ∧ new_leaf a flags refs lf lf';
}.
Lemma painted_nil r flags refs L : painted [] r flags refs L L.
Proof. split; try done. intros b lf _ _ Hex. by apply Exists_nil in Hex. Qed.
Lemma new_leaf_again a a' flags refs lf lf1 lf2 :
  new_leaf a' flags refs lf lf1 → new_leaf a flags refs lf1 lf2 → new_leaf a flags refs lf lf2.
Proof. intros (g1 & f1 & _ & -> & _) (g & f & Hf & -> & Hp). by exists g, f. Qed.
Lemma painted_snoc k a r flags refs L L1 L2 :
  painted k r flags refs L L1 →
  repainted a flags refs (vr_start (overlap a r)) (vr_end (overlap a r)) L1 L2 →
  painted (k ++ [a]) r flags refs L L2.
Proof.
  intros [Hn1 Ho1 Hi1] [Ho2 Hn2 Hi2]. cbn in Ho2, Hi2.
  assert (∀ b, vr_start r ≤ b < vr_end r → inside a b ↔
    Z.max (vr_start (a_range a)) (vr_start r) ≤ b < Z.min (vr_end (a_range a)) (vr_end r)) as Hov.
  { unfold inside. lia. }
  split.
  - auto.
  - intros b Hb. rewrite Exists_app, Exists_cons, Exists_nil in Hb.
    rewrite Ho2 by (unfold inside in *; intros ?; apply Hb; split; [lia|]; right; left; lia).
    apply Ho1. tauto.
  - intros b lf Hb Hr. rewrite Exists_app, Exists_cons, Exists_nil. intros Hex.
    assert (∃ lf1, L1 !! b = Some lf1 ∧ (¬ inside a b → ∃ a' lf', a' ∈ k ∧ inside a' b ∧
      L1 !! b = Some lf' ∧ new_leaf a' flags refs lf lf') ∧
      (lf1 = lf ∨ ∃ a', new_leaf a' flags refs lf lf1)) as (lf1 & Hlf1 & Hnot & Hold).
    { destruct (decide (Exists (λ a, inside a b) k)) as [Hk|Hk].
      - destruct (Hi1 b lf Hb Hr Hk) as (a' & lf' & Ha' & Hin & Hl' & Hnew). exists lf'. eauto 10.
      - exists lf. rewrite Ho1 by tauto. split; [done|]. split; [tauto|by left]. }
    destruct (decide (inside a b)) as [Ha|Ha].
    + destruct (Hi2 b lf1 Hlf1) as (lf2 & Hlf2 & Hnew); [by apply Hov|].
      exists a, lf2. split; [apply elem_of_app; right; left|]. split; [done|]. split; [done|].
      destruct Hold as [->|[a' Hold]]; [done|]. by eapply new_leaf_again.
    + destruct (Hnot Ha) as (a' & lf' & Ha' & Hin & Hl' & Hnew). exists a', lf'.
      split; [apply elem_of_app; by left|]. split; [done|]. split; [|done].
      rewrite Ho2; [done|]. by rewrite <- Hov.
Qed.

Lemma protect_areas_spec s L T H l r flags k :
  as_inv s L T H → areas_ok l → vr_nonempty r → (∀ a, a ∈ k → a ∈ l ∧ meets a r) →
  wp (with_txn (for_each k (λ area, o ← lift (overlap_with area r); area_protect area o flags))) s
    (λ res s', match res with
     | Ok _ => ∃ L', as_inv s' L' T H ∧ quiet s s' ∧ painted k r flags (m_refs s.2) L L'
     | Err _ => as_inv s' L T H ∧ quiet s s'
     | Panic => False
     end).
Proof.
  intros Has Hok Hr Hk. unfold vr_nonempty in Hr.
  eapply wp_mono; [apply (with_txn_spec _ s L T H (λ _ s' L', quiet s s' ∧
    painted k r flags (m_refs s.2) L L') (λ _, True)); [done|]|].
  2: { intros [[]|e|] s'; [done| |done]. by intros (? & ? & _). }
  apply (wp_for_each (λ pre t, quiet s t.2 ∧ ∃ L', txn_inv t L L' T H ∧
    painted pre r flags (m_refs s.2) L L')).
  - split; [apply quiet_refl|]. exists L. split; [split; [done|constructor]|apply painted_nil].
  - intros pre a suf t -> [Hq (L1 & Ht & Hpn)]. destruct (Hk a) as [Ha Hm]; [apply elem_of_app; right; left|].
    pose proof (areas_ok_elem _ _ Hok Ha) as Haok. pose proof (ao_usize a Haok). pose proof (ao_nonempty a Haok).
    pose proof Hm as [Hm1 Hm2]. do 2 wp_step. rewrite overlap_with_spec by done.
    eapply wp_mono; [apply (area_protect_spec t L L1 T H a (overlap a r) flags); (done || cbn; lia)|].
    intros res t' [Hq' Hres]. pose proof (quiet_trans _ _ _ Hq Hq') as Hq2.
    destruct res as [[]|e|]; [|by eauto|done]. destruct Hres as (L' & Ht' & Hrp).
    split; [done|]. exists L'. split; [done|]. destruct Hq as (_ & _ & Hrefs & _). rewrite Hrefs in Hrp.
    by eapply painted_snoc.
  - intros t [Hq (L' & Ht & Hpn)]. eauto.
Qed.

(** ** [protect] *)

Definition recoloured (r : vrange) (flags x : Z) (v : option page_view) : option page_view :=
  if decide (vr_start r ≤ x < vr_end r)
  then (λ v, PageView flags (pv_page_size v) (pv_private v) (pv_source v)) <$> v else v.

(** A repainted leaf fits the repainted layout. *)
Lemma painted_leaf_ok l l' refs a b lf lf' v flags :
  leaf_ok l refs b lf v → lookup_area l b = Some a → new_leaf a flags refs lf lf' →
  view l' b = Some (PageView flags (pv_page_size v) (pv_private v) (pv_source v)) →
  ∃ v', leaf_ok l' refs b lf' v'.
Proof.
  intros [Hv Hsz Hk Hri Hcow Hst] Ha (g & f' & Hf & -> & Hg1 & Hg2) Hv'.
  rewrite (view_area _ _ _ Ha) in Hv. injection Hv as <-.
  pose proof (pte_flags_leaf _ _ _ Hf) as [Hleaf Hal].
  assert (∀ k, k ∈ right_bits → contains (readback f') k = true → contains g k = true) as Hback.
  { intros k Hk'. by eapply pte_flags_rights. }
  eexists. split; cbn [set_leaf_flags lf_size lf_flags lf_paddr pv_page_size pv_private pv_source pv_flags].
  - exact Hv'.
  - done.
  - unfold view_kind. cbn [pv_source]. fold (view_kind (area_view a b)). rewrite view_kind_area.
    unfold kind_from_flags. rewrite readback_alloc, Hal by done. by destruct (area_kind a).
  - intros k Hk' Hc. apply Hg1; [done|]. by apply Hback.
  - intros Hp Hw i Hi. apply Hg2; [done| |done]. apply Hback; [unfold right_bits; set_solver|done].
  - done.
Qed.

(** Leaves that differ in their flags only show the same bytes. *)
Lemma keeps_bytes_flags s L T H s' L' T' H' :
  as_inv s L T H → as_inv s' L' T' H' → m_mem s'.2 = m_mem s.2 →
  (∀ b lf, L !! b = Some lf → ∃ lf', L' !! b = Some lf' ∧ lf_paddr lf' = lf_paddr lf ∧
     lf_size lf' = lf_size lf ∧ is_alloc lf' = is_alloc lf) →
  keeps_bytes L s.2 L' s'.2.
Proof.
  intros Has Has' Hm Hall x b lf Hf Hal. apply (leaf_find_Some (as_inv_wf _ _ _ _ Has)) in Hf as [Hb Hr].
  destruct (Hall b lf Hb) as (lf' & Hb' & Hp & Hsz & Hal'). exists lf'. split; [|split].
  - apply (leaf_find_Some (as_inv_wf _ _ _ _ Has')). split; [done|]. by rewrite Hsz.
  - by rewrite Hal'.
  - by rewrite Hm, Hp.
Qed.

Lemma painted_keeps w l L T H s' L' r flags :
  vm_inv w l L T H → as_inv s' L' T H → m_mem s'.2 = m_mem (w_machine w) →
  painted (overlapping (vs_areas (w_space w)) r) r flags (m_refs (w_machine w)) L L' → vr_nonempty r →
  keeps_bytes L (w_machine w) L' s'.2.
Proof.
  intros Hinv Has' Hm [_ Hout Hin] Hr.
  apply (keeps_bytes_flags (vs_aspace (w_space w), w_machine w) L T H s' L' T H); [apply Hinv|done..|].
  intros b lf Hb. set (k := overlapping _ r) in *.
  destruct (decide (vr_start r ≤ b < vr_end r ∧ Exists (λ a, inside a b) k)) as [[Hr' Hex]|Hno].
  2: { rewrite Hout by done. eauto. }
  destruct (Hin b lf Hb Hr' Hex) as (a & lf' & Ha & Hi & Hb' & (g & f' & Hf & -> & _)).
  eexists. split; [exact Hb'|]. split; [done|]. split; [done|].
  apply (overlapping_elem _ l) in Ha as [Ha _]; [|apply Hinv|done].
  destruct (leaf_in_area _ _ _ _ _ _ _ Hinv Hb) as (a' & Ha' & Hi' & _ & _ & Hk).
  assert (a' = a) as -> by (eapply area_unique; [apply Hinv|done..]).
  pose proof (pte_flags_leaf _ _ _ Hf) as [Hleaf Hal]. unfold is_alloc, set_leaf_flags. cbn.
  rewrite readback_alloc, Hal by done. unfold kind_from_flags in Hk.
  destruct (contains (lf_flags lf) ALLOC_FRAME), (area_kind a); done.
Qed.

Lemma painted_inv w l L T H as' m' L' l' r flags g :
  vm_inv w l L T H → as_inv (as', m') L' T H →
  quiet (vs_aspace (w_space w), w_machine w) (as', m') →
  painted (overlapping (vs_areas (w_space w)) r) r flags (m_refs (w_machine w)) L L' → vr_nonempty r →
  areas_ok l' → within l l' → (∀ x, view l' x = recoloured r flags x (view l x)) →
  vm_inv (World (MkVmSpace (vs_range (w_space w)) (keyed l') as' g) (w_objects w) m') l' L' T H.
Proof.
  intros Hinv Has' (Hq1 & Hq2 & Hq3 & _) [Hnone Hout Hin] Hr Hok' [Hwin Huse] Hv'. cbn in Hq1, Hq3.
  pose proof Hinv as [Hlay Hrng Has Hh Hlive Hleaves]. split; cbn; try done.
  - destruct Hlay as [_ _ Hi Hu]. split; cbn; try done. by apply Hwin.
  - by rewrite Hq1.
  - intros a o off Ha Hs. destruct (Huse o) as (a' & off' & Ha' & Hs'); [by exists a, off|].
    by eapply Hlive.
  - intros b lf' Hb'. destruct (L !! b) as [lf|] eqn:Hb; [|by rewrite Hnone in Hb'].
    destruct (Hleaves b lf Hb) as [v Hlv]. rewrite Hq3.
    destruct (view_Some l b v (lv_view _ _ _ _ _ Hlv)) as (a & Ha & ->).
    pose proof Ha as [Hain Hi]%lookup_area_Some; [|apply Hlay].
    assert (a ∈ overlapping (vs_areas (w_space w)) r ↔ meets a r) as Hov.
    { rewrite (overlapping_elem _ l) by done. tauto. }
    specialize (Hv' b). rewrite (lv_view _ _ _ _ _ Hlv) in Hv'. unfold recoloured in Hv'.
    case_decide as Hbr; cbn in Hv'.
    + destruct (Hin b lf Hb Hbr) as (a' & lf1 & Ha' & Hi' & Hb1 & Hnew).
      { apply Exists_exists. exists a. split; [|done]. apply Hov. unfold meets, inside in *. lia. }
      apply (overlapping_elem _ l) in Ha' as [Ha' _]; [|done..].
      assert (a' = a) as -> by (eapply area_unique; [apply Hlay|done..]).
      rewrite Hb' in Hb1. injection Hb1 as <-. by eapply painted_leaf_ok.
    + rewrite Hout in Hb' by tauto. rewrite Hb in Hb'. injection Hb' as <-. eexists.
      eapply leaf_ok_view; [|exact Hlv]. by rewrite Hv', (lv_view _ _ _ _ _ Hlv).
Qed.

Definition protectable (w : world) l (start size : Z) : Prop :=
  unmappable w l start size ∧ ∀ x, start ≤ x < start + size → is_Some (view l x).

(** Protection changes the whole range, or nothing. *)
Definition protect_spec_post (w : world) l L T H (start size flags : Z)
    (res : outcome XError ()) (w' : world) : Prop :=
    let r := VRange start (start + size) in
    w_objects w' = w_objects w ∧ m_mem (w_machine w') = m_mem (w_machine w) ∧
    m_refs (w_machine w') = m_refs (w_machine w) ∧
    vs_range (w_space w') = vs_range (w_space w) ∧
    match res with
    | Ok _ => protectable w l start size ∧ vs_guards (w_space w') = kept_guards r w ∧
        ∃ l' L', vm_inv w' l' L' T H ∧ (∀ x, view l' x = recoloured r flags x (view l x)) ∧
          painted (overlapping (vs_areas (w_space w)) r) r flags (m_refs (w_machine w)) L L' ∧
          keeps_bytes L (w_machine w) L' (w_machine w')
    | Err e => vs_areas (w_space w') = vs_areas (w_space w) ∧
        vs_guards (w_space w') = vs_guards (w_space w) ∧ vm_inv w' l L T H ∧
        (¬ protectable w l start size → w' = w)
    | Panic => False
    end.
Lemma vm_protect_spec w l L T H start size flags :
  vm_inv w l L T H → 0 ≤ start → 0 ≤ size →
  wp (vm_protect start size flags) w (protect_spec_post w l L T H start size flags).
Proof.
  intros Hinv H0 H1. cbn zeta. set (r := VRange start (start + size)).
  assert (∀ e, ¬ protectable w l start size → protect_spec_post w l L T H start size flags (Err e) w) as Hrefuse.
  { intros e Hn. by split_and!. }
  unfold vm_protect. do 2 wp_step. eapply validated; [done..| |].
  2: { intros Hnv. apply Hrefuse. by intros [[? _] _]. }
  intros Hv. pose proof Hv as (Hsz & _). pose proof (vi_layout _ _ _ _ _ Hinv) as Hl.
  destruct (check_region_access_spec _ _ 0 r Hl) as (b & Hb & Hgrant).
  do 2 wp_step. fold r. rewrite Hb. destruct b; cbn [negb].
  2: { wp_step. apply Hrefuse. intros [_ Hm]. apply diff_false_true, Hgrant. intros x Hx.
       destruct (Hm x Hx) as [v Hvx]. exists v. split; [done|apply contains_empty]. }
  assert (∀ x, start ≤ x < start + size → is_Some (view l x)) as Hmapped.
  { intros x Hx. destruct (proj1 Hgrant eq_refl x Hx) as (v & Hvx & _). eauto. }
  eapply split_check; [done..|]. cbn zeta. fold r. split; [|intros Hns; apply Hrefuse; by intros [[_ ?] _]].
  intros Hsp. assert (vr_nonempty r) as Hr by (unfold vr_nonempty; cbn; lia).
  pose proof (lo_ok _ _ Hl) as Hok.
  destruct (carve_merge_spec l r (Some flags) Hok Hr Hsp) as (l' & Hc & Hok' & Hv' & Hw).
  do 2 wp_step. unfold protected_areas. rewrite (lo_values _ _ Hl), Hc. cbn beta iota.
  wp_step. unfold on_aspace. wp_step.
  eapply wp_mono; [apply (protect_areas_spec _ L T H l r flags); [apply Hinv|done|done|]|].
  { intros a Ha. by apply (overlapping_elem _ l) in Ha. }
  intros res [as' m'] Hres. destruct res as [[]|e|]; [| |done].
  - destruct Hres as (L' & Has' & (Hq1 & Hq2 & Hq3 & Hq4) & Hpn). cbn in Hq1, Hq2, Hq3. wp_step. wp_step.
    unfold drop_write_guards. wp_step. split_and!; try done. exists l', L'.
    assert (∀ x, view l' x = recoloured r flags x (view l x)) as Hv2.
    { intros x. rewrite Hv'. unfold carved, recoloured. case_decide; [|done]. by destruct (view l x). }
    split_and!; try done; [|by eapply (painted_keeps w l L T H (as', m') L' r flags)].
    apply vm_inv_guards. by eapply (painted_inv w l L T H as' m').
  - destruct Hres as [Has' (Hq1 & Hq2 & Hq3 & Hq4)]. cbn in Hq1, Hq2, Hq3. split_and!; try done.
    + eapply (vm_inv_update w l L T H); try done; [apply Hinv|]. cbn. rewrite Hq3. apply Hinv.
    + intros Hn. exfalso. by apply Hn.
Qed.
End protect.
