(* ===== verification/VmMap.v ===== *)
(** * Mapping new areas and populating them (xvma/src/space.rs)

    [map] adds one area to the layout and changes what no other address sees;
    a failed population takes the area and its pages away again. *)
From S2P Require Import Prelude Errno MemAddr Frame PageTable AddressSpace AspaceInv AspaceTxn.
From S2P Require Import AspaceStatic BTree VmArea VmSpace VmOps VmLayout VmInv VmFault VmUnmap VmProtect.
From stdpp Require Import prelude gmap list.
Open Scope Z_scope.

Section map.
Context {CFG : Config} {PA : PageAllocator} {BF : BitFlags} {MA : MemoryAddr} {PT : PageTable}.
Context {PF : PhysFits} {FT : Foreign} {VO : VmObject} {VL : VmObjectLaws} {BY : Bystanders}.
Implicit Types (a : VmArea) (l : list VmArea) (L : gmap Z leaf) (T : gset Z) (H : Z → Z).

(** ** A new area in the layout *)

Definition apart a b : Prop :=
  vr_end (a_range b) ≤ vr_start (a_range a) ∨ vr_end (a_range a) ≤ vr_start (a_range b).

Lemma insert_area_spec l a :
  areas_ok l → area_ok a → (∀ b, b ∈ l → apart a b) →
  ∃ l1 l2, l = l1 ++ l2 ∧ insert_area a (keyed l) = keyed (l1 ++ a :: l2) ∧
    bt_remove (vr_start (a_range a)) (keyed (l1 ++ a :: l2)) = (Some a, keyed l) ∧
    areas_ok (l1 ++ a :: l2) ∧
    ∀ x, view (l1 ++ a :: l2) x = if decide (inside a x) then Some (area_view a x) else view l x.
Proof.
  intros Hok Ha Hap. pose proof (ao_nonempty a Ha) as Hne.
  assert (∀ b, b ∈ l → area_ok b ∧ vr_start (a_range b) < vr_end (a_range b)) as Hl.
  { intros b Hb. pose proof (areas_ok_elem _ _ Hok Hb) as Hbok. split; [done|apply (ao_nonempty b Hbok)]. }
  destruct (bt_insert_split (vr_start (a_range a)) a (keyed l)) as (m1 & m2 & Hm & Hins & H1 & H2).
  { by apply keyed_sorted. }
  { intros e (b & -> & Hb)%list_elem_of_fmap. cbn. destruct (Hl b Hb), (Hap b Hb); lia. }
  unfold keyed in Hm. apply fmap_app_inv in Hm as (l1 & l2 & -> & -> & ->).
  exists l1, l2. fold (keyed l1) in *. fold (keyed l2) in *.
  assert (∀ b, b ∈ l1 → vr_end (a_range b) ≤ vr_start (a_range a)) as Hl1.
  { intros b Hb. assert (vr_start (a_range b) < vr_start (a_range a)).
    { apply (H1 (vr_start (a_range b), b)). apply list_elem_of_fmap. by exists b. }
    destruct (Hl b), (Hap b); [set_solver..| |]; lia. }
  assert (∀ b, b ∈ l2 → vr_end (a_range a) ≤ vr_start (a_range b)) as Hl2.
  { intros b Hb. assert (vr_start (a_range a) < vr_start (a_range b)).
    { apply (H2 (vr_start (a_range b), b)). apply list_elem_of_fmap. by exists b. }
    destruct (Hl b), (Hap b); [set_solver..| |]; lia. }
  assert (keyed (l1 ++ a :: l2) = keyed l1 ++ (vr_start (a_range a), a) :: keyed l2) as Hkey.
  { unfold keyed. by rewrite fmap_app. }
  split; [done|]. split; [by rewrite Hkey|]. split.
  { rewrite Hkey, bt_remove_new by done. unfold keyed. by rewrite fmap_app. }
  pose proof Hok as (Hok1 & Hok2 & H12)%areas_ok_app. split.
  - rewrite areas_ok_app, areas_ok_cons. split_and!; try done.
    intros b c Hb [->|Hc]%elem_of_cons; auto.
  - intros x. change (a :: l2) with ([a] ++ l2). rewrite !view_app, view_one. case_decide as Hx; [|done].
    replace (view l1 x) with (@None page_view); [done|]. symmetry. unfold view.
    destruct (lookup_area l1 x) as [b|] eqn:Hb; [|done].
    apply lookup_area_Some in Hb as [Hb Hi]; [|done]. specialize (Hl1 b Hb). unfold inside in *. lia.
Qed.

(** ** Backends *)

(** The backends the constructors of backend.rs make. Static frame ranges are
    physical memory that page-table entries can address. *)
Inductive made (os : objects) : Backend → Prop :=
| made_anonymous populate : made os (anonymous populate)
| made_static frames ps :
    0 ≤ sfr_start frames → 0 ≤ sfr_size frames →
    sfr_start frames + sfr_size frames ≤ 2 ^ PA_MAX_BITS →
    sfr_start frames + sfr_size frames ≤ usize_max → made os (static_frames frames ps)
| made_object o offset private populate :
    object_live os o → 0 ≤ offset → made os (backend_object o offset private populate).

Lemma prepare_spec os b size :
  made os b → 0 ≤ size →
  match backend_prepare b size with
  | Ok (ps, backing, eager) => ps = be_page_size b ∧ backing = be_backing b ∧
      match source backing with
      | SrcZero => private backing = true ∧ ps = Size4K
      | SrcStatic frames => private backing = false ∧ eager = false ∧ sfr_size frames = size ∧
          0 ≤ sfr_start frames ∧ sfr_start frames + size ≤ 2 ^ PA_MAX_BITS ∧
          sfr_start frames + size ≤ usize_max
      | SrcObject o offset => object_live os o ∧
          source_ok (SrcObject o offset) (private backing) ps size
      end
  | Err e => e = InvalidInput
  | Panic => False
  end.
Proof.
  intros Hmade H0. destruct Hmade as [p|fr ps H1 H2 H3 H4|o off pr p Hlive Hoff]; unfold backend_prepare; cbn.
  - done.
  - destruct (Z.eqb_spec (sfr_size fr) size) as [<-|]; cbn; [|done]. by split_and!.
  - unfold is_multiple_of. destruct (Z.eqb_spec (off mod 4096) 0) as [Hmod|]; cbn; [|done].
    unfold usize_checked_add. destruct (Z.leb_spec (off + size) usize_max); [|by rewrite bool_decide_eq_true_2].
    rewrite bool_decide_eq_false_2 by done. by split_and!.
Qed.

(** ** Adding the area *)

Lemma add_area_inv w l L T H a l1 l2 L' as' m' T' :
  vm_inv w l L T H → as_inv (as', m') L' T' H → l = l1 ++ l2 → areas_ok (l1 ++ a :: l2) →
  as_range as' = as_range (vs_aspace (w_space w)) →
  vr_start (vs_range (w_space w)) ≤ vr_start (a_range a) → vr_end (a_range a) ≤ vr_end (vs_range (w_space w)) →
  (∀ o off, source (a_backing a) = SrcObject o off → object_live (w_objects w) o) →
  (∀ b lf, L' !! b = Some lf → ∃ v, leaf_ok (l1 ++ a :: l2) (m_refs m') b lf v) →
  vm_inv (World (MkVmSpace (vs_range (w_space w)) (keyed (l1 ++ a :: l2)) as' (vs_guards (w_space w)))
    (w_objects w) m') (l1 ++ a :: l2) L' T' H.
Proof.
  intros [Hlay Hrng Has Hh Hlive _] Has' -> Hok Hr Hlo Hhi Hla Hleaves.
  assert (∀ b, b ∈ l1 ++ a :: l2 → b = a ∨ b ∈ l1 ++ l2) as Hel by set_solver.
  split; cbn; try done.
  - destruct Hlay as [_ _ Hin Hu]. split; cbn; try done. intros b [->|Hb]%Hel; [done|by apply Hin].
  - by rewrite Hr.
  - intros b o off [->|Hb]%Hel Hs; [by eapply Hla|by eapply Hlive].
Qed.
(** The leaves that were there are outside the new area. *)
Lemma old_leaf_view w l L T H a l' b lf :
  vm_inv w l L T H → (∀ c, c ∈ l → apart a c) → L !! b = Some lf →
  (∀ x, view l' x = if decide (inside a x) then Some (area_view a x) else view l x) →
  view l' b = view l b.
Proof.
  intros Hinv Hap Hb Hv. rewrite Hv, decide_False; [done|]. intros Hi.
  destruct (leaf_in_area _ _ _ _ _ _ _ Hinv Hb) as (c & Hc & Hic & _).
  destruct (Hap c Hc); unfold inside in *; lia.
Qed.

Lemma own_count_static start phys f ps xs L i :
  leaf_flags f → contains f ALLOC_FRAME = false → (∀ x, x ∈ xs → L !! x = None) →
  own_count (installed start phys f ps xs L) i = own_count L i.
Proof.
  intros Hleaf Hk Hxs. unfold own_count. do 2 f_equal. apply map_eq. intros b. apply option_eq. intros lf.
  rewrite !map_lookup_filter_Some, installed_lookup by done. cbn. split.
  - intros [[[_ ->]|[_ Hb]] Ho]; [|done]. exfalso. revert Ho. unfold owns, is_alloc. cbn.
    by rewrite readback_alloc, Hk.
  - intros [Hb Ho]. split; [|done]. right. split; [|done]. intros Hx. by rewrite Hxs in Hb.
Qed.

(** What [validate_new_area] and [prepare] establish about the area. *)
Record candidate (w : world) l a : Prop := {
  cd_range : range_valid (w_space w) (vr_start (a_range a)) (vr_end (a_range a) - vr_start (a_range a))
    (a_page_size a);
  cd_usize : 0 ≤ vr_start (a_range a);
  cd_apart : ∀ b, b ∈ l → apart a b;
  cd_source : match source (a_backing a) with
    | SrcZero => is_private a = true ∧ a_page_size a = Size4K
    | SrcStatic frames => is_private a = false ∧
        sfr_size frames = vr_end (a_range a) - vr_start (a_range a) ∧
        0 ≤ sfr_start frames ∧ sfr_start frames + sfr_size frames ≤ 2 ^ PA_MAX_BITS ∧
        sfr_start frames + sfr_size frames ≤ usize_max
    | SrcObject o offset => object_live (w_objects w) o ∧
        source_ok (SrcObject o offset) (is_private a) (a_page_size a)
          (vr_end (a_range a) - vr_start (a_range a))
    end;
}.
Lemma candidate_ok w l a :
  candidate w l a →
  (∀ frames, source (a_backing a) = SrcStatic frames →
     sfr_start frames mod page_bytes (a_page_size a) = 0) → area_ok a.
Proof.
  intros [(Hsz & Hst & Hmod & Hmax & _) H0 _ Hsrc] Hal. split; try done; try lia.
  - by apply (mod_sub_iff (vr_start (a_range a))); [apply page_bytes_pos|..].
  - destruct (source (a_backing a)) as [|fr|o off]; cbn; [done| |apply Hsrc].
    destruct Hsrc as (Hp & Hs & H1 & H2 & H3). rewrite <- Hs. by rewrite (Hal fr).
Qed.

Lemma static_leaf_ok l a frames f' b refs :
  view l b = Some (area_view a b) → source (a_backing a) = SrcStatic frames → is_private a = false →
  pte_flags Static (a_flags a) = Ok f' →
  leaf_ok l refs b (static_leaf (vr_start (a_range a)) (sfr_start frames) f' (a_page_size a) b) (area_view a b).
Proof.
  intros Hv Hsrc Hp Hf. pose proof (pte_flags_leaf _ _ _ Hf) as [Hleaf Hal]. split; cbn.
  - done.
  - done.
  - rewrite view_kind_area. unfold area_kind. rewrite Hsrc. unfold kind_from_flags.
    by rewrite readback_alloc, Hal.
  - intros k Hk Hc. by eapply pte_flags_rights.
  - by rewrite Hp.
  - rewrite Hsrc. cbn. intros p allowed [= <- _]. done.
Qed.

(** The pages of a static area that can be mapped are free. *)
Lemma static_fresh s L T H a frames :
  as_inv s L T H → sfr_size frames = vr_end (a_range a) - vr_start (a_range a) →
  range_ok s.1 (vr_start (a_range a)) (sfr_size frames) (a_page_size a) →
  let xs := pages (page_bytes (a_page_size a)) (vr_start (a_range a)) (vr_start (a_range a) + sfr_size frames) in
  (∀ x, x ∈ xs → leaf_find L x = None) → ∀ x, x ∈ xs → L !! x = None ∧ inside a x.
Proof.
  intros Has Hsz Hrok xs Hnone x Hx. pose proof (Hnone x Hx) as Hn. split.
  - destruct (L !! x) as [lf|] eqn:Hlf; [|done].
    apply (leaf_find_None (as_inv_wf _ _ _ _ Has)) with (b := x) (lf := lf) in Hn. destruct Hn.
    split; [done|]. pose proof (page_bytes_pos (lf_size lf)). lia.
  - apply (range_pages s.1) in Hx as [Hx _]; [|done]. rewrite Hsz in Hx. unfold inside. lia.
Qed.

Definition map_post (w : world) l L T H a (r : outcome XError ()) (w' : world) : Prop :=
  w_objects w' = w_objects w ∧ same_layout w w' ∧ vs_guards (w_space w') = vs_guards (w_space w) ∧
  match r with
  | Ok _ => area_ok a ∧ ∃ L' T', keeps_bytes L (w_machine w) L' (w_machine w') ∧
      ∀ l1 l2, l = l1 ++ l2 → areas_ok (l1 ++ a :: l2) →
        (∀ x, view (l1 ++ a :: l2) x = if decide (inside a x) then Some (area_view a x) else view l x) →
        vm_inv (set_areas (keyed (l1 ++ a :: l2)) w') (l1 ++ a :: l2) L' T' H
  | Err _ => ∃ T', vm_inv w' l L T' H ∧ m_mem (w_machine w') = m_mem (w_machine w)
  | Panic => False
  end.

Lemma area_map_dynamic w l L T H a :
  vm_inv w l L T H → candidate w l a → area_kind a = Alloc → map_post w l L T H a (Ok ()) w.
Proof.
  intros Hinv Hc Hk. do 3 (split; [done|]). pose proof Hc as [(_ & _ & _ & _ & Hlo & Hhi) H0 Hap Hsrc].
  unfold area_kind in Hk. split.
  { eapply candidate_ok; [done|]. intros fr Hs. by rewrite Hs in Hk. }
  exists L, T. split; [by apply keeps_bytes_refl|]. intros l1 l2 Hl Hok Hv.
  eapply (add_area_inv w l L T H); try done; [apply Hinv|lia| |].
  - intros o off Hs. rewrite Hs in Hsrc. apply Hsrc.
  - intros b lf Hb. destruct (vi_leaves _ _ _ _ _ Hinv b lf Hb) as [v Hlv]. exists v.
    eapply leaf_ok_view; [|exact Hlv]. by eapply old_leaf_view.
Qed.

Lemma area_map_spec w l L T H a :
  vm_inv w l L T H → candidate w l a → wp (on_aspace (area_map a)) w (map_post w l L T H a).
Proof.
  intros Hinv Hc. pose proof (vi_as _ _ _ _ _ Hinv) as Has. unfold area_map, backing_map.
  destruct (source (a_backing a)) as [|frames|o off] eqn:Hsrc;
    [| |unfold on_aspace; wp_steps; destruct w as [[]]; apply area_map_dynamic; unfold area_kind; by rewrite ?Hsrc].
  { unfold on_aspace; wp_steps; destruct w as [[]]; apply area_map_dynamic; unfold area_kind; by rewrite ?Hsrc. }
  pose proof Hc as [(Hsz & Hst & Hmod & Hmax & Hlo & Hhi) H0 Hap Hcs].
  rewrite Hsrc in Hcs. destruct Hcs as (Hp & Hfs & Hs0 & Hpa & Hum).
  unfold on_aspace. wp_step.
  eapply wp_mono; [apply (map_static_range_spec _ L T H); (done || lia)|].
  intros r [as' m'] (Hr & Hm & T' & Hpost). cbn [fst snd] in *. do 3 (split; [done|]).
  destruct r as [[]|e|]; [| |done].
  2: { exists T'. split; [|done]. eapply (vm_inv_update w l L T H); try done; [apply Hinv|].
       intros b lf Hb. eapply (leaf_ok_keep w); [done..|]. intros j _ _ H1 _ _. rewrite <- H1.
       exact (refs_by_count _ L T H (as', m') L T' H j Has Hpost eq_refl). }
  destruct Hpost as ((Hrok & Hal & _ & Hnone) & f' & Hf & Has').
  pose proof (pte_flags_leaf _ _ _ Hf) as [Hleaf Halloc].
  set (xs := pages _ _ _) in *.
  pose proof (static_fresh (_, w_machine w) L T H a frames Has Hfs Hrok Hnone) as Hxs. fold xs in Hxs.
  assert (∀ j, m_refs m' j = m_refs (w_machine w) j) as Hrefs.
  { intros j. refine (refs_by_count _ L T H (as', m') _ T' H j Has Has' _).
    rewrite own_count_static; [done..|]. intros x Hx. by apply Hxs. }
  split; [eapply candidate_ok; [done|]; intros fr Hs; congruence|].
  exists (installed (vr_start (a_range a)) (sfr_start frames) f' (a_page_size a) xs L), T'. split.
  - refine (keeps_bytes_flags _ L T H (as', m') _ T' H Has Has' Hm _). intros b lf Hb. exists lf.
    split; [|done]. apply installed_lookup; try done. right. split; [|done]. intros Hx.
    destruct (Hxs b Hx). congruence.
  - intros l1 l2 Hl Hok Hv. eapply (add_area_inv w l L T H); try done; [lia|congruence|].
    intros b lf Hb. apply installed_lookup in Hb as [[Hx ->]|[Hx Hb]]; [| |done..].
    + eexists. apply static_leaf_ok; try done. rewrite Hv. rewrite decide_True; [done|]. by apply Hxs.
    + destruct (vi_leaves _ _ _ _ _ Hinv b lf Hb) as [v Hlv]. exists v.
      eapply leaf_ok_view; [by eapply old_leaf_view|].
      destruct Hlv as [? ? ? ? Hcow ?]. split; try done. intros ? ? i Hi. rewrite Hrefs. auto.
Qed.

(** ** Populating *)

(** What page faults do to a space: nothing is lost. *)
Record advances (w : world) l L H (w' : world) L' T' H' : Prop := {
  av_layout : same_layout w w';
  av_inv : vm_inv w' l L' T' H';
  av_balance : ∀ j, H' j - held (w_objects w') j = H j - held (w_objects w) j;
  av_bytes : keeps_bytes L (w_machine w) L' (w_machine w');
}.
Lemma advances_refl w l L T H : vm_inv w l L T H → advances w l L H w L T H.
Proof. intros Hinv. split; try done. by apply keeps_bytes_refl. Qed.
Lemma advances_trans w l L H w1 L1 T1 H1 w2 L2 T2 H2 :
  advances w l L H w1 L1 T1 H1 → advances w1 l L1 H1 w2 L2 T2 H2 → advances w l L H w2 L2 T2 H2.
Proof.
  intros [A1 A2 A3 A4] [B1 B2 B3 B4]. split; [by eapply same_layout_trans|done| |by eapply keeps_bytes_trans].
  intros j. rewrite B3. apply A3.
Qed.

(** The address has an allocator-owned page. *)
Definition covered L (x : Z) : Prop := ∃ b lf, leaf_find L x = Some (b, lf) ∧ is_alloc lf = true.
Lemma covered_keeps L m L' m' x : keeps_bytes L m L' m' → covered L x → covered L' x.
Proof. intros Hk (b & lf & Hf & Hal). destruct (Hk x b lf Hf Hal) as (lf' & ? & ? & _). by exists b, lf'. Qed.

Lemma handle_fault_advances w l L T H address access a :
  vm_inv w l L T H → lookup_area l address = Some a → contains (a_flags a) access = true →
  wp (handle_page_fault address access) w (λ r w', r = Panic ∧ saturated (w_machine w') ∨
    ∃ res L' T' H', r = Ok res ∧ advances w l L H w' L' T' H' ∧
    (res = Resolved → area_kind a = Alloc → covered L' address)).
Proof.
  intros Hinv Ha Hacc. eapply wp_mono; [by apply (handle_page_fault_spec w l L T H)|].
  intros r w'. rewrite Ha, Hacc. intros [[-> Hsat]|[Hl (res & L' & T' & H' & -> & Hinv' & Hbal & Hkb & Hres)]]; [by left|].
  right. exists res, L', T', H'. split; [done|]. split; [done|]. intros Hr Hk. destruct (Hres Hr) as (lf & Hlf & _).
  destruct (page_of_spec w l L T H a address Hinv Ha) as (Hap & _ & _ & Hrange). cbn zeta in *.
  set (page := align_down address (page_bytes (a_page_size a))) in *.
  destruct (leaf_in_area _ _ _ _ _ _ _ Hinv' Hlf) as (a' & Ha' & Hi' & _ & Hsz & Hk').
  destruct (page_facts _ _ _ _ _ _ _ Hinv Hap) as (Hain & Hip & _).
  assert (a' = a) as -> by (eapply area_unique; [apply (lo_ok _ _ (vi_layout _ _ _ _ _ Hinv))|done..]).
  exists page, lf. split; [|apply kind_alloc; congruence].
  apply (leaf_find_Some (as_inv_wf _ _ _ _ (vi_as _ _ _ _ _ Hinv'))). split; [done|]. by rewrite Hsz.
Qed.

Lemma covered_page w l L T H a x :
  vm_inv w l L T H → lookup_area l x = Some a → area_kind a = Alloc →
  lookup_area l (x - x mod 4096) = Some a ∧ (covered L (x - x mod 4096) → covered L x).
Proof.
  intros Hinv Ha Hk. destruct (page_facts _ _ _ _ _ _ _ Hinv Ha) as (Hin & _ & H0 & _).
  pose proof (ao_source _ (areas_ok_elem _ _ (lo_ok _ _ (vi_layout _ _ _ _ _ Hinv)) Hin)) as Hs.
  assert (a_page_size a = Size4K) as Hps.
  { unfold area_kind in Hk. destruct (source (a_backing a)); [apply Hs|done|apply Hs]. }
  destruct (page_of_spec w l L T H a x Hinv Ha) as (Hap & Hmod & _). cbn zeta in *.
  rewrite Hps, align_down_spec in Hap, Hmod by done. cbn [page_bytes] in Hap, Hmod.
  change (page_bytes Size4K) with 4096 in *. split; [done|].
  intros (b & lf & Hf & Hal). pose proof (as_inv_wf _ _ _ _ (vi_as _ _ _ _ _ Hinv)) as Hwf.
  apply (leaf_find_Some Hwf) in Hf as [Hb Hr].
  destruct (ai_alloc _ _ _ _ (vi_as _ _ _ _ _ Hinv) b lf Hb Hal) as [Hsz _].
  destruct (lw_base _ _ _ Hwf _ _ Hb) as (Hbal & _). rewrite Hsz in Hr, Hbal. cbn in Hr, Hbal.
  exists b, lf. split; [|done]. apply (leaf_find_Some Hwf). split; [done|]. rewrite Hsz. cbn.
  pose proof (Z.mod_pos_bound x 4096 eq_refl).
  destruct (decide (b = x - x mod 4096)); [lia|].
  pose proof (aligned_lt_step b (x - x mod 4096) 4096 eq_refl Hbal Hmod). lia.
Qed.

Definition populate_post (w : world) l L H (start size : Z) (r : outcome XError ()) (w' : world) : Prop :=
  r = Panic ∧ saturated (w_machine w') ∨
  r ≠ Panic ∧ ∃ L' T' H', advances w l L H w' L' T' H' ∧
    (r = Ok () → ∀ x a, start ≤ x < start + size → lookup_area l x = Some a →
       area_kind a = Alloc → covered L' x).

(** Populating resolves a fault on every page of the range, or stops at the
    first one it cannot resolve. *)
Lemma populate_area_spec w l L T H start size access :
  vm_inv w l L T H → 0 ≤ start → 0 ≤ size →
  wp (populate_area start size access) w (populate_post w l L H start size).
Proof.
  intros Hinv H0 H1. assert (∀ e, populate_post w l L H start size (Err e) w) as Hfail.
  { intros e. right. split; [done|]. exists L, T, H. split; [by apply advances_refl|done]. }
  unfold populate_area. do 2 wp_step. eapply validated; [done..| |intros _; apply Hfail].
  intros Hv. pose proof Hv as (Hsz & Hal & Hmod & _). cbn [page_bytes] in Hal, Hmod.
  destruct (check_region_access_spec _ _ access (VRange start (start + size))
    (vi_layout _ _ _ _ _ Hinv)) as (b & Hb & Hgrant).
  do 2 wp_step. rewrite Hb. destruct b; cbn [negb]; [|wp_step; apply Hfail].
  do 2 wp_step. cbn [vr_start vr_end] in *. rewrite (page_iter_spec Size4K) by lia.
  change (page_bytes Size4K) with 4096 in *.
  rewrite Hal, (mod_add_aligned start size), Hmod by done. cbn [Z.eqb andb ok_or].
  assert (∀ p, p ∈ pages 4096 start (start + size) ↔ start ≤ p < start + size ∧ p mod 4096 = 0) as Hpages.
  { intros p. apply elem_of_pages; [done..|]. by rewrite mod_add_aligned. }
  apply (wp_for_each (λ pre w1, ∃ L1 T1 H1, advances w l L H w1 L1 T1 H1 ∧
    ∀ p a, p ∈ pre → lookup_area l p = Some a → area_kind a = Alloc → covered L1 p)).
  - exists L, T, H. split; [by apply advances_refl|]. intros p a Hp. by apply elem_of_nil in Hp.
  - intros pre p suf w1 Hl (L1 & T1 & HH1 & Hadv & Hpre).
    destruct (proj1 Hgrant eq_refl p) as (v & Hvp & Hva).
    { apply Hpages. rewrite Hl. apply elem_of_app. right. left. }
    apply view_Some in Hvp as (a & Ha & ->). wp_step.
    eapply wp_mono; [by apply (handle_fault_advances w1 l L1 T1 HH1 p access a); [apply Hadv|..]|].
    intros r w2 [[-> Hsat]|(res & L2 & T2 & H2 & -> & Hadv2 & Hres)]; [by left|].
    assert (advances w l L H w2 L2 T2 H2) as Hadv' by by eapply advances_trans.
    assert (∀ e, populate_post w l L H start size (Err e) w2) as Hfail2.
    { intros e. right. split; [done|]. by exists L2, T2, H2. }
    destruct res; wp_step; try apply Hfail2. exists L2, T2, H2. split; [done|].
    intros q c [Hq|Hq%list_elem_of_singleton]%elem_of_app Hc Hk.
    + eapply covered_keeps; [apply Hadv2|by eapply Hpre].
    + subst q. rewrite Ha in Hc. injection Hc as <-. auto.
  - intros w1 (L1 & T1 & HH1 & Hadv & Hall). right. split; [done|]. exists L1, T1, HH1. split; [done|].
    intros _ x a Hx Ha Hk. destruct (covered_page w1 l L1 T1 HH1 a x) as [Hap Hcov]; [apply Hadv|done..|].
    apply Hcov. eapply Hall; [|done..]. apply Hpages. pose proof (Z.mod_pos_bound x 4096 eq_refl).
    split; [|by apply align_down_aligned].
    destruct (decide (start ≤ x - x mod 4096)); [lia|]. exfalso.
    pose proof (aligned_lt_step (x - x mod 4096) start 4096 eq_refl (align_down_aligned x 4096 eq_refl) Hal). lia.
Qed.

(** ** [map] *)

Lemma on_aspace_set_areas {A} (m : prog (AddressSpace * machine) XError A) w k Q :
  wp (on_aspace m) w (λ r w', Q r (set_areas k w')) → wp (on_aspace m) (set_areas k w) Q.
Proof. unfold wp, on_aspace, zoom. cbn. by destruct (m _). Qed.

(** Undoing a mapping whose population failed. *)
Lemma undo_map_spec w l l1 l2 L T H a :
  vm_inv w (l1 ++ a :: l2) L T H → l = l1 ++ l2 → areas_ok l →
  (∀ x, view (l1 ++ a :: l2) x = if decide (inside a x) then Some (area_view a x) else view l x) →
  wp (unwrap_prog (E := XError) (on_aspace (area_unmap a (a_range a)))) (set_areas (keyed l) w) (λ r w',
    r = Ok () ∧ w_objects w' = w_objects w ∧ vs_areas (w_space w') = keyed l ∧
    vs_range (w_space w') = vs_range (w_space w) ∧ m_mem (w_machine w') = m_mem (w_machine w) ∧
    vm_inv w' l (outside (vr_start (a_range a)) (vr_end (a_range a)) L) T H).
Proof.
  intros Hinv -> Hok Hv. wp_step. apply on_aspace_set_areas.
  assert (a ∈ l1 ++ a :: l2) as Hin by (apply elem_of_app; right; left).
  pose proof (areas_ok_elem _ _ (lo_ok _ _ (vi_layout _ _ _ _ _ Hinv)) Hin) as Ha.
  replace (a_range a) with (VRange (vr_start (a_range a)) (vr_end (a_range a))) at 1 by by destruct (a_range a).
  eapply wp_mono; [apply (area_unmap_spec w (l1 ++ a :: l2) L T H a); try done; try apply Ha|].
  intros r w' (-> & (Ho & [Hl Hr] & Hg & Hm) & Hinv'). do 5 (split; [done|]).
  assert (within (l1 ++ a :: l2) (l1 ++ l2)) as Hwithin.
  { assert (∀ b, b ∈ l1 ++ l2 → b ∈ l1 ++ a :: l2) as Hel by set_solver.
    split; [auto|]. intros o (b & off & Hb & Hs). exists b, off. auto. }
  apply (vm_inv_relayout w' (l1 ++ a :: l2)); try done.
  intros b lf Hb. destruct (vi_leaves _ _ _ _ _ Hinv' b lf Hb) as [v Hlv]. exists v.
  eapply leaf_ok_view; [|exact Hlv]. rewrite Hv, decide_False; [done|].
  apply map_lookup_filter_Some in Hb as [_ Hb]. exact Hb.
Qed.

Lemma validate_new_area_spec vs l start size ps :
  layout_wf vs l → 0 ≤ start → 0 ≤ size →
  match validate_new_area vs start size ps with
  | Ok r => r = VRange start (start + size) ∧ range_valid vs start size ps ∧
      ∀ flags backing b, b ∈ l → apart (MkVmArea r flags ps backing) b
  | Err _ => True
  | Panic => False
  end.
Proof.
  intros Hl H0 H1. unfold validate_new_area. rewrite vm_validate_range_spec by done.
  case_decide as Hv; [|done]. cbn [mbind outcome_bind].
  destruct (existsb _ _) eqn:Hex; [done|]. split; [done|]. split; [done|]. intros flags backing b Hb.
  rewrite (lo_values _ _ Hl) in Hex. destruct Hv as (Hsz & _).
  destruct (decide (meets b (VRange start (start + size)))) as [Hm|Hm].
  - exfalso. apply diff_true_false. rewrite <- Hex. symmetry. apply existsb_meets; [apply Hl|..|by exists b].
    unfold vr_nonempty. cbn. lia.
  - unfold meets, apart in *. cbn in *. lia.
Qed.

Definition vm_map_post (w : world) l L H (start size flags : Z) (b : Backend)
    (r : outcome XError ()) (w' : world) : Prop :=
  let a := MkVmArea (VRange start (start + size)) flags (be_page_size b) (be_backing b) in
  match r with
  | Ok _ => (∀ c, c ∈ l → apart a c) ∧ vs_range (w_space w') = vs_range (w_space w) ∧
      ∃ l' L' T' H', vm_inv w' l' L' T' H' ∧
      (∀ x, view l' x = if decide (inside a x) then Some (area_view a x) else view l x) ∧
      (∀ j, H' j - held (w_objects w') j = H j - held (w_objects w) j) ∧
      keeps_bytes L (w_machine w) L' (w_machine w') ∧
      (be_populate b = true → ∀ x, start ≤ x < start + size → covered L' x)
  | Err _ => ∃ L' T' H', advances w l L H w' L' T' H'
  | Panic => saturated (w_machine w')
  end.

(** The population of a new area. *)
Lemma eager_map_spec w w1 l l1 l2 L L1 T1 H start size flags b :
  let a := MkVmArea (VRange start (start + size)) flags (be_page_size b) (be_backing b) in
  vm_inv w1 (l1 ++ a :: l2) L1 T1 H → l = l1 ++ l2 → areas_ok l → vs_areas (w_space w) = keyed l →
  0 ≤ start → 0 ≤ size → area_kind a = Alloc → (∀ c, c ∈ l → apart a c) →
  w_objects w1 = w_objects w → vs_areas (w_space w1) = keyed (l1 ++ a :: l2) →
  vs_range (w_space w1) = vs_range (w_space w) → keeps_bytes L (w_machine w) L1 (w_machine w1) →
  bt_remove start (keyed (l1 ++ a :: l2)) = (Some a, keyed l) →
  (∀ x lf, L !! x = Some lf → ¬ (start ≤ x < start + size)) →
  (∀ x, view (l1 ++ a :: l2) x = if decide (inside a x) then Some (area_view a x) else view l x) →
  wp (attempt (populate_area start size flags) (λ r,
      match r with
      | Err error =>
          areas ← gets (λ w, vs_areas (w_space w));
          let '(removed, areas) := bt_remove start areas in
          area ← lift (expect removed);
          modify (set_areas areas);;
          unwrap_prog (on_aspace (area_unmap area (VRange start (start + size))));;
          throw error
      | _ => mret ()
      end)) w1 (vm_map_post w l L H start size flags b).
Proof.
  intros a Hinv1 Heq Hok Har H0 H1 Hk Hap Ho1 Har1 Hr1 Hkb1 Hrem Hfree Hv.
  wp_step. eapply wp_mono; [by apply (populate_area_spec w1 (l1 ++ a :: l2) L1 T1 H)|].
  intros r w2 [[-> Hsat]|[Hnp (L2 & T2 & H2 & [[Ha2 Hr2] Hinv2 Hbal2 Hkb2] & Hcov)]]; [done|].
  destruct r as [[]|e|]; [| |done].
  - wp_step. split; [done|]. split; [congruence|]. exists (l1 ++ a :: l2), L2, T2, H2. split_and!; try done.
    + intros j. by rewrite Hbal2, Ho1.
    + by eapply keeps_bytes_trans.
    + intros _ x Hx. apply (Hcov eq_refl x a Hx); [|done].
      apply lookup_area_Some; [apply (lo_ok _ _ (vi_layout _ _ _ _ _ Hinv1))|].
      split; [apply elem_of_app; right; left|]. unfold inside. cbn. lia.
  - wp_step. wp_step. rewrite Ha2, Har1, Hrem. do 2 wp_step. cbn [expect]. do 3 wp_step.
    eapply wp_mono; [by apply (undo_map_spec w2 l l1 l2 L2 T2 H2 a)|].
    intros r w3 (-> & Ho3 & Ha3 & Hr3 & Hm3 & Hinv3). wp_step.
    exists (outside start (start + size) L2), T2, H2. split.
    + split; congruence.
    + exact Hinv3.
    + intros j. by rewrite Ho3, Hbal2, Ho1.
    + intros x b0 lf Hf Hal. destruct (Hkb1 x b0 lf Hf Hal) as (lf1 & Hf1 & Hal1 & Hb1).
      destruct (Hkb2 x b0 lf1 Hf1 Hal1) as (lf2 & Hf2 & Hal2 & Hb2). exists lf2.
      split; [|split; [done|]]; [|rewrite Hm3; congruence].
      apply leaf_find_covers in Hf as [Hlf _]. apply leaf_find_covers in Hf2 as [Hlf2 Hx].
      apply (leaf_find_Some (as_inv_wf _ _ _ _ (vi_as _ _ _ _ _ Hinv3))). split; [|done].
      apply map_lookup_filter_Some. split; [done|]. cbn. by apply (Hfree b0 lf).
Qed.

(** [map] adds the area, with all its pages when it populates, or leaves the
    layout as it was. *)
Lemma vm_map_spec w l L T H start size flags b :
  vm_inv w l L T H → made (w_objects w) b → 0 ≤ start → 0 ≤ size →
  wp (vm_map start size flags b) w (vm_map_post w l L H start size flags b).
Proof.
  intros Hinv Hmade H0 H1. pose proof (vi_layout _ _ _ _ _ Hinv) as Hl. pose proof (lo_ok _ _ Hl) as Hok.
  assert (∀ e, vm_map_post w l L H start size flags b (Err e) w) as Hfail.
  { intros e. exists L, T, H. by apply advances_refl. }
  unfold vm_map. do 2 wp_step.
  pose proof (prepare_spec _ b size Hmade H1) as Hprep. do 2 wp_step.
  destruct (backend_prepare b size) as [[[ps backing] eager]|e|] eqn:Hbp; [|apply Hfail|done].
  destruct Hprep as (-> & -> & Hsrc).
  pose proof (validate_new_area_spec _ l start size (be_page_size b) Hl H0 H1) as Hva.
  do 2 wp_step. destruct (validate_new_area _ _ _ _) as [r|e|]; [|apply Hfail|done].
  destruct Hva as (-> & Hrange & Hap).
  set (a := MkVmArea (VRange start (start + size)) flags (be_page_size b) (be_backing b)).
  assert (candidate w l a) as Hc.
  { split; cbn; [by replace (start + size - start) with size by lia|done|intros c Hc; by apply Hap|].
    replace (start + size - start) with size by lia.
    destruct (source (be_backing b)); [done| |done]. destruct Hsrc as (? & _ & Hs & ? & ? & ?).
    rewrite <- Hs in *. by split_and!. }
  wp_step. eapply wp_mono; [by apply (area_map_spec w l L T H a)|].
  intros r w1 (Ho1 & Hl1 & Hg1 & Hr). destruct r as [[]|e|]; [| |done].
  2: { destruct Hr as (T' & Hinv1 & Hm1). exists L, T', H. split; try done; [by rewrite Ho1|].
       by apply keeps_bytes_refl. }
  destruct Hr as (Ha & L1 & T1 & Hkb1 & Hinv1).
  destruct (insert_area_spec l a Hok Ha (cd_apart _ _ _ Hc)) as (l1 & l2 & Heq & Hins & Hrem & Hok' & Hv).
  specialize (Hinv1 l1 l2 Heq Hok' Hv). destruct Hl1 as [Har1 Hrg1]. do 2 wp_step.
  rewrite Har1, (lo_areas _ _ Hl), Hins. set (w2 := set_areas (keyed (l1 ++ a :: l2)) w1) in *.
  assert (eager = be_populate b) as ->.
  { revert Hbp. unfold backend_prepare. destruct (source (be_backing b)); repeat case_match; congruence. }
  destruct (be_populate b) eqn:Hpop; cbn [negb].
  2: { wp_step. split; [by apply Hc|]. split; [done|]. exists (l1 ++ a :: l2), L1, T1, H. split_and!; try done.
       - intros j. cbn. by rewrite Ho1.
       - congruence. }
  eapply (eager_map_spec w w2 l l1 l2 L L1 T1 H); try done.
  - apply Hl.
  - unfold area_kind. cbn. destruct (source (be_backing b)); [done| |done]. by destruct Hsrc as (_ & ? & _).
  - apply Hc.
  - intros x lf Hx Hin. destruct (leaf_in_area _ _ _ _ _ _ _ Hinv Hx) as (c & Hcl & Hi & _).
    destruct (cd_apart _ _ _ Hc c Hcl); unfold inside in Hi; cbn in *; lia.
Qed.
End map.
