(* ===== verification/SharedObject.v ===== *)
(** * Anonymous shared memory (xvma/src/object.rs)

    [SharedObject], the page source that owns its frames, and the counter that
    names page sources. It satisfies the contract of page sources. *)
From S2P Require Import Prelude Errno MemAddr Frame PageTable AddressSpace AspaceInv AspaceTxn.
From S2P Require Import VmArea VmSpace VmInv.
From stdpp Require Import prelude gmap list.
Open Scope Z_scope.

Record SharedObject := MkSharedObject { so_id : Z; so_frames : list Frame }.
(** [NEXT_OBJECT_ID], and the objects that some [Arc] keeps alive. *)
Record shared_state := MkShared { next_object_id : Z; so_alive : list SharedObject }.

Section shared.
Context {CFG : Config} {PA : PageAllocator}.
Abbreviation state := (shared_state * machine)%type.

Definition allocate_object_id : prog shared_state XError Z := λ s,
  match usize_checked_add (next_object_id s) 1 with
  | Some next => (Ok (next_object_id s), MkShared next (so_alive s))
  | None => (Err NoMemory, s)
  end.

Definition drop_frames {E} (frames : list Frame) : prog machine E () := for_each frames frame_drop.
(** [(0..n).map(|_| Frame::allocate_zeroed()).collect::<Option<Vec<_>>>()]: the
    frames collected before a failure are dropped. *)
Fixpoint collect_frames (n : nat) (frames : list Frame) : prog machine XError (option (list Frame)) :=
  match n with
  | O => mret (Some frames)
  | S n' =>
      frame ← frame_allocate_zeroed;
      match frame with
      | Some frame => collect_frames n' (frames ++ [frame])
      | None => drop_frames frames;; mret None
      end
  end.
Definition shared_new (size : Z) : prog state XError SharedObject :=
  let unit := page_bytes Size4K in
  if negb (is_multiple_of size unit) then throw InvalidInput
  else
    collected ← zoom snd (λ m s, (s.1, m)) (collect_frames (Z.to_nat (size / unit)) []);
    match collected with
    | None => throw NoMemory
    | Some frames =>
        attempt (zoom fst (λ o s, (o, s.2)) allocate_object_id) (λ r,
          match r with
          | Ok id =>
              let object := MkSharedObject id frames in
              modify (λ s, (MkShared (next_object_id s.1) (object :: so_alive s.1), s.2));;
              mret object
          | Err error => zoom snd (λ m s, (s.1, m)) (drop_frames frames);; throw error
          | Panic => panic
          end)
    end.

Definition shared_byte_len (o : SharedObject) : Z :=
  Z.of_nat (length (so_frames o)) * page_bytes Size4K.
Definition shared_page (o : SharedObject) (index : Z) : prog state Z (VmPage ()) :=
  match so_frames o !! Z.to_nat index with
  | Some frame =>
      frame ← zoom snd (λ m s, (s.1, m)) (frame_clone frame);
      mret (MkVmPage frame None)
  | None => throw EFAULT
  end.

#[export] Instance shared_object : VmObject := {
  vm_object := SharedObject;
  vm_guard := ();
  objects := shared_state;
  object_id := so_id;
  object_byte_len o _ := Ok (shared_byte_len o);
  object_page o index _ := shared_page o index;
  object_sync _ _ _ _ := mret ();
  object_requires_write_guard _ := false;
}.

(** ** The contract of page sources *)

Definition handle_of (i : Z) (f : Frame) : Prop := metadata (f_paddr f) = Some i.
#[export] Instance handle_of_dec i f : Decision (handle_of i f).
Proof. unfold handle_of. apply _. Defined.
Definition frame_handles (fs : list Frame) (i : Z) : Z :=
  Z.of_nat (length (filter (handle_of i) fs)).
Definition shared_frames (os : shared_state) : list Frame := so_alive os ≫= so_frames.
Definition shared_held (os : shared_state) (i : Z) : Z := frame_handles (shared_frames os) i.
Definition shared_live (os : shared_state) (o : SharedObject) : Prop :=
  o ∈ so_alive os ∧ ∀ f, f ∈ so_frames o → is_Some (metadata (f_paddr f)).

Lemma frame_handles_app fs fs' i :
  frame_handles (fs ++ fs') i = frame_handles fs i + frame_handles fs' i.
Proof. unfold frame_handles. rewrite filter_app, length_app. lia. Qed.
Lemma frame_handles_one f i : frame_handles [f] i = if decide (handle_of i f) then 1 else 0.
Proof. unfold frame_handles. rewrite filter_cons, filter_nil. by case_decide. Qed.
Lemma handle_of_iff p i j : metadata p = Some i → handle_of j (MkFrame p) ↔ j = i.
Proof. unfold handle_of. cbn. intros ->. naive_solver. Qed.
Lemma frame_handles_nonneg fs i : 0 ≤ frame_handles fs i.
Proof. unfold frame_handles. lia. Qed.
Lemma frame_handles_elem fs f i : f ∈ fs → handle_of i f → 1 ≤ frame_handles fs i.
Proof.
  intros Hf Hi. unfold frame_handles. assert (f ∈ filter (handle_of i) fs) as H.
  { by apply list_elem_of_filter. }
  destruct (filter _ fs); [by apply elem_of_nil in H|]. cbn. lia.
Qed.

Lemma frame_clone_spec {E} m p i :
  mach_wf m → metadata p = Some i → m_refs m i ≠ 0 →
  wp (frame_clone (E:=E) (MkFrame p)) m (λ r m', mach_wf m' ∧ same_mem m m' ∧ m_alloc m' = m_alloc m ∧
    match r with
    | Ok f => f = MkFrame p ∧ m_refs m' = fupd (m_refs m) i (m_refs m i + 1)
    | Err _ => False
    | Panic => m_refs m i = u32_max ∧ m_refs m' = m_refs m
    end).
Proof.
  intros Hwf Hp Hi. unfold frame_clone. do 2 wp_step. cbn [f_paddr]. rewrite Hp. cbn [expect].
  wp_step. pose proof (wf_refs_range _ Hwf i). unfold wp. rewrite meta_try_get_live by done.
  destruct (Z.eqb_spec (m_refs m i) u32_max); cbn; [done|]. split_and!; try done.
  apply mach_wf_fupd; [done|lia|]. intros _. by apply Hwf.
Qed.

#[export] Program Instance shared_laws : VmObjectLaws (VO := shared_object) := {
  object_live := shared_live;
  held := shared_held;
}.
Next Obligation. done. Qed.
Next Obligation.
  intros o index w os m [Ho Hfs] Hwf Hheld. cbn. unfold shared_page.
  destruct (so_frames o !! Z.to_nat index) as [[p]|] eqn:Hf; cycle 1.
  { wp_step. split_and!; try done. intros i. apply Hheld. }
  apply list_elem_of_lookup_2 in Hf. destruct (Hfs _ Hf) as [i Hi]. cbn in Hi.
  assert (1 ≤ shared_held os i) as Hh.
  { apply (frame_handles_elem _ (MkFrame p)); [|done]. apply list_elem_of_bind. by exists o. }
  do 2 wp_step. eapply wp_mono; [apply (frame_clone_spec m p i); try done; specialize (Hheld i); lia|].
  intros r m' (Hwf' & (Hm & _) & Ha & Hr). cbn [fst snd] in *. 
  destruct r as [f|e|]; [|done|].
  - destruct Hr as [-> Hrefs]. wp_step. cbn. split_and!; try done.
    + intros j. apply Hheld.
    + intros T HT Hdis. rewrite Ha. split; [done|]. intros j Hj. apply Hdis. rewrite Hrefs, fupd_case in Hj.
      case_decide; [subst; specialize (Hheld i); lia|done].
    + intros j x _ _. by rewrite Hm.
    + exists i. split_and!; try done. intros j. rewrite Hrefs, fupd_case. case_decide; case_bool_decide; subst; try done; lia.
  - destruct Hr as [Hmax Hrefs]. cbn. rewrite Hrefs, Ha, Hm. split_and!; try done.
    + intros j. apply Hheld.
    + exists i. by rewrite Hrefs.
Qed.

(** ** Creating an object *)

(** What frame operations leave to everybody else: table pages stay allocated
    and apart from frames, and the bytes of live frames stay. *)
Record frames_only (m m' : machine) : Prop := {
  fo_wf : mach_wf m';
  fo_tables : ∀ T : gset Z, T ⊆ pa_used (m_alloc m) →
    (∀ i, m_refs m i ≠ 0 → phys_to_virt (frame_addr i) ∉ T) →
    T ⊆ pa_used (m_alloc m') ∧ (∀ i, m_refs m' i ≠ 0 → phys_to_virt (frame_addr i) ∉ T);
  fo_bytes : ∀ i x, m_refs m i ≠ 0 → frame_page i x → m_mem m' x = m_mem m x;
}.
Lemma frames_only_refl m : mach_wf m → frames_only m m.
Proof. done. Qed.
Lemma frames_only_alloc m0 m m' p i :
  frames_only m0 m → (∀ j, m_refs m0 j ≠ 0 → m_refs m j ≠ 0) → mach_wf m' →
  metadata p = Some i → m_refs m i = 0 → m_refs m' = fupd (m_refs m) i 1 → fresh_page m m' p →
  (∀ x, m_mem m' x = if decide (frame_page i x) then 0 else m_mem m x) → frames_only m0 m'.
Proof.
  intros [Hwf Ht Hb] Hge Hwf' Hp H0 Hrefs [Hnew Hused] Hmem. pose proof Hp as [Hvi ->]%metadata_Some.
  split; [done| |].
  - intros T HT Hdis. destruct (Ht T HT Hdis) as [HT' Hdis']. split; [rewrite Hused; set_solver|].
    intros j Hj. rewrite Hrefs, fupd_case in Hj. case_decide; [subst; set_solver|by apply Hdis'].
  - intros j x Hj Hx. rewrite Hmem, decide_False; [by eapply Hb|]. intros Hx'. apply Hge in Hj.
    destruct (wf_refs_used _ Hwf j Hj) as [Hvj _].
    pose proof (frame_page_disjoint j i x Hvj Hvi Hx Hx'). by subst.
Qed.

Definition counted (fs : list Frame) : Prop := ∀ f, f ∈ fs → is_Some (metadata (f_paddr f)).

Lemma drop_frames_spec {E} m0 fs m :
  frames_only m0 m → counted fs → (∀ i, frame_handles fs i ≤ m_refs m i) →
  wp (drop_frames (E:=E) fs) m (λ r m', r = Ok () ∧ frames_only m0 m' ∧ m_mem m' = m_mem m ∧
    ∀ i, m_refs m' i = m_refs m i - frame_handles fs i).
Proof.
  revert m. induction fs as [|[p] fs IH]; intros m Hfo Hc Hle; unfold drop_frames; cbn [for_each].
  { wp_step. split_and!; try done. intros i. unfold frame_handles. cbn. lia. }
  assert (∀ i, frame_handles (MkFrame p :: fs) i =
    (if decide (handle_of i (MkFrame p)) then 1 else 0) + frame_handles fs i) as Hcons.
  { intros i. rewrite <- frame_handles_one, <- frame_handles_app. done. }
  destruct (Hc (MkFrame p)) as [i Hi]; [left|]. cbn in Hi.
  assert (m_refs m i ≠ 0) as Hne.
  { specialize (Hle i). rewrite Hcons, decide_True in Hle by done.
    pose proof (frame_handles_nonneg fs i). lia. }
  wp_step. eapply wp_mono; [by apply (frame_drop_spec m p i); [apply Hfo|..]|].
  intros r m1 (-> & Hwf1 & (Hm1 & _) & Hrefs & Hused). pose proof Hi as [Hvi Hpi]%metadata_Some.
  assert (∀ j, m_refs m1 j = m_refs m j - if decide (handle_of j (MkFrame p)) then 1 else 0) as Hr1.
  { intros j. pose proof (handle_of_iff p i j Hi). rewrite Hrefs, fupd_case.
    repeat case_decide; subst; try tauto; lia. }
  eapply wp_mono; [apply (IH m1)|].
  - destruct Hfo as [_ Ht Hb]. split; [done| |].
    + intros T HT Hdis. destruct (Ht T HT Hdis) as [HT' Hdis']. split.
      * rewrite Hused, Hpi. pose proof (Hdis' i Hne). destruct (m_refs m i =? 1); set_solver.
      * intros j Hj. apply Hdis'. rewrite Hrefs, fupd_case in Hj. case_decide; [by subst|done].
    + intros j x Hj Hx. rewrite Hm1. by eapply Hb.
  - intros f Hf. apply Hc. by right.
  - intros j. rewrite Hr1. specialize (Hle j). rewrite Hcons in Hle. lia.
  - intros r m2 (-> & Hfo2 & Hm2 & Hr2). split_and!; try done; [congruence|].
    intros j. rewrite Hr2, Hr1, Hcons. lia.
Qed.

(** The frames of a new object: new, with one reference each, and zeroed. *)
Record collected (m0 m : machine) (fs : list Frame) : Prop := {
  co_only : frames_only m0 m;
  co_refs : ∀ i, m_refs m i = m_refs m0 i + frame_handles fs i;
  co_frames : ∀ f, f ∈ fs → ∃ i, metadata (f_paddr f) = Some i ∧ m_refs m0 i = 0 ∧ m_refs m i = 1 ∧
    ∀ x, frame_page i x → m_mem m x = 0;
}.
Lemma collected_counted m0 m fs : collected m0 m fs → counted fs.
Proof. intros [_ _ Hf] f Hin. destruct (Hf f Hin) as (i & Hi & _). eauto. Qed.
Lemma collected_snoc m0 m m' fs p i :
  mach_wf m0 → collected m0 m fs → mach_wf m' → metadata p = Some i → m_refs m i = 0 →
  m_refs m' = fupd (m_refs m) i 1 → fresh_page m m' p →
  (∀ x, m_mem m' x = if decide (frame_page i x) then 0 else m_mem m x) →
  collected m0 m' (fs ++ [MkFrame p]).
Proof.
  intros Hwf0 [Hfo Hrefs Hfr] Hwf' Hp H0 Hrefs' Hfresh Hmem. pose proof Hp as [Hvi Hpi]%metadata_Some.
  assert (m_refs m0 i = 0 ∧ frame_handles fs i = 0) as [H00 Hh0].
  { rewrite Hrefs in H0. pose proof (frame_handles_nonneg fs i). pose proof (wf_refs_range _ Hwf0 i). lia. }
  split.
  - eapply frames_only_alloc; try done. intros j Hj. rewrite Hrefs. pose proof (frame_handles_nonneg fs j).
    pose proof (wf_refs_range _ Hwf0 j). lia.
  - intros j. pose proof (handle_of_iff p i j Hp). pose proof (Hrefs j).
    rewrite frame_handles_app, frame_handles_one, Hrefs', fupd_case.
    repeat case_decide; subst; try tauto; lia.
  - intros f [Hf|Hf%list_elem_of_singleton]%elem_of_app; [|subst f].
    + destruct (Hfr f Hf) as (j & Hj & Hj0 & Hj1 & Hz). exists j.
      assert (j ≠ i) as Hne by (intros ->; lia). split_and!; try done.
      * by rewrite Hrefs', fupd_ne.
      * intros x Hx. rewrite Hmem, decide_False; [by apply Hz|]. intros Hx'.
        apply metadata_Some in Hj as [Hvj _]. by apply Hne, (frame_page_disjoint j i x).
    + exists i. cbn. split_and!; try done; [by rewrite Hrefs', fupd_eq|].
      intros x Hx. by rewrite Hmem, decide_True.
Qed.

Lemma collect_frames_spec n fs m0 m :
  mach_wf m0 → collected m0 m fs →
  wp (collect_frames n fs) m (λ r m',
    match r with
    | Ok (Some fs') => collected m0 m' fs' ∧ length fs' = (length fs + n)%nat
    | Ok None => frames_only m0 m' ∧ ∀ i, m_refs m' i = m_refs m0 i
    | _ => False
    end).
Proof.
  intros Hwf0. revert fs m. induction n as [|n IH]; intros fs m Hco; cbn [collect_frames].
  { wp_step. split; [done|lia]. }
  wp_step. eapply wp_mono; [apply frame_allocate_zeroed_spec, (co_only _ _ _ Hco)|].
  intros r m1 (Hwf1 & _ & Hr). destruct r as [[[p]|]|e|]; [| |done..].
  - destruct Hr as (i & Hi & H0 & Hrefs & Hfresh & Hmem). cbn in *.
    eapply wp_mono; [apply (IH (fs ++ [MkFrame p]) m1); by eapply collected_snoc|].
    intros [[fs'|]|e|] m2; try done. intros [? Hl]. split; [done|]. rewrite Hl, length_app. cbn. lia.
  - destruct Hr as (Hrefs & Hmem & Hused). wp_step.
    eapply wp_mono; [apply (drop_frames_spec m0 fs m1)|].
    + destruct Hco as [[Hwf Ht Hb] _ _]. split; [done| |].
      * intros T HT Hdis. rewrite Hused, Hrefs. by apply Ht.
      * intros i x Hi Hx. rewrite Hmem. by eapply Hb.
    + by eapply collected_counted.
    + intros i. rewrite Hrefs, (co_refs _ _ _ Hco). pose proof (wf_refs_range _ Hwf0 i). lia.
    + intros r m2 (-> & Hfo & _ & Hr2). wp_step. split; [done|]. intros i.
      rewrite Hr2, Hrefs, (co_refs _ _ _ Hco). lia.
Qed.

(** A new object owns as many zeroed pages as its size needs, and has a name no
    other object had; a failed creation leaves no reference behind. *)
Lemma shared_new_spec os m size :
  mach_wf m → 0 ≤ size →
  wp (shared_new size) (os, m) (λ r s, frames_only m s.2 ∧
    match r with
    | Ok o => size mod 4096 = 0 ∧ so_id o = next_object_id os ∧ next_object_id s.1 = next_object_id os + 1 ∧
        so_alive s.1 = o :: so_alive os ∧ shared_byte_len o = size ∧ shared_live s.1 o ∧
        collected m s.2 (so_frames o) ∧
        ∀ j, m_refs s.2 j - shared_held s.1 j = m_refs m j - shared_held os j
    | Err e => (e = InvalidInput ∨ e = NoMemory) ∧ s.1 = os ∧ ∀ j, m_refs s.2 j = m_refs m j
    | Panic => False
    end).
Proof.
  intros Hwf H0. unfold shared_new, is_multiple_of. cbn [page_bytes].
  destruct (Z.eqb_spec (size mod 4096) 0) as [Hmod|]; cbn [negb].
  2: { wp_step. split; [by apply frames_only_refl|]. split_and!; try done. by left. }
  assert (collected m m []) as Hco.
  { split; [by apply frames_only_refl|intros i; unfold frame_handles; cbn; lia|].
    intros f Hf. by apply elem_of_nil in Hf. }
  do 2 wp_step. cbn [snd fst].
  eapply wp_mono; [by apply (collect_frames_spec (Z.to_nat (size / 4096)) [] m m)|].
  intros r m1 Hr. destruct r as [[fs|]|e|]; [| |done..].
  2: { destruct Hr as [Hfo Hrefs]. wp_step. split; [done|]. split_and!; try done. by right. }
  destruct Hr as [Hco1 Hlen]. do 2 wp_step. cbn [fst snd]. unfold wp at 1, allocate_object_id.
  destruct (usize_checked_add (next_object_id os) 1) as [next|] eqn:Hn; cbn [fst snd].
  - do 3 wp_step. cbn [fst snd]. split; [apply Hco1|]. split_and!; try done.
    + revert Hn. unfold usize_checked_add. case_match; [|done]. by intros [= <-].
    + unfold shared_byte_len. cbn in *. rewrite Hlen. apply Z.mod_divide in Hmod as [q ->]; [|done].
      rewrite Z.div_mul by done. lia.
    + split; [left|by eapply collected_counted].
    + intros j. rewrite (co_refs _ _ _ Hco1). unfold shared_held, shared_frames. cbn.
      rewrite frame_handles_app. lia.
  - do 2 wp_step. cbn [fst snd]. eapply wp_mono; [apply (drop_frames_spec m fs m1); [apply Hco1|by eapply collected_counted|]|].
    { intros i. rewrite (co_refs _ _ _ Hco1). pose proof (wf_refs_range _ Hwf i). lia. }
    intros r m2 (-> & Hfo & _ & Hr2). wp_step. split; [done|]. split_and!; try done; [by right|].
    intros i. cbn. rewrite Hr2, (co_refs _ _ _ Hco1). lia.
Qed.
End shared.
