(* ===== verification/VmTheorems.v ===== *)
(** * What a virtual-memory space promises

    The operations of a [VmSpace] as one transition function, the spaces
    reachable through it, and their properties in terms of what can be
    observed: the layout seen by an address ([space_view]), the byte behind it
    ([user_byte]) and the access its page-table entry grants. *)
From S2P Require Import Prelude Errno MemAddr Frame PageTable AddressSpace AspaceInv AspaceTxn.
From S2P Require Import AspaceStatic BTree VmArea VmSpace VmOps VmLayout VmInv VmFault VmUnmap VmProtect VmMap.
From stdpp Require Import prelude gmap list.
Open Scope Z_scope.

Section exec.
Context {CFG : Config} {PA : PageAllocator} {BF : BitFlags} {MA : MemoryAddr} {PT : PageTable}.
Context {PF : PhysFits} {FT : Foreign} {VO : VmObject} {VL : VmObjectLaws} {BY : Bystanders}.
Implicit Types (a : VmArea) (l : list VmArea) (L : gmap Z leaf) (T : gset Z) (H : Z → Z).

(** ** Observations *)

Definition space_view (w : world) (x : Z) : option page_view :=
  view (bt_values (vs_areas (w_space w))) x.
Definition user_byte (w : world) (x : Z) : option Z :=
  match pt_query (as_table (vs_aspace (w_space w))) x with
  | Ok (p, flags, _) =>
      if contains flags ALLOC_FRAME then Some (m_mem (w_machine w) (phys_to_virt p)) else None
  | _ => None
  end.
Definition in_space (w : world) (x : Z) : Prop :=
  vr_start (vs_range (w_space w)) ≤ x < vr_end (vs_range (w_space w)).

Lemma space_view_inv w l L T H x : vm_inv w l L T H → space_view w x = view l x.
Proof. intros Hinv. unfold space_view. by rewrite (lo_values _ _ (vi_layout _ _ _ _ _ Hinv)). Qed.
Lemma in_space_valid w l L T H x : vm_inv w l L T H → in_space w x → vaddr_is_valid x = true.
Proof.
  intros Hinv Hx. apply (ai_valid _ _ _ _ (vi_as _ _ _ _ _ Hinv)). cbn.
  by rewrite (vi_range _ _ _ _ _ Hinv).
Qed.
Lemma user_byte_inv w l L T H x :
  vm_inv w l L T H → in_space w x →
  user_byte w x =
    match leaf_find L x with
    | Some (b, lf) => if is_alloc lf
        then Some (m_mem (w_machine w) (phys_to_virt (lf_paddr lf + (x - b)))) else None
    | None => None
    end.
Proof.
  intros Hinv Hx. unfold user_byte.
  pose proof (as_query_spec _ _ _ _ x (vi_as _ _ _ _ _ Hinv) (in_space_valid _ _ _ _ _ _ Hinv Hx)) as Hq.
  cbn [fst] in Hq. rewrite Hq. by destruct (leaf_find L x) as [[b lf]|].
Qed.
Lemma keeps_user_byte w l L T H w' l' L' T' H' x v :
  vm_inv w l L T H → vm_inv w' l' L' T' H' → vs_range (w_space w') = vs_range (w_space w) →
  keeps_bytes L (w_machine w) L' (w_machine w') → in_space w x →
  user_byte w x = Some v → user_byte w' x = Some v.
Proof.
  intros Hinv Hinv' Hr Hk Hx. assert (in_space w' x) as Hx' by (unfold in_space; by rewrite Hr).
  rewrite (user_byte_inv _ _ _ _ _ _ Hinv Hx), (user_byte_inv _ _ _ _ _ _ Hinv' Hx').
  destruct (leaf_find L x) as [[b lf]|] eqn:Hf; [|done]. destruct (is_alloc lf) eqn:Hal; [|done].
  destruct (Hk x b lf Hf Hal) as (lf' & -> & -> & ->). done.
Qed.

(** A translated address lies in the area of its leaf. *)
Lemma leaf_view w l L T H x b lf :
  vm_inv w l L T H → leaf_find L x = Some (b, lf) →
  ∃ a, leaf_ok l (m_refs (w_machine w)) b lf (area_view a b) ∧ view l x = Some (area_view a x).
Proof.
  intros Hinv Hf. pose proof (as_inv_wf _ _ _ _ (vi_as _ _ _ _ _ Hinv)) as Hwf. apply (leaf_find_Some Hwf) in Hf as [Hb Hxb].
  destruct (vi_leaves _ _ _ _ _ Hinv b lf Hb) as [v Hv].
  destruct (view_Some _ _ _ (lv_view _ _ _ _ _ Hv)) as (a & Ha & ->).
  destruct (leaf_in_area _ _ _ _ _ _ _ Hinv Hb) as (a' & Ha' & Hi' & Hend & _).
  pose proof (lo_ok _ _ (vi_layout _ _ _ _ _ Hinv)) as Hok.
  apply lookup_area_Some in Ha as [Hain Hi]; [|done].
  assert (a' = a) as -> by by eapply area_unique.
  exists a. split; [done|]. apply view_area, lookup_area_Some; [done|]. split; [done|]. unfold inside in *. lia.
Qed.
Lemma translation_ok w l L T H x p flags ps :
  vm_inv w l L T H → in_space w x → pt_query (as_table (vs_aspace (w_space w))) x = Ok (p, flags, ps) →
  ∃ b lf a, L !! b = Some lf ∧ b ≤ x < b + page_bytes (lf_size lf) ∧
    leaf_ok l (m_refs (w_machine w)) b lf (area_view a b) ∧ view l x = Some (area_view a x) ∧
    p = lf_paddr lf + (x - b) ∧ flags = lf_flags lf ∧ ps = lf_size lf.
Proof.
  intros Hinv Hx Hq.
  pose proof (as_query_spec _ _ _ _ x (vi_as _ _ _ _ _ Hinv) (in_space_valid _ _ _ _ _ _ Hinv Hx)) as Hs.
  cbn [fst] in Hs. rewrite Hs in Hq. destruct (leaf_find L x) as [[b lf]|] eqn:Hf; [|done].
  injection Hq as <- <- <-. destruct (leaf_view _ _ _ _ _ _ _ _ Hinv Hf) as (a & Hv & Hax).
  apply (leaf_find_Some (as_inv_wf _ _ _ _ (vi_as _ _ _ _ _ Hinv))) in Hf as [Hb Hxb]. exists b, lf, a. by split_and!; try lia.
Qed.
Lemma frame_of_byte p i k : metadata p = Some i → 0 ≤ k < 4096 → p + k - (p + k) mod 4096 = p.
Proof.
  intros [_ Hpa]%metadata_Some Hk.
  assert (p mod 4096 = 0) by (rewrite Hpa; unfold frame_addr; by rewrite Z.mul_comm, Z.mod_add, cfg_base_aligned).
  rewrite mod_add_aligned, Z.mod_small by (done || lia). lia.
Qed.

(** ** Operations and reachable spaces *)

Inductive vm_op :=
  | VmMap (start size flags : Z) (backend : Backend)
  | VmUnmap (start size : Z)
  | VmProtect (start size flags : Z)
  | VmPopulate (start size access : Z)
  | VmFault (address access : Z)
  | VmClear.

Definition vm_exec (o : vm_op) : prog world XError () :=
  match o with
  | VmMap start size flags backend => vm_map start size flags backend
  | VmUnmap start size => vm_unmap start size
  | VmProtect start size flags => vm_protect start size flags
  | VmPopulate start size access => populate_area start size access
  | VmFault address access => handle_page_fault address access;; mret ()
  | VmClear => unmap_user_areas
  end.
(** Arguments are machine words, and a backend comes from its constructors. *)
Definition vm_op_ok (w : world) (o : vm_op) : Prop :=
  match o with
  | VmMap start size _ backend => 0 ≤ start ∧ 0 ≤ size ∧ made (w_objects w) backend
  | VmUnmap start size | VmProtect start size _ | VmPopulate start size _ => 0 ≤ start ∧ 0 ≤ size
  | VmFault _ _ | VmClear => True
  end.

(** A machine and page sources a space can be created on. *)
Record ready (os : objects) (m : machine) : Prop := {
  rd_wf : mach_wf m;
  rd_held : ∀ i, 0 ≤ held os i ≤ m_refs m i;
}.
(** The spaces reachable from the page sources [os] and the machine [m]. *)
Inductive reachable_space (os : objects) (m : machine) : world → Prop :=
| space_new base size vs m' :
    ready os m → 0 ≤ base → 0 < size → (∀ x, base ≤ x < base + size → vaddr_is_valid x = true) →
    vm_new_empty base size m = (Ok vs, m') → reachable_space os m (World vs os m')
| space_step w o r w' :
    reachable_space os m w → vm_op_ok w o → vm_exec o w = (r, w') → r ≠ Panic →
    reachable_space os m w'.

Lemma vm_new_empty_spec base size os m :
  ready os m → (∀ i, 0 ≤ others i ≤ m_refs m i - held os i) → foreign_ok m ∅ ∅ (m_refs m) →
  (∀ o, bystander o → object_live os o) → 0 ≤ base → 0 < size → (∀ x, base ≤ x < base + size → vaddr_is_valid x = true) →
  wp (vm_new_empty base size) m (λ r m',
    match r with
    | Ok vs => ∃ T, vm_inv (World vs os m') [] ∅ T (m_refs m) ∧ vs_range vs = VRange base (base + size) ∧ m_mem m' = m_mem m
    | Err _ => m_refs m' = m_refs m ∧ m_mem m' = m_mem m ∧ pa_used (m_alloc m') = pa_used (m_alloc m)
    | Panic => False
    end).
Proof.
  intros [Hwf Hheld] Hoth Hfo Hby H0 H1 Hv. unfold vm_new_empty. do 2 wp_step.
  rewrite vr_try_from_start_size_spec by lia.
  destruct (Z.leb_spec (base + size) usize_max); cbn [ok_or]; [|done].
  wp_step. eapply wp_mono.
  { apply new_user_spec; try done. intros i. specialize (Hoth i). specialize (Hheld i). lia. }
  intros r m' (Hrefs & Hm & Hr). destruct r as [aspace|e|]; [| |done].
  - destruct Hr as (Hrange & T & _ & _ & Has). wp_step. exists T. split; [|done]. split; cbn; try done.
    + split; cbn; [done|apply areas_ok_nil|intros a Ha; by apply elem_of_nil in Ha|].
      unfold vr_usize. cbn. lia.
    + intros i. specialize (Hoth i). specialize (Hheld i). lia.
    + intros a o off Ha. by apply elem_of_nil in Ha.
  - destruct Hr as [Hu _]. done.
Qed.

(** ** The abstract space

    A space promises a map from addresses to what backs them; an operation
    that fails leaves the map alone. *)

Definition in_range (start size x : Z) : Prop := start ≤ x < start + size.
#[export] Instance in_range_dec start size x : Decision (in_range start size x) := _.

Definition spec_map (start size flags : Z) (b : Backend) (v : Z → option page_view) (x : Z) :
    option page_view :=
  if decide (in_range start size x)
  then Some (PageView flags (be_page_size b) (private (be_backing b))
         (source_view (source (be_backing b)) (x - start)))
  else v x.
Definition spec_unmap (start size : Z) (v : Z → option page_view) (x : Z) : option page_view :=
  if decide (in_range start size x) then None else v x.
Definition spec_protect (start size flags : Z) (v : Z → option page_view) (x : Z) : option page_view :=
  if decide (in_range start size x)
  then (λ p, PageView flags (pv_page_size p) (pv_private p) (pv_source p)) <$> v x else v x.

Definition spec_step (o : vm_op) (ok : bool) (v v' : Z → option page_view) : Prop :=
  match o, ok with
  | VmMap start size flags b, true =>
      (∀ x, in_range start size x → v x = None) ∧ ∀ x, v' x = spec_map start size flags b v x
  | VmUnmap start size, true => ∀ x, v' x = spec_unmap start size v x
  | VmProtect start size flags, true =>
      (∀ x, in_range start size x → is_Some (v x)) ∧ ∀ x, v' x = spec_protect start size flags v x
  | VmClear, true => ∀ x, v' x = None
  | _, _ => ∀ x, v' x = v x
  end.

Definition is_ok {E A} (r : outcome E A) : bool := match r with Ok _ => true | _ => false end.
(** The addresses whose pages an operation is meant to take away. *)
Definition taken (o : vm_op) (x : Z) : Prop :=
  match o with VmUnmap start size => in_range start size x | VmClear => True | _ => False end.

(** One operation: the invariant, the layout, the bytes and the frame handles. *)
Record op_post (w : world) l L H (o : vm_op) (ok : bool) (w' : world) l' L' T' H' : Prop := {
  op_inv : vm_inv w' l' L' T' H';
  op_range : vs_range (w_space w') = vs_range (w_space w);
  op_spec : spec_step o ok (view l) (view l');
  op_bytes : ∀ x v, in_space w x → ¬ taken o x → user_byte w x = Some v → user_byte w' x = Some v;
  op_handles : ∀ j, H' j - held (w_objects w') j = H j - held (w_objects w) j;
}.

Lemma op_post_advances w l L T H w' L' T' H' o ok :
  vm_inv w l L T H → advances w l L H w' L' T' H' → spec_step o ok (view l) (view l) →
  op_post w l L H o ok w' l L' T' H'.
Proof.
  intros Hinv [[Ha Hr] Hinv' Hbal Hk] Hs. split; try done.
  intros x v Hx _. by eapply keeps_user_byte.
Qed.

Lemma exec_map w l L T H start size flags b :
  vm_inv w l L T H → vm_op_ok w (VmMap start size flags b) →
  wp (vm_map start size flags b) w (λ r w', r = Panic ∧ saturated (w_machine w') ∨
    r ≠ Panic ∧ ∃ l' L' T' H', op_post w l L H (VmMap start size flags b) (is_ok r) w' l' L' T' H').
Proof.
  intros Hinv (H0 & H1 & Hb). eapply wp_mono; [by apply (vm_map_spec w l L T H)|].
  intros [[]|e|] w' Hp; [right; split; [done|]|right; split; [done|]|by left].
  - destruct Hp as (Hap & Hr & l' & L' & T' & H' & Hinv' & Hv & Hbal & Hk & _).
    exists l', L', T', H'. split; try done.
    + split; cbn.
      * intros x Hx. unfold view. destruct (lookup_area l x) as [c|] eqn:Hc; [|done]. exfalso.
        apply lookup_area_Some in Hc as [Hc Hi]; [|apply Hinv].
        unfold in_range, inside in *. destruct (Hap c Hc); cbn in *; lia.
      * intros x. rewrite Hv. unfold spec_map, in_range, inside. cbn. done.
    + intros x v Hx _. by eapply keeps_user_byte.
  - destruct Hp as (L' & T' & H' & Hadv). exists l, L', T', H'. by eapply op_post_advances.
Qed.

Lemma exec_unmap w l L T H start size :
  vm_inv w l L T H → vm_op_ok w (VmUnmap start size) →
  wp (vm_unmap start size) w (λ r w', r ≠ Panic ∧
    ∃ l' L' T' H', op_post w l L H (VmUnmap start size) (is_ok r) w' l' L' T' H').
Proof.
  intros Hinv (H0 & H1). eapply wp_mono; [by apply (vm_unmap_spec w l L T H)|].
  intros [[]|e|] w' Hp; [| |done]; (split; [done|]).
  - destruct Hp as ([(_ & Hst & Hsz & _) _] & Ho & Hm & _ & Hr & l' & Hinv' & Hv).
    exists l', (outside start (start + size) L), T, H. split; try done; [|by rewrite Ho].
    intros x v Hx Hnt. assert (in_space w' x) as Hx' by (unfold in_space; by rewrite Hr).
    rewrite (user_byte_inv _ _ _ _ _ _ Hinv Hx), (user_byte_inv _ _ _ _ _ _ Hinv' Hx').
    destruct (leaf_find L x) as [[b lf]|] eqn:Hf; [|done].
    destruct (is_alloc lf) eqn:Hal; [|done]. pose proof (as_inv_wf _ _ _ _ (vi_as _ _ _ _ _ Hinv)) as Hwf.
    apply (leaf_find_Some Hwf) in Hf as [Hb Hxb].
    assert (leaf_find (outside start (start + size) L) x = Some (b, lf)) as ->; [|by rewrite Hal, Hm].
    apply (leaf_find_Some (as_inv_wf _ _ _ _ (vi_as _ _ _ _ _ Hinv'))). split; [|done].
    apply map_lookup_filter_Some. split; [done|]. cbn. intros Hb'. apply Hnt.
    destruct (ai_alloc _ _ _ _ (vi_as _ _ _ _ _ Hinv) b lf Hb Hal) as [Hs _].
    destruct (lw_base _ _ _ Hwf _ _ Hb) as (Hbal & _). rewrite Hs in Hxb, Hbal.
    change (page_bytes Size4K) with 4096 in *.
    pose proof (aligned_lt_step b (start + size) 4096 eq_refl Hbal
      ltac:(rewrite mod_add_aligned by done; done) ltac:(lia)). unfold taken, in_range. lia.
  - destruct Hp as (_ & _ & ->). exists l, L, T, H. by split.
Qed.

Lemma exec_protect w l L T H start size flags :
  vm_inv w l L T H → vm_op_ok w (VmProtect start size flags) →
  wp (vm_protect start size flags) w (λ r w', r ≠ Panic ∧
    ∃ l' L' T' H', op_post w l L H (VmProtect start size flags) (is_ok r) w' l' L' T' H').
Proof.
  intros Hinv (H0 & H1). eapply wp_mono; [by apply (vm_protect_spec w l L T H)|].
  intros r w' (Ho & Hm & Hrefs & Hr & Hp). destruct r as [[]|e|]; [| |done]; (split; [done|]).
  - destruct Hp as ([_ Hmapped] & _ & l' & L' & Hinv' & Hv & _ & Hk).
    exists l', L', T, H. split; try done; [|by rewrite Ho].
    intros x v Hx _. by eapply keeps_user_byte.
  - destruct Hp as (_ & _ & Hinv' & _). exists l, L, T, H. split; try done; [|by rewrite Ho].
    intros x v Hx _. eapply keeps_user_byte; try done. by apply keeps_bytes_refl.
Qed.

Lemma exec_populate w l L T H start size access :
  vm_inv w l L T H → vm_op_ok w (VmPopulate start size access) →
  wp (populate_area start size access) w (λ r w', r = Panic ∧ saturated (w_machine w') ∨
    r ≠ Panic ∧ ∃ l' L' T' H', op_post w l L H (VmPopulate start size access) (is_ok r) w' l' L' T' H').
Proof.
  intros Hinv (H0 & H1). eapply wp_mono; [by apply (populate_area_spec w l L T H)|].
  intros r w' [?|[Hnp (L' & T' & H' & Hadv & _)]]; [by left|]. right. split; [done|]. exists l, L', T', H'.
  eapply op_post_advances; [done..|]. by destruct r.
Qed.

Lemma exec_fault w l L T H address access :
  vm_inv w l L T H →
  wp (handle_page_fault address access;; mret ()) w (λ r w', r = Panic ∧ saturated (w_machine w') ∨
    r ≠ Panic ∧ ∃ l' L' T' H', op_post w l L H (VmFault address access) (is_ok r) w' l' L' T' H').
Proof.
  intros Hinv. wp_step. eapply wp_mono; [by apply (handle_page_fault_spec w l L T H)|].
  intros r w'. assert (r = Ok Segv ∧ w' = w → wp (mret ()) w' (λ r w', r = Panic ∧ saturated (w_machine w') ∨
    r ≠ Panic ∧ ∃ l' L' T' H', op_post w l L H (VmFault address access) (is_ok (E := XError) r) w' l' L' T' H')) as Hsame.
  { intros [_ ->]. wp_step. right. split; [done|]. exists l, L, T, H. by split. }
  destruct (lookup_area l address) as [a|]; [|intros [-> ->]; by apply Hsame].
  destruct (contains (a_flags a) access); [|intros [-> ->]; by apply Hsame].
  intros [[-> Hsat]|[Hl (res & L' & T' & H' & -> & Hinv' & Hbal & Hk & _)]]; [by left|].
  wp_step. right. split; [done|]. exists l, L', T', H'. by eapply op_post_advances.
Qed.

Lemma exec_clear w l L T H :
  vm_inv w l L T H →
  wp unmap_user_areas w (λ r w', r = Ok () ∧
    ∃ l' L' T' H', op_post w l L H VmClear (is_ok r) w' l' L' T' H').
Proof.
  intros Hinv. eapply wp_mono; [by apply (unmap_user_areas_spec w l L T H)|].
  intros r w' (-> & Ho & Hm & _ & Hr & Hinv'). split; [done|]. exists [], ∅, T, H.
  split; try done. by rewrite Ho.
Qed.

(** Every operation keeps the invariant and follows the abstract step. *)
Lemma vm_exec_spec w l L T H o :
  vm_inv w l L T H → vm_op_ok w o →
  wp (vm_exec o) w (λ r w', r = Panic ∧ saturated (w_machine w') ∨
    r ≠ Panic ∧ ∃ l' L' T' H', op_post w l L H o (is_ok r) w' l' L' T' H').
Proof.
  intros Hinv Hok. destruct o; cbn [vm_exec].
  - by eapply exec_map.
  - eapply wp_mono; [by eapply exec_unmap|]. intros r w' ?. by right.
  - eapply wp_mono; [by eapply exec_protect|]. intros r w' ?. by right.
  - by eapply exec_populate.
  - by eapply exec_fault.
  - eapply wp_mono; [by eapply exec_clear|]. intros r w' [-> ?]. by right.
Qed.

Lemma exec_inv w l L T H o r w' :
  vm_inv w l L T H → vm_op_ok w o → vm_exec o w = (r, w') →
  r = Panic ∧ saturated (w_machine w') ∨
  r ≠ Panic ∧ ∃ l' L' T' H', op_post w l L H o (is_ok r) w' l' L' T' H'.
Proof.
  intros Hinv Hok Hex. pose proof (vm_exec_spec w l L T H o Hinv Hok) as Hs. unfold wp in Hs.
  by rewrite Hex in Hs.
Qed.

End exec.

Section theorems.
Context {CFG : Config} {PA : PageAllocator} {BF : BitFlags} {MA : MemoryAddr} {PT : PageTable}.
Context {PF : PhysFits} {VO : VmObject} {VL : VmObjectLaws}.
Implicit Types (a : VmArea) (l : list VmArea) (L : gmap Z leaf) (T : gset Z) (H : Z → Z).

(** One space, and nothing else that uses the machine *)
#[local] Instance alone : Foreign :=
  {| foreign := ∅; others := λ _, 0; exclusive := λ _, False; image := λ _, 0 |}.
#[local] Instance nobody : Bystanders := λ _, False.
Lemma alone_ok m H : foreign_ok m ∅ ∅ H.
Proof. split; try done. Qed.

Lemma reachable_vm_inv os m w :
  reachable_space os m w → ∃ l L T H, vm_inv w l L T H ∧
    (∀ j, H j - held (w_objects w) j = m_refs m j - held os j) ∧ vr_nonempty (vs_range (w_space w)).
Proof.
  induction 1 as [base size vs m' Hr H0 H1 Hv Hnew|w o r w' _ (l & L & T & H & Hinv & Hbal & Hne) Hok Hex Hnp].
  - pose proof (vm_new_empty_spec base size os m Hr) as Hs.
    specialize (Hs ltac:(intros i; cbn; pose proof (rd_held _ _ Hr i); lia) (alone_ok _ _) ltac:(done) H0 H1 Hv). unfold wp in Hs. rewrite Hnew in Hs.
    destruct Hs as (T & Hinv & Hrange & _). exists [], ∅, T, (m_refs m). split; [done|]. split; [done|].
    unfold vr_nonempty. cbn in *. rewrite Hrange. cbn. lia.
  - destruct (exec_inv w l L T H o r w' Hinv Hok Hex) as [[? _]|[_ (l' & L' & T' & H' & [Hinv' Hr _ _ Hh])]];
      [done|]. exists l', L', T', H'.
    split; [done|]. split; [intros j; by rewrite Hh|by rewrite Hr].
Qed.

(** ** Properties *)

(** C3: a virtual-memory space refines a map from addresses to what backs
    them. Starting from a new space and after any operations, each operation
    that succeeds changes that map exactly as its specification says (mapping
    defines a free range, unmapping clears it, protection changes the flags of
    a fully mapped range, faults change nothing), and one that fails leaves it
    as it was. Splitting and merging areas is invisible. *)
Theorem vm_space_refines os m w o r w' :
  reachable_space os m w → vm_op_ok w o → vm_exec o w = (r, w') → r ≠ Panic →
  spec_step o (is_ok r) (space_view w) (space_view w').
Proof.
  intros (l & L & T & H & Hinv & _)%reachable_vm_inv Hok Hex Hnp.
  destruct (exec_inv w l L T H o r w' Hinv Hok Hex) as [[? _]|[_ (l' & L' & T' & H' & [Hinv' _ Hspec _ _])]];
    [done|].
  unfold space_view. rewrite (lo_values _ _ (vi_layout _ _ _ _ _ Hinv)),
    (lo_values _ _ (vi_layout _ _ _ _ _ Hinv')). done.
Qed.

(** C10: in every reachable space the page tables agree with the layout: a
    translated address lies in an area, its page has the area's page size and
    grants no right the area does not grant, and a writable page of a private
    area is referenced by nothing but its own entry (copy-on-write). *)
Theorem vm_tables_agree os m w x p flags ps :
  reachable_space os m w → in_space w x →
  pt_query (as_table (vs_aspace (w_space w))) x = Ok (p, flags, ps) →
  ∃ v, space_view w x = Some v ∧ ps = pv_page_size v ∧
    (∀ k, k ∈ right_bits → contains flags k = true → contains (pv_flags v) k = true) ∧
    (pv_private v = true → contains flags WRITE = true →
     ∃ i, metadata (p - p mod 4096) = Some i ∧ m_refs (w_machine w) i = 1).
Proof.
  intros (l & L & T & H & Hinv & _)%reachable_vm_inv Hx Hq.
  destruct (translation_ok _ _ _ _ _ _ _ _ _ Hinv Hx Hq) as (b & lf & a & Hb & Hxb & Hv & Hax & -> & -> & ->).
  exists (area_view a x). rewrite (space_view_inv _ _ _ _ _ _ Hinv). split; [done|].
  split; [apply (lv_size _ _ _ _ _ Hv)|]. split; [apply (lv_rights _ _ _ _ _ Hv)|].
  intros Hp Hw. pose proof (private_alloc _ _ _ _ _ _ _ _ Hinv Hv Hp) as Hal.
  destruct (alloc_index _ _ _ _ _ _ (vi_as _ _ _ _ _ Hinv) Hb Hal) as (i & Hi0 & Hsz). exists i.
  rewrite Hsz in Hxb. cbn in Hxb. rewrite (frame_of_byte _ i) by (done || lia).
  split; [done|]. by apply (lv_cow _ _ _ _ _ Hv).
Qed.

(** C16: no operation loses or changes a byte that a process has in memory,
    except where it asks for the page to be taken away: after mapping,
    protection, page faults (copy-on-write included) and population every
    resident byte reads as before, and after unmapping so does every byte
    outside the range, whether or not the operation succeeds. *)
Theorem vm_bytes_stable os m w o r w' x v :
  reachable_space os m w → vm_op_ok w o → vm_exec o w = (r, w') → r ≠ Panic →
  in_space w x → ¬ taken o x → user_byte w x = Some v → user_byte w' x = Some v.
Proof.
  intros (l & L & T & H & Hinv & _)%reachable_vm_inv Hok Hex Hnp.
  destruct (exec_inv w l L T H o r w' Hinv Hok Hex) as [[? _]|[_ (l' & L' & T' & H' & [_ _ _ Hb _])]];
    [done|]. apply Hb.
Qed.

(** C24: the operations of a space panic only when the reference count of a
    frame has reached its maximum: none of the assertions and [expect]s of the
    memory managers can fire otherwise. *)
Theorem vm_no_panic os m w o :
  reachable_space os m w → vm_op_ok w o → ¬ saturated (w_machine (vm_exec o w).2) →
  (vm_exec o w).1 ≠ Panic.
Proof.
  intros (l & L & T & H & Hinv & _)%reachable_vm_inv Hok Hns. destruct (vm_exec o w) as [r w'] eqn:Hex.
  destruct (exec_inv w l L T H o r w' Hinv Hok Hex) as [[_ ?]|[? _]]; done.
Qed.

(** C23: a page fault that is reported resolved has made the page resident. The
    page has the access that faulted, which is to read, write or execute, except
    when it is a store to a page of an area whose page source requires write
    guards: there the page has the rest of the access, and the store may fault
    again. *)
Theorem fault_grants_access os m w x access w' a :
  reachable_space os m w → area_at (w_space w) x = Some a →
  handle_page_fault x access w = (Ok Resolved, w') →
  ∃ flags, mapping_flags (vs_aspace (w_space w')) (align_down x (page_bytes (a_page_size a))) = Some flags ∧
    (usable access → ¬ (requires_write_guard (a_backing a) = true ∧ contains access WRITE = true) →
     contains flags access = true) ∧
    (usable (access |-| WRITE) → contains flags (access |-| WRITE) = true).
Proof.
  intros (l & L & T & H & Hinv & _)%reachable_vm_inv Ha Hf.
  rewrite (area_at_spec _ l) in Ha by apply Hinv.
  pose proof (handle_page_fault_spec w l L T H x access Hinv) as Hs. unfold wp in Hs. rewrite Hf, Ha in Hs.
  cbn [fst snd] in Hs. destruct (contains (a_flags a) access); [|by destruct Hs].
  destruct Hs as [[? _]|[_ (res & L' & T' & H' & [= <-] & Hinv' & _ & _ & Hres)]]; [done|].
  destruct (Hres eq_refl) as (lf & Hlf & Hc1 & Hc2). exists (lf_flags lf).
  destruct (page_of_spec w' l L' T' H' a x Hinv' Ha) as (_ & _ & Hq & _). cbn zeta in Hq.
  by rewrite Hq, Hlf.
Qed.

(** A fault on a page that is not resident. *)
Lemma first_touch w x access a :
  area_at (w_space w) x = Some a →
  mapping_flags (vs_aspace (w_space w)) (align_down x (page_bytes (a_page_size a))) = None →
  handle_page_fault x access w =
    if contains (a_flags a) access
    then resolve_fault (a_backing a) a (align_down x (page_bytes (a_page_size a))) access w
    else (Ok Segv, w).
Proof.
  intros Ha Hm. unfold handle_page_fault, mbind, prog_bind, gets. rewrite Ha.
  destruct (contains (a_flags a) access); cbn [negb]; [|done]. by rewrite Hm.
Qed.

(** C25: the first touch of a page of anonymous memory, when it is resolved,
    makes the whole page readable as zeros. *)
Theorem anonymous_zero_fill os m w x access w' a y :
  reachable_space os m w → area_at (w_space w) x = Some a → source (a_backing a) = SrcZero →
  user_byte w x = None → handle_page_fault x access w = (Ok Resolved, w') →
  x - x mod 4096 ≤ y < x - x mod 4096 + 4096 → user_byte w' y = Some 0.
Proof.
  intros (l & L & T & H & Hinv & _)%reachable_vm_inv Ha Hsrc Hnone Hf Hy.
  pose proof (vi_layout _ _ _ _ _ Hinv) as Hl. rewrite (area_at_spec _ l) in Ha by done.
  destruct (page_facts _ _ _ _ _ _ _ Hinv Ha) as (Hin & Hi & H0 & _).
  pose proof (areas_ok_elem _ _ (lo_ok _ _ Hl) Hin) as Hok. pose proof (ao_source _ Hok) as Hs.
  rewrite Hsrc in Hs. destruct Hs as [_ Hps].
  destruct (page_of_spec w l L T H a x Hinv Ha) as (Hap & Hmod & Hq & Hrange). cbn zeta in *.
  rewrite Hps, align_down_spec in * by done. change (page_bytes Size4K) with 4096 in *.
  set (page := x - x mod 4096) in *.
  assert (in_space w x ∧ in_space w y) as [Hxs Hys].
  { destruct (lo_inside _ _ Hl a Hin). unfold in_space, inside in *. pose proof (ao_end _ Hok) as He.
    rewrite Hps in He. change (page_bytes Size4K) with 4096 in He.
    destruct (page_facts _ _ _ _ _ _ _ Hinv Hap) as (_ & Hip & _). unfold inside in Hip.
    pose proof (aligned_lt_step page _ 4096 eq_refl Hmod He). lia. }
  assert (∀ w' L' T' H' lf, vm_inv w' l L' T' H' → L' !! page = Some lf → is_alloc lf = true ∧
    ∀ z, page ≤ z < page + 4096 → leaf_find L' z = Some (page, lf)) as Hleaf.
  { intros w1 L' T' H' lf Hinv' Hlf.
    destruct (leaf_in_area _ _ _ _ _ _ _ Hinv' Hlf) as (a' & Ha' & Hi' & _ & Hsz & Hk).
    destruct (page_facts _ _ _ _ _ _ _ Hinv Hap) as (_ & Hip & _).
    assert (a' = a) as -> by (eapply area_unique; [apply Hl|done..]).
    unfold area_kind in Hk. rewrite Hsrc in Hk. split; [by apply kind_alloc|]. intros z Hz.
    apply (leaf_find_Some (as_inv_wf _ _ _ _ (vi_as _ _ _ _ _ Hinv'))). split; [done|]. by rewrite Hsz, Hps. }
  assert (L !! page = None) as HL.
  { destruct (L !! page) as [lf|] eqn:Hlf; [|done]. destruct (Hleaf w L T H lf Hinv Hlf) as [Hal Hfind].
    rewrite (user_byte_inv _ _ _ _ _ _ Hinv Hxs), (Hfind x), Hal in Hnone by lia. done. }
  rewrite (first_touch w x access a) in Hf; [|by rewrite (area_at_spec _ l)|].
  2: { rewrite Hps, align_down_spec by done. change (page_bytes Size4K) with 4096. fold page. by rewrite Hq, HL. }
  destruct (contains (a_flags a) access) eqn:Hacc; [|done].
  rewrite Hps, align_down_spec in Hf by done. change (page_bytes Size4K) with 4096 in Hf. fold page in Hf.
  pose proof (zero_fault_spec w l L T H a page access Hinv Hap Hsrc Hacc) as Hz. unfold wp in Hz.
  rewrite Hf in Hz. destruct Hz as [Hpost Hz]. destruct (Hz eq_refl) as (lf & i & L' & T' & H' & Hinv' & Hlf & _ & Hi' & Hzero).
  destruct (Hleaf _ _ _ _ lf Hinv' Hlf) as [Hal Hfind]. cbn [fst snd] in *.
  assert (in_space w' y) as Hys'.
  { destruct Hpost as [[? _]|[[_ Hr] _]]; [done|]. unfold in_space in *. cbn in Hr. by rewrite Hr. }
  rewrite (user_byte_inv _ _ _ _ _ _ Hinv' Hys'), (Hfind y), Hal by done. f_equal. apply Hzero.
  apply (frame_byte (lf_paddr lf) i (y - page)); [done|lia].
Qed.

(** C26: unmapping a range is all or nothing. It is refused, with nothing
    changed, exactly when the range is empty, misaligned, outside the space or
    would cut a page of a larger size; otherwise it succeeds. *)
Theorem unmap_all_or_nothing os m w start size :
  reachable_space os m w → 0 ≤ start → 0 ≤ size →
  let ok := range_valid (w_space w) start size Size4K ∧
    ∀ a, a ∈ bt_values (vs_areas (w_space w)) → meets a (VRange start (start + size)) →
      splits a (VRange start (start + size)) in
  (ok → ∃ w', vm_unmap start size w = (Ok (), w')) ∧
  (¬ ok → vm_unmap start size w = (Err InvalidInput, w)).
Proof.
  intros (l & L & T & H & Hinv & _)%reachable_vm_inv H0 H1. cbn zeta.
  rewrite (lo_values _ _ (vi_layout _ _ _ _ _ Hinv)).
  pose proof (vm_unmap_spec w l L T H start size Hinv H0 H1) as Hs. unfold wp in Hs. fold (unmappable w l start size).
  destruct (vm_unmap start size w) as [[[]|e|] w']; cbn [fst snd] in Hs; [| |done].
  - destruct Hs as [Hok _]. split; [eauto|done].
  - destruct Hs as (Hno & -> & ->). split; [done|]. done.
Qed.

(** C27: [check_region_access] answers, for every range, whether each address of
    it lies in an area that grants the access. Its loop ends within one round
    per area. *)
Theorem check_region_access_exact os m w r access :
  reachable_space os m w →
  ∃ b, check_region_access (w_space w) r access = Ok b ∧
    (b = true ↔ ∀ x, vr_start r ≤ x < vr_end r →
       ∃ v, space_view w x = Some v ∧ contains (pv_flags v) access = true).
Proof.
  intros (l & L & T & H & Hinv & _)%reachable_vm_inv.
  destruct (check_region_access_spec _ l access r (vi_layout _ _ _ _ _ Hinv)) as (b & Hb & Hiff).
  exists b. split; [done|]. rewrite Hiff. unfold granted, space_view.
  by rewrite (lo_values _ _ (vi_layout _ _ _ _ _ Hinv)).
Qed.

(** [y, y + size) fits between the bounds and over no area. *)
Definition free_place (w : world) (size : Z) (limit : vrange) (ps : PageSize) (y : Z) : Prop :=
  y mod page_bytes ps = 0 ∧ vr_start limit ≤ y ∧ y + size ≤ vr_end limit ∧
  vr_start (vs_range (w_space w)) ≤ y ∧ y + size ≤ vr_end (vs_range (w_space w)) ∧
  ∀ x, in_range y size x → space_view w x = None.

Lemma free_view l y size :
  0 < size → areas_ok l →
  (∀ x, in_range y size x → view l x = None) ↔ ∀ a, a ∈ l → ¬ meets a (VRange y (y + size)).
Proof.
  intros Hsz Hok. split.
  - intros Hv a Ha [Hm1 Hm2]. cbn in *. pose proof (ao_nonempty a (areas_ok_elem _ _ Hok Ha)).
    set (x := Z.max (vr_start (a_range a)) y).
    specialize (Hv x ltac:(unfold in_range, x; lia)). unfold view in Hv.
    assert (lookup_area l x = Some a) as Hx; [|by rewrite Hx in Hv].
    apply lookup_area_Some; [done|]. split; [done|]. unfold inside, x. lia.
  - intros Hno x Hx. unfold view. destruct (lookup_area l x) as [a|] eqn:Ha; [|done]. exfalso.
    apply lookup_area_Some in Ha as [Ha Hi]; [|done]. apply (Hno a Ha).
    unfold meets, inside, in_range in *. cbn. lia.
Qed.

(** C28: [find_free_area] returns the lowest aligned free place at or above the
    hint within the limit, and nothing exactly when there is none. The sums it
    forms unchecked must not overflow: the hint and the end of the space stay a
    page below the largest address. *)
Theorem find_free_area_least os m w hint size limit ps :
  reachable_space os m w → 0 < size → size mod page_bytes ps = 0 →
  0 ≤ hint → hint + page_bytes ps - 1 ≤ usize_max →
  vr_end (vs_range (w_space w)) + page_bytes ps - 1 ≤ usize_max →
  ∃ r, find_free_area (w_space w) hint size limit ps = Ok r ∧
    match r with
    | Some y => hint ≤ y ∧ free_place w size limit ps y ∧
        ∀ z, hint ≤ z → free_place w size limit ps z → y ≤ z
    | None => ∀ z, hint ≤ z → ¬ free_place w size limit ps z
    end.
Proof.
  intros (l & L & T & H & Hinv & _)%reachable_vm_inv Hsz Hmod Hh Hhmax Hmax.
  pose proof (vi_layout _ _ _ _ _ Hinv) as Hl. destruct (lo_usize _ _ Hl) as [Hlo Hhi].
  unfold find_free_area, is_multiple_of. rewrite (proj2 (Z.eqb_neq size 0)), Hmod by lia. cbn [Z.eqb negb orb].
  set (lo := Z.max (vr_start limit) (vr_start (vs_range (w_space w)))).
  set (hi := Z.min (vr_end limit) (vr_end (vs_range (w_space w)))).
  assert (∀ z, free_place w size limit ps z ↔ z mod page_bytes ps = 0 ∧ lo ≤ z ∧ free_at l size hi z) as Hfp.
  { intros z. pose proof (free_view l z size Hsz (lo_ok _ _ Hl)) as Hfv. unfold free_place, free_at, space_view.
    rewrite (lo_values _ _ Hl), Hfv. unfold lo, hi. intuition lia. }
  destruct (Z.leb_spec hi lo).
  { exists None. split; [done|]. intros z _ (_ & Hz & Hz' & _)%Hfp. lia. }
  rewrite vr_new_spec, (proj2 (Z.leb_le _ _)) by lia. cbn [expect mbind outcome_bind vr_start].
  eexists. split; [done|]. rewrite (lo_values _ _ Hl).
  pose proof (page_bytes_pos ps).
  assert (∀ z, align_up (Z.max hint lo) (page_bytes ps) mod page_bytes ps = 0 ∧
    Z.max hint lo ≤ align_up (Z.max hint lo) (page_bytes ps) ∧
    (z mod page_bytes ps = 0 → Z.max hint lo ≤ z → align_up (Z.max hint lo) (page_bytes ps) ≤ z)) as Hup.
  { intros z. apply align_up_least; lia. }
  set (c := align_up (Z.max hint lo) (page_bytes ps)) in *. destruct (Hup 0) as (Hc1 & Hc2 & _).
  pose proof (find_free_spec l size (VRange lo hi) ps c (lo_ok _ _ Hl) Hsz) as Hff. cbn [vr_end] in Hff.
  specialize (Hff ltac:(lia) Hc1 ltac:(lia)).
  destruct (find_free l size (VRange lo hi) ps c) as [y|].
  - destruct Hff as (Hy1 & Hy2 & Hy3 & Hleast).
    { intros a Ha. destruct (lo_inside _ _ Hl a Ha). lia. }
    split; [lia|]. split; [apply Hfp; split_and!; try done; lia|].
    intros z Hz (Hz1 & Hz2 & Hz3)%Hfp. apply Hleast; [apply Hup; [done|lia]|done..].
  - intros z Hz (Hz1 & Hz2 & Hz3)%Hfp. revert Hz3. apply Hff; [|apply Hup; [done|lia]|done].
    intros a Ha. destruct (lo_inside _ _ Hl a Ha). lia.
Qed.
End theorems.
