(* ===== verification/VmBytes.v ===== *)
(** * Writing into a space (space.rs, [write_bytes])

    The kernel's stores into the private memory of a space: what is written is
    what the process reads, and nothing else that it can read changes. *)
From S2P Require Import Prelude Errno MemAddr Frame PageTable AddressSpace AspaceInv AspaceBytes.
From S2P Require Import BTree VmArea VmSpace VmOps VmLayout VmInv VmFault VmUnmap VmProtect VmMap VmTheorems.
From stdpp Require Import prelude gmap list.
Open Scope Z_scope.

Section bytes.
Context {CFG : Config} {PA : PageAllocator} {BF : BitFlags} {MA : MemoryAddr} {PT : PageTable}.
Context {PF : PhysFits} {FT : Foreign} {VO : VmObject} {VL : VmObjectLaws} {BY : Bystanders}.
Implicit Types (l : list VmArea) (L : gmap Z leaf) (T : gset Z) (H : Z → Z).

Lemma alloc_linear s L T H b lf :
  as_inv s L T H → L !! b = Some lf → kind_from_flags (lf_flags lf) = Alloc →
  lf_paddr lf + page_bytes (lf_size lf) + PHYS_VIRT_OFFSET ≤ 2 ^ 64.
Proof.
  intros Hinv Hb Hk%kind_alloc. destruct (alloc_index _ _ _ _ _ _ Hinv Hb Hk) as (i & [Hv ->]%metadata_Some & ->). cbn [page_bytes].
  unfold frame_valid, frame_addr, frame_count in *. pose proof cfg_bounds. change PAGE_SIZE_4K with 4096 in *.
  pose proof (Z.div_mod PHYS_MEMORY_SIZE 4096 ltac:(lia)). pose proof (Z.mod_pos_bound PHYS_MEMORY_SIZE 4096 ltac:(lia)). lia.
Qed.
Lemma two_owners L b lf b' lf' i : L !! b = Some lf → L !! b' = Some lf' → b ≠ b' → owns i lf = true → owns i lf' = true → 2 ≤ own_count L i.
Proof.
  intros Hb Hb' Hne Ho Ho'. pose proof (own_count_delete L b lf i Hb) as Hd. rewrite Ho in Hd.
  assert (1 ≤ own_count (delete b L) i); [|lia]. eapply own_count_pos; [|exact Ho']. by rewrite lookup_delete_ne.
Qed.
(** A writable byte of private memory is seen at no other address. *)
Lemma private_apart w l L T H x v y b' lf' :
  vm_inv w l L T H → byte_ok L WRITE (Some Alloc) x → view l x = Some v → pv_private v = true →
  leaf_find L y = Some (b', lf') → is_alloc lf' = true → kaddr L x = kaddr L y → x = y.
Proof.
  intros Hinv (k & flags & Hx & Hacc) Hview Hpriv Hy Hal' Heq. pose proof (vi_as _ _ _ _ _ Hinv) as Has.
  unfold byte_addr in Hx. destruct (leaf_find L x) as [[b lf]|] eqn:Hfx; [|done]. cbn in Hx. injection Hx as <- <-.
  unfold access_ok in Hacc. apply andb_true_iff in Hacc as [[Hw _]%andb_true_iff Hk%bool_decide_eq_true]. apply kind_alloc in Hk.
  destruct (resident_byte _ _ _ _ _ _ _ Has Hfx Hk) as (i & Hi & Hri & Hox & Hpx).
  destruct (resident_byte _ _ _ _ _ _ _ Has Hy Hal') as (j & Hj & Hrj & Hoy & Hpy).
  unfold kaddr, byte_addr in Heq. rewrite Hfx, Hy in Heq. cbn in Heq. rewrite Heq in Hpx.
  pose proof Hi as [Hvi Hpi]%metadata_Some. pose proof Hj as [Hvj Hpj]%metadata_Some.
  assert (i = j) as <- by by eapply frame_page_disjoint.
  assert (b = b') as <-.
  { destruct (decide (b = b')) as [|Hne]; [done|]. exfalso. destruct (leaf_view _ _ _ _ _ _ _ _ Hinv Hfx) as (a & Hv & Hax).
    rewrite Hview in Hax. injection Hax as ->. pose proof (lv_cow _ _ _ _ _ Hv Hpriv Hw i Hi) as Hone.
    apply leaf_find_covers in Hfx as [Hb _]. apply leaf_find_covers in Hy as [Hb' _].
    assert (owns i lf = true ∧ owns i lf' = true) as [Ho Ho'] by (unfold owns; rewrite Hk, Hal', Hi, Hj, bool_decide_eq_true_2 by done; done).
    pose proof (two_owners L b lf b' lf' i Hb Hb' Hne Ho Ho'). pose proof (ai_count _ _ _ _ Has i) as Hc. cbn in Hc.
    pose proof (ai_handles _ _ _ _ Has i). lia. }
  destruct (frame_byte _ _ (x - b) Hi Hox) as [Hkx _]. destruct (frame_byte _ _ (y - b) Hj Hoy) as [Hky _]. rewrite Hkx, Hky, Hpi, Hpj in Heq. lia.
Qed.

Lemma user_byte_at w l L T H m' x :
  vm_inv w l L T H → in_space w x →
  user_byte (World (w_space w) (w_objects w) m') x =
    match leaf_find L x with Some (b, lf) => if is_alloc lf then Some (m_mem m' (kaddr L x)) else None | None => None end.
Proof.
  intros Hinv Hx. unfold user_byte.
  pose proof (as_query_spec _ _ _ _ x (vi_as _ _ _ _ _ Hinv) (in_space_valid _ _ _ _ _ _ Hinv Hx)) as Hq.
  cbn [fst] in Hq. cbn [w_space w_machine]. rewrite Hq. unfold kaddr, byte_addr. by destruct (leaf_find L x) as [[b lf]|].
Qed.

(** [uspace.write_bytes(start, input)] *)
Definition write_user (start : Z) (input : list Z) : prog world XError () :=
  vs ← gets w_space;
  zoom (λ w, ((), w_machine w)) (λ s w, World (w_space w) (w_objects w) s.2) (vm_write_bytes vs start input).
Definition wrote L (start : Z) (input : list Z) (m : machine) (r : outcome XError ()) (m' : machine) : Prop :=
  (∀ x, (∀ k, 0 ≤ k < Z.of_nat (length input) → byte_ok L WRITE (Some Alloc) (start + k) → kaddr L (start + k) ≠ x) → m_mem m' x = m_mem m x) ∧
  match r with
  | Ok _ => ∀ k, 0 ≤ k < Z.of_nat (length input) → byte_ok L WRITE (Some Alloc) (start + k) ∧ m_mem m' (kaddr L (start + k)) = nth (Z.to_nat k) input 0
  | Err _ => True
  | Panic => False
  end.
Definition reads_written (w : world) (start : Z) (input : list Z) (r : outcome XError ()) (w' : world) : Prop :=
  (∀ x, in_space w x → ¬ start ≤ x < start + Z.of_nat (length input) → user_byte w' x = user_byte w x) ∧
  match r with
  | Ok _ => ∀ i b, input !! i = Some b → user_byte w' (start + Z.of_nat i) = Some b
  | Err _ => True
  | Panic => False
  end.
Section private.
Context (w : world) (l : list VmArea) (L : gmap Z leaf) (T : gset Z) (H : Z → Z) (start : Z) (input : list Z).
Hypothesis (Hinv : vm_inv w l L T H).
Hypothesis (Hpriv : ∀ x, start ≤ x < start + Z.of_nat (length input) → in_space w x ∧ ∃ v, view l x = Some v ∧ pv_private v = true).
Lemma wrote_user r m' : wrote L start input (w_machine w) r m' → reads_written w start input r (World (w_space w) (w_objects w) m').
Proof.
  intros [Hkeep Hr]. split.
  - intros x Hx Hout. rewrite (user_byte_at _ _ _ _ _ m' _ Hinv Hx). pose proof (user_byte_at _ _ _ _ _ (w_machine w) _ Hinv Hx) as Hw.
    replace (World (w_space w) (w_objects w) (w_machine w)) with w in Hw by by destruct w. rewrite Hw. destruct (leaf_find L x) as [[b lf]|] eqn:Hf; [|done]. destruct (is_alloc lf) eqn:Hal; [|done].
    f_equal. apply Hkeep. intros k Hk Hok Heq. apply Hout. destruct (Hpriv (start + k)) as (_ & v & Hv & Hp); [lia|].
    pose proof (private_apart _ _ _ _ _ _ _ _ _ _ Hinv Hok Hv Hp Hf Hal Heq). lia.
  - destruct r as [[]|e|]; [|done|done]. intros i b Hi. pose proof (lookup_lt_Some _ _ _ Hi) as Hlt.
    destruct (Hpriv (start + Z.of_nat i)) as (Hx & _); [lia|]. rewrite (user_byte_at _ _ _ _ _ m' _ Hinv Hx).
    destruct (Hr (Z.of_nat i)) as [(k & fl & Hb & Hacc) Hm]; [lia|]. rewrite Nat2Z.id, (nth_lookup_Some _ _ _ _ Hi) in Hm.
    unfold byte_addr in Hb. destruct (leaf_find L _) as [[b' lf]|]; [|done]. cbn in Hb. injection Hb as _ <-.
    unfold access_ok in Hacc. apply andb_true_iff in Hacc as [_ Hk%bool_decide_eq_true]. rewrite (kind_alloc _ Hk). by rewrite Hm.
Qed.
Lemma private_injective j k :
  0 ≤ j < Z.of_nat (length input) → 0 ≤ k < Z.of_nat (length input) →
  byte_ok L WRITE (Some Alloc) (start + j) → byte_ok L WRITE (Some Alloc) (start + k) → kaddr L (start + j) = kaddr L (start + k) → j = k.
Proof.
  intros Hj Hk Hokj (x & fl & Hb & Hacc) Heq. destruct (Hpriv (start + j)) as (_ & v & Hv & Hp); [lia|].
  unfold byte_addr in Hb. destruct (leaf_find L (start + k)) as [[b' lf]|] eqn:Hf; [|done]. cbn in Hb. injection Hb as _ <-.
  unfold access_ok in Hacc. apply andb_true_iff in Hacc as [_ Hal%bool_decide_eq_true].
  pose proof (private_apart _ _ _ _ _ _ _ _ _ _ Hinv Hokj Hv Hp Hf (kind_alloc _ Hal) Heq). lia.
Qed.
(** What is written to private memory is read there, and no other byte changes. *)
Lemma write_user_spec : 0 ≤ start →
  wp (write_user start input) w (λ r w', w_space w' = w_space w ∧ w_objects w' = w_objects w ∧ reads_written w start input r w').
Proof.
  intros Hst. pose proof (vi_as _ _ _ _ _ Hinv) as Has. unfold write_user. do 2 wp_step. wp_step.
  assert (∀ e, wrote L start input (w_machine w) (Err e) (w_machine w)) as Hfail by done.
  apply (wp_mono _ _ (λ r (st : () * machine), wrote L start input (w_machine w) r st.2)); [|intros r st Hr; split; [done|]; split; [done|]; by apply wrote_user].
  unfold vm_write_bytes. destruct (Z.eqb_spec (Z.of_nat (length input)) 0) as [Hz|Hnz].
  { wp_step. split; [done|]. intros k Hk. lia. }
  do 2 wp_step. destruct (vr_try_from_start_size _ _); cbn [ok_or]; [|done].
  destruct (check_region_access_spec _ _ WRITE v (vi_layout _ _ _ _ _ Hinv)) as (ok & Hok & _).
  do 2 wp_step. rewrite Hok. destruct ok; cbn [negb]; [|wp_step; done].
  eapply wp_mono; [eapply (write_alloc_bytes_spec _ L T (ai_rep _ _ _ _ Has) (ai_valid _ _ _ _ Has) (λ f, kind_from_flags f = Alloc))|].
  - intros b lf Hb Hk. by eapply alloc_linear.
  - intros flags Hacc. unfold access_ok in Hacc. by apply andb_true_iff in Hacc as [_ ?%bool_decide_eq_true].
  - done.
  - apply private_injective.
  - intros r st (_ & _ & Hkeep & Hr). split; [done|]. by destruct r.
Qed.
End private.
End bytes.
