(* ===== verification/UserStack.v ===== *)
(** * The initial stack of a program (crates/kernel_elf_parser)

    The auxiliary vector (auxv.rs) and the image of the stack that a program
    starts with (user_stack.rs). A [String] is the list of its octets. *)
From stdpp Require Import prelude list.
From S2P Require Import Prelude.
Open Scope Z_scope.

Abbreviation text := (list Z).
(** [usize::to_le_bytes] *)
Definition to_le_bytes (x : Z) : list Z := (λ i, (x / 256 ^ i) mod 256) <$> seqZ 0 8.

(** ** The auxiliary vector (auxv.rs) *)

Module Auxv.
Inductive AuxvType :=
| NULL | IGNORE | EXECFD | PHDR | PHENT | PHNUM | PAGESZ | BASE | FLAGS | ENTRY | NOTELF
| UID | EUID | GID | EGID | PLATFORM | HWCAP | CLKTCK | FPUCW | DCACHEBSIZE | ICACHEBSIZE
| UCACHEBSIZE | IGNOREPPC | SECURE | BASE_PLATFORM | RANDOM | HWCAP2 | EXECFN | SYSINFO
| SYSINFO_EHDR | L1I_CACHESHAPE | L1D_CACHESHAPE | L2_CACHESHAPE | L3_CACHESHAPE
| L1I_CACHESIZE | L1I_CACHEGEOMETRY | L1D_CACHESIZE | L1D_CACHEGEOMETRY | L2_CACHESIZE
| L2_CACHEGEOMETRY | L3_CACHESIZE | L3_CACHEGEOMETRY | MINSIGSTKSZ.
#[export] Instance AuxvType_eq_dec : EqDecision AuxvType.
Proof. solve_decision. Defined.
(** The discriminants of the [#[repr(usize)]] enumeration *)
Definition discriminant (t : AuxvType) : Z :=
  match t with
  | NULL => 0 | IGNORE => 1 | EXECFD => 2 | PHDR => 3 | PHENT => 4 | PHNUM => 5 | PAGESZ => 6
  | BASE => 7 | FLAGS => 8 | ENTRY => 9 | NOTELF => 10 | UID => 11 | EUID => 12 | GID => 13
  | EGID => 14 | PLATFORM => 15 | HWCAP => 16 | CLKTCK => 17 | FPUCW => 18 | DCACHEBSIZE => 19
  | ICACHEBSIZE => 20 | UCACHEBSIZE => 21 | IGNOREPPC => 22 | SECURE => 23 | BASE_PLATFORM => 24
  | RANDOM => 25 | HWCAP2 => 26 | EXECFN => 31 | SYSINFO => 32 | SYSINFO_EHDR => 33
  | L1I_CACHESHAPE => 34 | L1D_CACHESHAPE => 35 | L2_CACHESHAPE => 36 | L3_CACHESHAPE => 37
  | L1I_CACHESIZE => 40 | L1I_CACHEGEOMETRY => 41 | L1D_CACHESIZE => 42 | L1D_CACHEGEOMETRY => 43
  | L2_CACHESIZE => 44 | L2_CACHEGEOMETRY => 45 | L3_CACHESIZE => 46 | L3_CACHEGEOMETRY => 47
  | MINSIGSTKSZ => 51
  end.
Record AuxvEntry := MkAuxv { auxv_type : AuxvType; auxv_val : Z }.
(** A [#[repr(C)]] entry, as the two words it is *)
Abbreviation words := (λ e : AuxvEntry, [discriminant (auxv_type e); auxv_val e]).
End Auxv.
Import Auxv.

(** ** The stack (user_stack.rs) *)

(** The pointer, and the octets from there to the top *)
Record UserStack := MkStack { sp : Z; stack_data : list Z }.
(** "0123456789abcdef" *)
Abbreviation random_str := [48; 49; 50; 51; 52; 53; 54; 55; 56; 57; 97; 98; 99; 100; 101; 102].
Abbreviation padding_null := (replicate 8 0).

Section stack.
Context {E : Type}.
Definition push (src : list Z) : prog UserStack E () :=
  p ← inspect (λ s, usub (sp s) (Z.of_nat (length src)));
  modify (λ s, MkStack p (src ++ stack_data s)).
Definition push_usize_slice (src : list Z) : prog UserStack E () :=
  for_each (reverse src) (λ val, push (to_le_bytes val)).
Definition push_str (str : text) : prog UserStack E Z :=
  push [0];; push str;; gets sp.
(** The body of the loop over the auxiliary vector *)
Definition set_entry (random_str_pos : Z) (argv_slice : list Z) (e : AuxvEntry) : outcome E AuxvEntry :=
  let e := if decide (auxv_type e = RANDOM) then MkAuxv RANDOM random_str_pos else e in
  if decide (auxv_type e = EXECFN) then p ← expect (argv_slice !! 0%nat); Ok (MkAuxv EXECFN p) else Ok e.
(** The stack is new when it runs; [auxv] is changed in place. *)
Definition init_stack (args envs : list text) (auxv : list AuxvEntry) : prog UserStack E (list AuxvEntry) :=
  push random_str;;
  random_str_pos ← gets sp;
  envs_slice ← mapM push_str envs;
  argv_slice ← mapM push_str args;
  push padding_null;;
  p ← gets sp;
  push (replicate (Z.to_nat (p mod 16)) 0);;
  (if Z.odd (Z.of_nat (length envs) + Z.of_nat (length args) + 3) then push padding_null else mret ());;
  auxv ← lift (mapM (set_entry random_str_pos argv_slice) auxv);
  push_usize_slice (auxv ≫= words);;
  push padding_null;;
  push_usize_slice envs_slice;;
  push padding_null;;
  push_usize_slice argv_slice;;
  push_usize_slice [Z.of_nat (length args)];;
  p ← gets sp;
  lift (assert (p mod 16 =? 0));;
  mret auxv.
(** The octets, and [auxv] as it is left *)
Definition app_stack_region (args envs : list text) (auxv : list AuxvEntry) (stack_base stack_size : Z) :
    outcome E (list Z * list AuxvEntry) :=
  top ← uadd stack_base stack_size;
  match init_stack args envs auxv (MkStack top []) with
  | (Ok auxv, s) => Ok (stack_data s, auxv)
  | (Err e, _) => Err e
  | (Panic, _) => Panic
  end.
End stack.
