(* ===== verification/UserStackSpec.v ===== *)
(** * What a program finds on its initial stack

    The C runtime's reading of the stack: the argument count, the pointers of
    the arguments and of the environment up to null pointers, the auxiliary
    vector up to its null entry, and the strings up to null octets. What
    [init_stack] writes reads back as what it was given. *)
From stdpp Require Import prelude list.
From S2P Require Import Prelude UserStack.
Import Auxv.
Open Scope Z_scope.

(** ** Reading a stack *)

Section read.
Context (mem : Z → option Z).
Definition word_at (a : Z) : option Z :=
  bs ← mapM (λ i, mem (a + i)) (seqZ 0 8);
  Some (foldr (λ b n, b + 256 * n) 0 bs).
(** Words up to a zero, and the address after it *)
Fixpoint pointers_at (fuel : nat) (a : Z) : option (list Z * Z) :=
  match fuel with
  | O => None
  | S fuel =>
      w ← word_at a;
      if w =? 0 then Some ([], a + 8)
      else '(ws, a') ← pointers_at fuel (a + 8); Some (w :: ws, a')
  end.
Fixpoint auxv_at (fuel : nat) (a : Z) : option (list (Z * Z)) :=
  match fuel with
  | O => None
  | S fuel =>
      t ← word_at a;
      v ← word_at (a + 8);
      if t =? 0 then Some [] else l ← auxv_at fuel (a + 16); Some ((t, v) :: l)
  end.
Fixpoint text_at (fuel : nat) (a : Z) : option text :=
  match fuel with
  | O => None
  | S fuel => b ← mem a; if b =? 0 then Some [] else t ← text_at fuel (a + 1); Some (b :: t)
  end.
(** [argc], [argv], [envp] and the auxiliary vector *)
Definition program_start (fuel : nat) (a : Z) : option (Z * list text * list text * list (Z * Z)) :=
  argc ← word_at a;
  '(argv, a1) ← pointers_at fuel (a + 8);
  '(envp, a2) ← pointers_at fuel a1;
  aux ← auxv_at fuel a2;
  args ← mapM (text_at fuel) argv;
  envs ← mapM (text_at fuel) envp;
  Some (argc, args, envs, aux).

(** ** Octets in memory *)

Definition has (a : Z) (bs : list Z) : Prop := ∀ i b, bs !! i = Some b → mem (a + Z.of_nat i) = Some b.
Lemma has_app a l1 l2 : has a (l1 ++ l2) ↔ has a l1 ∧ has (a + Z.of_nat (length l1)) l2.
Proof.
  split.
  - intros Ha. split; intros i b Hi; [apply Ha; by apply lookup_app_l_Some|].
    replace (a + Z.of_nat (length l1) + Z.of_nat i) with (a + Z.of_nat (length l1 + i)) by lia. apply Ha. by rewrite lookup_app_r, Nat.add_sub' by lia.
  - intros [H1 H2] i b [Hi|[Hle Hi]]%lookup_app_Some; [by apply H1|].
    replace (a + Z.of_nat i) with (a + Z.of_nat (length l1) + Z.of_nat (i - length l1)) by lia. by apply H2.
Qed.
Lemma has_at a a' l : a = a' → has a l → has a' l.
Proof. by intros ->. Qed.
Lemma has_cons a b l : has a (b :: l) ↔ mem a = Some b ∧ has (a + 1) l.
Proof.
  change (b :: l) with ([b] ++ l). rewrite has_app. change (Z.of_nat (length [b])) with 1. f_equiv. split.
  - intros Ha. rewrite <- (Z.add_0_r a). by apply (Ha 0%nat b).
  - intros Ha [|i] c; [|done]. intros [= <-]. by rewrite Z.add_0_r.
Qed.
Lemma le_digits x n i : 0 <= i →
  foldr (λ b v, b + 256 * v) 0 ((λ j, (x / 256 ^ j) mod 256) <$> seqZ i (Z.of_nat n)) = (x / 256 ^ i) mod 256 ^ Z.of_nat n.
Proof.
  revert i. induction n as [|n IH]; intros i Hi; [cbn; by rewrite Z.mod_1_r|].
  rewrite seqZ_cons by lia. cbn [fmap list_fmap foldr]. replace (Z.pred (Z.of_nat (S n))) with (Z.of_nat n) by lia. rewrite IH by lia.
  replace (256 ^ Z.of_nat (S n)) with (256 * 256 ^ Z.of_nat n) by (rewrite Nat2Z.inj_succ, Z.pow_succ_r by lia; done).
  rewrite Z.rem_mul_r by (try lia; apply Z.pow_pos_nonneg; lia). rewrite Z.div_div by (try lia; apply Z.pow_nonzero; lia).
  replace (256 ^ i * 256) with (256 ^ Z.succ i); [done|]. rewrite Z.pow_succ_r by lia. lia.
Qed.
Lemma le_bytes_value x : 0 <= x < 2 ^ 64 → foldr (λ b v, b + 256 * v) 0 (to_le_bytes x) = x.
Proof. intros Hx. pose proof (le_digits x 8 0 ltac:(lia)) as Hd. change (Z.of_nat 8) with 8 in Hd. unfold to_le_bytes. rewrite Hd, Z.pow_0_r, Z.div_1_r. by apply Z.mod_small. Qed.
Lemma le_bytes_length x : length (to_le_bytes x) = 8%nat.
Proof. done. Qed.
Lemma mapM_has a k bs : has (a + k) bs → mapM (λ i, mem (a + i)) (seqZ k (Z.of_nat (length bs))) = Some bs.
Proof.
  revert k. induction bs as [|b bs IH]; intros k Hb; [done|]. apply has_cons in Hb as [Hm Hb].
  rewrite seqZ_cons by (cbn; lia). cbn [mapM]. rewrite Hm. cbn [mbind option_bind]. replace (Z.pred (Z.of_nat (length (b :: bs)))) with (Z.of_nat (length bs)) by (cbn; lia).
  by rewrite (IH (Z.succ k)) by (by replace (a + Z.succ k) with (a + k + 1) by lia).
Qed.
Lemma word_at_has a x : 0 <= x < 2 ^ 64 → has a (to_le_bytes x) → word_at a = Some x.
Proof.
  intros Hx Ha. unfold word_at. rewrite <- (Z.add_0_r a) in Ha. pose proof (mapM_has a 0 _ Ha) as Hm. rewrite le_bytes_length in Hm.
  change (Z.of_nat 8) with 8 in Hm. rewrite Hm. cbn [mbind option_bind]. by rewrite le_bytes_value.
Qed.

(** ** Reading what was written *)

Definition words_bytes (ws : list Z) : list Z := ws ≫= to_le_bytes.
Definition u64 (x : Z) : Prop := 0 <= x < 2 ^ 64.
Lemma words_bytes_cons w ws : words_bytes (w :: ws) = to_le_bytes w ++ words_bytes ws.
Proof. done. Qed.
Lemma words_bytes_app l1 l2 : words_bytes (l1 ++ l2) = words_bytes l1 ++ words_bytes l2.
Proof. apply bind_app. Qed.
Lemma words_bytes_length ws : length (words_bytes ws) = (8 * length ws)%nat.
Proof. induction ws as [|w ws IH]; [done|]. rewrite words_bytes_cons, length_app, le_bytes_length, IH. cbn. lia. Qed.
Lemma has_words a w ws : has a (words_bytes (w :: ws)) ↔ has a (to_le_bytes w) ∧ has (a + 8) (words_bytes ws).
Proof. rewrite words_bytes_cons, has_app, le_bytes_length. done. Qed.

Lemma pointers_read fuel a ps : (length ps < fuel)%nat → Forall (λ p, u64 p ∧ p ≠ 0) ps → has a (words_bytes (ps ++ [0])) →
  pointers_at fuel a = Some (ps, a + 8 * Z.of_nat (length ps) + 8).
Proof.
  revert fuel a. induction ps as [|p ps IH]; intros [|fuel] a Hf Hp Ha; cbn in Hf; try lia; cbn [app] in Ha; apply has_words in Ha as [Hw Ha]; cbn [pointers_at].
  - rewrite (word_at_has a 0) by (done || lia). cbn. f_equal. f_equal. lia.
  - apply Forall_cons in Hp as [[Hp Hz] Hps]. rewrite (word_at_has a p) by done. cbn [mbind option_bind].
    rewrite (proj2 (Z.eqb_neq p 0)) by done. rewrite IH by (done || lia). cbn. f_equal. f_equal. lia.
Qed.
Lemma auxv_read fuel a l v : (length l < fuel)%nat → u64 v → Forall (λ e, u64 (auxv_val e) ∧ auxv_type e ≠ NULL) l →
  has a (words_bytes ((l ++ [MkAuxv NULL v]) ≫= words)) → auxv_at fuel a = Some ((λ e, (discriminant (auxv_type e), auxv_val e)) <$> l).
Proof.
  revert fuel a. induction l as [|e l IH]; intros [|fuel] a Hf Hv Hl Ha; cbn in Hf; try lia; cbn [app mbind list_bind] in Ha;
    apply has_words in Ha as [Hw1 Ha]; apply has_words in Ha as [Hw2 Ha]; cbn [auxv_at].
  - rewrite (word_at_has a 0), (word_at_has (a + 8) v) by (done || lia). done.
  - apply Forall_cons in Hl as [[He Hn] Hl].
    assert (0 < discriminant (auxv_type e) < 52) as Hd by (destruct (auxv_type e); [done|..]; cbn; lia).
    rewrite (word_at_has a (discriminant (auxv_type e))), (word_at_has (a + 8) (auxv_val e)) by (done || lia). cbn [mbind option_bind].
    rewrite (proj2 (Z.eqb_neq (discriminant _) 0)) by lia. rewrite IH; [done|lia|done|done|]. by replace (a + 16) with (a + 8 + 8) by lia.
Qed.
Lemma text_read fuel a t : (length t < fuel)%nat → Forall (λ b, b ≠ 0) t → has a (t ++ [0]) → text_at fuel a = Some t.
Proof.
  revert fuel a. induction t as [|b t IH]; intros [|fuel] a Hf Ht Ha; cbn in Hf; try lia; cbn [app] in Ha; apply has_cons in Ha as [Hb Ha]; cbn [text_at]; rewrite Hb; [done|].
  apply Forall_cons in Ht as [Hn Ht]. cbn [mbind option_bind]. rewrite (proj2 (Z.eqb_neq b 0)) by done. by rewrite IH by (done || lia).
Qed.
End read.

(** ** Writing *)

Definition below (s : UserStack) (src : list Z) : UserStack := MkStack (sp s - Z.of_nat (length src)) (src ++ stack_data s).
Lemma below_below s l1 l2 : below (below s l1) l2 = below s (l2 ++ l1).
Proof. unfold below. cbn. rewrite length_app, app_assoc. f_equal. lia. Qed.
Lemma push_ok {E} src s : Z.of_nat (length src) <= sp s → push (E := E) src s = (Ok (), below s src).
Proof. intros Hl. unfold push, mbind, prog_bind, inspect, usub. by rewrite (proj2 (Z.leb_le _ _)). Qed.
Lemma step_ok {S E A B} (m : prog S E A) (k : A → prog S E B) s a s' : m s = (Ok a, s') → (m ≫= k) s = k a s'.
Proof. intros Hm. unfold mbind, prog_bind. by rewrite Hm. Qed.
Lemma push_words_ok {E} ws s : 8 * Z.of_nat (length ws) <= sp s → push_usize_slice (E := E) ws s = (Ok (), below s (words_bytes ws)).
Proof.
  revert s. induction ws as [|w ws IH] using rev_ind; intros s Hl; [unfold below; cbn; by rewrite Z.sub_0_r; destruct s|].
  rewrite length_app in Hl. cbn in Hl. unfold push_usize_slice. rewrite reverse_snoc. cbn [for_each]. unfold mbind at 1, prog_bind at 1.
  rewrite push_ok by (rewrite le_bytes_length; lia). fold (push_usize_slice (E := E) ws). rewrite IH by (cbn [below sp]; rewrite le_bytes_length; lia).
  rewrite below_below, words_bytes_app. done.
Qed.
Lemma push_str_ok {E} t s : Z.of_nat (length t) + 1 <= sp s →
  push_str (E := E) t s = (Ok (sp s - Z.of_nat (length t) - 1), below s (t ++ [0])).
Proof.
  intros Hl. unfold push_str, mbind, prog_bind, gets. rewrite push_ok by (cbn; lia). rewrite push_ok by (cbn; lia). rewrite below_below.
  cbn [below sp]. rewrite length_app. cbn [length]. do 2 f_equal. lia.
Qed.
(** The strings, and where they are *)
Fixpoint texts_bytes (ts : list text) : list Z := match ts with [] => [] | t :: ts => texts_bytes ts ++ t ++ [0] end.
Fixpoint texts_at (top : Z) (ts : list text) : list Z :=
  match ts with [] => [] | t :: ts => let p := top - Z.of_nat (length t) - 1 in p :: texts_at p ts end.
Lemma push_strs_ok {E} ts s : Z.of_nat (length (texts_bytes ts)) <= sp s →
  mapM (push_str (E := E)) ts s = (Ok (texts_at (sp s) ts), below s (texts_bytes ts)).
Proof.
  revert s. induction ts as [|t ts IH]; intros s Hl; [unfold below; cbn; by rewrite Z.sub_0_r; destruct s|].
  cbn [texts_bytes] in Hl. rewrite !length_app in Hl. cbn in Hl. cbn [mapM]. erewrite step_ok by (apply push_str_ok; lia).
  erewrite step_ok by (apply IH; cbn [below sp]; rewrite length_app; cbn; lia).
  rewrite below_below. cbn [texts_at texts_bytes below sp]. rewrite length_app. cbn [length].
  replace (sp s - Z.of_nat (length t + 1)) with (sp s - Z.of_nat (length t) - 1) by lia. done.
Qed.
Lemma texts_at_length top ts : length (texts_at top ts) = length ts.
Proof. revert top. induction ts; intros top; cbn; [done|]. f_equal. auto. Qed.
(** Each pointer has its string, and is within the block. *)
Lemma texts_has mem top ts : has mem (top - Z.of_nat (length (texts_bytes ts))) (texts_bytes ts) →
  Forall2 (λ p t, has mem p (t ++ [0]) ∧ top - Z.of_nat (length (texts_bytes ts)) <= p < top) (texts_at top ts) ts.
Proof.
  revert top. induction ts as [|t ts IH]; intros top Hm; [constructor|]. cbn [texts_bytes texts_at] in *. rewrite !length_app in *. cbn [length] in *.
  apply has_app in Hm as [H1 H2]. set (p := top - Z.of_nat (length t) - 1).
  replace (top - Z.of_nat (length (texts_bytes ts) + (length t + 1))) with (p - Z.of_nat (length (texts_bytes ts))) in * by (unfold p; lia).
  replace (p - Z.of_nat (length (texts_bytes ts)) + Z.of_nat (length (texts_bytes ts))) with p in H2 by lia. constructor; [split; [done|unfold p; lia]|].
  eapply Forall2_impl; [by apply IH|]. intros q u [Hq Hb]. split; [done|]. unfold p in *. lia.
Qed.

(** ** The image *)

Ltac room := cbn [below sp]; rewrite ?length_app, ?length_replicate, ?words_bytes_length; cbn [length]; lia.
Tactic Notation "step" uconstr(H) := erewrite step_ok by (apply H; room).
Ltac step0 := erewrite step_ok by reflexivity.
Section image.
Context (args envs : list text) (top : Z).
Definition random : Z := top - 16.
Definition envp : list Z := texts_at random envs.
Definition argv_top : Z := random - Z.of_nat (length (texts_bytes envs)).
Definition argv : list Z := texts_at argv_top args.
Definition strings : list Z := replicate 8 0 ++ texts_bytes args ++ texts_bytes envs ++ random_str.
Definition fill : nat := Z.to_nat ((top - Z.of_nat (length strings)) mod 16).
Definition odd_pad : list Z := if Z.odd (Z.of_nat (length envs) + Z.of_nat (length args) + 3) then replicate 8 0 else [].
Definition upper : list Z := odd_pad ++ replicate fill 0 ++ strings.
Definition vector (auxv : list AuxvEntry) : list Z :=
  Z.of_nat (length args) :: argv ++ 0 :: envp ++ 0 :: (auxv ≫= words).
Definition entry_set (e : AuxvEntry) : AuxvEntry :=
  if decide (auxv_type e = RANDOM) then MkAuxv RANDOM random
  else if decide (auxv_type e = EXECFN) then MkAuxv EXECFN (default 0 (head argv)) else e.
Definition stack_image (auxv : list AuxvEntry) : list Z := words_bytes (vector (entry_set <$> auxv)) ++ upper.
(** What the stack needs *)
Definition stack_need (auxv : list AuxvEntry) : Z := Z.of_nat (length (stack_image auxv)).

Lemma set_entries_ok {E} auxv : (args = [] → Forall (λ e, auxv_type e ≠ EXECFN) auxv) →
  mapM (set_entry (E := E) random argv) auxv = Ok (entry_set <$> auxv).
Proof.
  intros Ha. induction auxv as [|e auxv IH]; [done|]. cbn [mapM fmap list_fmap].
  assert (set_entry (E := E) random argv e = Ok (entry_set e)) as ->.
  { unfold set_entry, entry_set. destruct (decide (auxv_type e = RANDOM)) as [Hr|Hr]; [done|].
    destruct (decide (auxv_type e = EXECFN)) as [Hx|Hx]; [|done]. unfold argv. destruct args; [|done].
    specialize (Ha eq_refl). apply Forall_cons in Ha as [Ha _]. done. }
  cbn [mbind outcome_bind]. rewrite IH; [done|]. intros Hn. specialize (Ha Hn). by apply Forall_cons in Ha as [_ Ha].
Qed.
Lemma auxv_words_length (l : list AuxvEntry) : length (l ≫= words) = (2 * length l)%nat.
Proof. induction l as [|e l IH]; [done|]. cbn [mbind list_bind]. rewrite length_app, IH. cbn. lia. Qed.
Lemma image_length auxv : Z.of_nat (length (stack_image auxv)) =
  8 * (Z.of_nat (length args) + Z.of_nat (length envs) + 3 + 2 * Z.of_nat (length auxv)) +
  (if Z.odd (Z.of_nat (length envs) + Z.of_nat (length args) + 3) then 8 else 0) +
  (top - Z.of_nat (length strings)) mod 16 + Z.of_nat (length strings).
Proof.
  unfold stack_image, upper, vector, odd_pad, fill. rewrite !length_app, words_bytes_length. cbn [length]. rewrite !length_app. cbn [length].
  rewrite length_app. cbn [length]. rewrite auxv_words_length, length_fmap, length_replicate. unfold argv, envp. rewrite !texts_at_length.
  pose proof (Z.mod_pos_bound (top - Z.of_nat (length strings)) 16 ltac:(lia)).
  destruct (Z.odd _); cbn [length replicate]; lia.
Qed.
Lemma image_aligned auxv : (top - Z.of_nat (length (stack_image auxv))) mod 16 = 0.
Proof.
  rewrite image_length. pose proof (Zmod_odd (Z.of_nat (length envs) + Z.of_nat (length args) + 3)) as Ho.
  destruct (Z.odd _); Z.to_euclidean_division_equations; lia.
Qed.
Lemma pad_ok {E} s : Z.of_nat (length odd_pad) <= sp s →
  (if Z.odd (Z.of_nat (length envs) + Z.of_nat (length args) + 3) then push padding_null else mret ()) s = (Ok (E := E) (), below s odd_pad).
Proof. unfold odd_pad. destruct (Z.odd _); intros Hs; [by apply push_ok|]. unfold below. cbn. by rewrite Z.sub_0_r; destruct s. Qed.
Lemma init_stack_ok {E} auxv :
  (args = [] → Forall (λ e, auxv_type e ≠ EXECFN) auxv) → stack_need auxv <= top →
  init_stack (E := E) args envs auxv (MkStack top []) = (Ok (entry_set <$> auxv), MkStack (top - stack_need auxv) (stack_image auxv)).
Proof.
  intros Ha Hn. unfold stack_need in *. pose proof (image_length auxv) as Hlen.
  pose proof (Z.mod_pos_bound (top - Z.of_nat (length strings)) 16 ltac:(lia)) as Hmod.
  assert (Z.of_nat (length strings) = 8 + Z.of_nat (length (texts_bytes args)) + Z.of_nat (length (texts_bytes envs)) + 16) as Hstr.
  { unfold strings. rewrite !length_app. cbn [length replicate]. lia. }
  assert ((if Z.odd (Z.of_nat (length envs) + Z.of_nat (length args) + 3) then 8 else 0) = Z.of_nat (length odd_pad)) as Hodd
    by (unfold odd_pad; by destruct (Z.odd _)).
  assert ((top - Z.of_nat (length strings)) mod 16 = Z.of_nat fill) as Hfill by (unfold fill; lia).
  assert (length argv = length args) as Hargv by apply texts_at_length. assert (length envp = length envs) as Henvp by apply texts_at_length.
  assert (length ((entry_set <$> auxv) ≫= words) = (2 * length auxv)%nat) as Haux by (by rewrite auxv_words_length, length_fmap).
  rewrite Hodd, Hfill in Hlen. unfold init_stack.
  step push_ok. step0. step push_strs_ok. step push_strs_ok. change (texts_at _ args) with argv. change (texts_at _ envs) with envp.
  step push_ok. rewrite !below_below. rewrite <- !app_assoc. fold strings. step0.
  change (replicate (Z.to_nat _) 0) with (replicate fill 0). step push_ok. step pad_ok.
  erewrite step_ok by (unfold lift; f_equal; apply set_entries_ok; done).
  step push_words_ok. step push_ok. step push_words_ok. step push_ok. step push_words_ok. step push_words_ok. rewrite !below_below. rewrite <- !app_assoc.
  replace (words_bytes [Z.of_nat (length args)] ++ words_bytes argv ++ _) with (stack_image auxv).
  2:{ unfold stack_image, upper, vector. rewrite words_bytes_cons, words_bytes_app, words_bytes_cons, words_bytes_app, words_bytes_cons. by rewrite <- !app_assoc. }
  assert (below (MkStack top []) (stack_image auxv) = MkStack (top - Z.of_nat (length (stack_image auxv))) (stack_image auxv)) as ->
    by (unfold below; cbn [sp stack_data]; by rewrite app_nil_r).
  step0. cbn [sp]. rewrite (image_aligned auxv). done.
Qed.

Lemma upper_has mem auxv : has mem (top - stack_need auxv) (stack_image auxv) →
  has mem (top - stack_need auxv) (words_bytes (vector (entry_set <$> auxv))) ∧
  has mem (argv_top - Z.of_nat (length (texts_bytes args))) (texts_bytes args) ∧
  has mem (random - Z.of_nat (length (texts_bytes envs))) (texts_bytes envs) ∧ has mem random random_str.
Proof.
  intros Hm. unfold stack_image in Hm. apply has_app in Hm as [Hv Hu]. split; [done|].
  replace (top - stack_need auxv + Z.of_nat (length (words_bytes (vector (entry_set <$> auxv))))) with (top - Z.of_nat (length upper)) in Hu
    by (unfold stack_need, stack_image; rewrite length_app; lia).
  unfold upper in Hu. apply has_app in Hu as [_ Hu]. apply has_app in Hu as [_ Hu]. unfold strings in Hu.
  apply has_app in Hu as [_ Hu]. apply has_app in Hu as [H1 Hu]. apply has_app in Hu as [H2 H3].
  unfold upper, strings in *. rewrite !length_app in *. cbn [length replicate] in *. unfold argv_top, random. split_and!.
  - eapply has_at; [|exact H1]. lia.
  - eapply has_at; [|exact H2]. lia.
  - eapply has_at; [|exact H3]. lia.
Qed.
End image.

(** ** The program's view *)

Lemma texts_bytes_in t ts : t ∈ ts → (length t < length (texts_bytes ts))%nat.
Proof.
  induction ts as [|u ts IH]; [by intros ?%not_elem_of_nil|]. intros [->|Ht]%elem_of_cons; cbn [texts_bytes]; rewrite !length_app; cbn [length]; [lia|].
  specialize (IH Ht). lia.
Qed.
Lemma texts_read mem fuel top ts : (length (texts_bytes ts) <= fuel)%nat → Forall (Forall (λ b, b ≠ 0)) ts →
  has mem (top - Z.of_nat (length (texts_bytes ts))) (texts_bytes ts) → mapM (text_at mem fuel) (texts_at top ts) = Some ts.
Proof.
  intros Hf Hz Hm. apply mapM_Some. pose proof texts_bytes_in as Hin.
  assert (Forall2 (λ p t, has mem p (t ++ [0])) (texts_at top ts) ts) as H2 by (eapply Forall2_impl; [by apply texts_has|naive_solver]).
  assert (Forall (λ t, (length t < fuel)%nat ∧ Forall (λ b, b ≠ 0) t) ts) as Ht.
  { rewrite Forall_forall in Hz |- *. intros t Hi. split; [specialize (Hin t ts Hi); lia|by apply Hz]. }
  clear Hf Hz Hm Hin. induction H2 as [|p t ps ts' Hp H2 IH]; [constructor|]. apply Forall_cons in Ht as [[Hl Hz] Ht].
  constructor; [by apply text_read|by apply IH].
Qed.
Lemma texts_pointers mem top ts : 0 < top - Z.of_nat (length (texts_bytes ts)) → top < 2 ^ 64 →
  has mem (top - Z.of_nat (length (texts_bytes ts))) (texts_bytes ts) → Forall (λ p, u64 p ∧ p ≠ 0) (texts_at top ts).
Proof.
  intros H0 Ht Hm. pose proof (texts_has mem top ts Hm) as H2. eapply Forall2_Forall_l; [exact H2|].
  apply Forall_forall. intros t _ p [_ Hp]. unfold u64. lia.
Qed.

(** What the caller leaves room for *)
Definition text_size (ts : list text) : Z := Z.of_nat (length (texts_bytes ts)).
Definition stack_bound (args envs : list text) (auxv : list AuxvEntry) : Z :=
  text_size args + text_size envs + 8 * (Z.of_nat (length args) + Z.of_nat (length envs) + 2 * Z.of_nat (length auxv)) + 71.
Lemma stack_need_bound args envs top auxv :
  24 + text_size args + text_size envs + 16 + 8 * (Z.of_nat (length args) + Z.of_nat (length envs) + 2 * Z.of_nat (length auxv)) <= stack_need args envs top auxv <= stack_bound args envs auxv.
Proof.
  unfold stack_need. rewrite image_length. unfold stack_bound, text_size, strings. rewrite !length_app. cbn [length replicate].
  pose proof (Z.mod_pos_bound (top - Z.of_nat (8 + (length (texts_bytes args) + (length (texts_bytes envs) + 16)))) 16 ltac:(lia)).
  destruct (Z.odd _); lia.
Qed.
Definition aux_pair (random execfn : Z) (e : AuxvEntry) : Z * Z :=
  (discriminant (auxv_type e), match auxv_type e with RANDOM => random | EXECFN => execfn | _ => auxv_val e end).
Lemma vector_has mem a args envs top auxv : has mem a (words_bytes (vector args envs top auxv)) →
  has mem a (to_le_bytes (Z.of_nat (length args))) ∧ has mem (a + 8) (words_bytes (argv args envs top ++ [0])) ∧
  has mem (a + 8 + 8 * Z.of_nat (length args) + 8) (words_bytes (envp envs top ++ [0])) ∧
  has mem (a + 8 + 8 * Z.of_nat (length args) + 8 + 8 * Z.of_nat (length envs) + 8) (words_bytes (auxv ≫= words)).
Proof.
  unfold vector. rewrite (cons_middle 0 (argv args envs top)), (cons_middle 0 (envp envs top)), !(app_assoc _ [0]).
  intros [H1 H]%has_words. rewrite (words_bytes_app (_ ++ [0])) in H. apply has_app in H as [H2 H].
  rewrite (words_bytes_app (envp _ _ ++ [0])) in H. apply has_app in H as [H3 H].
  rewrite !words_bytes_length, !length_app in *. unfold argv, envp in *. rewrite !texts_at_length in *. cbn [length] in *. split_and!; [done|done|..].
  - eapply has_at; [|exact H3]. lia.
  - eapply has_at; [|exact H]. lia.
Qed.
Lemma entry_set_ok args envs top e : u64 top → 16 <= top → Forall (λ p, u64 p ∧ p ≠ 0) (argv args envs top) →
  u64 (auxv_val e) ∧ auxv_type e ≠ NULL → u64 (auxv_val (entry_set args envs top e)) ∧ auxv_type (entry_set args envs top e) ≠ NULL.
Proof.
  intros Ht H16 Ha [He Hn]. unfold entry_set. destruct (decide _) as [Hr|Hr]; [|destruct (decide _) as [Hx|Hx]]; cbn; [| |done]; (split; [|done]).
  - unfold u64, random in *. lia.
  - destruct (argv args envs top) as [|p l]; cbn; [done|]. by apply Forall_cons in Ha as [[Ha _] _].
Qed.
Lemma image_reads mem args envs top vec v :
  Forall (Forall (λ b, b ≠ 0)) args → Forall (Forall (λ b, b ≠ 0)) envs → Forall (λ e, u64 (auxv_val e) ∧ auxv_type e ≠ NULL) vec → u64 v → u64 top →
  let auxv := vec ++ [MkAuxv NULL v] in
  stack_need args envs top auxv <= top → has mem (top - stack_need args envs top auxv) (stack_image args envs top auxv) →
  program_start mem (length (stack_image args envs top auxv)) (top - stack_need args envs top auxv) =
    Some (Z.of_nat (length args), args, envs, (λ e, (discriminant (auxv_type e), auxv_val e)) <$> (entry_set args envs top <$> vec)).
Proof.
  intros Hza Hze Hvec Hv Htop auxv Hroom Hm. pose proof (stack_need_bound args envs top auxv) as Hneed. unfold text_size in Hneed.
  assert (length auxv = S (length vec)) as Hlen by (unfold auxv; rewrite length_app; cbn; lia).
  apply upper_has in Hm as (Hvw & Hma & Hme & _). apply vector_has in Hvw as (H1 & H2 & H3 & H4).
  set (need := stack_need args envs top auxv) in *. set (n := length (stack_image args envs top auxv)). assert (need = Z.of_nat n) as Hn by done.
  assert (Forall (λ p, u64 p ∧ p ≠ 0) (argv args envs top)) as Hpa by (eapply texts_pointers; [..|exact Hma]; unfold argv_top, random, u64 in *; lia).
  assert (Forall (λ p, u64 p ∧ p ≠ 0) (envp envs top)) as Hpe by (eapply texts_pointers; [..|exact Hme]; unfold random, u64 in *; lia).
  unfold program_start. rewrite (word_at_has mem _ (Z.of_nat (length args))) by (done || unfold u64 in *; lia). cbn [mbind option_bind].
  assert (length (argv args envs top) = length args ∧ length (envp envs top) = length envs) as [Hla Hle] by (split; apply texts_at_length).
  rewrite (pointers_read mem n _ (argv args envs top)) by (done || lia). cbn [mbind option_bind]. rewrite Hla.
  rewrite (pointers_read mem n _ (envp envs top)) by (done || lia). cbn [mbind option_bind]. rewrite Hle.
  unfold auxv in H4. rewrite fmap_app in H4. change (entry_set args envs top <$> [MkAuxv NULL v]) with [MkAuxv NULL v] in H4.
  rewrite (auxv_read mem n _ (entry_set args envs top <$> vec) v); [|rewrite length_fmap; lia|done| |exact H4].
  2:{ apply Forall_fmap. eapply Forall_impl; [exact Hvec|]. intros e He. apply entry_set_ok; [done|lia|done|done]. }
  cbn [mbind option_bind]. unfold argv, envp. rewrite (texts_read mem n _ args), (texts_read mem n _ envs) by (done || lia). done.
Qed.

(** When the stack has room and the strings have no null octets, building
    the initial stack does not panic; the stack pointer is aligned to 16 and
    lies in the stack; and a program that is started with it reads back its
    argument count, its arguments, its environment and the auxiliary vector up
    to its null entry, with the random octets and the name of the program
    where the vector says. *)
Lemma initial_stack_reads {E} args envs vec v stack_base stack_size :
  Forall (Forall (λ b, b ≠ 0)) (args ++ envs) → (args = [] → Forall (λ e, auxv_type e ≠ EXECFN) vec) →
  Forall (λ e, u64 (auxv_val e) ∧ auxv_type e ≠ NULL) vec → u64 v →
  0 <= stack_base → stack_base + stack_size <= usize_max → stack_bound args envs (vec ++ [MkAuxv NULL v]) <= stack_size →
  ∃ data auxv, app_stack_region (E := E) args envs (vec ++ [MkAuxv NULL v]) stack_base stack_size = Ok (data, auxv) ∧
    let user_sp := stack_base + stack_size - Z.of_nat (length data) in
    user_sp mod 16 = 0 ∧ stack_base <= user_sp ∧
    ∀ mem, has mem user_sp data → ∃ random execfn,
      program_start mem (length data) user_sp = Some (Z.of_nat (length args), args, envs, aux_pair random execfn <$> vec) ∧
      has mem random random_str ∧ ∀ a, head args = Some a → text_at mem (length data) execfn = Some a.
Proof.
  intros Hz Hex Hvec Hv Hb Htop Hroom. set (auxv := vec ++ [MkAuxv NULL v]) in *. set (top := stack_base + stack_size) in *.
  pose proof (stack_need_bound args envs top auxv) as Hneed. pose proof (image_aligned args envs top auxv) as Hal. fold (stack_need args envs top auxv) in Hal.
  exists (stack_image args envs top auxv), (entry_set args envs top <$> auxv). fold (stack_need args envs top auxv).
  assert (0 <= text_size args ∧ 0 <= text_size envs) as Hsz by (unfold text_size; lia).
  assert (stack_size <= top ∧ u64 top) as [Hle Hu] by (unfold u64, usize_max, top in *; lia).
  split.
  { unfold app_stack_region, uadd. fold top. rewrite (proj2 (Z.leb_le _ _)) by done. cbn [mbind outcome_bind].
    rewrite init_stack_ok; [done| |lia]. intros Ha. unfold auxv. apply Forall_app. split; [by apply Hex|]. by repeat constructor. }
  split; [done|]. split; [lia|]. intros mem Hm.
  apply Forall_app in Hz as [Hza Hze]. pose proof (upper_has _ _ _ _ _ Hm) as (_ & Hma & _ & Hmr).
  exists (random top), (default 0 (head (argv args envs top))). split; [|split; [done|]].
  - etransitivity; [apply (image_reads mem args envs top vec v); (done || fold auxv; lia)|]. do 2 f_equal. rewrite <- list_fmap_compose. apply list_fmap_ext.
    intros _ [t val] _. by destruct t.
  - intros a Ha. pose proof (texts_read mem (length (stack_image args envs top auxv)) _ args ltac:(unfold stack_need, text_size in *; lia) Hza Hma) as Hr.
    unfold argv. destruct args as [|b args]; [done|]. injection Ha as ->. cbn [texts_at head default] in *. apply mapM_Some in Hr. by inversion Hr.
Qed.

(** ** No arguments *)

Lemma set_entries_panic r auxv : EXECFN ∈ auxv_type <$> auxv → mapM (set_entry (E := Empty_set) r []) auxv = Panic.
Proof.
  induction auxv as [|e auxv IH]; [by intros ?%not_elem_of_nil|]. cbn [fmap list_fmap mapM]. intros [He|Hl]%elem_of_cons.
  - destruct e as [t val]. cbn in He. by subst t.
  - rewrite (IH Hl). destruct (set_entry r [] e) as [?|[]|]; done.
Qed.
Lemma bind_panic {S A B} (m : prog S Empty_set A) (k : A → prog S Empty_set B) s :
  (∀ a s', m s = (Ok a, s') → (k a s').1 = Panic) → ((m ≫= k) s).1 = Panic.
Proof. intros Hk. unfold mbind, prog_bind. destruct (m s) as [[a|[]|] s']; [by apply Hk|done]. Qed.
(** C40: the stack of a program with an empty argument list cannot be built
    when the auxiliary vector has an entry for the name of the program, as the
    one the loader makes has: whatever the environment and the room, the
    kernel panics. *)
Theorem no_arguments_panic envs auxv stack_base stack_size :
  EXECFN ∈ auxv_type <$> auxv → app_stack_region (E := Empty_set) [] envs auxv stack_base stack_size = Panic.
Proof.
  intros Hx. unfold app_stack_region. destruct (uadd _ _) as [top|[]|]; [|done]. cbn [mbind outcome_bind].
  enough ((init_stack (E := Empty_set) [] envs auxv (MkStack top [])).1 = Panic) as Hp.
  { destruct (init_stack _ _ _ _) as [r s]. cbn in Hp. by subst r. }
  unfold init_stack. do 3 (apply bind_panic; intros ? ? _). apply bind_panic. intros argv s [= <- _].
  do 4 (apply bind_panic; intros ? ? _). apply bind_panic. intros ? ?. unfold lift. by rewrite set_entries_panic.
Qed.
