(* ===== verification/LoadStack.v ===== *)
(** * The stack of a new program (xkernel/src/mm/init.rs)

    The part of [load_app] that gives a program its stack: the image is built,
    the area is mapped with its pages, and the image is written to the end of
    it. What the program then reads from its memory is what it was given. *)
From S2P Require Import Prelude Errno MemAddr Frame PageTable AddressSpace AspaceInv AspaceBytes.
From S2P Require Import BTree VmArea VmSpace VmOps VmLayout VmInv VmFault VmUnmap VmProtect VmMap VmTheorems VmBytes.
From S2P Require Import UserStack UserStackSpec.
From stdpp Require Import prelude gmap list.
Import Auxv.
Open Scope Z_scope.

Section load.
Context {CFG : Config} {PA : PageAllocator} {BF : BitFlags} {MA : MemoryAddr} {PT : PageTable}.
Context {PF : PhysFits} {VO : VmObject} {VL : VmObjectLaws}.

(** The end and the size of the stack are [USER_STACK_TOP] and [USER_STACK_SIZE]. *)
Definition load_stack (ustack_end ustack_size : Z) (args envs : list text) (auxv : list AuxvEntry) : prog world Z Z :=
  ustack_start ← lift (usub ustack_end ustack_size);
  region ← lift (app_stack_region args envs auxv ustack_start ustack_size);
  let stack_data := region.1 in
  map_err_prog linux_error (vm_map ustack_start ustack_size (READ |+| WRITE |+| USER) (anonymous true));;
  user_sp ← lift (usub ustack_end (Z.of_nat (length stack_data)));
  map_err_prog linux_error (write_user user_sp stack_data);;
  mret user_sp.

(** The program reads its arguments, environment and auxiliary vector. *)
Definition starts_with (w : world) (user_sp : Z) (args envs : list text) (vec : list AuxvEntry) : Prop :=
  ∃ fuel random execfn,
    program_start (user_byte w) fuel user_sp = Some (Z.of_nat (length args), args, envs, aux_pair random execfn <$> vec) ∧
    has (user_byte w) random random_str ∧ ∀ a, head args = Some a → text_at (user_byte w) fuel execfn = Some a.

Section run.
Context {FT : Foreign} {BY : Bystanders}.
Context (args envs : list text) (vec : list AuxvEntry) (v : Z) (ustack_end ustack_size : Z).
Hypothesis (Htext : Forall (Forall (λ b, b ≠ 0)) (args ++ envs)) (Hexec : args = [] → Forall (λ e, auxv_type e ≠ EXECFN) vec).
Hypothesis (Hvec : Forall (λ e, u64 (auxv_val e) ∧ auxv_type e ≠ NULL) vec) (Hv : u64 v).
Hypothesis (Hroom : stack_bound args envs (vec ++ [MkAuxv NULL v]) ≤ ustack_size) (Hfit : ustack_size ≤ ustack_end ≤ usize_max).
Abbreviation stack_start := (ustack_end - ustack_size).
Definition load_post (w : world) (r : outcome Z Z) (w' : world) : Prop :=
  match r with
  | Ok user_sp =>
      user_sp mod 16 = 0 ∧ stack_start ≤ user_sp < ustack_end ∧ starts_with w' user_sp args envs vec ∧
      (∀ x b, in_space w x → user_byte w x = Some b → user_byte w' x = Some b)
  | Err _ => ∀ x b, in_space w x → user_byte w x = Some b → user_byte w' x = Some b
  | Panic => saturated (w_machine w')
  end.
Lemma view_in_space w l L T H x u : vm_inv w l L T H → view l x = Some u → in_space w x.
Proof.
  intros Hinv (a & Ha & _)%view_Some. pose proof (vi_layout _ _ _ _ _ Hinv) as Hl.
  apply lookup_area_Some in Ha as [Hin Hi]; [|apply Hl]. pose proof (lo_inside _ _ Hl a Hin). unfold in_space, inside in *. lia.
Qed.
Lemma byte_in_area w l L T H x b : vm_inv w l L T H → in_space w x → user_byte w x = Some b → ∃ a, a ∈ l ∧ inside a x.
Proof.
  intros Hinv Hx Hb. rewrite (user_byte_inv _ _ _ _ _ _ Hinv Hx) in Hb. destruct (leaf_find L x) as [[p lf]|] eqn:Hf; [|done].
  destruct (leaf_view _ _ _ _ _ _ _ _ Hinv Hf) as (a & _ & (a' & Ha' & _)%view_Some). exists a'. apply lookup_area_Some; [apply (vi_layout _ _ _ _ _ Hinv)|done].
Qed.
Lemma load_stack_spec w l L T H : vm_inv w l L T H →
  wp (load_stack ustack_end ustack_size args envs (vec ++ [MkAuxv NULL v])) w (load_post w).
Proof.
  intros Hinv. assert (0 <= stack_bound args envs (vec ++ [MkAuxv NULL v])) as Hb0 by (unfold stack_bound, text_size; lia).
  destruct (initial_stack_reads (E := Z) args envs vec v stack_start ustack_size) as (data & auxv & Happ & Hal & Hin & Hread); try done; try lia.
  replace (stack_start + ustack_size) with ustack_end in * by lia.
  unfold load_stack. do 2 wp_step. unfold usub at 1. rewrite (proj2 (Z.leb_le _ _)) by lia. do 2 wp_step. rewrite Happ. cbn [fst].
  wp_step. wp_step. eapply wp_mono; [by apply (vm_map_spec w l L T H); [..|apply made_anonymous|lia|lia]|].
  intros [[]|e|] w1 Hr; cbn [map_err]; [| |exact Hr].
  2:{ destruct Hr as (L' & T' & H' & [Hl Hinv' _ Hkb]). intros x b Hx. eapply keeps_user_byte; [done..|apply Hl|done|done]. }
  destruct Hr as (Hapart & Hrg & l' & L' & T' & H' & Hinv' & Hview & _ & Hkb & _).
  set (a := MkVmArea _ _ _ _) in *. replace (stack_start + ustack_size) with ustack_end in a by lia.
  assert (0 < Z.of_nat (length data)) as Hpos.
  { destruct data; [|cbn; lia]. destruct (Hread (λ _, None)) as (? & ? & Hp & _); [intros i b Hi; by rewrite lookup_nil in Hi|]. done. }
  do 2 wp_step. unfold usub. rewrite (proj2 (Z.leb_le _ _)) by lia. wp_step. wp_step.
  set (user_sp := ustack_end - Z.of_nat (length data)) in *.
  assert (∀ x, in_space w x → in_space w1 x) as Hsp by (intros x; unfold in_space; by rewrite Hrg).
  assert (∀ x b, in_space w x → user_byte w x = Some b → user_byte w1 x = Some b ∧ ¬ user_sp ≤ x < user_sp + Z.of_nat (length data)) as Hold.
  { intros x b Hx Hb. split; [exact (keeps_user_byte _ _ _ _ _ _ _ _ _ _ _ _ Hinv Hinv' Hrg Hkb Hx Hb)|]. destruct (byte_in_area _ _ _ _ _ _ _ Hinv Hx Hb) as (c & Hc & Hi).
    specialize (Hapart c Hc). unfold apart, inside in *. cbn in Hapart. lia. }
  eapply wp_mono; [apply (write_user_spec w1 l' L' T' H' user_sp data Hinv')|].
  { intros x Hx. assert (view l' x = Some (area_view a x)) as Hvx by (rewrite Hview, decide_True; [done|]; unfold inside; cbn; lia).
    split; [by eapply view_in_space|]. eexists. split; [exact Hvx|done]. }
  { lia. }
  intros r2 w2 (_ & _ & Hkeep & Hr2).
  assert (∀ x b, in_space w x → user_byte w x = Some b → user_byte w2 x = Some b) as Hbytes.
  { intros x b Hx Hb. destruct (Hold x b Hx Hb) as [Hb1 Hout]. rewrite Hkeep; [done|by apply Hsp|done]. }
  destruct r2 as [[]|e|]; cbn [map_err]; [|exact Hbytes|done].
  wp_step. split; [done|]. split; [lia|]. split; [|exact Hbytes].
  destruct (Hread (user_byte w2) Hr2) as (random & execfn & Hp & Hra & Hx). by exists (length data), random, execfn.
Qed.
End run.

(** C5: giving a program its stack, in any reachable space. The arguments and the
    environment have no zero octets, the argument list is empty only if the
    auxiliary vector does not name the program, the vector ends with its first
    NULL entry and has 64-bit values, and the stack is inside the address range
    and no smaller than [stack_bound] of what is written to it. Then loading
    panics only when a frame's reference count is at its maximum. When it
    succeeds the stack pointer is aligned and in the stack, and the program
    reads from its own memory its argument count, its arguments, its
    environment and its auxiliary vector. Whether or not it succeeds, the bytes
    the process had in memory stay what they were. *)
Theorem loaded_stack_reads os m w args envs vec v ustack_end ustack_size r w' :
  reachable_space os m w → Forall (Forall (λ b, b ≠ 0)) (args ++ envs) → (args = [] → Forall (λ e, auxv_type e ≠ EXECFN) vec) →
  Forall (λ e, u64 (auxv_val e) ∧ auxv_type e ≠ NULL) vec → u64 v →
  stack_bound args envs (vec ++ [MkAuxv NULL v]) ≤ ustack_size → ustack_size ≤ ustack_end ≤ usize_max →
  load_stack ustack_end ustack_size args envs (vec ++ [MkAuxv NULL v]) w = (r, w') →
  load_post args envs vec ustack_end ustack_size w r w'.
Proof.
  intros (l & L & T & H & Hinv & _)%reachable_vm_inv Ht Hx Hvec Hv Hroom Hfit Hrun.
  pose proof (load_stack_spec args envs vec v ustack_end ustack_size Ht Hx Hvec Hv Hroom Hfit w l L T H Hinv) as Hw. unfold wp in Hw. by rewrite Hrun in Hw.
Qed.
End load.
