(* ===== verification/VmFork.v ===== *)
(** * Fork: copying a virtual-memory space (xvma/src/space.rs: [try_clone])

    The child gets the parent's areas and, area by area, the parent's pages:
    shared ones as they are, private ones without the right to write, which the
    parent then loses as well. If anything fails, the child is dropped and the
    parent is what it was. Two spaces use the machine here; each is for the other
    a part of the rest of the system. *)
From S2P Require Import Prelude Errno MemAddr Frame PageTable AddressSpace AspaceInv AspaceTxn.
From S2P Require Import AspaceStatic BTree VmArea VmSpace VmOps VmLayout VmInv VmFault VmUnmap VmProtect VmMap VmTheorems.
From stdpp Require Import prelude gmap list.
Open Scope Z_scope.

Section fork.
Context {CFG : Config} {PA : PageAllocator} {BF : BitFlags} {MA : MemoryAddr} {PT : PageTable}.
Context {PF : PhysFits} {VO : VmObject} {VL : VmObjectLaws} {BY : Bystanders}.
Implicit Types (a : VmArea) (l : list VmArea) (L : gmap Z leaf) (T F : gset Z) (H K o : Z → Z).

(** ** Two spaces on one machine *)

(** A rest of the system that owns the tables [F] and the references [o] *)
Definition rest (F : gset Z) (o : Z → Z) (mem : Z → Z) : Foreign :=
  {| foreign := F; others := o; exclusive := λ _, False; image := mem |}.
(** The part of [as_inv] that does not speak of the machine *)
Record passive (A : AddressSpace) L T : Prop := {
  pa_rep : pt_rep (as_table A) L T;
  pa_alloc : alloc_ok L;
  pa_usize : vr_usize (as_range A);
  pa_valid : ∀ x, vr_start (as_range A) ≤ x < vr_end (as_range A) → vaddr_is_valid x = true;
}.
Lemma as_passive {FT : Foreign} s L T H : as_inv s L T H → passive s.1 L T.
Proof. intros []. by split. Qed.

(** The space [A'] as seen by [A], and the other way round *)
Definition beside (F : gset Z) o (L' : gmap Z leaf) T' (mem : Z → Z) : Foreign :=
  rest (F ∪ T') (λ i, o i + own_count L' i) mem.
Lemma as_switch F o A L T A' L' T' m K :
  as_inv (FT := beside F o L' T' (m_mem m)) (A, m) L T (λ i, own_count L' i + K i) →
  passive A' L' T' → T' ## F → (∀ i, 0 ≤ o i ≤ K i) →
  as_inv (FT := beside F o L T (m_mem m)) (A', m) L' T' (λ i, own_count L i + K i).
Proof.
  intros [_ Hwf HT Hdis Hc _ _ _ _ [[HF HFd] HTF _ _]] [Hrep Hal Hus Hva] HTF' Ho. cbn in *.
  split; cbn; try done.
  - set_solver.
  - intros i Hi. specialize (HFd i Hi). set_solver.
  - intros i. rewrite Hc. lia.
  - intros i. specialize (Ho i). pose proof (own_count_nonneg L i). lia.
  - split; cbn; [split|..]; try done; [set_solver| |set_solver].
    intros i Hi. specialize (HFd i Hi). specialize (Hdis i Hi). set_solver.
Qed.

Lemma own_count_zero L i : (∀ b lf, L !! b = Some lf → owns i lf = false) → own_count L i = 0.
Proof.
  intros Hno. unfold own_count. assert (filter (λ kv : Z * leaf, owns i kv.2 = true) L = ∅) as ->; [|by rewrite map_size_empty].
  apply map_empty. intros b. apply map_lookup_filter_None. right. intros lf Hb. cbn. by rewrite (Hno b lf Hb).
Qed.

(** ** The pages of one area *)

Section clone.
Context (FT0 : Foreign) (w0 : world) (l : list VmArea) (Lp : gmap Z leaf) (Tp : gset Z) (H0 : Z → Z).
Hypothesis (Hinv0 : vm_inv w0 l Lp Tp H0).
#[local] Abbreviation F0 := (foreign (Foreign := FT0)).
#[local] Abbreviation o0 := (others (Foreign := FT0)).
Lemma parent_disjoint : Tp ## F0.
Proof. apply (ai_foreign _ _ _ _ (vi_as _ _ _ _ _ Hinv0)). Qed.
#[local] Abbreviation Ap := (vs_aspace (w_space w0)).
#[local] Abbreviation at_child mem := (beside F0 o0 Lp Tp mem).
Lemma parent_passive : passive Ap Lp Tp.
Proof. apply (as_passive (Ap, w_machine w0) _ _ H0), Hinv0. Qed.
Lemma parent_areas : areas_ok l.
Proof. apply (vi_layout _ _ _ _ _ Hinv0). Qed.

(** The child under construction: its leaves hold whatever the reference counts
    are, and its pages are the parent's. *)
Record cloning (s : AddressSpace * machine) Lc Tc K : Prop := {
  cn_as : as_inv (FT := at_child (m_mem s.2)) s Lc Tc (λ i, own_count Lp i + K i);
  cn_safe : ∀ b lf, Lc !! b = Some lf → ∃ v, ∀ refs, leaf_ok l refs b lf v;
  cn_from : ∀ b lf, Lc !! b = Some lf → is_alloc lf = true →
    ∃ lfp, Lp !! b = Some lfp ∧ is_alloc lfp = true ∧ lf_paddr lfp = lf_paddr lf;
}.
(** The page at [b] of the parent is in the child. *)
Definition copied (Lc : gmap Z leaf) (b : Z) : Prop :=
  ∃ lfp lf, Lp !! b = Some lfp ∧ Lc !! b = Some lf ∧ is_alloc lf = true ∧ lf_paddr lf = lf_paddr lfp.

Definition child_flags (private : bool) (f : Z) : Z :=
  let f := f |-| ALLOC_FRAME |-| PROT_NONE in if private then f |-| WRITE else f.
Lemma child_flags_contains private f k : contains (child_flags private f) k = true → contains f k = true.
Proof. unfold child_flags. intros H. destruct private; repeat apply difference_contains in H; done. Qed.
Lemma child_leaf_ok a b p f f' i refs :
  lookup_area l b = Some a → Lp !! b = Some (Leaf p f Size4K) → is_alloc (Leaf p f Size4K) = true → metadata p = Some i →
  pte_flags Alloc (child_flags (is_private a) f) = Ok f' →
  leaf_ok l refs b (Leaf p (readback f') Size4K) (area_view a b).
Proof.
  intros Ha Hb Hal Hi Hf. destruct (vi_leaves _ _ _ _ _ Hinv0 b _ Hb) as [v [Hv Hsz Hk Hr _ _]].
  rewrite (view_area _ _ _ Ha) in Hv. injection Hv as <-. rewrite view_kind_area in Hk. cbn in Hsz, Hk.
  eapply leaf_ok_new; try done.
  - unfold kind_from_flags in Hk. unfold is_alloc in Hal. cbn in Hal. by rewrite Hal in Hk.
  - intros k Hkb Hc%child_flags_contains. by apply Hr.
  - intros Hp. unfold child_flags. rewrite Hp. by rewrite difference_WRITE.
Qed.

(** A snapshot of one of the parent's pages in the area [a] *)
Definition snapshot a (x : Z * Frame * Z) : Prop :=
  ∃ b p f i, x = (b, MkFrame p, f |-| ALLOC_FRAME |-| PROT_NONE) ∧ Lp !! b = Some (Leaf p f Size4K) ∧
    is_alloc (Leaf p f Size4K) = true ∧ metadata p = Some i ∧ lookup_area l b = Some a.

(** A step of the copying, after which the pages [done] are in the child *)
Definition child_post (s : AddressSpace * machine) Lc K (done : Z → Prop)
    (r : outcome XError ()) (s' : AddressSpace * machine) : Prop :=
  as_range s'.1 = as_range s.1 ∧ m_mem s'.2 = m_mem s.2 ∧ ∃ Lc' Tc', cloning s' Lc' Tc' K ∧ Lc ⊆ Lc' ∧
  match r with Ok _ => ∀ b, done b → copied Lc' b | Err _ => True | Panic => False end.

Lemma snapshot_handles b p f i fs j :
  metadata p = Some i →
  handles ((b, MkFrame p, f) :: fs) j = delta i j + handles fs j.
Proof.
  intros Hi. rewrite handles_cons. unfold holds, delta. cbn. rewrite Hi. repeat case_bool_decide; simplify_eq; done.
Qed.
Lemma cloning_insert a s Lc Tc K b p f f' i s' Tc' K' :
  cloning s Lc Tc K → Lp !! b = Some (Leaf p f Size4K) → is_alloc (Leaf p f Size4K) = true →
  metadata p = Some i → lookup_area l b = Some a →
  pte_flags Alloc (child_flags (is_private a) f) = Ok f' → m_mem s'.2 = m_mem s.2 →
  as_inv (FT := at_child (m_mem s.2)) s' (<[b := Leaf p (readback f') Size4K]> Lc) Tc'
    (λ j, own_count Lp j + K' j) →
  cloning s' (<[b := Leaf p (readback f') Size4K]> Lc) Tc' K'.
Proof.
  intros [_ Hsafe Hfrom] Hb Hal Hi Ha Hf Hm Has. split; [by rewrite Hm|..];
    intros b' lf [[<- <-]|[_ ?]]%lookup_insert_Some; eauto.
  exists (area_view a b). intros refs. by eapply child_leaf_ok.
Qed.
Lemma cloning_same s Lc Tc K s' Tc' K' :
  cloning s Lc Tc K → m_mem s'.2 = m_mem s.2 →
  as_inv (FT := at_child (m_mem s.2)) s' Lc Tc' (λ j, own_count Lp j + K' j) → cloning s' Lc Tc' K'.
Proof. intros [_ ? ?] Hm Has. split; try done. by rewrite Hm. Qed.
Lemma copied_mono Lc Lc' b : Lc ⊆ Lc' → copied Lc b → copied Lc' b.
Proof. intros Hsub (lfp & lf & ? & ? & ?). exists lfp, lf. split; [done|]. split; [by eapply lookup_weaken|done]. Qed.

Lemma map_child_frames_spec a fs s Lc Tc K :
  cloning s Lc Tc (λ i, K i + handles fs i) → (∀ i, 0 ≤ o0 i ≤ K i) → Forall (snapshot a) fs →
  wp (map_child_frames (is_private a) fs) s (child_post s Lc K (λ b, ∃ x, x ∈ fs ∧ x.1.1 = b)).
Proof.
  revert s Lc Tc. induction fs as [|x fs IH]; intros s Lc Tc Hcl Ho Hfs.
  { cbn [map_child_frames]. wp_step. split_and!; try done. exists Lc, Tc. split; [|split; [done|intros b (x & Hx & _); by apply elem_of_nil in Hx]].
    eapply cloning_same; [exact Hcl|done|]. eapply as_inv_ext; [|apply Hcl]. intros i. unfold handles. cbn. lia. }
  apply Forall_cons in Hfs as [(b & p & f & i & -> & Hb & Hal & Hi & Ha) Hfs]. cbn [map_child_frames].
  pose proof (λ j, snapshot_handles b p (f |-| ALLOC_FRAME |-| PROT_NONE) i fs j Hi) as Hh.
  pose proof (cn_as _ _ _ _ Hcl) as Has. fold (child_flags (is_private a) f). wp_step.
  assert (0 ≤ b) as Hb0 by apply (lw_base _ _ _ (pt_rep_wf _ _ _ (pa_rep _ _ _ parent_passive)) _ _ Hb).
  assert (∀ s' L' T', as_inv (FT := at_child (m_mem s.2)) s' L' T'
      (fupd (λ j, own_count Lp j + (K j + handles ((b, MkFrame p, f |-| ALLOC_FRAME |-| PROT_NONE) :: fs) j)) i
         (own_count Lp i + (K i + handles ((b, MkFrame p, f |-| ALLOC_FRAME |-| PROT_NONE) :: fs) i) - 1)) →
    as_inv (FT := at_child (m_mem s.2)) s' L' T' (λ j, own_count Lp j + (K j + handles fs j))) as Hdrop.
  { intros s' L' T'. apply as_inv_ext. intros j. rewrite fupd_case, Hh, Hh. unfold delta.
    case_decide; case_bool_decide; subst; try done; rewrite ?bool_decide_eq_true_2 by done; lia. }
  eapply wp_mono; [eapply (map_frame_spec (FT := at_child (m_mem s.2))); [exact Has|done| |done]|].
  { cbn. rewrite Hh. unfold delta. rewrite bool_decide_eq_true_2 by done. pose proof (Ho i). pose proof (handles_nonneg fs i). lia. }
  intros r s' (Hr & Hm & _ & Tc' & Hres). destruct r as [[]|e|]; [| |done].
  - destruct Hres as (f' & Hf' & _ & Hno & _ & Has'%Hdrop).
    eapply wp_mono; [eapply (IH s' _ Tc'); [by eapply cloning_insert|done|done]|].
    intros r s'' (Hr' & Hm' & Lc' & Tc'' & Hcl' & Hsub & Hok').
    split; [by rewrite Hr'|]. split; [by rewrite Hm'|]. exists Lc', Tc''. split; [done|].
    assert (Lc !! b = None) as Hfresh.
    { apply eq_None_not_Some. intros [lf Hlf]. apply (leaf_find_None (as_inv_wf _ _ _ _ Has)) with (b := b) (lf := lf) in Hno.
      apply Hno. pose proof (page_bytes_pos (lf_size lf)). split; [done|lia]. }
    split; [by etrans; [apply insert_subseteq|]|]. destruct r as [[]| |]; try done.
    intros b' (x & [->|Hx]%elem_of_cons & <-); [|by apply Hok'; exists x]. exists (Leaf p f Size4K), (Leaf p (readback f') Size4K). cbn.
    split_and!; try done; [eapply lookup_weaken; [|exact Hsub]; by rewrite lookup_insert_eq|].
    unfold is_alloc. cbn. apply pte_flags_leaf in Hf' as [Hl Hf']. by rewrite readback_alloc, Hf'.
  - destruct Hres as [Has'%Hdrop _]. unfold on_machine. wp_step. wp_step.
    eapply wp_mono; [eapply (drop_snapshots_spec (FT := at_child (m_mem s.2)) fs s' _ _ (λ j, own_count Lp j + K j))|].
    + eapply as_inv_ext; [|exact Has']. intros j. cbn. lia.
    + intros j. cbn. pose proof (Ho j). pose proof (own_count_nonneg Lp j). lia.
    + intros x Hx. eapply Forall_forall in Hfs as (? & ? & ? & j & -> & _ & _ & ? & _); [|exact Hx]. by exists j.
    + intros r m' (-> & [Hmm _] & Has''). wp_step. split; [done|]. cbn. split; [by rewrite Hmm|].
      exists Lc, Tc'. split; [|done]. eapply (cloning_same s); [exact Hcl|cbn; by rewrite Hmm|exact Has''].
Qed.

(** ** Copying an area *)

(** The allocator-owned pages of an area *)
Definition pages_of a (b : Z) : Prop := ∃ lf, Lp !! b = Some lf ∧ is_alloc lf = true ∧ inside a b.

Lemma snapshots_of_area a vs fs :
  a ∈ l → Forall2 snapshot_of vs fs →
  (∀ b p f ps, (b, p, f, ps) ∈ vs ↔ vr_start (a_range a) < vr_end (a_range a) ∧
    Lp !! b = Some (Leaf p f ps) ∧ leaf_meets (vr_start (a_range a)) (vr_end (a_range a)) b (Leaf p f ps)) →
  Forall (snapshot a) fs ∧ ∀ b, pages_of a b → ∃ x, x ∈ fs ∧ x.1.1 = b.
Proof.
  intros Ha Hfs Hvs. pose proof (areas_ok_elem _ _ parent_areas Ha) as Haok. split.
  - apply Forall_forall. intros x Hx. apply list_elem_of_lookup in Hx as [n Hx].
    destruct (Forall2_lookup_r _ _ _ _ _ Hfs Hx) as ([[[b p] f] ps] & Hv & -> & Hal & ->).
    apply list_elem_of_lookup_2, Hvs in Hv as (Hne & Hb & Hm).
    destruct (ai_alloc _ _ _ _ (vi_as _ _ _ _ _ Hinv0) b _ Hb Hal) as [_ [i Hi]].
    exists b, p, f, i. split_and!; try done. apply lookup_area_Some; [apply parent_areas|]. split; [done|].
    destruct (area_range_fits w0 l Lp Tp H0 a (vr_start (a_range a)) (vr_end (a_range a)) Hinv0 Ha) with (b := b) (lf := Leaf p f Size4K)
      as (Hlo & Hhi & _); try done; [apply Haok..|]. unfold inside. cbn in Hhi. lia.
  - intros b ([p f ps] & Hb & Hal & Hi). assert ((b, p, f, ps) ∈ vs) as Hv.
    { apply Hvs. unfold inside in Hi. pose proof (page_bytes_pos ps). split; [lia|]. split; [done|]. unfold leaf_meets. cbn. lia. }
    apply list_elem_of_lookup in Hv as [n Hv]. destruct (Forall2_lookup_l _ _ _ _ _ Hfs Hv) as (x & Hx & -> & _).
    eexists. split; [by eapply list_elem_of_lookup_2|done].
Qed.

Lemma map_child_alloc a s Lc Tc K :
  cloning s Lc Tc K → (∀ i, 0 ≤ o0 i ≤ K i) → a ∈ l →
  wp (frames ← on_machine (zoom (λ m, (Ap, m)) (λ s _, s.2) (mapped_frames (a_range a)));
      map_child_frames (is_private a) frames) s (child_post s Lc K (pages_of a)).
Proof.
  intros Hcl Ho Ha. pose proof (areas_ok_elem _ _ parent_areas Ha) as Haok. pose proof (cn_as _ _ _ _ Hcl) as Has.
  assert (Tc ## F0) as HTc by (pose proof (fo_disjoint _ _ _ _ (ai_foreign _ _ _ _ Has)) as Hd; cbn in Hd; set_solver).
  destruct s as [Ac m]. cbn [fst snd] in *.
  pose proof (as_switch F0 o0 Ac Lc Tc Ap Lp Tp m K Has parent_passive parent_disjoint Ho) as Hpar.
  unfold on_machine. wp_step. wp_step. wp_step. cbn [fst snd].
  eapply wp_mono; [apply (mapped_frames_spec (FT := beside F0 o0 Lc Tc (m_mem m)) _ _ _ _ _ Hpar)|].
  1: pose proof (ao_nonempty a Haok); pose proof (ao_usize a Haok); lia.
  1: apply Haok.
  intros r [A' m1] (HA' & [Hm _] & Hr). cbn [fst snd] in *. subst A'.
  assert (∀ K', as_inv (FT := beside F0 o0 Lc Tc (m_mem m)) (Ap, m1) Lp Tp (λ i, own_count Lc i + K' i) → (∀ i, 0 ≤ o0 i ≤ K' i) →
    cloning (Ac, m1) Lc Tc K') as Hback.
  { intros K' Has' Ho'. eapply cloning_same; [exact Hcl|done|]. cbn. rewrite <- Hm in Has' |- *.
    eapply as_switch; try done. by apply (as_passive _ _ _ _ Has). }
  destruct r as [fs|e|]; [| |done].
  - destruct Hr as (Has' & _ & vs & Hfs & _ & Hvs). destruct (snapshots_of_area a vs fs Ha Hfs Hvs) as [Hsn Hall].
    eapply wp_mono; [eapply map_child_frames_spec; [apply Hback|done|exact Hsn]|].
    + eapply as_inv_ext; [|exact Has']. intros i. cbn. lia.
    + intros i. pose proof (Ho i). pose proof (handles_nonneg fs i). lia.
    + intros r s' (Hr & Hm' & Lc' & Tc' & Hcl' & Hsub & Hok). cbn in *. split; [done|]. split; [by rewrite Hm'|].
      exists Lc', Tc'. split; [done|]. split; [done|]. destruct r; auto.
  - split; [done|]. split; [done|]. exists Lc, Tc. auto.
Qed.

Lemma map_child_static a frames s Lc Tc K :
  cloning s Lc Tc K → a ∈ l → source (a_backing a) = SrcStatic frames →
  wp (map_static_range (vr_start (a_range a)) frames (a_flags a) (a_page_size a)) s (child_post s Lc K (pages_of a)).
Proof.
  intros Hcl Ha Hsrc. pose proof (areas_ok_elem _ _ parent_areas Ha) as Haok. pose proof (cn_as _ _ _ _ Hcl) as Has.
  pose proof (ao_source a Haok) as Hs. rewrite Hsrc in Hs. destruct Hs as (Hp & Hsz & Hal & H1 & H2 & _).
  pose proof (ao_nonempty a Haok) as Hne.
  eapply wp_mono; [apply (map_static_range_spec (FT := at_child (m_mem s.2)) s Lc Tc _ _ _ _ _ Has); try (done || lia); apply Haok|].
  intros r s' (Hr & Hm & Tc' & Hpost). split; [done|]. split; [done|]. destruct r as [[]|e|]; [| |done].
  2: { exists Lc, Tc'. split; [by eapply cloning_same|done]. }
  destruct Hpost as ((Hrok & _ & _ & Hnone) & f' & Hf & Has').
  pose proof (pte_flags_leaf _ _ _ Hf) as [Hleaf Halloc]. set (xs := pages _ _ _) in *.
  pose proof (static_fresh s Lc Tc _ a frames Has Hsz Hrok Hnone) as Hxs. fold xs in Hxs.
  exists (installed (vr_start (a_range a)) (sfr_start frames) f' (a_page_size a) xs Lc), Tc'. split_and!.
  - split; [by rewrite Hm|..]; intros b lf [[Hx ->]|[_ Hb]]%installed_lookup; try done; try by eapply Hcl.
    + exists (area_view a b). intros refs. apply static_leaf_ok; try done. apply view_area.
      apply lookup_area_Some; [apply parent_areas|]. split; [done|]. by apply Hxs.
    + unfold is_alloc. cbn. by rewrite readback_alloc, Halloc.
  - apply map_subseteq_spec. intros b lf Hb. apply installed_lookup; try done. right. split; [|done].
    intros Hx. destruct (Hxs b Hx). congruence.
  - intros b (lf & Hb & Hlf & Hi). exfalso. destruct (leaf_in_area _ _ _ _ _ _ _ Hinv0 Hb) as (a' & Ha' & Hi' & _ & _ & Hk).
    assert (a' = a) as -> by (eapply area_unique; [apply parent_areas|done..]).
    revert Hk. unfold area_kind, kind_from_flags. unfold is_alloc in Hlf. by rewrite Hsrc, Hlf.
Qed.

Lemma area_map_child_spec a s Lc Tc K :
  cloning s Lc Tc K → (∀ i, 0 ≤ o0 i ≤ K i) → a ∈ l →
  wp (area_map_child a Ap) s (child_post s Lc K (pages_of a)).
Proof.
  intros Hcl Ho Ha. unfold area_map_child, backing_map_child. fold (is_private a).
  destruct (source (a_backing a)) as [|frames|] eqn:Hsrc; [by eapply map_child_alloc|by eapply map_child_static|by eapply map_child_alloc].
Qed.

(** All areas, in their order *)
Lemma clone_areas_spec w child Lc Tc K :
  cloning (vs_aspace child, w_machine w) Lc Tc K → (∀ i, 0 ≤ o0 i ≤ K i) →
  wp (for_each l (λ area, on_child (area_map_child area Ap))) (w, child) (λ r s', ∃ A' m',
    s' = (World (w_space w) (w_objects w) m', MkVmSpace (vs_range child) (vs_areas child) A' (vs_guards child)) ∧
    child_post (vs_aspace child, w_machine w) Lc K (λ b, ∃ a, a ∈ l ∧ pages_of a b) r (A', m')).
Proof.
  intros Hcl Ho. apply (wp_for_each (λ pre s', ∃ A' m',
    s' = (World (w_space w) (w_objects w) m', MkVmSpace (vs_range child) (vs_areas child) A' (vs_guards child)) ∧
    child_post (vs_aspace child, w_machine w) Lc K (λ b, ∃ a, a ∈ pre ∧ pages_of a b) (Ok ()) (A', m'))).
  - exists (vs_aspace child), (w_machine w). split; [by destruct w, child|]. do 2 (split; [done|]).
    exists Lc, Tc. do 2 (split; [done|]). intros b (a & Ha & _). by apply elem_of_nil in Ha.
  - intros pre a suf s Hl (A1 & m1 & -> & Hr1 & Hm1 & Lc1 & Tc1 & Hcl1 & Hsub1 & Hdone1). unfold on_child. wp_step. cbn [fst snd].
    eapply wp_mono; [apply (area_map_child_spec a (A1, m1) Lc1 Tc1 K Hcl1 Ho)|].
    { rewrite Hl. apply elem_of_app. right. left. }
    intros r [A2 m2] (Hr2 & Hm2 & Lc2 & Tc2 & Hcl2 & Hsub2 & Hdone2). cbn in *.
    destruct r as [[]|e|]; [| |done]; exists A2, m2; (split; [done|]); (split; [cbn; congruence|]); (split; [cbn; congruence|]);
      exists Lc2, Tc2; (split; [done|]); (split; [by etrans|]); [|done].
    intros b (a' & [Ha'| ->%list_elem_of_singleton]%elem_of_app & Hb); [|by apply Hdone2].
    eapply copied_mono; [done|]. apply Hdone1. eauto.
  - eauto.
Qed.

(** ** The parent loses the right to write its private pages *)

Record disarmed (k : list VmArea) (L' : gmap Z leaf) : Prop := {
  dm_back : ∀ b lf', L' !! b = Some lf' → ∃ lf a, Lp !! b = Some lf ∧ lookup_area l b = Some a ∧
    (lf' = lf ∨ new_leaf a (a_flags a |-| WRITE) (m_refs (w_machine w0)) lf lf');
  dm_all : ∀ b lf, Lp !! b = Some lf → is_Some (L' !! b);
  dm_off : ∀ a b lf', a ∈ k → is_private a = true → inside a b → L' !! b = Some lf' →
    contains (lf_flags lf') WRITE = false;
}.
Lemma new_leaf_off a refs lf lf' :
  new_leaf a (a_flags a |-| WRITE) refs lf lf' → contains (lf_flags lf') WRITE = false.
Proof.
  intros (g & f' & Hf & -> & Hg & _). destruct (contains _ WRITE) eqn:Hw; [|done].
  assert (WRITE ∈ right_bits) as Hin by (unfold right_bits; set_solver).
  apply (pte_flags_rights _ _ _ _ Hf Hin) in Hw. apply (Hg _ Hin) in Hw. by rewrite difference_WRITE in Hw.
Qed.
Lemma new_leaf_refs a refs refs' lf lf' :
  new_leaf a (a_flags a |-| WRITE) refs lf lf' → new_leaf a (a_flags a |-| WRITE) refs' lf lf'.
Proof.
  intros (g & f' & Hf & -> & Hg & _). exists g, f'. do 3 (split; [done|]). intros _ Hw.
  apply Hg in Hw; [|unfold right_bits; set_solver]. by rewrite difference_WRITE in Hw.
Qed.
Lemma disarmed_nil : disarmed [] Lp.
Proof.
  split; [|eauto|intros a b lf' Ha; by apply elem_of_nil in Ha].
  intros b lf Hb. destruct (vi_leaves _ _ _ _ _ Hinv0 b lf Hb) as [v Hv].
  destruct (view_Some _ _ _ (lv_view _ _ _ _ _ Hv)) as (a & Ha & _). exists lf, a. auto.
Qed.
(** A private area without the right to write has no writable page. *)
Lemma disarmed_readonly k L' a :
  disarmed k L' → a ∈ l → (is_private a = true → contains (a_flags a) WRITE = false) → disarmed (k ++ [a]) L'.
Proof.
  intros [Hback Hall Hoff] Ha Hw. split; [done..|].
  intros a' b lf' [Ha'| ->%list_elem_of_singleton]%elem_of_app Hp Hi Hb; [by eapply Hoff|].
  destruct (Hback b lf' Hb) as (lf & a' & Hlf & Ha' & [->|Hn]); [|by eapply new_leaf_off].
  destruct (vi_leaves _ _ _ _ _ Hinv0 b lf Hlf) as [v [Hv _ _ Hr _ _]].
  rewrite (view_area _ b a) in Hv by (apply lookup_area_Some; [apply parent_areas|done]). injection Hv as <-.
  destruct (contains (lf_flags lf) WRITE) eqn:Hc; [|done]. apply Hr in Hc; [|unfold right_bits; set_solver].
  cbn in Hc. rewrite Hw in Hc; done.
Qed.
Lemma disarmed_snoc k a refs L1 L2 :
  disarmed k L1 → a ∈ l →
  repainted a (a_flags a |-| WRITE) refs (vr_start (a_range a)) (vr_end (a_range a)) L1 L2 →
  disarmed (k ++ [a]) L2.
Proof.
  intros [Hback Hall Hoff] Ha [Hout Hnone Hin]. split.
  - intros b lf2 Hb. destruct (L1 !! b) as [lf1|] eqn:Hb1; [|by rewrite Hnone in Hb].
    destruct (Hback b lf1 Hb1) as (lf & a' & Hlf & Ha' & Hor). exists lf, a'. do 2 (split; [done|]).
    destruct (decide (vr_start (a_range a) ≤ b < vr_end (a_range a))) as [Hr|Hr]; [|rewrite Hout in Hb by done; congruence].
    destruct (Hin b lf1 Hb1 Hr) as (lf' & Hb' & Hnew%(new_leaf_refs _ _ (m_refs (w_machine w0)))).
    assert (lookup_area l b = Some a) as Hab by (apply lookup_area_Some; [apply parent_areas|done]).
    rewrite Hab in Ha'. injection Ha' as <-. rewrite Hb in Hb'. injection Hb' as <-. right.
    destruct Hor as [->|Hold]; [done|]. by eapply new_leaf_again.
  - intros b lf Hlf. destruct (Hall b lf Hlf) as [lf1 Hb1].
    destruct (decide (vr_start (a_range a) ≤ b < vr_end (a_range a))) as [Hr|Hr]; [|rewrite Hout; eauto].
    destruct (Hin b lf1 Hb1 Hr) as (lf' & ? & _). eauto.
  - intros a' b lf2 Ha' Hp Hi Hb. destruct (L1 !! b) as [lf1|] eqn:Hb1; [|by rewrite Hnone in Hb].
    destruct (decide (vr_start (a_range a) ≤ b < vr_end (a_range a))) as [Hr|Hr].
    + destruct (Hin b lf1 Hb1 Hr) as (lf' & Hb' & Hnew). rewrite Hb in Hb'. injection Hb' as <-. by eapply new_leaf_off.
    + rewrite Hout in Hb by done. apply elem_of_app in Ha' as [Ha'| ->%list_elem_of_singleton]; [by eapply Hoff|done].
Qed.

Lemma area_protect_parent_spec {FT : Foreign} t L1 H k a :
  txn_inv t Lp L1 Tp H → disarmed k L1 → a ∈ l →
  wp (area_protect_parent_after_fork a) t (λ r t', quiet t.2 t'.2 ∧
    match r with
    | Ok _ => ∃ L', txn_inv t' Lp L' Tp H ∧ disarmed (k ++ [a]) L'
    | Err _ => ∃ L', txn_inv t' Lp L' Tp H
    | Panic => False
    end).
Proof.
  intros Ht Hd Ha. pose proof (areas_ok_elem _ _ parent_areas Ha) as Haok. pose proof (ao_usize a Haok). pose proof (ao_nonempty a Haok).
  unfold area_protect_parent_after_fork, backing_protect_parent_after_fork. fold (is_private a).
  destruct (is_private a && contains (a_flags a) WRITE) eqn:Hc.
  2: { wp_step. split; [done|]. exists L1. split; [done|]. apply disarmed_readonly; try done. intros Hp. by rewrite Hp in Hc. }
  apply andb_true_iff in Hc as [Hp _]. rewrite vr_size_spec by lia. unfold txn_protect_alloc_range.
  assert (area_kind a = Alloc ∧ a_page_size a = Size4K) as [Hk Hps].
  { pose proof (ao_source a Haok) as Hs. unfold area_kind. destruct (source (a_backing a)); [by destruct Hs| |by destruct Hs].
    destruct Hs as [Hs _]. congruence. }
  rewrite <- Hk, <- Hps. eapply wp_mono; [apply (protect_with t Lp L1 Tp H a _ _ (a_flags a |-| WRITE)); try (done || lia)|].
  - apply reads_refs_const.
  - intros b p g [= <-]. apply permitted_refl. right. apply difference_WRITE.
  - intros r t' [Hq Hr]. split; [done|]. destruct r as [[]|e|]; try done. destruct Hr as (L' & Ht' & Hrp).
    exists L'. split; [done|]. by eapply disarmed_snoc.
Qed.

Lemma protect_parent_spec {FT : Foreign} s H :
  as_inv s Lp Tp H →
  wp (with_txn (for_each l area_protect_parent_after_fork)) s (λ r s', quiet s s' ∧
    match r with
    | Ok _ => ∃ L', as_inv s' L' Tp H ∧ disarmed l L'
    | Err _ => as_inv s' Lp Tp H
    | Panic => False
    end).
Proof.
  intros Has. eapply wp_mono; [apply (with_txn_spec _ s Lp Tp H (λ _ s' L', quiet s s' ∧ disarmed l L') (λ _, True)); [done|]|].
  - apply (wp_for_each (λ pre t, quiet s t.2 ∧ ∃ L', txn_inv t Lp L' Tp H ∧ disarmed pre L')).
    + split; [done|]. exists Lp. split; [split; [done|constructor]|apply disarmed_nil].
    + intros pre a suf t Hl [Hq (L1 & Ht & Hd)].
      eapply wp_mono; [apply (area_protect_parent_spec t L1 H pre a Ht Hd)|].
      { rewrite Hl. apply elem_of_app. right. left. }
      intros r t' [Hq' Hr]. pose proof (quiet_trans _ _ _ Hq Hq') as Hq2. destruct r; auto.
    + intros t [Hq (L' & Ht & Hd)]. eauto.
  - intros [[]|e|] s'; [|by intros (? & ? & _)|done]. intros (L' & ? & ? & ?). eauto.
Qed.

(** ** What the two have in the end *)

Lemma leaf_ok_readonly refs b lf v :
  leaf_ok l refs b lf v → (pv_private v = true → contains (lf_flags lf) WRITE = false) →
  ∀ refs', leaf_ok l refs' b lf v.
Proof. intros [] Hw refs'. split; try done. intros Hp. by rewrite Hw. Qed.
Lemma disarmed_safe L' b lf' :
  disarmed l L' → L' !! b = Some lf' → ∃ v, ∀ refs, leaf_ok l refs b lf' v.
Proof.
  intros [Hback _ Hoff] Hb. destruct (Hback b lf' Hb) as (lf & a & Hlf & Ha & Hor).
  destruct (vi_leaves _ _ _ _ _ Hinv0 b lf Hlf) as [v Hv].
  pose proof (lv_view _ _ _ _ _ Hv) as Hva. rewrite (view_area _ _ _ Ha) in Hva. injection Hva as <-.
  assert (∃ v', leaf_ok l (m_refs (w_machine w0)) b lf' v') as [v' Hv'].
  { destruct Hor as [->|Hnew]; [eauto|]. apply (painted_leaf_ok l l _ a b lf lf' (area_view a b) (a_flags a)); try done.
    - destruct Hnew as (g & f' & Hf & -> & Hg & Hg'). exists g, f'. do 2 (split; [done|]). split; [|done].
      intros k Hk Hc. eapply difference_contains. by apply Hg.
    - by apply view_area. }
  exists v'. eapply leaf_ok_readonly; [done|]. intros Hp.
  pose proof (lv_view _ _ _ _ _ Hv') as Hva. rewrite (view_area _ _ _ Ha) in Hva. injection Hva as <-.
  apply lookup_area_Some in Ha as [Ha Hi]; [|apply parent_areas]. by eapply Hoff.
Qed.
Lemma disarmed_shape L' b lf' :
  disarmed l L' → L' !! b = Some lf' →
  ∃ lf, Lp !! b = Some lf ∧ lf_paddr lf' = lf_paddr lf ∧ is_alloc lf' = is_alloc lf.
Proof.
  intros [Hback _ _] Hb. destruct (Hback b lf' Hb) as (lf & a & Hlf & Ha & Hor). exists lf. split; [done|].
  destruct Hor as [->|(g & f' & Hf & -> & _)]; [done|]. split; [done|].
  destruct (leaf_in_area _ _ _ _ _ _ _ Hinv0 Hlf) as (a' & Ha' & Hi' & _ & _ & Hk).
  apply lookup_area_Some in Ha as [Ha Hi]; [|apply parent_areas].
  assert (a' = a) as -> by (eapply area_unique; [apply parent_areas|done..]).
  pose proof (pte_flags_leaf _ _ _ Hf) as [Hleaf Hal]. unfold is_alloc, set_leaf_flags. cbn.
  rewrite readback_alloc, Hal by done. unfold kind_from_flags in Hk.
  destruct (contains (lf_flags lf) ALLOC_FRAME), (area_kind a); done.
Qed.
(** Spaces whose pages are the same frames show the same bytes. *)
Lemma keeps_bytes_frames A L T A' L' T' m m' :
  passive A L T → passive A' L' T' → m_mem m' = m_mem m →
  (∀ b lf, L !! b = Some lf → is_alloc lf = true → ∃ lf', L' !! b = Some lf' ∧ is_alloc lf' = true ∧ lf_paddr lf' = lf_paddr lf) →
  keeps_bytes L m L' m'.
Proof.
  intros [Hrep Hal _ _] [Hrep' Hal' _ _] Hm Hall x b lf Hf Ha.
  apply (leaf_find_Some (pt_rep_wf _ _ _ Hrep)) in Hf as [Hb Hr].
  destruct (Hall b lf Hb Ha) as (lf' & Hb' & Ha' & Hp). exists lf'. split_and!; [|done|by rewrite Hm, Hp].
  apply (leaf_find_Some (pt_rep_wf _ _ _ Hrep')). split; [done|].
  destruct (Hal b lf Hb Ha) as [Hs _], (Hal' b lf' Hb' Ha') as [Hs' _]. by rewrite Hs', <- Hs.
Qed.

(** ** [try_clone] *)

Definition same_space (vs vs' : VmSpace) : Prop :=
  vs_range vs' = vs_range vs ∧ vs_areas vs' = vs_areas vs ∧ vs_guards vs' = vs_guards vs ∧
  as_range (vs_aspace vs') = as_range (vs_aspace vs).
(** A child with the parent's areas *)
Definition child_ok (c : VmSpace) : Prop :=
  vs_range c = vs_range (w_space w0) ∧ as_range (vs_aspace c) = vs_range c ∧ vs_areas c = vs_areas (w_space w0).

Lemma parent_handles i : 0 ≤ o0 i ≤ H0 i.
Proof. apply (vi_as _ _ _ _ _ Hinv0). Qed.
Lemma child_vm_inv c m Lc Tc :
  cloning (vs_aspace c, m) Lc Tc H0 → child_ok c →
  vm_inv (FT := at_child (m_mem m)) (World c (w_objects w0) m) l Lc Tc (λ i, own_count Lp i + H0 i).
Proof.
  intros [Has Hsafe _] (Hr & Hra & Ha). split; cbn; try done.
  - by eapply layout_same; [apply Hinv0|..].
  - intros i. pose proof (vi_held _ _ _ _ _ Hinv0 i). pose proof (own_count_nonneg Lp i). lia.
  - apply Hinv0.
  - intros b lf Hb. destruct (Hsafe b lf Hb) as [v Hv]. exists v. apply Hv.
  - apply Hinv0.
Qed.
Lemma cloning_disjoint s Lc Tc K : cloning s Lc Tc K → Tc ## F0.
Proof. intros [Has _ _]. pose proof (fo_disjoint _ _ _ _ (ai_foreign _ _ _ _ Has)) as Hd. cbn in Hd. set_solver. Qed.

Definition clone_post (r : outcome XError ()) (s' : world * VmSpace) : Prop :=
  child_ok s'.2 ∧ same_space (w_space w0) (w_space s'.1) ∧ w_objects s'.1 = w_objects w0 ∧
  m_mem (w_machine s'.1) = m_mem (w_machine w0) ∧
  match r with
  | Ok _ => ∃ m1 Lc Tc L', cloning (vs_aspace s'.2, m1) Lc Tc H0 ∧ (∀ a b, a ∈ l → pages_of a b → copied Lc b) ∧
      disarmed l L' ∧ as_inv (FT := beside F0 o0 Lc Tc (m_mem (w_machine w0)))
        (vs_aspace (w_space s'.1), w_machine s'.1) L' Tp (λ i, own_count Lc i + H0 i) ∧
      m_refs (w_machine s'.1) = m_refs m1
  | Err _ => ∃ Lc Tc, cloning (vs_aspace s'.2, w_machine s'.1) Lc Tc H0 ∧ passive (vs_aspace (w_space s'.1)) Lp Tp
  | Panic => False
  end.

Lemma cloning_reserve A m Lc Tc K :
  cloning (A, m) Lc Tc K →
  ∃ b m1, try_reserve (E := XError) m = (Ok b, m1) ∧ m_mem m1 = m_mem m ∧ cloning (A, m1) Lc Tc K.
Proof.
  intros Hcl. unfold try_reserve. destruct (m_reserve m) as [|b bs]; [by exists true, m|].
  eexists b, _. split; [done|]. split; [done|]. eapply (cloning_same (A, m)); [exact Hcl|done|].
  eapply (as_inv_machine (FT := at_child (m_mem m)) (A, m)); [apply Hcl|done..].
Qed.
Lemma clone_into_child_spec m child Tc :
  cloning (vs_aspace child, m) ∅ Tc H0 → m_mem m = m_mem (w_machine w0) →
  vs_range child = vs_range (w_space w0) → as_range (vs_aspace child) = vs_range child →
  wp clone_into_child (World (w_space w0) (w_objects w0) m, child) clone_post.
Proof.
  intros Hcl Hm Hr Hra. unfold clone_into_child. wp_steps. cbn [fst snd w_space].
  unfold on_parent at 1, on_wm. wp_steps. cbn [fst snd].
  destruct (cloning_reserve _ _ _ _ _ Hcl) as (b & m1 & Hres & Hm1 & Hcl1).
  assert (∀ m2 A2 Lc Tc2 e g, cloning (A2, m2) Lc Tc2 H0 → m_mem m2 = m_mem m1 → as_range A2 = as_range (vs_aspace child) →
    clone_post (Err e) (World (w_space w0) (w_objects w0) m2, MkVmSpace (vs_range child) (vs_areas (w_space w0)) A2 g)) as Hfail.
  { intros m2 A2 Lc Tc2 e g Hcl2 Hm2 Hr2. split; [split_and!; cbn; congruence|]. split; [done|]. split; [done|].
    split; [cbn; congruence|]. exists Lc, Tc2. split; [done|apply parent_passive]. }
  eapply wp_eq; [exact Hres|]. cbn [fst snd]. destruct b; cbn [negb]; [|wp_step; by eapply Hfail].
  wp_steps. cbn [fst snd vs_areas]. rewrite (lo_values _ _ (vi_layout _ _ _ _ _ Hinv0)).
  eapply wp_mono; [eapply clone_areas_spec; [exact Hcl1|apply parent_handles]|].
  intros r s' (A2 & m2 & -> & Hr2 & Hm2 & Lc & Tc2 & Hcl2 & _ & Hdone). cbn [fst snd vs_aspace w_machine] in Hr2, Hm2.
  destruct r as [[]|e|]; [|by eapply Hfail|done].
  unfold on_parent, on_aspace. wp_steps. cbn [fst snd w_space w_machine].
  pose proof (as_switch F0 o0 A2 Lc Tc2 Ap Lp Tp m2 H0 (cn_as _ _ _ _ Hcl2) parent_passive parent_disjoint parent_handles) as Hpar.
  eapply wp_mono; [eapply (protect_parent_spec (FT := beside F0 o0 Lc Tc2 (m_mem m2))); exact Hpar|].
  intros r [A3 m3] [(Hq1 & Hq2 & Hq3 & Hq4) Hres3]. cbn [fst snd] in *.
  assert (m_mem m2 = m_mem (w_machine w0)) as Hm20 by congruence.
  split; [split_and!; cbn; congruence|]. split; [done|]. split; [done|]. split; [cbn; congruence|].
  destruct r as [[]|e|]; [| |done]; cbn.
  - destruct Hres3 as (L' & Has' & Hd). exists m2, Lc, Tc2, L'. rewrite <- Hm20. split; [done|]. split; [|done].
    intros a b Ha Hb. apply Hdone. eauto.
  - exists Lc, Tc2. split; [|by apply (as_passive (A3, m3) _ _ _ Hres3)].
    eapply (cloning_same (A2, m2)); [exact Hcl2|done|]. cbn. rewrite <- Hq2 in Hres3 |- *.
    eapply as_switch; [exact Hres3|by apply (as_passive (A2, m2) _ _ _ (cn_as _ _ _ _ Hcl2))|by eapply cloning_disjoint|apply parent_handles].
Qed.

(** The parent and the child of a successful fork; neither has a writable page in
    a private area. *)
Record forked (w' : world) (child : VmSpace) (L' Lc : gmap Z leaf) (Tc : gset Z) : Prop := {
  fk_parent : vm_inv (FT := beside F0 o0 Lc Tc (m_mem (w_machine w'))) w' l L' Tp (λ i, own_count Lc i + H0 i);
  fk_child : vm_inv (FT := beside F0 o0 L' Tp (m_mem (w_machine w'))) (World child (w_objects w') (w_machine w'))
    l Lc Tc (λ i, own_count L' i + H0 i);
  fk_range : vs_range child = vs_range (w_space w');
  fk_counts : ∀ i, own_count L' i = own_count Lp i ∧ (own_count Lp i = 0 → own_count Lc i = 0);
  fk_safe : ∀ b lf, L' !! b = Some lf ∨ Lc !! b = Some lf → ∃ v, ∀ refs, leaf_ok l refs b lf v;
  fk_bytes : keeps_bytes Lp (w_machine w0) L' (w_machine w') ∧ keeps_bytes L' (w_machine w') Lp (w_machine w0);
  fk_copy : keeps_bytes L' (w_machine w') Lc (w_machine w') ∧ keeps_bytes Lc (w_machine w') L' (w_machine w');
}.
Lemma clone_counts s Lc Tc K i : cloning s Lc Tc K → own_count Lp i = 0 → own_count Lc i = 0.
Proof.
  intros [_ _ Hfrom] Hz. apply own_count_zero. intros b lf Hb. destruct (owns i lf) eqn:Ho; [|done]. exfalso.
  pose proof Ho as [Hal Hi]%andb_true_iff. destruct (Hfrom b lf Hb Hal) as (lfp & Hlfp & Halp & Hp).
  pose proof (own_count_pos Lp b lfp i Hlfp) as Hpos. unfold owns in Hpos. rewrite Halp, Hp, Hi in Hpos. specialize (Hpos eq_refl). lia.
Qed.
Lemma clone_bytes w' s1 Lc Tc K L' A' :
  cloning s1 Lc Tc K → (∀ a b, a ∈ l → pages_of a b → copied Lc b) → disarmed l L' → passive A' L' Tp →
  m_mem (w_machine w') = m_mem (w_machine w0) →
  (keeps_bytes Lp (w_machine w0) L' (w_machine w') ∧ keeps_bytes L' (w_machine w') Lp (w_machine w0)) ∧
  keeps_bytes L' (w_machine w') Lc (w_machine w') ∧ keeps_bytes Lc (w_machine w') L' (w_machine w').
Proof.
  intros Hcl Hcop Hd Hp' Hm. pose proof (as_passive _ _ _ _ (cn_as _ _ _ _ Hcl)) as Hpc.
  assert (∀ b lf, Lp !! b = Some lf → is_alloc lf = true → ∃ lf', L' !! b = Some lf' ∧ is_alloc lf' = true ∧ lf_paddr lf' = lf_paddr lf) as Hkeep.
  { intros b lf Hb Hal. destruct (dm_all _ _ Hd b lf Hb) as [lf' Hb']. exists lf'. split; [done|].
    destruct (disarmed_shape L' b lf' Hd Hb') as (lf0 & Hlf0 & Hpa & Hala). simplify_eq. by rewrite Hala. }
  split_and!.
  - eapply keeps_bytes_frames; [apply parent_passive|done|done|done].
  - eapply keeps_bytes_frames; [done|apply parent_passive|done|]. intros b lf' Hb' Hal'.
    destruct (disarmed_shape L' b lf' Hd Hb') as (lf & Hlf & Hpa & Hala). exists lf. by rewrite <- Hala.
  - eapply keeps_bytes_frames; [done|done|done|]. intros b lf' Hb' Hal'.
    destruct (disarmed_shape L' b lf' Hd Hb') as (lf & Hlf & Hpa & Hala).
    destruct (leaf_in_area _ _ _ _ _ _ _ Hinv0 Hlf) as (a & Ha & Hi & _).
    destruct (Hcop a b Ha) as (lfp & lfc & Hlfp & Hlfc & Halc & Hpc'); [exists lf; by rewrite <- Hala|].
    simplify_eq. exists lfc. split_and!; try done. congruence.
  - eapply keeps_bytes_frames; [done|done|done|]. intros b lf Hb Hal.
    destruct (cn_from _ _ _ _ Hcl b lf Hb Hal) as (lfp & Hlfp & Halp & Hpp).
    destruct (Hkeep b lfp Hlfp Halp) as (lf' & ? & ? & ?). exists lf'. split_and!; try done. congruence.
Qed.
Lemma clone_result w' child m1 Lc Tc L' :
  child_ok child → same_space (w_space w0) (w_space w') → w_objects w' = w_objects w0 →
  m_mem (w_machine w') = m_mem (w_machine w0) →
  cloning (vs_aspace child, m1) Lc Tc H0 → (∀ a b, a ∈ l → pages_of a b → copied Lc b) → disarmed l L' →
  as_inv (FT := beside F0 o0 Lc Tc (m_mem (w_machine w0))) (vs_aspace (w_space w'), w_machine w') L' Tp (λ i, own_count Lc i + H0 i) →
  m_refs (w_machine w') = m_refs m1 →
  forked w' child L' Lc Tc.
Proof.
  intros (Hc1 & Hc2 & Hc3) (Hs1 & Hs2 & Hs3 & Hs4) Ho Hm Hcl Hcop Hd Has Hrefs. rewrite <- Hm in Has.
  pose proof (as_passive _ _ _ _ (cn_as _ _ _ _ Hcl)) as Hpc. cbn [fst] in Hpc.
  pose proof (as_passive _ _ _ _ Has) as Hpp. cbn [fst] in Hpp.
  pose proof (as_switch F0 o0 _ _ _ _ _ _ _ _ Has Hpc (cloning_disjoint _ _ _ _ Hcl) parent_handles) as Hasc.
  destruct (clone_bytes w' _ Lc Tc H0 L' _ Hcl Hcop Hd Hpp Hm) as (Hb1 & Hb2 & Hb3).
  split; try done.
  - split; cbn; try done.
    + by eapply layout_same; [apply Hinv0|..].
    + rewrite Hs4, Hs1. apply Hinv0.
    + intros i. rewrite Ho. pose proof (vi_held _ _ _ _ _ Hinv0 i). pose proof (own_count_nonneg Lc i). lia.
    + rewrite Ho. apply Hinv0.
    + intros b lf Hb. destruct (disarmed_safe L' b lf Hd Hb) as [v Hv]. exists v. apply Hv.
    + rewrite Ho. apply Hinv0.
  - split; cbn; try done.
    + by eapply layout_same; [apply Hinv0|..].
    + intros i. rewrite Ho. pose proof (vi_held _ _ _ _ _ Hinv0 i). pose proof (own_count_nonneg L' i). lia.
    + rewrite Ho. apply Hinv0.
    + intros b lf Hb. destruct (cn_safe _ _ _ _ Hcl b lf Hb) as [v Hv]. exists v. apply Hv.
    + rewrite Ho. apply Hinv0.
  - congruence.
  - intros i. split; [|by eapply clone_counts]. pose proof (ai_count _ _ _ _ Has i) as H1. cbn in H1.
    pose proof (ai_count _ _ _ _ (cn_as _ _ _ _ Hcl) i) as H2. cbn in H2. rewrite Hrefs in H1. lia.
  - intros b lf [Hb|Hb]; [by eapply disarmed_safe|]. by apply (cn_safe _ _ _ _ Hcl).
Qed.

(** A fork that fails: the child is dropped, and the parent is as before. *)
Lemma parent_restored w' m2 os :
  same_space (w_space w0) (w_space w') → passive (vs_aspace (w_space w')) Lp Tp →
  mach_wf m2 → (∀ i, m_refs m2 i = own_count Lp i + H0 i) → m_mem m2 = m_mem (w_machine w0) →
  tables_ok m2 (F0 ∪ Tp) → os = w_objects w0 →
  vm_inv (World (w_space w') os m2) l Lp Tp H0.
Proof.
  intros (Hs1 & Hs2 & Hs3 & Hs4) [Hrep Hal Hus Hva] Hwf Hrefs Hm [HT HTd] ->.
  pose proof (vi_as _ _ _ _ _ Hinv0) as Has0. pose proof (ai_foreign _ _ _ _ Has0) as [_ Hdis Hx Him].
  assert (∀ i, m_refs m2 i = m_refs (w_machine w0) i) as Hr by (intros i; rewrite Hrefs; symmetry; apply (ai_count _ _ _ _ Has0)).
  split; cbn; try by apply Hinv0.
  - by eapply layout_same; [apply Hinv0|..].
  - rewrite Hs4, Hs1. apply Hinv0.
  - split; cbn; try done.
    + set_solver.
    + intros i Hi. specialize (HTd i Hi). set_solver.
    + apply parent_handles.
    + split; try done; [split; [set_solver|]; intros i Hi; specialize (HTd i Hi); set_solver|]. by rewrite Hm.
  - intros b lf Hb. eapply (leaf_ok_keep w0); [done..|]. intros j _ _ Hj _ _. by rewrite Hr.
Qed.

(** The invariant of a world in which nothing that the parent's invariant speaks of
    has changed *)
Definition fork_post (r : outcome XError VmSpace) (w' : world) : Prop :=
  same_space (w_space w0) (w_space w') ∧ w_objects w' = w_objects w0 ∧
  m_mem (w_machine w') = m_mem (w_machine w0) ∧
  match r with
  | Ok child => ∃ L' Lc Tc, forked w' child L' Lc Tc
  | Err _ => vm_inv w' l Lp Tp H0 ∧ ∀ i, m_refs (w_machine w') i = m_refs (w_machine w0) i
  | Panic => False
  end.
Hypothesis (Hne : vr_nonempty (vs_range (w_space w0))).

Lemma run_clone_spec m child Tc :
  cloning (vs_aspace child, m) ∅ Tc H0 → m_mem m = m_mem (w_machine w0) →
  vs_range child = vs_range (w_space w0) → as_range (vs_aspace child) = vs_range child →
  wp (run_clone child) (World (w_space w0) (w_objects w0) m) fork_post.
Proof.
  intros Hcl Hm Hr Hra. pose proof (clone_into_child_spec m child Tc Hcl Hm Hr Hra) as Hs. unfold wp in Hs |- *.
  unfold run_clone. destruct (clone_into_child _) as [r [w' child']]. cbn [fst snd] in Hs.
  destruct Hs as (Hck & Hsame & Ho & Hmem & Hres). cbn [fst snd] in *. destruct r as [[]|e|]; [| |done].
  - destruct Hres as (m1 & Lc & Tc' & L' & Hcl' & Hcop & Hd & Has & Hrefs). cbn. do 3 (split; [done|]).
    exists L', Lc, Tc'. by eapply clone_result.
  - destruct Hres as (Lc & Tc' & Hcl' & Hpas). fold (wp (on_objects (vm_drop child');; throw e) w' fork_post).
    pose proof (child_vm_inv child' _ Lc Tc' Hcl' Hck) as Hcv. wp_step. unfold on_objects. wp_step.
    eapply wp_mono; [rewrite Ho; eapply (vm_drop_spec (FT := at_child (m_mem (w_machine w'))) (World child' (w_objects w0) (w_machine w'))); [exact Hcv|]|].
    { cbn. destruct Hck as (Hck & _). by rewrite Hck. }
    intros r [os m2] (-> & Hos & Hrefs & Hm2 & Hwf2 & _ & Htab). cbn [fst snd w_objects w_machine] in *. subst os. wp_step.
    cbn [fst snd]. assert (∀ i, m_refs m2 i = own_count Lp i + H0 i) as Hrefs' by done.
    split; [done|]. split; [done|]. split; [cbn; congruence|]. split.
    + eapply parent_restored; try done. congruence.
    + intros i. cbn. rewrite Hrefs'. symmetry. apply (ai_count _ _ _ _ (vi_as _ _ _ _ _ Hinv0)).
Qed.

(** The machine a child is created on *)
Lemma child_ready :
  ready (w_objects w0) (w_machine w0) ∧
  (∀ i, 0 ≤ o0 i + own_count Lp i ≤ m_refs (w_machine w0) i - held (w_objects w0) i) ∧
  foreign_ok (FT := at_child (m_mem (w_machine w0))) (w_machine w0) ∅ ∅ (m_refs (w_machine w0)).
Proof.
  pose proof (vi_as _ _ _ _ _ Hinv0) as Has.
  assert (∀ i, 0 ≤ held (w_objects w0) i ∧ 0 ≤ o0 i + own_count Lp i ≤ m_refs (w_machine w0) i - held (w_objects w0) i) as Hc.
  { intros i. pose proof (vi_held _ _ _ _ _ Hinv0 i). pose proof (ai_count _ _ _ _ Has i) as Hc. cbn in Hc.
    pose proof (own_count_nonneg Lp i). lia. }
  split; [|split; [apply Hc|]].
  - split; [apply Has|]. intros i. specialize (Hc i). lia.
  - destruct (ai_foreign _ _ _ _ Has) as [[HF HFd] _ _ _]. split; cbn; try done.
    split; [pose proof (ai_tables _ _ _ _ Has) as HT; cbn in HT; set_solver|].
    intros i Hi. pose proof (HFd i Hi). pose proof (ai_disjoint _ _ _ _ Has i Hi). set_solver.
Qed.
Lemma try_clone_spec : wp try_clone w0 fork_post.
Proof.
  destruct child_ready as (Hrd & Hoth & Hfo). pose proof (vi_as _ _ _ _ _ Hinv0) as Has.
  pose proof (lo_usize _ _ (vi_layout _ _ _ _ _ Hinv0)) as [Hu1 Hu2]. unfold vr_nonempty in Hne.
  unfold try_clone. wp_steps. unfold on_wm. wp_steps. rewrite vr_size_spec by lia.
  eapply wp_mono; [apply (vm_new_empty_spec (FT := at_child (m_mem (w_machine w0))) _ _ (w_objects w0) _ Hrd Hoth Hfo); try lia|].
  - apply Hinv0.
  - intros x Hx. apply (ai_valid _ _ _ _ Has). cbn. rewrite (vi_range _ _ _ _ _ Hinv0). lia.
  - intros r m1 Hr. destruct r as [child|e|]; [| |done].
    + destruct Hr as (Tc & Hcv & Hrange & Hm1). cbn [fst snd].
      assert (vs_range child = vs_range (w_space w0)) as Hcr.
      { rewrite Hrange. destruct (vs_range (w_space w0)) as [x y]. cbn. f_equal. lia. }
      apply (run_clone_spec m1 child Tc); try done; [|apply (vi_range _ _ _ _ _ Hcv)].
      split; [|intros b lf Hb; by rewrite lookup_empty in Hb..]. cbn. rewrite Hm1.
      eapply as_inv_ext; [|apply (vi_as _ _ _ _ _ Hcv)]. intros i. apply (ai_count _ _ _ _ Has).
    + destruct Hr as (Hrefs & Hm & Hu). split; [done|]. split; [done|]. split; [done|]. split; [|intros i; cbn; by rewrite Hrefs].
      cbn. eapply parent_restored; try done; [apply parent_passive|..].
      * destruct (ai_mach _ _ _ _ Has) as [H1 H2]. cbn in H1, H2. by split; rewrite ?Hrefs, ?Hu.
      * intros i. rewrite Hrefs. apply (ai_count _ _ _ _ Has).
      * destruct (fo_tables _ _ _ _ Hfo) as [H1 H2]. split; rewrite ?Hrefs, ?Hu; done.
Qed.
End clone.
End fork.
