(* ===== verification/VmWitness.v ===== *)
(** * A concrete space

    A space on the reference platform with shared objects as page sources, run
    through the operations; the theorems about spaces applied to it. *)
From S2P Require Import Prelude Errno MemAddr Frame PageTable Pte PageTable64 Radix AddressSpace AspaceInv AspaceTxn.
From S2P Require Import AspaceStatic Platform BTree VmArea VmSpace VmOps VmLayout VmInv VmFault VmUnmap VmProtect.
From S2P Require Import VmMap SharedObject VmTheorems.
From stdpp Require Import prelude gmap list.
Open Scope Z_scope.

Module VmExample.
Import Platform.

Definition no_objects : objects (VmObject := shared_object) := MkShared 1 [].
Lemma boot_ready : ready no_objects boot.
Proof. split; [apply boot_wf|]. intros i. cbn. done. Qed.

Definition created : outcome XError VmSpace * machine := vm_new_empty 0x10000 0x100000 boot.
Lemma created_ok : is_ok created.1 = true.
Proof. by vm_compute. Qed.
Lemma low_valid x : 0x10000 ≤ x < 0x10000 + 0x100000 → vaddr_is_valid x = true.
Proof.
  intros Hx. cbn [vaddr_is_valid table pt64]. apply va_valid_spec. split; [lia|].
  apply valid_spec; [lia|]. left.
  apply (Z.lt_le_trans _ 274877906944); [lia|by vm_compute].
Qed.

Definition user_rw : Z := READ |+| WRITE |+| USER.
Definition store : Z := WRITE |+| USER.
(** An anonymous mapping of four pages and a store to its second page. *)
Definition no_space : VmSpace :=
  MkVmSpace (VRange 0 0) [] (MkAddressSpace (VRange 0 0) {| root_paddr := 0; pt_store := λ _ _, 0 |}) [].
Definition w0 : world :=
  World match created.1 with Ok vs => vs | _ => no_space end no_objects created.2.
Definition after (o : vm_op) (w : world) : world := (vm_exec o w).2.
Definition map_op : vm_op := VmMap 0x20000 0x4000 user_rw (anonymous false).
Definition w1 : world := after map_op w0.
Definition w2 : world := after (VmFault 0x21123 store) w1.
Lemma w0_reachable : reachable_space no_objects boot w0.
Proof.
  unfold w0. pose proof created_ok as Hok. destruct created as [[vs|e|] m'] eqn:Hc; try done.
  by apply (space_new _ _ 0x10000 0x100000 vs m' boot_ready); try done; apply low_valid.
Qed.
Lemma pair_eta {A B} (p : A * B) : p = (p.1, p.2).
Proof. by destruct p. Qed.
Definition unpanicked {E A} (r : outcome E A) : bool := match r with Panic => false | _ => true end.
Lemma not_panic {E A} (r : outcome E A) : unpanicked r = true → r ≠ Panic.
Proof. by destruct r. Qed.
Lemma after_reachable w o :
  reachable_space no_objects boot w → vm_op_ok w o → unpanicked (vm_exec o w).1 = true →
  reachable_space no_objects boot (after o w).
Proof.
  intros Hw Ho Hp. eapply (space_step _ _ w o); [done..|apply pair_eta|]. by destruct (vm_exec o w).1.
Qed.
Lemma map_op_ok w : vm_op_ok w map_op.
Proof. split_and!; [done..|apply made_anonymous]. Qed.
Lemma map_op_runs : is_ok (vm_exec map_op w0).1 = true.
Proof. by vm_compute. Qed.
Lemma w1_reachable : reachable_space no_objects boot w1.
Proof. apply after_reachable; [apply w0_reachable|apply map_op_ok|by vm_compute]. Qed.
Lemma w2_reachable : reachable_space no_objects boot w2.
Proof. apply after_reachable; [apply w1_reachable|done|by vm_compute]. Qed.

Lemma vm_space_refines_witness :
  reachable_space no_objects boot w0 ∧ spec_step map_op true (space_view w0) (space_view w1) ∧
  space_view w1 0x21123 = Some (PageView user_rw Size4K true PZero).
Proof.
  split; [apply w0_reachable|]. split; [|by vm_compute]. pose proof map_op_runs as Hok.
  pose proof (vm_space_refines no_objects boot w0 map_op _ _ w0_reachable (map_op_ok w0)
    (pair_eta (vm_exec map_op w0))) as Hs.
  rewrite Hok in Hs. apply Hs. intros Hp. by rewrite Hp in Hok.
Defined.

Definition page1 : Z * Z * PageSize :=
  match pt_query (as_table (vs_aspace (w_space w2))) 0x21123 with Ok p => p | _ => (0, 0, Size4K) end.
Lemma vm_tables_agree_witness :
  reachable_space no_objects boot w2 ∧ contains page1.1.2 WRITE = true ∧
  ∃ v, space_view w2 0x21123 = Some v ∧ pv_private v = true ∧
    ∃ i, metadata (page1.1.1 - page1.1.1 mod 4096) = Some i ∧ m_refs (w_machine w2) i = 1.
Proof.
  split; [apply w2_reachable|]. split; [by vm_compute|].
  destruct (vm_tables_agree no_objects boot w2 0x21123 page1.1.1 page1.1.2 page1.2 w2_reachable) as
    (v & Hv & _ & _ & Hcow); [by vm_compute|by vm_compute|].
  exists v. split; [exact Hv|].
  assert (pv_private v = true) as Hp.
  { assert (space_view w2 0x21123 = Some (PageView user_rw Size4K true PZero)) as Hw by (by vm_compute).
    rewrite Hw in Hv. by injection Hv as <-. }
  split; [exact Hp|]. apply Hcow; [exact Hp|by vm_compute].
Defined.

Definition protect_op : vm_op := VmProtect 0x21000 0x1000 (READ |+| USER).
Lemma vm_bytes_stable_witness :
  user_byte w2 0x21fff = Some 0 ∧ user_byte (after protect_op w2) 0x21fff = Some 0.
Proof.
  assert (user_byte w2 0x21fff = Some 0) as Hb by (by vm_compute). split; [exact Hb|].
  refine (vm_bytes_stable no_objects boot w2 protect_op _ _ 0x21fff 0 w2_reachable _
    (pair_eta (vm_exec protect_op w2)) _ _ _ Hb).
  - split; by vm_compute.
  - apply not_panic. by vm_compute.
  - split; by vm_compute.
  - intros [].
Defined.

(** The area of an address is anonymous memory. *)
Definition is_anonymous (o : option VmArea) : bool :=
  match o with
  | Some a => match source (a_backing a) with SrcZero => bool_decide (a_page_size a = Size4K) | _ => false end
  | None => false
  end.
Lemma anonymous_area o :
  is_anonymous o = true →
  ∃ a, o = Some a ∧ source (a_backing a) = SrcZero ∧ a_page_size a = Size4K ∧
    requires_write_guard (a_backing a) = false.
Proof.
  destruct o as [a|]; [|done]. cbn. destruct (source (a_backing a)) eqn:Hs; [|done..].
  intros Hps%bool_decide_eq_true. exists a. split_and!; try done.
  unfold requires_write_guard. rewrite Hs. apply andb_false_r.
Qed.
Lemma w1_anonymous : is_anonymous (area_at (w_space w1) 0x21123) = true.
Proof. by vm_compute. Qed.

Lemma vm_no_panic_witness :
  reachable_space no_objects boot w1 ∧ (vm_exec (VmFault 0x21123 store) w1).1 ≠ Panic.
Proof.
  split; [apply w1_reachable|]. apply (vm_no_panic no_objects boot w1 (VmFault 0x21123 store) w1_reachable); [done|].
  intros [i Hi]. revert Hi. change u32_max with 4294967295. vm_compute. intros Hi. by repeat case_match.
Defined.

Lemma fault_grants_access_witness :
  reachable_space no_objects boot w1 ∧ (handle_page_fault 0x21123 store w1).1 = Ok Resolved ∧
  ∃ flags, mapping_flags (vs_aspace (w_space (handle_page_fault 0x21123 store w1).2)) 0x21000 = Some flags ∧
    contains flags store = true.
Proof.
  split; [apply w1_reachable|].
  assert ((handle_page_fault 0x21123 store w1).1 = Ok Resolved) as Hr by (vm_compute; reflexivity). split; [exact Hr|].
  destruct (anonymous_area _ w1_anonymous) as (a & Ha & _ & Hps & Hg).
    pose proof (pair_eta (handle_page_fault 0x21123 store w1)) as He. rewrite Hr in He.
  destruct (fault_grants_access no_objects boot w1 0x21123 store _ a w1_reachable Ha He) as (flags & Hm & Hc & _).
  rewrite Hps in Hm. exists flags. split; [exact Hm|]. apply Hc; [clear; split; vm_compute; reflexivity|].
  intros [Hg' _]. rewrite Hg in Hg'. discriminate Hg'.
Defined.

Lemma anonymous_zero_fill_witness :
  user_byte w1 0x21123 = None ∧ (handle_page_fault 0x21123 store w1).1 = Ok Resolved ∧
  user_byte (handle_page_fault 0x21123 store w1).2 0x21fff = Some 0.
Proof.
  assert (user_byte w1 0x21123 = None) as Hn by (vm_compute; reflexivity). split; [exact Hn|].
  assert ((handle_page_fault 0x21123 store w1).1 = Ok Resolved) as Hr by (vm_compute; reflexivity). split; [exact Hr|].
  destruct (anonymous_area _ w1_anonymous) as (a & Ha & Hsrc & _).
  pose proof (pair_eta (handle_page_fault 0x21123 store w1)) as He. rewrite Hr in He.
  refine (anonymous_zero_fill no_objects boot w1 0x21123 store _ a 0x21fff w1_reachable Ha Hsrc Hn He _).
  clear. by vm_compute.
Defined.

Lemma unmap_all_or_nothing_witness :
  reachable_space no_objects boot w2 ∧ (∃ w', vm_unmap 0x21000 0x1000 w2 = (Ok (), w')) ∧
  vm_unmap 0x21001 0x1000 w2 = (Err InvalidInput, w2).
Proof.
  split; [apply w2_reachable|]. split.
  - apply (unmap_all_or_nothing no_objects boot w2 0x21000 0x1000 w2_reachable); [done..|].
    assert (forallb (λ a, bool_decide (splits a (VRange 0x21000 (0x21000 + 0x1000))))
      (bt_values (vs_areas (w_space w2))) = true) as Hall by (vm_compute; reflexivity).
    split; [split_and!; by vm_compute|]. intros a Ha _. apply list_elem_of_In in Ha.
    pose proof (proj1 (forallb_forall _ _) Hall a Ha) as Hs. cbv beta in Hs. exact (proj1 (bool_decide_eq_true _) Hs).
  - apply (unmap_all_or_nothing no_objects boot w2 0x21001 0x1000 w2_reachable); [done..|].
    intros [Hv _]. revert Hv. unfold range_valid. intros (_ & Hm & _). by vm_compute in Hm.
Defined.

Lemma check_region_access_exact_witness :
  reachable_space no_objects boot w2 ∧ check_region_access (w_space w2) (VRange 0x20000 0x24000) READ = Ok true ∧
  ∃ v, space_view w2 0x23fff = Some v ∧ contains (pv_flags v) READ = true.
Proof.
  split; [apply w2_reachable|].
  assert (check_region_access (w_space w2) (VRange 0x20000 0x24000) READ = Ok true) as Hc by (vm_compute; reflexivity).
  split; [exact Hc|].
  destruct (check_region_access_exact no_objects boot w2 (VRange 0x20000 0x24000) READ w2_reachable) as
    (b & Hb & Hiff). rewrite Hc in Hb. injection Hb as <-. apply (proj1 Hiff eq_refl). clear. split; by vm_compute.
Defined.

Lemma find_free_area_least_witness :
  reachable_space no_objects boot w2 ∧
  find_free_area (w_space w2) 0x20000 0x2000 (VRange 0 0x100000) Size4K = Ok (Some 0x24000) ∧
  free_place w2 0x2000 (VRange 0 0x100000) Size4K 0x24000.
Proof.
  split; [apply w2_reachable|].
  assert (find_free_area (w_space w2) 0x20000 0x2000 (VRange 0 0x100000) Size4K = Ok (Some 0x24000)) as Hf
    by (vm_compute; reflexivity). split; [exact Hf|].
  destruct (find_free_area_least no_objects boot w2 0x20000 0x2000 (VRange 0 0x100000) Size4K w2_reachable)
    as (r & Hr & Hp); [clear; by vm_compute..|]. rewrite Hf in Hr. injection Hr as <-. apply Hp.
Defined.
End VmExample.
