(* ===== verification/LoadStackRuns.v ===== *)
(** * A program started on the reference platform

    The space of VmWitness.v is given a stack, and the program reads it; a
    program without arguments. *)
From S2P Require Import Prelude Errno MemAddr Frame PageTable Pte PageTable64 Radix AddressSpace AspaceInv AspaceTxn.
From S2P Require Import AspaceStatic Platform BTree VmArea VmSpace VmOps VmLayout VmInv VmMap SharedObject VmTheorems VmBytes.
From S2P Require Import UserStack UserStackSpec LoadStack VmWitness.
From stdpp Require Import prelude gmap list.
Import Auxv.
Open Scope Z_scope.

Module LoadExample.
Import Platform VmExample.

(** "ls" "-l", with "A=1" in the environment *)
Definition args : list text := [[108; 115]; [45; 108]].
Definition envs : list text := [[65; 61; 49]].
Definition vec : list AuxvEntry := [MkAuxv PAGESZ 4096; MkAuxv RANDOM 0; MkAuxv EXECFN 0].
Definition loaded : outcome Z Z * world := load_stack 0x30000 0x2000 args envs (vec ++ [MkAuxv NULL 0]) w0.
Definition start_sp : Z := match loaded.1 with Ok p => p | _ => 0 end.
Lemma loaded_ok : loaded = (Ok start_sp, loaded.2).
Proof.
  assert (is_ok loaded.1 = true) as Hok by (by vm_compute). unfold start_sp. rewrite (pair_eta loaded) at 1. by destruct loaded.1.
Qed.

Lemma loaded_stack_reads_witness : starts_with loaded.2 start_sp args envs vec.
Proof.
  pose proof (loaded_stack_reads no_objects boot w0 args envs vec 0 0x30000 0x2000 (Ok start_sp) loaded.2) as Hl.
  apply Hl; clear Hl.
  - apply w0_reachable.
  - apply (bool_decide_unpack _). by vm_compute.
  - done.
  - unfold vec, u64. repeat constructor; cbn; try lia; done.
  - unfold u64. lia.
  - by vm_compute.
  - split; by vm_compute.
  - apply loaded_ok.
Defined.
(** What it reads, from its memory *)
Lemma reads : (λ x, x.1.1.2) <$> program_start (user_byte loaded.2) 400 start_sp = Some args.
Proof. by vm_compute. Qed.

Lemma no_arguments_panic_witness :
  EXECFN ∈ auxv_type <$> vec ∧ app_stack_region (E := Empty_set) [] envs vec 0x2e000 0x2000 = Panic.
Proof.
  assert (EXECFN ∈ auxv_type <$> vec) as Hx by (right; right; left). split; [exact Hx|].
  exact (no_arguments_panic envs vec 0x2e000 0x2000 Hx).
Defined.
End LoadExample.
