(* ===== verification/VmSystem.v ===== *)
(** * Several processes on one machine

    The spaces of all processes with the machine and the page sources they
    share. A process works on its space, forks, exits or stores to memory through
    its page tables; nothing it does changes what another process sees, unless
    it stores to shared memory. *)
From S2P Require Import Prelude Errno MemAddr Frame PageTable AddressSpace AspaceInv AspaceTxn.
From S2P Require Import AspaceStatic BTree VmArea VmSpace VmOps VmLayout VmInv VmFault VmUnmap VmProtect VmMap VmTheorems VmFork.
From stdpp Require Import prelude gmap list.
Open Scope Z_scope.

Section system.
Context {CFG : Config} {PA : PageAllocator} {BF : BitFlags} {MA : MemoryAddr} {PT : PageTable}.
Context {PF : PhysFits} {VO : VmObject} {VL : VmObjectLaws}.
Implicit Types (l : list VmArea) (L : gmap Z leaf) (T : gset Z) (vs : VmSpace) (m : machine) (os : objects).

(** ** Processes *)

Record sys := Sys { s_spaces : list VmSpace; s_objects : objects; s_machine : machine }.

(** What a process can do; a store is the processor's, through a writable entry
    for allocated memory. *)
Inductive action := Op (o : vm_op) | Fork | Exit | Store (x v : Z).
Definition user_store (x v : Z) (w : world) : option machine :=
  match pt_query (as_table (vs_aspace (w_space w))) x with
  | Ok (p, flags, _) =>
      if contains flags WRITE && contains flags ALLOC_FRAME
      then Some (set_mem (w_machine w) (fupd (m_mem (w_machine w)) (phys_to_virt p) v)) else None
  | _ => None
  end.
(** The spaces in which an action leaves its process (and its child), with what is shared *)
Definition act (a : action) (w : world) : option (list VmSpace * objects * machine) :=
  match a with
  | Op o =>
      match vm_exec o w with
      | (Panic, _) => None
      | (_, w') => Some ([w_space w'], w_objects w', w_machine w')
      end
  | Fork =>
      match try_clone w with
      | (Ok child, w') => Some ([w_space w'; child], w_objects w', w_machine w')
      | (Err _, w') => Some ([w_space w'], w_objects w', w_machine w')
      | (Panic, _) => None
      end
  | Exit =>
      match vm_drop (w_space w) (w_objects w, w_machine w) with
      | (Ok _, (os', m')) => Some ([], os', m')
      | _ => None
      end
  | Store x v => m' ← user_store x v w; Some ([w_space w], w_objects w, m')
  end.
Definition act_ok (a : action) (w : world) : Prop :=
  match a with Op o => vm_op_ok w o | Store x _ => in_space w x | Fork | Exit => True end.

Inductive reachable (os0 : objects) (m0 : machine) : sys → Prop :=
| sys_start : ready os0 m0 → reachable os0 m0 (Sys [] os0 m0)
| sys_new ss os m base size vs m' :
    reachable os0 m0 (Sys ss os m) → 0 ≤ base → 0 < size →
    (∀ x, base ≤ x < base + size → vaddr_is_valid x = true) →
    vm_new_empty base size m = (Ok vs, m') → reachable os0 m0 (Sys (vs :: ss) os m')
| sys_act ss1 vs ss2 os m a ss' os' m' :
    reachable os0 m0 (Sys (ss1 ++ vs :: ss2) os m) → act_ok a (World vs os m) →
    act a (World vs os m) = Some (ss', os', m') → reachable os0 m0 (Sys (ss1 ++ ss' ++ ss2) os' m').

(** ** The invariant *)

Record ghost := Ghost { g_areas : list VmArea; g_leaves : gmap Z leaf; g_tables : gset Z }.
Implicit Types (g : ghost) (gs : list ghost).
Fixpoint own_all gs (i : Z) : Z :=
  match gs with [] => 0 | g :: gs => own_count (g_leaves g) i + own_all gs i end.
Fixpoint tables_all gs : gset Z :=
  match gs with [] => ∅ | g :: gs => g_tables g ∪ tables_all gs end.
Fixpoint tables_apart gs : Prop :=
  match gs with [] => True | g :: gs => g_tables g ## tables_all gs ∧ tables_apart gs end.

#[local] Instance own_all_perm : Proper ((≡ₚ) ==> eq ==> eq) own_all.
Proof. intros gs gs' Hp i _ <-. induction Hp; cbn; lia. Qed.
#[local] Instance tables_all_perm : Proper ((≡ₚ) ==> eq) tables_all.
Proof. intros gs gs' Hp. induction Hp; cbn; [done|congruence|set_solver|congruence]. Qed.
#[local] Instance tables_apart_perm : Proper ((≡ₚ) ==> iff) tables_apart.
Proof.
  intros gs gs' Hp. induction Hp as [|g gs gs' Hp IH| |]; cbn; [done|by rewrite (tables_all_perm _ _ Hp), IH|set_solver|by etrans].
Qed.
Lemma own_all_nonneg gs i : 0 ≤ own_all gs i.
Proof. induction gs as [|g gs IH]; cbn; [done|]. pose proof (own_count_nonneg (g_leaves g) i). lia. Qed.
Lemma own_all_app gs gs' i : own_all (gs ++ gs') i = own_all gs i + own_all gs' i.
Proof. induction gs as [|g gs IH]; cbn; lia. Qed.
Lemma tables_all_app gs gs' : tables_all (gs ++ gs') = tables_all gs ∪ tables_all gs'.
Proof. induction gs as [|g gs IH]; cbn; set_solver. Qed.
Lemma own_all_elem g gs i : g ∈ gs → own_count (g_leaves g) i ≤ own_all gs i.
Proof.
  induction gs as [|g' gs IH]; [by intros ?%elem_of_nil|]. pose proof (own_count_nonneg (g_leaves g') i).
  pose proof (own_all_nonneg gs i). intros [->|Hg]%elem_of_cons; cbn; [lia|]. specialize (IH Hg). lia.
Qed.

(** One space, but for what concerns the machine *)
Record resident os (refs : Z → Z) vs g : Prop := {
  rs_layout : layout_wf vs (g_areas g);
  rs_range : as_range (vs_aspace vs) = vs_range vs;
  rs_passive : passive (vs_aspace vs) (g_leaves g) (g_tables g);
  rs_live : ∀ a o off, a ∈ g_areas g → source (a_backing a) = SrcObject o off → object_live os o;
  rs_leaves : ∀ b lf, g_leaves g !! b = Some lf → ∃ v, leaf_ok (g_areas g) refs b lf v;
  rs_nonempty : vr_nonempty (vs_range vs);
}.
(** [ext]: the references held outside the spaces and the page sources *)
Record sys_inv (ext : Z → Z) (s : sys) gs : Prop := {
  si_mach : mach_wf (s_machine s);
  si_held : ∀ i, 0 ≤ held (s_objects s) i ∧ 0 ≤ ext i;
  si_count : ∀ i, m_refs (s_machine s) i = own_all gs i + held (s_objects s) i + ext i;
  si_spaces : Forall2 (resident (s_objects s) (m_refs (s_machine s))) (s_spaces s) gs;
  si_tables : tables_ok (s_machine s) (tables_all gs);
  si_apart : tables_apart gs;
}.

(** ** One space among the others *)

Lemma resident_keep os refs os' refs' vs g :
  resident os refs vs g →
  (∀ a o off, a ∈ g_areas g → source (a_backing a) = SrcObject o off → object_live os' o) →
  (∀ i, 1 ≤ own_count (g_leaves g) i → refs i = 1 → refs' i = 1) → resident os' refs' vs g.
Proof.
  intros [Hl Hr Hp Hlive Hle Hne] Hlive' Hrefs. split; try done. intros b lf Hb.
  destruct (Hle b lf Hb) as [v Hv]. exists v. pose proof (leaf_private_alloc _ _ _ _ _ (lo_ok _ _ Hl) Hv) as Hal.
  destruct Hv as [? ? ? ? Hcow ?]. split; try done. intros Hpv Hw i Hi. apply Hrefs; [|by apply Hcow].
  apply (own_count_pos _ b lf); [done|]. unfold owns. by rewrite (Hal Hpv), bool_decide_eq_true_2.
Qed.

Lemma vm_resident {FT : Foreign} {BY : Bystanders} w l L T H :
  vm_inv w l L T H → vr_nonempty (vs_range (w_space w)) →
  resident (w_objects w) (m_refs (w_machine w)) (w_space w) (Ghost l L T).
Proof. intros [Hl Hr Has Hh Hlive Hle _] Hne. split; try done. by apply (as_passive _ _ _ _ Has). Qed.

(** The rest of the system as seen by the space of [g] *)
Definition around (ext : Z → Z) (os : objects) (m : machine) g gs : Foreign :=
  {| foreign := tables_all gs; others := λ i, own_all gs i + ext i;
     exclusive := λ i, own_count (g_leaves g) i = 0 ∧ held os i = 0 ∧ 0 < own_all gs i + ext i;
     image := m_mem m |}.
Definition sources_of gs : Bystanders := λ o,
  ∃ g a off, g ∈ gs ∧ a ∈ g_areas g ∧ source (a_backing a) = SrcObject o off.
Definition rest_handles (ext : Z → Z) (os : objects) gs (i : Z) : Z := own_all gs i + ext i + held os i.

Section step.
Context (ext : Z → Z) (os : objects) (m : machine) (ss1 ss2 : list VmSpace) (vs : VmSpace).
Context (gs1 gs2 : list ghost) (g : ghost).
#[local] Abbreviation gr := (gs1 ++ gs2).
#[local] Abbreviation FTg := (around ext os m g gr).
Hypothesis (Hsys : sys_inv ext (Sys (ss1 ++ vs :: ss2) os m) (gs1 ++ g :: gs2)).
Hypothesis (Hlen : length ss1 = length gs1).

Lemma step_perm : gs1 ++ g :: gs2 ≡ₚ g :: gr.
Proof. by rewrite Permutation_middle. Qed.
Lemma step_spaces :
  resident os (m_refs m) vs g ∧ Forall2 (resident os (m_refs m)) ss1 gs1 ∧ Forall2 (resident os (m_refs m)) ss2 gs2.
Proof.
  pose proof (si_spaces _ _ _ Hsys) as Hf. cbn in Hf.
  apply Forall2_app_inv in Hf as [H1 H2]; [|done]. by apply Forall2_cons in H2 as [? ?].
Qed.
Lemma step_facts :
  (∀ i, m_refs m i = own_count (g_leaves g) i + rest_handles ext os gr i) ∧
  tables_ok m (g_tables g ∪ tables_all gr) ∧ g_tables g ## tables_all gr ∧ tables_apart gr.
Proof.
  pose proof Hsys as [_ _ Hc _ Ht Ha]. rewrite step_perm in Ht, Ha. cbn in *. split; [|by destruct Ha].
  intros i. rewrite Hc, step_perm. unfold rest_handles. cbn. lia.
Qed.

(** The invariant of the space in its surroundings *)
Lemma step_focus :
  vm_inv (FT := FTg) (BY := sources_of gr) (World vs os m) (g_areas g) (g_leaves g) (g_tables g) (rest_handles ext os gr).
Proof.
  destruct step_spaces as ([Hl Hr [Hrep Hal Hus Hva] Hlive Hle Hne] & Hs1 & Hs2).
  destruct step_facts as (Hc & [Ht Htd] & Hd & _). pose proof Hsys as [Hm Hh _ _ _ _]. cbn in *.
  assert (∀ i, 0 ≤ own_all gr i) as Hn by apply own_all_nonneg.
  split; cbn; try done.
  - split; cbn; try done.
    + set_solver.
    + intros i Hi. specialize (Htd i Hi). set_solver.
    + intros i. unfold rest_handles. specialize (Hh i). specialize (Hn i). lia.
    + split; cbn; [split|..]; try done; [set_solver| |].
      * intros i Hi. specialize (Htd i Hi). set_solver.
      * intros i (H1 & H2 & H3). unfold rest_handles. lia.
  - intros i. unfold rest_handles. specialize (Hh i). specialize (Hn i). lia.
  - intros o (g' & a & off & Hg' & Ha & Hsrc).
    assert (Forall2 (resident os (m_refs m)) (ss1 ++ ss2) gr) as Hf by by apply Forall2_app.
    apply list_elem_of_lookup in Hg' as [n Hn']. destruct (Forall2_lookup_r _ _ _ _ _ Hf Hn') as (vs' & _ & Hres).
    by eapply (rs_live _ _ _ _ Hres).
Qed.

(** Putting spaces back in the place of [g] *)
Lemma step_replace ss' gs' os' m' :
  mach_wf m' → (∀ i, 0 ≤ held os' i) → (∀ i, m_refs m' i = own_all gs' i + rest_handles ext os' gr i) →
  Forall2 (resident os' (m_refs m')) ss' gs' → tables_ok m' (tables_all (gs' ++ gr)) → tables_apart (gs' ++ gr) →
  (∀ o, sources_of gr o → object_live os' o) →
  (∀ i, 1 ≤ own_all gr i → own_count (g_leaves g) i = 0 → held os i = 0 → m_refs m i = 1 → m_refs m' i = 1) →
  sys_inv ext (Sys (ss1 ++ ss' ++ ss2) os' m') (gs1 ++ gs' ++ gs2).
Proof.
  intros Hm Hh Hc Hs Ht Ha Hlive Hrefs. destruct step_spaces as (_ & Hs1 & Hs2). destruct step_facts as (Hc0 & _).
  assert (gs1 ++ gs' ++ gs2 ≡ₚ gs' ++ gr) as Hp by (rewrite !app_assoc, (Permutation_app_comm gs1 gs'); done).
  assert (∀ ss gs, (∀ g', g' ∈ gs → g' ∈ gr) → Forall2 (resident os (m_refs m)) ss gs →
    Forall2 (resident os' (m_refs m')) ss gs) as Hkeep.
  { intros ss gs Hin. induction 1 as [|vs1 g1 ss gs Hres Hf IH]; constructor; [|apply IH; intros; apply Hin; by right].
    assert (g1 ∈ gr) as Hg1 by (apply Hin; left). eapply resident_keep; [exact Hres| |].
    - intros a o off Hao Hsrc. apply Hlive. by exists g1, a, off.
    - intros i Hi H1. pose proof (own_all_elem _ _ i Hg1). specialize (Hc0 i). unfold rest_handles in Hc0.
      pose proof (own_count_nonneg (g_leaves g) i). pose proof (si_held _ _ _ Hsys i). cbn in *. apply Hrefs; lia. }
  split; cbn; try done.
  - intros i. split; [done|]. apply (si_held _ _ _ Hsys i).
  - intros i. rewrite Hc, Hp, own_all_app. unfold rest_handles. lia.
  - apply Forall2_app; [|apply Forall2_app; [done|]]; apply Hkeep; try done; intros g' Hg'; apply elem_of_app; auto.
  - by rewrite Hp.
  - by rewrite Hp.
Qed.

Lemma exclusive_refs i w' l' L' T' H' :
  vm_inv (FT := FTg) (BY := sources_of gr) w' l' L' T' H' →
  1 ≤ own_all gr i → own_count (g_leaves g) i = 0 → held os i = 0 → m_refs (w_machine w') i = m_refs m i.
Proof.
  intros Hinv H1 H2 H3. pose proof (vi_as _ _ _ _ _ Hinv) as Has. destruct step_facts as (Hc & _).
  pose proof (si_held _ _ _ Hsys i) as [_ He].
  destruct (fo_exclusive _ _ _ _ (ai_foreign _ _ _ _ Has) i) as (HL & HH & _); [cbn; lia|].
  pose proof (ai_count _ _ _ _ Has i) as Hc'. cbn in *. rewrite Hc', Hc. unfold rest_handles. lia.
Qed.
Lemma step_put_back w' l' L' T' H' :
  vm_inv (FT := FTg) (BY := sources_of gr) w' l' L' T' H' →
  (∀ j, H' j = rest_handles ext (w_objects w') gr j) → vr_nonempty (vs_range (w_space w')) →
  sys_inv ext (Sys (ss1 ++ [w_space w'] ++ ss2) (w_objects w') (w_machine w')) (gs1 ++ [Ghost l' L' T'] ++ gs2).
Proof.
  intros Hinv HH Hne. pose proof (vi_as _ _ _ _ _ Hinv) as Has. destruct (ai_foreign _ _ _ _ Has) as [[HF HFd] Hdis _ _].
  destruct step_facts as (_ & _ & _ & Hap). cbn in HF, HFd, Hdis.
  apply step_replace; cbn.
  - apply Has.
  - apply Hinv.
  - intros i. rewrite <- HH. pose proof (ai_count _ _ _ _ Has i) as Hc. cbn in Hc. lia.
  - constructor; [|constructor]. by eapply vm_resident.
  - pose proof (ai_tables _ _ _ _ Has) as HT. pose proof (ai_disjoint _ _ _ _ Has) as HTd. cbn in *. split; [set_solver|].
    intros i Hi. specialize (HFd i Hi). specialize (HTd i Hi). set_solver.
  - done.
  - apply Hinv.
  - intros i H1 H2 H3 H4. by rewrite (exclusive_refs i w' l' L' T' H').
Qed.

Lemma step_op o r w' :
  vm_op_ok (World vs os m) o → vm_exec o (World vs os m) = (r, w') → r ≠ Panic →
  ∃ gs', sys_inv ext (Sys (ss1 ++ [w_space w'] ++ ss2) (w_objects w') (w_machine w')) gs'.
Proof.
  intros Hok Hex Hnp.
  destruct (exec_inv _ _ _ _ _ o r w' step_focus Hok Hex) as [[? _]|[_ (l' & L' & T' & H' & [Hinv' Hr _ _ Hh])]]; [done|].
  eexists. eapply step_put_back; [exact Hinv'| |].
  - intros j. specialize (Hh j). unfold rest_handles in *. cbn in Hh. lia.
  - rewrite Hr. by apply step_spaces.
Qed.
Lemma step_exit r os' m' :
  vm_drop vs (os, m) = (r, (os', m')) → r = Ok () ∧ m_mem m' = m_mem m ∧
  sys_inv ext (Sys (ss1 ++ [] ++ ss2) os' m') (gs1 ++ [] ++ gs2).
Proof.
  intros Hd. destruct step_spaces as ([Hl _ _ _ _ Hne] & _). destruct step_facts as (Hc0 & _ & _ & Hap).
  pose proof (vm_drop_spec _ _ _ _ _ step_focus Hne) as Hs. unfold wp in Hs. cbn [w_space w_objects w_machine] in Hs.
  rewrite Hd in Hs. cbn in Hs. destruct Hs as (-> & -> & Hrefs & Hm & Hwf & _ & Ht). split; [done|]. split; [done|].
  apply step_replace; cbn; try done.
  - apply Hsys.
  - apply step_focus.
  - intros i H1 H2 H3 H4. rewrite Hrefs, <- H4, Hc0, H2. done.
Qed.
Lemma step_fork r w' :
  try_clone (World vs os m) = (r, w') →
  match r with
  | Ok child => ∃ gs', sys_inv ext (Sys (ss1 ++ [w_space w'; child] ++ ss2) (w_objects w') (w_machine w')) gs'
  | Err _ => ∃ gs', sys_inv ext (Sys (ss1 ++ [w_space w'] ++ ss2) (w_objects w') (w_machine w')) gs'
  | Panic => False
  end.
Proof.
  intros Hf. destruct step_spaces as ([Hl _ _ _ _ Hne] & _). destruct step_facts as (Hc0 & _ & _ & Hap).
  pose proof (try_clone_spec FTg _ _ _ _ _ step_focus Hne) as Hs. unfold wp in Hs. rewrite Hf in Hs. cbn [fst snd] in Hs.
  destruct Hs as ((Hs1 & _) & Ho & Hm & Hs). cbn in Hs1, Ho. destruct r as [child|e|]; [| |done].
  - destruct Hs as (L' & Lc & Tc & [Hp Hc Hr Hcnt Hsafe _ _]).
    exists (gs1 ++ [Ghost (g_areas g) L' (g_tables g); Ghost (g_areas g) Lc Tc] ++ gs2).
    pose proof (vi_as _ _ _ _ _ Hp) as Hap'. pose proof (vi_as _ _ _ _ _ Hc) as Hac.
    pose proof (as_passive _ _ _ _ Hap') as Hpp. pose proof (as_passive _ _ _ _ Hac) as Hpc.
    destruct (ai_foreign _ _ _ _ Hap') as [[HF HFd] Hdis _ _]. pose proof (ai_foreign _ _ _ _ Hac) as [_ Hdis' _ _].
    assert (∀ i, m_refs (w_machine w') i = own_count L' i + own_count Lc i + rest_handles ext os gr i) as Hrefs.
    { intros i. pose proof (ai_count _ _ _ _ Hap' i) as Hc'. cbn in Hc'. lia. }
    apply step_replace; cbn.
    + apply Hap'.
    + apply Hp.
    + intros i. rewrite Hrefs, Ho. lia.
    + constructor; [|constructor; [|constructor]]; [by eapply (vm_resident w'); [exact Hp|rewrite Hs1]|].
      apply (vm_resident _ _ _ _ _ Hc). cbn. by rewrite Hr, Hs1.
    + pose proof (ai_tables _ _ _ _ Hap') as HT. pose proof (ai_disjoint _ _ _ _ Hap') as HTd. cbn in HT, HTd, HF, HFd. split; [set_solver|].
      intros i Hi. specialize (HFd i Hi). specialize (HTd i Hi). set_solver.
    + cbn in Hdis, Hdis'. split; [set_solver|]. split; [set_solver|done].
    + apply Hp.
    + intros i H1 H2 H3 H4. destruct (Hcnt i) as [Hc1 Hc2]. rewrite Hrefs, Hc1, Hc2, H2 by done. rewrite <- H4, Hc0, H2. done.
  - destruct Hs as [Hinv' _]. eexists. eapply step_put_back; [exact Hinv'|by rewrite Ho|by rewrite Hs1].
Qed.
End step.

Lemma sys_inv_machine ext ss os m m' gs :
  sys_inv ext (Sys ss os m) gs → m_alloc m' = m_alloc m → m_refs m' = m_refs m → sys_inv ext (Sys ss os m') gs.
Proof.
  intros [Hm Hh Hc Hs Ht Ha] Hal Hr. cbn in *. unfold tables_ok in Ht. split; cbn; rewrite ?Hr; try done.
  - by eapply mach_wf_same.
  - unfold tables_ok. by rewrite Hal, Hr.
Qed.
Lemma sys_inv_new ext ss os m gs base size vs m' :
  sys_inv ext (Sys ss os m) gs → 0 ≤ base → 0 < size → (∀ x, base ≤ x < base + size → vaddr_is_valid x = true) →
  vm_new_empty base size m = (Ok vs, m') → ∃ gs', sys_inv ext (Sys (vs :: ss) os m') gs'.
Proof.
  intros [Hm Hh Hc Hs Ht Ha] H0 H1 Hv Hnew. cbn in *.
  assert (∀ i, 0 ≤ own_all gs i) as Hn by apply own_all_nonneg.
  pose proof (vm_new_empty_spec (FT := rest (tables_all gs) (λ i, own_all gs i + ext i) (m_mem m)) (BY := λ _, False) base size os m) as Hspec.
  unfold wp in Hspec. rewrite Hnew in Hspec. cbn [fst snd] in Hspec. destruct Hspec as (T & Hinv & Hr & _); try done.
  - split; [done|]. intros i. rewrite Hc. specialize (Hh i). specialize (Hn i). lia.
  - intros i. cbn. rewrite Hc. specialize (Hh i). specialize (Hn i). lia.
  - pose proof (vi_as _ _ _ _ _ Hinv) as Has. destruct (ai_foreign _ _ _ _ Has) as [[HF HFd] Hdis _ _]. cbn in HF, HFd, Hdis.
    assert (∀ i, m_refs m' i = m_refs m i) as Hrefs.
    { intros i. pose proof (ai_count _ _ _ _ Has i) as Hc'. cbn in Hc'. rewrite own_count_empty in Hc'. lia. }
    exists (Ghost [] ∅ T :: gs). split; cbn; try done.
    + apply Has.
    + intros i. rewrite Hrefs, own_count_empty. apply Hc.
    + constructor.
      * apply (vm_resident _ _ _ _ _ Hinv). cbn. rewrite Hr. unfold vr_nonempty. cbn. lia.
      * eapply Forall2_impl; [exact Hs|]. intros vs' g Hg. eapply resident_keep; [exact Hg|apply Hg|]. intros i _ Hi. by rewrite Hrefs.
    + pose proof (ai_tables _ _ _ _ Has) as HT. pose proof (ai_disjoint _ _ _ _ Has) as HTd. cbn in HT, HTd. split; [set_solver|].
      intros i Hi. specialize (HFd i Hi). specialize (HTd i Hi). set_solver.
Qed.
Lemma spaces_split ext ss1 vs ss2 os m gs :
  sys_inv ext (Sys (ss1 ++ vs :: ss2) os m) gs → ∃ gs1 g gs2, gs = gs1 ++ g :: gs2 ∧ length ss1 = length gs1.
Proof.
  intros Hsys. pose proof (si_spaces _ _ _ Hsys) as Hf. cbn in Hf.
  apply Forall2_app_inv_l in Hf as (gs1 & gs2 & H1 & H2 & ->). apply Forall2_cons_inv_l in H2 as (g & gs2' & _ & _ & ->).
  exists gs1, g, gs2'. split; [done|]. by eapply Forall2_length.
Qed.
Lemma sys_inv_act ext ss1 vs ss2 os m gs a ss' os' m' :
  sys_inv ext (Sys (ss1 ++ vs :: ss2) os m) gs → act_ok a (World vs os m) →
  act a (World vs os m) = Some (ss', os', m') → ∃ gs', sys_inv ext (Sys (ss1 ++ ss' ++ ss2) os' m') gs'.
Proof.
  intros Hsys Hok Hact. destruct (spaces_split _ _ _ _ _ _ _ Hsys) as (gs1 & g & gs2 & -> & Hlen).
  destruct a as [o| | |x v]; cbn in Hok, Hact.
  - destruct (vm_exec o _) as [r w'] eqn:Hex.
    assert (r ≠ Panic ∧ ([w_space w'], w_objects w', w_machine w') = (ss', os', m')) as [Hnp [= <- <- <-]] by (by destruct r; simplify_eq).
    by eapply step_op.
  - destruct (try_clone _) as [r w'] eqn:Hf. pose proof (step_fork _ _ _ _ _ _ _ _ _ Hsys Hlen r w' Hf) as Hs.
    destruct r; by simplify_eq.
  - destruct (vm_drop _ _) as [r [os1 m1]] eqn:Hd. cbn in Hd.
    destruct (step_exit _ _ _ _ _ _ _ _ _ Hsys Hlen r os1 m1 Hd) as (-> & _ & Hs). injection Hact as <- <- <-. eauto.
  - unfold user_store in Hact. cbn in Hact. destruct (pt_query _ x) as [[[p fl] ps]| |]; try done.
    destruct (_ && _); [|done]. cbn in Hact. injection Hact as <- <- <-. exists (gs1 ++ g :: gs2). cbn.
    by eapply sys_inv_machine.
Qed.
Lemma reachable_inv os0 m0 s :
  reachable os0 m0 s → ∃ gs, sys_inv (λ i, m_refs m0 i - held os0 i) s gs.
Proof.
  induction 1 as [[Hwf Hh]|ss os m base size vs m' Hr [gs IH] H0 H1 Hv Hnew|ss1 vs ss2 os m a ss' os' m' Hr [gs IH] Hok Hact].
  - exists []. split; cbn; try done; [|intros i; lia]. intros i. specialize (Hh i). lia.
  - by eapply sys_inv_new.
  - by eapply sys_inv_act.
Qed.

(** ** What a process sees *)

(** The frame behind the address [x] of a leaf for allocated memory *)
Record frame_behind L (b : Z) (lf : leaf) (x p i : Z) : Prop := {
  fb_leaf : L !! b = Some lf;
  fb_base : b = x - x mod 4096;
  fb_owns : owns i lf = true;
  fb_meta : metadata (lf_paddr lf) = Some i;
  fb_valid : frame_valid i;
  fb_addr : p - p mod 4096 = frame_addr i;
  fb_page : frame_page i (phys_to_virt p);
}.
Lemma leaf_frame A L T b lf x :
  passive A L T → L !! b = Some lf → is_alloc lf = true → b ≤ x < b + page_bytes (lf_size lf) →
  ∃ i, frame_behind L b lf x (lf_paddr lf + (x - b)) i.
Proof.
  intros [Hrep Hal Hus Hva] Hb Hc Hxb. destruct (Hal b lf Hb Hc) as [Hs [i Hi]].
  destruct (lw_base _ _ _ (pt_rep_wf _ _ _ Hrep) _ _ Hb) as (Hbal & _).
  rewrite Hs in Hxb, Hbal. cbn in Hxb, Hbal. pose proof Hi as [Hv Hpa]%metadata_Some.
  assert (x mod 4096 = x - b) as Hxm by (replace x with (b + (x - b)) at 1 by lia; rewrite mod_add_aligned, Z.mod_small; done || lia).
  exists i. split; try done.
  - lia.
  - unfold owns. by rewrite Hc, bool_decide_eq_true_2.
  - by rewrite (frame_of_byte _ i) by (done || lia).
  - apply (frame_byte _ _ _ Hi). lia.
Qed.
Lemma translated A L T x p flags ps :
  passive A L T → vr_start (as_range A) ≤ x < vr_end (as_range A) → pt_query (as_table A) x = Ok (p, flags, ps) →
  contains flags ALLOC_FRAME = true → ∃ b lf i, frame_behind L b lf x p i.
Proof.
  intros Hp Hx Hq Hc. rewrite (pt_query_spec _ _ _ _ (pa_rep _ _ _ Hp) (pa_valid _ _ _ Hp x Hx)) in Hq.
  destruct (leaf_find L x) as [[b lf]|] eqn:Hf; [|done]. injection Hq as <- <- <-.
  apply (leaf_find_Some (pt_rep_wf _ _ _ (pa_rep _ _ _ Hp))) in Hf as [Hb Hxb]. exists b, lf. by eapply leaf_frame.
Qed.
(** What a process reads is unchanged if its frames are. *)
Lemma same_bytes os refs vs g os' m m' x :
  resident os refs vs g → in_space (World vs os m) x →
  (∀ i y, 1 ≤ own_count (g_leaves g) i → frame_valid i → frame_page i y → m_mem m' y = m_mem m y) →
  user_byte (World vs os' m') x = user_byte (World vs os m) x.
Proof.
  intros [Hl Hr Hp _ _ _] Hx Hm. unfold user_byte. cbn. destruct (pt_query _ x) as [[[p fl] ps]| |] eqn:Hq; try done.
  destruct (contains fl ALLOC_FRAME) eqn:Hc; [|done].
  destruct (translated _ _ _ x p fl ps Hp) as (b & lf & i & [Hb _ Ho _ Hv _ Hpg]); try done; [by rewrite Hr|].
  rewrite (Hm i); try done. by eapply own_count_pos.
Qed.
(** A writable page of a private area, in a frame of its own *)
Lemma private_page ext ss1 vs ss2 os m gs1 g gs2 x p flags ps v :
  sys_inv ext (Sys (ss1 ++ vs :: ss2) os m) (gs1 ++ g :: gs2) → length ss1 = length gs1 →
  in_space (World vs os m) x → pt_query (as_table (vs_aspace vs)) x = Ok (p, flags, ps) →
  contains flags WRITE = true → space_view (World vs os m) x = Some v → pv_private v = true →
  contains flags ALLOC_FRAME = true ∧ ∃ i, frame_valid i ∧ p - p mod 4096 = frame_addr i ∧ frame_page i (phys_to_virt p) ∧
    m_refs m i = 1 ∧ own_count (g_leaves g) i = 1 ∧ own_all (gs1 ++ gs2) i = 0 ∧ held os i = 0.
Proof.
  intros Hsys Hlen Hx Hq Hw Hview Hpriv.
  destruct (step_spaces _ _ _ _ _ _ _ _ _ Hsys Hlen) as (Hres & _). destruct (step_facts _ _ _ _ _ _ _ _ _ Hsys Hlen) as (Hc & _).
  pose proof (step_focus _ _ _ _ _ _ _ _ _ Hsys Hlen) as Hinv.
  destruct (translation_ok _ _ _ _ _ _ _ _ _ Hinv Hx Hq) as (b & lf & a & Hb & Hxb & Hv & Hax & -> & -> & _).
  rewrite (space_view_inv _ _ _ _ _ _ Hinv), Hax in Hview. injection Hview as <-. cbn in Hpriv.
  pose proof (private_alloc _ _ _ _ _ _ _ _ Hinv Hv Hpriv) as Hal. split; [done|].
  destruct (leaf_frame _ _ _ _ _ x (rs_passive _ _ _ _ Hres) Hb Hal Hxb) as (i & [_ _ Ho Hi Hfv Hpa Hpg]).
  exists i. do 3 (split; [done|]). pose proof (lv_cow _ _ _ _ _ Hv Hpriv Hw i Hi) as H1. cbn in H1.
  specialize (Hc i). unfold rest_handles in Hc. pose proof (own_count_pos _ _ _ _ Hb Ho).
  pose proof (si_held _ _ _ Hsys i). pose proof (own_all_nonneg (gs1 ++ gs2) i). cbn in *. lia.
Qed.

(** Everybody else's spaces *)
Lemma other_resident ext ss1 vs ss2 os m gs1 g gs2 vs2 :
  sys_inv ext (Sys (ss1 ++ vs :: ss2) os m) (gs1 ++ g :: gs2) → length ss1 = length gs1 → vs2 ∈ ss1 ++ ss2 →
  ∃ g2, g2 ∈ gs1 ++ gs2 ∧ resident os (m_refs m) vs2 g2.
Proof.
  intros Hsys Hlen Hin. destruct (step_spaces _ _ _ _ _ _ _ _ _ Hsys Hlen) as (_ & Hs1 & Hs2).
  pose proof (Forall2_app Hs1 Hs2) as Hf. apply list_elem_of_lookup in Hin as [n Hn].
  destruct (Forall2_lookup_l _ _ _ _ _ Hf Hn) as (g2 & Hg2 & Hres). exists g2. split; [by eapply list_elem_of_lookup_2|done].
Qed.
(** The frames of the others are left alone. *)
Definition shared_store (a : action) (w : world) : Prop :=
  match a with Store x _ => ∃ v, space_view w x = Some v ∧ pv_private v = false | _ => False end.
Lemma act_memory ext ss1 vs ss2 os m gs1 g gs2 a ss' os' m' i y :
  sys_inv ext (Sys (ss1 ++ vs :: ss2) os m) (gs1 ++ g :: gs2) → length ss1 = length gs1 →
  act_ok a (World vs os m) → act a (World vs os m) = Some (ss', os', m') → ¬ shared_store a (World vs os m) →
  1 ≤ own_all (gs1 ++ gs2) i → frame_valid i → frame_page i y → m_mem m' y = m_mem m y.
Proof.
  intros Hsys Hlen Hok Hact Hns Hi Hv Hy. pose proof (step_focus _ _ _ _ _ _ _ _ _ Hsys Hlen) as Hinv.
  pose proof (si_held _ _ _ Hsys i) as [_ He]. cbn in He.
  destruct a as [o| | |x v]; cbn in Hok, Hact, Hns.
  - destruct (vm_exec o _) as [r w'] eqn:Hex.
    assert (r ≠ Panic ∧ w_machine w' = m') as [Hnp <-] by (by destruct r; simplify_eq).
    destruct (exec_inv _ _ _ _ _ o r w' Hinv Hok Hex) as [[? _]|[_ (l' & L' & T' & H' & [Hinv' _ _ _ _])]]; [done|].
    apply (fo_image _ _ _ _ (ai_foreign _ _ _ _ (vi_as _ _ _ _ _ Hinv')) i); [cbn; lia|done].
  - destruct (step_spaces _ _ _ _ _ _ _ _ _ Hsys Hlen) as (Hres & _).
    pose proof (try_clone_spec _ _ _ _ _ _ Hinv (rs_nonempty _ _ _ _ Hres)) as Hs. unfold wp in Hs.
    destruct (try_clone _) as [r w']. cbn [fst snd] in Hs. destruct Hs as (_ & _ & Hm & _). cbn in Hm.
    assert (w_machine w' = m') as <- by (by destruct r; simplify_eq). by rewrite Hm.
  - destruct (vm_drop _ _) as [r [os1 m1]] eqn:Hd. cbn in Hd.
    destruct (step_exit _ _ _ _ _ _ _ _ _ Hsys Hlen r os1 m1 Hd) as (-> & Hm & _). simplify_eq. by rewrite Hm.
  - unfold user_store in Hact. cbn in Hact. destruct (pt_query _ x) as [[[p fl] ps]| |] eqn:Hq; try done.
    destruct (contains fl WRITE && contains fl ALLOC_FRAME) eqn:Hfl; [|done]. apply andb_true_iff in Hfl as [Hw Hal].
    cbn in Hact. simplify_eq. cbn. rewrite fupd_ne; [done|]. intros ->. apply Hns.
    destruct (translation_ok _ _ _ _ _ _ _ _ _ Hinv Hok Hq) as (b & lf & ar & _ & _ & _ & Hax & _).
    exists (area_view ar x). rewrite (space_view_inv _ _ _ _ _ _ Hinv). split; [done|].
    destruct (pv_private (area_view ar x)) eqn:Hp; [|done]. exfalso.
    destruct (private_page _ _ _ _ _ _ _ _ _ x p fl ps (area_view ar x) Hsys Hlen) as (_ & j & Hj & _ & Hpj & _ & _ & Hz & _); try done.
    { by rewrite (space_view_inv _ _ _ _ _ _ Hinv). }
    pose proof (frame_page_disjoint i j _ Hv Hj Hy Hpj). subst. lia.
Qed.

(** Pages in the same frames show the same bytes. *)
Lemma same_user_byte {FT FT' : Foreign} {BY BY' : Bystanders} w l L T H w' l' L' T' H' x :
  vm_inv (FT := FT) (BY := BY) w l L T H → vm_inv (FT := FT') (BY := BY') w' l' L' T' H' →
  vs_range (w_space w') = vs_range (w_space w) →
  keeps_bytes L (w_machine w) L' (w_machine w') → keeps_bytes L' (w_machine w') L (w_machine w) → in_space w x →
  user_byte w' x = user_byte w x.
Proof.
  intros Hinv Hinv' Hr Hk Hk' Hx. assert (in_space w' x) as Hx' by (unfold in_space; by rewrite Hr).
  rewrite (user_byte_inv _ _ _ _ _ _ Hinv Hx), (user_byte_inv _ _ _ _ _ _ Hinv' Hx').
  destruct (leaf_find L x) as [[b lf]|] eqn:Hf; [destruct (is_alloc lf) eqn:Hal|].
  1: destruct (Hk x b lf Hf Hal) as (lf' & -> & -> & ->); done.
  all: destruct (leaf_find L' x) as [[b' lf']|] eqn:Hf'; [|done]; destruct (is_alloc lf') eqn:Hal'; [|done];
    destruct (Hk' x b' lf' Hf' Hal') as (lf1 & Hf1 & Hal1 & _); congruence.
Qed.
(** Pages that fit whatever the reference counts are cannot be written in a private area. *)
Lemma safe_readonly {FT : Foreign} {BY : Bystanders} w l L T H x p flags ps v :
  vm_inv w l L T H → (∀ b lf, L !! b = Some lf → ∃ v, ∀ refs, leaf_ok l refs b lf v) → in_space w x →
  pt_query (as_table (vs_aspace (w_space w))) x = Ok (p, flags, ps) → space_view w x = Some v → pv_private v = true →
  contains flags WRITE = false.
Proof.
  intros Hinv Hsafe Hx Hq Hview Hpriv.
  destruct (translation_ok _ _ _ _ _ _ _ _ _ Hinv Hx Hq) as (b & lf & a & Hb & _ & Hv & Hax & _ & -> & _).
  rewrite (space_view_inv _ _ _ _ _ _ Hinv), Hax in Hview. injection Hview as <-. cbn in Hpriv.
  destruct (Hsafe b lf Hb) as [v' Hv']. pose proof (lv_view _ _ _ _ _ (Hv' (λ _, 0))) as Hvv. rewrite (lv_view _ _ _ _ _ Hv) in Hvv.
  injection Hvv as <-. destruct (alloc_index _ _ _ _ _ _ (vi_as _ _ _ _ _ Hinv) Hb (private_alloc _ _ _ _ _ _ _ _ Hinv Hv Hpriv)) as (i & Hi & _).
  destruct (contains (lf_flags lf) WRITE) eqn:Hw; [|done]. by pose proof (lv_cow _ _ _ _ _ (Hv' (λ _, 0)) Hpriv Hw i Hi).
Qed.
Lemma same_frame os m vs g x p flags ps i :
  resident os (m_refs m) vs g → in_space (World vs os m) x → pt_query (as_table (vs_aspace vs)) x = Ok (p, flags, ps) →
  contains flags ALLOC_FRAME = true → frame_valid i → p - p mod 4096 = frame_addr i →
  ∃ b lf, g_leaves g !! b = Some lf ∧ b = x - x mod 4096 ∧ owns i lf = true.
Proof.
  intros Hres Hx Hq Hal Hv Hp. destruct (translated _ _ _ x p flags ps (rs_passive _ _ _ _ Hres)) as (b & lf & j & [Hb Hbx Ho _ Hvj Hpj _]); try done.
  { rewrite (rs_range _ _ _ _ Hres). exact Hx. }
  assert (i = j) as <- by (unfold frame_addr in *; lia). eauto.
Qed.

(** ** Properties *)

(** C2: processes are isolated. Whatever a process does (mapping, unmapping,
    protection, page faults, fork, exit, a store to its private memory), every
    other process reads the same bytes at the same addresses as before; only a store to a
    shared area can be seen elsewhere. *)
Theorem spaces_isolated os0 m0 ss1 vs ss2 os m a ss' os' m' vs2 x :
  reachable os0 m0 (Sys (ss1 ++ vs :: ss2) os m) → act_ok a (World vs os m) →
  act a (World vs os m) = Some (ss', os', m') → ¬ shared_store a (World vs os m) →
  vs2 ∈ ss1 ++ ss2 → in_space (World vs2 os m) x →
  user_byte (World vs2 os' m') x = user_byte (World vs2 os m) x.
Proof.
  intros [gs Hsys]%reachable_inv Hok Hact Hns Hin Hx.
  destruct (spaces_split _ _ _ _ _ _ _ Hsys) as (gs1 & g & gs2 & -> & Hlen).
  destruct (other_resident _ _ _ _ _ _ _ _ _ _ Hsys Hlen Hin) as (g2 & Hg2 & Hres).
  eapply same_bytes; [exact Hres|done|]. intros i y Hi Hv Hy.
  eapply (act_memory _ _ _ _ _ _ _ _ _ a); try done. pose proof (own_all_elem g2 _ i Hg2). lia.
Qed.

(** C29: the frame behind a writable page of a private area belongs to that page
    alone: no other process and no other page of the same process translates to
    it, and no page source holds it. *)
Theorem private_frame_unshared os0 m0 ss1 vs ss2 os m x p flags ps v :
  reachable os0 m0 (Sys (ss1 ++ vs :: ss2) os m) → in_space (World vs os m) x →
  pt_query (as_table (vs_aspace vs)) x = Ok (p, flags, ps) → contains flags WRITE = true →
  space_view (World vs os m) x = Some v → pv_private v = true →
  (∃ i, metadata (p - p mod 4096) = Some i ∧ m_refs m i = 1 ∧ held os i = 0) ∧
  (∀ vs2 y q flags2 ps2, vs2 ∈ ss1 ++ ss2 → in_space (World vs2 os m) y →
     pt_query (as_table (vs_aspace vs2)) y = Ok (q, flags2, ps2) → contains flags2 ALLOC_FRAME = true →
     q - q mod 4096 ≠ p - p mod 4096) ∧
  (∀ y q flags2 ps2, in_space (World vs os m) y →
     pt_query (as_table (vs_aspace vs)) y = Ok (q, flags2, ps2) → contains flags2 ALLOC_FRAME = true →
     q - q mod 4096 = p - p mod 4096 → y - y mod 4096 = x - x mod 4096).
Proof.
  intros [gs Hsys]%reachable_inv Hx Hq Hw Hview Hpriv.
  destruct (spaces_split _ _ _ _ _ _ _ Hsys) as (gs1 & g & gs2 & -> & Hlen).
  destruct (private_page _ _ _ _ _ _ _ _ _ x p flags ps v Hsys Hlen Hx Hq Hw Hview Hpriv)
    as (Hal & i & Hv & Hpa & _ & Hrefs & Hown & Hall & Hheld).
  destruct (step_spaces _ _ _ _ _ _ _ _ _ Hsys Hlen) as (Hres & _). split; [|split].
  - exists i. split; [|done]. by apply metadata_Some.
  - intros vs2 y q fl2 ps2 Hin Hy Hq2 Hal2 Heq. destruct (other_resident _ _ _ _ _ _ _ _ _ _ Hsys Hlen Hin) as (g2 & Hg2 & Hres2).
    destruct (same_frame os m vs2 g2 y q fl2 ps2 i Hres2 Hy Hq2 Hal2 Hv) as (b & lf & Hb & _ & Ho); [congruence|].
    pose proof (own_count_pos _ _ _ _ Hb Ho). pose proof (own_all_elem g2 _ i Hg2). lia.
  - intros y q fl2 ps2 Hy Hq2 Hal2 Heq.
    destruct (same_frame os m vs g x p flags ps i Hres Hx Hq Hal Hv Hpa) as (b1 & lf1 & Hb1 & <- & Ho1).
    destruct (same_frame os m vs g y q fl2 ps2 i Hres Hy Hq2 Hal2 Hv) as (b2 & lf2 & Hb2 & <- & Ho2); [congruence|].
    destruct (decide (b2 = b1)) as [|Hne]; [done|]. exfalso. pose proof (own_count_delete _ b1 lf1 i Hb1) as Hd. rewrite Ho1 in Hd.
    assert (delete b1 (g_leaves g) !! b2 = Some lf2) as Hb2' by (by rewrite lookup_delete_ne).
    pose proof (own_count_pos _ _ _ _ Hb2' Ho2). lia.
Qed.

(** C4: fork copies a process. It cannot panic. If it succeeds, the child has
    the parent's layout and reads the parent's bytes at every address, the
    parent's own layout and bytes are unchanged, and neither of the two can write a private page before
    it has faulted on it. If it fails, the parent is unchanged and so is the
    reference count of every frame. *)
Theorem fork_copies os0 m0 ss1 vs ss2 os m r w' :
  reachable os0 m0 (Sys (ss1 ++ vs :: ss2) os m) → try_clone (World vs os m) = (r, w') →
  let w := World vs os m in
  (∀ x, space_view w' x = space_view w x) ∧ (∀ x, in_space w x → user_byte w' x = user_byte w x) ∧
  match r with
  | Ok child =>
      let wc := World child (w_objects w') (w_machine w') in
      (∀ x, space_view wc x = space_view w x) ∧ (∀ x, in_space w x → user_byte wc x = user_byte w x) ∧
      ∀ w1 x p flags ps v, w1 = w' ∨ w1 = wc → in_space w x →
        pt_query (as_table (vs_aspace (w_space w1))) x = Ok (p, flags, ps) →
        space_view w1 x = Some v → pv_private v = true → contains flags WRITE = false
  | Err _ => ∀ i, m_refs (w_machine w') i = m_refs m i
  | Panic => False
  end.
Proof.
  intros [gs Hsys]%reachable_inv Hf. cbn zeta.
  destruct (spaces_split _ _ _ _ _ _ _ Hsys) as (gs1 & g & gs2 & -> & Hlen).
  destruct (step_spaces _ _ _ _ _ _ _ _ _ Hsys Hlen) as ([Hl _ _ _ _ Hne] & _).
  pose proof (step_focus _ _ _ _ _ _ _ _ _ Hsys Hlen) as Hinv.
  pose proof (try_clone_spec _ _ _ _ _ _ Hinv Hne) as Hs. unfold wp in Hs. rewrite Hf in Hs. cbn [fst snd] in Hs.
  destruct Hs as ((Hr & Ha & _) & Ho & Hm & Hs).
  assert (∀ x, space_view w' x = space_view (World vs os m) x) as Hv by (intros x; unfold space_view; by rewrite Ha).
  split; [done|]. destruct r as [child|e|]; [| |done].
  - destruct Hs as (L' & Lc & Tc & [Hp Hc Hrc _ Hsafe [Hb1 Hb2] [Hc1 Hc2]]). pose proof Hrc as Hrc'. rewrite Hr in Hrc'.
    assert (∀ x, in_space (World vs os m) x → user_byte w' x = user_byte (World vs os m) x) as Hub
      by (intros x; by apply (same_user_byte _ _ _ _ _ _ _ _ _ _ x Hinv Hp)).
    assert (∀ x, space_view (World child (w_objects w') (w_machine w')) x = space_view (World vs os m) x) as Hvc
      by (intros x; by rewrite (space_view_inv _ _ _ _ _ _ Hc), (space_view_inv _ _ _ _ _ _ Hinv)).
    split; [done|]. split; [done|]. split.
    + intros x Hx. rewrite <- (Hub x Hx). apply (same_user_byte _ _ _ _ _ _ _ _ _ _ x Hp Hc); try done.
      unfold in_space in *. by rewrite Hr.
    + intros w1 x p fl ps v Hw1 Hx Hq Hview Hpriv.
      assert (in_space w1 x) as Hx1 by (unfold in_space in *; destruct Hw1 as [-> | ->]; cbn; congruence).
      destruct Hw1 as [-> | ->]; [eapply (safe_readonly _ _ _ _ _ x p fl ps v Hp); eauto|eapply (safe_readonly _ _ _ _ _ x p fl ps v Hc); eauto].
  - destruct Hs as [Hinv' Hrefs]. split; [|done]. intros x Hx.
    apply (same_user_byte _ _ _ _ _ _ _ _ _ _ x Hinv Hinv'); try done; by apply keeps_bytes_refl.
Qed.

(** C30: processes leak no frame: when all of them have exited, the references to
    every frame, less those the page sources hold, are what they were when the first
    process was created. *)
Theorem system_releases os0 m0 os m :
  reachable os0 m0 (Sys [] os m) →
  mach_wf m ∧ ∀ i, m_refs m i - held os i = m_refs m0 i - held os0 i.
Proof.
  intros [gs [Hm _ Hc Hs _ _]]%reachable_inv. cbn in *. apply Forall2_nil_inv_l in Hs as ->.
  split; [done|]. intros i. rewrite Hc. cbn. lia.
Qed.
End system.
