(* ===== verification/VmSystemRuns.v ===== *)
(** * Two concrete processes

    A process of the reference platform writes to its memory and forks; parent
    and child then go their own ways. The theorems about processes applied to
    them. *)
From S2P Require Import Prelude Errno MemAddr Frame PageTable Pte PageTable64 Radix AddressSpace AspaceInv AspaceTxn.
From S2P Require Import AspaceStatic Platform BTree VmArea VmSpace VmOps VmLayout VmInv VmFault VmUnmap VmProtect.
From S2P Require Import VmMap SharedObject VmTheorems VmWitness VmFork VmSystem.
From stdpp Require Import prelude gmap list.
Open Scope Z_scope.

Module SysExample.
Import Platform VmExample.

(** The first process acts. *)
Definition head (s : sys) : VmSpace := hd no_space (s_spaces s).
Definition cur (s : sys) : world := World (head s) (s_objects s) (s_machine s).
Definition go (a : action) (s : sys) : sys :=
  match act a (cur s) with
  | Some (ss', os', m') => Sys (ss' ++ tl (s_spaces s)) os' m'
  | None => s
  end.
Lemma sys_cons s :
  s_spaces s ≠ [] → s = Sys ([] ++ head s :: tl (s_spaces s)) (s_objects s) (s_machine s).
Proof. by destruct s as [[|vs ss] os m]. Qed.
Definition started (s : sys) : bool := match s_spaces s with [] => false | _ => true end.
Lemma started_ne s : started s = true → s_spaces s ≠ [].
Proof. by destruct s as [[|vs ss] os m]. Qed.
Lemma go_reachable s a :
  reachable no_objects boot s → started s = true → act_ok a (cur s) → reachable no_objects boot (go a s).
Proof.
  intros Hr Hs%started_ne Hok. unfold go. destruct (act a (cur s)) as [[[ss' os'] m']|] eqn:Ha; [|done].
  rewrite (sys_cons s Hs) in Hr. eapply (sys_act _ _ [] _ (tl (s_spaces s)) _ _ a); [exact Hr|exact Hok|exact Ha].
Qed.

Definition s0 : sys := Sys [w_space w0] no_objects (w_machine w0).
Lemma s0_reachable : reachable no_objects boot s0.
Proof.
  unfold s0, w0. pose proof created_ok as Hok. destruct created as [[vs|e|] m'] eqn:Hc; try done. cbn.
  by apply (sys_new _ _ [] no_objects boot 0x10000 0x100000 vs m' (sys_start _ _ boot_ready)); try done; apply low_valid.
Qed.
(** Map, touch, store 42, fork; the parent touches its page again. *)
Definition touch : action := Op (VmFault 0x21123 store).
Definition s3 : sys := go (Store 0x21123 42) (go touch (go (Op map_op) s0)).
Definition s4 : sys := go Fork s3.
Definition s5 : sys := go touch s4.
Lemma s3_reachable : reachable no_objects boot s3.
Proof.
  unfold s3. apply go_reachable; [|by vm_compute|by vm_compute]. apply go_reachable; [|by vm_compute|done].
  apply go_reachable; [apply s0_reachable|by vm_compute|apply map_op_ok].
Qed.
Lemma s5_reachable : reachable no_objects boot s5.
Proof. unfold s5, s4. do 2 (apply go_reachable; [|by vm_compute|done]). apply s3_reachable. Qed.

Lemma split_reachable s :
  reachable no_objects boot s → started s = true →
  reachable no_objects boot (Sys ([] ++ head s :: tl (s_spaces s)) (s_objects s) (s_machine s)).
Proof. intros Hr Hs%started_ne. by rewrite <- sys_cons. Qed.

(** The parent stores 7 where both read 42. *)
Definition child5 : VmSpace := hd no_space (tl (s_spaces s5)).
Lemma child5_in : child5 ∈ [] ++ tl (s_spaces s5).
Proof.
  assert (started (Sys (tl (s_spaces s5)) no_objects boot) = true) as Hs by (by vm_compute).
  unfold child5. destruct (tl (s_spaces s5)) as [|c ss]; [done|]. left.
Qed.
Definition stored : list VmSpace * objects (VmObject := shared_object) * machine :=
  default ([], no_objects, boot) (act (Store 0x21123 7) (cur s5)).
Lemma stored_ok : act (Store 0x21123 7) (cur s5) = Some (stored.1.1, stored.1.2, stored.2).
Proof.
  assert (bool_decide (is_Some (act (Store 0x21123 7) (cur s5))) = true) as Hs by (by vm_compute).
  unfold stored. destruct (act _ _) as [[[? ?] ?]|]; [done|by vm_compute in Hs].
Qed.
Definition zero_page : page_view := PageView user_rw Size4K true PZero.
Lemma cur5_private :
  space_view (World (head s5) (s_objects s5) (s_machine s5)) 0x21123 = Some zero_page.
Proof. by vm_compute. Qed.
Lemma spaces_isolated_witness :
  user_byte (cur s5) 0x21123 = Some 42 ∧ user_byte (World (head s5) stored.1.2 stored.2) 0x21123 = Some 7 ∧
  user_byte (World child5 stored.1.2 stored.2) 0x21123 = Some 42.
Proof.
  split; [vm_compute; reflexivity|]. split; [vm_compute; reflexivity|].
  assert (user_byte (World child5 (s_objects s5) (s_machine s5)) 0x21123 = Some 42) as Hb by (vm_compute; reflexivity).
  rewrite <- Hb. refine (spaces_isolated no_objects boot [] (head s5) (tl (s_spaces s5)) (s_objects s5) (s_machine s5)
    (Store 0x21123 7) stored.1.1 stored.1.2 stored.2 child5 0x21123 (split_reachable s5 s5_reachable _) _ stored_ok _ child5_in _).
  - vm_compute; reflexivity.
  - split; by vm_compute.
  - intros (v & Hv & Hp). rewrite cur5_private in Hv. injection Hv as <-. discriminate Hp.
  - split; by vm_compute.
Defined.

Definition page5 : Z * Z * PageSize :=
  match pt_query (as_table (vs_aspace (head s5))) 0x21123 with Ok p => p | _ => (0, 0, Size4K) end.
Lemma private_frame_unshared_witness :
  contains page5.1.2 WRITE = true ∧ ∃ i, metadata (page5.1.1 - page5.1.1 mod 4096) = Some i ∧ m_refs (s_machine s5) i = 1.
Proof.
  split; [vm_compute; reflexivity|].
  destruct (private_frame_unshared no_objects boot [] (head s5) (tl (s_spaces s5)) (s_objects s5) (s_machine s5)
    0x21123 page5.1.1 page5.1.2 page5.2 zero_page (split_reachable s5 s5_reachable ltac:(vm_compute; reflexivity)))
    as ((i & Hi & Hr & _) & _).
  - split; by vm_compute.
  - by vm_compute.
  - by vm_compute.
  - apply cur5_private.
  - reflexivity.
  - exists i. split; [exact Hi|exact Hr].
Defined.

Lemma fork_copies_witness :
  user_byte (World (head s3) (s_objects s3) (s_machine s3)) 0x21123 = Some 42 ∧
  ∃ child w', try_clone (World (head s3) (s_objects s3) (s_machine s3)) = (Ok child, w') ∧ user_byte w' 0x21123 = Some 42 ∧
    user_byte (World child (w_objects w') (w_machine w')) 0x21123 = Some 42.
Proof.
  assert (user_byte (World (head s3) (s_objects s3) (s_machine s3)) 0x21123 = Some 42) as Hb by (vm_compute; reflexivity).
  split; [exact Hb|].
  assert (is_ok (try_clone (World (head s3) (s_objects s3) (s_machine s3))).1 = true) as Hok by (vm_compute; reflexivity).
  destruct (fork_copies no_objects boot [] (head s3) (tl (s_spaces s3)) (s_objects s3) (s_machine s3)
    (try_clone (World (head s3) (s_objects s3) (s_machine s3))).1 (try_clone (World (head s3) (s_objects s3) (s_machine s3))).2
    (split_reachable s3 s3_reachable ltac:(vm_compute; reflexivity)) (pair_eta _)) as (_ & Hp & Hc).
  assert (in_space (World (head s3) (s_objects s3) (s_machine s3)) 0x21123) as Hin by (clear; split; by vm_compute).
  destruct (try_clone (World (head s3) (s_objects s3) (s_machine s3))) as [[child|e|] w']; [|discriminate Hok..].
  exists child, w'. split; [reflexivity|]. destruct Hc as (_ & Hc & _). split; rewrite <- Hb; [exact (Hp _ Hin)|exact (Hc _ Hin)].
Defined.

(** Both exit. *)
Definition s7 : sys := go Exit (go Exit s5).
Lemma s7_reachable : reachable no_objects boot s7.
Proof. unfold s7. do 2 (apply go_reachable; [|vm_compute; reflexivity|exact I]). apply s5_reachable. Qed.
Lemma s7_empty : s7 = Sys [] (s_objects s7) (s_machine s7).
Proof.
  assert (started s7 = false) as Hs by (vm_compute; reflexivity). destruct s7 as [[|vs ss] os m]; [done|discriminate Hs].
Qed.
Lemma s7_sources : held (s_objects s7) 1 = 0.
Proof. by vm_compute. Qed.
Lemma system_releases_witness :
  m_refs (s_machine s5) 1 = 1 ∧ m_refs (s_machine s7) 1 = 0.
Proof.
  split; [vm_compute; reflexivity|].
  destruct (system_releases no_objects boot (s_objects s7) (s_machine s7)) as [_ Hc].
  { rewrite <- s7_empty. apply s7_reachable. }
  specialize (Hc 1). rewrite s7_sources in Hc. change (m_refs boot 1 - held no_objects 1) with 0 in Hc. clear - Hc. lia.
Defined.
End SysExample.
