(* ===== verification/AssemblerSpec.v ===== *)
(** * The segment assembler against its reference

    The array code equals insertion into a list of contigs ([ins]), and that
    insertion is set union on the received positions. *)
From S2P Require Import Prelude Assembler.
From stdpp Require Import prelude list.
Open Scope Z_scope.

Module AssemblerSpec.
Import Assembler.

(** ** The reference: insertion into a list of contigs in use *)

Definition total (c : Contig) : Z := hole_size c + data_size c.
Definition reach (c : Contig) (fin : Z) : Contig := MkContig (hole_size c) (data_size c + (fin - total c)).
Definition stretch (c : Contig) (us : list Contig) (fin : Z) : list Contig :=
  if total c <? fin then
    reach c fin ::
    match us with
    | [] => []
    | d :: us' => MkContig (hole_size d - (fin - total c)) (data_size d) :: us'
    end
  else c :: us.
Fixpoint absorb (c : Contig) (us : list Contig) (fin : Z) : list Contig :=
  match us with
  | [] => stretch c [] fin
  | d :: us' =>
    if total c + hole_size d <=? fin then absorb (MkContig (hole_size c) (data_size c + total d)) us' fin
    else stretch c us fin
  end.
Definition ins_here (c : Contig) (us : list Contig) (o s : Z) : list Contig :=
  if (o <? hole_size c) && (o + s <? hole_size c)
  then MkContig o s :: MkContig (hole_size c - (o + s)) (data_size c) :: us
  else absorb (if o <? hole_size c then MkContig o (total c - o) else c) us (o + s).
Fixpoint ins (us : list Contig) (o s : Z) : list Contig :=
  match us with
  | [] => [MkContig o s]
  | c :: us' => if o <=? total c then ins_here c us' o s else c :: ins us' (o - total c) s
  end.

(** The positions that have been received. *)
Fixpoint present (l : list Contig) (x : Z) : bool :=
  match l with
  | [] => false
  | c :: l' =>
    if x <? hole_size c then false else if x <? total c then true else present l' (x - total c)
  end.
(** Every contig has data, and a hole of at least [lo] (the first) or one. *)
Fixpoint good (lo : Z) (us : list Contig) : Prop :=
  match us with [] => True | c :: us' => lo <= hole_size c /\ 0 < data_size c /\ good 1 us' end.
Fixpoint span (us : list Contig) : Z := match us with [] => 0 | c :: us' => total c + span us' end.

Lemma good_weaken lo us : 0 <= lo <= 1 -> good 1 us -> good lo us.
Proof. destruct us as [|c us]; cbn; [done|]. intros ? (? & ? & ?). split; [lia|done]. Qed.
Lemma good_span lo us : 0 <= lo -> good lo us -> 0 <= span us.
Proof.
  revert lo. induction us as [|c us IH]; cbn; intros lo Hlo; [done|]. intros (? & ? & H).
  specialize (IH 1 ltac:(lia) H). unfold total. lia.
Qed.
Lemma present_neg us x : good 0 us -> x < 0 -> present us x = false.
Proof. destruct us as [|c us]; [done|]. cbn. intros (? & _) ?. split_zbool; try done; lia. Qed.

(** Compares two [present] expressions position by position. *)
Ltac split_positions :=
  split_zbool; rewrite ?orb_false_r, ?orb_true_r; try done; try lia; try (f_equal; lia).

Ltac contig_lia := unfold reach, total in *; cbn [hole_size data_size] in *; lia.

Lemma present_stretch c us fin x :
  0 <= hole_size c -> 0 < data_size c -> good 1 us ->
  match us with [] => True | d :: _ => fin < total c + hole_size d end ->
  present (stretch c us fin) x = present (c :: us) x || (hole_size c <=? x) && (x <? fin).
Proof.
  intros Hh Hd Hg Hfin. unfold stretch. destruct (Z.ltb_spec (total c) fin) as [Hlt|Hge].
  - destruct us as [|d us]; cbn [present].
    + unfold reach, total in *; cbn [hole_size data_size]. split_zbool; try done; lia.
    + destruct Hg as (? & ? & _). unfold reach, total in *; cbn [hole_size data_size].
      replace (x - (hole_size c + (data_size c + (fin - (hole_size c + data_size c))))) with (x - fin) by lia.
      split_positions.
  - cbn [present]. unfold total in *. split_positions.
Qed.
Lemma present_absorb us c fin x :
  0 <= hole_size c -> 0 < data_size c -> good 1 us ->
  present (absorb c us fin) x = present (c :: us) x || (hole_size c <=? x) && (x <? fin).
Proof.
  revert c. induction us as [|d us IH]; intros c Hh Hd Hg; [by apply present_stretch|].
  cbn [absorb]. destruct (Z.leb_spec (total c + hole_size d) fin) as [Hle|Hgt].
  - destruct Hg as (? & ? & Hg). rewrite IH; [|contig_lia..|done].
    cbn [present hole_size data_size]. unfold total in *; cbn [hole_size data_size]. split_positions.
  - by apply present_stretch.
Qed.
Lemma absorb_good us c fin lo :
  lo <= hole_size c -> 0 < data_size c -> good 1 us -> good lo (absorb c us fin).
Proof.
  revert c. induction us as [|d us IH]; intros c Hh Hd Hg; cbn [absorb].
  - unfold stretch. case_match; cbn [good]; split_and!; try done; contig_lia.
  - destruct Hg as (? & ? & Hg). destruct (Z.leb_spec (total c + hole_size d) fin) as [Hle|Hgt].
    + apply IH; [done|contig_lia|done].
    + unfold stretch. destruct (Z.ltb_spec (total c) fin); cbn [good]; split_and!; try done; contig_lia.
Qed.
Lemma absorb_span us c fin :
  0 < data_size c -> good 1 us -> span (absorb c us fin) = Z.max (total c + span us) fin.
Proof.
  revert c. induction us as [|d us IH]; intros c Hd Hg; cbn [absorb].
  - unfold stretch. destruct (Z.ltb_spec (total c) fin); cbn [span]; contig_lia.
  - destruct Hg as (? & ? & Hg). pose proof (good_span 1 us ltac:(lia) Hg).
    destruct (Z.leb_spec (total c + hole_size d) fin) as [Hle|Hgt].
    + rewrite IH; [|contig_lia|done]. cbn [span]. contig_lia.
    + unfold stretch. destruct (Z.ltb_spec (total c) fin); cbn [span]; contig_lia.
Qed.

Lemma present_ins us o s x lo :
  good lo us -> 0 <= lo <= o -> 0 < s -> present (ins us o s) x = present us x || (o <=? x) && (x <? o + s).
Proof.
  revert o x lo. induction us as [|c us IH]; intros o x lo Hg Ho Hs; cbn [ins].
  - cbn [present]. unfold total; cbn. split_positions.
  - destruct Hg as (Hh & Hd & Hg). destruct (Z.leb_spec o (total c)) as [Hle|Hgt].
    + unfold ins_here. destruct (Z.ltb_spec o (hole_size c)) as [Hoh|Hoh]; cbn [andb].
      * destruct (Z.ltb_spec (o + s) (hole_size c)).
        -- cbn [present]. unfold total; cbn [hole_size data_size]. split_positions.
        -- rewrite present_absorb; [|contig_lia..|done].
           cbn [present hole_size data_size]. unfold total in *; cbn [hole_size data_size]. split_positions.
      * rewrite present_absorb; [|lia..|done]. cbn [present]. unfold total in *. split_positions.
    + cbn [present]. rewrite (IH _ _ 1); [|done|unfold total in *; lia|done].
      unfold total in *. split_positions.
Qed.
Lemma ins_good us o s lo : good lo us -> 0 <= lo <= o -> 0 < s -> good lo (ins us o s).
Proof.
  revert o lo. induction us as [|c us IH]; intros o lo Hg Ho Hs; cbn [ins]; [cbn; lia|].
  destruct Hg as (Hh & Hd & Hg). destruct (Z.leb_spec o (total c)) as [Hle|Hgt].
  - unfold ins_here. destruct (Z.ltb_spec o (hole_size c)) as [Hoh|Hoh]; cbn [andb].
    + destruct (Z.ltb_spec (o + s) (hole_size c)); [cbn; split_and!; try done; lia|].
      apply absorb_good; cbn; [lia|unfold total; lia|done].
    + by apply absorb_good.
  - split_and!; [done|done|]. apply IH; [done|lia|done].
Qed.
Lemma ins_span us o s lo :
  good lo us -> 0 <= lo <= o -> 0 < s -> span (ins us o s) = Z.max (span us) (o + s).
Proof.
  revert o lo. induction us as [|c us IH]; intros o lo Hg Ho Hs; cbn [ins span]; [unfold total; cbn; lia|].
  destruct Hg as (Hh & Hd & Hg). pose proof (good_span 1 us ltac:(lia) Hg).
  destruct (Z.leb_spec o (total c)) as [Hle|Hgt].
  - unfold ins_here. destruct (Z.ltb_spec o (hole_size c)) as [Hoh|Hoh]; cbn [andb].
    + destruct (Z.ltb_spec (o + s) (hole_size c)); [cbn [span]; contig_lia|].
      rewrite absorb_span; [|contig_lia|done]. cbn [span]. contig_lia.
    + by rewrite absorb_span.
  - cbn [span]. rewrite (IH _ 1); [lia|done|lia|done].
Qed.

(** ** The array loops *)

Definition pad (k : nat) : list Contig := replicate k empty.
Lemma has_data_spec c : has_data c = true <-> data_size c <> 0.
Proof. unfold has_data. split_zbool; naive_solver. Qed.
Lemma good_has_data lo c us : good lo (c :: us) -> has_data c = true.
Proof. intros (_ & ? & _). apply has_data_spec. lia. Qed.

(** The tail of an array: contigs in use, then unused ones. *)
Definition slots (w : list Contig) : Prop :=
  exists us k, w = us ++ pad k /\ Forall (fun c => has_data c = true) us.
Lemma slots_cons c w : slots (c :: w) -> slots w /\ (has_data c = true \/ exists k, c :: w = pad (S k)).
Proof.
  intros (us & k & Hw & Hus). destruct us as [|u us]; cbn in Hw.
  - destruct k as [|k]; [done|]. unfold pad in *. cbn in Hw. simplify_eq. split; [by exists [], k|]. right. by exists k.
  - simplify_eq. apply Forall_cons in Hus as [? ?]. split; [by exists us, k|by left].
Qed.
Lemma good_slots lo us k : good lo us -> slots (us ++ pad k).
Proof.
  intros H. exists us, k. split; [done|]. revert lo H. induction us as [|c us IH]; intros lo H; [done|].
  constructor; [by eapply good_has_data|]. destruct H as (_ & _ & H). by eapply IH.
Qed.
Lemma pad_snoc k : pad k ++ [empty] = pad (S k).
Proof. unfold pad. rewrite replicate_S_end. done. Qed.

Lemma remove_shift_spec t : forall P h,
  slots (h :: t) -> remove_shift (seq (length P) (length t)) (P ++ h :: t) = (Ok (), P ++ t ++ [empty]).
Proof.
  induction t as [|t0 t IH]; intros P h Hs; cbn [seq length remove_shift].
  - apply wp_run. wp_steps. eapply aset_at; [done| |done]. rewrite length_app. cbn. lia.
  - apply wp_run. wp_step. eapply aget_at; [done..|]. destruct (slots_cons _ _ Hs) as [Hs' [->|[k Hk]]].
    + wp_step. eapply (aget_at (P ++ [h]) t0 t); [by rewrite <- app_assoc|rewrite length_app; cbn; lia|].
      wp_step. eapply aset_at; [done..|]. unfold wp.
      replace (P ++ t0 :: t0 :: t) with ((P ++ [t0]) ++ t0 :: t) by (by rewrite <- app_assoc).
      replace (S (length P)) with (length (P ++ [t0])) by (rewrite length_app; cbn; lia).
      rewrite IH by done. by rewrite <- app_assoc.
    + rewrite Hk. injection Hk as -> Hk. change (t0 :: t = pad k) in Hk. apply wp_ret.
      by rewrite Hk, pad_snoc.
Qed.

Lemma shift_right_spec (v : list Contig) : forall pre h suf,
  for_each (reverse (seq (length pre + 1) (length v))) (fun i => c ← aget (i - 1)%nat; aset i c)
    (pre ++ h :: v ++ suf) = (Ok () : outcome TooManyHolesError (), pre ++ h :: removelast (h :: v) ++ suf).
Proof.
  induction v as [|z v IH] using rev_ind; intros pre h suf; [done|].
  replace (length (v ++ [z])) with (S (length v)) by (rewrite length_app; cbn; lia). rewrite seq_S, reverse_app. cbn [reverse rev_append app].
  destruct (exists_last (l := h :: v) ltac:(done)) as (w & y & Hw).
  assert (length w = length v) as Hlen.
  { apply (f_equal length) in Hw. rewrite length_app in Hw. cbn in Hw. lia. }
  assert (forall t, pre ++ h :: v ++ t = (pre ++ w) ++ y :: t) as Hpre.
  { intros t. rewrite <- app_assoc. change (h :: v ++ t) with ((h :: v) ++ t). by rewrite Hw, <- app_assoc. }
  apply wp_run. cbn [for_each]. wp_steps. rewrite <- (app_assoc v), Hpre.
  eapply aget_at; [done|rewrite length_app; lia|].
  eapply (aset_at (pre ++ w ++ [y])); [by rewrite <- !app_assoc|rewrite !length_app; cbn; lia|].
  eapply wp_eq; [|done]. rewrite <- !app_assoc. cbn [app]. rewrite app_assoc, <- Hpre. rewrite IH.
  change (h :: v ++ [z]) with ((h :: v) ++ [z]). by rewrite removelast_last, Hw, removelast_last, <- app_assoc.
Qed.
Lemma back_spec l b : back (l ++ [b]) = (Ok b, l ++ [b]).
Proof.
  apply wp_run. unfold back. wp_steps. eapply aget_at; [done| |done]. rewrite length_app. cbn. lia.
Qed.
Lemma add_contig_room pre h v k :
  add_contig_at (length pre) (pre ++ (h :: v) ++ pad (S k)) = (Ok (), pre ++ empty :: (h :: v) ++ pad k).
Proof.
  apply wp_run. unfold add_contig_at. rewrite <- pad_snoc, !app_assoc. wp_step.
  eapply wp_eq; [apply back_spec|]. cbv beta iota. change (has_data empty) with false. cbv iota.
  wp_steps. rewrite <- !app_assoc. cbn [app].
  replace (length (pre ++ h :: v ++ pad k ++ [empty]) - (length pre + 1))%nat with (length (v ++ pad k ++ [empty]))
    by (rewrite !length_app; cbn; rewrite !length_app; cbn; lia).
  eapply wp_eq.
  { rewrite <- (app_nil_r (v ++ pad k ++ [empty])) at 2. apply shift_right_spec. }
  change (h :: v ++ pad k ++ [empty]) with ((h :: v) ++ pad k ++ [empty]).
  rewrite (app_assoc (h :: v)), removelast_last, app_nil_r.
  by eapply aset_at.
Qed.
Lemma add_contig_full pre us ix :
  us <> [] -> has_data (default empty (last us)) = true ->
  add_contig_at ix (pre ++ us) = (Err TooManyHoles, pre ++ us).
Proof.
  intros Hne Hb. destruct (exists_last Hne) as (w & y & ->). rewrite last_snoc in Hb. cbn in Hb.
  apply wp_run. unfold add_contig_at. rewrite app_assoc. wp_step. eapply wp_eq; [apply back_spec|].
  cbv beta iota. rewrite Hb. by wp_step.
Qed.

Lemma close_gap_spec shift w : forall P,
  (0 < shift)%nat -> slots w ->
  close_gap shift (seq (length P) (length w)) (P ++ w) =
    (Ok (), P ++ take (length w) (drop shift w ++ pad shift)).
Proof.
  induction w as [|h w IH]; intros P Hsh Hs; [done|]. apply wp_run. cbn [seq length close_gap]. wp_step.
  eapply aget_at; [done..|]. destruct (slots_cons _ _ Hs) as [Hs' [->|[k Hk]]]; cbn [negb].
  - wp_steps. eapply aset_at; [done..|]. rewrite lookup_app_r by lia.
    replace (length P + shift - length P)%nat with shift by lia.
    set (e := default empty _). replace (P ++ e :: w) with ((P ++ [e]) ++ w) by (by rewrite <- app_assoc).
    replace (S (length P)) with (length (P ++ [e])) by (rewrite length_app; cbn; lia).
    eapply wp_eq; [by apply IH|]. rewrite <- app_assoc. do 2 f_equal. cbn [app].
    destruct shift as [|shift]; [lia|]. subst e. cbn [lookup list_lookup drop].
    destruct (w !! shift) as [e|] eqn:He; cbn [default from_option id].
    + rewrite (drop_S _ _ _ He). done.
    + apply lookup_ge_None in He. rewrite !drop_ge by lia. cbn [app]. unfold pad. cbn [replicate take].
      f_equal. change (empty :: replicate shift empty) with (replicate (S shift) empty).
      rewrite !take_replicate. f_equal. lia.
  - rewrite Hk. injection Hk as -> Hk. change (w = pad k) in Hk. apply wp_ret. do 2 f_equal. subst w.
    unfold pad. rewrite drop_replicate, <- replicate_add, length_replicate. change (S k) with (1 + k)%nat.
    rewrite take_replicate. f_equal. lia.
Qed.

Lemma uadd_ok {E} a b : a + b <= usize_max -> @uadd E a b = Ok (a + b).
Proof. intros H. unfold uadd. by rewrite (proj2 (Z.leb_le _ _) H). Qed.
Lemma usub_ok {E} a b : b <= a -> @usub E a b = Ok (a - b).
Proof. intros H. unfold usub. by rewrite (proj2 (Z.leb_le _ _) H). Qed.
Lemma total_size_ok {E} c : total c <= usize_max -> @total_size E c = Ok (total c).
Proof. apply uadd_ok. Qed.

Lemma coalesce_spec us : forall pre c mid k fin,
  0 <= hole_size c -> 0 < data_size c -> good 1 us -> total c + span us <= usize_max ->
  exists c' m us',
    coalesce (length pre) fin (seq (length pre + 1 + length mid) (length us + k)) (pre ++ c :: mid ++ us ++ pad k) =
      (Ok (length pre + 1 + length mid + length m)%nat, pre ++ c' :: mid ++ m ++ us' ++ pad k) /\
    us = m ++ us' /\ absorb c us fin = stretch c' us' fin /\ good 1 us' /\
    hole_size c' = hole_size c /\ 0 < data_size c' /\ total c' + span us' = total c + span us /\
    match us' with [] => True | d :: _ => fin < total c' + hole_size d end.
Proof.
  induction us as [|d us IH]; intros pre c mid k fin Hh Hd Hg Hspan.
  { exists c, [], []. split; [|done]. rewrite !app_nil_l. apply wp_run. destruct k as [|k]; cbn [length Nat.add seq coalesce].
    - wp_step. do 2 f_equal. rewrite !length_app. cbn. rewrite !length_app. cbn. lia.
    - wp_step. eapply (aget_at (pre ++ c :: mid)); [by rewrite <- app_assoc|rewrite length_app; cbn; lia|].
      change (has_data empty) with false. cbn [negb]. wp_step. do 2 f_equal. lia. }
  pose proof (good_has_data _ _ _ Hg) as Hhd. destruct Hg as (Hdh & Hdd & Hg).
  pose proof (good_span 1 us ltac:(lia) Hg) as Hsp. cbn [span] in Hspan.
  cbn [length Nat.add seq coalesce absorb].
  destruct (Z.leb_spec (total c + hole_size d) fin) as [Hle|Hgt].
  - destruct (IH pre (MkContig (hole_size c) (data_size c + total d)) (mid ++ [d]) k fin) as
      (c' & m & us' & Hrun & Hus & Habs & Hg' & Hh' & Hd' & Hs' & Hm); [cbn; contig_lia..|done|contig_lia|].
    exists c', (d :: m), us'. split_and!; [|by rewrite Hus|done..|cbn [span]; contig_lia|done].
    apply wp_run. wp_step. eapply (aget_at (pre ++ c :: mid)); [by rewrite <- app_assoc|rewrite length_app; cbn; lia|].
    rewrite Hhd. cbn [negb]. wp_step. eapply aget_at; [done..|]. wp_steps.
    rewrite total_size_ok by contig_lia. wp_steps. rewrite uadd_ok by contig_lia.
    rewrite (proj2 (Z.leb_le _ _) Hle). wp_steps. rewrite total_size_ok by contig_lia. wp_steps.
    rewrite uadd_ok by contig_lia. wp_steps. eapply aset_at; [done..|].
    rewrite length_app in Hrun. cbn [length] in Hrun. rewrite <- !app_assoc in Hrun. cbn [app] in Hrun.
    replace (S (length pre + 1 + length mid)) with (length pre + 1 + (length mid + 1))%nat by lia.
    eapply wp_eq; [exact Hrun|]. do 2 f_equal. cbn [length]. lia.
  - exists c, [], (d :: us). split_and!; try done. apply wp_run. wp_step.
    eapply (aget_at (pre ++ c :: mid)); [by rewrite <- app_assoc|rewrite length_app; cbn; lia|].
    rewrite Hhd. cbn [negb]. wp_step. eapply aget_at; [done..|]. wp_steps.
    rewrite total_size_ok by contig_lia. wp_steps. rewrite uadd_ok by contig_lia.
    rewrite (proj2 (Z.leb_gt _ _) Hgt). wp_steps. do 2 f_equal. cbn. lia.
Qed.

Lemma extend_spec pre c us k fin :
  0 <= hole_size c -> 0 < data_size c -> good 1 us -> total c <= usize_max -> fin <= usize_max ->
  match us with [] => True | d :: _ => fin < total c + hole_size d end ->
  extend (length pre) fin (pre ++ c :: us ++ pad k) = (Ok (), pre ++ stretch c us fin ++ pad k).
Proof.
  intros Hh Hd Hg Ht Hf Hm. apply wp_run. unfold extend, stretch. wp_step. eapply aget_at; [done..|]. wp_steps.
  rewrite total_size_ok by done. destruct (Z.ltb_spec (total c) fin) as [Hlt|Hge]; [|by wp_steps].
  wp_steps. rewrite usub_ok by lia. wp_steps. rewrite uadd_ok by contig_lia. wp_steps. eapply aset_at; [done..|].
  wp_steps. fold (reach c fin). rewrite !length_app. cbn [length].
  destruct us as [|d us]; cbn [app length].
  - unfold pad. destruct k as [|k]; cbn [replicate length].
    + rewrite (proj2 (Nat.ltb_ge _ _)) by lia. by wp_steps.
    + rewrite (proj2 (Nat.ltb_lt _ _)) by lia. wp_step.
      eapply (aget_at (pre ++ [reach c fin])); [by rewrite <- app_assoc|rewrite length_app; cbn; lia|].
      change (has_data empty) with false. by wp_steps.
  - rewrite (proj2 (Nat.ltb_lt _ _)) by lia. wp_step.
    eapply (aget_at (pre ++ [reach c fin])); [by rewrite <- app_assoc|rewrite length_app; cbn; lia|].
    rewrite (good_has_data _ _ _ Hg). wp_steps. rewrite usub_ok by contig_lia. wp_steps.
    eapply (aset_at (pre ++ [reach c fin])); [by rewrite <- app_assoc|rewrite length_app; cbn; lia|].
    by rewrite <- app_assoc.
Qed.

Lemma find_start_spec us : forall pre k o s lo,
  good lo us -> 0 <= lo <= o -> span us <= usize_max ->
  let l := pre ++ us ++ pad k in
  let run := find_start (seq (length pre) (length us + k)) o s l in
  (exists o', ins us o s = us ++ [MkContig o' s] /\
     run = match k with O => (Err TooManyHoles, l) | S k' => (Ok None, pre ++ ins us o s ++ pad k') end) \/
  (exists a c b o', us = a ++ c :: b /\ ins us o s = a ++ ins_here c b o' s /\ 0 <= o' <= o /\ o' <= total c /\
     good 0 (c :: b) /\ span (c :: b) <= usize_max /\
     run = (Ok (Some (length pre + length a, o')%nat), l)).
Proof.
  induction us as [|c us IH]; intros pre k o s lo Hg Ho Hspan l run.
  - left. exists o. split; [done|]. unfold run. apply wp_run. destruct k as [|k]; cbn [length Nat.add seq find_start].
    + by wp_steps.
    + wp_step. eapply aget_at; [done..|]. change (has_data empty) with false. cbn [negb]. wp_steps.
      eapply aset_at; [done..|]. by wp_steps.
  - pose proof (good_has_data _ _ _ Hg) as Hhd. pose proof Hg as Hg0. destruct Hg as (Hh & Hd & Hg).
    pose proof (good_span 1 us ltac:(lia) Hg) as Hsp. cbn [span] in Hspan.
    assert (forall o2, o2 = o -> run = (if o <=? total c then (Ok (Some (length pre, o2)), l)
      else find_start (seq (S (length pre)) (length us + k)) (o - total c) s l)) as Hrun.
    { intros o2 ->. unfold run. apply wp_run. cbn [length Nat.add seq find_start]. wp_step. eapply aget_at; [done..|].
      rewrite Hhd. cbn [negb]. wp_steps. rewrite total_size_ok by lia. destruct (Z.leb_spec o (total c)); [by wp_steps|].
      wp_steps. rewrite usub_ok by lia. eapply wp_eq; [apply surjective_pairing|]. by rewrite <- surjective_pairing. }
    rewrite (Hrun o eq_refl). cbn [ins]. destruct (Z.leb_spec o (total c)) as [Hle|Hgt].
    + right. exists [], c, us, o. split_and!; try done; try lia.
      * cbn. split; [lia|done].
      * cbn. by rewrite Nat.add_0_r.
    + destruct (IH (pre ++ [c]) k (o - total c) s 1 Hg ltac:(lia) ltac:(contig_lia)) as
        [(o' & Hins & Hr)|(a & d & b & o' & -> & Hins & Ho' & Hd' & Hg' & Hs' & Hr)];
        rewrite length_app in Hr; cbn [length] in Hr; rewrite <- !app_assoc, Nat.add_1_r in Hr; cbn [app] in Hr.
      * left. exists o'. rewrite Hins in *. split; [done|]. unfold l. cbn [app]. rewrite Hr. destruct k; [done|].
        by rewrite <- !app_assoc.
      * right. exists (c :: a), d, b, o'. split_and!; try done; try contig_lia; [by rewrite Hins|].
        unfold l. cbn [app]. rewrite <- app_assoc. cbn [app]. rewrite Hr. cbn [length]. do 4 f_equal. lia.
Qed.

Lemma absorb_length us c fin : (length (absorb c us fin) <= S (length us))%nat.
Proof.
  revert c. induction us as [|d us IH]; intros c; cbn [absorb length].
  - unfold stretch. case_match; cbn; lia.
  - case_match; [specialize (IH (MkContig (hole_size c) (data_size c + total d))); lia|].
    unfold stretch. case_match; cbn; lia.
Qed.

Lemma ins_length us o s : (length (ins us o s) <= S (length us))%nat.
Proof.
  revert o. induction us as [|c us IH]; intros o; cbn [ins length]; [lia|].
  case_match; [|cbn; specialize (IH (o - total c)); lia].
  unfold ins_here. case_match; [cbn; lia|].
  etrans; [apply absorb_length|lia].
Qed.

(** The part of [add] that works on contig [i] once it is found. *)
Lemma absorb_run pre c us k fin :
  0 <= hole_size c -> 0 < data_size c -> good 1 us -> total c + span us <= usize_max -> fin <= usize_max ->
  let n := (length pre + (1 + (length us + k)))%nat in
  (j ← coalesce (length pre) fin (seq (length pre + 1) (n - (length pre + 1)));
   (if (j - length pre - 1 =? 0)%nat then mret ()
    else close_gap (j - length pre - 1) (seq (length pre + 1) (n - (length pre + 1))));;
   extend (length pre) fin) (pre ++ c :: us ++ pad k) =
  (Ok (), pre ++ absorb c us fin ++ pad (k + (S (length us) - length (absorb c us fin)))).
Proof.
  intros Hh Hd Hg Hspan Hfin n. replace (n - (length pre + 1))%nat with (length us + k)%nat by lia.
  destruct (coalesce_spec us pre c [] k fin Hh Hd Hg Hspan) as
    (c' & m & us' & Hrun & Hus & -> & Hg' & Hh' & Hd' & Hs' & Hm).
  cbn [length] in Hrun. rewrite Nat.add_0_r in Hrun. cbn [app] in Hrun.
  pose proof (good_span 1 us' ltac:(lia) Hg') as Hsp.
  assert (length (stretch c' us' fin) = S (length us')) as Hlen.
  { unfold stretch. destruct (total c' <? fin); [|done]. by destruct us'. }
  rewrite Hlen. apply wp_run. wp_step. wp_call Hrun.
  replace (length pre + 1 + length m - length pre - 1)%nat with (length m) by lia. wp_step.
  assert (length us = (length m + length us')%nat) as Hul by (by rewrite Hus, length_app).
  eapply (wp_eq _ _ (Ok ()) (pre ++ c' :: us' ++ pad (k + length m))).
  - destruct (Nat.eqb_spec (length m) 0) as [Hz|Hnz].
    + apply nil_length_inv in Hz as ->. cbn. by rewrite Nat.add_0_r.
    + pose proof (close_gap_spec (length m) (m ++ us' ++ pad k) (pre ++ [c'])) as Hcg.
      rewrite length_app, <- app_assoc in Hcg. cbn [length app] in Hcg.
      replace (length (m ++ us' ++ pad k)) with (length us + k)%nat in Hcg
        by (unfold pad; rewrite !length_app, length_replicate; lia).
      rewrite Hcg; [|lia|by rewrite app_assoc, <- Hus; eapply good_slots].
      rewrite drop_app_length, <- app_assoc, take_ge by (unfold pad; rewrite !length_app, !length_replicate; lia).
      unfold pad. by rewrite <- !app_assoc, <- replicate_add.
  - eapply wp_eq; [apply extend_spec; try done; try lia; contig_lia|].
    do 4 f_equal. lia.
Qed.

Definition ins_result (us : list Contig) (k : nat) (o s : Z) : outcome TooManyHolesError () * assembler :=
  let n := (length us + k)%nat in
  if (length (ins us o s) <=? n)%nat then (Ok (), ins us o s ++ pad (n - length (ins us o s)))
  else (Err TooManyHoles, us ++ pad k).

Lemma last_has_data lo us : good lo us -> us <> [] -> has_data (default empty (last us)) = true.
Proof.
  revert lo. induction us as [|c [|d us] IH]; intros lo Hg Hne; [done|by eapply good_has_data|].
  destruct Hg as (_ & _ & Hg). rewrite last_cons_cons. by eapply IH.
Qed.
Lemma good_app lo a b : good lo (a ++ b) -> exists lo', good lo' b.
Proof.
  revert lo. induction a as [|c a IH]; intros lo; [by exists lo|]. intros (_ & _ & Hg). by eapply IH.
Qed.

Lemma add_here a c b k o s :
  good 0 (c :: b) -> 0 <= o <= total c -> 0 < s -> span (c :: b) <= usize_max -> o + s <= usize_max ->
  (forall n, n = (length a + (1 + (length b + k)))%nat ->
  (ci ← aget (length a);
   fin ← lift (uadd o s);
   if (o <? hole_size ci) && (fin <? hole_size ci) then
     add_contig_at (length a);;
     aset (length a) (MkContig o s);;
     next ← aget (length a + 1)%nat;
     next' ← lift (shrink_hole_by next fin); aset (length a + 1)%nat next'
   else
     (if o <? hole_size ci then ci' ← lift (shrink_hole_to ci o); aset (length a) ci' else mret ());;
     j ← coalesce (length a) fin (seq (length a + 1) (n - (length a + 1)));
     (if (j - length a - 1 =? 0)%nat then mret ()
      else close_gap (j - length a - 1) (seq (length a + 1) (n - (length a + 1))));;
     extend (length a) fin) (a ++ c :: b ++ pad k) =
  let r := ins_here c b o s in
  if (length r <=? S (length b + k))%nat then (Ok (), a ++ r ++ pad (S (length b + k) - length r))
  else (Err TooManyHoles, a ++ c :: b ++ pad k)).
Proof.
  intros Hg Ho Hs Hspan Hfin n ->. pose proof Hg as (Hh & Hd & Hgb). cbn [span] in Hspan.
  pose proof (good_span 1 b ltac:(lia) Hgb) as Hsp. cbv zeta. apply wp_run. wp_step. eapply aget_at; [done..|]. wp_steps.
  rewrite uadd_ok by done. unfold ins_here. destruct (Z.ltb_spec o (hole_size c)) as [Hlt|Hge]; cbn [andb].
  - destruct (Z.ltb_spec (o + s) (hole_size c)) as [Hin|Hcov].
    + cbn [length]. wp_step. destruct k as [|k].
      * rewrite (proj2 (Nat.leb_gt _ _)) by lia. cbn. rewrite !app_nil_r.
        eapply wp_eq; [apply (add_contig_full a (c :: b)); [done|by eapply last_has_data]|done].
      * rewrite (proj2 (Nat.leb_le _ _)) by lia.
        eapply wp_eq; [apply (add_contig_room a c b k)|]. cbv beta iota. wp_step. eapply aset_at; [done..|].
        wp_steps. eapply (aget_at (a ++ [MkContig o s])); [by rewrite <- app_assoc|rewrite length_app; cbn; lia|].
        wp_steps. unfold shrink_hole_by. rewrite usub_ok by lia. cbn [mbind outcome_bind].
        eapply (aset_at (a ++ [MkContig o s])); [by rewrite <- app_assoc|rewrite length_app; cbn; lia|].
        rewrite <- app_assoc. cbn [app]. do 6 f_equal. lia.
    + wp_steps. unfold shrink_hole_to. cbn [assert]. rewrite (proj2 (Z.leb_le _ _)) by lia.
      cbn [assert mbind outcome_bind]. rewrite total_size_ok by contig_lia. cbn [mbind outcome_bind].
      rewrite usub_ok by contig_lia. cbn [mbind outcome_bind]. eapply aset_at; [done..|].
      eapply wp_eq; [apply absorb_run; cbn; try contig_lia; done|].
      pose proof (absorb_length b (MkContig o (total c - o)) (o + s)) as Hl.
      rewrite (proj2 (Nat.leb_le _ _)) by lia. do 4 f_equal. lia.
  - do 2 wp_step. eapply wp_eq; [apply absorb_run; cbn; try contig_lia; done|].
    pose proof (absorb_length b c (o + s)) as Hl.
    rewrite (proj2 (Nat.leb_le _ _)) by lia. do 4 f_equal. lia.
Qed.

(** The array code computes the reference insertion, or refuses it. *)
Lemma add_eq us k o s :
  good 0 us -> 0 <= o -> 0 < s -> span us <= usize_max -> o + s <= usize_max ->
  add o s (us ++ pad k) = ins_result us k o s.
Proof.
  intros Hg Ho Hs Hspan Hfin. unfold add. rewrite (proj2 (Z.eqb_neq s 0)) by lia.
  unfold ins_result. apply wp_run. wp_steps.
  replace (length (us ++ pad k)) with (length us + k)%nat by (unfold pad; by rewrite length_app, length_replicate).
  destruct (find_start_spec us [] k o s 0 Hg ltac:(lia) Hspan) as
    [(o' & Hins & Hr)|(a & c & b & o' & -> & Hins & Ho' & Ht & Hgc & Hsc & Hr)]; cbn [app length] in Hr.
  - rewrite Hins, length_app in *. cbn [length]. destruct k as [|k]; wp_call Hr.
    + by rewrite (proj2 (Nat.leb_gt _ _)) by lia.
    + rewrite (proj2 (Nat.leb_le _ _)) by lia. wp_step. do 3 f_equal. lia.
  - wp_call Hr. cbn [Nat.add]. rewrite <- app_assoc. cbn [app].
    unfold wp. rewrite (add_here a c b k o' s Hgc ltac:(lia) Hs Hsc ltac:(lia) (length (a ++ c :: b) + k)%nat)
      by (rewrite length_app; cbn; lia). cbv zeta. rewrite Hins, !length_app. cbn [length].
    destruct (Nat.leb_spec (length (ins_here c b o' s)) (S (length b + k))).
    + rewrite (proj2 (Nat.leb_le _ _)) by lia. cbn [fst snd]. rewrite <- app_assoc. do 4 f_equal. lia.
    + by rewrite (proj2 (Nat.leb_gt _ _)) by lia.
Qed.

(** ** The invariant, and the uniqueness of the representation *)

Definition wf (l : assembler) : Prop :=
  exists us k, l = us ++ pad k /\ good 0 us /\ span us <= usize_max.

Lemma present_front lo us x : good lo us -> x < lo -> present us x = false.
Proof. destruct us as [|c us]; [done|]. cbn. intros (? & _) ?. split_zbool; try done; lia. Qed.
Lemma present_app_pad us k x : present (us ++ pad k) x = present us x.
Proof.
  revert x. induction us as [|c us IH]; intros x; cbn [app present].
  - revert x. induction k as [|k IHk]; intros x; [done|]. cbn. rewrite IHk. unfold total. cbn. split_zbool; try done; lia.
  - by rewrite IH.
Qed.
Lemma span_app_pad us k : span (us ++ pad k) = span us.
Proof.
  induction us as [|c us IH]; cbn [app span]; [|by rewrite IH].
  unfold pad. induction k as [|k IH]; [done|]. cbn [replicate span]. by rewrite IH.
Qed.
Lemma good_canonical us us' :
  good 0 us -> good 0 us' -> (forall x, present us x = present us' x) -> us = us'.
Proof.
  revert us'. induction us as [|c us IH]; intros [|d us'] Hg Hg' Hp; [done| | |].
  - destruct Hg' as (? & ? & _). specialize (Hp (hole_size d)). cbn in Hp.
    revert Hp. unfold total. split_zbool; try done; lia.
  - destruct Hg as (? & ? & _). specialize (Hp (hole_size c)). cbn in Hp.
    revert Hp. unfold total. split_zbool; try done; lia.
  - destruct Hg as (Hh & Hd & Hg), Hg' as (Hh' & Hd' & Hg').
    assert (hole_size c = hole_size d) as Heq.
    { destruct (Z.lt_trichotomy (hole_size c) (hole_size d)) as [Hlt|[?|Hlt]]; [|done|].
      - specialize (Hp (hole_size c)). revert Hp. cbn. unfold total. split_zbool; try done; lia.
      - specialize (Hp (hole_size d)). revert Hp. cbn. unfold total. split_zbool; try done; lia. }
    assert (data_size c = data_size d) as Heq'.
    { destruct (Z.lt_trichotomy (data_size c) (data_size d)) as [Hlt|[?|Hlt]]; [|done|].
      - specialize (Hp (total c)). revert Hp. cbn [present]. rewrite (present_front 1 us) by (done || lia).
        unfold total. split_zbool; try done; lia.
      - specialize (Hp (total d)). revert Hp. cbn [present]. rewrite (present_front 1 us') by (done || lia).
        unfold total. split_zbool; try done; lia. }
    assert (c = d) as <- by (destruct c, d; cbn in *; by subst). f_equal.
    apply IH; [by apply good_weaken|by apply good_weaken|]. intros x.
    destruct (Z.lt_ge_cases x 0); [by rewrite !(present_front 1) by (done || lia)|].
    specialize (Hp (x + total c)). revert Hp. cbn. unfold total. split_zbool; try lia.
    by replace (x + (hole_size c + data_size c) - (hole_size c + data_size c)) with x by lia.
Qed.
Lemma wf_canonical l l' :
  wf l -> wf l' -> length l = length l' -> (forall x, present l x = present l' x) -> l = l'.
Proof.
  intros (us & k & -> & Hg & _) (us' & k' & -> & Hg' & _) Hl Hp.
  assert (us = us') as -> by (apply good_canonical; [done..|]; intros x;
    specialize (Hp x); by rewrite !present_app_pad in Hp).
  f_equal. unfold pad in *. rewrite !length_app, !length_replicate in Hl. f_equal. lia.
Qed.

(** ** The operations on well-formed assemblers *)

Lemma new_wf n : wf (new n).
Proof. exists [], n. by unfold usize_max. Qed.
Lemma new_absent n x : present (new n) x = false.
Proof. apply (present_app_pad [] n). Qed.
Definition in_range (o s x : Z) : bool := (o <=? x) && (x <? o + s).

Lemma ins_full us o s lo :
  good lo us -> 0 <= lo <= o -> 0 < s -> (length us < length (ins us o s))%nat ->
  forall x, o - 1 <= x <= o + s -> 0 <= x -> present us x = false \/ (x = o - 1 /\ o = lo).
Proof.
  revert o lo. induction us as [|c us IH]; intros o lo Hg Ho Hs Hlen x Hx Hx0; [by left|]. cbn [ins] in Hlen.
  destruct Hg as (Hh & Hd & Hg). destruct (Z.leb_spec o (total c)) as [Hle|Hgt].
  - unfold ins_here in Hlen. destruct (Z.ltb_spec o (hole_size c)), (Z.ltb_spec (o + s) (hole_size c)); cbn [andb length] in Hlen.
    + left. cbn. split_zbool; try done; lia.
    + match type of Hlen with context [absorb ?d us ?f] => pose proof (absorb_length us d f) end. lia.
    + lia.
    + match type of Hlen with context [absorb ?d us ?f] => pose proof (absorb_length us d f) end. lia.
  - cbn [length] in Hlen. left. cbn [present].
    split_zbool; [done|contig_lia|].
    destruct (IH (o - total c) 1 Hg ltac:(lia) Hs ltac:(lia) (x - total c) ltac:(lia) ltac:(lia)) as [?|[? ?]]; [done|].
    apply (present_front 1); [done|lia].
Qed.

(** [add] on a well-formed assembler: the union, or a refusal that changes
    nothing when every slot is in use and the range touches no data. *)
Definition add_post (l : assembler) (o s : Z) (r : outcome TooManyHolesError ()) (l' : assembler) : Prop :=
  wf l' /\ length l' = length l /\
  match r with
  | Ok _ => forall x, present l' x = present l x || in_range o s x
  | Err _ => l' = l /\ Forall (fun c => has_data c = true) l /\
      (forall x, o - 1 <= x <= o + s -> 0 <= x -> present l x = false)
  | Panic => False
  end.
Lemma add_spec l o s :
  wf l -> 0 <= o -> 0 <= s -> o + s <= usize_max -> add_post l o s (add o s l).1 (add o s l).2.
Proof.
  intros Hwf Ho Hs Hmax. destruct (Z.eq_dec s 0) as [->|Hne].
  { unfold add. cbn. split_and!; [done..|]. intros x. unfold in_range. split_zbool; rewrite ?orb_false_r; try done; lia. }
  destruct Hwf as (us & k & -> & Hg & Hsp). rewrite add_eq by (done || lia). unfold ins_result.
  pose proof (ins_span us o s 0 Hg ltac:(lia) ltac:(lia)) as Hspan.
  destruct (Nat.leb_spec (length (ins us o s)) (length us + k)) as [Hle|Hgt]; cbn [fst snd].
  - split_and!.
    + eexists _, _. split; [done|]. split; [apply ins_good; (done || lia)|lia].
    + unfold pad. rewrite !length_app, !length_replicate. lia.
    + intros x. rewrite !present_app_pad. apply (present_ins us o s x 0); (done || lia).
  - assert (k = 0%nat) as ->.
    { pose proof (ins_length us o s). lia. }
    rewrite app_nil_r in *. split_and!; [by exists us, 0%nat; rewrite app_nil_r|done|done| |].
    + destruct (good_slots 0 us 0 Hg) as (vs & [|j] & Hv & Hall); rewrite app_nil_r in Hv.
      * by rewrite app_nil_r in Hv; subst.
      * exfalso. pose proof (last_has_data 0 us Hg) as Hl. rewrite Hv in Hl. unfold pad in Hl.
        rewrite replicate_S_end, app_assoc, last_snoc in Hl. cbn in Hl. specialize (Hl ltac:(by destruct vs, j)). done.
    + intros x Hx Hx0. destruct (ins_full us o s 0 Hg ltac:(lia) ltac:(lia) ltac:(lia) x Hx Hx0) as [?|[? ?]]; [done|lia].
Qed.

(** The front run of a set is taken off. *)
Definition front_post (set : Z -> bool) (l : assembler) (n : Z) (l' : assembler) : Prop :=
  wf l' /\ length l' = length l /\ 0 <= n /\ (forall x, 0 <= x < n -> set x = true) /\ set n = false /\
  (forall x, 0 <= x -> present l' x = set (x + n)).
Lemma remove_contig_head c us k :
  has_data c = true -> slots (c :: us ++ pad k) ->
  remove_contig_at 0 (c :: us ++ pad k) = (Ok (), us ++ pad (S k)).
Proof.
  intros Hc Hs. apply wp_run. unfold remove_contig_at. wp_step. eapply (aget_at []); [done..|].
  rewrite Hc. wp_steps. cbn [length].
  replace (S (length (us ++ pad k)) - 1 - 0)%nat with (length (us ++ pad k)) by lia.
  wp_call (remove_shift_spec (us ++ pad k) [] c Hs). by rewrite <- app_assoc, pad_snoc.
Qed.
Lemma remove_front_spec l :
  wf l -> l <> [] -> exists n l', remove_front l = (Ok n, l') /\ front_post (present l) l n l'.
Proof.
  intros (us & k & -> & Hg & Hsp) Hne. destruct us as [|c us].
  { destruct k as [|k]; [done|]. exists 0, (pad (S k)). split; [done|]. cbn [app].
    split_and!; [by apply (new_wf (S k))|done|done|lia|apply (new_absent (S k))|]. intros x. by rewrite Z.add_0_r. }
  pose proof (good_has_data _ _ _ Hg) as Hc. pose proof Hg as (Hh & Hd & Hg1). cbn [span] in Hsp.
  pose proof (good_span 1 us ltac:(lia) Hg1). unfold remove_front, front, has_hole.
  destruct (Z.eqb_spec (hole_size c) 0) as [Hz|Hnz].
  - exists (data_size c), (us ++ pad (S k)). split.
    + apply wp_run. wp_step. eapply (aget_at []); [done..|]. rewrite Hz. cbn [Z.eqb negb orb]. rewrite Hc. cbn [negb].
      wp_step. wp_call (remove_contig_head c us k Hc (good_slots _ _ _ Hg)).
      wp_steps. rewrite (proj2 (Z.ltb_lt _ _) Hd). by wp_steps.
    + split_and!.
      * eexists us, _. split_and!; [done|by apply good_weaken|contig_lia].
      * unfold pad. cbn [length app]. rewrite !length_app, !length_replicate. lia.
      * lia.
      * intros x Hx. cbn [app present]. unfold total. split_zbool; try done; lia.
      * rewrite present_app_pad. cbn [present]. unfold total. rewrite Hz.
        split_zbool; try done; try lia. apply (present_front 1); [done|lia].
      * intros x Hx. rewrite !present_app_pad. cbn [present]. unfold total. rewrite Hz.
        split_zbool; try lia. f_equal. lia.
  - exists 0, ((c :: us) ++ pad k). split.
    + apply wp_run. wp_step. eapply (aget_at []); [done..|]. rewrite (proj2 (Z.eqb_neq _ _) Hnz). by wp_steps.
    + split_and!; [by exists (c :: us), k|done|done|lia| |].
      * cbn. split_zbool; try done; lia.
      * intros x Hx. by rewrite Z.add_0_r.
Qed.

Definition joined (l : assembler) (o s x : Z) : bool := present l x || in_range o s x.
Definition add_front_post (l : assembler) (o s : Z) (r : outcome TooManyHolesError Z) (l' : assembler) : Prop :=
  match r with
  | Ok n => front_post (joined l o s) l n l'
  | Err _ => o <> 0 /\ add_post l o s (Err TooManyHoles) l'
  | Panic => False
  end.
Lemma front_present c w x : 0 <= hole_size c -> 0 < data_size c -> x = hole_size c -> present (c :: w) x = true.
Proof. intros ? ? ->. cbn. unfold total. split_zbool; try done; lia. Qed.
Lemma add_then_remove_front_spec l o s :
  wf l -> l <> [] -> 0 <= o -> 0 <= s -> o + s <= usize_max ->
  add_front_post l o s (add_then_remove_front o s l).1 (add_then_remove_front o s l).2.
Proof.
  intros Hwf Hne Ho Hs Hmax. destruct l as [|c w]; [done|].
  pose proof (add_spec (c :: w) o s Hwf Ho Hs Hmax) as (Hwf' & Hlen & Hpost).
  change (wp (add_then_remove_front o s) (c :: w) (add_front_post (c :: w) o s)).
  unfold add_then_remove_front. wp_step. eapply (aget_at []); [done..|].
  assert (good 0 [c] \/ c = empty) as Hc.
  { destruct Hwf as (us & k & Hl & Hg & _). destruct us as [|d us]; [destruct k; [done|]; right; by injection Hl|].
    injection Hl as -> _. left. destruct Hg as (? & ? & _). by split_and!. }
  destruct (Z.eqb_spec o 0) as [->|Hno]; cbn [andb]; [destruct (Z.ltb_spec s (hole_size c)) as [Hlt|Hge]|].
  - destruct Hc as [(Hh & Hd & _)| ->]; [|cbn in Hlt; lia].
    wp_steps. rewrite usub_ok by lia. wp_steps. eapply (aset_at []); [done..|]. wp_steps.
    cbv beta iota delta [add_front_post front_post joined in_range].
    split_and!; [|done|done|intros; split_zbool; rewrite ?orb_true_r; try done; lia|cbn; split_zbool; try done; lia|].
    + destruct Hwf as (us & k & Hl & Hg & Hsp). destruct us as [|d us]; [destruct k; [done|]; injection Hl as -> _; cbn in Hd; lia|].
      injection Hl as <- ->. destruct Hg as (_ & _ & Hg1). cbn [span] in Hsp.
      exists (MkContig (hole_size c - s) (data_size c) :: us), k. split_and!; [done|cbn; by split_and!; [lia|..]|cbn [span]; contig_lia].
    + intros x Hx. cbn [app present]. unfold total. cbn [hole_size data_size].
      split_zbool; rewrite ?orb_false_r; try done; try lia. f_equal. lia.
  - wp_step. destruct (add 0 s (c :: w)) as [[[]|[]|] l'] eqn:Hadd; cbn [fst snd] in *; [| |done].
    + wp_call Hadd. destruct (remove_front_spec l' Hwf') as (n & l2 & Hr & Hf); [by destruct l'|].
      eapply wp_eq; [exact Hr|]. destruct Hf as (? & Hl2 & ? & Hin & Hout & Hsh).
      split_and!; [done|lia|done|..]; intros; unfold joined; rewrite <- Hpost; auto.
    + exfalso. destruct Hpost as (-> & Hall & Habs). apply Forall_cons in Hall as [Hcd _].
      destruct Hc as [(Hh & Hd & _)| ->]; [|done].
      specialize (Habs (hole_size c) ltac:(lia) Hh). rewrite front_present in Habs by (done || lia). done.
  - wp_step. destruct (add o s (c :: w)) as [[[]|[]|] l'] eqn:Hadd; cbn [fst snd] in *; [| |done].
    + wp_call Hadd. destruct (remove_front_spec l' Hwf') as (n & l2 & Hr & Hf); [by destruct l'|].
      eapply wp_eq; [exact Hr|]. destruct Hf as (? & Hl2 & ? & Hin & Hout & Hsh).
      split_and!; [done|lia|done|..]; intros; unfold joined; rewrite <- Hpost; auto.
    + wp_call Hadd. by split.
Qed.

(** The runs of the set, as [iter_data] lists them from position [p] on. *)
Fixpoint runs (us : list Contig) (p : Z) : list (Z * Z) :=
  match us with [] => [] | c :: us' => (p + hole_size c, p + total c) :: runs us' (p + total c) end.
Lemma iter_next_pad k off left : 0 <= left <= usize_max -> exists rest, iter_next (pad k) off left = Ok (None, left, rest).
Proof.
  intros Hl. induction k as [|k IH]; [by exists []|]. cbn. rewrite uadd_ok by lia. cbn [mbind outcome_bind].
  rewrite (uadd_ok (left + 0) 0) by lia. cbn [mbind outcome_bind]. rewrite !Z.add_0_r, Z.ltb_irrefl. apply IH.
Qed.
Lemma iter_collect_spec us : forall fuel k off left lo,
  good lo us -> 0 <= lo -> 0 <= left -> 0 <= off -> off + left + span us <= usize_max -> (length us < fuel)%nat ->
  iter_collect fuel (us ++ pad k) off left = Ok (runs us (left + off)).
Proof.
  induction us as [|c us IH]; intros fuel k off left lo Hg Hlo Hl Ho Hmax Hf; (destruct fuel as [|fuel]; [cbn in Hf; lia|]).
  - cbn [iter_collect app span] in *. destruct (iter_next_pad k off left) as [rest ->]; [lia|done].
  - destruct Hg as (Hh & Hd & Hg). pose proof (good_span 1 us ltac:(lia) Hg). cbn [span] in Hmax.
    cbn [iter_collect app iter_next runs].
    repeat (rewrite uadd_ok by contig_lia; cbn [mbind outcome_bind]).
    rewrite (proj2 (Z.ltb_lt _ _)) by lia.
    repeat (rewrite uadd_ok by contig_lia; cbn [mbind outcome_bind]).
    cbn [mbind outcome_bind]. rewrite (IH _ _ _ _ 1); [|done|lia|lia|lia|contig_lia|cbn in Hf; lia].
    cbn [mbind outcome_bind]. unfold total. repeat (f_equal; try lia).
Qed.
Definition in_runs (rs : list (Z * Z)) (x : Z) : bool := existsb (fun r => (r.1 <=? x) && (x <? r.2)) rs.
Fixpoint separated (p : Z) (rs : list (Z * Z)) : Prop :=
  match rs with [] => True | (a, b) :: rs' => p <= a < b /\ separated (b + 1) rs' end.
Lemma runs_separated us : forall p lo, good lo us -> separated (p + lo) (runs us p).
Proof.
  induction us as [|c us IH]; intros p lo; [done|]. intros (Hh & Hd & Hg). cbn. split; [contig_lia|]. by apply (IH _ 1).
Qed.
Lemma in_runs_before rs p x : separated p rs -> x < p -> in_runs rs x = false.
Proof.
  revert p. induction rs as [|[a b] rs IH]; intros p; [done|]. intros [Hab Hs] Hx. unfold in_runs. cbn.
  split_zbool; try done; try lia; by apply (IH (b + 1)); [|lia].
Qed.
Lemma runs_present us : forall p lo x, good lo us -> in_runs (runs us p) (x + p) = present us x.
Proof.
  induction us as [|c us IH]; intros p lo x; [done|]. intros (Hh & Hd & Hg). unfold in_runs. cbn [runs existsb fst snd present].
  pose proof (runs_separated us (p + total c) 1 Hg) as Hsep. specialize (IH (p + total c) 1 (x - total c) Hg).
  replace (x - total c + (p + total c)) with (x + p) in IH by lia. fold (in_runs (runs us (p + total c)) (x + p)).
  split_zbool; try done; try lia; try contig_lia; by rewrite (in_runs_before _ _ _ Hsep) by contig_lia.
Qed.

(** Adding the segments of a list in order. *)
Definition add_all (segs : list (Z * Z)) : asm () := for_each segs (fun sg => add sg.1 sg.2).
Definition covered (segs : list (Z * Z)) (x : Z) : bool := existsb (fun sg => in_range sg.1 sg.2 x) segs.
Definition segment_ok (sg : Z * Z) : Prop := 0 <= sg.1 /\ 0 <= sg.2 /\ sg.1 + sg.2 <= usize_max.
Lemma add_all_spec segs : forall l l',
  wf l -> Forall segment_ok segs -> add_all segs l = (Ok (), l') ->
  wf l' /\ length l' = length l /\ forall x, present l' x = present l x || covered segs x.
Proof.
  induction segs as [|[o s] segs IH]; intros l l' Hwf Hok.
  - intros [= <-]. split_and!; [done..|]. intros x. by rewrite orb_false_r.
  - apply Forall_cons in Hok as [(Ho & Hs & Hm) Hok]. unfold add_all. cbn [for_each fst snd].
    unfold mbind, prog_bind. pose proof (add_spec l o s Hwf Ho Hs Hm) as Hp.
    destruct (add o s l) as [[[]| |] l1] eqn:Ha; cbn [fst snd] in *; [|done..]. intros Hrun.
    destruct Hp as (Hwf1 & Hl1 & Hp1). destruct (IH l1 l' Hwf1 Hok Hrun) as (? & ? & Hp').
    split_and!; [done|lia|]. intros x. rewrite Hp', Hp1. cbn. by rewrite orb_assoc.
Qed.
End AssemblerSpec.

(** ** Properties *)

Module AssemblerTheorems.
Import Assembler AssemblerSpec.

(** C31: [add] never panics on a well-formed assembler. When it succeeds the
    received positions are the old ones and the new range, in a well-formed
    array of the same length; when it fails nothing changed, every slot is in
    use, and the range neither overlaps nor touches received data. *)
Theorem assembler_add_union l o s :
  wf l -> 0 <= o -> 0 <= s -> o + s <= usize_max ->
  exists r l', add o s l = (r, l') /\ wf l' /\ length l' = length l /\
    ((r = Ok () /\ forall x, present l' x = present l x || in_range o s x) \/
     (r = Err TooManyHoles /\ l' = l /\ Forall (fun c => has_data c = true) l /\
      forall x, o - 1 <= x <= o + s -> 0 <= x -> present l x = false)).
Proof.
  intros Hwf Ho Hs Hm. pose proof (add_spec l o s Hwf Ho Hs Hm) as (Hwf' & Hlen & Hp).
  destruct (add o s l) as [[[]|[]|] l']; cbn [fst snd] in *; [| |done].
  - eexists _, l'. split_and!; [done..|]. by left.
  - eexists _, l'. split_and!; [done..|]. by right.
Qed.

(** The order in which segments arrive, and how they are cut, does not
    matter: two sequences that cover the same positions, both accepted, leave
    the same array. *)
Theorem assembler_order_irrelevant n segs segs' l l' :
  Forall segment_ok segs -> Forall segment_ok segs' ->
  (forall x, covered segs x = covered segs' x) ->
  add_all segs (new n) = (Ok (), l) -> add_all segs' (new n) = (Ok (), l') -> l = l'.
Proof.
  intros Hok Hok' Hc Hr Hr'.
  destruct (add_all_spec _ _ _ (new_wf n) Hok Hr) as (? & ? & Hp).
  destruct (add_all_spec _ _ _ (new_wf n) Hok' Hr') as (? & ? & Hp').
  apply wf_canonical; [done|done|congruence|]. intros x. by rewrite Hp, Hp', Hc.
Qed.

(** A segment at offset 0 is never refused by [add_then_remove_front],
    however many holes there are: it returns the length of the received run at
    the front, and what stays is the rest of the joined set, moved down. *)
Theorem assembler_front_accepted l s :
  wf l -> l <> [] -> 0 <= s <= usize_max ->
  exists n l', add_then_remove_front 0 s l = (Ok n, l') /\ wf l' /\ s <= n /\
    (forall x, 0 <= x < n -> joined l 0 s x = true) /\ joined l 0 s n = false /\
    forall x, 0 <= x -> present l' x = joined l 0 s (x + n).
Proof.
  intros Hwf Hne Hs. pose proof (add_then_remove_front_spec l 0 s Hwf Hne) as Hp.
  specialize (Hp ltac:(lia) ltac:(lia) ltac:(lia)). destruct (add_then_remove_front 0 s l) as [[n|e|] l'].
  - destruct Hp as (? & ? & Hn & Hin & Hout & Hsh). exists n, l'. split_and!; try done.
    destruct (Z.le_gt_cases s n); [done|]. revert Hout. cbn [fst snd] in *. unfold joined, in_range.
    split_zbool; rewrite ?orb_true_r; try done; lia.
  - by destruct Hp.
  - done.
Qed.

(** [iter_data] lists exactly the received positions, as maximal runs in
    increasing order, displaced by the given offset. *)
Theorem iter_data_runs l off :
  wf l -> 0 <= off -> off + span l <= usize_max ->
  exists rs, iter_data l off = Ok rs /\ separated off rs /\
    forall x, in_runs rs (x + off) = present l x.
Proof.
  intros (us & k & -> & Hg & Hsp) Ho Hm. exists (runs us off). split_and!.
  - unfold iter_data. rewrite (iter_collect_spec us _ k off 0 0 Hg); [by rewrite Z.add_0_l|lia..| |].
    + rewrite span_app_pad in Hm. lia.
    + rewrite length_app. lia.
  - rewrite <- (Z.add_0_r off) at 1. by apply runs_separated.
  - intros x. rewrite present_app_pad. by eapply runs_present.
Qed.

(** *** Witnesses: four slots *)

Definition after (segs : list (Z * Z)) : assembler := (add_all segs (new 4)).2.
Lemma after_wf segs : Forall segment_ok segs -> (add_all segs (new 4)).1 = Ok () -> wf (after segs).
Proof.
  intros Hok Hr. unfold after. destruct (add_all segs (new 4)) as [r l] eqn:Ha. cbn in *. subst.
  by apply (add_all_spec segs (new 4) l (new_wf 4) Hok Ha).
Qed.
Definition three : list (Z * Z) := [(10, 5); (20, 5); (30, 5)].
Definition four : list (Z * Z) := [(10, 5); (20, 5); (30, 5); (40, 5)].
Ltac segments_ok := repeat constructor; cbn; unfold usize_max; lia.

Lemma assembler_add_union_witness :
  wf (after three) /\ add 14 8 (after three) = (Ok (), [MkContig 10 15; MkContig 5 5; empty; empty]) /\
  forall x, present (add 14 8 (after three)).2 x = present (after three) x || in_range 14 8 x.
Proof.
  assert (wf (after three)) as Hwf by (apply after_wf; [segments_ok|by vm_compute]).
  split; [done|]. assert (add 14 8 (after three) = (Ok (), [MkContig 10 15; MkContig 5 5; empty; empty])) as Ha
    by (by vm_compute). split; [done|].
  destruct (assembler_add_union (after three) 14 8 Hwf) as (r & l' & Hr & _ & _ & [[_ H]|[Hb _]]);
    [lia|lia|by vm_compute| |].
  - by rewrite Hr.
  - rewrite Ha in Hr. by rewrite Hb in Hr.
Defined.
Lemma assembler_order_irrelevant_witness : after [(10, 5); (20, 5)] = after [(22, 3); (10, 5); (20, 2)].
Proof.
  apply (assembler_order_irrelevant 4 [(10, 5); (20, 5)] [(22, 3); (10, 5); (20, 2)]);
    [segments_ok|segments_ok| |by vm_compute|by vm_compute].
  intros x. unfold covered, in_range. cbn. split_zbool; try done; lia.
Defined.
Lemma assembler_front_accepted_witness :
  wf (after four) /\ add 0 3 (after four) = (Err TooManyHoles, after four) /\
  exists l', add_then_remove_front 0 3 (after four) = (Ok 3, l').
Proof.
  assert (wf (after four)) as Hwf by (apply after_wf; [segments_ok|by vm_compute]).
  split; [done|]. split; [by vm_compute|].
  destruct (assembler_front_accepted (after four) 3 Hwf) as (n & l' & Hr & _); [done|by vm_compute|].
  exists l'. rewrite Hr. f_equal. assert ((add_then_remove_front 0 3 (after four)).1 = Ok 3) as Hn by (by vm_compute).
  by rewrite Hr in Hn.
Defined.
Lemma iter_data_runs_witness :
  iter_data (after three) 1500 = Ok [(1510, 1515); (1520, 1525); (1530, 1535)].
Proof.
  destruct (iter_data_runs (after three) 1500) as (rs & Hr & _).
  - apply after_wf; [segments_ok|by vm_compute].
  - done.
  - by vm_compute.
  - rewrite Hr. assert (iter_data (after three) 1500 = Ok [(1510, 1515); (1520, 1525); (1530, 1535)]) as Hv by (by vm_compute).
    by rewrite <- Hr.
Defined.
End AssemblerTheorems.
