(* ===== verification/RingBuffer.v ===== *)
(** * The ring buffer (crates/smoltcp/src/storage/ring_buffer.rs)

    A fixed storage with a read position and a length. Indices are natural
    numbers with the overflow of [usize] written out. A closure that works on a
    borrowed slice is a function from the slice's contents to its result and the
    contents it leaves. *)
From S2P Require Import Prelude.
From stdpp Require Import prelude list.
Open Scope nat_scope.

(** [usize] arithmetic on natural numbers. *)
Definition nadd {E} (a b : nat) : outcome E nat :=
  if (Z.of_nat (a + b) <=? usize_max)%Z then Ok (a + b) else Panic.
Definition nsub {E} (a b : nat) : outcome E nat := if b <=? a then Ok (a - b) else Panic.

Inductive Full := IsFull.
Inductive Empty := IsEmpty.
#[export] Instance Full_eq_dec : EqDecision Full.
Proof. solve_decision. Defined.
#[export] Instance Empty_eq_dec : EqDecision Empty.
Proof. solve_decision. Defined.

(** The elements [lo..hi] of a slice, and the slice with them replaced. *)
Definition slice {A} (lo n : nat) (l : list A) : list A := take n (drop lo l).
Definition splice {A} (lo : nat) (xs l : list A) : list A := take lo l ++ xs ++ drop (lo + length xs) l.

Module Ring.
Section ring.
Context {T : Type}.

Record RingBuffer := MkRing { storage : list T; read_at : nat; rlen : nat }.
Abbreviation ring A := (prog RingBuffer Empty_set A).

Definition new (storage : list T) : RingBuffer := MkRing storage 0 0.
Definition clear {E} : prog RingBuffer E () := modify (λ rb, MkRing (storage rb) 0 0).
Definition capacity (rb : RingBuffer) : nat := length (storage rb).
Definition len (rb : RingBuffer) : nat := rlen rb.
(** [reset] of the buffer and of every element *)
Definition reset {E} (reset_elem : T → T) : prog RingBuffer E () :=
  clear;; modify (λ rb, MkRing (reset_elem <$> storage rb) (read_at rb) (rlen rb)).
Definition window {E} (rb : RingBuffer) : outcome E nat := nsub (capacity rb) (len rb).
Definition get_idx {E} (rb : RingBuffer) (idx : nat) : outcome E nat :=
  if 0 <? capacity rb then x ← nadd (read_at rb) idx; Ok (x mod capacity rb) else Ok 0.
Definition get_idx_unchecked {E} (rb : RingBuffer) (idx : nat) : outcome E nat :=
  x ← nadd (read_at rb) idx; if capacity rb =? 0 then Panic else Ok (x mod capacity rb).
Definition contiguous_window {E} (rb : RingBuffer) : outcome E nat :=
  w ← window rb; i ← get_idx rb (rlen rb); rest ← nsub (capacity rb) i; Ok (min w rest).
Definition is_empty (rb : RingBuffer) : bool := len rb =? 0.
Definition is_full {E} (rb : RingBuffer) : outcome E bool := w ← window rb; Ok (w =? 0).

Definition set_read_at (i : nat) (rb : RingBuffer) : RingBuffer := MkRing (storage rb) i (rlen rb).
Definition set_len (n : nat) (rb : RingBuffer) : RingBuffer := MkRing (storage rb) (read_at rb) n.

(** [f(&mut self.storage[lo..hi])] and [f(&mut self.storage[i])] *)
Definition with_slice {E R} (lo hi : nat) (f : list T → R * list T) : prog RingBuffer E R := λ rb,
  if (lo <=? hi) && (hi <=? capacity rb) then
    let '(r, xs) := f (slice lo (hi - lo) (storage rb)) in
    (Ok r, MkRing (splice lo xs (storage rb)) (read_at rb) (rlen rb))
  else (Panic, rb).
Definition with_elem {E R} (i : nat) (f : T → R * T) : prog RingBuffer E R := λ rb,
  match storage rb !! i with
  | Some x => let '(r, y) := f x in (Ok r, MkRing (<[i := y]> (storage rb)) (read_at rb) (rlen rb))
  | None => (Panic, rb)
  end.

(** ** Single elements *)

Definition enqueue_one_with {E R} (f : T → (R + E) * T) : prog RingBuffer Full (R + E) :=
  full ← inspect (λ rb, is_full rb);
  if full : bool then throw IsFull
  else
    index ← inspect (λ rb, get_idx_unchecked rb (rlen rb));
    res ← with_elem index f;
    match res with
    | inl _ => n ← inspect (λ rb, nadd (rlen rb) 1); modify (set_len n)
    | inr _ => mret ()
    end;;
    mret res.
(** [*self.enqueue_one()? = x]: the slot is handed out and assigned *)
Definition enqueue_one (x : T) : prog RingBuffer Full () :=
  _ ← enqueue_one_with (E := Empty_set) (λ _, (inl (), x)); mret ().

Definition dequeue_one_with {E R} (f : T → (R + E) * T) : prog RingBuffer Empty (R + E) :=
  empty ← gets is_empty;
  if empty : bool then throw IsEmpty
  else
    next_at ← inspect (λ rb, get_idx_unchecked rb 1);
    at_ ← gets read_at;
    res ← with_elem at_ f;
    match res with
    | inl _ =>
      n ← inspect (λ rb, nsub (rlen rb) 1); modify (set_len n);; modify (set_read_at next_at)
    | inr _ => mret ()
    end;;
    mret res.
(** [self.dequeue_one()?]: the slot is handed out; [g] is what the caller leaves in it *)
Definition dequeue_one (g : T → T) : prog RingBuffer Empty T :=
  r ← dequeue_one_with (E := Empty_set) (λ x, (inl x, g x));
  match r with inl x => mret x | inr e => match e : Empty_set with end end.

(** ** Slices of elements *)

Definition enqueue_many_with {R} (f : list T → nat * R * list T) : ring (nat * R) :=
  n ← gets rlen;
  (if n =? 0 then modify (set_read_at 0) else mret ());;
  write_at ← inspect (λ rb, get_idx rb (rlen rb));
  max_size ← inspect (λ rb, contiguous_window rb);
  hi ← lift (nadd write_at max_size);
  '(size, result) ← with_slice write_at hi f;
  lift (assert (size <=? max_size));;
  n ← inspect (λ rb, nadd (rlen rb) size);
  modify (set_len n);;
  mret (size, result).
(** The slice that [enqueue_many] hands out is given the contents [g] of it. *)
Definition enqueue_many (size : nat) (g : list T → list T) : ring (list T) :=
  '(_, xs) ← enqueue_many_with (λ buf,
    let n := min size (length buf) in
    let xs := g (take n buf) in (n, xs, xs ++ drop n buf));
  mret xs.
Definition copy_in (data buf : list T) : nat * list T * list T :=
  let size := min (length buf) (length data) in
  (size, drop size data, take size data ++ drop size buf).
Definition enqueue_slice (data : list T) : ring nat :=
  '(size_1, data) ← enqueue_many_with (copy_in data);
  '(size_2, _) ← enqueue_many_with (copy_in data);
  lift (nadd size_1 size_2).

Definition dequeue_many_with {R} (f : list T → nat * R * list T) : ring (nat * R) :=
  cap ← gets capacity;
  rest ← inspect (λ rb, nsub cap (read_at rb));
  max_size ← gets (λ rb, min (len rb) rest);
  lo ← gets read_at;
  hi ← lift (nadd lo max_size);
  '(size, result) ← with_slice lo hi f;
  lift (assert (size <=? max_size));;
  at_ ← inspect (λ rb, if 0 <? cap then x ← nadd (read_at rb) size; Ok (x mod cap) else Ok 0);
  modify (set_read_at at_);;
  n ← inspect (λ rb, nsub (rlen rb) size);
  modify (set_len n);;
  mret (size, result).
Definition dequeue_many (size : nat) : ring (list T) :=
  '(_, xs) ← dequeue_many_with (λ buf, let n := min size (length buf) in (n, take n buf, buf));
  mret xs.
(** The caller's slice is its contents before; the result has the slice after. *)
Definition copy_out (data buf : list T) : nat * (list T * list T) * list T :=
  let size := min (length buf) (length data) in
  (size, (take size buf, drop size data), buf).
Definition dequeue_slice (data : list T) : ring (nat * list T) :=
  '(size_1, (out_1, data)) ← dequeue_many_with (copy_out data);
  '(size_2, (out_2, data)) ← dequeue_many_with (copy_out data);
  size ← lift (nadd size_1 size_2);
  mret (size, out_1 ++ out_2 ++ data).

(** ** Random access *)

(** The place of the slice [get_unallocated] returns: start and size. *)
Definition unallocated_at {E} (rb : RingBuffer) (offset size : nat) : outcome E (nat * nat) :=
  sum ← nadd (rlen rb) offset;
  start_at ← get_idx rb sum;
  w ← window rb;
  if w <? offset then Ok (0, 0)
  else
    clamped_window ← nsub w offset;
    let size := if clamped_window <? size then clamped_window else size in
    until_end ← nsub (capacity rb) start_at;
    let size := if until_end <? size then until_end else size in
    Ok (start_at, size).
(** [get_unallocated], with the contents [g] that the caller writes *)
Definition get_unallocated (offset size : nat) (g : list T → list T) : ring (list T) :=
  '(start_at, size) ← inspect (λ rb, unallocated_at rb offset size);
  hi ← lift (nadd start_at size);
  with_slice start_at hi (λ buf, (buf, g buf)).
Definition write_unallocated (offset : nat) (data : list T) : ring nat :=
  s1 ← get_unallocated offset (length data) (λ buf, take (length buf) data);
  let size_1 := length s1 in
  offset ← lift (nadd offset size_1);
  let data := drop size_1 data in
  s2 ← get_unallocated offset (length data) (λ buf, take (length buf) data);
  lift (nadd size_1 (length s2)).
Definition enqueue_unallocated (count : nat) : ring () :=
  w ← inspect (λ rb, window rb);
  lift (assert (count <=? w));;
  n ← inspect (λ rb, nadd (rlen rb) count);
  modify (set_len n).

Definition allocated_at {E} (rb : RingBuffer) (offset size : nat) : outcome E (nat * nat) :=
  start_at ← get_idx rb offset;
  if rlen rb <? offset then Ok (0, 0)
  else
    clamped_length ← nsub (rlen rb) offset;
    let size := if clamped_length <? size then clamped_length else size in
    until_end ← nsub (capacity rb) start_at;
    let size := if until_end <? size then until_end else size in
    Ok (start_at, size).
Definition get_allocated (offset size : nat) : ring (list T) :=
  '(start_at, size) ← inspect (λ rb, allocated_at rb offset size);
  hi ← lift (nadd start_at size);
  with_slice start_at hi (λ buf, (buf, buf)).
Definition read_allocated (offset : nat) (data : list T) : ring (nat * list T) :=
  s1 ← get_allocated offset (length data);
  let size_1 := length s1 in
  offset ← lift (nadd offset size_1);
  let data := drop size_1 data in
  s2 ← get_allocated offset (length data);
  size ← lift (nadd size_1 (length s2));
  mret (size, s1 ++ s2 ++ drop (length s2) data).
Definition dequeue_allocated (count : nat) : ring () :=
  n ← gets len;
  lift (assert (count <=? n));;
  n ← inspect (λ rb, nsub (rlen rb) count);
  modify (set_len n);;
  at_ ← inspect (λ rb, get_idx rb count);
  modify (set_read_at at_).
End ring.
Arguments RingBuffer : clear implicits.
End Ring.
