(* ===== verification/RingSpec.v ===== *)
(** * The ring buffer as a queue

    [unrolled] is the storage read from the read position on, and [contents]
    its allocated prefix: the queue the buffer stands for. Every operation is
    specified on these two lists. *)
From S2P Require Import Prelude RingBuffer.
From stdpp Require Import prelude list.
Open Scope nat_scope.

Section lists.
Context {A : Type}.
Implicit Types l xs : list A.
Lemma slice_length lo n l : lo + n <= length l -> length (slice lo n l) = n.
Proof. intros. unfold slice. rewrite length_take, length_drop. lia. Qed.
Lemma splice_length lo xs l : lo + length xs <= length l -> length (splice lo xs l) = length l.
Proof. intros. unfold splice. rewrite !length_app, length_take, length_drop. lia. Qed.
Lemma splice_lookup lo xs l i :
  lo + length xs <= length l ->
  splice lo xs l !! i = if (lo <=? i) && (i <? lo + length xs) then xs !! (i - lo) else l !! i.
Proof.
  intros Hl. unfold splice. destruct (Nat.leb_spec lo i) as [Hlo|Hlo]; cbn [andb].
  - rewrite lookup_app_r by (rewrite length_take; lia). rewrite length_take, Nat.min_l by lia.
    destruct (Nat.ltb_spec i (lo + length xs)).
    + by rewrite lookup_app_l by lia.
    + rewrite lookup_app_r by lia. rewrite lookup_drop. f_equal. lia.
  - rewrite lookup_app_l by (rewrite length_take; lia). by rewrite lookup_take_lt.
Qed.
Lemma slice_lookup lo n l i : slice lo n l !! i = if i <? n then l !! (lo + i) else None.
Proof.
  unfold slice. destruct (Nat.ltb_spec i n).
  - by rewrite lookup_take_lt, lookup_drop.
  - by rewrite lookup_take_ge.
Qed.
Lemma splice_nil lo l : splice lo [] l = l.
Proof. unfold splice. cbn. rewrite Nat.add_0_r. apply take_drop. Qed.
Lemma splice_app lo xs ys l :
  lo + length xs + length ys <= length l -> splice (lo + length xs) ys (splice lo xs l) = splice lo (xs ++ ys) l.
Proof.
  intros Hl. apply list_eq. intros i.
  rewrite !splice_lookup by (rewrite ?length_app, ?splice_length; lia). rewrite length_app.
  split_nbool; rewrite ?lookup_app_l, ?lookup_app_r by lia; try done; try lia; f_equal; lia.
Qed.
Lemma splice_same lo n l : lo + n <= length l -> splice lo (slice lo n l) l = l.
Proof.
  intros Hl. apply list_eq. intros i. rewrite splice_lookup by (rewrite slice_length; lia).
  rewrite slice_length, slice_lookup by lia. split_nbool; try done; try lia. f_equal. lia.
Qed.
Lemma take_splice_before n lo xs l : n <= lo -> lo <= length l -> take n (splice lo xs l) = take n l.
Proof. intros. unfold splice. rewrite take_app_le by (rewrite length_take; lia). rewrite take_take. f_equal. lia. Qed.
Lemma take_splice_at lo n xs l :
  lo + length xs <= length l -> n <= length xs -> take (lo + n) (splice lo xs l) = take lo l ++ take n xs.
Proof.
  intros. unfold splice. rewrite take_app_add' by (rewrite length_take; lia). f_equal. by rewrite take_app_le.
Qed.
End lists.

Module RingSpec.
Import Ring.
Section spec.
Context {T : Type}.
Implicit Types rb : RingBuffer T.

(** A slice has at most [isize::MAX] elements. *)
Definition isize_max : Z := 2 ^ 63 - 1.
Definition wf rb : Prop :=
  (Z.of_nat (capacity rb) <= isize_max)%Z /\ rlen rb <= capacity rb /\
  (read_at rb < capacity rb \/ read_at rb = 0).
Definition unroll (r : nat) (l : list T) : list T := drop r l ++ take r l.
Definition unrolled rb : list T := unroll (read_at rb) (storage rb).
Definition contents rb : list T := take (rlen rb) (unrolled rb).
Definition free rb : nat := capacity rb - rlen rb.

(** The position of element [i] of the unrolled list. *)
Definition wrap (cap i : nat) : nat := if i <? cap then i else i - cap.
Lemma mod_wrap cap i : i < 2 * cap -> i mod cap = wrap cap i.
Proof.
  intros Hi. unfold wrap. destruct (Nat.ltb_spec i cap); [by apply Nat.mod_small|].
  symmetry. apply (Nat.mod_unique _ _ 1); lia.
Qed.
Lemma unroll_length r l : r <= length l -> length (unroll r l) = length l.
Proof. intros. unfold unroll. rewrite length_app, length_drop, length_take. lia. Qed.
Lemma unroll_lookup r l i :
  r <= length l -> i < length l -> unroll r l !! i = l !! wrap (length l) (r + i).
Proof.
  intros Hr Hi. unfold unroll, wrap. destruct (Nat.ltb_spec (r + i) (length l)).
  - rewrite lookup_app_l by (rewrite length_drop; lia). by rewrite lookup_drop.
  - rewrite lookup_app_r by (rewrite length_drop; lia). rewrite length_drop, lookup_take_lt by lia. f_equal. lia.
Qed.
(** Advancing the read position rotates the unrolled list. *)
Lemma unroll_advance r n l :
  r <= length l -> n <= length l -> r < length l \/ n = 0 ->
  unroll (wrap (length l) (r + n)) l = unroll n (unroll r l).
Proof.
  intros Hr Hn Hrn. apply list_eq. intros i.
  destruct (Nat.lt_ge_cases i (length l)) as [Hi|Hi].
  - rewrite unroll_lookup by (unfold wrap; split_nbool; lia).
    rewrite (unroll_lookup n) by (rewrite unroll_length; lia). rewrite unroll_length by lia.
    rewrite unroll_lookup by (unfold wrap; split_nbool; lia).
    f_equal. unfold wrap. split_nbool; lia.
  - rewrite !lookup_ge_None_2; [done|rewrite unroll_length; rewrite ?unroll_length; lia|].
    rewrite unroll_length; [lia|]. unfold wrap. split_nbool; lia.
Qed.
(** Writing a contiguous piece of the storage writes that piece of the unrolled list. *)
Lemma unroll_splice r i xs l :
  r < length l \/ r = 0 -> i + length xs <= length l -> wrap (length l) (r + i) + length xs <= length l ->
  unroll r (splice (wrap (length l) (r + i)) xs l) = splice i xs (unroll r l).
Proof.
  intros Hr Hi Hp. assert (r <= length l) as Hr' by lia. apply list_eq. intros j.
  destruct (Nat.lt_ge_cases j (length l)) as [Hj|Hj].
  - rewrite unroll_lookup by (rewrite splice_length; lia).
    rewrite !splice_lookup by (rewrite ?unroll_length; lia). rewrite splice_length, unroll_lookup by lia.
    revert Hp. unfold wrap.
    split_nbool; intros Hp;
      try done; try lia; f_equal; lia.
  - rewrite !lookup_ge_None_2; [done| |]; rewrite ?splice_length, ?unroll_length; rewrite ?splice_length, ?unroll_length; try lia.
Qed.
Lemma unroll_slice r i n l :
  r < length l \/ r = 0 -> i + n <= length l -> wrap (length l) (r + i) + n <= length l ->
  slice (wrap (length l) (r + i)) n l = slice i n (unroll r l).
Proof.
  intros Hr Hi Hp. assert (r <= length l) as Hr' by lia. apply list_eq. intros j. rewrite !slice_lookup.
  destruct (Nat.ltb_spec j n); [|done]. rewrite unroll_lookup by lia. f_equal. revert Hp. unfold wrap.
  split_nbool; lia.
Qed.

(** ** Index arithmetic never overflows *)

Lemma nadd_ok {E} a b : (Z.of_nat (a + b) <= usize_max)%Z -> @nadd E a b = Ok (a + b).
Proof. intros H. unfold nadd. by rewrite (proj2 (Z.leb_le _ _) H). Qed.
Lemma nadd_small {E} a b n :
  (Z.of_nat n <= isize_max)%Z -> a <= n -> b <= n -> @nadd E a b = Ok (a + b).
Proof. intros. apply nadd_ok. unfold isize_max, usize_max in *. lia. Qed.
Lemma nsub_ok {E} a b : b <= a -> @nsub E a b = Ok (a - b).
Proof. intros H. unfold nsub. by rewrite (proj2 (Nat.leb_le _ _) H). Qed.
Lemma window_ok {E} rb : wf rb -> @window _ E rb = Ok (free rb).
Proof. intros (_ & ? & _). by apply nsub_ok. Qed.
Lemma get_idx_ok {E} rb i :
  wf rb -> i <= capacity rb -> @get_idx _ E rb i = Ok (wrap (capacity rb) (read_at rb + i)).
Proof.
  intros (Hc & _ & Hr) Hi. unfold get_idx. destruct (Nat.ltb_spec 0 (capacity rb)).
  - rewrite (nadd_small _ _ (capacity rb)) by (done || lia). cbn [mbind outcome_bind]. by rewrite mod_wrap by lia.
  - unfold wrap. split_nbool; f_equal; lia.
Qed.
Lemma get_idx_unchecked_ok {E} rb i :
  wf rb -> i <= capacity rb -> 0 < capacity rb ->
  @get_idx_unchecked _ E rb i = Ok (wrap (capacity rb) (read_at rb + i)).
Proof.
  intros (Hc & _ & Hr) Hi Hp. unfold get_idx_unchecked.
  rewrite (nadd_small _ _ (capacity rb)) by (done || lia). cbn [mbind outcome_bind].
  rewrite (proj2 (Nat.eqb_neq _ _)) by lia. by rewrite mod_wrap by lia.
Qed.
Lemma wrap_bound cap r i : (r < cap \/ r = 0) -> i <= cap -> wrap cap (r + i) <= cap.
Proof. intros. unfold wrap. split_nbool; lia. Qed.
Definition contig rb : nat := min (free rb) (capacity rb - wrap (capacity rb) (read_at rb + rlen rb)).
Lemma contiguous_window_ok {E} rb : wf rb -> @contiguous_window _ E rb = Ok (contig rb).
Proof.
  intros Hwf. unfold contiguous_window. rewrite window_ok by done. cbn [mbind outcome_bind].
  pose proof Hwf as (_ & Hl & Hr). rewrite get_idx_ok by done. cbn [mbind outcome_bind].
  rewrite nsub_ok by (by apply wrap_bound). done.
Qed.

(** ** Writing through a borrowed slice *)

(** [xs] written from element [i] of the unrolled list on, the length set to [n]. *)
Definition put rb (i : nat) (xs : list T) (n : nat) : RingBuffer T :=
  MkRing (splice (wrap (capacity rb) (read_at rb + i)) xs (storage rb)) (read_at rb) n.
Definition fits rb (i n : nat) : Prop :=
  i + n <= capacity rb /\ wrap (capacity rb) (read_at rb + i) + n <= capacity rb.
Lemma unrolled_length rb : wf rb -> length (unrolled rb) = capacity rb.
Proof. intros (_ & _ & ?). apply unroll_length. unfold capacity in *. lia. Qed.
Lemma contents_length rb : wf rb -> length (contents rb) = rlen rb.
Proof. intros Hwf. unfold contents. rewrite length_take, unrolled_length by done. destruct Hwf. lia. Qed.
Lemma put_capacity rb i xs n : fits rb i (length xs) -> capacity (put rb i xs n) = capacity rb.
Proof. intros [_ H]. apply splice_length, H. Qed.
Lemma put_wf rb i xs n : wf rb -> fits rb i (length xs) -> n <= capacity rb -> wf (put rb i xs n).
Proof. intros (? & ? & ?) Hf Hn. unfold wf. rewrite (put_capacity rb i xs n) by done. done. Qed.
Lemma put_unrolled rb i xs n :
  wf rb -> fits rb i (length xs) -> unrolled (put rb i xs n) = splice i xs (unrolled rb).
Proof. intros (_ & _ & Hr) [H1 H2]. by apply unroll_splice. Qed.
Lemma with_slice_run {E R} rb i n (f : list T -> R * list T) r xs :
  wf rb -> fits rb i n -> f (slice i n (unrolled rb)) = (r, xs) ->
  let at' := wrap (capacity rb) (read_at rb + i) in
  @with_slice _ E R at' (at' + n) f rb = (Ok r, put rb i xs (rlen rb)).
Proof.
  intros (_ & _ & Hr) [H1 H2] Hf at'. unfold with_slice. rewrite (proj2 (Nat.leb_le _ _)) by lia.
  rewrite (proj2 (Nat.leb_le _ _)) by (subst at'; lia). cbn [andb].
  replace (at' + n - at') with n by lia. unfold at' at 1. unfold capacity at 1.
  rewrite unroll_slice by done. unfold unrolled in Hf. by rewrite Hf.
Qed.

Definition norm rb : RingBuffer T := if rlen rb =? 0 then set_read_at 0 rb else rb.
Lemma norm_wf rb : wf rb -> wf (norm rb).
Proof. intros (? & ? & ?). unfold norm. case_match; [|done]. split_and!; [done..|by right]. Qed.
Lemma norm_contents rb : contents (norm rb) = contents rb.
Proof. unfold norm, contents. destruct (Nat.eqb_spec (rlen rb) 0) as [Hz|]; [|done]. cbn. by rewrite Hz. Qed.
Lemma norm_facts rb : rlen (norm rb) = rlen rb /\ capacity (norm rb) = capacity rb.
Proof. unfold norm. by case_match. Qed.
Lemma contig_fits rb : wf rb -> fits rb (rlen rb) (contig rb).
Proof.
  intros (_ & Hl & Hr). unfold fits, contig, free.
  pose proof (wrap_bound (capacity rb) (read_at rb) (rlen rb) Hr Hl). lia.
Qed.

Lemma enqueue_many_run {R} rb (f : list T -> nat * R * list T) size r xs :
  wf rb -> let rb0 := norm rb in
  f (slice (rlen rb) (contig rb0) (unrolled rb0)) = (size, r, xs) -> length xs = contig rb0 -> size <= contig rb0 ->
  enqueue_many_with f rb = (Ok (size, r), put rb0 (rlen rb) xs (rlen rb + size)).
Proof.
  intros Hwf rb0 Hf Hxs Hsize. pose proof (norm_wf rb Hwf) as Hwf0. pose proof (norm_facts rb) as [Hl0 Hc0].
  pose proof (contig_fits rb0 Hwf0) as [Hf1 Hf2]. fold rb0 in Hl0, Hc0, Hwf0. rewrite Hl0 in *.
  apply wp_run. unfold enqueue_many_with. wp_steps.
  eapply (wp_eq _ _ (Ok ()) rb0); [by unfold rb0, norm; destruct (rlen rb =? 0)|]. wp_steps. rewrite Hl0.
  pose proof Hwf0 as (Hcap & Hlen & Hr).
  rewrite get_idx_ok by lia || done. wp_steps. rewrite contiguous_window_ok by done. wp_steps.
  rewrite (nadd_small _ _ (capacity rb0)) by (done || lia). wp_steps.
  eapply wp_eq; [by apply (with_slice_run rb0 (rlen rb) (contig rb0) f (size, r) xs Hwf0)|]. cbv beta iota. wp_steps.
  rewrite assert_ok by (by apply Nat.leb_le). wp_steps. unfold put at 1. cbn [rlen]. rewrite Hl0.
  rewrite (nadd_small _ _ (capacity rb0)) by (done || lia). by wp_steps.
Qed.

Lemma put_contents rb xs size :
  wf rb -> fits rb (rlen rb) (length xs) -> size <= length xs ->
  contents (put rb (rlen rb) xs (rlen rb + size)) = contents rb ++ take size xs.
Proof.
  intros Hwf Hf Hs. unfold contents. rewrite put_unrolled by done. cbn [put rlen].
  apply take_splice_at; [|done]. rewrite unrolled_length by done. apply Hf.
Qed.
(** What an operation leaves: a well-formed buffer of the same capacity. *)
Definition holds rb (rb' : RingBuffer T) (q : list T) : Prop :=
  wf rb' /\ capacity rb' = capacity rb /\ contents rb' = q.
Lemma copy_in_run rb data :
  wf rb -> let n := contig (norm rb) in let size := min n (length data) in
  exists rb', enqueue_many_with (copy_in data) rb = (Ok (size, drop size data), rb') /\
    holds rb rb' (contents rb ++ take size data) /\ rlen rb' = rlen rb + size /\ read_at rb' = read_at (norm rb).
Proof.
  intros Hwf n size. pose proof (norm_wf rb Hwf) as Hwf0. pose proof (norm_facts rb) as [Hl0 Hc0].
  pose proof (contig_fits _ Hwf0) as Hf. rewrite Hl0 in Hf.
  set (buf := slice (rlen rb) n (unrolled (norm rb))).
  assert (length buf = n) as Hbuf.
  { apply slice_length. rewrite unrolled_length by done. apply Hf. }
  set (xs := take size data ++ drop size buf).
  assert (length xs = n) as Hxs.
  { unfold xs. rewrite length_app, length_take, length_drop. lia. }
  eexists. split.
  { apply (enqueue_many_run rb _ size _ xs Hwf); [|done|lia]. unfold copy_in. fold n buf. by rewrite Hbuf. }
  rewrite <- Hl0 in *. split_and!; [split_and!| |done].
  - apply put_wf; [done|by rewrite Hxs|]. destruct Hf as [Hf _]. fold n in Hf. lia.
  - rewrite put_capacity; [done|by rewrite Hxs].
  - rewrite put_contents; [|done|by rewrite Hxs|lia]. rewrite norm_contents. f_equal.
    unfold xs. by rewrite take_app_length' by (rewrite length_take; lia).
  - done.
Qed.
(** Two contiguous pieces fill the window. *)
Lemma two_pieces cap r L D :
  r < cap \/ r = 0 -> L <= cap -> (L = 0 -> r = 0) ->
  let s1 := min (min (cap - L) (cap - wrap cap (r + L))) D in
  let s2 := min (min (cap - (L + s1)) (cap - wrap cap (r + (L + s1)))) (D - s1) in
  s1 + s2 = min D (cap - L).
Proof.
  intros Hr HL Hz s1 s2. destruct (Nat.le_gt_cases cap (r + L)) as [Hge|Hlt].
  - assert (s1 = min (cap - L) D) as Hs1.
    { unfold s1. clear s1 s2. f_equal. apply Nat.min_l. unfold wrap. rewrite (proj2 (Nat.ltb_ge _ _)) by lia. lia. }
    assert (s2 = 0) as ->; [|by rewrite Hs1, Nat.add_0_r, Nat.min_comm]. unfold s2. rewrite Hs1.
    destruct (Nat.le_ge_cases D (cap - L)); [rewrite (Nat.min_r _ D) by done; by rewrite Nat.sub_diag, Nat.min_0_r|].
    rewrite (Nat.min_l _ D) by done. clear s1 Hs1 s2. by replace (cap - (L + (cap - L))) with 0 by lia.
  - assert (s1 = min (cap - (r + L)) D) as Hs1.
    { unfold s1, wrap. clear s1 s2. rewrite (proj2 (Nat.ltb_lt _ _)) by lia. f_equal. lia. }
    destruct (Nat.le_ge_cases D (cap - (r + L))) as [HD|HD].
    + rewrite Nat.min_r in Hs1 by done. unfold s2. rewrite Hs1, Nat.sub_diag, Nat.min_0_r.
      clear s1 s2 Hs1. lia.
    + rewrite Nat.min_l in Hs1 by done. unfold s2, wrap. rewrite Hs1. clear s1 s2 Hs1.
      rewrite (proj2 (Nat.ltb_ge _ _)) by lia. lia.
Qed.
Lemma norm_read_at rb : read_at (norm rb) = if rlen rb =? 0 then 0 else read_at rb.
Proof. unfold norm. by case_match. Qed.
Lemma contig_norm rb :
  contig (norm rb) = min (capacity rb - rlen rb) (capacity rb - wrap (capacity rb) (read_at (norm rb) + rlen rb)).
Proof. unfold contig, free. pose proof (norm_facts rb) as [-> ->]. done. Qed.
Lemma enqueue_slice_spec rb data :
  wf rb -> let n := min (length data) (free rb) in
  exists rb', enqueue_slice data rb = (Ok n, rb') /\ holds rb rb' (contents rb ++ take n data).
Proof.
  intros Hwf n. destruct (copy_in_run rb data Hwf) as (rb1 & Hrun1 & (Hwf1 & Hc1 & Hq1) & Hl1 & Hr1).
  set (size1 := min (contig (norm rb)) (length data)) in *.
  destruct (copy_in_run rb1 (drop size1 data) Hwf1) as (rb2 & Hrun2 & (Hwf2 & Hc2 & Hq2) & Hl2 & _).
  rewrite length_drop in *. set (size2 := min (contig (norm rb1)) (length data - size1)) in *.
  assert (size1 + size2 = n) as Hn.
  { pose proof Hwf as (_ & HL & Hr). pose proof (norm_wf rb Hwf) as (_ & _ & Hr0).
    rewrite (proj2 (norm_facts rb)) in Hr0. unfold size2, size1 in *. rewrite !contig_norm in *. rewrite Hc1, Hl1 in *.
    rewrite (norm_read_at rb1), Hr1, Hl1 in *.
    assert (rlen rb = 0 -> read_at (norm rb) = 0) as Hz by (intros Hz; by rewrite norm_read_at, Hz).
    pose proof (two_pieces (capacity rb) (read_at (norm rb)) (rlen rb) (length data) Hr0 HL Hz) as H2. cbv zeta in H2.
    unfold n, free. rewrite <- H2. f_equal.
    match goal with |- context [?x =? 0] => destruct (Nat.eqb_spec x 0) as [He|]; [|done] end.
    apply Nat.eq_add_0 in He as [He _]. by rewrite Hz. }
  exists rb2. split.
  - apply wp_run. unfold enqueue_slice. wp_step. wp_call Hrun1. wp_step. wp_call Hrun2.
    wp_steps. rewrite nadd_ok; [by rewrite Hn|]. rewrite Hn. destruct Hwf as (Hcap & _).
    unfold n, free, isize_max, usize_max in *. lia.
  - split_and!; [done|congruence|]. rewrite Hq2, Hq1, <- app_assoc. f_equal. rewrite <- Hn. by rewrite take_take_drop.
Qed.

(** ** Taking elements off *)

Definition advance rb (n : nat) : RingBuffer T :=
  MkRing (storage rb) (wrap (capacity rb) (read_at rb + n)) (rlen rb - n).
Lemma advance_holds rb n : wf rb -> n <= rlen rb -> holds rb (advance rb n) (drop n (contents rb)).
Proof.
  intros (Hc & Hl & Hr) Hn. split_and!; [|done|].
  - unfold wf, advance, capacity in *. cbn [storage read_at rlen]. split_and!; [done|lia|]. unfold wrap.
    split_nbool; lia.
  - unfold contents, unrolled. cbn [advance storage read_at rlen]. unfold capacity in *.
    rewrite unroll_advance by lia. unfold unroll at 1.
    rewrite take_app_le by (rewrite length_drop, unroll_length; lia). by rewrite skipn_firstn_comm.
Qed.
Lemma wrap_here rb : wf rb -> wrap (capacity rb) (read_at rb + 0) = read_at rb.
Proof. intros (_ & _ & Hr). unfold wrap. split_nbool; lia. Qed.
(** The length of the contiguous slice at the front. *)
Definition front_len rb : nat := min (rlen rb) (capacity rb - read_at rb).
Lemma front_fits rb : wf rb -> fits rb 0 (front_len rb).
Proof. intros Hwf. unfold fits. rewrite wrap_here by done. destruct Hwf as (_ & ? & ?). unfold front_len. lia. Qed.
Lemma put_front rb xs : wf rb -> put rb 0 xs (rlen rb) = MkRing (splice (read_at rb) xs (storage rb)) (read_at rb) (rlen rb).
Proof. intros. unfold put. by rewrite wrap_here. Qed.
Lemma put_front_contents rb xs :
  wf rb -> fits rb 0 (length xs) -> length xs <= rlen rb ->
  contents (put rb 0 xs (rlen rb)) = xs ++ drop (length xs) (contents rb).
Proof.
  intros Hwf Hf Hx. unfold contents. rewrite put_unrolled by done. cbn [put rlen].
  unfold splice. change (take 0 _) with (@nil T). cbn [app Nat.add].
  rewrite take_app_ge by done. f_equal. by rewrite skipn_firstn_comm.
Qed.
Lemma dequeue_many_eq {R} rb (f : list T -> nat * R * list T) size r xs :
  wf rb -> f (take (front_len rb) (contents rb)) = (size, r, xs) -> length xs = front_len rb -> size <= front_len rb ->
  dequeue_many_with f rb = (Ok (size, r), advance (put rb 0 xs (rlen rb)) size).
Proof.
  intros Hwf Hf Hxs Hsize. pose proof Hwf as (Hcap & Hl & Hr). pose proof (front_fits rb Hwf) as Hff.
  set (rb1 := put rb 0 xs (rlen rb)).
  assert (capacity rb1 = capacity rb) as Hc1 by (apply put_capacity; by rewrite Hxs).
  apply wp_run. unfold dequeue_many_with. wp_steps. rewrite nsub_ok by lia. wp_steps.
  rewrite (nadd_small _ _ (capacity rb)) by (done || unfold len; lia). wp_steps.
  assert (f (slice 0 (front_len rb) (unrolled rb)) = (size, r, xs)) as Hf'.
  { rewrite <- Hf. f_equal. unfold contents, slice. cbn [drop]. rewrite take_take. f_equal. unfold front_len. lia. }
  pose proof (with_slice_run (E := Empty_set) rb 0 (front_len rb) f (size, r) xs Hwf Hff Hf') as Hw.
  cbv zeta in Hw. rewrite wrap_here in Hw by done. eapply wp_eq; [exact Hw|].
  cbv beta iota. fold rb1. wp_steps. rewrite assert_ok by (by apply Nat.leb_le). wp_steps.
  change (read_at rb1) with (read_at rb). change (rlen rb1) with (rlen rb) in *.
  assert (size <= capacity rb - read_at rb) by (unfold front_len in Hsize; lia).
  replace (if 0 <? capacity rb then x ← nadd (read_at rb) size; Ok (x mod capacity rb) else Ok 0)
    with (@Ok Empty_set _ (wrap (capacity rb) (read_at rb + size))).
  2:{ destruct (Nat.ltb_spec 0 (capacity rb)).
      - rewrite (nadd_small _ _ (capacity rb)) by (done || lia). cbn [mbind outcome_bind].
        by rewrite mod_wrap by lia.
      - unfold wrap. split_nbool; f_equal; lia. }
  wp_steps. cbn [set_read_at rlen]. change (rlen rb1) with (rlen rb).
  rewrite nsub_ok by (unfold front_len in Hsize; lia). wp_steps. unfold advance. by rewrite Hc1.
Qed.
Lemma dequeue_many_run {R} rb (f : list T -> nat * R * list T) size r xs :
  wf rb -> f (take (front_len rb) (contents rb)) = (size, r, xs) -> length xs = front_len rb -> size <= front_len rb ->
  exists rb', dequeue_many_with f rb = (Ok (size, r), rb') /\
    holds rb rb' (drop size (xs ++ drop (front_len rb) (contents rb))) /\
    rlen rb' = rlen rb - size /\ read_at rb' = wrap (capacity rb) (read_at rb + size).
Proof.
  intros Hwf Hf Hxs Hsize. pose proof Hwf as (Hcap & Hl & Hr). pose proof (front_fits rb Hwf) as Hff.
  set (rb1 := put rb 0 xs (rlen rb)).
  assert (wf rb1) as Hwf1 by (apply put_wf; [done|by rewrite Hxs|done]).
  assert (capacity rb1 = capacity rb) as Hc1 by (apply put_capacity; by rewrite Hxs).
  assert (size <= rlen rb1) as Hs1 by (cbn; unfold front_len in Hsize; lia).
  destruct (advance_holds rb1 size Hwf1 Hs1) as (Hw' & Hc' & Hq'). exists (advance rb1 size). split_and!.
  - by apply dequeue_many_eq.
  - split_and!; [done|congruence|]. rewrite Hq'. f_equal. unfold rb1.
    rewrite put_front_contents; [by rewrite Hxs|done|by rewrite Hxs|]. rewrite Hxs. unfold front_len. lia.
  - done.
  - unfold advance. cbn [read_at]. by rewrite Hc1.
Qed.
Lemma copy_out_run rb data :
  wf rb -> let n := front_len rb in let size := min n (length data) in
  exists rb', dequeue_many_with (copy_out data) rb =
      (Ok (size, (take size (contents rb), drop size data)), rb') /\
    holds rb rb' (drop size (contents rb)) /\ rlen rb' = rlen rb - size /\
    read_at rb' = wrap (capacity rb) (read_at rb + size).
Proof.
  intros Hwf n size. set (buf := take n (contents rb)).
  assert (length buf = n) as Hbuf.
  { unfold buf. rewrite length_take, contents_length by done. unfold n, front_len. lia. }
  destruct (dequeue_many_run rb (copy_out data) size (take size (contents rb), drop size data) buf Hwf)
    as (rb' & Hrun & Hh & Hl & Hr); [|done|fold n; lia|].
  { unfold copy_out. fold n buf. rewrite Hbuf. fold size. unfold buf. rewrite take_take, Nat.min_l by lia. done. }
  exists rb'. split_and!; [done| |done|done]. fold n in Hh. unfold buf in Hh. by rewrite take_drop in Hh.
Qed.
Lemma dequeue_slice_spec rb data :
  wf rb -> let n := min (length data) (rlen rb) in
  exists rb', dequeue_slice data rb = (Ok (n, take n (contents rb) ++ drop n data), rb') /\
    holds rb rb' (drop n (contents rb)).
Proof.
  intros Hwf n. destruct (copy_out_run rb data Hwf) as (rb1 & Hrun1 & (Hwf1 & Hc1 & Hq1) & Hl1 & Hr1).
  set (size1 := min (front_len rb) (length data)) in *.
  destruct (copy_out_run rb1 (drop size1 data) Hwf1) as (rb2 & Hrun2 & (Hwf2 & Hc2 & Hq2) & Hl2 & _).
  rewrite length_drop in *. set (size2 := min (front_len rb1) (length data - size1)) in *.
  pose proof Hwf as (Hcap & HL & Hr).
  assert (size1 + size2 = n) as Hn.
  { unfold size2, front_len. rewrite Hl1, Hc1, Hr1. unfold n. clear - HL Hr. unfold size1, front_len, wrap.
    destruct (Nat.le_gt_cases (length data) (min (rlen rb) (capacity rb - read_at rb))) as [HD|HD].
    - rewrite (Nat.min_r _ (length data)) by done. lia.
    - rewrite (Nat.min_l _ (length data)) by lia. split_nbool; lia. }
  exists rb2. split.
  - apply wp_run. unfold dequeue_slice. wp_step. wp_call Hrun1. wp_step. wp_call Hrun2. wp_steps.
    rewrite nadd_ok by (rewrite Hn; unfold n, isize_max, usize_max in *; lia). wp_steps.
    rewrite Hq1, drop_drop, Hn, app_assoc, <- Hn, take_take_drop. done.
  - split_and!; [done|congruence|]. by rewrite Hq2, Hq1, drop_drop, Hn.
Qed.

(** ** Single elements *)

Lemma insert_splice i (y : T) l : i < length l -> <[i := y]> l = splice i [y] l.
Proof.
  intros Hi. apply list_eq. intros j. rewrite splice_lookup by (cbn; lia). cbn [length].
  rewrite list_lookup_insert. case_decide as Hc.
  - destruct Hc as [<- _]. split_nbool; [by rewrite Nat.sub_diag|lia..].
  - split_nbool; try done. lia.
Qed.
Lemma with_elem_run {E R} rb i (f : T -> R * T) x r y :
  wf rb -> unrolled rb !! i = Some x -> f x = (r, y) ->
  @with_elem _ E R (wrap (capacity rb) (read_at rb + i)) f rb = (Ok r, put rb i [y] (rlen rb)) /\ fits rb i 1.
Proof.
  intros Hwf Hx Hf. pose proof (lookup_lt_Some _ _ _ Hx) as Hi. rewrite unrolled_length in Hi by done.
  pose proof Hwf as (_ & _ & Hr). unfold unrolled, capacity in *. rewrite unroll_lookup in Hx by lia.
  pose proof (lookup_lt_Some _ _ _ Hx) as Hp. unfold with_elem. unfold capacity. rewrite Hx, Hf.
  split; [|unfold fits, capacity; lia]. unfold put, capacity. by rewrite insert_splice.
Qed.
Definition tail_put rb (y : T) (n : nat) : RingBuffer T := put rb (rlen rb) [y] n.
Lemma enqueue_one_with_spec {E R} rb (f : T -> (R + E) * T) :
  wf rb -> free rb <> 0 ->
  exists x, unrolled rb !! rlen rb = Some x /\ let '(res, y) := f x in
  exists rb', enqueue_one_with f rb = (Ok res, rb') /\
    holds rb rb' (contents rb ++ match res with inl _ => [y] | inr _ => [] end).
Proof.
  intros Hwf Hfree. pose proof Hwf as (Hc & Hl & Hr). unfold free in Hfree.
  destruct (lookup_lt_is_Some_2 (unrolled rb) (rlen rb)) as [x Hx]; [rewrite unrolled_length by done; lia|].
  exists x. split; [done|]. destruct (f x) as [res y] eqn:Hf.
  destruct (with_elem_run (E := Full) rb (rlen rb) f x res y Hwf Hx Hf) as [Hrun Hfit].
  set (n := rlen rb + match res with inl _ => 1 | inr _ => 0 end).
  exists (put rb (rlen rb) [y] n). split; [|split_and!].
  - apply wp_run. unfold enqueue_one_with, is_full. wp_steps. rewrite window_ok by done. cbn [mbind outcome_bind].
    unfold free. rewrite (proj2 (Nat.eqb_neq _ _)) by done. wp_steps. rewrite get_idx_unchecked_ok by (done || lia).
    wp_steps. wp_call Hrun. unfold n. destruct res; wp_steps.
    + cbn [put rlen]. rewrite (nadd_small _ _ (capacity rb)) by (done || lia). by wp_steps.
    + by rewrite Nat.add_0_r.
  - apply put_wf; [done..|]. unfold n. destruct res; lia.
  - by apply put_capacity.
  - unfold n. rewrite put_contents; [|done..|by destruct res; cbn; lia]. by destruct res.
Qed.
Lemma enqueue_one_full {E R} rb (f : T -> (R + E) * T) :
  wf rb -> free rb = 0 -> enqueue_one_with f rb = (Err IsFull, rb).
Proof.
  intros Hwf Hfree. apply wp_run. unfold enqueue_one_with, is_full. wp_steps. rewrite window_ok by done.
  cbn [mbind outcome_bind]. rewrite Hfree. by wp_steps.
Qed.
Lemma enqueue_one_spec rb (x : T) :
  wf rb -> free rb <> 0 -> exists rb', enqueue_one x rb = (Ok (), rb') /\ holds rb rb' (contents rb ++ [x]).
Proof.
  intros Hwf Hf. destruct (enqueue_one_with_spec (E := Empty_set) rb (fun _ => (inl (), x)) Hwf Hf) as (y & _ & rb' & Hr & Hh).
  exists rb'. split; [|done]. apply wp_run. unfold enqueue_one. wp_step. wp_call Hr. by wp_steps.
Qed.
Lemma enqueue_one_refused rb (x : T) : wf rb -> free rb = 0 -> enqueue_one x rb = (Err IsFull, rb).
Proof.
  intros Hwf Hf. apply wp_run. unfold enqueue_one. wp_step. by wp_call (enqueue_one_full (E := Empty_set) rb (fun _ => (inl (), x)) Hwf Hf).
Qed.
Lemma dequeue_one_with_spec {E R} rb (f : T -> (R + E) * T) x q :
  wf rb -> contents rb = x :: q -> let '(res, y) := f x in
  exists rb', dequeue_one_with f rb = (Ok res, rb') /\
    holds rb rb' match res with inl _ => q | inr _ => y :: q end.
Proof.
  intros Hwf Hq. pose proof Hwf as (Hc & Hl & Hr). destruct (f x) as [res y] eqn:Hf.
  pose proof (contents_length rb Hwf) as Hlen. rewrite Hq in Hlen. cbn in Hlen.
  assert (unrolled rb !! 0 = Some x) as Hx.
  { assert (contents rb !! 0 = Some x) as Hx by (by rewrite Hq). unfold contents in Hx. by rewrite lookup_take_lt in Hx by lia. }
  destruct (with_elem_run (E := RingBuffer.Empty) rb 0 f x res y Hwf Hx Hf) as [Hrun Hfit]. rewrite wrap_here in Hrun by done.
  set (rb1 := put rb 0 [y] (rlen rb)).
  assert (wf rb1) as Hwf1 by (by apply put_wf). assert (capacity rb1 = capacity rb) as Hc1 by (by apply put_capacity).
  assert (contents rb1 = y :: q) as Hq1.
  { unfold rb1. rewrite put_front_contents by (done || cbn; lia). by rewrite Hq. }
  destruct (advance_holds rb1 1 Hwf1) as (Hw' & Hc' & Hq'); [cbn; lia|].
  exists (match res with inl _ => advance rb1 1 | inr _ => rb1 end). split.
  - apply wp_run. unfold dequeue_one_with, is_empty, len. wp_steps. rewrite (proj2 (Nat.eqb_neq _ _)) by lia.
    wp_steps. rewrite get_idx_unchecked_ok by (done || lia). wp_steps. wp_call Hrun. fold rb1. destruct res; wp_steps; [|done].
    change (rlen rb1) with (rlen rb). rewrite nsub_ok by lia. wp_steps. unfold advance. by rewrite Hc1.
  - destruct res; [|done]. split_and!; [done|congruence|by rewrite Hq', Hq1].
Qed.
Lemma dequeue_one_spec rb (g : T -> T) x q :
  wf rb -> contents rb = x :: q -> exists rb', dequeue_one g rb = (Ok x, rb') /\ holds rb rb' q.
Proof.
  intros Hwf Hq. destruct (dequeue_one_with_spec (E := Empty_set) rb (fun x => (inl x, g x)) x q Hwf Hq) as (rb' & Hr & Hh).
  exists rb'. split; [|done]. apply wp_run. unfold dequeue_one. wp_step. wp_call Hr. by wp_steps.
Qed.
Lemma dequeue_one_empty {E R} rb (f : T -> (R + E) * T) :
  rlen rb = 0 -> dequeue_one_with f rb = (Err IsEmpty, rb).
Proof. intros Hz. apply wp_run. unfold dequeue_one_with, is_empty, len. wp_steps. rewrite Hz. by wp_steps. Qed.

(** ** Random access *)

(** The unallocated elements, in the order they would be enqueued. *)
Definition spare rb : list T := drop (rlen rb) (unrolled rb).
Lemma unrolled_split rb : contents rb ++ spare rb = unrolled rb.
Proof. apply take_drop. Qed.
Lemma spare_length rb : wf rb -> length (spare rb) = free rb.
Proof. intros. unfold spare. by rewrite length_drop, unrolled_length. Qed.

(** The part of a run of [n] from element [i] on that is contiguous in the storage. *)
Definition piece rb (i n : nat) : nat := min n (capacity rb - wrap (capacity rb) (read_at rb + i)).
Lemma piece_fits rb i n : wf rb -> i + n <= capacity rb -> fits rb i (piece rb i n).
Proof.
  intros (_ & _ & Hr) Hi. unfold fits, piece.
  pose proof (wrap_bound (capacity rb) (read_at rb) i Hr ltac:(lia)). lia.
Qed.
(** After a piece that is cut off by the end of the storage comes all the rest. *)
Lemma piece_rest rb i n :
  wf rb -> i + n <= capacity rb -> let m := piece rb i n in
  piece rb (i + m) (n - m) = n - m.
Proof.
  intros (_ & _ & Hr) Hi m. destruct (Nat.le_gt_cases n (capacity rb - wrap (capacity rb) (read_at rb + i))) as [Hle|Hgt].
  - assert (m = n) as -> by (by apply Nat.min_l). rewrite Nat.sub_diag. done.
  - assert (m = capacity rb - wrap (capacity rb) (read_at rb + i)) as Hm by (apply Nat.min_r; lia).
    unfold piece. apply Nat.min_l. rewrite Hm in *. clear m Hm. revert Hgt. unfold wrap.
    destruct (Nat.ltb_spec (read_at rb + i) (capacity rb)); split_nbool; lia.
Qed.
Lemma unallocated_at_ok {E} rb o n :
  wf rb -> o <= free rb ->
  let i := rlen rb + o in
  @unallocated_at _ E rb o n =
    Ok (wrap (capacity rb) (read_at rb + i), piece rb i (min n (free rb - o))).
Proof.
  intros Hwf Ho i. pose proof Hwf as (Hc & Hl & Hr). unfold free in Ho. unfold unallocated_at.
  rewrite (nadd_small _ _ (capacity rb)) by (done || lia). cbn [mbind outcome_bind].
  rewrite get_idx_ok by (done || lia). cbn [mbind outcome_bind]. rewrite window_ok by done. cbn [mbind outcome_bind].
  unfold free. rewrite (proj2 (Nat.ltb_ge _ _)) by lia. rewrite (nsub_ok _ o) by lia. cbn [mbind outcome_bind].
  rewrite nsub_ok by (apply wrap_bound; [done|lia]). cbn [mbind outcome_bind]. do 2 f_equal. unfold piece.
  fold i. destruct (Nat.ltb_spec (capacity rb - rlen rb - o) n); split_nbool; lia.
Qed.
Lemma get_unallocated_run rb o n (g : list T -> list T) :
  wf rb -> o <= free rb ->
  let i := rlen rb + o in let m := piece rb i (min n (free rb - o)) in
  let buf := slice i m (unrolled rb) in
  get_unallocated o n g rb = (Ok buf, put rb i (g buf) (rlen rb)) /\ fits rb i m /\ length buf = m.
Proof.
  intros Hwf Ho i m buf. pose proof Hwf as (Hc & Hl & Hr).
  assert (fits rb i m) as Hf by (apply piece_fits; [done|unfold i, free in *; lia]).
  assert (length buf = m) as Hb by (apply slice_length; rewrite unrolled_length by done; apply Hf).
  split_and!; [|done..]. apply wp_run. unfold get_unallocated. wp_steps. rewrite unallocated_at_ok by done.
  wp_steps. rewrite (nadd_small _ _ (capacity rb)) by (done || destruct Hf; fold i m; lia). wp_steps.
  by eapply wp_eq; [by apply (with_slice_run rb i m _ buf (g buf) Hwf Hf)|].
Qed.
Lemma put_spare rb o xs :
  wf rb -> fits rb (rlen rb + o) (length xs) ->
  let rb' := put rb (rlen rb + o) xs (rlen rb) in
  holds rb rb' (contents rb) /\ spare rb' = splice o xs (spare rb) /\ rlen rb' = rlen rb /\ read_at rb' = read_at rb.
Proof.
  intros Hwf Hf rb'. pose proof Hwf as (Hc & Hl & Hr). pose proof (unrolled_length rb Hwf) as Hul.
  assert (unrolled rb' = splice (rlen rb + o) xs (unrolled rb)) as Hu by (by apply put_unrolled).
  split_and!; [|unfold spare; rewrite Hu| |]; [|apply list_eq; intros j| |]; [split_and!| | |]; try done.
  - by apply put_wf.
  - by apply put_capacity.
  - unfold contents. rewrite Hu. apply take_splice_before; [lia|destruct Hf; lia].
  - rewrite lookup_drop, !splice_lookup by (rewrite ?length_drop; destruct Hf; cbn; lia). rewrite lookup_drop.
    cbn [rb' put rlen]. split_nbool; try done; try lia. f_equal. lia.
Qed.
Lemma write_unallocated_spec rb o data :
  wf rb -> o <= free rb -> let n := min (length data) (free rb - o) in
  exists rb', write_unallocated o data rb = (Ok n, rb') /\ holds rb rb' (contents rb) /\
    spare rb' = splice o (take n data) (spare rb) /\ rlen rb' = rlen rb.
Proof.
  intros Hwf Ho n. pose proof Hwf as (Hc & Hl & Hr).
  destruct (get_unallocated_run rb o (length data) (fun buf => take (length buf) data) Hwf Ho) as (Hr1 & Hf1 & Hb1).
  fold n in Hr1, Hf1, Hb1. set (m := piece rb (rlen rb + o) n) in *.
  assert (m <= n) as Hmn by (unfold m, piece; lia). rewrite Hb1 in Hr1.
  assert (length (take m data) = m) as Hx1 by (rewrite length_take; unfold n in *; lia).
  destruct (put_spare rb o (take m data) Hwf) as ((Hw1 & Hc1 & Hq1) & Hs1 & Hl1 & Hra1); [by rewrite Hx1|].
  set (rb1 := put rb (rlen rb + o) (take m data) (rlen rb)) in *.
  assert (free rb1 = free rb) as Hfr1 by (unfold free; congruence).
  assert (o + m <= free rb1) as Ho2 by (unfold n in *; lia).
  destruct (get_unallocated_run rb1 (o + m) (length (drop m data)) (fun buf => take (length buf) (drop m data)) Hw1 Ho2)
    as (Hr2 & Hf2 & Hb2). rewrite length_drop, Hfr1, Hl1 in *.
  assert (min (length data - m) (free rb - (o + m)) = n - m) as Hnm by (unfold n; lia). rewrite Hnm in *.
  assert (piece rb1 (rlen rb + (o + m)) (n - m) = n - m) as Hp2.
  { rewrite (Nat.add_assoc _ o m). unfold piece. rewrite Hc1, Hra1. apply (piece_rest rb (rlen rb + o) n Hwf).
    unfold n, free in *. lia. }
  rewrite Hp2 in *. rewrite Hb2 in Hr2.
  assert (length (take (n - m) (drop m data)) = n - m) as Hx2 by (rewrite length_take, length_drop; unfold n in *; lia).
  destruct (put_spare rb1 (o + m) (take (n - m) (drop m data)) Hw1) as ((Hw2 & Hc2 & Hq2) & Hs2 & Hl2 & _).
  { rewrite Hx2, Hl1. done. }
  rewrite Hl1 in *. eexists. split; [|split_and!; [split_and!|..]]; [| exact Hw2|congruence|congruence| |done].
  - apply wp_run. unfold write_unallocated. wp_step. wp_call Hr1. rewrite Hb1. wp_steps.
    rewrite (nadd_small _ _ (capacity rb)) by (done || unfold n, free in *; lia). wp_steps. rewrite length_drop.
    wp_call Hr2. rewrite Hb2. wp_steps. rewrite (nadd_small _ _ (capacity rb)) by (done || unfold n, free in *; lia).
    do 2 f_equal. lia.
  - rewrite Hs2, Hs1. rewrite <- Hx1 at 1. rewrite splice_app by (rewrite Hx1, Hx2, spare_length by done; unfold n in *; lia).
    f_equal. by rewrite take_take_drop, Nat.add_comm, Nat.sub_add.
Qed.
Lemma enqueue_unallocated_spec rb n :
  wf rb -> n <= free rb ->
  exists rb', enqueue_unallocated n rb = (Ok (), rb') /\ holds rb rb' (contents rb ++ take n (spare rb)) /\
    spare rb' = drop n (spare rb) /\ rlen rb' = rlen rb + n.
Proof.
  intros Hwf Hn. pose proof Hwf as (Hc & Hl & Hr). unfold free in Hn. exists (set_len (rlen rb + n) rb). split_and!; [|split_and!|..].
  - apply wp_run. unfold enqueue_unallocated. wp_steps. rewrite window_ok by done. wp_steps.
    rewrite assert_ok by (by apply Nat.leb_le). wp_steps. rewrite (nadd_small _ _ (capacity rb)) by (done || lia). by wp_steps.
  - split_and!; cbn; [done|unfold capacity in *; cbn; lia|done].
  - done.
  - unfold contents, spare. cbn [set_len rlen]. by rewrite take_take_drop.
  - unfold spare. cbn [set_len rlen]. by rewrite drop_drop.
  - done.
Qed.
Lemma allocated_at_ok {E} rb o n :
  wf rb -> o <= rlen rb ->
  @allocated_at _ E rb o n = Ok (wrap (capacity rb) (read_at rb + o), piece rb o (min n (rlen rb - o))).
Proof.
  intros Hwf Ho. pose proof Hwf as (Hc & Hl & Hr). unfold allocated_at.
  rewrite get_idx_ok by (done || lia). cbn [mbind outcome_bind]. rewrite (proj2 (Nat.ltb_ge _ _)) by lia.
  rewrite (nsub_ok _ o) by lia. cbn [mbind outcome_bind].
  rewrite nsub_ok by (apply wrap_bound; [done|lia]). cbn [mbind outcome_bind]. do 2 f_equal. unfold piece.
  destruct (Nat.ltb_spec (rlen rb - o) n); split_nbool; lia.
Qed.
Lemma slice_contents rb o n : o + n <= rlen rb -> slice o n (unrolled rb) = slice o n (contents rb).
Proof.
  intros Ho. apply list_eq. intros j. rewrite !slice_lookup. destruct (Nat.ltb_spec j n); [|done].
  unfold contents. by rewrite lookup_take_lt by lia.
Qed.
Lemma put_same rb i n : wf rb -> fits rb i n -> put rb i (slice i n (unrolled rb)) (rlen rb) = rb.
Proof.
  intros (_ & _ & Hr) [H1 H2]. unfold put, unrolled. unfold capacity in *. rewrite <- unroll_slice by done.
  rewrite splice_same by done. by destruct rb.
Qed.
Lemma get_allocated_run rb o n :
  wf rb -> o <= rlen rb -> let m := piece rb o (min n (rlen rb - o)) in
  get_allocated o n rb = (Ok (slice o m (contents rb)), rb) /\ m <= min n (rlen rb - o) /\
  length (slice o m (contents rb)) = m.
Proof.
  intros Hwf Ho m. pose proof Hwf as (Hc & Hl & Hr).
  assert (m <= min n (rlen rb - o)) as Hm by (unfold m, piece; lia).
  assert (fits rb o m) as Hf by (apply piece_fits; [done|lia]). split_and!; [|done|].
  - apply wp_run. unfold get_allocated. wp_steps. rewrite allocated_at_ok by done.
    wp_steps. rewrite (nadd_small _ _ (capacity rb)) by (done || destruct Hf; fold m; lia). wp_steps.
    eapply wp_eq; [by apply (with_slice_run rb o m _ (slice o m (unrolled rb)) (slice o m (unrolled rb)) Hwf Hf)|].
    by rewrite put_same, slice_contents by (done || lia).
  - apply slice_length. rewrite contents_length by done. lia.
Qed.
(** The octets handed out from [o], which may be one past the allocated part *)
Lemma get_allocated_spec rb o n :
  wf rb -> o <= S (capacity rb) -> exists m,
  get_allocated o n rb = (Ok (slice o m (contents rb)), rb) /\ m <= n /\ m <= rlen rb - o /\
  length (slice o m (contents rb)) = m /\ (0 < n -> o < rlen rb -> 0 < m).
Proof.
  intros Hwf Ho. pose proof Hwf as (Hc & Hl & Hr). destruct (Nat.le_gt_cases o (rlen rb)) as [Hle|Hgt].
  - destruct (get_allocated_run rb o n Hwf Hle) as (Hrun & Hm & Hlen). eexists. split; [exact Hrun|].
    split_and!; [lia|lia|done|]. intros. unfold piece, wrap. split_nbool; lia.
  - exists 0. split_and!; [|lia|lia|done|lia]. apply wp_run. unfold get_allocated. wp_steps. unfold allocated_at.
    assert (exists i, @get_idx T Empty_set rb o = Ok i) as [i ->].
    { unfold get_idx. destruct (0 <? capacity rb); [|by eexists].
      rewrite nadd_ok by (unfold isize_max, usize_max in *; lia). by eexists. }
    cbn [mbind outcome_bind]. rewrite (proj2 (Nat.ltb_lt _ _)) by lia. wp_steps. unfold nadd. cbn. wp_steps.
    unfold with_slice, wp, splice. cbn. by destruct rb.
Qed.
Lemma read_allocated_spec rb o data :
  wf rb -> o <= rlen rb -> let n := min (length data) (rlen rb - o) in
  read_allocated o data rb = (Ok (n, slice o n (contents rb) ++ drop n data), rb).
Proof.
  intros Hwf Ho n. pose proof Hwf as (Hc & Hl & Hr).
  destruct (get_allocated_run rb o (length data) Hwf Ho) as (Hr1 & Hm1 & Hb1). fold n in Hr1, Hm1, Hb1.
  set (m := piece rb o n) in *.
  destruct (get_allocated_run rb (o + m) (length (drop m data)) Hwf ltac:(lia)) as (Hr2 & Hm2 & Hb2).
  rewrite length_drop in *.
  assert (min (length data - m) (rlen rb - (o + m)) = n - m) as Hnm by (unfold n; lia). rewrite Hnm in *.
  assert (piece rb (o + m) (n - m) = n - m) as Hp2 by (apply (piece_rest rb o n Hwf); unfold n in *; lia).
  rewrite Hp2 in *. apply wp_run. unfold read_allocated. wp_step. wp_call Hr1. rewrite Hb1. wp_steps.
  rewrite (nadd_small _ _ (capacity rb)) by (done || unfold n in *; lia). wp_steps. rewrite length_drop. wp_call Hr2.
  rewrite Hb2. wp_steps. rewrite (nadd_small _ _ (capacity rb)) by (done || unfold n in *; lia). wp_steps.
  rewrite drop_drop. replace (m + (n - m)) with n by lia. rewrite app_assoc. repeat f_equal.
  unfold slice. rewrite <- drop_drop, take_take_drop. f_equal. lia.
Qed.
Lemma dequeue_allocated_spec rb n :
  wf rb -> n <= rlen rb -> exists rb', dequeue_allocated n rb = (Ok (), rb') /\ holds rb rb' (drop n (contents rb)).
Proof.
  intros Hwf Hn. pose proof Hwf as (Hc & Hl & Hr). exists (advance rb n). split; [|by apply advance_holds].
  apply wp_run. unfold dequeue_allocated, len. wp_steps. rewrite assert_ok by (by apply Nat.leb_le). wp_steps.
  rewrite nsub_ok by done. wp_steps.
  assert (forall rb', capacity rb' = capacity rb -> read_at rb' = read_at rb ->
    @get_idx _ Empty_set rb' n = @get_idx _ Empty_set rb n) as Hg.
  { intros rb' Hc' Hr'. unfold get_idx. by rewrite Hc', Hr'. }
  rewrite Hg by done. rewrite get_idx_ok by (done || lia). by wp_steps.
Qed.
(** Taking elements off leaves the free space as it was and adds to its end. *)
Definition keeps_spare rb (rb' : RingBuffer T) : Prop := exists tail, spare rb' = spare rb ++ tail.
Lemma keeps_spare_trans rb1 rb2 rb3 : keeps_spare rb1 rb2 -> keeps_spare rb2 rb3 -> keeps_spare rb1 rb3.
Proof. intros [t1 H1] [t2 H2]. exists (t1 ++ t2). by rewrite H2, H1, app_assoc. Qed.
Lemma keeps_spare_lookup rb1 rb2 i x : keeps_spare rb1 rb2 -> spare rb1 !! i = Some x -> spare rb2 !! i = Some x.
Proof. intros [t ->] Hi. by apply lookup_app_l_Some. Qed.
Lemma advance_spare rb n : wf rb -> n <= rlen rb -> keeps_spare rb (advance rb n).
Proof.
  intros Hwf Hn. pose proof Hwf as (Hc & Hl & Hr). exists (take n (unrolled rb)).
  pose proof (unrolled_length rb Hwf) as Hu. unfold spare at 1, unrolled at 1. cbn [advance storage read_at rlen].
  unfold capacity in *. rewrite unroll_advance by lia. fold (unrolled rb). unfold unroll.
  rewrite drop_app_le by (rewrite length_drop; lia). rewrite drop_drop. unfold spare. do 2 f_equal. lia.
Qed.
Lemma put_front_spare rb xs :
  wf rb -> fits rb 0 (length xs) -> length xs <= rlen rb -> spare (put rb 0 xs (rlen rb)) = spare rb.
Proof.
  intros Hwf Hf Hx. unfold spare. rewrite put_unrolled by done. cbn [put rlen]. unfold splice.
  change (take 0 _) with (@nil T). cbn [app Nat.add]. rewrite drop_app_ge by done. rewrite drop_drop. f_equal. lia.
Qed.
Lemma dequeue_many_keeps {R} rb (f : list T -> nat * R * list T) size r xs :
  wf rb -> f (take (front_len rb) (contents rb)) = (size, r, xs) -> length xs = front_len rb -> size <= front_len rb ->
  keeps_spare rb (dequeue_many_with f rb).2.
Proof.
  intros Hwf Hf Hxs Hsize. rewrite (dequeue_many_eq rb f size r xs) by done. cbn [snd].
  pose proof (front_fits rb Hwf) as Hff. pose proof Hwf as (_ & Hl & _).
  assert (length xs <= rlen rb) by (rewrite Hxs; unfold front_len; lia).
  destruct (advance_spare (put rb 0 xs (rlen rb)) size) as [t Ht].
  - apply put_wf; [done|by rewrite Hxs|done].
  - cbn. lia.
  - exists t. rewrite Ht, put_front_spare; [done|done|by rewrite Hxs|done].
Qed.
Lemma copy_out_keeps rb data : wf rb -> keeps_spare rb (dequeue_many_with (copy_out data) rb).2.
Proof.
  intros Hwf. set (n := front_len rb). set (buf := take n (contents rb)).
  assert (length buf = n) as Hbuf.
  { unfold buf. rewrite length_take, contents_length by done. unfold n, front_len. lia. }
  eapply (dequeue_many_keeps rb (copy_out data) _ _ buf Hwf); [unfold copy_out; fold n buf; reflexivity|done|].
  fold n. rewrite Hbuf. lia.
Qed.
Lemma dequeue_slice_keeps rb data : wf rb -> keeps_spare rb (dequeue_slice data rb).2.
Proof.
  intros Hwf. pose proof (copy_out_keeps rb data Hwf) as Hk1.
  destruct (copy_out_run rb data Hwf) as (rb1 & Hrun1 & (Hwf1 & _) & _). rewrite Hrun1 in Hk1. cbn [snd] in Hk1.
  set (d := drop (min (front_len rb) (length data)) data) in *. pose proof (copy_out_keeps rb1 d Hwf1) as Hk2.
  destruct (copy_out_run rb1 d Hwf1) as (rb2 & Hrun2 & _). rewrite Hrun2 in Hk2. cbn [snd] in Hk2.
  enough (wp (dequeue_slice data) rb (fun _ rb' => rb' = rb2)) as H.
  { unfold wp in H. rewrite H. by eapply keeps_spare_trans. }
  unfold dequeue_slice. wp_step. wp_call Hrun1. fold d. wp_step. wp_call Hrun2. wp_steps.
  destruct (nadd _ _); by wp_steps.
Qed.
Lemma enqueue_many_spec rb size (g : list T -> list T) :
  wf rb -> (forall l, length (g l) = length l) ->
  let n := min size (contig (norm rb)) in
  exists rb' xs, enqueue_many size g rb = (Ok xs, rb') /\ length xs = n /\ holds rb rb' (contents rb ++ xs) /\
    xs = g (take n (drop (rlen rb) (unrolled (norm rb)))) /\ rlen rb' = rlen rb + n /\ read_at rb' = read_at (norm rb).
Proof.
  intros Hwf Hg n. pose proof (norm_wf rb Hwf) as Hwf0. pose proof (norm_facts rb) as [Hl0 Hc0].
  pose proof (contig_fits _ Hwf0) as Hf. rewrite Hl0 in Hf. set (c := contig (norm rb)) in *.
  set (buf := slice (rlen rb) c (unrolled (norm rb))).
  assert (length buf = c) as Hbuf by (apply slice_length; rewrite unrolled_length by done; apply Hf).
  set (xs := g (take n buf)). assert (length xs = n) as Hx by (unfold xs; rewrite Hg, length_take; lia).
  assert (length (xs ++ drop n buf) = c) as Hlen by (rewrite length_app, length_drop; lia).
  exists (put (norm rb) (rlen rb) (xs ++ drop n buf) (rlen rb + n)), xs. split_and!; [|done|split_and!|..].
  - apply wp_run. unfold enqueue_many. wp_step. eapply wp_eq.
    { apply (enqueue_many_run rb _ n xs (xs ++ drop n buf) Hwf); [|done|lia].
      fold c buf. by rewrite Hbuf. }
    by wp_steps.
  - apply put_wf; [done|by rewrite Hlen|]. destruct Hf. lia.
  - rewrite put_capacity; [done|by rewrite Hlen].
  - rewrite <- Hl0 in *. rewrite put_contents; [|done|by rewrite Hlen|lia]. rewrite norm_contents. f_equal.
    by rewrite take_app_length' by done.
  - unfold xs, buf, slice. rewrite take_take. do 2 f_equal. lia.
  - done.
  - done.
Qed.
Lemma dequeue_many_spec rb size :
  wf rb -> let n := min size (front_len rb) in
  exists rb', dequeue_many size rb = (Ok (take n (contents rb)), rb') /\ holds rb rb' (drop n (contents rb)) /\
    rlen rb' = rlen rb - n /\ read_at rb' = wrap (capacity rb) (read_at rb + n).
Proof.
  intros Hwf n. set (buf := take (front_len rb) (contents rb)).
  assert (length buf = front_len rb) as Hbuf.
  { unfold buf. rewrite length_take, contents_length by done. unfold front_len. lia. }
  destruct (dequeue_many_run rb (fun buf => let n := min size (length buf) in (n, take n buf, buf)) n (take n (contents rb)) buf Hwf)
    as (rb' & Hrun & Hh & Hl & Hr); [|done|lia|].
  { fold buf. cbv zeta. rewrite Hbuf. fold n. unfold buf. by rewrite take_take, Nat.min_l by lia. }
  exists rb'. split_and!; [|by unfold buf in Hh; rewrite take_drop in Hh|done..].
  apply wp_run. unfold dequeue_many. wp_step. wp_call Hrun. by wp_steps.
Qed.
End spec.
End RingSpec.
