(* ===== verification/PacketBuffer.v ===== *)
(** * The packet buffer (crates/smoltcp/src/storage/packet_buffer.rs)

    Two ring buffers: one of packet descriptions, one of payload octets. A
    packet is always contiguous in the payload storage; a description without a
    header is padding that skips to the start of the storage. *)
From stdpp Require Import prelude list.
From S2P Require Import Prelude RingBuffer.
Open Scope nat_scope.

Module Packets.
Import Ring.
Section packets.
Context {H B : Type}.

Record PacketMetadata := MkMeta { size : nat; header : option H }.
Definition EMPTY : PacketMetadata := MkMeta 0 None.
Definition padding (n : nat) : PacketMetadata := MkMeta n None.
Definition packet (n : nat) (h : H) : PacketMetadata := MkMeta n (Some h).
Definition is_padding (m : PacketMetadata) : bool := match header m with None => true | Some _ => false end.

Record PacketBuffer := MkPacketBuffer {
  metadata_ring : RingBuffer PacketMetadata;
  payload_ring : RingBuffer B }.
Definition set_meta (r : RingBuffer PacketMetadata) (pb : PacketBuffer) : PacketBuffer :=
  MkPacketBuffer r (payload_ring pb).
Definition set_payload (r : RingBuffer B) (pb : PacketBuffer) : PacketBuffer :=
  MkPacketBuffer (metadata_ring pb) r.
Definition on_meta {E A} (m : prog (RingBuffer PacketMetadata) E A) : prog PacketBuffer E A :=
  zoom metadata_ring set_meta m.
Definition no_error {E} (e : Empty_set) : E := match e with end.
Definition on_payload {E A} (m : prog (RingBuffer B) Empty_set A) : prog PacketBuffer E A :=
  map_err_prog no_error (zoom payload_ring set_payload m).

Definition new (metadata_storage : list PacketMetadata) (payload_storage : list B) : PacketBuffer :=
  MkPacketBuffer (Ring.new metadata_storage) (Ring.new payload_storage).
Definition pb_is_empty (pb : PacketBuffer) : bool := Ring.is_empty (metadata_ring pb).
Definition pb_is_full {E} (pb : PacketBuffer) : outcome E bool := Ring.is_full (metadata_ring pb).
Definition packet_capacity (pb : PacketBuffer) : nat := capacity (metadata_ring pb).
Definition payload_capacity (pb : PacketBuffer) : nat := capacity (payload_ring pb).
Definition payload_bytes_count (pb : PacketBuffer) : nat := len (payload_ring pb).
Definition reset {E} : prog PacketBuffer E () :=
  zoom payload_ring set_payload clear;; on_meta clear.

(** The part that [enqueue] and [enqueue_with_infallible] share: room for
    [n] contiguous octets, after padding when they do not fit at the end. *)
Definition make_room (n : nat) : prog PacketBuffer Full () :=
  w ← inspect (λ pb, window (payload_ring pb));
  contig_window ← inspect (λ pb, contiguous_window (payload_ring pb));
  if w <? n then throw IsFull
  else if contig_window <? n then
    rest ← lift (nsub w contig_window);
    if rest <? n then throw IsFull
    else
      on_meta (enqueue_one (padding contig_window));;
      _ ← on_payload (enqueue_many contig_window id); mret ()
  else mret ().
Definition too_big (n : nat) : prog PacketBuffer Full bool :=
  cap ← gets payload_capacity;
  if cap <? n then mret true else inspect pb_is_full.

(** [enqueue]; [fill] is what the caller writes to the slice it is given. *)
Definition enqueue (n : nat) (h : H) (fill : list B → list B) : prog PacketBuffer Full (list B) :=
  no ← too_big n;
  if no : bool then throw IsFull
  else
    empty ← gets (λ pb, Ring.is_empty (payload_ring pb));
    (if empty : bool then zoom payload_ring set_payload clear else mret ());;
    make_room n;;
    on_meta (enqueue_one (packet n h));;
    payload_buf ← on_payload (enqueue_many n fill);
    lift (assert (length payload_buf =? n));;
    mret payload_buf.

(** [enqueue_with_infallible]; [f] fills a slice and says how much it used. *)
Definition enqueue_with_infallible (max_size : nat) (h : H) (f : list B → nat * list B) :
    prog PacketBuffer Full nat :=
  no ← too_big max_size;
  if no : bool then throw IsFull
  else
    make_room max_size;;
    (* [&mut data[..max_size]] panics when the slice is shorter *)
    room ← inspect (λ pb, contiguous_window
      (if rlen (payload_ring pb) =? 0 then set_read_at 0 (payload_ring pb) else payload_ring pb));
    lift (assert (max_size <=? room));;
    '(n, _) ← on_payload (enqueue_many_with (λ data,
      let '(n, xs) := f (take max_size data) in (n, (), xs ++ drop max_size data)));
    on_meta (enqueue_one (packet n h));;
    mret n.

(** The closure given to the metadata ring also dequeues from the payload ring;
    the two rings are disjoint, so its effect follows the metadata step here. *)
Definition dequeue_padding {E} : prog PacketBuffer E () :=
  attempt (on_meta (dequeue_one_with (λ m, if is_padding m then (inl (size m), m) else (inr (), m))))
    (λ r, match r with
          | Ok (inl n) => _ ← on_payload (dequeue_many n); mret ()
          | _ => mret ()
          end).

Definition dequeue_with {R E} (f : H → list B → (R + E) * H * list B) : prog PacketBuffer Empty (R + E) :=
  dequeue_padding;;
  empty ← gets pb_is_empty;
  if empty : bool then throw IsEmpty
  else
    m ← inspect (λ pb, expect (storage (metadata_ring pb) !! read_at (metadata_ring pb)));
    avail ← inspect (λ pb, rest ← nsub (payload_capacity pb) (read_at (payload_ring pb));
      Ok (min (len (payload_ring pb)) rest));
    lift (assert (size m <=? avail));;
    h ← lift (expect (header m));
    '(_, (res, h')) ← on_payload (dequeue_many_with (λ payload_buf,
      let '(res, h', xs) := f h (take (size m) payload_buf) in
      (match res with inl _ => size m | inr _ => 0 end, (res, h'), xs ++ drop (size m) payload_buf)));
    on_meta (dequeue_one_with (λ m, (res, MkMeta (size m) (Some h')))).

Definition dequeue : prog PacketBuffer Empty (H * list B) :=
  dequeue_padding;;
  m ← on_meta (dequeue_one (λ m, MkMeta (size m) None));
  payload_buf ← on_payload (dequeue_many (size m));
  lift (assert (length payload_buf =? size m));;
  h ← lift (expect (header m));
  mret (h, payload_buf).

Definition peek : prog PacketBuffer Empty (H * list B) :=
  dequeue_padding;;
  ms ← map_err_prog no_error (zoom metadata_ring set_meta (get_allocated 0 1));
  match head ms with
  | Some m =>
    h ← lift (expect (header m));
    payload ← on_payload (get_allocated 0 (size m));
    mret (h, payload)
  | None => throw IsEmpty
  end.
End packets.
Arguments PacketMetadata : clear implicits.
Arguments PacketBuffer : clear implicits.
End Packets.
