(* ===== verification/PacketSpec.v ===== *)
(** * The packet buffer as a queue of packets

    [laid] ties the descriptions to the payload octets: every packet is a
    contiguous piece, and padding runs to the end of the storage. *)
From stdpp Require Import prelude list.
From S2P Require Import Prelude RingBuffer RingSpec PacketBuffer.
Open Scope nat_scope.

Module PacketSpec.
Import Ring RingSpec Packets.
Section spec.
Context {H B : Type}.
Implicit Types (pb : PacketBuffer H B) (ms : list (PacketMetadata H)) (bytes : list B).

(** The descriptions [ms] cut the octets [bytes], the first at position [p].
    A packet follows each padding, but for one at the end of the storage. *)
Fixpoint laid (cap p : nat) ms bytes : Prop :=
  match ms with
  | [] => bytes = []
  | m :: ms' =>
    size m <= length bytes /\ p + size m <= cap /\
    (is_padding m = true -> 0 < size m /\ match ms' with [] => p + size m = cap | m' :: _ => is_padding m' = false end) /\
    laid cap (wrap cap (p + size m)) ms' (drop (size m) bytes)
  end.
(** The packets, without the padding. *)
Fixpoint packets_of ms bytes : list (H * list B) :=
  match ms with
  | [] => []
  | m :: ms' =>
    match header m with
    | Some h => (h, take (size m) bytes) :: packets_of ms' (drop (size m) bytes)
    | None => packets_of ms' (drop (size m) bytes)
    end
  end.
Definition packets pb : list (H * list B) :=
  packets_of (contents (metadata_ring pb)) (contents (payload_ring pb)).
Definition pb_wf pb : Prop :=
  wf (metadata_ring pb) /\ wf (payload_ring pb) /\
  laid (payload_capacity pb) (read_at (payload_ring pb)) (contents (metadata_ring pb)) (contents (payload_ring pb)).

Lemma laid_end cap p ms bytes :
  laid cap p ms bytes -> p < cap \/ p = 0 ->
  forall m extra, size m = length extra -> length bytes + length extra <= cap ->
  wrap cap (p + length bytes) + size m <= cap ->
  (is_padding m = true -> 0 < size m /\ wrap cap (p + length bytes) + size m = cap) ->
  laid cap p (ms ++ [m]) (bytes ++ extra).
Proof.
  revert p bytes. induction ms as [|m0 ms IH]; intros p bytes Hl Hp m extra Hm Hlen Hfit Hpad.
  - cbn in Hl. subst bytes. cbn in *. rewrite Nat.add_0_r in *.
    assert (wrap cap p = p) as Hw by (unfold wrap; destruct (Nat.ltb_spec p cap); lia). rewrite Hw in *.
    split_and!; [lia|done|done|]. rewrite Hm. by rewrite drop_all.
  - cbn in Hl. destruct Hl as (Hs & Hf & Hpd & Hl). cbn [app laid]. split_and!; [rewrite length_app; lia|done| |].
    { intros Hp0. destruct (Hpd Hp0) as [Hpos Hn]. split; [done|]. destruct ms as [|m1 ms]; [|done]. cbn.
      apply not_true_is_false. intros Hp1. destruct (Hpad Hp1) as [_ Hend]. cbn in Hl.
      assert (length bytes = size m0) as Hb by (pose proof (length_drop bytes (size m0)) as Hd; rewrite Hl in Hd; cbn in Hd; lia).
      revert Hend. rewrite Hb, Hn. unfold wrap. rewrite Nat.ltb_irrefl. lia. }
    rewrite drop_app_le by done. apply IH; [done| |done|rewrite length_drop; lia|..].
    + unfold wrap. split_nbool; lia.
    + rewrite length_drop.
      replace (wrap cap (wrap cap (p + size m0) + (length bytes - size m0))) with (wrap cap (p + length bytes)); [done|].
      unfold wrap. split_nbool; lia.
    + rewrite length_drop.
      replace (wrap cap (wrap cap (p + size m0) + (length bytes - size m0))) with (wrap cap (p + length bytes)); [done|].
      unfold wrap. split_nbool; lia.
Qed.
Lemma packets_of_end cap p ms bytes m extra :
  laid cap p ms bytes -> size m = length extra ->
  packets_of (ms ++ [m]) (bytes ++ extra) =
    packets_of ms bytes ++ match header m with Some h => [(h, extra)] | None => [] end.
Proof.
  revert p bytes. induction ms as [|m0 ms IH]; intros p bytes Hl Hm.
  - cbn in Hl. subst bytes. cbn. rewrite Hm, firstn_all. by destruct (header m).
  - destruct Hl as (Hs & _ & _ & Hl). cbn [app packets_of]. rewrite drop_app_le, take_app_le by done.
    rewrite (IH _ _ Hl Hm). by destruct (header m0).
Qed.
Lemma laid_empty cap p p' ms : laid cap p ms [] -> p' <= cap -> laid cap p' ms [].
Proof.
  revert p p'. induction ms as [|m ms IH]; intros p p' Hl Hp; [done|]. cbn in *.
  destruct Hl as (Hs & Hf & Hpd & Hl). assert (size m = 0) as Hz by lia. rewrite Hz in *. cbn in *.
  split_and!; [lia|lia|intros Hm; destruct (Hpd Hm); lia|]. eapply IH; [done|]. unfold wrap. split_nbool; lia.
Qed.
(** Padding and a packet after descriptions of no octets. *)
Lemma laid_pair cap p ms c n h pad xs :
  laid cap p ms [] -> 0 < c -> length pad = c -> length xs = n -> c + n <= cap -> c < cap ->
  laid cap 0 (ms ++ [padding c; packet n h]) (pad ++ xs) /\
  packets_of (ms ++ [padding c; packet n h]) (pad ++ xs) = packets_of ms [] ++ [(h, xs)].
Proof.
  intros Hl Hc Hp Hx Hfit Hcap. revert p Hl. induction ms as [|m ms IH]; intros p Hl.
  - cbn. assert (drop c (pad ++ xs) = xs) as -> by (by apply drop_app_length').
    assert (wrap cap c = c) as -> by (unfold wrap; split_nbool; lia). rewrite length_app, <- Hx, drop_all, firstn_all.
    split; [|done]. split_and!; (done || lia).
  - cbn in Hl. destruct Hl as (Hs & _ & Hpd & Hl). assert (size m = 0) as Hz by lia. rewrite Hz in *. cbn [app laid packets_of]. rewrite Hz.
    cbn [drop] in *. destruct (IH _ Hl) as [H1 H2]. change (drop 0 (pad ++ xs)) with (pad ++ xs). change (drop 0 (@nil B)) with (@nil B).
    rewrite H2. split; [|by destruct (header m)]. cbn [Nat.add]. assert (wrap cap 0 = 0) as -> by (unfold wrap; split_nbool; lia).
    split_and!; [lia|lia| |done]. intros Hm. destruct (Hpd Hm); lia.
Qed.

Definition pb_holds pb (pb' : PacketBuffer H B) (q : list (H * list B)) : Prop :=
  pb_wf pb' /\ packet_capacity pb' = packet_capacity pb /\ payload_capacity pb' = payload_capacity pb /\ packets pb' = q.

Lemma on_payload_run {E A} (m : prog (RingBuffer B) Empty_set A) pb a r :
  m (payload_ring pb) = (Ok a, r) -> @on_payload H B E A m pb = (Ok a, set_payload r pb).
Proof. intros Hm. unfold on_payload, map_err_prog, zoom. by rewrite Hm. Qed.
Lemma on_meta_run {E A} (m : prog (RingBuffer (PacketMetadata H)) E A) pb r s :
  m (metadata_ring pb) = (r, s) -> @on_meta H B E A m pb = (r, set_meta s pb).
Proof. intros Hm. unfold on_meta, zoom. by rewrite Hm. Qed.

(** One description and its octets appended. *)
Lemma append_holds pb m extra (M' : RingBuffer (PacketMetadata H)) (P' : RingBuffer B) :
  pb_wf pb -> let P := payload_ring pb in
  holds (metadata_ring pb) M' (contents (metadata_ring pb) ++ [m]) -> holds P P' (contents P ++ extra) ->
  read_at P' = read_at (norm P) -> size m = length extra -> size m <= contig (norm P) ->
  (is_padding m = true -> rlen P <> 0 /\ 0 < size m /\
    wrap (capacity P) (read_at P + rlen P) + size m = capacity P) ->
  pb_holds pb (MkPacketBuffer M' P') (packets pb ++ match header m with Some h => [(h, extra)] | None => [] end).
Proof.
  intros (Hwm & Hwp & Hlaid) P (HwM' & HcM' & HqM') (HwP' & HcP' & HqP') HraP' Hsz Hsize Hpad.
  pose proof (contents_length P Hwp) as HlenP. pose proof (contig_fits (norm P) (norm_wf P Hwp)) as [Hf1 Hf2].
  pose proof (norm_facts P) as [HnL HnC]. rewrite HnL, HnC in *. pose proof Hwp as (_ & HL & Hr).
  assert (laid (capacity P) (read_at (norm P)) (contents (metadata_ring pb)) (contents P)) as Hlaid0.
  { rewrite norm_read_at. destruct (Nat.eqb_spec (rlen P) 0) as [Hz|]; [|done].
    assert (contents P = []) as He by (apply nil_length_inv; lia). unfold P in *. rewrite He in *.
    apply (laid_empty _ (read_at (payload_ring pb))); [done|lia]. }
  split_and!; [split_and!|..]; cbn [metadata_ring payload_ring]; try done.
  + unfold payload_capacity. cbn [payload_ring]. rewrite HcP', HqP', HqM', HraP'.
    apply (laid_end _ _ _ _ Hlaid0); [|done|rewrite <- Hsz; lia|rewrite HlenP; lia|].
    * pose proof (norm_wf P Hwp) as (_ & _ & Hr0). by rewrite HnC in Hr0.
    * intros Hp. destruct (Hpad Hp) as (Hnz & Hpos & Hend). split; [done|].
      rewrite norm_read_at, HlenP. by rewrite (proj2 (Nat.eqb_neq _ _) Hnz).
  + unfold packets. cbn [metadata_ring payload_ring]. rewrite HqM', HqP'. by eapply packets_of_end.
Qed.
Lemma push_spec pb m (fill : list B -> list B) :
  pb_wf pb -> free (metadata_ring pb) <> 0 -> (forall l, length (fill l) = length l) ->
  let P := payload_ring pb in
  size m <= contig (norm P) ->
  (is_padding m = true -> rlen P <> 0 /\ 0 < size m /\
    wrap (capacity P) (read_at P + rlen P) + size m = capacity P) ->
  exists xs pb1 pb', on_meta (enqueue_one m) pb = (Ok (), pb1) /\
    (forall E, @on_payload H B E _ (enqueue_many (size m) fill) pb1 = (Ok xs, pb')) /\ length xs = size m /\ (exists l, xs = fill l) /\
    pb_holds pb pb' (packets pb ++ match header m with Some h => [(h, xs)] | None => [] end) /\
    contents (metadata_ring pb') = contents (metadata_ring pb) ++ [m] /\ contents (payload_ring pb') = contents P ++ xs /\
    rlen (payload_ring pb') = rlen P + size m /\ read_at (payload_ring pb') = read_at (norm P).
Proof.
  intros Hwf Hfree Hfill P Hsize Hpad. pose proof Hwf as (Hwm & Hwp & _).
  destruct (enqueue_one_spec _ m Hwm Hfree) as (M' & HrM & HhM).
  destruct (enqueue_many_spec P (size m) fill Hwp Hfill) as (P' & xs & HrP & Hxs & HhP & Hxl & HlP' & HraP').
  rewrite Nat.min_l in * by done.
  exists xs, (set_meta M' pb), (MkPacketBuffer M' P'). split_and!; [by apply on_meta_run| |done|by eexists| |apply HhM|apply HhP|done|done].
  - intros E. by apply on_payload_run.
  - by apply append_holds.
Qed.

(** Padding was added because the octets do not fit at the end of the storage. *)
Record padded pb (n : nat) (pb' : PacketBuffer H B) : Prop := {
  pd_need : contig (payload_ring pb) < n <= free (payload_ring pb) - contig (payload_ring pb);
  pd_meta : contents (metadata_ring pb') = contents (metadata_ring pb) ++ [padding (contig (payload_ring pb))];
  pd_octets : exists pad, length pad = contig (payload_ring pb) /\
    contents (payload_ring pb') = contents (payload_ring pb) ++ pad }.
Lemma make_room_spec pb n :
  pb_wf pb -> free (metadata_ring pb) <> 0 -> (rlen (payload_ring pb) = 0 -> read_at (payload_ring pb) = 0) ->
  exists r pb', make_room n pb = (r, pb') /\ pb_holds pb pb' (packets pb) /\
    match r with
    | Ok _ => n <= contig (norm (payload_ring pb')) /\
        (rlen (payload_ring pb) = 0 -> pb' = pb) /\ (pb' = pb /\ n <= contig (payload_ring pb) \/ padded pb n pb')
    | Err _ => pb' = pb /\ (rlen (payload_ring pb) = 0 -> payload_capacity pb < n) /\
        ~ contig (payload_ring pb) < n <= free (payload_ring pb) - contig (payload_ring pb)
    | Panic => False
    end.
Proof.
  intros Hwf Hfree Hz. pose proof Hwf as (Hwm & Hwp & Hlaid). set (P := payload_ring pb) in *.
  assert (norm P = P) as Hnorm.
  { unfold norm. destruct (Nat.eqb_spec (rlen P) 0) as [H0|]; [|done]. unfold set_read_at. rewrite <- (Hz H0). by destruct P. }
  assert (pb_holds pb pb (packets pb)) as Hsame by done.
  pose proof (contig_fits P Hwp) as [Hf1 Hf2]. pose proof Hwp as (Hcap & HL & Hr).
  assert (contig P <= free P) as Hcf by (unfold contig; lia).
  assert (rlen P = 0 -> contig P = capacity P /\ free P = capacity P) as Hempty.
  { intros H0. unfold contig, free. rewrite H0, (Hz H0), Nat.add_0_r, Nat.sub_0_r. unfold wrap. split_nbool; lia. }
  destruct (Nat.ltb_spec (free P) n) as [Hw|Hw]; [|destruct (Nat.ltb_spec (contig P) n) as [Hc|Hc];
    [destruct (Nat.ltb_spec (free P - contig P) n) as [Hr2|Hr2]|]].
  - exists (Err IsFull), pb. split_and!; [|done|done| |].
    + apply wp_run. unfold make_room. wp_steps. fold P. rewrite window_ok by done. wp_steps. fold P.
      rewrite contiguous_window_ok by done. rewrite (proj2 (Nat.ltb_lt _ _) Hw). by wp_steps.
    + intros H0. destruct (Hempty H0). unfold payload_capacity. fold P. lia.
    + fold P. lia.
  - exists (Err IsFull), pb. split_and!; [|done|done| |].
    + apply wp_run. unfold make_room. wp_steps. fold P. rewrite window_ok by done. wp_steps. fold P.
      rewrite contiguous_window_ok by done. rewrite (proj2 (Nat.ltb_ge _ _) Hw), (proj2 (Nat.ltb_lt _ _) Hc). wp_steps.
      rewrite nsub_ok by lia. rewrite (proj2 (Nat.ltb_lt _ _) Hr2). by wp_steps.
    + intros H0. destruct (Hempty H0). lia.
    + fold P. lia.
  - assert (rlen P <> 0) as Hnz by (intros H0; destruct (Hempty H0); lia).
    assert (contig P = capacity P - wrap (capacity P) (read_at P + rlen P)) as Hce by (unfold contig, free in *; lia).
    destruct (push_spec pb (padding (contig P)) id Hwf Hfree) as
      (xs & pb1 & pb' & Hrun1 & Hrun2 & Hxs & _ & Hh & HqM & HqP & HlP & HrP); cbn [size header padding is_padding] in *.
    + done.
    + fold P. by rewrite Hnorm.
    + fold P. intros _. split_and!; [done| |lia]. rewrite Hce.
      assert (wrap (capacity P) (read_at P + rlen P) < capacity P) by (unfold wrap; split_nbool; lia). lia.
    + exists (Ok ()), pb'. rewrite app_nil_r in Hh. split_and!; [|done| |done|right; constructor; [by fold P|done|by exists xs]].
      * apply wp_run. unfold make_room. wp_steps. fold P. rewrite window_ok by done. wp_steps. fold P.
        rewrite contiguous_window_ok by done. rewrite (proj2 (Nat.ltb_ge _ _) Hw), (proj2 (Nat.ltb_lt _ _) Hc). wp_steps.
        rewrite nsub_ok by lia. rewrite (proj2 (Nat.ltb_ge _ _) Hr2). wp_step. wp_call Hrun1. wp_step. wp_call Hrun2.
        by wp_steps.
      * destruct Hh as (_ & _ & Hcp & _). unfold payload_capacity in Hcp. fold P in HlP, HrP, Hcp.
        rewrite contig_norm, norm_read_at, Hcp, HlP, HrP, Hnorm. fold P.
        rewrite (proj2 (Nat.eqb_neq _ _)) by lia. apply Nat.min_glb; [unfold free in *; lia|].
        replace (wrap (capacity P) (read_at P + (rlen P + contig P))) with 0; [unfold free in *; lia|].
        clear - Hce Hr HL Hw Hc Hr2 Hf2. revert Hce Hf2. unfold free, wrap in *. split_nbool; lia.
  - exists (Ok ()), pb. split_and!; [|done|by fold P; rewrite Hnorm|done|by left].
    apply wp_run. unfold make_room. wp_steps. fold P. rewrite window_ok by done. wp_steps. fold P.
    rewrite contiguous_window_ok by done. rewrite (proj2 (Nat.ltb_ge _ _) Hw), (proj2 (Nat.ltb_ge _ _) Hc). by wp_steps.
Qed.

(** What [enqueue] may leave. *)
Definition enqueue_post pb (n : nat) (h : H) (fill : list B -> list B) (r : outcome Full (list B)) (pb' : PacketBuffer H B) : Prop :=
  match r with
  | Ok xs => length xs = n /\ (exists l, xs = fill l) /\ pb_holds pb pb' (packets pb ++ [(h, xs)])
  | Err _ => pb_holds pb pb' (packets pb) /\
      (rlen (payload_ring pb) = 0 -> payload_capacity pb < n \/ free (metadata_ring pb) = 0)
  | Panic => False
  end.
Lemma clear_empty pb :
  pb_wf pb -> rlen (payload_ring pb) = 0 ->
  pb_holds pb (set_payload (MkRing (storage (payload_ring pb)) 0 0) pb) (packets pb).
Proof.
  intros (Hwm & Hwp & Hl) Hz. assert (contents (payload_ring pb) = []) as He.
  { apply nil_length_inv. by rewrite contents_length. }
  unfold pb_holds, pb_wf, packets, payload_capacity in *. cbn [set_payload metadata_ring payload_ring read_at].
  change (contents (MkRing (storage (payload_ring pb)) 0 0)) with (@nil B). rewrite He in *.
  split_and!; try done.
  - split_and!; [apply Hwp|cbn; lia|by right].
  - apply (laid_empty _ _ _ _ Hl). lia.
Qed.
Lemma too_big_run pb n :
  wf (metadata_ring pb) ->
  too_big n pb = (Ok ((payload_capacity pb <? n) || (free (metadata_ring pb) =? 0)), pb).
Proof.
  intros Hwf. apply wp_run. unfold too_big, pb_is_full, is_full. wp_steps. destruct (payload_capacity pb <? n); [by wp_steps|].
  wp_steps. rewrite window_ok by done. done.
Qed.
Lemma pb_holds_trans pb pb1 pb2 q1 q2 : pb_holds pb pb1 q1 -> pb_holds pb1 pb2 q2 -> pb_holds pb pb2 q2.
Proof. intros (_ & ? & ? & _) (? & ? & ? & ?). split_and!; congruence || done. Qed.
Lemma enqueue_spec pb n h fill :
  pb_wf pb -> (forall l, length (fill l) = length l) ->
  enqueue_post pb n h fill (enqueue n h fill pb).1 (enqueue n h fill pb).2.
Proof.
  intros Hwf Hfill. pose proof Hwf as (Hwm & Hwp & _).
  change (wp (enqueue n h fill) pb (enqueue_post pb n h fill)). unfold enqueue. wp_step.
  wp_call (too_big_run pb n Hwm).
  destruct (Nat.ltb_spec (payload_capacity pb) n) as [Hbig|Hfit]; cbn [orb].
  { wp_steps. split; [done|]. by left. }
  destruct (Nat.eqb_spec (free (metadata_ring pb)) 0) as [Hnf|Hfree].
  { wp_steps. split; [done|]. by right. }
  wp_steps. set (pb0 := if is_empty (payload_ring pb) then set_payload (MkRing (storage (payload_ring pb)) 0 0) pb else pb).
  eapply (wp_eq _ _ (Ok ()) pb0); [by unfold pb0; destruct (is_empty (payload_ring pb))|].
  assert (pb_holds pb pb0 (packets pb) /\ rlen (payload_ring pb0) = rlen (payload_ring pb) /\
    (rlen (payload_ring pb0) = 0 -> read_at (payload_ring pb0) = 0) /\ metadata_ring pb0 = metadata_ring pb) as (Hh0 & Hl0 & Hz0 & Hm0).
  { unfold pb0, is_empty, len. destruct (Nat.eqb_spec (rlen (payload_ring pb)) 0) as [Hz|Hz]; [|by split_and!].
    split_and!; [by apply clear_empty|done|done|done]. }
  clearbody pb0. pose proof Hh0 as (Hwf0 & Hcm0 & Hcp0 & Hq0).
  destruct (make_room_spec pb0 n Hwf0 ltac:(by rewrite Hm0) Hz0) as (r & pb1 & Hrun & Hh1 & Hr). wp_step. rewrite Hq0 in Hh1.
  pose proof (pb_holds_trans _ _ _ _ _ Hh0 Hh1) as Hh. destruct r as [[]|[]|]; [| |done].
  - destruct Hr as (Hcont & Hsame & _). wp_call Hrun. destruct Hh1 as (Hwf1 & _ & _ & Hq1).
    destruct (Nat.eq_dec (free (metadata_ring pb1)) 0) as [Hnf|Hf1].
    + wp_step. eapply wp_eq; [apply on_meta_run, enqueue_one_refused; [apply Hwf1|done]|]. cbv beta iota.
      replace (set_meta (metadata_ring pb1) pb1) with pb1 by (by destruct pb1). split; [done|].
      intros Hz. right. rewrite <- Hl0 in Hz. rewrite (Hsame Hz), Hm0 in Hnf. done.
    + destruct (push_spec pb1 (packet n h) fill Hwf1 Hf1 Hfill) as (xs & pb2 & pb' & Hrun1 & Hrun2 & Hxs & Hl & Hh2 & _); [done..|].
      wp_step. wp_call Hrun1. wp_step. wp_call Hrun2. cbn [size packet] in Hxs. wp_steps.
      rewrite assert_ok by (by apply Nat.eqb_eq). wp_steps. split_and!; [done..|]. rewrite Hq1 in Hh2.
      by eapply pb_holds_trans.
  - destruct Hr as (-> & Hc & _). wp_call Hrun. split; [done|]. intros Hz. left. rewrite <- Hcp0. apply Hc. lia.
Qed.

(** ** Packets whose size is known once they are written *)

(** A callback that uses part of the slice it is given. *)
Definition fills (f : list B -> nat * list B) : Prop := forall l, (f l).1 <= length l /\ length (f l).2 = length l.
Lemma enqueue_some_spec (P : RingBuffer B) max f :
  wf P -> max <= contig (norm P) -> fills f ->
  exists P' l, length l = max /\
    enqueue_many_with (fun data => let '(n, xs) := f (take max data) in (n, (), xs ++ drop max data)) P = (Ok ((f l).1, ()), P') /\
    holds P P' (contents P ++ take (f l).1 (f l).2) /\ read_at P' = read_at (norm P).
Proof.
  intros Hwf Hmax Hf. pose proof (norm_wf P Hwf) as Hwf0. pose proof (norm_facts P) as [Hl0 Hc0].
  pose proof (contig_fits _ Hwf0) as Hfit. rewrite Hl0 in Hfit. set (c := contig (norm P)) in *.
  set (buf := slice (rlen P) c (unrolled (norm P))).
  assert (length buf = c) as Hbuf by (apply slice_length; rewrite unrolled_length by done; apply Hfit).
  set (l := take max buf). assert (length l = max) as Hl by (unfold l; rewrite length_take; lia).
  destruct (Hf l) as [Hn Hx]. rewrite Hl in *. set (xs := (f l).2 ++ drop max buf).
  assert (length xs = c) as Hlen by (unfold xs; rewrite length_app, length_drop; lia).
  exists (put (norm P) (rlen P) xs (rlen P + (f l).1)), l. split_and!; [done| |split_and!|done].
  - apply (enqueue_many_run P _ _ () xs Hwf); [|done|fold c; lia]. fold c buf l. unfold xs. by destruct (f l).
  - apply put_wf; [done|by rewrite Hlen|]. destruct Hfit. lia.
  - rewrite put_capacity; [done|by rewrite Hlen].
  - rewrite <- Hl0 in *. rewrite put_contents; [|done|by rewrite Hlen|lia]. rewrite norm_contents. f_equal.
    unfold xs. by rewrite take_app_le by lia.
Qed.

(** The end of [enqueue_with_infallible]: the octets are written first. *)
Definition write_packet (max_size : nat) (h : H) (f : list B -> nat * list B) : prog (PacketBuffer H B) Full nat :=
  room ← inspect (fun pb => contiguous_window
    (if rlen (payload_ring pb) =? 0 then set_read_at 0 (payload_ring pb) else payload_ring pb));
  lift (assert (max_size <=? room));;
  '(n, _) ← on_payload (enqueue_many_with (fun data =>
    let '(n, xs) := f (take max_size data) in (n, (), xs ++ drop max_size data)));
  on_meta (enqueue_one (packet n h));;
  mret n.
Lemma write_packet_run pb max h f :
  wf (metadata_ring pb) -> wf (payload_ring pb) -> max <= contig (norm (payload_ring pb)) -> fills f ->
  exists l P', length l = max /\ holds (payload_ring pb) P' (contents (payload_ring pb) ++ take (f l).1 (f l).2) /\
    read_at P' = read_at (norm (payload_ring pb)) /\
    (free (metadata_ring pb) = 0 /\ write_packet max h f pb = (Err IsFull, MkPacketBuffer (metadata_ring pb) P') \/
     free (metadata_ring pb) <> 0 /\ exists M', holds (metadata_ring pb) M' (contents (metadata_ring pb) ++ [packet (f l).1 h]) /\
       write_packet max h f pb = (Ok (f l).1, MkPacketBuffer M' P')).
Proof.
  intros Hwm Hwp Hcont Hf. destruct (enqueue_some_spec (payload_ring pb) max f Hwp Hcont Hf) as (P' & l & Hl & HrP & HhP & HraP).
  exists l, P'. split_and!; [done..|].
  assert (forall r pb', (on_meta (enqueue_one (packet (f l).1 h)) (set_payload P' pb)) = (r, pb') ->
    write_packet max h f pb = (match r with Ok _ => Ok (f l).1 | Err e => Err e | Panic => Panic end, pb')) as Hgo.
  { intros r pb' Hm. apply wp_run. unfold write_packet. wp_steps.
    change (if rlen (payload_ring pb) =? 0 then set_read_at 0 (payload_ring pb) else payload_ring pb) with (norm (payload_ring pb)).
    rewrite contiguous_window_ok by (by apply norm_wf). wp_steps. rewrite assert_ok by (by apply Nat.leb_le). wp_steps.
    eapply wp_eq; [apply on_payload_run; exact HrP|]. cbv beta iota. wp_step. eapply wp_eq; [exact Hm|]. destruct r; by wp_steps. }
  destruct (Nat.eq_dec (free (metadata_ring pb)) 0) as [Hnf|Hfree]; [left|right].
  - split; [done|]. eapply (Hgo (Err IsFull)). by apply on_meta_run, enqueue_one_refused.
  - destruct (enqueue_one_spec (metadata_ring pb) (packet (f l).1 h) Hwm Hfree) as (M' & HrM & HhM). split; [done|]. exists M'. split; [done|].
    eapply (Hgo (Ok ())). by apply on_meta_run.
Qed.

(** A refused packet has left its octets behind: padding took the last
    description slot, and no description covers what was written after it. *)
Definition last_padded pb (max : nat) : Prop :=
  free (metadata_ring pb) = 1 /\
  contig (payload_ring pb) < max <= free (payload_ring pb) - contig (payload_ring pb).
Record leaked pb (max : nat) (f : list B -> nat * list B) (pb' : PacketBuffer H B) : Prop := {
  lk_last : last_padded pb max;
  lk_meta : contents (metadata_ring pb') = contents (metadata_ring pb) ++ [padding (contig (payload_ring pb))];
  lk_octets : exists pad l, length pad = contig (payload_ring pb) /\ length l = max /\
    contents (payload_ring pb') = contents (payload_ring pb) ++ pad ++ take (f l).1 (f l).2 }.
Definition infallible_post pb (max : nat) (h : H) (f : list B -> nat * list B) (r : outcome Full nat) (pb' : PacketBuffer H B) : Prop :=
  match r with
  | Ok n => ~ last_padded pb max /\
      exists l, length l = max /\ n = (f l).1 /\ pb_holds pb pb' (packets pb ++ [(h, take n (f l).2)])
  | Err _ => pb' = pb /\ ~ last_padded pb max \/ leaked pb max f pb'
  | Panic => False
  end.
Lemma padded_free pb pb1 n :
  wf (metadata_ring pb) -> wf (metadata_ring pb1) -> packet_capacity pb1 = packet_capacity pb -> padded pb n pb1 ->
  free (metadata_ring pb) = free (metadata_ring pb1) + 1.
Proof.
  intros Hwm Hwm1 Hcm [_ Hm _]. pose proof (contents_length _ Hwm) as H1. pose proof (contents_length _ Hwm1) as H2.
  rewrite Hm, length_app in H2. cbn in H2. destruct Hwm1 as (_ & Hle & _). unfold packet_capacity in Hcm. unfold free in *. lia.
Qed.
Lemma padded_leaked pb pb1 max f l P' :
  wf (metadata_ring pb) -> wf (metadata_ring pb1) -> packet_capacity pb1 = packet_capacity pb ->
  padded pb max pb1 -> free (metadata_ring pb1) = 0 -> length l = max ->
  holds (payload_ring pb1) P' (contents (payload_ring pb1) ++ take (f l).1 (f l).2) ->
  leaked pb max f (MkPacketBuffer (metadata_ring pb1) P').
Proof.
  intros Hwm Hwm1 Hcm Hpad Hnf Hl (_ & _ & HqP). pose proof (padded_free _ _ _ Hwm Hwm1 Hcm Hpad) as Hfr.
  destruct Hpad as [Hneed Hm (pad & Hp & Hq)]. constructor; [split; [lia|done]|done|].
  exists pad, l. split_and!; [done|done|]. cbn. by rewrite HqP, Hq, <- app_assoc.
Qed.
(** Writing the packet once there is room at the end of the storage or past its padding *)
Lemma fill_room_spec pb pb1 max h f :
  pb_wf pb -> fills f -> pb_holds pb pb1 (packets pb) -> max <= contig (norm (payload_ring pb1)) ->
  pb1 = pb /\ max <= contig (payload_ring pb) /\ free (metadata_ring pb) <> 0 \/ padded pb max pb1 ->
  wp (write_packet max h f) pb1 (infallible_post pb max h f).
Proof.
  intros (Hwm & _) Hf Hh1 Hcont Hpad. pose proof Hh1 as ((Hwm1 & Hwp1 & _) & Hcm & _ & Hq1).
  destruct (write_packet_run pb1 max h f Hwm1 Hwp1 Hcont Hf) as (l & P' & Hl & HhP & HraP & [[Hnf Hrun]|(Hf1 & M' & HhM & Hrun)]);
    (eapply wp_eq; [exact Hrun|]).
  - right. destruct Hpad as [(-> & _ & ?)|Hpad]; [done|]. by eapply padded_leaked.
  - split. { intros [Hone Hneed]. destruct Hpad as [(-> & ? & _)|Hpad]; [lia|]. pose proof (padded_free _ _ _ Hwm Hwm1 Hcm Hpad). lia. }
    exists l. split_and!; [done|done|]. rewrite <- Hq1. eapply pb_holds_trans; [exact Hh1|]. destruct (Hf l) as [Hn Hx].
    apply (append_holds pb1 (packet (f l).1 h) (take (f l).1 (f l).2) M' P'); try done; cbn [size packet]; [apply Hh1|rewrite length_take; lia|lia].
Qed.
(** An empty ring that was not cleared: room is made past padding at its start. *)
Lemma rotated_room pb n :
  pb_wf pb -> free (metadata_ring pb) <> 0 -> rlen (payload_ring pb) = 0 -> read_at (payload_ring pb) <> 0 -> n <= payload_capacity pb ->
  make_room n pb = (Ok (), pb) /\ n <= contig (norm (payload_ring pb)) /\ n <= contig (payload_ring pb) \/
  make_room n pb = (Err IsFull, pb) /\ ~ contig (payload_ring pb) < n <= free (payload_ring pb) - contig (payload_ring pb) \/
  exists pb1 pad, make_room n pb = (Ok (), pb1) /\ padded pb n pb1 /\ packet_capacity pb1 = packet_capacity pb /\
    payload_capacity pb1 = payload_capacity pb /\ wf (metadata_ring pb1) /\ wf (payload_ring pb1) /\
    0 < length pad < payload_capacity pb /\ contents (payload_ring pb1) = pad /\ length pad = contig (payload_ring pb) /\
    n <= contig (norm (payload_ring pb1)) /\ read_at (norm (payload_ring pb1)) = 0.
Proof.
  intros (Hwm & Hwp & _) Hfree Hz Hnz Hfit. unfold payload_capacity in *. set (P := payload_ring pb) in *. pose proof Hwp as (_ & _ & Hr).
  assert (contig P = capacity P - read_at P) as Hc.
  { unfold contig, free. rewrite Hz, Nat.add_0_r. unfold wrap. split_nbool; lia. }
  assert (free P = capacity P) as Hfr by (unfold free; lia).
  assert (forall P0 : RingBuffer B, rlen P0 = 0 -> contig (norm P0) = capacity P0) as Hn.
  { intros P0 H0. rewrite contig_norm, norm_read_at, H0. unfold free, wrap. rewrite ?H0. split_nbool; lia. }
  destruct (Nat.ltb_spec (contig P) n) as [Hlt|Hge].
  2: { left. split_and!; [|rewrite Hn by done; lia|done]. apply wp_run. unfold make_room. wp_steps. fold P. rewrite window_ok by done. wp_steps. fold P.
       rewrite contiguous_window_ok by done. rewrite (proj2 (Nat.ltb_ge (free P) n)), (proj2 (Nat.ltb_ge (contig P) n)) by lia. by wp_steps. }
  destruct (Nat.ltb_spec (free P - contig P) n) as [Hlt2|Hge2]; right; [left|right].
  { split; [|fold P; lia]. apply wp_run. unfold make_room. wp_steps. fold P. rewrite window_ok by done. wp_steps. fold P.
    rewrite contiguous_window_ok by done. rewrite (proj2 (Nat.ltb_ge (free P) n)), (proj2 (Nat.ltb_lt (contig P) n)) by lia. wp_steps.
    rewrite nsub_ok by lia. rewrite (proj2 (Nat.ltb_lt _ _) Hlt2). by wp_steps. }
  destruct (enqueue_one_spec _ (padding (contig P)) Hwm Hfree) as (M' & HrM & HwM & HcM & HqM).
  destruct (enqueue_many_spec P (contig P) id Hwp (fun l => eq_refl)) as (P' & pad & HrP & Hpl & (HwP & HcP & HqP) & _ & HlP & HraP).
  rewrite Hn, Nat.min_l in * by (done || lia).
  assert (contents P = []) as He by (apply nil_length_inv; by rewrite contents_length). rewrite He in HqP.
  assert (read_at P' = 0) as Hra by (rewrite HraP, norm_read_at, Hz; done).
  exists (MkPacketBuffer M' P'), pad. cbn [metadata_ring payload_ring packet_capacity payload_capacity]. split_and!; try done; try lia.
  - apply wp_run. unfold make_room. wp_steps. fold P. rewrite window_ok by done. wp_steps. fold P.
    rewrite contiguous_window_ok by done. rewrite (proj2 (Nat.ltb_ge (free P) n)), (proj2 (Nat.ltb_lt (contig P) n)) by lia. wp_steps.
    rewrite nsub_ok by lia. rewrite (proj2 (Nat.ltb_ge _ _) Hge2). wp_step. eapply wp_eq; [by apply on_meta_run, HrM|]. cbv beta iota. wp_step.
    eapply wp_eq; [by apply on_payload_run|]. by wp_steps.
  - constructor; [by fold P; lia|done|]. exists pad. split; [done|]. cbn. fold P. by rewrite He.
  - rewrite contig_norm, norm_read_at, Hra, HlP, Hz, HcP. cbn [Nat.add]. rewrite (proj2 (Nat.eqb_neq _ _)) by lia. cbn [Nat.add].
    unfold wrap. split_nbool; lia.
  - rewrite norm_read_at, Hra. by destruct (_ =? 0).
Qed.
Lemma enqueue_with_infallible_spec pb max h f :
  pb_wf pb -> fills f ->
  infallible_post pb max h f (enqueue_with_infallible max h f pb).1 (enqueue_with_infallible max h f pb).2.
Proof.
  intros Hwf Hf. pose proof Hwf as (Hwm & Hwp & Hlaid).
  change (wp (enqueue_with_infallible max h f) pb (infallible_post pb max h f)). unfold enqueue_with_infallible. wp_step.
  wp_call (too_big_run pb max Hwm).
  destruct (Nat.ltb_spec (payload_capacity pb) max) as [Hbig|Hfit]; cbn [orb].
  { wp_steps. left. split; [done|]. intros [_ [_ Hle]]. unfold free, payload_capacity in *. lia. }
  destruct (Nat.eqb_spec (free (metadata_ring pb)) 0) as [Hnf|Hfree].
  { wp_steps. left. split; [done|]. intros [Hone _]. lia. }
  wp_step. fold (write_packet max h f).
  assert ((rlen (payload_ring pb) = 0 -> read_at (payload_ring pb) = 0) \/
    rlen (payload_ring pb) = 0 /\ read_at (payload_ring pb) <> 0) as [Hz|[Hz Hnz]] by lia.
  { destruct (make_room_spec pb max Hwf Hfree Hz) as (r & pb1 & Hrun & Hh1 & Hr). destruct r as [[]|[]|]; [| |done].
    - destruct Hr as (Hcont & _ & Hpad). wp_call Hrun. apply fill_room_spec; try done. destruct Hpad as [[-> ?]|?]; auto.
    - destruct Hr as (-> & _ & Hno). wp_call Hrun. left. split; [done|]. by intros [_ ?]. }
  destruct (rotated_room pb max Hwf Hfree Hz Hnz Hfit) as [(Hrun & Hcont & Hc)|[[Hrun Hno]|
    (pb1 & pad & Hrun & Hpad & Hcm & Hcp & Hwm1 & Hwp1 & Hpl & Hq1 & Hpc & Hcont & Hra)]]; wp_call Hrun.
  { apply fill_room_spec; auto. done. } { left. split; [done|]. by intros [_ ?]. }
  destruct (write_packet_run pb1 max h f Hwm1 Hwp1 Hcont Hf) as (l & P' & Hl & HhP & HraP & [[Hnf Hrun']|(Hf1 & M' & HhM & Hrun')]);
    (eapply wp_eq; [exact Hrun'|]); [right; by eapply padded_leaked|].
  split. { intros [Hone _]. pose proof (padded_free _ _ _ Hwm Hwm1 Hcm Hpad). lia. }
  exists l. split_and!; [done|done|].
  assert (contents (payload_ring pb) = []) as He by (apply nil_length_inv; by rewrite contents_length).
  destruct Hpad as [Hneed Hm _], (Hf l) as [Hn Hx]. rewrite He in Hlaid. unfold packets. rewrite He.
  destruct HhM as (HwM & HcM & HqM), HhP as (HwP & HcP & HqP). rewrite Hq1 in HqP. rewrite Hm, <- app_assoc in HqM. cbn [app] in HqM.
  unfold packet_capacity, payload_capacity in *.
  destruct (laid_pair (capacity (payload_ring pb)) _ _ (contig (payload_ring pb)) (f l).1 h pad (take (f l).1 (f l).2) Hlaid) as [H1 H2];
    [lia|done|rewrite length_take; lia|unfold free in Hneed; lia|lia|].
  split_and!; [split_and!|..]; unfold payload_capacity, packet_capacity; cbn [metadata_ring payload_ring]; try congruence; try done.
  unfold packets. cbn [metadata_ring payload_ring]. by rewrite HqM, HqP.
Qed.

(** Removing the padding at the front changes no packet, and a packet or
    nothing comes first afterwards. *)
Lemma dequeue_padding_spec pb :
  pb_wf pb ->
  exists pb', (forall E, @dequeue_padding H B E pb = (Ok (), pb')) /\ pb_holds pb pb' (packets pb) /\
    match contents (metadata_ring pb') with [] => True | m :: _ => is_padding m = false end.
Proof.
  intros Hwf. pose proof Hwf as (Hwm & Hwp & Hlaid). set (f := fun m : PacketMetadata H => if is_padding m then (inl (size m), m) else (inr (), m)).
  destruct (contents (metadata_ring pb)) as [|m ms] eqn:Hms.
  - exists pb. split_and!; [|done|by rewrite Hms]. intros E. apply wp_run. unfold dequeue_padding. wp_steps.
    eapply wp_eq; [apply on_meta_run, dequeue_one_empty; by rewrite <- (contents_length _ Hwm), Hms|]. cbv beta iota. wp_steps.
    by destruct pb.
  - pose proof (dequeue_one_with_spec (metadata_ring pb) f m ms Hwm Hms) as Hd. unfold f in Hd at 1.
    destruct (is_padding m) eqn:Hp.
    + destruct Hd as (M' & HrM & HwM' & HcM' & HqM'). destruct Hlaid as (Hs & Hf & Hpd & Hlaid).
      rewrite contents_length in Hs by done. unfold payload_capacity in *.
      destruct (dequeue_many_spec (payload_ring pb) (size m) Hwp) as (P' & HrP & (HwP' & HcP' & HqP') & HlP' & HraP').
      rewrite Nat.min_l in * by (unfold front_len; lia).
      exists (MkPacketBuffer M' P'). split_and!.
      * intros E. apply wp_run. unfold dequeue_padding. wp_steps. eapply wp_eq; [by apply on_meta_run, HrM|]. cbv beta iota. wp_steps.
        eapply wp_eq; [by apply on_payload_run|]. by wp_steps.
      * split_and!; [split_and!|..]; cbn [metadata_ring payload_ring]; try done.
        -- unfold payload_capacity. cbn [payload_ring]. by rewrite HcP', HqM', HqP', HraP'.
        -- unfold packets. cbn [metadata_ring payload_ring]. rewrite HqM', HqP', Hms. cbn [packets_of].
           unfold is_padding in Hp. by destruct (header m).
      * cbn [metadata_ring]. rewrite HqM'. destruct ms as [|m' ms]; [done|].
        by apply Hpd.
    + destruct Hd as (M' & HrM & HwM' & HcM' & HqM'). exists (set_meta M' pb). split_and!.
      * intros E. apply wp_run. unfold dequeue_padding. wp_steps. eapply wp_eq; [by apply on_meta_run, HrM|]. cbv beta iota. by wp_steps.
      * split_and!; [split_and!|..]; cbn [set_meta metadata_ring payload_ring]; try done.
        -- rewrite HqM'. done.
        -- unfold packets. cbn [set_meta metadata_ring payload_ring]. by rewrite HqM', Hms.
      * cbn [set_meta metadata_ring]. by rewrite HqM'.
Qed.

(** The front of a buffer whose first description is a packet. *)
Lemma front_packet pb m ms :
  pb_wf pb -> contents (metadata_ring pb) = m :: ms -> is_padding m = false ->
  let P := payload_ring pb in
  exists h, header m = Some h /\ size m <= front_len P /\
    packets pb = (h, take (size m) (contents P)) :: packets_of ms (drop (size m) (contents P)) /\
    laid (capacity P) (wrap (capacity P) (read_at P + size m)) ms (drop (size m) (contents P)).
Proof.
  intros (Hwm & Hwp & Hlaid) Hms Hp P. rewrite Hms in Hlaid. destruct Hlaid as (Hs & Hf & _ & Hl).
  unfold is_padding in Hp. destruct (header m) as [h|] eqn:Hh; [|done]. exists h. split_and!; [done| | |done].
  - rewrite contents_length in Hs by done. unfold payload_capacity in Hf. unfold P, front_len. lia.
  - unfold packets. rewrite Hms. cbn [packets_of]. by rewrite Hh.
Qed.
Lemma no_packets pb : contents (metadata_ring pb) = [] -> packets pb = [].
Proof. intros Hm. unfold packets. by rewrite Hm. Qed.

Definition pop_post pb (r : outcome RingBuffer.Empty (H * list B)) (pb' : PacketBuffer H B) : Prop :=
  match packets pb with
  | [] => r = Err IsEmpty /\ pb_holds pb pb' []
  | p :: q => r = Ok p /\ pb_holds pb pb' q
  end.
Lemma dequeue_spec pb : pb_wf pb -> pop_post pb (dequeue pb).1 (dequeue pb).2.
Proof.
  intros Hwf0. change (wp dequeue pb (pop_post pb)). unfold dequeue. wp_step.
  destruct (dequeue_padding_spec pb Hwf0) as (pb1 & Hrun & Hh & Hfront). wp_call Hrun.
  pose proof Hh as (Hwf & Hcm & Hcp & Hq). pose proof Hwf as (Hwm & Hwp & _). unfold pop_post. rewrite <- Hq in *.
  destruct (contents (metadata_ring pb1)) as [|m ms] eqn:Hms.
  - wp_step. eapply wp_eq.
    { apply on_meta_run. unfold dequeue_one. apply wp_run. wp_step. wp_call (dequeue_one_empty (E := Empty_set) (R := PacketMetadata H) (metadata_ring pb1) (fun x => (inl x, MkMeta (size x) None))); [|done].
      by rewrite <- (contents_length _ Hwm), Hms. }
    cbv beta iota. rewrite no_packets in * by done. split; [done|]. by destruct pb1.
  - destruct (front_packet pb1 m ms Hwf Hms Hfront) as (h & Hhd & Hs & Hpk & Hlaid).
    destruct (dequeue_one_spec (metadata_ring pb1) (fun m => MkMeta (size m) None) m ms Hwm Hms) as (M' & HrM & HwM' & HcM' & HqM').
    destruct (dequeue_many_spec (payload_ring pb1) (size m) Hwp) as (P' & HrP & (HwP' & HcP' & HqP') & HlP' & HraP').
    rewrite Nat.min_l in * by done. rewrite Hpk. wp_step. eapply wp_eq; [by apply on_meta_run|]. cbv beta iota.
    wp_step. eapply wp_eq; [by apply on_payload_run|]. cbv beta iota. wp_steps.
    rewrite assert_ok.
    2:{ apply Nat.eqb_eq. rewrite length_take, contents_length by done. unfold front_len in Hs. lia. }
    wp_steps. rewrite Hhd. cbn [expect]. wp_steps. split; [done|].
    split_and!; [split_and!|..]; cbn [set_payload set_meta metadata_ring payload_ring]; try done.
    + unfold payload_capacity. cbn [set_payload set_meta payload_ring]. by rewrite HcP', HqM', HqP', HraP'.
    + unfold packet_capacity in *. cbn. congruence.
    + unfold payload_capacity in *. cbn. congruence.
    + unfold packets. cbn [set_payload set_meta metadata_ring payload_ring]. by rewrite HqM', HqP'.
Qed.

Definition peek_post pb (r : outcome RingBuffer.Empty (H * list B)) (pb' : PacketBuffer H B) : Prop :=
  pb_holds pb pb' (packets pb) /\ r = match packets pb with [] => Err IsEmpty | p :: _ => Ok p end.
Lemma peek_spec pb : pb_wf pb -> peek_post pb (peek pb).1 (peek pb).2.
Proof.
  intros Hwf0. change (wp peek pb (peek_post pb)). unfold peek. wp_step.
  destruct (dequeue_padding_spec pb Hwf0) as (pb1 & Hrun & Hh & Hfront). wp_call Hrun.
  pose proof Hh as (Hwf & Hcm & Hcp & Hq). pose proof Hwf as (Hwm & Hwp & _). unfold peek_post. rewrite <- Hq in *.
  assert (set_meta (metadata_ring pb1) pb1 = pb1) as Hsm by (by destruct pb1).
  destruct (get_allocated_run (metadata_ring pb1) 0 1 Hwm ltac:(lia)) as (Hget & Hm & Hlen).
  pose proof (contents_length _ Hwm) as HlM. wp_steps. eapply wp_eq; [exact Hget|]. cbv beta iota. rewrite Hsm.
  destruct (contents (metadata_ring pb1)) as [|m ms] eqn:Hms.
  - cbn in HlM. rewrite <- HlM in *. cbn. wp_step. rewrite no_packets in * by done. done.
  - destruct (front_packet pb1 m ms Hwf Hms Hfront) as (h & Hhd & Hs & Hpk & _). cbn in HlM.
    assert (piece (metadata_ring pb1) 0 (1 `min` (rlen (metadata_ring pb1) - 0)) = 1) as ->.
    { unfold piece. rewrite wrap_here by done. destruct Hwm as (_ & ? & ?). lia. }
    unfold slice. cbn [drop take head map_err]. rewrite Hhd. cbn [expect]. wp_steps.
    destruct (get_allocated_run (payload_ring pb1) 0 (size m) Hwp ltac:(lia)) as (Hgp & _ & _).
    eapply wp_eq; [by apply on_payload_run|]. cbv beta iota. wp_steps.
    replace (set_payload (payload_ring pb1) pb1) with pb1 by (by destruct pb1). split; [done|]. rewrite Hpk.
    do 2 f_equal. unfold slice, piece. cbn [drop]. f_equal. rewrite wrap_here by done. unfold front_len in Hs. lia.
Qed.

(** [dequeue_with]: the packet leaves the buffer when [f] succeeds, and stays,
    with what [f] made of it, when [f] fails. *)
Definition dequeue_with_post {R E} pb (f : H -> list B -> (R + E) * H * list B) (r : outcome RingBuffer.Empty (R + E)) (pb' : PacketBuffer H B) : Prop :=
  match packets pb with
  | [] => r = Err IsEmpty /\ pb_holds pb pb' []
  | (h, b) :: q => let '(res, h', b') := f h b in
    r = Ok res /\ pb_holds pb pb' match res with inl _ => q | inr _ => (h', b') :: q end
  end.
Lemma dequeue_with_spec {R E} pb (f : H -> list B -> (R + E) * H * list B) :
  pb_wf pb -> (forall h b, length (f h b).2 = length b) ->
  dequeue_with_post pb f (dequeue_with f pb).1 (dequeue_with f pb).2.
Proof.
  intros Hwf0 Hlenf. change (wp (dequeue_with f) pb (dequeue_with_post pb f)). unfold dequeue_with. wp_step.
  destruct (dequeue_padding_spec pb Hwf0) as (pb1 & Hrun & Hh & Hfront). wp_call Hrun.
  pose proof Hh as (Hwf & Hcm & Hcp & Hq). pose proof Hwf as (Hwm & Hwp & _). unfold dequeue_with_post. rewrite <- Hq in *.
  pose proof (contents_length _ Hwm) as HlM. wp_steps. unfold pb_is_empty, is_empty, len.
  destruct (contents (metadata_ring pb1)) as [|m ms] eqn:Hms; cbn in HlM; rewrite <- HlM; cbn [Nat.eqb].
  { wp_step. rewrite no_packets in * by done. done. }
  destruct (front_packet pb1 m ms Hwf Hms Hfront) as (h & Hhd & Hs & Hpk & Hlaid). rewrite Hpk.
  set (P := payload_ring pb1) in *. set (b := take (size m) (contents P)).
  assert (length b = size m) as Hb by (unfold b; rewrite length_take, contents_length by done; unfold front_len in Hs; lia).
  specialize (Hlenf h b). destruct (f h b) as [[res h'] b'] eqn:Hf. cbn [snd] in Hlenf.
  assert (storage (metadata_ring pb1) !! read_at (metadata_ring pb1) = Some m) as Hhead.
  { assert (contents (metadata_ring pb1) !! 0 = Some m) as Hm0 by (by rewrite Hms). unfold contents in Hm0.
    rewrite lookup_take_lt in Hm0 by lia. unfold unrolled in Hm0. pose proof Hwm as (_ & ? & ?). unfold capacity in *.
    rewrite unroll_lookup in Hm0 by lia. fold (capacity (metadata_ring pb1)) in Hm0. by rewrite wrap_here in Hm0. }
  wp_steps. rewrite Hhead. cbn [expect]. wp_steps. unfold payload_capacity. fold P. pose proof Hwp as (HcapP & HLP & HrP).
  rewrite nsub_ok by lia. cbn [mbind outcome_bind]. rewrite assert_ok by (apply Nat.leb_le, Hs). wp_steps.
  rewrite Hhd. cbn [expect]. wp_steps.
  set (n := match res with inl _ => size m | inr _ => 0 end). set (rest := drop (size m) (take (front_len P) (contents P))).
  destruct (dequeue_many_run P (fun payload_buf => let '(res, h', xs) := f h (take (size m) payload_buf) in
      (match res with inl _ => size m | inr _ => 0 end, (res, h'), xs ++ drop (size m) payload_buf)) n (res, h') (b' ++ rest) Hwp)
    as (P' & HrunP & (HwP' & HcP' & HqP') & HlP' & HraP').
  { rewrite take_take, Nat.min_l by done. fold b. by rewrite Hf. }
  { unfold rest. rewrite length_app, length_drop, length_take, contents_length by done. unfold front_len in *. lia. }
  { unfold n. destruct res; lia. }
  eapply wp_eq; [by apply on_payload_run|]. cbv beta iota. wp_steps.
  assert (b' ++ rest ++ drop (front_len P) (contents P) = b' ++ drop (size m) (contents P)) as Hcat.
  { f_equal. unfold rest. rewrite <- (take_drop (front_len P) (contents P)) at 3. rewrite drop_app_le; [done|].
    rewrite length_take, contents_length by done. unfold front_len in *. lia. }
  rewrite <- app_assoc, Hcat in HqP'.
  pose proof (dequeue_one_with_spec (metadata_ring pb1) (fun m => (res, MkMeta (size m) (Some h'))) m ms Hwm Hms) as (M' & HrM & HwM' & HcM' & HqM').
  eapply wp_eq; [by apply on_meta_run|]. split; [done|]. unfold n in *.
  unfold pb_holds, pb_wf, packets, payload_capacity, packet_capacity in *.
  cbn [set_payload set_meta metadata_ring payload_ring] in *. rewrite HcM', HcP', HqM', HqP', HraP'.
  destruct res; rewrite ?drop_0; split_and!; try done; cbn [laid packets_of header size];
    rewrite ?drop_app_length' by congruence; try done.
  - rewrite length_app, Hlenf, Hb, (wrap_here P Hwp). split_and!; [lia|unfold front_len in Hs; lia|done..].
  - by rewrite take_app_length' by congruence.
Qed.
End spec.
End PacketSpec.
