(* ===== verification/StorageTheorems.v ===== *)
(** * Properties of the ring buffer and the packet buffer *)
From stdpp Require Import prelude list.
From S2P Require Import Prelude RingBuffer RingSpec PacketBuffer PacketSpec.
Open Scope nat_scope.

Module StorageTheorems.
Import Ring RingSpec Packets PacketSpec.

(** ** The ring buffer implements a bounded queue *)

Section ring_trace.
Context {T : Type}.

(** Calls of the ring buffer: single elements, slices, and random access. *)
Inductive ring_op :=
| EnqueueOne (x : T) | DequeueOne
| EnqueueSlice (data : list T) | DequeueSlice (data : list T)
| ReadAllocated (offset : nat) (data : list T) | DequeueAllocated (count : nat) | Clear.
(** What a call answers. *)
Inductive answer :=
| Unit | Refused | Elem (x : T) | Count (n : nat) | Data (n : nat) (data : list T) | Panicked.

Definition answer_of {E A} (f : A → answer) (r : outcome E A) : answer :=
  match r with Ok a => f a | Err _ => Refused | Panic => Panicked end.
Definition observe {E A} (f : A → answer) (m : prog (RingBuffer T) E A) (rb : RingBuffer T) : answer * RingBuffer T :=
  let '(r, rb') := m rb in (answer_of f r, rb').
Definition ring_exec (o : ring_op) : RingBuffer T → answer * RingBuffer T :=
  match o with
  | EnqueueOne x => observe (λ _, Unit) (enqueue_one x)
  | DequeueOne => observe Elem (dequeue_one id)
  | EnqueueSlice data => observe Count (enqueue_slice data)
  | DequeueSlice data => observe (λ r, Data r.1 r.2) (dequeue_slice data)
  | ReadAllocated o data => observe (λ r, Data r.1 r.2) (read_allocated o data)
  | DequeueAllocated n => observe (λ _, Unit) (dequeue_allocated n)
  | Clear => observe (λ _, Unit) (clear (E := Empty_set))
  end.
(** The specification: the same calls on a list of at most [cap] elements. *)
Definition queue_exec (cap : nat) (o : ring_op) (q : list T) : answer * list T :=
  match o with
  | EnqueueOne x => if length q =? cap then (Refused, q) else (Unit, q ++ [x])
  | DequeueOne => match q with [] => (Refused, []) | x :: q => (Elem x, q) end
  | EnqueueSlice data => let n := min (length data) (cap - length q) in (Count n, q ++ take n data)
  | DequeueSlice data => let n := min (length data) (length q) in (Data n (take n q ++ drop n data), drop n q)
  | ReadAllocated o data =>
    let n := min (length data) (length q - o) in (Data n (slice o n q ++ drop n data), q)
  | DequeueAllocated n => if n <=? length q then (Unit, drop n q) else (Panicked, q)
  | Clear => (Unit, [])
  end.
Fixpoint ring_run (os : list ring_op) (rb : RingBuffer T) : list answer * RingBuffer T :=
  match os with
  | [] => ([], rb)
  | o :: os => let '(a, rb) := ring_exec o rb in let '(answers, rb) := ring_run os rb in (a :: answers, rb)
  end.
Fixpoint queue_run (cap : nat) (os : list ring_op) (q : list T) : list answer * list T :=
  match os with
  | [] => ([], q)
  | o :: os => let '(a, q) := queue_exec cap o q in let '(answers, q) := queue_run cap os q in (a :: answers, q)
  end.
(** Offsets of random access lie inside the buffer. *)
Definition in_buffer (cap : nat) (o : ring_op) : Prop :=
  match o with ReadAllocated i _ => i <= cap | _ => True end.

Lemma get_allocated_past (rb : RingBuffer T) o n : wf rb → o <= capacity rb → rlen rb < o → get_allocated o n rb = (Ok [], rb).
Proof.
  intros Hwf Ho Hlt. apply wp_run. unfold get_allocated, allocated_at. wp_steps. rewrite get_idx_ok by done.
  cbn [mbind outcome_bind]. rewrite (proj2 (Nat.ltb_lt _ _) Hlt). wp_steps.
  unfold wp, with_slice, slice, splice. cbn. by destruct rb.
Qed.
Lemma read_past (rb : RingBuffer T) o data :
  wf rb → o <= capacity rb → rlen rb < o → read_allocated o data rb = (Ok (0, data), rb).
Proof.
  intros Hwf Ho Hlt. apply wp_run. unfold read_allocated. wp_step. wp_call (get_allocated_past rb o (length data) Hwf Ho Hlt).
  cbn [length]. wp_steps. destruct Hwf as (Hc & Hl & Hr). rewrite (nadd_small _ _ (capacity rb)) by (done || lia). wp_steps.
  rewrite Nat.add_0_r, drop_0. by wp_call (get_allocated_past rb o (length data) (conj Hc (conj Hl Hr)) Ho Hlt).
Qed.
Lemma ring_exec_refines rb o :
  wf rb → in_buffer (capacity rb) o →
  let '(a, rb') := ring_exec o rb in
  holds rb rb' (queue_exec (capacity rb) o (contents rb)).2 ∧ a = (queue_exec (capacity rb) o (contents rb)).1.
Proof.
  intros Hwf Hin. pose proof (contents_length rb Hwf) as Hlen. pose proof Hwf as (_ & Hl & _).
  destruct o; cbn [ring_exec queue_exec]; unfold observe; rewrite ?Hlen.
  - destruct (Nat.eqb_spec (rlen rb) (capacity rb)).
    + rewrite (enqueue_one_refused rb x Hwf) by (unfold free; lia). done.
    + destruct (enqueue_one_spec rb x Hwf) as (rb' & -> & Hh); [unfold free; lia|done].
  - destruct (contents rb) as [|x q] eqn:Hq.
    + assert (dequeue_one id rb = (Err IsEmpty, rb)) as ->; [|done].
      apply wp_run. unfold dequeue_one. wp_step. by wp_call (dequeue_one_empty (E := Empty_set) rb (λ x : T, (inl x, id x))).
    + destruct (dequeue_one_spec rb id x q Hwf Hq) as (rb' & -> & Hh). done.
  - destruct (enqueue_slice_spec rb data Hwf) as (rb' & -> & Hh). done.
  - destruct (dequeue_slice_spec rb data Hwf) as (rb' & -> & Hh). done.
  - destruct (Nat.le_gt_cases offset (rlen rb)) as [Ho|Ho].
    + rewrite read_allocated_spec by done. done.
    + rewrite read_past by done. replace (min _ (rlen rb - offset)) with 0 by lia. done.
  - destruct (Nat.leb_spec count (rlen rb)) as [Hc|Hc].
    + destruct (dequeue_allocated_spec rb count Hwf Hc) as (rb' & -> & Hh). done.
    + assert (dequeue_allocated count rb = (Panic, rb)) as ->; [|done]. apply wp_run. unfold dequeue_allocated, len. wp_steps.
      by rewrite (proj2 (Nat.leb_gt _ _) Hc).
  - split; [|done]. split_and!; [|done|done]. destruct Hwf as (? & ? & ?). split_and!; [done|cbn; lia|by right].
Qed.
Lemma ring_run_refines os : ∀ rb,
  wf rb → Forall (in_buffer (capacity rb)) os →
  let '(answers, rb') := ring_run os rb in queue_run (capacity rb) os (contents rb) = (answers, contents rb') ∧ wf rb'.
Proof.
  induction os as [|o os IH]; intros rb Hwf Hin; [done|]. apply Forall_cons in Hin as [Ho Hin]. cbn.
  pose proof (ring_exec_refines rb o Hwf Ho) as Hstep. destruct (ring_exec o rb) as [a rb1].
  destruct Hstep as [(Hwf1 & Hc1 & Hq1) ->]. destruct (queue_exec (capacity rb) o (contents rb)) as [a q]. cbn in *. subst q.
  specialize (IH rb1 Hwf1 ltac:(by rewrite Hc1)). destruct (ring_run os rb1) as [answers rb']. destruct IH as [IH ?].
  rewrite Hc1 in IH. by rewrite IH.
Qed.
End ring_trace.

(** C32: the ring buffer refines a bounded first-in first-out queue. Any
    sequence of calls on a new buffer gets exactly the answers the queue gives,
    and the buffer then holds exactly the queue's elements. *)
Theorem ring_refines_queue {T} (storage : list T) (os : list ring_op) :
  (Z.of_nat (length storage) <= isize_max)%Z → Forall (in_buffer (length storage)) os →
  let '(answers, rb) := ring_run os (Ring.new storage) in
  queue_run (length storage) os [] = (answers, contents rb).
Proof.
  intros Hc Hin. assert (wf (Ring.new storage)) as Hwf by (split_and!; [done|cbn; lia|by right]).
  pose proof (ring_run_refines os (Ring.new storage) Hwf Hin) as H.
  destruct (ring_run os (Ring.new storage)) as [answers rb]. apply H.
Qed.
Lemma ring_refines_queue_witness :
  (ring_run [EnqueueSlice [1;2;3;4]; DequeueSlice [0;0;0]; EnqueueSlice [5;6;7]; DequeueOne; ReadAllocated 1 [0;0;0;0;0]]
    (Ring.new [0;0;0;0;0])).1 =
  (queue_run 5 [EnqueueSlice [1;2;3;4]; DequeueSlice [0;0;0]; EnqueueSlice [5;6;7]; DequeueOne; ReadAllocated 1 [0;0;0;0;0]] []).1.
Proof.
  pose proof (ring_refines_queue [0;0;0;0;0]
    [EnqueueSlice [1;2;3;4]; DequeueSlice [0;0;0]; EnqueueSlice [5;6;7]; DequeueOne; ReadAllocated 1 [0;0;0;0;0]]) as H.
  destruct (ring_run _ _) as [answers rb]. cbn [fst length] in *. rewrite H; [done|by vm_compute|].
  repeat constructor; cbn; lia.
Defined.

(** ** The packet buffer is a queue of packets *)

Section packet_trace.
Context {H B : Type}.

(** Calls: enqueue a packet of known size, or of at most [max] octets as a
    callback writes it, dequeue it, look at it, or hand it to a consumer that
    takes it or leaves it. *)
Inductive packet_op :=
| Put (h : H) (data : list B) | PutWith (max : nat) (h : H) (data : list B)
| Get | Look | Consume (accept : bool) | Drain.
Inductive packet_answer := Accepted | Denied | Packet (h : H) (data : list B) | Consumed (h : H) (data : list B) | Done | Crashed.
Definition overwrite (data l : list B) : list B := if length l =? length data then data else l.
Definition writer (data l : list B) : nat * list B :=
  if length data <=? length l then (length data, data ++ drop (length data) l) else (0, l).
Definition consumer (accept : bool) (h : H) (b : list B) : ((H * list B) + (H * list B)) * H * list B :=
  (if accept then inl (h, b) else inr (h, b), h, b).
Definition packet_exec (o : packet_op) (pb : PacketBuffer H B) : packet_answer * PacketBuffer H B :=
  match o with
  | Put h data =>
    let '(r, pb') := enqueue (length data) h (overwrite data) pb in
    (match r with Ok _ => Accepted | Err _ => Denied | Panic => Crashed end, pb')
  | PutWith max h data =>
    let '(r, pb') := enqueue_with_infallible max h (writer data) pb in
    (match r with Ok _ => Accepted | Err _ => Denied | Panic => Crashed end, pb')
  | Get => let '(r, pb') := dequeue pb in
    (match r with Ok (h, b) => Packet h b | Err _ => Denied | Panic => Crashed end, pb')
  | Look => let '(r, pb') := peek pb in
    (match r with Ok (h, b) => Packet h b | Err _ => Denied | Panic => Crashed end, pb')
  | Consume accept => let '(r, pb') := dequeue_with (consumer accept) pb in
    (match r with Ok (inl (h, b) | inr (h, b)) => Consumed h b | Err _ => Denied | Panic => Crashed end, pb')
  | Drain => let '(r, pb') := reset (E := Empty_set) pb in
    (match r with Panic => Crashed | _ => Done end, pb')
  end.
Fixpoint packet_run (os : list packet_op) (pb : PacketBuffer H B) : list packet_answer * PacketBuffer H B :=
  match os with
  | [] => ([], pb)
  | o :: os => let '(a, pb) := packet_exec o pb in let '(answers, pb) := packet_run os pb in (a :: answers, pb)
  end.
(** The specification: a queue that may refuse a packet for lack of room. *)
Inductive fifo : packet_op → list (H * list B) → packet_answer → list (H * list B) → Prop :=
| fifo_put h data q : fifo (Put h data) q Accepted (q ++ [(h, data)])
| fifo_refuse h data q : fifo (Put h data) q Denied q
| fifo_put_with max h data q : fifo (PutWith max h data) q Accepted (q ++ [(h, data)])
| fifo_refuse_with max h data q : fifo (PutWith max h data) q Denied q
| fifo_get h data q : fifo Get ((h, data) :: q) (Packet h data) q
| fifo_get_none : fifo Get [] Denied []
| fifo_look h data q : fifo Look ((h, data) :: q) (Packet h data) ((h, data) :: q)
| fifo_look_none : fifo Look [] Denied []
| fifo_take h data q : fifo (Consume true) ((h, data) :: q) (Consumed h data) q
| fifo_leave h data q : fifo (Consume false) ((h, data) :: q) (Consumed h data) ((h, data) :: q)
| fifo_consume_none b : fifo (Consume b) [] Denied []
| fifo_drain q : fifo Drain q Done [].
Inductive fifo_run : list packet_op → list (H * list B) → list packet_answer → list (H * list B) → Prop :=
| fifo_nil q : fifo_run [] q [] q
| fifo_cons o os q a q' answers q'' :
    fifo o q a q' → fifo_run os q' answers q'' → fifo_run (o :: os) q (a :: answers) q''.

(** A callback writes no more than it said, and its packet does not need padding
    when one description slot is left. *)
Definition careful (o : packet_op) (pb : PacketBuffer H B) : Prop :=
  match o with PutWith max _ data => length data <= max ∧ ¬ last_padded pb max | _ => True end.
Fixpoint careful_run (os : list packet_op) (pb : PacketBuffer H B) : Prop :=
  match os with [] => True | o :: os => careful o pb ∧ careful_run os (packet_exec o pb).2 end.

Lemma writer_fills data : fills (writer data).
Proof.
  intros l. unfold writer. destruct (Nat.leb_spec (length data) (length l)); cbn; [|lia]. rewrite length_app, length_drop. lia.
Qed.
Lemma overwrite_length data l : length (overwrite data l) = length l.
Proof. unfold overwrite. by destruct (Nat.eqb_spec (length l) (length data)). Qed.
Lemma packet_exec_fifo o pb :
  pb_wf pb → careful o pb → let '(a, pb') := packet_exec o pb in ∃ q, pb_holds pb pb' q ∧ fifo o (packets pb) a q.
Proof.
  intros Hwf Hcare. destruct o as [h data|max h data| | |accept|]; cbn [packet_exec].
  - pose proof (enqueue_spec pb (length data) h (overwrite data) Hwf (overwrite_length data)) as Hp.
    destruct (enqueue (length data) h (overwrite data) pb) as [[xs|[]|] pb']; cbn [fst snd enqueue_post] in Hp; [| |done].
    + destruct Hp as (Hxs & [l ->] & Hh). exists (packets pb ++ [(h, data)]). split; [|constructor].
      rewrite overwrite_length in Hxs. unfold overwrite in Hh. by rewrite (proj2 (Nat.eqb_eq _ _) Hxs) in Hh.
    + destruct Hp as [Hh _]. exists (packets pb). split; [done|]. constructor.
  - destruct Hcare as [Hlen Hnot]. pose proof (enqueue_with_infallible_spec pb max h (writer data) Hwf (writer_fills data)) as Hp.
    destruct (enqueue_with_infallible max h (writer data) pb) as [[n|[]|] pb']; cbn [fst snd infallible_post] in Hp; [| |done].
    + destruct Hp as (_ & l & Hl & -> & Hh). exists (packets pb ++ [(h, data)]). split; [|constructor].
      unfold writer in Hh. rewrite Hl, (proj2 (Nat.leb_le _ _) Hlen) in Hh. cbn [fst snd] in Hh. by rewrite take_app_length in Hh.
    + exists (packets pb). split; [|constructor]. destruct Hp as [[-> _]|Hk]; [done|]. by destruct (Hnot (lk_last _ _ _ _ Hk)).
  - pose proof (dequeue_spec pb Hwf) as Hp. unfold pop_post in Hp. destruct (dequeue pb) as [r pb']. cbn [fst snd] in Hp.
    destruct (packets pb) as [|[h b] q]; destruct Hp as [-> Hh]; (eexists; split; [exact Hh|constructor]).
  - pose proof (peek_spec pb Hwf) as [Hh Hp]. destruct (peek pb) as [r pb']. cbn [fst snd] in *. subst r.
    exists (packets pb). split; [done|]. destruct (packets pb) as [|[h b] q]; constructor.
  - pose proof (dequeue_with_spec pb (consumer accept) Hwf (λ h b, eq_refl)) as Hp. unfold dequeue_with_post in Hp.
    destruct (dequeue_with (consumer accept) pb) as [r pb']. cbn [fst snd] in Hp.
    destruct (packets pb) as [|[h b] q]; [destruct Hp as [-> Hh]; eexists; split; [exact Hh|constructor]|].
    unfold consumer in Hp. destruct accept, Hp as [-> Hh]; (eexists; split; [exact Hh|constructor]).
  - cbn. exists []. split; [|constructor]. destruct Hwf as (Hwm & Hwp & _). split_and!; [|done..].
    split_and!; cbn; [..|done]; split_and!; [apply Hwm|cbn; lia|by right|apply Hwp|cbn; lia|by right].
Qed.
Lemma packet_run_fifo os : ∀ pb,
  pb_wf pb → careful_run os pb → let '(answers, pb') := packet_run os pb in
  fifo_run os (packets pb) answers (packets pb') ∧ pb_wf pb'.
Proof.
  induction os as [|o os IH]; intros pb Hwf Hcare; [by split; [constructor|]|]. cbn. destruct Hcare as [Hc Hcare].
  pose proof (packet_exec_fifo o pb Hwf Hc) as Hstep. destruct (packet_exec o pb) as [a pb1].
  destruct Hstep as (q & (Hwf1 & _ & _ & <-) & Hf). specialize (IH pb1 Hwf1 Hcare).
  destruct (packet_run os pb1) as [answers pb']. destruct IH as [IH ?]. split; [by econstructor|done].
Qed.
Lemma packet_put_room h data pb :
  pb_wf pb → payload_bytes_count pb = 0 → length data <= payload_capacity pb → free (metadata_ring pb) <> 0 →
  (packet_exec (Put h data) pb).1 = Accepted.
Proof.
  intros Hwf Hz Hlen Hfree. cbn [packet_exec].
  pose proof (enqueue_spec pb (length data) h (overwrite data) Hwf (overwrite_length data)) as Hp.
  destruct (enqueue (length data) h (overwrite data) pb) as [[xs|[]|] pb']; cbn [fst snd enqueue_post] in Hp; [done| |done].
  destruct Hp as [_ Hr]. destruct (Hr Hz); [lia|done].
Qed.
Lemma new_pb_wf (metas : list (PacketMetadata H)) (bytes : list B) :
  (Z.of_nat (length metas) <= isize_max)%Z → (Z.of_nat (length bytes) <= isize_max)%Z → pb_wf (Packets.new metas bytes).
Proof. intros. split_and!; [..|done]; (split_and!; [done|cbn; lia|by right]). Qed.
End packet_trace.

(** C33: the packet buffer is a first-in first-out queue of packets: along any
    sequence of calls the packets come out whole, in order and unchanged, and
    no call panics; and when it holds no octets it accepts every packet of known
    size that is no larger than the payload storage, as long as a description
    slot is free. All six calls may occur; those of [enqueue_with_infallible]
    are made with a callback that writes no more than announced, and not where
    the packet needs padding and one description slot is left. *)
Theorem packet_buffer_fifo {H B} (metas : list (PacketMetadata H)) (bytes : list B) os :
  (Z.of_nat (length metas) <= isize_max)%Z → (Z.of_nat (length bytes) <= isize_max)%Z →
  careful_run os (Packets.new metas bytes) →
  let '(answers, pb) := packet_run os (Packets.new metas bytes) in
  fifo_run os [] answers (packets pb) ∧
  ∀ h data, payload_bytes_count pb = 0 → length data <= payload_capacity pb → free (metadata_ring pb) <> 0 →
    (packet_exec (Put h data) pb).1 = Accepted.
Proof.
  intros Hm Hb Hc. pose proof (packet_run_fifo os _ (new_pb_wf metas bytes Hm Hb) Hc) as Hrun.
  destruct (packet_run os (Packets.new metas bytes)) as [answers pb]. destruct Hrun as [Hf Hwf]. split; [done|].
  intros h data. by apply packet_put_room.
Qed.
Definition queued : list (packet_op (H := nat) (B := nat)) :=
  [Put 1 [1;1;1;1;1]; Put 2 [2;2]; Get; PutWith 4 3 [3;3]; Look; Consume false; Get; Get; Put 4 [4;4;4]; Get].
Lemma queued_careful : careful_run queued (Packets.new (replicate 4 EMPTY) (replicate 8 0)).
Proof. cbn -[packet_exec last_padded]. split_and!; try done; try lia. intros [Hf _]. vm_compute in Hf. discriminate. Qed.
Lemma packet_buffer_fifo_witness :
  fifo_run queued [] [Accepted; Accepted; Packet 1 [1;1;1;1;1]; Accepted; Packet 2 [2;2]; Consumed 2 [2;2]; Packet 2 [2;2];
    Packet 3 [3;3]; Accepted; Packet 4 [4;4;4]] [].
Proof.
  pose proof (packet_buffer_fifo (replicate 4 EMPTY) (replicate 8 0) queued) as H.
  assert (packet_run queued (Packets.new (replicate 4 EMPTY) (replicate 8 0)) =
    ((packet_run queued (Packets.new (replicate 4 EMPTY) (replicate 8 0))).1,
     (packet_run queued (Packets.new (replicate 4 EMPTY) (replicate 8 0))).2)) as He by apply surjective_pairing.
  rewrite He in H. specialize (H ltac:(by vm_compute) ltac:(by vm_compute) queued_careful) as [H _]. exact H.
Defined.

(** The octets the descriptions account for *)
Definition described {H B} (pb : PacketBuffer H B) : nat := sum_list_with size (contents (metadata_ring pb)).
Lemma laid_described {H B} cap p (ms : list (PacketMetadata H)) (bytes : list B) :
  laid cap p ms bytes → sum_list_with size ms = length bytes.
Proof.
  revert p bytes. induction ms as [|m ms IH]; intros p bytes; cbn; [by intros ->|].
  intros (Hs & _ & _ & Hl). rewrite (IH _ _ Hl), length_drop. lia.
Qed.
Lemma wf_described {H B} (pb : PacketBuffer H B) : pb_wf pb → described pb = payload_bytes_count pb.
Proof. intros (_ & Hwp & Hl). unfold described. rewrite (laid_described _ _ _ _ Hl). by apply contents_length. Qed.
Lemma leaked_described {H B} (pb pb' : PacketBuffer H B) max f :
  pb_wf pb → fills f → leaked pb max f pb' →
  ∃ l, length l = max ∧ length (contents (payload_ring pb')) = described pb' + (f l).1.
Proof.
  intros Hwf Hf [_ Hm (pad & l & Hp & Hl & Hq)]. exists l. split; [done|]. destruct (Hf l) as [Hn Hx].
  pose proof (wf_described pb Hwf) as Hd. destruct Hwf as (_ & Hwp & _).
  unfold described, payload_bytes_count, len in *. rewrite Hm, Hq, sum_list_with_app, !length_app, length_take, Hd.
  rewrite (contents_length _ Hwp). cbn. lia.
Qed.

(** C34: [enqueue_with_infallible] is not all-or-nothing. On a well-formed buffer
    and with a callback that stays in its slice it does not panic; it appends
    the packet, or it refuses the packet and changes nothing, but for exactly one
    case: the packet fits only past padding and one description slot is left.
    Then it answers [Full] with the padding described and the octets of the
    refused packet after it in the payload ring, described by nothing: unless
    the packet was empty the buffer is no longer well-formed, and the packets
    that follow are read from the wrong octets. *)
Theorem enqueue_with_infallible_leaks {H B} (pb : PacketBuffer H B) max h f :
  pb_wf pb → fills f →
  match enqueue_with_infallible max h f pb with
  | (Ok n, pb') => ¬ last_padded pb max ∧
      ∃ l, length l = max ∧ n = (f l).1 ∧ pb_wf pb' ∧ packets pb' = packets pb ++ [(h, take n (f l).2)]
  | (Err _, pb') => (¬ last_padded pb max ∧ pb' = pb) ∨
      (last_padded pb max ∧ contents (metadata_ring pb') = contents (metadata_ring pb) ++ [padding (contig (payload_ring pb))] ∧
       ∃ l, length l = max ∧ length (contents (payload_ring pb')) = described pb' + (f l).1 ∧ (0 < (f l).1 → ¬ pb_wf pb'))
  | (Panic, _) => False
  end.
Proof.
  intros Hwf Hf. pose proof (enqueue_with_infallible_spec pb max h f Hwf Hf) as Hp.
  destruct (enqueue_with_infallible max h f pb) as [[n|e|] pb']; cbn [fst snd infallible_post] in Hp; [| |done].
  - destruct Hp as (Hno & l & Hl & Hn & Hh). split; [done|]. exists l. split_and!; try done; apply Hh.
  - destruct Hp as [[-> Hno]|Hk]; [by left|right]. split; [apply Hk|]. split; [apply Hk|].
    destruct (leaked_described pb pb' max f Hwf Hf Hk) as (l & Hl & Hd). exists l. split_and!; [done|done|].
    intros Hpos Hwf'. pose proof (wf_described pb' Hwf') as Hd'. destruct Hwf' as (_ & Hwp & _).
    rewrite (contents_length _ Hwp) in Hd. unfold payload_bytes_count, len in Hd'. lia.
Qed.
(** Two description slots: the first packet has been taken, and the third needs padding. *)
Definition nearly_full : PacketBuffer nat nat :=
  Eval vm_compute in (packet_run [Put 1 [1;1;1;1;1]; Put 2 [2;2]; Get] (Packets.new (replicate 2 EMPTY) (replicate 8 0))).2.
Lemma nearly_full_wf : pb_wf nearly_full.
Proof.
  pose proof (packet_run_fifo (H := nat) [Put 1 [1;1;1;1;1]; Put 2 [2;2]; Get] (Packets.new (replicate 2 EMPTY) (replicate 8 0))) as Hw.
  assert (∃ a, packet_run [Put 1 [1;1;1;1;1]; Put 2 [2;2]; Get] (Packets.new (replicate 2 EMPTY) (replicate 8 0)) = (a, nearly_full)) as [a He]
    by (eexists; vm_compute; reflexivity).
  rewrite He in Hw. apply Hw; [apply new_pb_wf; by vm_compute|exact (conj I (conj I (conj I I)))].
Qed.
(** Its octets [3;3] are then delivered as the packet that was [4;4]. *)
Lemma enqueue_with_infallible_leaks_witness :
  let '(refused, pb) := enqueue_with_infallible 2 3 (writer [3;3]) nearly_full in
  refused = Err IsFull ∧ ¬ pb_wf pb ∧ (packet_run [Get; Put 4 [4;4]; Get] pb).1 = [Packet 2 [2;2]; Accepted; Packet 4 [3;3]].
Proof.
  pose proof (enqueue_with_infallible_leaks nearly_full 2 3 (writer [3;3]) nearly_full_wf (writer_fills [3;3])) as Hl.
  assert (last_padded nearly_full 2) as Hlast by (vm_compute; split; [reflexivity|lia]).
  assert ((packet_run [Get; Put 4 [4;4]; Get] (enqueue_with_infallible 2 3 (writer [3;3]) nearly_full).2).1 =
    [Packet 2 [2;2]; Accepted; Packet 4 [3;3]]) as Hrun by (vm_compute; reflexivity).
  destruct (enqueue_with_infallible 2 3 (writer [3;3]) nearly_full) as [[n|[]|] pb]; [by destruct Hl as [Hno _]|split; [reflexivity|]|by destruct Hl].
  destruct Hl as [[Hno _]|(_ & _ & l & Hlen & _ & Hbad)]; [by destruct (Hno Hlast)|]. split; [|exact Hrun].
  apply Hbad. unfold writer. rewrite Hlen. cbn. lia.
Defined.
End StorageTheorems.
