(* ===== verification/Wire.v ===== *)
(** * Addresses, sequence numbers and TCP segments (crates/smoltcp/src/wire)

    The high-level representations the TCP socket exchanges with the interface:
    IP addresses and endpoints, the IP header representation, sequence numbers
    modulo 2^32 and the TCP segment representation. *)
From stdpp Require Import prelude.
From S2P Require Import Prelude.

(** ** Machine integers of other widths *)

Definition i32_max : Z := 2 ^ 31 - 1.
(** [x as i32], [x as u32] and [x as usize] *)
Definition as_i32 (x : Z) : Z := (x + 2 ^ 31) mod 2 ^ 32 - 2 ^ 31.
Definition as_u32 (x : Z) : Z := x mod 2 ^ 32.
Definition as_usize (x : Z) : Z := x mod 2 ^ 64.

(** The result of an arithmetic operation on a type with the given bounds *)
Definition checked {E} (lo hi x : Z) : outcome E Z :=
  if (lo <=? x) && (x <=? hi) then Ok x else Panic.
Definition u32_checked {E} (x : Z) : outcome E Z := checked 0 u32_max x.
Definition u64_checked {E} (x : Z) : outcome E Z := checked 0 usize_max x.
Definition i32_checked {E} (x : Z) : outcome E Z := checked (- 2 ^ 31) i32_max x.
Definition i64_checked {E} (x : Z) : outcome E Z := checked (- 2 ^ 63) (2 ^ 63 - 1) x.
Definition as_i64 (x : Z) : Z := (x + 2 ^ 63) mod 2 ^ 64 - 2 ^ 63.

(** ** IP addresses and endpoints (ip.rs) *)

Inductive Version := V4 | V6.
Inductive IpAddress := Ipv4 (a : Z) | Ipv6 (a : Z).
#[export] Instance version_eq_dec : EqDecision Version.
Proof. solve_decision. Defined.
#[export] Instance address_eq_dec : EqDecision IpAddress.
Proof. solve_decision. Defined.

Definition version (a : IpAddress) : Version := match a with Ipv4 _ => V4 | Ipv6 _ => V6 end.
Definition is_unspecified (a : IpAddress) : bool :=
  match a with Ipv4 a => a =? 0 | Ipv6 a => a =? 0 end.

Record IpEndpoint := MkEndpoint { addr : IpAddress; port : Z }.
Record IpListenEndpoint := MkListenEndpoint { listen_addr : option IpAddress; listen_port : Z }.
#[export] Instance endpoint_eq_dec : EqDecision IpEndpoint.
Proof. solve_decision. Defined.
#[export] Instance listen_endpoint_eq_dec : EqDecision IpListenEndpoint.
Proof. solve_decision. Defined.
Definition default_listen_endpoint : IpListenEndpoint := MkListenEndpoint None 0.

(** The IP header representation: the version is that of the addresses. *)
Inductive IpProtocol := Tcp | OtherProtocol (number : Z).
Record IpRepr := MkIpRepr {
  ip_version : Version; src_addr : IpAddress; dst_addr : IpAddress;
  next_header : IpProtocol; payload_len : Z; ip_hop_limit : Z }.

Definition ip_repr_new {E} (src dst : IpAddress) (next : IpProtocol) (len hops : Z) : outcome E IpRepr :=
  match src, dst with
  | Ipv4 _, Ipv4 _ => Ok (MkIpRepr V4 src dst next len hops)
  | Ipv6 _, Ipv6 _ => Ok (MkIpRepr V6 src dst next len hops)
  | _, _ => Panic
  end.
Definition set_payload_len (n : Z) (r : IpRepr) : IpRepr :=
  MkIpRepr (ip_version r) (src_addr r) (dst_addr r) (next_header r) n (ip_hop_limit r).
Definition IPV4_HEADER_LEN : Z := 20.
Definition IPV6_HEADER_LEN : Z := 40.
Definition ip_header_len (r : IpRepr) : Z :=
  match ip_version r with V4 => IPV4_HEADER_LEN | V6 => IPV6_HEADER_LEN end.

(** ** Sequence numbers (tcp.rs) *)

(** [SeqNumber(i32)]: a signed 32-bit number, compared by its wrapping distance. *)
Module Seq.
Definition add {E} (a n : Z) : outcome E Z :=
  if n <=? i32_max then Ok (as_i32 (a + n)) else Panic.
Definition sub_usize {E} (a n : Z) : outcome E Z :=
  if n <=? i32_max then Ok (as_i32 (a - n)) else Panic.
Definition sub {E} (a b : Z) : outcome E Z :=
  let result := as_i32 (a - b) in if result <? 0 then Panic else Ok result.
Definition lt (a b : Z) : bool := as_i32 (a - b) <? 0.
Definition le (a b : Z) : bool := as_i32 (a - b) <=? 0.
Definition gt (a b : Z) : bool := 0 <? as_i32 (a - b).
Definition ge (a b : Z) : bool := 0 <=? as_i32 (a - b).
Definition max (a b : Z) : Z := if gt a b then a else b.
Definition min (a b : Z) : Z := if lt a b then a else b.
End Seq.

(** ** Segments (tcp.rs) *)

Abbreviation TCP_HEADER_LEN := 20%Z (only parsing).

Inductive Control := CNone | Psh | Syn | Fin | Rst.
#[export] Instance control_eq_dec : EqDecision Control.
Proof. solve_decision. Defined.
Definition control_len (c : Control) : Z := match c with Syn | Fin => 1 | _ => 0 end.
Definition quash_psh (c : Control) : Control := match c with Psh => CNone | _ => c end.

Record TcpTimestampRepr := MkTimestamp { tsval : Z; tsecr : Z }.

Record TcpRepr := MkRepr {
  src_port : Z;
  dst_port : Z;
  control : Control;
  seq_number : Z;
  ack_number : option Z;
  window_len : Z;
  window_scale : option Z;
  max_seg_size : option Z;
  sack_permitted : bool;
  sack_ranges : list (option (Z * Z));
  timestamp : option TcpTimestampRepr;
  payload : list Z }.

#[export] Instance repr_eta : Eta TcpRepr := λ r,
  MkRepr (src_port r) (dst_port r) (control r) (seq_number r) (ack_number r) (window_len r)
    (window_scale r) (max_seg_size r) (sack_permitted r) (sack_ranges r) (timestamp r) (payload r).
#[export] Instance upd_control : Update control := ltac:(derive_update).
#[export] Instance upd_seq_number : Update seq_number := ltac:(derive_update).
#[export] Instance upd_ack_number : Update ack_number := ltac:(derive_update).
#[export] Instance upd_window_len : Update window_len := ltac:(derive_update).
#[export] Instance upd_window_scale : Update window_scale := ltac:(derive_update).
#[export] Instance upd_max_seg_size : Update max_seg_size := ltac:(derive_update).
#[export] Instance upd_sack_permitted : Update sack_permitted := ltac:(derive_update).
#[export] Instance upd_sack_ranges : Update sack_ranges := ltac:(derive_update).
#[export] Instance upd_timestamp : Update timestamp := ltac:(derive_update).
#[export] Instance upd_payload : Update payload := ltac:(derive_update).

(** [self.payload.len()] as a number of sequence space *)
Definition plen (r : TcpRepr) : Z := Z.of_nat (length (payload r)).

Definition present_len {A} (o : option A) (n : Z) : Z := match o with Some _ => n | None => 0 end.
Definition header_len (r : TcpRepr) : Z :=
  let n := TCP_HEADER_LEN
    + present_len (max_seg_size r) 4 + present_len (window_scale r) 3
    + (if sack_permitted r then 2 else 0) + present_len (timestamp r) 10 in
  let sack_range_len := foldr Z.add 0 ((λ o, present_len o 8) <$> sack_ranges r) in
  let n := if 0 <? sack_range_len then n + (sack_range_len + 2) else n in
  if n mod 4 =? 0 then n else n + (4 - n mod 4).
Definition buffer_len (r : TcpRepr) : Z := header_len r + plen r.
Definition segment_len (r : TcpRepr) : Z := plen r + control_len (control r).
Definition repr_is_empty (r : TcpRepr) : bool :=
  match payload r, control r with
  | _ :: _, _ => false
  | [], (Syn | Fin | Rst) => false
  | [], (CNone | Psh) => true
  end.
