(* ===== verification/SeqSpec.v ===== *)
(** * Sequence numbers as offsets from a base

    A sequence number within 2^31 of a base is [as_i32 (base + k)]; two numbers
    written so compare as their offsets do. *)
From stdpp Require Import prelude.
From S2P Require Import Prelude Wire.
Open Scope Z_scope.

Definition is_i32 (x : Z) : Prop := - 2 ^ 31 <= x < 2 ^ 31.

Lemma as_i32_range x : is_i32 (as_i32 x).
Proof. unfold is_i32, as_i32. pose proof (Z.mod_pos_bound (x + 2 ^ 31) (2 ^ 32)). lia. Qed.
Lemma as_i32_id x : is_i32 x → as_i32 x = x.
Proof. unfold is_i32, as_i32. intros. rewrite Z.mod_small; lia. Qed.
Lemma as_i32_eq x y k : x = y + k * 2 ^ 32 → as_i32 x = as_i32 y.
Proof.
  intros ->. unfold as_i32. f_equal. replace (y + k * 2 ^ 32 + 2 ^ 31) with (y + 2 ^ 31 + k * 2 ^ 32) by lia.
  apply Z_mod_plus_full.
Qed.
Lemma as_i32_split x : ∃ k, x = as_i32 x + k * 2 ^ 32.
Proof.
  exists ((x + 2 ^ 31) / 2 ^ 32). unfold as_i32. pose proof (Z.div_mod (x + 2 ^ 31) (2 ^ 32)). lia.
Qed.
Lemma as_i32_add x n : as_i32 (as_i32 x + n) = as_i32 (x + n).
Proof. destruct (as_i32_split x) as [k Hk]. apply (as_i32_eq _ _ (- k)). lia. Qed.
Lemma as_i32_dist x y : as_i32 (as_i32 x - as_i32 y) = as_i32 (x - y).
Proof.
  destruct (as_i32_split x) as [k Hk], (as_i32_split y) as [j Hj]. apply (as_i32_eq _ _ (j - k)). lia.
Qed.

(** The offset of [q] from [base], and [q] written with it *)
Definition offset (base q : Z) : Z := as_i32 (q - base).
Lemma offset_range base q : is_i32 (offset base q).
Proof. apply as_i32_range. Qed.
Lemma offset_eq base q : is_i32 q → q = as_i32 (base + offset base q).
Proof.
  intros Hq. unfold offset. rewrite Z.add_comm, as_i32_add. replace (q - base + base) with q by lia.
  by rewrite as_i32_id.
Qed.
Lemma offset_add base k : is_i32 k → offset base (as_i32 (base + k)) = k.
Proof.
  intros Hk. unfold offset. replace (as_i32 (base + k) - base) with (as_i32 (base + k) + - base) by lia.
  rewrite as_i32_add. replace (base + k + - base) with k by lia. by apply as_i32_id.
Qed.
Lemma offset_inj base q q' : is_i32 q → is_i32 q' → offset base q = offset base q' → q = q'.
Proof. intros Hq Hq' H. rewrite (offset_eq base q Hq), (offset_eq base q' Hq'). by rewrite H. Qed.

Section relative.
Context (base : Z).
Lemma rel_dist j k : is_i32 (j - k) → as_i32 (as_i32 (base + j) - as_i32 (base + k)) = j - k.
Proof. intros. rewrite as_i32_dist. replace (base + j - (base + k)) with (j - k) by lia. by apply as_i32_id. Qed.
Lemma rel_lt j k : is_i32 (j - k) → Seq.lt (as_i32 (base + j)) (as_i32 (base + k)) = (j <? k).
Proof. intros. unfold Seq.lt. rewrite rel_dist by done. split_zbool; lia. Qed.
Lemma rel_le j k : is_i32 (j - k) → Seq.le (as_i32 (base + j)) (as_i32 (base + k)) = (j <=? k).
Proof. intros. unfold Seq.le. rewrite rel_dist by done. split_zbool; lia. Qed.
Lemma rel_gt j k : is_i32 (j - k) → Seq.gt (as_i32 (base + j)) (as_i32 (base + k)) = (k <? j).
Proof. intros. unfold Seq.gt. rewrite rel_dist by done. split_zbool; lia. Qed.
Lemma rel_ge j k : is_i32 (j - k) → Seq.ge (as_i32 (base + j)) (as_i32 (base + k)) = (k <=? j).
Proof. intros. unfold Seq.ge. rewrite rel_dist by done. split_zbool; lia. Qed.
Lemma rel_max j k : is_i32 (j - k) → Seq.max (as_i32 (base + j)) (as_i32 (base + k)) = as_i32 (base + Z.max j k).
Proof. intros. unfold Seq.max. rewrite rel_gt by done. destruct (Z.ltb_spec k j); do 2 f_equal; lia. Qed.
Lemma rel_min j k : is_i32 (j - k) → Seq.min (as_i32 (base + j)) (as_i32 (base + k)) = as_i32 (base + Z.min j k).
Proof. intros. unfold Seq.min. rewrite rel_lt by done. destruct (Z.ltb_spec j k); do 2 f_equal; lia. Qed.
Lemma rel_sub {E} j k : 0 <= j - k < 2 ^ 31 → @Seq.sub E (as_i32 (base + j)) (as_i32 (base + k)) = Ok (j - k).
Proof.
  intros. unfold Seq.sub. rewrite rel_dist by (unfold is_i32; lia). by rewrite (proj2 (Z.ltb_ge _ _)) by lia.
Qed.
Lemma rel_add {E} j n : n <= i32_max → @Seq.add E (as_i32 (base + j)) n = Ok (as_i32 (base + (j + n))).
Proof.
  intros. unfold Seq.add. rewrite (proj2 (Z.leb_le _ _)) by done. f_equal. rewrite as_i32_add. f_equal. lia.
Qed.
End relative.

Lemma as_i32_eqb x y : - 2 ^ 32 < x - y < 2 ^ 32 → (as_i32 x =? as_i32 y) = (x =? y).
Proof.
  intros Hd. destruct (Z.eqb_spec x y) as [->|Hne]; [apply Z.eqb_refl|]. apply Z.eqb_neq. intros Heq.
  destruct (as_i32_split x) as [a Ha], (as_i32_split y) as [b Hb]. lia.
Qed.
Lemma seq_add_ok {E} a n : n <= i32_max → @Seq.add E a n = Ok (as_i32 (a + n)).
Proof. intros. unfold Seq.add. by rewrite (proj2 (Z.leb_le _ _)). Qed.
Lemma seq_sub_usize_ok {E} a n : n <= i32_max → @Seq.sub_usize E a n = Ok (as_i32 (a - n)).
Proof. intros. unfold Seq.sub_usize. by rewrite (proj2 (Z.leb_le _ _)). Qed.
Lemma checked_ok {E} lo hi x : lo <= x <= hi → @checked E lo hi x = Ok x.
Proof. intros. unfold checked. by rewrite !(proj2 (Z.leb_le _ _)) by lia. Qed.
