(* ===== verification/TcpTimers.v ===== *)
(** * Time, timers and estimators of a TCP socket

    Instants and durations (crates/smoltcp/src/time.rs), the round-trip-time
    estimator, the retransmission timer and the delayed-acknowledgement timer
    (socket/tcp.rs), and the congestion controllers (socket/tcp/congestion). *)
From stdpp Require Import prelude.
From S2P Require Import Prelude Wire.

(** ** Instants and durations: microseconds, in i64 and u64 *)

Module Time.
Definition from_millis {E} (millis : Z) : outcome E Z := u64_checked (millis * 1000).
Definition total_millis (micros : Z) : Z := micros / 1000.
Definition instant_add {E} (t d : Z) : outcome E Z := i64_checked (t + as_i64 d).
Definition instant_sub {E} (t t' : Z) : outcome E Z := d ← i64_checked (t - t'); Ok (Z.abs d).
Definition mul {E} (d k : Z) : outcome E Z := u64_checked (d * k).
(** [interval.map(|interval| timestamp + interval)] *)
Definition after {E} (t : Z) (interval : option Z) : outcome E (option Z) :=
  match interval with None => Ok None | Some d => a ← instant_add t d; Ok (Some a) end.
End Time.

(** When a socket asks to be polled next (socket/mod.rs), in the derived order *)
Inductive PollAt := Now | Time (t : Z) | Ingress.
Definition poll_le (a b : PollAt) : bool :=
  match a, b with
  | Now, _ => true
  | _, Now => false
  | Time t, Time t' => t <=? t'
  | Time _, Ingress => true
  | Ingress, Ingress => true
  | Ingress, Time _ => false
  end.
Definition poll_min (a b : PollAt) : PollAt := if poll_le a b then a else b.

(** ** The round-trip-time estimator *)

Module Rtte.
Definition INITIAL_RTO : Z := 1000.
Definition MIN_MARGIN : Z := 5.
Definition K : Z := 4.
Definition MIN_RTO : Z := 1000.
Definition MAX_RTO : Z := 60000.

Record RttEstimator := MkRtte {
  have_measurement : bool;
  srtt : Z;
  rttvar : Z;
  rto : Z;
  sampling : option (Z * Z);
  max_seq_sent : option Z;
  rto_count : Z }.
Abbreviation rtte A := (prog RttEstimator Empty_set A).

#[export] Instance rtte_eta : Eta RttEstimator := λ r,
  MkRtte (have_measurement r) (srtt r) (rttvar r) (rto r) (sampling r) (max_seq_sent r) (rto_count r).
#[export] Instance upd_have_measurement : Update have_measurement := ltac:(derive_update).
#[export] Instance upd_srtt : Update srtt := ltac:(derive_update).
#[export] Instance upd_rttvar : Update rttvar := ltac:(derive_update).
#[export] Instance upd_rto : Update rto := ltac:(derive_update).
#[export] Instance upd_sampling : Update sampling := ltac:(derive_update).
#[export] Instance upd_max_seq_sent : Update max_seq_sent := ltac:(derive_update).
#[export] Instance upd_rto_count : Update rto_count := ltac:(derive_update).

Definition default : RttEstimator := MkRtte false 0 0 INITIAL_RTO None None 0.

Definition retransmission_timeout {E} (r : RttEstimator) : outcome E Z := Time.from_millis (rto r).

Definition div_ceil (a b : Z) : Z := if a mod b =? 0 then a / b else a / b + 1.

Definition measure (new_rtt : Z) : rtte () :=
  have ← gets have_measurement;
  if (have : bool) then
    old_srtt ← gets srtt; old_rttvar ← gets rttvar;
    diff ← lift (i32_checked (as_i32 old_srtt - as_i32 new_rtt));
    v3 ← lift (u32_checked (old_rttvar * 3)); v ← lift (u32_checked (v3 + Z.abs diff));
    put rttvar (div_ceil v 4);;
    s7 ← lift (u32_checked (old_srtt * 7)); s8 ← lift (u32_checked (s7 + new_rtt));
    put srtt (div_ceil s8 8)
  else
    put have_measurement true;; put srtt new_rtt;; put rttvar (new_rtt / 2).
Definition sample (new_rtt : Z) : rtte () :=
  measure new_rtt;;
  v ← gets rttvar; s ← gets srtt;
  k ← lift (u32_checked (v * K));
  total ← lift (u32_checked (s + Z.max MIN_MARGIN k));
  put rto (Z.min (Z.max total MIN_RTO) MAX_RTO);;
  put rto_count 0.

Definition on_send (now seq : Z) : rtte () :=
  m ← gets max_seq_sent;
  if (match m with Some m => Seq.gt seq m | None => true end)
  then put max_seq_sent (Some seq);;
       t ← gets sampling;
       match t with None => put sampling (Some (now, seq)) | Some _ => mret () end
  else mret ().

Definition on_ack (now seq : Z) : rtte () :=
  t ← gets sampling;
  match t with
  | Some (sent_at, sent_seq) =>
      if Seq.ge seq sent_seq then
        d ← lift (Time.instant_sub now sent_at);
        sample (as_u32 (Time.total_millis d));;
        put sampling None
      else mret ()
  | None => mret ()
  end.

Definition on_retransmit : rtte () :=
  put sampling None;;
  r ← gets rto;
  twice ← lift (u32_checked (r * 2));
  put rto (Z.min twice MAX_RTO);;
  n ← gets rto_count;
  n' ← lift (checked 0 255 (n + 1));
  put rto_count n';;
  if 3 <=? n' then put rto_count 0;; put have_measurement false else mret ().
End Rtte.

(** ** The timer of a socket *)

Module Timer.
Inductive Timer :=
| Idle (keep_alive_at : option Z)
| Retransmit (expires_at : Z)
| FastRetransmit
| ZeroWindowProbe (expires_at delay : Z)
| Close (expires_at : Z).

Abbreviation CLOSE_DELAY := (10000 * 1000)%Z (only parsing).

Definition new : Timer := Idle None.
Definition should_keep_alive (now : Z) (t : Timer) : bool :=
  match t with Idle (Some at_) => at_ <=? now | _ => false end.
Definition should_retransmit (now : Z) (t : Timer) : bool :=
  match t with Retransmit at_ => at_ <=? now | FastRetransmit => true | _ => false end.
Definition should_close (now : Z) (t : Timer) : bool :=
  match t with Close at_ => at_ <=? now | _ => false end.
Definition should_zero_window_probe (now : Z) (t : Timer) : bool :=
  match t with ZeroWindowProbe at_ _ => at_ <=? now | _ => false end.
Definition poll_at (t : Timer) : PollAt :=
  match t with
  | Idle (Some at_) => Time at_
  | Idle None => Ingress
  | ZeroWindowProbe at_ _ => Time at_
  | Retransmit at_ => Time at_
  | FastRetransmit => Now
  | Close at_ => Time at_
  end.

Abbreviation timer_op := (prog Timer Empty_set ()).
Definition set_for_idle (now : Z) (interval : option Z) : timer_op :=
  at_ ← lift (Time.after now interval); modify (λ _, Idle at_).
Definition set_keep_alive : timer_op :=
  modify (λ t, match t with Idle None => Idle (Some 0) | _ => t end).
Definition rewind_keep_alive (now : Z) (interval : option Z) : timer_op :=
  t ← gets id;
  match t with
  | Idle _ => at_ ← lift (Time.after now interval); modify (λ _, Idle at_)
  | _ => mret ()
  end.
Definition set_for_retransmit (now delay : Z) : timer_op :=
  t ← gets id;
  match t with
  | Close _ => mret ()
  | _ => at_ ← lift (Time.instant_add now delay); modify (λ _, Retransmit at_)
  end.
Definition set_for_fast_retransmit : timer_op := modify (λ _, FastRetransmit).
Definition set_for_close (now : Z) : timer_op :=
  at_ ← lift (Time.instant_add now CLOSE_DELAY); modify (λ _, Close at_).
Definition set_for_zero_window_probe (now delay : Z) : timer_op :=
  at_ ← lift (Time.instant_add now delay); modify (λ _, ZeroWindowProbe at_ delay).
Definition rewind_zero_window_probe (now : Z) : timer_op :=
  t ← gets id;
  match t with
  | ZeroWindowProbe _ delay =>
      twice ← lift (Time.mul delay 2);
      longest ← lift (Time.from_millis Rtte.MAX_RTO);
      let delay := Z.min twice longest in
      at_ ← lift (Time.instant_add now delay); modify (λ _, ZeroWindowProbe at_ delay)
  | _ => mret ()
  end.
Definition is_idle (t : Timer) : bool := match t with Idle _ => true | _ => false end.
Definition is_zero_window_probe (t : Timer) : bool :=
  match t with ZeroWindowProbe _ _ => true | _ => false end.
Definition is_retransmit (t : Timer) : bool :=
  match t with Retransmit _ | FastRetransmit => true | _ => false end.
End Timer.

Inductive AckDelayTimer := AckIdle | Waiting (t : Z) | Immediate.

(** ** Congestion control *)

Module Congestion.
Record Reno := MkReno { cwnd : Z; min_cwnd : Z; ssthresh : Z; rwnd : Z }.
Definition reno_new : Reno := MkReno (1024 * 2) (1024 * 2) usize_max (64 * 1024).
Definition reno_on_ack (len : Z) (r : Reno) : Reno :=
  let '(len, ssthresh) :=
    if cwnd r <? ssthresh r then (len, ssthresh r) else (min_cwnd r, cwnd r) in
  MkReno (Z.max (Z.min (Z.min (cwnd r + len) usize_max) (rwnd r)) (min_cwnd r))
    (min_cwnd r) ssthresh (rwnd r).
Definition reno_on_duplicate_ack (r : Reno) : Reno :=
  MkReno (cwnd r) (min_cwnd r) (Z.max (Z.shiftr (cwnd r) 1) (min_cwnd r)) (rwnd r).
Definition reno_on_retransmit (r : Reno) : Reno :=
  MkReno (Z.max (Z.shiftr (cwnd r) 1) (min_cwnd r)) (min_cwnd r) (ssthresh r) (rwnd r).
Definition reno_set_mss (mss : Z) (r : Reno) : Reno :=
  MkReno (cwnd r) mss (ssthresh r) (rwnd r).
Definition reno_set_remote_window (w : Z) (r : Reno) : Reno :=
  if rwnd r <? w then MkReno (cwnd r) (min_cwnd r) (ssthresh r) w else r.

(** The controllers the integer code has; the methods [NoControl] does not
    override, and those [Reno] does not, are the trait's empty defaults. *)
Inductive AnyController := NoControl | WithReno (r : Reno).
Definition on_reno (f : Reno → Reno) (c : AnyController) : AnyController :=
  match c with NoControl => NoControl | WithReno r => WithReno (f r) end.
Definition window (c : AnyController) : Z :=
  match c with NoControl => usize_max | WithReno r => cwnd r end.
Definition on_ack (len : Z) : AnyController → AnyController := on_reno (reno_on_ack len).
Definition on_duplicate_ack : AnyController → AnyController := on_reno reno_on_duplicate_ack.
Definition on_retransmit : AnyController → AnyController := on_reno reno_on_retransmit.
Definition set_mss (mss : Z) : AnyController → AnyController := on_reno (reno_set_mss mss).
Definition set_remote_window (w : Z) : AnyController → AnyController := on_reno (reno_set_remote_window w).
Definition pre_transmit (c : AnyController) : AnyController := c.
Definition post_transmit (len : Z) (c : AnyController) : AnyController := c.
End Congestion.
