(* ===== verification/TcpSocket.v ===== *)
(** * The TCP socket: state and application interface
    (crates/smoltcp/src/socket/tcp.rs)

    The fields of [Socket] and the operations the application calls. Receiving
    and sending segments are in TcpProcess.v and TcpDispatch.v. *)
From stdpp Require Import prelude.
From S2P Require Import Prelude Wire TcpTimers Assembler RingBuffer.
Open Scope Z_scope.

Inductive ListenError := ListenInvalidState | ListenUnaddressable.
Inductive ConnectError := ConnectInvalidState | ConnectUnaddressable.
Inductive SendError := SendInvalidState.
Inductive RecvError := RecvInvalidState | RecvFinished.

Inductive State :=
| Closed | Listen | SynSent | SynReceived | Established | FinWait1 | FinWait2
| CloseWait | Closing | LastAck | TimeWait.
#[export] Instance state_eq_dec : EqDecision State.
Proof. solve_decision. Defined.

Record Tuple := MkTuple { local : IpEndpoint; remote : IpEndpoint }.
Inductive CongestionControl := CongestionNone | CongestionReno.

(** What a call sees of the interface: the time, the path MTU and the choice
    of a source address. *)
Record Context := MkContext {
  now : Z; ip_mtu : Z; get_source_address : IpAddress → option IpAddress }.

(** The socket. The last two fields are the state of what the calls on it
    advance besides: the generator of random numbers of the interface, and the
    number of answers taken from the timestamp generator. *)
Record Socket := MkSocket {
  state : State;
  timer : Timer.Timer;
  rtte : Rtte.RttEstimator;
  assembler : list Assembler.Contig;
  rx_buffer : Ring.RingBuffer Z;
  rx_fin_received : bool;
  tx_buffer : Ring.RingBuffer Z;
  timeout : option Z;
  keep_alive : option Z;
  hop_limit : option Z;
  listen_endpoint : IpListenEndpoint;
  bound_endpoint : IpListenEndpoint;
  tuple : option Tuple;
  local_seq_no : Z;
  remote_seq_no : Z;
  remote_last_seq : Z;
  remote_last_ack : option Z;
  remote_last_win : Z;
  remote_win_shift : Z;
  remote_win_len : Z;
  remote_win_scale : option Z;
  remote_has_sack : bool;
  remote_mss : Z;
  remote_last_ts : option Z;
  local_rx_last_seq : option Z;
  local_rx_last_ack : option Z;
  local_rx_dup_acks : Z;
  ack_delay : option Z;
  ack_delay_timer : AckDelayTimer;
  challenge_ack_timer : Z;
  nagle : bool;
  congestion_controller : Congestion.AnyController;
  tsval_generator : option (nat → Z);
  last_remote_tsval : Z;
  rand_state : Z;
  tsval_calls : nat }.

#[export] Instance socket_eta : Eta Socket := λ s,
  MkSocket (state s) (timer s) (rtte s) (assembler s) (rx_buffer s) (rx_fin_received s) (tx_buffer s)
    (timeout s) (keep_alive s) (hop_limit s) (listen_endpoint s) (bound_endpoint s) (tuple s)
    (local_seq_no s) (remote_seq_no s) (remote_last_seq s) (remote_last_ack s) (remote_last_win s)
    (remote_win_shift s) (remote_win_len s) (remote_win_scale s) (remote_has_sack s) (remote_mss s)
    (remote_last_ts s) (local_rx_last_seq s) (local_rx_last_ack s) (local_rx_dup_acks s) (ack_delay s)
    (ack_delay_timer s) (challenge_ack_timer s) (nagle s) (congestion_controller s) (tsval_generator s)
    (last_remote_tsval s) (rand_state s) (tsval_calls s).
#[export] Instance upd_state : Update state := ltac:(derive_update).
#[export] Instance upd_timer : Update timer := ltac:(derive_update).
#[export] Instance upd_rtte : Update rtte := ltac:(derive_update).
#[export] Instance upd_assembler : Update assembler := ltac:(derive_update).
#[export] Instance upd_rx_buffer : Update rx_buffer := ltac:(derive_update).
#[export] Instance upd_rx_fin_received : Update rx_fin_received := ltac:(derive_update).
#[export] Instance upd_tx_buffer : Update tx_buffer := ltac:(derive_update).
#[export] Instance upd_timeout : Update timeout := ltac:(derive_update).
#[export] Instance upd_keep_alive : Update keep_alive := ltac:(derive_update).
#[export] Instance upd_hop_limit : Update hop_limit := ltac:(derive_update).
#[export] Instance upd_listen_endpoint : Update listen_endpoint := ltac:(derive_update).
#[export] Instance upd_bound_endpoint : Update bound_endpoint := ltac:(derive_update).
#[export] Instance upd_tuple : Update tuple := ltac:(derive_update).
#[export] Instance upd_local_seq_no : Update local_seq_no := ltac:(derive_update).
#[export] Instance upd_remote_seq_no : Update remote_seq_no := ltac:(derive_update).
#[export] Instance upd_remote_last_seq : Update remote_last_seq := ltac:(derive_update).
#[export] Instance upd_remote_last_ack : Update remote_last_ack := ltac:(derive_update).
#[export] Instance upd_remote_last_win : Update remote_last_win := ltac:(derive_update).
#[export] Instance upd_remote_win_shift : Update remote_win_shift := ltac:(derive_update).
#[export] Instance upd_remote_win_len : Update remote_win_len := ltac:(derive_update).
#[export] Instance upd_remote_win_scale : Update remote_win_scale := ltac:(derive_update).
#[export] Instance upd_remote_has_sack : Update remote_has_sack := ltac:(derive_update).
#[export] Instance upd_remote_mss : Update remote_mss := ltac:(derive_update).
#[export] Instance upd_remote_last_ts : Update remote_last_ts := ltac:(derive_update).
#[export] Instance upd_local_rx_last_seq : Update local_rx_last_seq := ltac:(derive_update).
#[export] Instance upd_local_rx_last_ack : Update local_rx_last_ack := ltac:(derive_update).
#[export] Instance upd_local_rx_dup_acks : Update local_rx_dup_acks := ltac:(derive_update).
#[export] Instance upd_ack_delay : Update ack_delay := ltac:(derive_update).
#[export] Instance upd_ack_delay_timer : Update ack_delay_timer := ltac:(derive_update).
#[export] Instance upd_challenge_ack_timer : Update challenge_ack_timer := ltac:(derive_update).
#[export] Instance upd_nagle : Update nagle := ltac:(derive_update).
#[export] Instance upd_congestion_controller : Update congestion_controller := ltac:(derive_update).
#[export] Instance upd_tsval_generator : Update tsval_generator := ltac:(derive_update).
#[export] Instance upd_last_remote_tsval : Update last_remote_tsval := ltac:(derive_update).
#[export] Instance upd_rand_state : Update rand_state := ltac:(derive_update).
#[export] Instance upd_tsval_calls : Update tsval_calls := ltac:(derive_update).

(** Lengths of the buffers, as numbers of sequence space *)
Definition rx_len (s : Socket) : Z := Z.of_nat (Ring.len (rx_buffer s)).
Definition rx_capacity (s : Socket) : Z := Z.of_nat (Ring.capacity (rx_buffer s)).
Definition tx_len (s : Socket) : Z := Z.of_nat (Ring.len (tx_buffer s)).

Abbreviation DEFAULT_MSS := 536%Z (only parsing).
Abbreviation ACK_DELAY_DEFAULT := (10 * 1000)%Z (only parsing).
Definition u16_max : Z := 65535.

(** [usize::BITS - capacity.leading_zeros()], and the window shift for it *)
Definition cap_log2 (capacity : Z) : Z := if capacity =? 0 then 0 else Z.log2 capacity + 1.
Definition win_shift (capacity : Z) : Z := Z.max 0 (cap_log2 capacity - 16).

(** ** Creation and options *)

(** [max_segments] is the build-time constant ASSEMBLER_MAX_SEGMENT_COUNT. *)
Definition new {E} (max_segments : nat) (rx_buffer tx_buffer : Ring.RingBuffer Z) (seed : Z) : outcome E Socket :=
  let capacity := Z.of_nat (Ring.capacity rx_buffer) in
  if Z.shiftl 1 30 <? capacity then Panic else
  Ok (MkSocket Closed Timer.new Rtte.default (Assembler.new max_segments) rx_buffer false tx_buffer
    None None None default_listen_endpoint default_listen_endpoint None
    0 0 0 None 0 (win_shift capacity) 0 None false DEFAULT_MSS None None None 0
    (Some ACK_DELAY_DEFAULT) AckIdle 0 true Congestion.NoControl None 0 seed 0).

Definition set_tsval_generator (g : option (nat → Z)) : prog Socket Empty_set () := put tsval_generator g.
Definition timestamp_enabled (s : Socket) : bool := bool_decide (is_Some (tsval_generator s)).
Definition set_congestion_control (c : CongestionControl) : prog Socket Empty_set () :=
  put congestion_controller
    match c with
    | CongestionNone => Congestion.NoControl
    | CongestionReno => Congestion.WithReno Congestion.reno_new
    end.
Definition congestion_control (s : Socket) : CongestionControl :=
  match congestion_controller s with
  | Congestion.NoControl => CongestionNone
  | Congestion.WithReno _ => CongestionReno
  end.
Definition set_timeout (d : option Z) : prog Socket Empty_set () := put timeout d.
Definition set_ack_delay (d : option Z) : prog Socket Empty_set () := put ack_delay d.
Definition set_nagle_enabled (enabled : bool) : prog Socket Empty_set () := put nagle enabled.
Definition set_keep_alive (interval : option Z) : prog Socket Empty_set () :=
  put keep_alive interval;;
  match interval with Some _ => on timer Timer.set_keep_alive | None => mret () end.
Definition set_hop_limit (h : option Z) : prog Socket Empty_set () :=
  match h with Some 0 => panic | _ => put hop_limit h end.
Definition set_bound_endpoint (e : IpListenEndpoint) : prog Socket Empty_set () := put bound_endpoint e.
Definition local_endpoint (s : Socket) : option IpEndpoint := local <$> tuple s.
Definition remote_endpoint (s : Socket) : option IpEndpoint := remote <$> tuple s.

(** ** Windows *)

Definition u16_or_max (n : Z) : Z := if n <=? u16_max then n else u16_max.
Definition scaled_window {E} (s : Socket) : outcome E Z :=
  w ← Ring.window (rx_buffer s); Ok (u16_or_max (Z.shiftr (Z.of_nat w) (remote_win_shift s))).
(** The sequence number after the last octet received in order *)
Definition next_ack {E} (s : Socket) : outcome E Z := Seq.add (remote_seq_no s) (rx_len s).
Definition last_scaled_window {E} (s : Socket) : outcome E (option Z) :=
  match remote_last_ack s with
  | None => Ok None
  | Some last_ack =>
      next ← next_ack s;
      let last_win := Z.shiftl (remote_last_win s) (remote_win_shift s) in
      right_edge ← Seq.add last_ack last_win;
      last_win_adjusted ← Seq.sub right_edge next;
      Ok (Some (u16_or_max (Z.shiftr last_win_adjusted (remote_win_shift s))))
  end.

(** ** Opening and closing *)

Definition set_state (st : State) {E} : prog Socket E () := put state st.

Definition reset {E} : prog Socket E () :=
  capacity ← gets rx_capacity;
  put state Closed;;
  put timer Timer.new;;
  put rtte Rtte.default;;
  modify (update assembler (λ l, Assembler.new (length l)));;
  on tx_buffer Ring.clear;;
  on rx_buffer Ring.clear;;
  put rx_fin_received false;;
  put listen_endpoint default_listen_endpoint;;
  put tuple None;;
  put local_seq_no 0;;
  put remote_seq_no 0;;
  put remote_last_seq 0;;
  put remote_last_ack None;;
  put remote_last_win 0;;
  put remote_win_len 0;;
  put remote_win_scale None;;
  put remote_win_shift (win_shift capacity);;
  put remote_mss DEFAULT_MSS;;
  put remote_last_ts None;;
  put ack_delay_timer AckIdle;;
  put challenge_ack_timer 0.

Definition is_listening (s : Socket) : bool := match state s with Listen => true | _ => false end.
Definition is_open (s : Socket) : bool := match state s with Closed | TimeWait => false | _ => true end.
Definition is_active (s : Socket) : bool :=
  match state s with Closed | TimeWait | Listen => false | _ => true end.
Definition may_send (s : Socket) : bool :=
  match state s with Established | CloseWait => true | _ => false end.
Definition may_recv (s : Socket) : bool :=
  match state s with
  | Established | FinWait1 | FinWait2 => true
  | _ => negb (Ring.is_empty (rx_buffer s))
  end.
Definition can_send {E} (s : Socket) : outcome E bool :=
  if negb (may_send s) then Ok false else full ← Ring.is_full (tx_buffer s); Ok (negb full).
Definition can_recv (s : Socket) : bool :=
  if negb (may_recv s) then false else negb (Ring.is_empty (rx_buffer s)).

Definition listen (local_endpoint : IpListenEndpoint) : prog Socket ListenError () :=
  if listen_port local_endpoint =? 0 then throw ListenUnaddressable else
  open_ ← gets is_open;
  if (open_ : bool) then
    st ← gets state; e ← gets listen_endpoint;
    if bool_decide (st = Listen) && bool_decide (e = local_endpoint)
    then mret () else throw ListenInvalidState
  else
    reset;;
    put listen_endpoint local_endpoint;;
    put tuple None;;
    set_state Listen.

(** sPCG32 ([Rand::rand_u32], rand.rs) and the initial sequence number *)
Definition rand_u32 {E} : prog Socket E Z :=
  st ← gets rand_state;
  let s := (st * 0xbb2efcec3c39611d + 0x7590ef39) mod 2 ^ 64 in
  put rand_state s;;
  mret (as_u32 (Z.shiftr s (29 - Z.shiftr s 61))).
Definition random_seq_no {E} : prog Socket E Z := n ← rand_u32; mret (as_i32 n).

Definition connect (cx : Context) (remote_endpoint : IpEndpoint) (local_endpoint : IpListenEndpoint) :
    prog Socket ConnectError () :=
  open_ ← gets is_open;
  if (open_ : bool) then throw ConnectInvalidState else
  if (port remote_endpoint =? 0) || is_unspecified (addr remote_endpoint) then throw ConnectUnaddressable else
  if listen_port local_endpoint =? 0 then throw ConnectUnaddressable else
  a ← match listen_addr local_endpoint with
      | Some a => if is_unspecified a then throw ConnectUnaddressable else mret a
      | None => lift (ok_or ConnectUnaddressable (get_source_address cx (addr remote_endpoint)))
      end;
  if negb (bool_decide (version a = version (addr remote_endpoint))) then throw ConnectUnaddressable else
  reset;;
  put tuple (Some (MkTuple (MkEndpoint a (listen_port local_endpoint)) remote_endpoint));;
  set_state SynSent;;
  seq ← random_seq_no;
  put local_seq_no seq;;
  put remote_last_seq seq.

Definition close : prog Socket Empty_set () :=
  st ← gets state;
  match st with
  | Listen => set_state Closed
  | SynSent => set_state Closed
  | SynReceived | Established => set_state FinWait1
  | CloseWait => set_state LastAck
  | FinWait1 | FinWait2 | Closing | TimeWait | LastAck | Closed => mret ()
  end.
Definition abort : prog Socket Empty_set () := set_state Closed.

(** ** Sending and receiving data *)

Definition send_impl {R} (f : prog (Ring.RingBuffer Z) Empty_set (nat * R)) : prog Socket SendError R :=
  may ← gets may_send;
  if negb may then throw SendInvalidState else
  old_length ← gets tx_len;
  '(size, result) ← total (on tx_buffer f);
  (if (0 <? size)%nat then
     (if old_length =? 0 then put remote_last_ts None else mret ());;
     w ← gets remote_win_len; t ← gets timer;
     if (w =? 0) && Timer.is_idle t then
       delay ← inspect (λ s, Rtte.retransmission_timeout (rtte s));
       total (on timer (Timer.set_for_zero_window_probe 0 delay))
     else mret ()
   else mret ());;
  mret result.
Definition send {R} (f : list Z → nat * R * list Z) : prog Socket SendError R :=
  send_impl (Ring.enqueue_many_with f).
Definition send_slice (data : list Z) : prog Socket SendError nat :=
  send_impl (size ← Ring.enqueue_slice data; mret (size, size)).

Definition recv_error_check : prog Socket RecvError () :=
  may ← gets may_recv;
  if negb may then
    fin ← gets rx_fin_received;
    if (fin : bool) then throw RecvFinished else throw RecvInvalidState
  else mret ().
Definition recv_impl {R} (f : prog (Ring.RingBuffer Z) Empty_set (nat * R)) : prog Socket RecvError R :=
  recv_error_check;;
  '(size, result) ← total (on rx_buffer f);
  seq ← inspect (λ s, Seq.add (remote_seq_no s) (Z.of_nat size));
  put remote_seq_no seq;;
  mret result.
Definition recv {R} (f : list Z → nat * R * list Z) : prog Socket RecvError R :=
  recv_impl (Ring.dequeue_many_with f).
(** The slice is passed as its old content and returned with the octets read. *)
Definition recv_slice (data : list Z) : prog Socket RecvError (nat * list Z) :=
  recv_impl ('(size, data) ← Ring.dequeue_slice data; mret (size, (size, data))).
Definition peek (size : nat) : prog Socket RecvError (list Z) :=
  recv_error_check;; total (on rx_buffer (Ring.get_allocated 0 size)).
Definition peek_slice (data : list Z) : prog Socket RecvError (nat * list Z) :=
  total (on rx_buffer (Ring.read_allocated 0 data)).
Definition send_queue (s : Socket) : nat := Ring.len (tx_buffer s).
Definition recv_queue (s : Socket) : nat := Ring.len (rx_buffer s).
