(* ===== verification/TcpProcess.v ===== *)
(** * The TCP socket: receiving a segment
    (crates/smoltcp/src/socket/tcp.rs, [reply] to [process])

    [process] is written as the sequence of its stages. A [return] in the middle
    of the function is the error of the stage's program, and [process] turns it
    into its result. *)
From stdpp Require Import prelude.
From S2P Require Import Prelude Wire TcpTimers Assembler RingBuffer TcpSocket.
Open Scope Z_scope.

Abbreviation segment := (IpRepr * TcpRepr)%type.
Abbreviation stage A := (prog Socket (option segment) A).

(** ** Replies *)

Definition no_sack_ranges : list (option (Z * Z)) := [None; None; None].

Definition reply {E} (ip_repr : IpRepr) (repr : TcpRepr) : outcome E segment :=
  let reply_repr := MkRepr (dst_port repr) (src_port repr) CNone 0 None 0 None None false no_sack_ranges None [] in
  ip ← ip_repr_new (dst_addr ip_repr) (src_addr ip_repr) Tcp (buffer_len reply_repr) 64;
  Ok (ip, reply_repr).

Definition rst_reply {E} (ip_repr : IpRepr) (repr : TcpRepr) : outcome E segment :=
  assert (negb (bool_decide (control repr = Rst)));;
  '(ip, r) ← reply ip_repr repr;
  let r := update control (λ _, Rst) r in
  let r := update seq_number (λ _, default 0 (ack_number repr)) r in
  match control repr, ack_number repr with
  | Syn, None =>
      ack ← Seq.add (seq_number repr) (segment_len repr);
      Ok (ip, update ack_number (λ _, Some ack) r)
  | _, _ => Ok (ip, r)
  end.

(** The timestamp option of an outgoing segment *)
Definition generate_reply_with_tsval {E} (tsval : Z) : prog Socket E (option TcpTimestampRepr) :=
  g ← gets tsval_generator;
  match g with
  | None => mret None
  | Some g => n ← gets tsval_calls; put tsval_calls (S n);; mret (Some (MkTimestamp (g n) tsval))
  end.
Definition generate_reply {E} (t : option TcpTimestampRepr) : prog Socket E (option TcpTimestampRepr) :=
  match t with Some t => generate_reply_with_tsval (tsval t) | None => mret None end.

(** The first range of the assembler that satisfies a predicate: the iterator is
    advanced only as far as needed. *)
Fixpoint find_range {E} (fuel : nat) (p : Z * Z → bool) (l : list Assembler.Contig) (offset left : Z) :
    outcome E (option (Z * Z)) :=
  match fuel with
  | O => Ok None
  | S fuel =>
    '(range, left, rest) ← unwrap (Assembler.iter_next l offset left);
    match range with
    | None => Ok None
    | Some (lo, hi) =>
        let r := (as_u32 lo, as_u32 hi) in
        if p r then Ok (Some r) else find_range fuel p rest offset left
    end
  end.
Definition sack_range {E} (s : Socket) (ack : Z) : outcome E (option (Z * Z)) :=
  let find p := find_range (S (length (assembler s))) p (assembler s) (as_usize ack) 0 in
  r ← match local_rx_last_seq s with
      | Some last_seg_seq =>
          let last_seg_seq := as_u32 last_seg_seq in
          find (λ r, (r.1 <=? last_seg_seq) && (last_seg_seq <=? r.2))
      | None => Ok None
      end;
  match r with
  | Some r => Ok (Some r)
  | None => find (λ _, true)
  end.

Definition ack_reply {E} (ip_repr : IpRepr) (repr : TcpRepr) : prog Socket E segment :=
  '(ip, r) ← lift (reply ip_repr repr);
  ts ← generate_reply (timestamp repr);
  let r := update timestamp (λ _, ts) r in
  seq ← gets remote_last_seq;
  let r := update seq_number (λ _, seq) r in
  ack ← inspect next_ack;
  let r := update ack_number (λ _, Some ack) r in
  put remote_last_ack (Some ack);;
  win ← inspect scaled_window;
  let r := update window_len (λ _, win) r in
  put remote_last_win win;;
  has_sack ← gets remote_has_sack;
  r ← (if (has_sack : bool) then
         range ← inspect (λ s, sack_range s ack);
         mret (update sack_ranges (λ _, [range; None; None]) r)
       else mret r);
  mret (set_payload_len (buffer_len r) ip, r).

Definition challenge_ack_reply {E} (cx : Context) (ip_repr : IpRepr) (repr : TcpRepr) :
    prog Socket E (option segment) :=
  t ← gets challenge_ack_timer;
  if now cx <? t then mret None else
  t' ← lift (Time.instant_add (now cx) (1 * 1000000));
  put challenge_ack_timer t';;
  r ← ack_reply ip_repr repr;
  mret (Some r).

(** ** Which segments are for this socket *)

Definition accepts (ip_repr : IpRepr) (repr : TcpRepr) (s : Socket) : bool :=
  if bool_decide (state s = Closed) then false else
  if bool_decide (state s = Listen) &&
     (bool_decide (is_Some (ack_number repr)) || bool_decide (control repr = Rst)) then false else
  match tuple s with
  | Some t =>
      bool_decide (dst_addr ip_repr = addr (local t)) && (dst_port repr =? port (local t)) &&
      bool_decide (src_addr ip_repr = addr (remote t)) && (src_port repr =? port (remote t))
  | None =>
      match listen_addr (listen_endpoint s) with
      | Some a => bool_decide (dst_addr ip_repr = a)
      | None => true
      end && negb (dst_port repr =? 0) && (dst_port repr =? listen_port (listen_endpoint s))
  end.

(** ** The acknowledgement must be acceptable *)

(** Whether a SYN or a FIN of ours is in the sequence space *)
Definition sent_syn (s : Socket) : bool := match state s with SynSent | SynReceived => true | _ => false end.
Definition sent_fin (s : Socket) : bool := match state s with FinWait1 | LastAck | Closing => true | _ => false end.
Definition flag_len (b : bool) : Z := if b then 1 else 0.

(** Continue only if the acknowledgement is exactly that of the SYN. *)
Definition exact_ack {A} (ack_number : Z) (k k' : stage A) : stage A :=
  expected ← inspect (λ s, Seq.add (local_seq_no s) 1);
  if ack_number =? expected then k else k'.
Definition send_rst {A} (ip_repr : IpRepr) (repr : TcpRepr) : stage A :=
  r ← lift (rst_reply ip_repr repr); throw (Some r).

Definition check_ack_range (cx : Context) (ip_repr : IpRepr) (repr : TcpRepr) (ack_number : Z) : stage () :=
  unacknowledged ← gets (λ s, tx_len s + (flag_len (sent_syn s) + flag_len (sent_fin s)));
  ack_min ← inspect (λ s, if sent_syn s then Seq.add (local_seq_no s) 1 else Ok (local_seq_no s));
  ack_max ← inspect (λ s, Seq.add (local_seq_no s) unacknowledged);
  if Seq.lt ack_number ack_min then throw None else
  if Seq.gt ack_number ack_max then r ← challenge_ack_reply cx ip_repr repr; throw r else
  mret ().

Definition check_ack (cx : Context) (ip_repr : IpRepr) (repr : TcpRepr) : stage () :=
  st ← gets state;
  match st, control repr, ack_number repr with
  | SynSent, Rst, None => throw None
  | SynSent, Rst, Some ack_number => exact_ack ack_number (mret ()) (throw None)
  | _, Rst, _ => mret ()
  | Listen, _, None => mret ()
  | Listen, _, Some _ => panic
  | SynSent, Syn, Some ack_number => exact_ack ack_number (mret ()) (send_rst ip_repr repr)
  | SynSent, Syn, None => mret ()
  | SynSent, CNone, Some ack_number => exact_ack ack_number (throw None) (send_rst ip_repr repr)
  | SynSent, _, _ => throw None
  | _, _, None => throw None
  | SynReceived, _, Some ack_number => exact_ack ack_number (mret ()) (send_rst ip_repr repr)
  | _, _, Some ack_number => check_ack_range cx ip_repr repr ack_number
  end.

(** ** The segment must lie in the receive window *)

Definition segment_in_window {E} (segment_start segment_end window_start window_end : Z) : outcome E bool :=
  before ← Seq.sub_usize window_start 1;
  Ok match segment_start =? segment_end, window_start =? window_end with
     | true, zero_window =>
         if segment_end =? before then false else
         if zero_window then window_start =? segment_start
         else Seq.le window_start segment_start && Seq.lt segment_start window_end
     | false, true => false
     | false, false =>
         (Seq.le window_start segment_start && Seq.lt segment_start window_end) ||
         (Seq.lt window_start segment_end && Seq.le segment_end window_end)
     end.

(** The sequence numbers of the window and of the segment *)
Definition window_bounds {E} (s : Socket) : outcome E (Z * Z) :=
  window_start ← next_ack s;
  window_end ← Seq.add (remote_seq_no s) (rx_capacity s);
  Ok (window_start, window_end).
Definition segment_bounds {E} (repr : TcpRepr) : outcome E (Z * Z) :=
  segment_end ← Seq.add (seq_number repr) (plen repr); Ok (seq_number repr, segment_end).

(** [&payload[lo..hi]] *)
Definition sub_slice {E} (l : list Z) (lo hi : Z) : outcome E (list Z) :=
  if (lo <=? hi) && (hi <=? Z.of_nat (length l)) then Ok (slice (Z.to_nat lo) (Z.to_nat (hi - lo)) l) else Panic.

(** The part of the payload that falls in the window, and its offset there *)
Definition overlap (repr : TcpRepr) (window_start window_end segment_start segment_end : Z) : stage (list Z * Z) :=
  let overlap_start := Seq.max window_start segment_start in
  let overlap_end := Seq.min window_end segment_end in
  lift (assert (Seq.le overlap_start overlap_end));;
  put local_rx_last_seq (Some (seq_number repr));;
  lo ← lift (Seq.sub overlap_start segment_start);
  hi ← lift (Seq.sub overlap_end segment_start);
  part ← lift (sub_slice (payload repr) lo hi);
  offset ← lift (Seq.sub overlap_start window_start);
  mret (part, offset).
Definition refuse {A} (cx : Context) (ip_repr : IpRepr) (repr : TcpRepr) : stage A :=
  st ← gets state;
  (if bool_decide (st = TimeWait) then total (on timer (Timer.set_for_close (now cx))) else mret ());;
  r ← challenge_ack_reply cx ip_repr repr; throw r.

Definition trim_payload (cx : Context) (ip_repr : IpRepr) (repr : TcpRepr) : stage (list Z * Z) :=
  '(window_start, window_end) ← inspect window_bounds;
  '(segment_start, segment_end) ← lift (segment_bounds repr);
  st ← gets state;
  match st with
  | Listen | SynSent => mret ([], 0)
  | _ =>
    in_window ← lift (segment_in_window segment_start segment_end window_start window_end);
    if (in_window : bool) then overlap repr window_start window_end segment_start segment_end
    else refuse cx ip_repr repr
  end.

(** ** What the segment acknowledges *)

Record Acked := MkAcked { ack_len : Z; ack_of_fin : bool; ack_all : bool }.

Definition acked_octets (ack_number : Z) (s : Socket) : outcome (option segment) Acked :=
  tx_buffer_start_seq ← Seq.add (local_seq_no s) (flag_len (sent_syn s));
  if Seq.ge ack_number tx_buffer_start_seq then
    len ← Seq.sub ack_number tx_buffer_start_seq;
    let all := Seq.le (remote_last_seq s) ack_number in
    if sent_fin s && (tx_len s + 1 =? len) then Ok (MkAcked (len - 1) true all) else Ok (MkAcked len false all)
  else Ok (MkAcked 0 false false).

Definition count_acked (cx : Context) (repr : TcpRepr) : stage Acked :=
  match control repr, ack_number repr with
  | Rst, _ | _, None => mret (MkAcked 0 false false)
  | _, Some ack_number =>
      a ← inspect (acked_octets ack_number);
      total (on rtte (Rtte.on_ack (now cx) ack_number));;
      modify (update congestion_controller (Congestion.on_ack (ack_len a)));;
      mret a
  end.

(** ** The state machine *)

(** The control flag to act on: a FIN counts only if no data before it is missing. *)
Definition effective_control {E} (repr : TcpRepr) (s : Socket) : outcome E Control :=
  window_start ← next_ack s;
  let c := quash_psh (control repr) in
  Ok (if bool_decide (c = Fin) && Seq.lt window_start (seq_number repr) then CNone else c).

(** The options of a SYN, in both states that accept one *)
Definition take_mss (repr : TcpRepr) : stage () :=
  match max_seg_size repr with
  | Some 0 => throw None
  | Some mss =>
      modify (update congestion_controller (Congestion.set_mss mss));;
      put remote_mss mss
  | None => mret ()
  end.
Definition take_options (repr : TcpRepr) : stage () :=
  put remote_has_sack (sack_permitted repr);;
  put remote_win_scale (window_scale repr);;
  match window_scale repr with None => put remote_win_shift 0 | Some _ => mret () end;;
  match timestamp repr with None => put tsval_generator None | Some _ => mret () end.

Definition on_syn_listening (cx : Context) (ip_repr : IpRepr) (repr : TcpRepr) : stage () :=
  take_mss repr;;
  put tuple (Some (MkTuple (MkEndpoint (dst_addr ip_repr) (dst_port repr))
                           (MkEndpoint (src_addr ip_repr) (src_port repr))));;
  iss ← random_seq_no;
  put local_seq_no iss;;
  seq ← lift (Seq.add (seq_number repr) 1);
  put remote_seq_no seq;;
  put remote_last_seq iss;;
  take_options repr;;
  set_state SynReceived;;
  k ← gets keep_alive;
  total (on timer (Timer.set_for_idle (now cx) k)).

Definition on_syn_connecting (repr : TcpRepr) : stage () :=
  take_mss repr;;
  seq ← lift (Seq.add (seq_number repr) 1);
  put remote_seq_no seq;;
  last ← inspect (λ s, Seq.add (local_seq_no s) 1);
  put remote_last_seq last;;
  put remote_last_ack (Some (seq_number repr));;
  take_options repr;;
  set_state (if ack_number repr is Some _ then Established else SynReceived).

(** [self.remote_seq_no += 1; self.rx_fin_received = true] *)
Definition take_fin : stage () :=
  seq ← inspect (λ s, Seq.add (remote_seq_no s) 1);
  put remote_seq_no seq;;
  put rx_fin_received true.
Definition enter_time_wait (cx : Context) : stage () :=
  set_state TimeWait;; total (on timer (Timer.set_for_close (now cx))).

(** A RST flips SYN-RECEIVED back to LISTEN if it came from there, else it closes. *)
Definition on_rst : stage () :=
  st ← gets state; port ← gets (λ s, listen_port (listen_endpoint s));
  if bool_decide (st = SynReceived) && negb (port =? 0)
  then put tuple None;; set_state Listen;; throw None
  else set_state Closed;; put tuple None;; throw None.

Definition transition (cx : Context) (ip_repr : IpRepr) (repr : TcpRepr) (c : Control) (ack_of_fin : bool) : stage () :=
  st ← gets state;
  match st, c with
  | Listen, Rst => throw None
  | _, Rst => on_rst
  | Listen, Syn => on_syn_listening cx ip_repr repr
  | SynReceived, CNone => set_state Established
  | SynReceived, Fin => take_fin;; set_state CloseWait
  | SynSent, Syn => on_syn_connecting repr
  | Established, CNone => mret ()
  | Established, Fin => take_fin;; set_state CloseWait
  | FinWait1, CNone => if ack_of_fin then set_state FinWait2 else mret ()
  | FinWait1, Fin => take_fin;; if ack_of_fin then enter_time_wait cx else set_state Closing
  | FinWait2, CNone => mret ()
  | FinWait2, Fin => take_fin;; enter_time_wait cx
  | Closing, CNone => if ack_of_fin then enter_time_wait cx else mret ()
  | CloseWait, CNone => mret ()
  | LastAck, CNone => if ack_of_fin then set_state Closed;; put tuple None else mret ()
  | _, _ => throw None
  end.

(** ** The sender's view of the remote end *)

Definition count_duplicate_ack (repr : TcpRepr) (is_window_update : bool) (ack_number : Z) : stage () :=
  last ← gets local_rx_last_ack; last_seq ← gets remote_last_seq;
  if match last with
     | Some last_rx_ack =>
         bool_decide (payload repr = []) && (last_rx_ack =? ack_number) &&
         Seq.lt ack_number last_seq && negb is_window_update
     | None => false
     end
  then
    modify (update local_rx_dup_acks (λ n, Z.min (n + 1) 255));;
    modify (update congestion_controller Congestion.on_duplicate_ack);;
    n ← gets local_rx_dup_acks;
    if n =? 3 then total (on timer Timer.set_for_fast_retransmit) else mret ()
  else
    put local_rx_dup_acks 0;;
    put local_rx_last_ack (Some ack_number).

Definition take_ack (repr : TcpRepr) (is_window_update : bool) : stage () :=
  match ack_number repr with
  | Some ack_number =>
      count_duplicate_ack repr is_window_update ack_number;;
      put local_seq_no ack_number;;
      last_seq ← gets remote_last_seq;
      if Seq.lt last_seq ack_number then put remote_last_seq ack_number else mret ()
  | None => mret ()
  end.

Definition update_remote (cx : Context) (repr : TcpRepr) (acked : Acked) : stage () :=
  put remote_last_ts (Some (now cx));;
  scale ← gets remote_win_scale;
  let scale := match control repr with Syn => 0 | _ => default 0 scale end in
  let new_remote_win_len := Z.shiftl (window_len repr) scale in
  old ← gets remote_win_len;
  let is_window_update := negb (new_remote_win_len =? old) in
  put remote_win_len new_remote_win_len;;
  modify (update congestion_controller (Congestion.set_remote_window new_remote_win_len));;
  (if 0 <? ack_len acked then
     inspect (λ s, assert (ack_len acked <=? tx_len s));;
     total (on tx_buffer (Ring.dequeue_allocated (Z.to_nat (ack_len acked))))
   else mret ());;
  take_ack repr is_window_update.

Definition refresh_timer (cx : Context) (acked : Acked) : stage () :=
  t ← gets timer; k ← gets keep_alive;
  match t with
  | Timer.Retransmit _ | Timer.FastRetransmit =>
      if ack_all acked then total (on timer (Timer.set_for_idle (now cx) k)) else
      if 0 <? ack_len acked then
        rto ← inspect (λ s, Rtte.retransmission_timeout (rtte s));
        total (on timer (Timer.set_for_retransmit (now cx) rto))
      else mret ()
  | Timer.Idle _ => total (on timer (Timer.set_for_idle (now cx) k))
  | _ => mret ()
  end.
Definition start_probing (cx : Context) (acked : Acked) : stage () :=
  w ← gets remote_win_len; empty ← gets (λ s, Ring.is_empty (tx_buffer s)); t ← gets timer;
  if (w =? 0) && negb empty && (Timer.is_idle t || (0 <? ack_len acked)) then
    delay ← inspect (λ s, Rtte.retransmission_timeout (rtte s));
    total (on timer (Timer.set_for_zero_window_probe (now cx) delay))
  else mret ().
Definition stop_probing (cx : Context) : stage () :=
  w ← gets remote_win_len; t ← gets timer; k ← gets keep_alive;
  if negb (w =? 0) && Timer.is_zero_window_probe t then total (on timer (Timer.set_for_idle (now cx) k)) else mret ().

Definition update_timers (cx : Context) (repr : TcpRepr) (acked : Acked) : stage () :=
  match timestamp repr with Some t => put last_remote_tsval (tsval t) | None => mret () end;;
  refresh_timer cx acked;;
  start_probing cx acked;;
  stop_probing cx.

(** ** Reassembly *)

Definition ack_to_transmit {E} (s : Socket) : outcome E bool :=
  match remote_last_ack s with
  | Some last => next ← next_ack s; Ok (Seq.lt last next)
  | None => Ok false
  end.
Definition immediate_ack_to_transmit {E} (s : Socket) : outcome E bool :=
  match remote_last_ack s with
  | Some last => edge ← Seq.add last (remote_mss s); next ← next_ack s; Ok (Seq.lt edge next)
  | None => Ok false
  end.

Definition delay_ack (cx : Context) : stage () :=
  d ← gets ack_delay;
  match d with
  | Some ack_delay =>
      want ← inspect ack_to_transmit;
      if (want : bool) then
        t ← gets ack_delay_timer;
        match t with
        | AckIdle => t ← lift (Time.instant_add (now cx) ack_delay); put ack_delay_timer (Waiting t)
        | Waiting _ =>
            force ← inspect immediate_ack_to_transmit;
            if (force : bool) then put ack_delay_timer Immediate else mret ()
        | Immediate => mret ()
        end
      else mret ()
  | None => mret ()
  end.

(** [self.assembler.is_empty()]: a program of the assembler that only reads *)
Definition assembler_is_empty : stage bool :=
  inspect (λ s, unwrap (Assembler.is_empty (assembler s)).1).

(** Placing the octets, and making the run at the front readable *)
Definition store (part : list Z) (offset contig_len : Z) : stage () :=
  len_written ← total (on rx_buffer (Ring.write_unallocated (Z.to_nat offset) part));
  lift (assert (len_written =? length part)%nat);;
  if negb (contig_len =? 0) then total (on rx_buffer (Ring.enqueue_unallocated (Z.to_nat contig_len))) else mret ().

Definition receive (cx : Context) (ip_repr : IpRepr) (repr : TcpRepr) (part : list Z) (offset : Z) : stage (option segment) :=
  let payload_len := Z.of_nat (length part) in
  if payload_len =? 0 then throw None else
  was_empty ← assembler_is_empty;
  contig_len ← attempt (on assembler (Assembler.add_then_remove_front offset payload_len)) (λ r,
    match r with Ok n => mret n | _ => throw None end);
  store part offset contig_len;;
  delay_ack cx;;
  empty ← assembler_is_empty;
  if negb empty || negb was_empty then r ← ack_reply ip_repr repr; mret (Some r) else mret None.

(** ** The whole of [process] *)

Definition process_stages (cx : Context) (ip_repr : IpRepr) (repr : TcpRepr) : stage (option segment) :=
  inspect (λ s, assert (accepts ip_repr repr s));;
  check_ack cx ip_repr repr;;
  '(part, offset) ← trim_payload cx ip_repr repr;
  acked ← count_acked cx repr;
  c ← inspect (effective_control repr);
  transition cx ip_repr repr c (ack_of_fin acked);;
  update_remote cx repr acked;;
  update_timers cx repr acked;;
  receive cx ip_repr repr part offset.

Definition process (cx : Context) (ip_repr : IpRepr) (repr : TcpRepr) : prog Socket Empty_set (option segment) :=
  early (process_stages cx ip_repr repr).
