(* ===== verification/TcpDispatch.v ===== *)
(** * The TCP socket: sending a segment
    (crates/smoltcp/src/socket/tcp.rs, [timed_out] to [poll_at])

    [dispatch] hands at most one segment to the interface. The interface's
    [emit] is an argument, which accepts the segment ([None]) or refuses it with
    an error; the model returns the segment that was accepted. *)
From stdpp Require Import prelude.
From S2P Require Import Prelude Wire TcpTimers Assembler RingBuffer TcpSocket TcpProcess.
Open Scope Z_scope.

(** How a run of [dispatch] ends before its last line *)
Inductive leave E := ReturnOk | ReturnErr (e : E).
Arguments ReturnOk {E}.
Arguments ReturnErr {E} e.
Abbreviation sending E A := (prog Socket (leave E) A).

(** ** What there is to send *)

Definition timed_out {E} (now : Z) (s : Socket) : outcome E bool :=
  match remote_last_ts s, timeout s with
  | Some last, Some t => limit ← Time.instant_add last t; Ok (limit <=? now)
  | _, _ => Ok false
  end.

(** The octets of payload that fit the path MTU after the given IP header *)
Definition mtu_payload {E} (cx : Context) (ip_header : Z) : outcome E Z :=
  n ← usub (ip_mtu cx) ip_header; usub n TCP_HEADER_LEN.

Definition local_header_len (t : Tuple) : Z :=
  match addr (local t) with Ipv4 _ => IPV4_HEADER_LEN | Ipv6 _ => IPV6_HEADER_LEN end.

(** The octets the window, up to the given edge, leaves after what was sent *)
Definition room_after {E} (edge sent : Z) : outcome E Z :=
  if Seq.ge edge sent then Seq.sub edge sent else Ok 0.

Definition want_fin (s : Socket) : bool :=
  match state s with FinWait1 | Closing | LastAck => true | _ => false end.

Definition seq_to_transmit {E} (cx : Context) (s : Socket) : outcome E bool :=
  t ← expect (tuple s);
  local_mss ← mtu_payload cx (local_header_len t);
  let effective_mss := Z.min local_mss (remote_mss s) in
  let data_in_flight := negb (remote_last_seq s =? local_seq_no s) in
  if sent_syn s && negb data_in_flight then Ok true else
  max_send_seq ← Seq.add (local_seq_no s) (Z.min (remote_win_len s) (tx_len s));
  max_send ← room_after max_send_seq (remote_last_seq s);
  let max_send := Z.min max_send (Congestion.window (congestion_controller s)) in
  let can_send := negb (max_send =? 0) in
  let can_send_full := effective_mss <=? max_send in
  let can_send := if nagle s && data_in_flight && negb can_send_full && negb (want_fin s) then false else can_send in
  last ← Seq.add (local_seq_no s) (tx_len s);
  let can_fin := want_fin s && (remote_last_seq s =? last) in
  Ok (can_send || can_fin).

Definition delayed_ack_expired (now : Z) (s : Socket) : bool :=
  match ack_delay_timer s with AckIdle => true | Waiting t => t <=? now | Immediate => true end.

Definition window_to_update {E} (s : Socket) : outcome E bool :=
  match state s with
  | SynSent | SynReceived | Established | FinWait1 | FinWait2 =>
      new_win ← scaled_window s;
      last ← last_scaled_window s;
      Ok match last with
         | Some last_win => (0 <? new_win) && (last_win <=? new_win / 2)
         | None => false
         end
  | _ => Ok false
  end.

(** ** Timers and the decision to send *)

Definition check_timers {E} (cx : Context) : sending E () :=
  expired ← inspect (timed_out (now cx));
  if (expired : bool) then set_state Closed else
  more ← inspect (seq_to_transmit cx);
  t ← gets timer;
  if negb more && Timer.should_retransmit (now cx) t then
    una ← gets local_seq_no;
    put remote_last_seq una;;
    k ← gets keep_alive;
    total (on timer (Timer.set_for_idle (now cx) k));;
    total (on rtte Rtte.on_retransmit);;
    modify (update congestion_controller Congestion.on_retransmit)
  else mret ().

Definition find_reason {E} (cx : Context) : sending E () :=
  more ← inspect (seq_to_transmit cx);
  if (more : bool) then mret () else
  ack ← inspect ack_to_transmit; expired ← gets (delayed_ack_expired (now cx));
  if ack && expired then mret () else
  update_win ← inspect window_to_update;
  if (update_win : bool) then mret () else
  st ← gets state; t ← gets timer;
  if bool_decide (st = Closed) then mret () else
  if Timer.should_keep_alive (now cx) t then mret () else
  if Timer.should_zero_window_probe (now cx) t then mret () else
  if Timer.should_close (now cx) t then reset;; throw ReturnOk else
  throw ReturnOk.

(** ** Building the segment *)

Definition build_syn {E} (r : TcpRepr) : sending E TcpRepr :=
  una ← gets local_seq_no;
  w ← inspect (λ s, Ring.window (rx_buffer s));
  let r := update control (λ _, Syn) r in
  let r := update seq_number (λ _, una) r in
  let r := update window_len (λ _, u16_or_max (Z.of_nat w)) r in
  st ← gets state; shift ← gets remote_win_shift;
  if bool_decide (st = SynSent) then
    let r := update ack_number (λ _, None) r in
    let r := update window_scale (λ _, Some shift) r in
    mret (update sack_permitted (λ _, true) r)
  else
    has_sack ← gets remote_has_sack; scale ← gets remote_win_scale;
    let r := update sack_permitted (λ _, has_sack) r in
    mret (update window_scale (λ _, (λ _, shift) <$> scale) r).

(** The data segment, and whether it is a zero-window probe *)
Definition build_data {E} (cx : Context) (ip : IpRepr) (r : TcpRepr) : sending E (TcpRepr * bool) :=
  edge ← inspect (λ s, Seq.add (local_seq_no s) (remote_win_len s));
  last ← gets remote_last_seq;
  win_limit ← lift (room_after edge last);
  t ← gets timer;
  let probe := (win_limit =? 0) && Timer.should_zero_window_probe (now cx) t in
  let win_limit := if probe then 1 else win_limit in
  mss ← gets remote_mss; mtu ← lift (mtu_payload cx (ip_header_len ip));
  let size := Z.min (Z.min win_limit mss) mtu in
  offset ← inspect (λ s, Seq.sub (remote_last_seq s) (local_seq_no s));
  data ← total (on tx_buffer (Ring.get_allocated (Z.to_nat offset) (Z.to_nat size)));
  let r := update payload (λ _, data) r in
  total_len ← gets tx_len; st ← gets state;
  let c :=
    if offset + plen r =? total_len then
      match st with
      | FinWait1 | LastAck | Closing => Fin
      | Established | CloseWait => if bool_decide (data = []) then control r else Psh
      | _ => control r
      end
    else control r in
  mret (update control (λ _, c) r, probe).

Definition build {E} (cx : Context) (ip : IpRepr) (r : TcpRepr) : sending E (TcpRepr * bool) :=
  st ← gets state;
  match st with
  | Closed => mret (update control (λ _, Rst) r, false)
  | Listen => throw ReturnOk
  | SynSent | SynReceived => r ← build_syn r; mret (r, false)
  | Established | FinWait1 | Closing | CloseWait | LastAck => build_data cx ip r
  | FinWait2 | TimeWait => mret (r, false)
  end.

(** The segment to send, with its kind: zero-window probe, keep-alive *)
Definition build_segment {E} (cx : Context) : sending E (segment * bool * bool) :=
  t ← inspect (λ s, expect (tuple s));
  hops ← gets hop_limit;
  ip ← lift (ip_repr_new (addr (local t)) (addr (remote t)) Tcp 0 (default 64 hops));
  last ← gets remote_last_seq; ack ← inspect next_ack; win ← inspect scaled_window;
  tsval ← gets last_remote_tsval; ts ← generate_reply_with_tsval tsval;
  let r := MkRepr (port (local t)) (port (remote t)) CNone last (Some ack) win None None false
             no_sack_ranges ts [] in
  '(r, probe) ← build cx ip r;
  tm ← gets timer;
  let is_keep_alive := Timer.should_keep_alive (now cx) tm && repr_is_empty r in
  r ← (if is_keep_alive then
         before ← lift (Seq.sub_usize (seq_number r) 1);
         mret (update payload (λ _, [0]) (update seq_number (λ _, before) r))
       else mret r);
  r ← (if bool_decide (control r = Syn) then
         mss ← lift (mtu_payload cx (ip_header_len ip));
         mret (update max_seg_size (λ _, Some (mss mod 2 ^ 16)) r)
       else mret r);
  mret ((set_payload_len (buffer_len r) ip, r), probe, is_keep_alive).

(** ** After the segment was sent *)

Definition segment_sent {E} (cx : Context) (r : TcpRepr) (probe is_keep_alive : bool) : sending E () :=
  k ← gets keep_alive;
  total (on timer (Timer.rewind_keep_alive (now cx) k));;
  put ack_delay_timer AckIdle;;
  if probe then total (on timer (Timer.rewind_zero_window_probe (now cx))) else
  if is_keep_alive then mret () else
  seq_end ← lift (Seq.add (seq_number r) (segment_len r));
  put remote_last_seq seq_end;;
  put remote_last_ack (ack_number r);;
  put remote_last_win (window_len r);;
  (if 0 <? segment_len r then
     total (on rtte (Rtte.on_send (now cx) seq_end));;
     modify (update congestion_controller (Congestion.post_transmit (segment_len r)))
   else mret ());;
  tm ← gets timer;
  (if (0 <? segment_len r) && negb (Timer.is_retransmit tm) then
     rto ← inspect (λ s, Rtte.retransmission_timeout (rtte s));
     total (on timer (Timer.set_for_retransmit (now cx) rto))
   else mret ());;
  st ← gets state;
  if bool_decide (st = Closed) then put tuple None else mret ().

Definition dispatch_stages {E} (cx : Context) (emit : segment → option E) : sending E segment :=
  t ← gets tuple;
  match t with
  | None => throw ReturnOk
  | Some _ =>
    last ← gets remote_last_ts;
    match last with None => put remote_last_ts (Some (now cx)) | Some _ => mret () end;;
    modify (update congestion_controller Congestion.pre_transmit);;
    check_timers cx;;
    find_reason cx;;
    '(seg, probe, is_keep_alive) ← build_segment cx;
    match emit seg with Some e => throw (ReturnErr e) | None => mret () end;;
    segment_sent cx seg.2 probe is_keep_alive;;
    mret seg
  end.

Definition dispatch {E} (cx : Context) (emit : segment → option E) : prog Socket E (option segment) := λ s,
  match dispatch_stages cx emit s with
  | (Ok seg, s') => (Ok (Some seg), s')
  | (Err ReturnOk, s') => (Ok None, s')
  | (Err (ReturnErr e), s') => (Err e, s')
  | (Panic, s') => (Panic, s')
  end.

(** ** When to poll next *)

Definition poll_at {E} (cx : Context) (s : Socket) : outcome E PollAt :=
  match tuple s, remote_last_ts s with
  | None, _ => Ok Ingress
  | _, None => Ok Now
  | Some _, Some last =>
    if bool_decide (state s = Closed) then Ok Now else
    more ← seq_to_transmit cx s;
    if (more : bool) then Ok Now else
    update_win ← window_to_update s;
    if (update_win : bool) then Ok Now else
    want_ack ← ack_to_transmit s;
    let delayed_ack_poll_at :=
      match want_ack, ack_delay_timer s with
      | false, _ => Ingress
      | true, AckIdle => Now
      | true, Waiting t => Time t
      | true, Immediate => Now
      end in
    timeout_poll_at ←
      match timeout s with
      | Some t => limit ← Time.instant_add last t; Ok (Time limit)
      | None => Ok Ingress
      end;
    Ok (poll_min (poll_min (Timer.poll_at (timer s)) timeout_poll_at) delayed_ack_poll_at)
  end.
