(* ===== verification/TcpInv.v ===== *)
(** * The invariant of a TCP socket

    Well-formed buffers whose held data fits the window, a send sequence space
    that agrees with the transmit buffer, and bounded windows and times. *)
From stdpp Require Import prelude.
From S2P Require Import Prelude Wire SeqSpec TcpTimers Assembler AssemblerSpec RingBuffer RingSpec TcpSocket TcpProcess.
Open Scope Z_scope.

Definition opt_all {A} (P : A → Prop) (o : option A) : Prop := match o with Some a => P a | None => True end.

(** ** Time *)

Definition instant_ok (t : Z) : Prop := - 2 ^ 62 <= t < 2 ^ 62.
Definition duration_ok (d : Z) : Prop := 0 <= d <= 2 ^ 62.
(** The longest round-trip time, in milliseconds, the estimator's arithmetic can hold *)
Definition max_rtt : Z := 2 ^ 29.

Record rtte_ok (r : Rtte.RttEstimator) : Prop := {
  rto_ok : Rtte.MIN_RTO <= Rtte.rto r <= Rtte.MAX_RTO;
  srtt_ok : 0 <= Rtte.srtt r < max_rtt;
  rttvar_ok : 0 <= Rtte.rttvar r < max_rtt;
  rto_count_ok : 0 <= Rtte.rto_count r < 3;
  sampling_ok : opt_all (λ x, instant_ok x.1 ∧ is_i32 x.2) (Rtte.sampling r);
  max_seq_ok : opt_all is_i32 (Rtte.max_seq_sent r) }.
Definition timer_ok (t : Timer.Timer) : Prop :=
  match t with Timer.ZeroWindowProbe _ d => 0 <= d <= Rtte.MAX_RTO * 1000 | _ => True end.

(** No round-trip sample in progress is older than the longest one. *)
Definition sample_fresh (now : Z) (r : Rtte.RttEstimator) : Prop :=
  opt_all (λ x, Z.abs (now - x.1) < max_rtt * 1000) (Rtte.sampling r).

(** ** The invariant *)

Definition synced (st : State) : Prop := st ≠ Closed ∧ st ≠ Listen.
Definition opening (st : State) : Prop := st = Listen ∨ st = SynSent ∨ st = SynReceived.
(** Whether a control flag of ours takes a place in the send sequence space *)
Definition ctl (st : State) : Z :=
  match st with SynSent | SynReceived | FinWait1 | Closing | LastAck => 1 | _ => 0 end.
(** What has been sent and not acknowledged *)
Definition flight (s : Socket) : Z := offset (local_seq_no s) (remote_last_seq s).
Definition rx_free (s : Socket) : Z := Z.of_nat (RingSpec.free (rx_buffer s)).

Record rx_inv (s : Socket) : Prop := {
  rx_wf : RingSpec.wf (rx_buffer s);
  rx_cap : rx_capacity s <= 2 ^ 30;
  asm_wf : AssemblerSpec.wf (assembler s);
  asm_slots : assembler s ≠ [];
  held : ∀ x, AssemblerSpec.present (assembler s) x = true → x < rx_free s;
  rx_i32 : is_i32 (remote_seq_no s) }.
Record tx_inv (s : Socket) : Prop := {
  tx_wf : RingSpec.wf (tx_buffer s);
  tx_cap : Z.of_nat (Ring.capacity (tx_buffer s)) < 2 ^ 31 - 1;
  una_i32 : is_i32 (local_seq_no s);
  last_i32 : is_i32 (remote_last_seq s);
  in_flight : synced (state s) → 0 <= flight s <= tx_len s + ctl (state s) }.
Definition opening_inv (s : Socket) : Prop :=
  opening (state s) →
  tx_len s = 0 ∧ rx_len s = 0 ∧ (∀ x, AssemblerSpec.present (assembler s) x = false) ∧ rx_fin_received s = false.
Record link_inv (s : Socket) : Prop := {
  link_open : synced (state s) → is_Some (tuple s);
  link_listen : state s = Listen → tuple s = None;
  link_version : opt_all (λ t, version (addr (local t)) = version (addr (remote t))) (tuple s) }.
Record peer_inv (s : Socket) : Prop := {
  shift_ok : 0 <= remote_win_shift s <= 15;
  scale_ok : opt_all (λ n, 0 <= n <= 14) (remote_win_scale s);
  win_ok : 0 <= remote_win_len s <= 2 ^ 30;
  last_win_ok : 0 <= remote_last_win s <= u16_max;
  last_ack_ok : opt_all is_i32 (remote_last_ack s);
  mss_ok : 1 <= remote_mss s <= u16_max }.
Record time_inv (s : Socket) : Prop := {
  timeout_ok : opt_all duration_ok (timeout s);
  keep_alive_ok : opt_all duration_ok (keep_alive s);
  ack_delay_ok : opt_all duration_ok (ack_delay s);
  last_ts_ok : opt_all instant_ok (remote_last_ts s);
  timer_is_ok : timer_ok (timer s);
  rtte_is_ok : rtte_ok (rtte s) }.
Record tcp_inv (s : Socket) : Prop := {
  inv_rx : rx_inv s; inv_tx : tx_inv s; inv_opening : opening_inv s;
  inv_link : link_inv s; inv_peer : peer_inv s; inv_time : time_inv s }.

(** What a call is given: the context and the segment *)
Record context_ok (cx : Context) : Prop := {
  now_ok : instant_ok (now cx);
  mtu_ok : IPV6_HEADER_LEN + TCP_HEADER_LEN <= ip_mtu cx }.
Record repr_ok (r : TcpRepr) : Prop := {
  seq_ok : is_i32 (seq_number r);
  ack_ok : opt_all is_i32 (ack_number r);
  window_len_ok : 0 <= window_len r <= u16_max;
  window_scale_ok : opt_all (λ n, 0 <= n <= 14) (window_scale r);
  max_seg_size_ok : opt_all (λ n, 0 <= n <= u16_max) (max_seg_size r);
  payload_ok : plen r <= u16_max }.
Definition ip_ok (r : IpRepr) : Prop := version (src_addr r) = version (dst_addr r).

(** Data held for a selective acknowledgement does not straddle sequence number
    zero, where [s.0 as usize] plus an offset exceeds [usize::MAX]. *)
Definition sack_safe (s : Socket) : Prop :=
  remote_has_sack s = true →
  0 <= remote_seq_no s ∨ remote_seq_no s + rx_capacity s + 1 < 0.
Lemma not_sack_safe s :
  ¬ sack_safe s → remote_has_sack s = true ∧ remote_seq_no s < 0 <= remote_seq_no s + rx_capacity s + 1.
Proof. unfold sack_safe. intros H. destruct (remote_has_sack s); [|by destruct H]. split; [done|]. lia. Qed.

(** [inherit H] carries the invariant [H] over to a socket that agrees on the
    fields it reads. *)
Ltac inherit H := destruct H; constructor; assumption.

(** ** Views: what a stage may leave unchanged *)

Definition rx_view (s : Socket) := (rx_buffer s, assembler s, remote_seq_no s, rx_fin_received s).
Definition tx_view (s : Socket) := (state s, tx_buffer s, local_seq_no s, remote_last_seq s).
Definition link_view (s : Socket) := (tuple s, listen_endpoint s, remote_has_sack s).

Lemma rx_len_free s : rx_inv s → rx_len s + rx_free s = rx_capacity s ∧ 0 <= rx_len s ∧ 0 <= rx_free s.
Proof.
  intros [(_ & Hl & _) _ _ _ _ _]. unfold rx_len, rx_free, rx_capacity, RingSpec.free, Ring.len, Ring.capacity in *. lia.
Qed.
Lemma tx_len_cap s : tx_inv s → 0 <= tx_len s < 2 ^ 31 - 1.
Proof.
  intros [(_ & Hl & _) ? _ _ _]. unfold tx_len, Ring.len, Ring.capacity in *. lia.
Qed.
Lemma next_ack_ok {E} s : rx_inv s → @next_ack E s = Ok (as_i32 (remote_seq_no s + rx_len s)).
Proof.
  intros H. unfold next_ack. apply seq_add_ok. pose proof (rx_len_free s H). pose proof (rx_cap s H). unfold i32_max. lia.
Qed.
Lemma scaled_window_ok {E} s :
  rx_inv s → 0 <= remote_win_shift s → ∃ w, @scaled_window E s = Ok w ∧ 0 <= w <= u16_max.
Proof.
  intros H Hs. unfold scaled_window. rewrite RingSpec.window_ok by apply H. cbn [mbind outcome_bind].
  eexists. split; [done|]. unfold u16_or_max.
  assert (0 <= Z.shiftr (Z.of_nat (RingSpec.free (rx_buffer s))) (remote_win_shift s)) by (apply Z.shiftr_nonneg; lia).
  unfold u16_max. split_zbool; lia.
Qed.
Lemma instant_add_ok {E} t d : instant_ok t → duration_ok d → @Time.instant_add E t d = Ok (t + d).
Proof.
  unfold instant_ok, duration_ok. intros. unfold Time.instant_add, as_i64. rewrite Z.mod_small by lia.
  replace (d + 2 ^ 63 - 2 ^ 63) with d by lia. apply checked_ok. lia.
Qed.
Lemma after_ok {E} t k : instant_ok t → opt_all duration_ok k → ∃ a, @Time.after E t k = Ok a.
Proof.
  intros Ht Hk. destruct k as [d|]; cbn [Time.after]; [|by eexists].
  rewrite instant_add_ok by done. by eexists.
Qed.
