(* ===== verification/TcpReply.v ===== *)
(** * Timers, estimators and replies of a TCP socket

    The operations on the timer and on the round-trip-time estimator keep their
    invariants and do not overflow, and an acknowledgement reply changes only
    what was last advertised. *)
From stdpp Require Import prelude.
From S2P Require Import Prelude Wire SeqSpec TcpTimers Assembler AssemblerSpec RingBuffer RingSpec TcpSocket TcpProcess TcpInv.
Open Scope Z_scope.

Definition done_with {S E} (P : S → Prop) : outcome E () → S → Prop := λ r s, r = Ok () ∧ P s.

(** ** The timer *)

Lemma rto_duration r : rtte_ok r → duration_ok (Rtte.rto r * 1000) ∧ Rtte.rto r * 1000 <= Rtte.MAX_RTO * 1000.
Proof. intros [H _ _ _ _ _]. unfold duration_ok, Rtte.MIN_RTO, Rtte.MAX_RTO in *. lia. Qed.
Lemma retransmission_timeout_ok {E} r : rtte_ok r → @Rtte.retransmission_timeout E r = Ok (Rtte.rto r * 1000).
Proof.
  intros [H _ _ _ _ _]. unfold Rtte.retransmission_timeout, Time.from_millis. apply checked_ok.
  unfold Rtte.MIN_RTO, Rtte.MAX_RTO, usize_max in *. lia.
Qed.

Section timer.
Context (now : Z) (Hnow : instant_ok now).
Lemma set_for_idle_ok k t : opt_all duration_ok k → wp (Timer.set_for_idle now k) t (done_with timer_ok).
Proof.
  intros Hk. unfold Timer.set_for_idle. wp_steps. destruct (after_ok (E := Empty_set) now k) as [a ->]; [done..|].
  by wp_steps.
Qed.
Lemma rewind_keep_alive_ok k t :
  opt_all duration_ok k → timer_ok t → wp (Timer.rewind_keep_alive now k) t (done_with timer_ok).
Proof.
  intros Hk Ht. unfold Timer.rewind_keep_alive. wp_steps. unfold id. destruct t; wp_steps; try done.
  destruct (after_ok (E := Empty_set) now k) as [a ->]; [done..|]. by wp_steps.
Qed.
Lemma set_for_retransmit_ok d t :
  duration_ok d → timer_ok t → wp (Timer.set_for_retransmit now d) t (done_with timer_ok).
Proof.
  intros Hd Ht. unfold Timer.set_for_retransmit. wp_steps. unfold id.
  destruct t; wp_steps; rewrite ?instant_add_ok by done; by wp_steps.
Qed.
Lemma set_for_close_ok t : wp (Timer.set_for_close now) t (done_with timer_ok).
Proof.
  unfold Timer.set_for_close. wp_steps. rewrite instant_add_ok; [by wp_steps|done|].
  unfold duration_ok. lia.
Qed.
Lemma set_for_zero_window_probe_ok d t :
  0 <= d <= Rtte.MAX_RTO * 1000 → wp (Timer.set_for_zero_window_probe now d) t (done_with timer_ok).
Proof.
  intros Hd. unfold Timer.set_for_zero_window_probe. wp_steps. rewrite instant_add_ok; [by wp_steps|done|].
  unfold duration_ok, Rtte.MAX_RTO in *. lia.
Qed.
Lemma rewind_zero_window_probe_ok t :
  timer_ok t → wp (Timer.rewind_zero_window_probe now) t (done_with timer_ok).
Proof.
  intros Ht. unfold Timer.rewind_zero_window_probe. wp_steps. unfold id. destruct t; wp_steps; try done.
  cbn [timer_ok] in Ht. unfold Time.mul, Time.from_millis, u64_checked.
  rewrite checked_ok by (unfold usize_max, Rtte.MAX_RTO in *; lia). wp_steps.
  rewrite checked_ok by (unfold usize_max, Rtte.MAX_RTO in *; lia). wp_steps.
  rewrite instant_add_ok; [|done|unfold duration_ok, Rtte.MAX_RTO in *; lia]. wp_steps. split; [done|].
  cbn [timer_ok]. unfold Rtte.MAX_RTO in *. lia.
Qed.
End timer.

(** ** The round-trip-time estimator *)

Lemma div_ceil_le a b n : 0 <= a → 0 < b → a <= b * n → 0 <= Rtte.div_ceil a b <= n.
Proof.
  intros Ha Hb Hn. unfold Rtte.div_ceil. pose proof (Z.div_mod a b). pose proof (Z.mod_pos_bound a b Hb).
  pose proof (Z.div_pos a b Ha Hb). destruct (Z.eqb_spec (a mod b) 0); nia.
Qed.

Lemma measure_ok n r :
  rtte_ok r → 0 <= n < max_rtt →
  wp (Rtte.measure n) r (done_with (λ r', rtte_ok r' ∧ Rtte.sampling r' = Rtte.sampling r)).
Proof.
  intros [Hrto Hs Hv Hc Hsa Hm] Hn. unfold max_rtt in *. unfold Rtte.measure. wp_steps.
  destruct (Rtte.have_measurement r); wp_steps.
  - assert (Z.abs (Rtte.srtt r - n) < max_rtt) as Hd by (unfold max_rtt; lia). unfold max_rtt in Hd.
    unfold i32_checked, u32_checked, i32_max, u32_max.
    rewrite (as_i32_id (Rtte.srtt r)), (as_i32_id n) by (unfold is_i32; lia).
    rewrite checked_ok by lia. wp_steps. rewrite checked_ok by lia. wp_steps. rewrite checked_ok by lia. wp_steps.
    rewrite checked_ok by lia. wp_steps. rewrite checked_ok by lia. wp_steps. split; [done|]. split; [|done].
    pose proof (div_ceil_le (Rtte.rttvar r * 3 + Z.abs (Rtte.srtt r - n)) 4 (2 ^ 29 - 1)).
    pose proof (div_ceil_le (Rtte.srtt r * 7 + n) 8 (2 ^ 29 - 1)).
    constructor; fields; unfold max_rtt; try done; lia.
  - split; [done|]. split; [|done]. constructor; fields; unfold max_rtt; try done; try lia.
    pose proof (Z.div_pos n 2). pose proof (Z.div_le_upper_bound n 2 (2 ^ 29 - 1)). lia.
Qed.
Lemma sample_ok n r :
  rtte_ok r → 0 <= n < max_rtt → wp (Rtte.sample n) r (done_with rtte_ok).
Proof.
  intros Hr Hn. unfold Rtte.sample. wp_step. eapply wp_mono; [by apply measure_ok|].
  intros res r' [-> [H' _]]. pose proof H' as [Hrto Hs Hv Hc Hsa Hm]. unfold max_rtt in *. wp_steps.
  unfold u32_checked, Rtte.K, u32_max. rewrite checked_ok by lia. wp_steps.
  unfold Rtte.MIN_MARGIN. rewrite checked_ok by lia. wp_steps. split; [done|].
  constructor; fields; unfold max_rtt, Rtte.MIN_RTO, Rtte.MAX_RTO; try done; lia.
Qed.
Lemma on_ack_ok now seq r :
  rtte_ok r → instant_ok now → sample_fresh now r → wp (Rtte.on_ack now seq) r (done_with rtte_ok).
Proof.
  intros Hr Hnow Hf. unfold Rtte.on_ack. wp_steps. pose proof (sampling_ok r Hr) as Hsa.
  unfold sample_fresh in Hf. destruct (Rtte.sampling r) as [[t q]|]; [|by wp_steps]. cbn in Hf, Hsa.
  destruct (Seq.ge seq q); wp_steps; [|done]. destruct Hsa as [Ht Hq]. unfold instant_ok in *.
  unfold Time.instant_sub, i64_checked. rewrite checked_ok by lia. cbn [mbind outcome_bind]. wp_steps.
  eapply wp_mono; [apply (sample_ok _ r Hr)|].
  - unfold as_u32, Time.total_millis, max_rtt in *.
    pose proof (Z.div_pos (Z.abs (now - t)) 1000). pose proof (Z.div_lt_upper_bound (Z.abs (now - t)) 1000 (2 ^ 29)).
    rewrite Z.mod_small; lia.
  - intros res r' [-> [? ? ? ? ? ?]]. wp_steps. split; [done|]. constructor; fields; done.
Qed.
Lemma on_retransmit_ok r : rtte_ok r → wp Rtte.on_retransmit r (done_with rtte_ok).
Proof.
  intros [Hrto Hs Hv Hc Hsa Hm]. unfold Rtte.on_retransmit. wp_steps. fields.
  unfold Rtte.MIN_RTO, Rtte.MAX_RTO in *. unfold u32_checked. rewrite checked_ok by (unfold u32_max; lia). wp_steps. fields.
  rewrite checked_ok by lia. wp_steps. destruct (Z.leb_spec 3 (Rtte.rto_count r + 1)); wp_steps; (split; [done|]);
    constructor; fields; unfold Rtte.MIN_RTO, Rtte.MAX_RTO; try done; lia.
Qed.
Lemma retransmit_doubles r :
  rtte_ok r → wp Rtte.on_retransmit r (λ x r', x = Ok () ∧ Rtte.rto r' = Z.min (Rtte.rto r * 2) Rtte.MAX_RTO).
Proof.
  intros [Hrto _ _ Hc _ _]. unfold Rtte.on_retransmit. wp_steps. fields.
  unfold Rtte.MIN_RTO, Rtte.MAX_RTO in *. unfold u32_checked. rewrite checked_ok by (unfold u32_max; lia). wp_steps. fields.
  rewrite checked_ok by lia. wp_steps. destruct (Z.leb_spec 3 (Rtte.rto_count r + 1)); by wp_steps.
Qed.
Lemma on_send_ok now seq r :
  rtte_ok r → instant_ok now → is_i32 seq → wp (Rtte.on_send now seq) r (done_with rtte_ok).
Proof.
  intros [Hrto Hs Hv Hc Hsa Hm] Hnow Hseq. unfold Rtte.on_send. wp_steps.
  destruct (match Rtte.max_seq_sent r with Some m => Seq.gt seq m | None => true end); wp_steps; [|by split; constructor].
  fields. destruct (Rtte.sampling r) as [[t q]|] eqn:E; wp_steps; (split; [done|]); constructor; fields; try done.
  by rewrite E.
Qed.

(** ** Selective acknowledgements *)

Lemma present_last us : ∀ lo, 0 <= lo → AssemblerSpec.good lo us → us ≠ [] →
  AssemblerSpec.present us (AssemblerSpec.span us - 1) = true.
Proof.
  induction us as [|c us IH]; intros lo Hlo Hg Hne; [done|]. destruct Hg as (Hh & Hd & Hg).
  pose proof (AssemblerSpec.good_span 1 us ltac:(lia) Hg). cbn [AssemblerSpec.present AssemblerSpec.span].
  unfold AssemblerSpec.total in *. destruct us as [|d us]; cbn [AssemblerSpec.span] in *; [split_zbool; try done; lia|].
  rewrite <- (IH 1 ltac:(lia) Hg ltac:(done)). destruct Hg as (? & ? & Hg).
  pose proof (AssemblerSpec.good_span 1 us ltac:(lia) Hg). cbn [AssemblerSpec.span]. unfold AssemblerSpec.total in *.
  split_zbool; try lia. f_equal. lia.
Qed.
Definition contig_nonneg (c : Assembler.Contig) : Prop := 0 <= Assembler.hole_size c ∧ 0 <= Assembler.data_size c.
Lemma good_nonneg us : ∀ lo, 0 <= lo → AssemblerSpec.good lo us → Forall contig_nonneg us.
Proof.
  induction us as [|c us IH]; intros lo Hlo Hg; [done|]. destruct Hg as (? & ? & Hg).
  constructor; [split; lia|]. by apply (IH 1).
Qed.
Lemma wf_nonneg l : AssemblerSpec.wf l → Forall contig_nonneg l.
Proof.
  intros (us & k & -> & Hg & _). apply Forall_app. split; [by apply (good_nonneg us 0)|by apply Forall_replicate].
Qed.
Lemma wf_span_bound l b :
  AssemblerSpec.wf l → 0 <= b → (∀ x, AssemblerSpec.present l x = true → x < b) → AssemblerSpec.span l <= b.
Proof.
  intros (us & k & -> & Hg & _) Hb Hp. rewrite AssemblerSpec.span_app_pad. destruct us as [|c us]; [done|].
  specialize (Hp (AssemblerSpec.span (c :: us) - 1)). rewrite AssemblerSpec.present_app_pad in Hp.
  rewrite (present_last _ 0 (Z.le_refl 0) Hg ltac:(done)) in Hp. specialize (Hp eq_refl). lia.
Qed.

Lemma iter_next_ok l : ∀ off left,
  Forall contig_nonneg l → 0 <= off → 0 <= left → left + AssemblerSpec.span l + off <= usize_max →
  ∃ r left' rest, Assembler.iter_next l off left = Ok (r, left', rest) ∧ Forall contig_nonneg rest ∧
    0 <= left' ∧ left' + AssemblerSpec.span rest + off <= usize_max.
Proof.
  induction l as [|c l IH]; intros off left Hl Hoff Hleft Hmax; cbn [Assembler.iter_next].
  { by eexists _, _, _. }
  apply Forall_cons in Hl as [[Hh Hd] Hl]. cbn [AssemblerSpec.span] in Hmax. unfold AssemblerSpec.total in Hmax.
  assert (0 <= AssemblerSpec.span l) as Hsp.
  { clear - Hl. induction Hl as [|d l [? ?] _ IH]; cbn; [done|]. unfold AssemblerSpec.total. lia. }
  set (lo := left + Assembler.hole_size c). set (hi := lo + Assembler.data_size c).
  rewrite (AssemblerSpec.uadd_ok left (Assembler.hole_size c)) by lia. cbn [mbind outcome_bind]. fold lo.
  rewrite (AssemblerSpec.uadd_ok lo (Assembler.data_size c)) by lia. cbn [mbind outcome_bind]. fold hi.
  destruct (Z.ltb_spec lo hi) as [Hlt|Hge].
  - rewrite (AssemblerSpec.uadd_ok lo off) by lia. cbn [mbind outcome_bind].
    rewrite (AssemblerSpec.uadd_ok hi off) by lia. cbn [mbind outcome_bind].
    eexists _, _, _. split; [reflexivity|]. split; [done|lia].
  - apply IH; [done|done|lia|lia].
Qed.
Lemma find_range_ok {E} fuel p : ∀ l off left,
  Forall contig_nonneg l → 0 <= off → 0 <= left → left + AssemblerSpec.span l + off <= usize_max →
  ∃ r, @find_range E fuel p l off left = Ok r.
Proof.
  induction fuel as [|fuel IH]; intros l off left Hl Hoff Hleft Hmax; cbn [find_range]; [by eexists|].
  destruct (iter_next_ok l off left) as (r & left' & rest & -> & Hrest & Hleft' & Hmax'); [done..|].
  cbn [unwrap mbind outcome_bind]. destruct r as [[lo hi]|]; [|by eexists].
  cbv zeta. destruct (p _); [by eexists|]. by apply IH.
Qed.

(** A weaker form of [sack_safe] that also holds after a FIN was taken *)
Definition sack_ok (s : Socket) : Prop :=
  remote_has_sack s = true → 0 <= remote_seq_no s ∨ remote_seq_no s + rx_capacity s < 0.
Lemma sack_safe_ok s : sack_safe s → sack_ok s.
Proof. intros H Hs. destruct (H Hs); lia. Qed.
#[export] Instance sack_ok_dec s : Decision (sack_ok s).
Proof. unfold sack_ok. apply _. Defined.
Lemma find_range_no_err {E} fuel p : ∀ l off left (e : E), find_range fuel p l off left ≠ Err e.
Proof.
  induction fuel as [|fuel IH]; intros l off left e; cbn [find_range]; [done|].
  destruct (Assembler.iter_next l off left) as [[[[[lo hi]|] ?] rest]|?|]; cbn [unwrap mbind outcome_bind]; try done.
  cbv zeta. by destruct (p _).
Qed.
Lemma sack_range_no_err {E} s ack (e : E) : sack_range s ack ≠ Err e.
Proof.
  unfold sack_range. cbv zeta. destruct (local_rx_last_seq s) as [q|]; cbn [mbind outcome_bind]; [|apply find_range_no_err].
  destruct (find_range (E := E) _ (λ r, (r.1 <=? _) && _) _ _ _) as [[r|]|e'|] eqn:Er; cbn [mbind outcome_bind]; try done.
  - apply find_range_no_err.
  - by apply find_range_no_err in Er.
Qed.
Lemma sack_range_ok {E} s :
  rx_inv s → remote_has_sack s = true → sack_ok s →
  ∃ r, @sack_range E s (as_i32 (remote_seq_no s + rx_len s)) = Ok r.
Proof.
  intros Hrx Hs Hok. specialize (Hok Hs). pose proof (rx_len_free s Hrx). pose proof (rx_cap s Hrx).
  pose proof (wf_span_bound _ (rx_free s) (asm_wf s Hrx) ltac:(lia) (held s Hrx)) as Hsp.
  pose proof (wf_nonneg _ (asm_wf s Hrx)) as Hnn. pose proof (rx_i32 s Hrx) as Hi. unfold is_i32 in Hi.
  set (ack := as_i32 (remote_seq_no s + rx_len s)).
  assert (0 <= as_usize ack ∧ AssemblerSpec.span (assembler s) + as_usize ack <= usize_max) as [Ha Hmax].
  { unfold as_usize, ack, usize_max. destruct (Z.le_gt_cases (2 ^ 31) (remote_seq_no s + rx_len s)) as [Hw|Hw].
    - rewrite (as_i32_eq _ (remote_seq_no s + rx_len s - 2 ^ 32) 1) by lia. rewrite as_i32_id by (unfold is_i32; lia).
      rewrite <- (Z_mod_plus_full _ 1), Z.mod_small; lia.
    - rewrite as_i32_id by (unfold is_i32; lia). destruct (Z.le_gt_cases 0 (remote_seq_no s + rx_len s)).
      + rewrite Z.mod_small; lia.
      + rewrite <- (Z_mod_plus_full _ 1), Z.mod_small; lia. }
  unfold sack_range. fold ack.
  assert (∀ p, ∃ r, @find_range E (S (length (assembler s))) p (assembler s) (as_usize ack) 0 = Ok r) as Hf.
  { intros p. apply find_range_ok; (done || lia). }
  destruct (Hf (λ _, true)) as [r2 H2]. cbv zeta.
  destruct (local_rx_last_seq s) as [q|].
  - destruct (Hf (λ r, (r.1 <=? as_u32 q) && (as_u32 q <=? r.2))) as [r1 H1]. rewrite H1. cbn [mbind outcome_bind].
    destruct r1 as [r1|]; [by exists (Some r1)|by exists r2].
  - by exists r2.
Qed.

(** ** Acknowledgement replies *)

(** A reply changes what was last advertised and nothing else. *)
Definition replied (s s' : Socket) : Prop :=
  ∃ n w, @scaled_window Empty_set s = Ok w ∧ 0 <= w <= u16_max ∧
    s' = update remote_last_win (λ _, w)
           (update remote_last_ack (λ _, Some (as_i32 (remote_seq_no s + rx_len s)))
             (update tsval_calls (λ _, n) s)).

(** No reply carries data, takes a place in the sequence space, or has an option
    of a SYN; its addresses are of one family. *)
Definition no_syn_options (r : TcpRepr) : Prop := max_seg_size r = None ∧ window_scale r = None ∧ sack_permitted r = false.
Definition plain_segment (seg : segment) : Prop :=
  payload seg.2 = [] ∧ (control seg.2 = CNone ∨ control seg.2 = Rst) ∧ no_syn_options seg.2 ∧ ip_ok seg.1.
Definition plain_reply (x : option segment) : Prop := opt_all plain_segment x.
Lemma reply_ok {E} ip repr : ip_ok ip → ∃ seg, @reply E ip repr = Ok seg ∧ payload seg.2 = [] ∧ control seg.2 = CNone ∧ no_syn_options seg.2 ∧ ip_ok seg.1.
Proof.
  unfold ip_ok, reply, ip_repr_new. destruct (src_addr ip), (dst_addr ip); try done; intros _; by eexists.
Qed.
Lemma generate_reply_ok {E} t s :
  wp (@generate_reply E t) s (λ r s', ∃ ts n, r = Ok ts ∧ s' = update tsval_calls (λ _, n) s).
Proof.
  assert (∃ n, s = update tsval_calls (λ _, n) s) as Hid by (exists (tsval_calls s); by destruct s).
  destruct Hid as [n0 Hid].
  unfold generate_reply. destruct t; [|wp_steps; by eexists _, n0].
  unfold generate_reply_with_tsval. wp_steps. destruct (tsval_generator s); wp_steps; [by eexists _, _|by eexists _, n0].
Qed.
Lemma scaled_window_any {E E'} s w : @scaled_window E s = Ok w → @scaled_window E' s = Ok w.
Proof.
  unfold scaled_window, Ring.window, nsub. destruct (Nat.leb _ _); cbn [mbind outcome_bind]; [|done].
  intros H. by injection H as <-.
Qed.
(** It panics only where the offsets of held data go past [usize::MAX]. *)
Definition sack_panic {E A} (s : Socket) (r : outcome E A) : Prop := r = Panic ∧ ¬ sack_ok s.
Lemma ack_reply_ok {E} ip repr s :
  rx_inv s → 0 <= remote_win_shift s → ip_ok ip →
  wp (@ack_reply E ip repr) s (λ r s', sack_panic s r ∨ (∃ seg, r = Ok seg ∧ plain_segment seg) ∧ replied s s').
Proof.
  intros Hrx Hsh Hip. unfold ack_reply. wp_steps. destruct (reply_ok (E := E) ip repr Hip) as ([i r] & -> & Hpay & Hctl & Hopt & Hi).
  cbn [fst snd] in Hpay, Hctl, Hopt, Hi.
  cbv beta iota. wp_step. eapply wp_mono; [apply generate_reply_ok|]. intros res s1 (ts & n & -> & ->). cbv beta iota zeta.
  wp_steps. fields. change (next_ack (update tsval_calls (λ _, n) s)) with (@next_ack E s). rewrite next_ack_ok by done.
  wp_steps. set (a := as_i32 (remote_seq_no s + rx_len s)).
  destruct (scaled_window_ok (E := E) s Hrx Hsh) as (w & Hw & Hwb).
  change (scaled_window (update remote_last_ack (λ _, Some a) (update tsval_calls (λ _, n) s))) with (@scaled_window E s).
  rewrite Hw. wp_steps. fields. destruct (remote_has_sack s) eqn:Ehs; wp_steps.
  - set (s2 := update remote_last_win _ _). change (@sack_range E s2 a) with (@sack_range E s a).
    assert ((∃ o, @sack_range E s a = Ok o) ∨ @sack_range E s a = Panic ∧ ¬ sack_ok s) as [[o Ho]|[Ho Hs]].
    { destruct (decide (sack_ok s)) as [Hs|Hs]; [left; by apply sack_range_ok|].
      destruct (sack_range s a) as [o|e|] eqn:Ho; [by eauto|by apply sack_range_no_err in Ho|by right]. }
    2: { rewrite Ho. wp_steps. by left. }
    rewrite Ho. wp_steps.
    right. split; [eexists; split; [done|]; split_and!; fields; auto|]. exists n, w. split_and!; [by eapply scaled_window_any|lia|lia|done].
  - right. split; [eexists; split; [done|]; split_and!; fields; auto|]. exists n, w. split_and!; [by eapply scaled_window_any|lia|lia|done].
Qed.
Lemma replied_inv s s' : tcp_inv s → replied s s' → tcp_inv s'.
Proof.
  intros [Hrx Htx Hop Hli Hpe Hti] (n & w & _ & Hw & ->).
  split; [inherit Hrx|inherit Htx|exact Hop|inherit Hli| |inherit Hti].
  destruct Hpe. constructor; fields; try done. apply as_i32_range.
Qed.
(** Buffers, sequence numbers, state and addresses are as before. *)
Definition untouched (s s' : Socket) : Prop :=
  tcp_inv s' ∧ rx_view s' = rx_view s ∧ tx_view s' = tx_view s ∧ link_view s' = link_view s.
Lemma challenge_ack_reply_ok {E} cx ip repr s :
  tcp_inv s → context_ok cx → ip_ok ip →
  wp (@challenge_ack_reply E cx ip repr) s (λ r s', sack_panic s r ∨ (∃ x, r = Ok x ∧ plain_reply x) ∧ untouched s s').
Proof.
  intros Hinv Hcx Hip. unfold challenge_ack_reply. wp_steps.
  destruct (now cx <? challenge_ack_timer s); wp_steps; [right; split; [by exists None|done]|].
  rewrite instant_add_ok by (apply Hcx || (unfold duration_ok; lia)). wp_steps.
  set (s1 := update challenge_ack_timer _ s).
  assert (tcp_inv s1) as H1.
  { destruct Hinv as [Hrx Htx Hop Hli Hpe Hti].
    split; [inherit Hrx|inherit Htx|exact Hop|inherit Hli|inherit Hpe|inherit Hti]. }
  eapply wp_mono; [apply (ack_reply_ok ip repr s1); [apply H1|apply H1|done]|].
  intros r s' [[-> Hs]|[(seg & -> & Hseg) Hr]]; wp_steps; [by left|]. right. split; [by exists (Some seg)|]. split; [by eapply replied_inv|].
  destruct Hr as (n & w & _ & _ & ->). done.
Qed.
