(* ===== verification/TcpStages.v ===== *)
(** * The stages of [process]

    Each stage of receiving a segment, on a socket that satisfies the invariant:
    it does not panic, and what it returns describes the segment relative to the
    send sequence space and the receive window. *)
From stdpp Require Import prelude.
From S2P Require Import Prelude Wire SeqSpec TcpTimers Assembler AssemblerSpec RingBuffer RingSpec TcpSocket TcpProcess.
From S2P Require Import TcpInv TcpReply.
Open Scope Z_scope.

(** ** Acceptable acknowledgements *)

(** The acknowledgement is [k] past the first unacknowledged sequence number. *)
Definition ack_at (s : Socket) (a k : Z) : Prop :=
  a = as_i32 (local_seq_no s + k) ∧ 0 <= k <= tx_len s + ctl (state s) ∧ (sent_syn s = true → k = 1).
Definition ack_accepted (s : Socket) (repr : TcpRepr) : Prop :=
  control repr ≠ Rst →
  match ack_number repr with
  | Some a => state s ≠ Listen ∧ ∃ k, ack_at s a k
  | None => state s = Listen ∨ (state s = SynSent ∧ control repr = Syn)
  end.

Lemma flags_ctl s : flag_len (sent_syn s) + flag_len (sent_fin s) = ctl (state s).
Proof. unfold sent_syn, sent_fin. by destruct (state s). Qed.
Lemma ctl_range st : 0 <= ctl st <= 1.
Proof. destruct st; cbn; lia. Qed.

Lemma exact_ack_rule {A} a (k k' : stage A) s Q :
  (a = as_i32 (local_seq_no s + 1) → wp k s Q) → wp k' s Q → wp (exact_ack a k k') s Q.
Proof.
  intros Hk Hk'. unfold exact_ack. wp_steps. rewrite seq_add_ok by done. cbv beta iota.
  destruct (Z.eqb_spec a (as_i32 (local_seq_no s + 1))); auto.
Qed.
Lemma rst_reply_ok {E} ip repr :
  ip_ok ip → repr_ok repr → control repr ≠ Rst → ∃ seg, @rst_reply E ip repr = Ok seg ∧ plain_segment seg.
Proof.
  intros Hip Hr Hc. unfold rst_reply. rewrite bool_decide_false by done.
  cbn [negb]. rewrite assert_ok by done. cbn [mbind outcome_bind].
  destruct (reply_ok (E := E) ip repr Hip) as ([i r] & -> & Hpay & _ & Hopt & Hi). cbn [mbind outcome_bind fst snd] in *.
  assert (segment_len repr <= i32_max) as Hl.
  { unfold segment_len. pose proof (payload_ok repr Hr). unfold u16_max, i32_max in *. destruct (control repr); cbn; lia. }
  destruct (control repr), (ack_number repr); try (eexists; split; [done|by split_and!; [|right|..]]).
  rewrite seq_add_ok by done. eexists. split; [done|by split_and!; [|right|..]].
Qed.
Lemma send_rst_rule {A} ip repr s (Q : outcome (option segment) A → Socket → Prop) :
  ip_ok ip → repr_ok repr → control repr ≠ Rst → (∀ seg, plain_segment seg → Q (Err (Some seg)) s) →
  wp (send_rst ip repr) s Q.
Proof.
  intros Hip Hr Hc HQ. unfold send_rst. wp_steps.
  destruct (rst_reply_ok (E := option segment) ip repr Hip Hr Hc) as (seg & -> & Hseg). cbv beta iota. wp_steps. by apply HQ.
Qed.

(** Once the connection is open, every acknowledgement of something sent is acceptable. *)
Definition acceptable (s : Socket) (repr : TcpRepr) : Prop :=
  ¬ opening (state s) ∧ control repr ≠ Rst ∧ ∃ a k, ack_number repr = Some a ∧ ack_at s a k.
Definition checked_ack (s : Socket) (repr : TcpRepr) : outcome (option segment) () → Socket → Prop := λ r s',
  match r with
  | Ok _ => s' = s ∧ ack_accepted s repr
  | Err x => untouched s s' ∧ plain_reply x ∧ ¬ acceptable s repr
  | Panic => ¬ sack_ok s
  end.
Lemma untouched_refl s : tcp_inv s → untouched s s.
Proof. intros. by split_and!. Qed.

Lemma check_ack_range_ok cx ip repr s a :
  tcp_inv s → context_ok cx → ip_ok ip → is_i32 a → state s ≠ Listen → sent_syn s = false →
  ack_number repr = Some a →
  wp (check_ack_range cx ip repr a) s (checked_ack s repr).
Proof.
  intros Hinv Hcx Hip Ha Hst Hsyn Hrepr. unfold check_ack_range. wp_steps.
  rewrite flags_ctl, Hsyn. pose proof (tx_len_cap s (inv_tx s Hinv)) as Hlen.
  pose proof (ctl_range (state s)) as Hc. pose proof (una_i32 s (inv_tx s Hinv)) as Hu. cbv beta iota. wp_steps.
  rewrite seq_add_ok by (unfold i32_max; lia). cbv beta iota.
  set (U := tx_len s + ctl (state s)) in *. set (d := offset (local_seq_no s) a).
  pose proof (offset_range (local_seq_no s) a) as Hd. fold d in Hd.
  assert (a = as_i32 (local_seq_no s + d)) as Had by (by apply offset_eq).
  assert (local_seq_no s = as_i32 (local_seq_no s + 0)) as Hl0 by (rewrite Z.add_0_r, as_i32_id; done).
  assert (¬ 0 <= d <= U → ¬ acceptable s repr) as Hno.
  { intros Hout (_ & _ & a' & k & Ha' & Hk & Hku & _). rewrite Hrepr in Ha'. injection Ha' as <-. apply Hout.
    fold U in Hku. unfold d. rewrite Hk, offset_add by (unfold is_i32; lia). lia. }
  rewrite Had. rewrite Hl0 at 2. rewrite rel_lt by (unfold is_i32 in *; lia).
  destruct (Z.ltb_spec d 0); wp_steps; [split_and!; [by apply untouched_refl|done|apply Hno; lia]|].
  rewrite rel_gt by (unfold is_i32 in *; lia). destruct (Z.ltb_spec U d); wp_steps.
  - eapply wp_mono; [by apply challenge_ack_reply_ok|]. intros r s' [[-> Hs]|[(x & -> & Hx) H']]; wp_steps; [done|].
    split_and!; [done|done|apply Hno; lia].
  - split; [done|]. intros _. rewrite Hrepr. split; [done|]. exists d. split_and!; [done|done|lia|].
    by rewrite Hsyn.
Qed.

Lemma check_ack_ok cx ip repr s :
  tcp_inv s → context_ok cx → ip_ok ip → repr_ok repr → accepts ip repr s = true →
  wp (check_ack cx ip repr) s (checked_ack s repr).
Proof.
  intros Hinv Hcx Hip Hr Hacc. unfold check_ack. wp_steps. pose proof (ack_ok repr Hr) as Ha.
  pose proof (untouched_refl s Hinv) as Hun. unfold accepts in Hacc.
  assert (∀ a, state s = SynSent ∨ state s = SynReceived → a = as_i32 (local_seq_no s + 1) → ack_at s a 1) as Hsyn.
  { intros a Hst ->. destruct (inv_opening s Hinv) as (Hl & _); [unfold opening; tauto|].
    unfold ack_at. rewrite Hl. destruct Hst as [-> | ->]; cbn [ctl]; split_and!; (done || lia). }
  assert (∀ a, ack_number repr = Some a → state s ≠ Listen → sent_syn s = false →
    wp (check_ack_range cx ip repr a) s (checked_ack s repr)) as Hrange.
  { intros a E ? ?. apply check_ack_range_ok; try done. by rewrite E in Ha. }
  unfold checked_ack, ack_accepted, acceptable, opening, sent_syn in *.
  destruct (state s) eqn:Est, (control repr) eqn:Ec, (ack_number repr) as [a|] eqn:Ea;
    try (rewrite ?bool_decide_true in Hacc by done; done);
    try (by apply Hrange);
    try apply exact_ack_rule; try intros Hex; try (apply send_rst_rule; [done|done|by rewrite Ec|intros seg Hseg]);
    wp_steps; try (split_and!; [exact Hun|done|first [by intros (Hop & _); apply Hop; auto | by intros (_ & ? & _) | by intros (_ & _ & ? & ? & ? & _)]]);
    (split; [done|]); intros Hnr; try done; eauto 6.
Qed.

(** ** The segment in the window *)

(** The sequence number after the received data, and a segment's distance from it *)
Definition expected (s : Socket) : Z := remote_seq_no s + rx_len s.
Definition distance (s : Socket) (repr : TcpRepr) : Z := offset (expected s) (seq_number repr).

(** The acceptance test: a segment without data starts in the window, or at its
    start if the window is closed; one with data starts or ends in it. *)
Definition in_window (s : Socket) (repr : TcpRepr) : bool :=
  let d := distance s repr in let n := plen repr in let free := rx_free s in
  if n =? 0 then if free =? 0 then d =? 0 else (0 <=? d) && (d <? free)
  else negb (free =? 0) && ((0 <=? d) && (d <? free) || (0 <? d + n) && (d + n <=? free)).

Lemma start_in_window w d free :
  is_i32 d → 0 < free <= 2 ^ 30 →
  Seq.le (as_i32 w) (as_i32 (w + d)) && Seq.lt (as_i32 (w + d)) (as_i32 (w + free)) = (0 <=? d) && (d <? free).
Proof.
  unfold is_i32. intros Hd Hf. unfold Seq.le, Seq.lt. rewrite !as_i32_dist.
  pose proof (as_i32_range (w - (w + d))). destruct (as_i32_split (w - (w + d))) as [k Hk].
  pose proof (as_i32_range (w + d - (w + free))). destruct (as_i32_split (w + d - (w + free))) as [j Hj].
  unfold is_i32 in *. split_zbool; try done; lia.
Qed.
Lemma end_in_window w e free :
  - 2 ^ 31 < e < 2 ^ 31 + 2 ^ 16 → 0 < free <= 2 ^ 30 →
  Seq.lt (as_i32 w) (as_i32 (w + e)) && Seq.le (as_i32 (w + e)) (as_i32 (w + free)) = (0 <? e) && (e <=? free).
Proof.
  intros He Hf. unfold Seq.le, Seq.lt. rewrite !as_i32_dist.
  pose proof (as_i32_range (w - (w + e))). destruct (as_i32_split (w - (w + e))) as [k Hk].
  pose proof (as_i32_range (w + e - (w + free))). destruct (as_i32_split (w + e - (w + free))) as [j Hj].
  unfold is_i32 in *. split_zbool; try done; lia.
Qed.
(** The acceptance test, on distances *)
Lemma segment_in_window_spec {E} w d n free :
  is_i32 d → 0 <= n <= u16_max → 0 <= free <= 2 ^ 30 →
  @segment_in_window E (as_i32 (w + d)) (as_i32 (w + (d + n))) (as_i32 w) (as_i32 (w + free)) =
  Ok (if n =? 0 then if free =? 0 then d =? 0 else (0 <=? d) && (d <? free)
      else negb (free =? 0) && ((0 <=? d) && (d <? free) || (0 <? d + n) && (d + n <=? free))).
Proof.
  unfold u16_max. intros Hd Hn Hf. pose proof Hd as Hd'. unfold is_i32 in Hd'. unfold segment_in_window.
  rewrite seq_sub_usize_ok by done. cbn [mbind outcome_bind]. f_equal.
  replace (as_i32 (as_i32 w - 1)) with (as_i32 (w - 1)) by (symmetry; apply as_i32_add).
  rewrite !as_i32_eqb by lia. replace (w + d =? w + (d + n)) with (n =? 0) by (split_zbool; lia).
  replace (w =? w + free) with (free =? 0) by (split_zbool; lia).
  destruct (Z.eqb_spec n 0) as [->|Hn0], (Z.eqb_spec free 0) as [->|Hf0]; cbn [negb andb].
  - split_zbool; lia.
  - rewrite start_in_window by (done || lia). split_zbool; try done; lia.
  - done.
  - by rewrite start_in_window, end_in_window by (done || lia).
Qed.

(** The part of the payload that lies in the window *)
Definition trimmed (s : Socket) (repr : TcpRepr) (part : list Z) (o : Z) : Prop :=
  let d := distance s repr in
  let hi := Z.min (rx_free s) (d + plen repr) in
  o = Z.max 0 d ∧ o <= hi ∧ - plen repr <= d ∧
  part = slice (Z.to_nat (o - d)) (Z.to_nat (hi - o)) (payload repr).
(** A segment that synchronizes the connection carries no data yet. *)
Definition handshaking (st : State) : bool := match st with Listen | SynSent => true | _ => false end.
Definition took_part (s : Socket) (repr : TcpRepr) (part : list Z) (o : Z) : Prop :=
  if handshaking (state s) then part = [] ∧ o = 0 else trimmed s repr part o.

Lemma window_bounds_ok {E} s :
  rx_inv s → @window_bounds E s = Ok (as_i32 (expected s), as_i32 (expected s + rx_free s)).
Proof.
  intros H. unfold window_bounds. rewrite next_ack_ok by done. cbn [mbind outcome_bind].
  pose proof (rx_len_free s H). pose proof (rx_cap s H).
  rewrite seq_add_ok by (unfold i32_max; lia). cbn [mbind outcome_bind]. unfold expected. do 3 f_equal. lia.
Qed.
Lemma segment_bounds_ok {E} s repr :
  repr_ok repr → @segment_bounds E repr =
    Ok (as_i32 (expected s + distance s repr), as_i32 (expected s + (distance s repr + plen repr))).
Proof.
  intros H. unfold segment_bounds. pose proof (payload_ok repr H).
  assert (seq_number repr = as_i32 (expected s + distance s repr)) as Hq by (apply offset_eq; apply H).
  rewrite Hq. rewrite rel_add by (unfold i32_max, u16_max in *; lia). done.
Qed.
Lemma sub_slice_ok {E} l lo hi :
  0 <= lo <= hi → hi <= Z.of_nat (length l) →
  @sub_slice E l lo hi = Ok (slice (Z.to_nat lo) (Z.to_nat (hi - lo)) l).
Proof. intros. unfold sub_slice. by rewrite !(proj2 (Z.leb_le _ _)) by lia. Qed.

Lemma overlap_ok repr s :
  tcp_inv s → repr_ok repr →
  let d := distance s repr in let n := plen repr in let w := expected s in let free := rx_free s in
  - n <= d <= free → Z.max 0 d <= Z.min free (d + n) →
  wp (overlap repr (as_i32 w) (as_i32 (w + free)) (as_i32 (w + d)) (as_i32 (w + (d + n)))) s
    (λ r s', ∃ part o, r = Ok (part, o) ∧ trimmed s repr part o ∧ ∃ q, s' = update local_rx_last_seq (λ _, q) s).
Proof.
  intros Hinv Hr d n w free Hd Hle. pose proof (rx_len_free s (inv_rx s Hinv)). pose proof (rx_cap s (inv_rx s Hinv)).
  pose proof (payload_ok repr Hr) as Hp. unfold u16_max in Hp. fold n in Hp. fold free in H. unfold overlap. wp_steps.
  replace (as_i32 w) with (as_i32 (w + 0)) by (by rewrite Z.add_0_r).
  rewrite rel_max, rel_min by (unfold is_i32 in *; lia). rewrite rel_le by (unfold is_i32; lia).
  rewrite assert_ok by (by apply Z.leb_le). wp_steps.
  rewrite !rel_sub by lia. wp_steps. rewrite sub_slice_ok by (unfold n, plen in *; lia). wp_steps.
  eexists _, _. split; [done|]. split; [|by eexists]. unfold trimmed. fold d n free.
  split_and!; [lia|lia|lia|]. f_equal; lia.
Qed.
Lemma refuse_ok {A} cx ip repr s :
  tcp_inv s → context_ok cx → ip_ok ip →
  wp (@refuse A cx ip repr) s (λ r s', sack_panic s r ∨ (∃ x, r = Err x ∧ plain_reply x) ∧ untouched s s').
Proof.
  intros Hinv Hcx Hip. unfold refuse. wp_steps.
  destruct (bool_decide (state s = TimeWait)); wp_steps.
  - eapply wp_mono; [apply (set_for_close_ok (now cx)); apply Hcx|]. intros r t [-> Ht]. cbv beta iota.
    set (s1 := update timer (λ _, t) s). wp_steps. eapply wp_mono; [apply (challenge_ack_reply_ok cx ip repr s1); try done|].
    + destruct Hinv as [Hrx Htx Hop Hli Hpe Hti].
      split; [inherit Hrx|inherit Htx|exact Hop|inherit Hli|inherit Hpe|inherit Hti].
    + intros r s' [[-> Hs]|[(x & -> & Hx) H']]; wp_steps; [by left|]. right. split; [by eexists|exact H'].
  - eapply wp_mono; [by apply challenge_ack_reply_ok|]. intros r s' [[-> Hs]|[(x & -> & Hx) H']]; wp_steps; [by left|].
    right. split; [by eexists|done].
Qed.
Lemma trim_payload_ok cx ip repr s :
  tcp_inv s → context_ok cx → ip_ok ip → repr_ok repr →
  wp (trim_payload cx ip repr) s (λ r s',
    match r with
    | Ok (part, o) => took_part s repr part o ∧ ∃ q, s' = update local_rx_last_seq (λ _, q) s
    | Err x => untouched s s' ∧ plain_reply x ∧ in_window s repr = false
    | Panic => ¬ sack_ok s
    end).
Proof.
  intros Hinv Hcx Hip Hr. pose proof (inv_rx s Hinv) as Hrx. pose proof (rx_len_free s Hrx). pose proof (rx_cap s Hrx).
  pose proof (payload_ok repr Hr) as Hp. pose proof (offset_range (expected s) (seq_number repr)) as Hd.
  assert (0 <= plen repr) as Hn0 by (unfold plen; lia).
  unfold trim_payload. wp_steps. rewrite window_bounds_ok by done. wp_steps.
  rewrite (segment_bounds_ok s) by done. cbv beta iota. wp_steps.
  assert ((state s = Listen ∨ state s = SynSent) ∨ (state s ≠ Listen ∧ state s ≠ SynSent)) as [Hst|[H1 H2]]
    by (destruct (state s); auto).
  { assert (∃ q, s = update local_rx_last_seq (λ _, q) s) as Hq by (exists (local_rx_last_seq s); by destruct s).
    unfold took_part. destruct Hst as [E|E]; rewrite E; wp_steps; (split; [done|done]). }
  eassert (wp (_ ← lift (segment_in_window _ _ _ _); _) s _) as Hgo; [|destruct (state s); try done; exact Hgo].
  wp_steps. rewrite segment_in_window_spec by (done || lia). fold (distance s repr) in *. cbv beta iota.
  fold (in_window s repr). unfold in_window at 1. destruct (if plen repr =? 0 then _ else _) eqn:Hin.
  - eapply wp_mono; [apply overlap_ok; try done|].
    + revert Hin. unfold is_i32 in Hd. split_zbool; cbn; intros; try done; lia.
    + revert Hin. unfold is_i32 in Hd. split_zbool; cbn; intros; try done; lia.
    + intros r s' (part & o & -> & Ht & Hq). split; [|done]. unfold took_part. by destruct (state s).
  - eapply wp_mono; [by apply refuse_ok|]. by intros r s' [[-> Hs]|[(x & -> & Hx) Hu]].
Qed.

(** ** What is acknowledged *)

(** An acknowledgement [k] past the first unacknowledged number takes so many
    octets off the transmit buffer: neither the SYN nor the FIN counts. *)
Definition counts (s : Socket) (k : Z) (acked : Acked) : Prop :=
  ack_len acked = (if sent_syn s then 0 else if ack_of_fin acked then k - 1 else k) ∧
  (ack_of_fin acked = true ↔ sent_fin s = true ∧ k = tx_len s + 1).
Definition counted (s : Socket) (repr : TcpRepr) (acked : Acked) : Prop :=
  match ack_number repr with
  | Some a => control repr ≠ Rst → ∃ k, ack_at s a k ∧ counts s k acked
  | None => ack_len acked = 0 ∧ ack_of_fin acked = false
  end.
(** Only the estimators differ. *)
Definition estimated (s s' : Socket) : Prop :=
  ∃ r c, rtte_ok r ∧ s' = update congestion_controller (λ _, c) (update rtte (λ _, r) s).

Lemma sent_syn_ctl s : sent_syn s = true → sent_fin s = false ∧ ctl (state s) = 1.
Proof. unfold sent_syn, sent_fin. by destruct (state s). Qed.
Lemma sent_fin_ctl s : sent_syn s = false → ctl (state s) = flag_len (sent_fin s).
Proof. unfold sent_syn, sent_fin. by destruct (state s). Qed.

Lemma acked_octets_ok s a k :
  tx_inv s → ack_at s a k → ∃ acked, acked_octets a s = Ok acked ∧ counts s k acked.
Proof.
  intros Htx (-> & Hk & Hsyn). pose proof (tx_len_cap s Htx) as Hl. pose proof (ctl_range (state s)).
  pose proof (una_i32 s Htx) as Hu. unfold acked_octets.
  assert (0 <= flag_len (sent_syn s) <= 1) by (unfold flag_len; destruct (sent_syn s); lia).
  rewrite seq_add_ok by (unfold i32_max; lia). cbn [mbind outcome_bind].
  rewrite rel_ge by (unfold is_i32; lia). unfold counts. destruct (sent_syn s) eqn:Es; cbn [flag_len] in *.
  - destruct (sent_syn_ctl s Es) as [Hf _]. rewrite (Hsyn eq_refl), Hf. rewrite Z.leb_refl, rel_sub by lia.
    cbn [mbind outcome_bind andb]. eexists. split; [done|]. cbn. split; [lia|]. by split; [|intros [? ?]].
  - rewrite (proj2 (Z.leb_le 0 k)) by lia. rewrite rel_sub by lia. cbn [mbind outcome_bind]. rewrite Z.sub_0_r.
    destruct (sent_fin s); cbn [andb]; [destruct (Z.eqb_spec (tx_len s + 1) k) as [He|He]|].
    + eexists. split; [done|]. cbn. split; [done|]. by split.
    + eexists. split; [done|]. cbn. split; [done|]. split; [done|]. intros [_ ?]. lia.
    + eexists. split; [done|]. cbn. split; [done|]. by split; [|intros [? ?]].
Qed.
Lemma ack_len_bound s a k acked :
  ack_at s a k → counts s k acked → 0 <= ack_len acked <= tx_len s ∧ k - ctl (state s) <= ack_len acked.
Proof.
  intros (_ & Hk & Hsyn) [-> Hf]. assert (0 <= tx_len s) by (unfold tx_len; lia). destruct (sent_syn s) eqn:Es.
  - destruct (sent_syn_ctl s Es) as [_ ->]. specialize (Hsyn eq_refl). lia.
  - rewrite (sent_fin_ctl s Es) in *. destruct (ack_of_fin acked), (sent_fin s); cbn [flag_len] in *.
    + destruct Hf as [Hf _]. destruct (Hf eq_refl). lia.
    + destruct Hf as [Hf _]. by destruct (Hf eq_refl).
    + destruct (Z.eq_dec k (tx_len s + 1)) as [E|E]; [|lia]. destruct Hf as [_ Hf]. by specialize (Hf (conj eq_refl E)).
    + lia.
Qed.

Lemma count_acked_ok cx repr s :
  tcp_inv s → context_ok cx → sample_fresh (now cx) (rtte s) → ack_accepted s repr →
  wp (count_acked cx repr) s (λ r s', ∃ acked, r = Ok acked ∧ counted s repr acked ∧ estimated s s').
Proof.
  intros Hinv Hcx Hf Hacc. assert (estimated s s) as Hid.
  { exists (rtte s), (congestion_controller s). split; [apply Hinv|by destruct s]. }
  unfold count_acked, counted. unfold ack_accepted in Hacc.
  destruct (control repr) eqn:Ec; [..|by wp_steps; eexists; split_and!; [done| |done]; destruct (ack_number repr)];
    (destruct (ack_number repr) as [a|]; [|by wp_steps; eexists; split_and!]);
    (destruct Hacc as (_ & k & Hk); [done|]); wp_steps;
    (destruct (acked_octets_ok s a k (inv_tx s Hinv) Hk) as (acked & Hacked & Hc); rewrite Hacked); wp_steps;
    (eapply wp_mono; [apply on_ack_ok; [apply Hinv|apply Hcx|done]|]); intros r r' [-> Hr'];
    cbv beta iota; wp_steps; eexists; (split; [done|]); (split; [by eauto|]);
    eexists r', (Congestion.on_ack (ack_len acked) (congestion_controller s)); (split; [done|]); reflexivity.
Qed.
