(* ===== verification/TcpMoves.v ===== *)
(** * The state machine of a TCP socket

    The edges of the state diagram, and the transition made by an accepted
    segment: it moves along an edge, and what it leaves of the send and receive
    sequence spaces fits the new state. *)
From stdpp Require Import prelude.
From S2P Require Import Prelude Wire SeqSpec TcpTimers Assembler AssemblerSpec RingBuffer RingSpec TcpSocket TcpProcess.
From S2P Require Import TcpInv TcpReply TcpStages.
Open Scope Z_scope.

(** The diagram of RFC 793 as the code implements it: the edges taken by a segment
    that arrives or by a timer, which may close the socket from every state *)
Definition edge (st st' : State) : bool :=
  match st, st' with
  | _, Closed => true
  | Listen, (Listen | SynReceived) => true
  | SynSent, (SynSent | SynReceived | Established) => true
  | SynReceived, (SynReceived | Listen | Established | CloseWait) => true
  | Established, (Established | CloseWait) => true
  | FinWait1, (FinWait1 | FinWait2 | Closing | TimeWait) => true
  | FinWait2, (FinWait2 | TimeWait) => true
  | CloseWait, CloseWait => true
  | Closing, (Closing | TimeWait) => true
  | LastAck, LastAck => true
  | TimeWait, TimeWait => true
  | _, _ => false
  end.
Lemma edge_refl st : edge st st = true.
Proof. by destruct st. Qed.

Definition same_buffers (s s' : Socket) : Prop :=
  rx_buffer s' = rx_buffer s ∧ assembler s' = assembler s ∧ tx_buffer s' = tx_buffer s.

(** The send space after the transition, before the acknowledgement is taken *)
Definition send_space (s : Socket) (repr : TcpRepr) (acked : Acked) (s1 : Socket) : Prop :=
  is_i32 (local_seq_no s1) ∧ is_i32 (remote_last_seq s1) ∧
  match ack_number repr with
  | Some a =>
      local_seq_no s1 = local_seq_no s ∧ 0 <= flight s1 <= tx_len s + ctl (state s) ∧
      (∀ k, ack_at s a k → counts s k acked → ctl (state s) <= ctl (state s1) ∨ k = tx_len s + ctl (state s))
  | None => 0 <= flight s1 <= tx_len s + ctl (state s1)
  end.
(** How far the first unacknowledged sequence number is past the initial one, not
    counting data: a SYN of ours that is acknowledged, and a FIN *)
Definition una_off (st : State) : Z :=
  match st with SynSent | SynReceived => 0 | FinWait2 | TimeWait => 2 | _ => 1 end.
(** The acknowledgement of a flag moves the state with the sequence number. *)
Definition flags_acked (s : Socket) (repr : TcpRepr) (acked : Acked) (s1 : Socket) : Prop :=
  match ack_number repr with
  | Some _ =>
      ¬ opening (state s1) ∧
      (state s1 ≠ Closed →
       una_off (state s1) = una_off (state s) + (if sent_syn s then 1 else flag_len (ack_of_fin acked)))
  | None => state s = SynSent → local_seq_no s1 = local_seq_no s ∧ state s1 = SynReceived
  end.
(** The receive space: synchronized by a SYN, or advanced over a FIN *)
Definition recv_space (s : Socket) (repr : TcpRepr) (c : Control) (s1 : Socket) : Prop :=
  if handshaking (state s) then
    remote_seq_no s1 = as_i32 (seq_number repr + 1) ∧ rx_fin_received s1 = rx_fin_received s
  else
    let fin := bool_decide (c = Fin) in
    remote_seq_no s1 = as_i32 (remote_seq_no s + flag_len fin) ∧ rx_fin_received s1 = rx_fin_received s || fin.

(** The edge taken by a control flag once the remote end is known, given whether
    our FIN is acknowledged *)
Definition target (st : State) (c : Control) (fin_acked : bool) : State :=
  match st, c with
  | SynReceived, CNone => Established
  | (SynReceived | Established), Fin => CloseWait
  | FinWait1, CNone => if fin_acked then FinWait2 else FinWait1
  | FinWait1, Fin => if fin_acked then TimeWait else Closing
  | FinWait2, Fin => TimeWait
  | Closing, CNone => if fin_acked then TimeWait else Closing
  | LastAck, CNone => if fin_acked then Closed else LastAck
  | _, _ => st
  end.

Record moved (s : Socket) (repr : TcpRepr) (c : Control) (acked : Acked) (s1 : Socket) : Prop := {
  moved_control : c ≠ Rst;
  moved_buffers : same_buffers s s1;
  moved_send : send_space s repr acked s1;
  moved_flags : flags_acked s repr acked s1;
  moved_recv : recv_space s repr c s1;
  moved_syn : handshaking (state s) = true → c = Syn;
  moved_edge : edge (state s) (state s1) = true;
  moved_target : handshaking (state s) = false → state s1 = target (state s) c (ack_of_fin acked);
  moved_open : state s1 = Closed → tuple s1 = None;
  moved_left : handshaking (state s) = false → ¬ opening (state s1) ∧ remote_has_sack s1 = remote_has_sack s;
  moved_opening : opening_inv s1;
  moved_link : link_inv s1;
  moved_peer : peer_inv s1;
  moved_time : time_inv s1 }.
(** A transition that ends the processing of the segment *)
Record ended (s s' : Socket) : Prop := {
  ended_inv : tcp_inv s';
  ended_rx : rx_view s' = rx_view s;
  ended_tx : tx_buffer s' = tx_buffer s;
  ended_una : (state s' = state s ∧ local_seq_no s' = local_seq_no s) ∨ state s' = Closed ∨ state s' = Listen;
  ended_edge : edge (state s) (state s') = true }.
(** What an open connection acts on: after the remote end's FIN only acknowledgements *)
Definition moves_on (st : State) (c : Control) : bool :=
  match st, c with
  | (Established | FinWait1 | FinWait2), (CNone | Fin) => true
  | (CloseWait | Closing | LastAck), CNone => true
  | _, _ => false
  end.
Definition transitioned (s : Socket) (repr : TcpRepr) (c : Control) (acked : Acked) :
    outcome (option segment) () → Socket → Prop := λ r s',
  match r with Ok _ => moved s repr c acked s' | Err x => ended s s' ∧ x = None ∧ moves_on (state s) c = false | Panic => False end.

Lemma ended_refl s : tcp_inv s → ended s s.
Proof. intros. constructor; try done; [by left|apply edge_refl]. Qed.
Lemma untouched_ended s s' : untouched s s' → ended s s'.
Proof.
  intros (Hinv & Hrx & Htx & _). injection Htx as Hst Hb Hl _. constructor; try done; [by left|]. rewrite Hst. apply edge_refl.
Qed.

(** ** The handshake *)

Definition carries_mss (repr : TcpRepr) : Prop := opt_all (λ n, n ≠ 0) (max_seg_size repr).
Lemma take_mss_rule repr s (Q : outcome (option segment) () → Socket → Prop) :
  repr_ok repr → peer_inv s →
  Q (Err None) s →
  (∀ c m, 1 <= m <= u16_max → Q (Ok ()) (update remote_mss (λ _, m) (update congestion_controller (λ _, c) s))) →
  wp (take_mss repr) s Q.
Proof.
  intros Hr Hp Herr Hok. unfold take_mss. pose proof (max_seg_size_ok repr Hr) as Hm.
  destruct (max_seg_size repr) as [m|]; cbn in Hm.
  - destruct m as [|m|m]; [by wp_steps| |lia]. wp_steps. apply Hok. lia.
  - wp_steps. specialize (Hok (congestion_controller s) (remote_mss s) (mss_ok s Hp)). by destruct s.
Qed.
Lemma take_options_rule repr s (Q : outcome (option segment) () → Socket → Prop) :
  (∀ h w g, 0 <= w <= 15 → Q (Ok ()) (update tsval_generator (λ _, g) (update remote_win_shift (λ _, w)
     (update remote_win_scale (λ _, window_scale repr) (update remote_has_sack (λ _, h) s))))) →
  peer_inv s → wp (take_options repr) s Q.
Proof.
  intros Hok Hp. unfold take_options. wp_steps.
  pose proof (Hok (sack_permitted repr) (remote_win_shift s) (tsval_generator s) (shift_ok s Hp)) as H1.
  pose proof (Hok (sack_permitted repr) 0 (tsval_generator s) ltac:(lia)) as H2.
  pose proof (Hok (sack_permitted repr) (remote_win_shift s) None (shift_ok s Hp)) as H3.
  pose proof (Hok (sack_permitted repr) 0 None ltac:(lia)) as H4. clear Hok.
  destruct (window_scale repr), (timestamp repr); wp_steps; destruct s; assumption.
Qed.

Lemma random_seq_no_rule s (Q : outcome (option segment) Z → Socket → Prop) :
  (∀ q r, is_i32 q → Q (Ok q) (update rand_state (λ _, r) s)) → wp random_seq_no s Q.
Proof. intros HQ. unfold random_seq_no, rand_u32. wp_steps. apply HQ, as_i32_range. Qed.

Lemma on_syn_listening_ok cx ip repr acked s :
  tcp_inv s → context_ok cx → ip_ok ip → repr_ok repr → state s = Listen → ack_number repr = None →
  wp (on_syn_listening cx ip repr) s (transitioned s repr Syn acked).
Proof.
  intros Hinv Hcx Hip Hr Est Ea. unfold on_syn_listening, set_state. wp_step.
  apply take_mss_rule; [done|apply Hinv|split_and!; [by apply ended_refl|done|by rewrite Est]|]. intros c m Hm. wp_steps. apply random_seq_no_rule. intros iss rs Hiss. wp_steps.
  rewrite seq_add_ok by done. wp_steps. apply take_options_rule.
  2: { destruct (inv_peer s Hinv). constructor; assumption. }
  intros h w g Hw. wp_steps. eapply wp_mono.
  { apply (set_for_idle_ok (now cx)); [apply Hcx|]. fields. apply Hinv. }
  intros r t [-> Ht]. cbv beta iota.
  destruct Hinv as [Hrx Htx Hop Hli Hpe Hti].
  destruct (Hop (or_introl Est)) as (Hl1 & Hl2 & Hnone & Hfin). constructor.
  - done.
  - done.
  - unfold send_space. rewrite Ea. split_and!; fields; try done.
    + unfold flight. fields. unfold offset. by rewrite Z.sub_diag.
    + unfold flight. fields. unfold offset. rewrite Z.sub_diag. change (tx_len s = 0) in Hl1. rewrite Hl1. done.
  - unfold flags_acked. by rewrite Ea, Est.
  - unfold recv_space. rewrite Est. cbn [handshaking]. by fields.
  - done.
  - rewrite Est. by fields.
  - by rewrite Est.
  - done.
  - by rewrite Est.
  - intros _. split_and!; assumption.
  - constructor; fields; try done.
  - destruct Hpe. constructor; fields; try done. apply Hr.
  - destruct Hti. constructor; fields; done.
Qed.

Lemma on_syn_connecting_ok repr acked s :
  tcp_inv s → repr_ok repr → state s = SynSent → wp (on_syn_connecting repr) s (transitioned s repr Syn acked).
Proof.
  intros Hinv Hr Est. unfold on_syn_connecting, set_state. wp_step.
  apply take_mss_rule; [done|apply Hinv|split_and!; [by apply ended_refl|done|by rewrite Est]|]. intros c m Hm. wp_steps.
  rewrite seq_add_ok by done. wp_steps. fields. rewrite seq_add_ok by done. wp_steps. apply take_options_rule.
  2: { destruct (inv_peer s Hinv). constructor; fields; try assumption. apply Hr. }
  intros h w g Hw. wp_steps. destruct Hinv as [Hrx Htx Hop Hli Hpe Hti].
  destruct (Hop ltac:(unfold opening; auto)) as (Hl1 & Hl2 & Hnone & Hfin).
  assert (offset (local_seq_no s) (as_i32 (local_seq_no s + 1)) = 1) as Hone by (by apply offset_add).
  constructor.
  - done.
  - done.
  - unfold send_space, flight. rewrite Hl1, Est. cbn [ctl]. split_and!; fields; [apply Htx|apply as_i32_range|].
    destruct (ack_number repr); fields; rewrite Hone.
    + split; [done|]. split; [lia|]. intros k (_ & _ & Hk) _. right. rewrite Hk; [lia|]. unfold sent_syn. by rewrite Est.
    + cbn [ctl]. lia.
  - unfold flags_acked, sent_syn. rewrite Est. fields. destruct (ack_number repr); fields; [|done].
    split; [by intros [|[|]]|done].
  - unfold recv_space. rewrite Est. cbn [handshaking]. by fields.
  - done.
  - rewrite Est. fields. by destruct (ack_number repr).
  - by rewrite Est.
  - fields. by destruct (ack_number repr).
  - by rewrite Est.
  - intros _. split_and!; assumption.
  - constructor; fields; [intros _|by destruct (ack_number repr)|apply Hli]. apply Hli. by rewrite Est.
  - destruct Hpe. constructor; fields; try done; apply Hr.
  - destruct Hti. constructor; fields; done.
Qed.

(** ** The other transitions *)

Lemma take_fin_rule s (Q : outcome (option segment) () → Socket → Prop) :
  Q (Ok ()) (update rx_fin_received (λ _, true) (update remote_seq_no (λ _, as_i32 (remote_seq_no s + 1)) s)) →
  wp take_fin s Q.
Proof. intros HQ. unfold take_fin. wp_steps. rewrite seq_add_ok by done. by wp_steps. Qed.
Lemma enter_time_wait_rule cx s (Q : outcome (option segment) () → Socket → Prop) :
  context_ok cx →
  (∀ t, timer_ok t → Q (Ok ()) (update timer (λ _, t) (update state (λ _, TimeWait) s))) → wp (enter_time_wait cx) s Q.
Proof.
  intros Hcx HQ. unfold enter_time_wait, set_state. wp_steps.
  eapply wp_mono; [apply (set_for_close_ok (now cx)); apply Hcx|]. intros r t [-> Ht]. cbv beta iota. by apply HQ.
Qed.

(** A transition of a synchronized socket that leaves the sequence numbers sent
    and the buffers as they are *)
Lemma moved_plain s repr c acked st' t' tu' :
  c ≠ Rst → tcp_inv s → synced (state s) → state s ≠ SynSent → is_Some (ack_number repr) →
  (st' = Closed → tu' = None) → (st' ≠ Closed → tu' = tuple s) → synced st' ∨ st' = Closed →
  ¬ opening st' →
  edge (state s) st' = true → st' = target (state s) c (ack_of_fin acked) → timer_ok t' →
  (∀ a k, ack_at s a k → counts s k acked → ctl (state s) <= ctl st' ∨ k = tx_len s + ctl (state s)) →
  (st' ≠ Closed → una_off st' = una_off (state s) + (if sent_syn s then 1 else flag_len (ack_of_fin acked))) →
  let fin := bool_decide (c = Fin) in
  ∀ s1, s1 = update tuple (λ _, tu') (update timer (λ _, t') (update state (λ _, st')
          (update rx_fin_received (λ _, rx_fin_received s || fin)
            (update remote_seq_no (λ _, as_i32 (remote_seq_no s + flag_len fin)) s)))) →
  moved s repr c acked s1.
Proof.
  intros Hnr Hinv Hst Hss [a Ea] Hcl Hop' Hsync Hopen Hedge Htg Ht Hack Huna fin s1 ->.
  assert (handshaking (state s) = false) as Hhs by (destruct Hst; by destruct (state s)).
  pose proof Hinv as [Hrx Htx Hop Hli Hpe Hti]. constructor.
  - done.
  - done.
  - unfold send_space. rewrite Ea. split_and!; fields; [apply Htx|apply Htx|done|..].
    + by apply Htx.
    + by apply Htx.
    + intros k. apply Hack.
  - unfold flags_acked. by rewrite Ea.
  - unfold recv_space. rewrite Hhs. by fields.
  - by rewrite Hhs.
  - by fields.
  - by fields.
  - by fields.
  - by fields.
  - by intros ?%Hopen.
  - constructor; fields.
    + intros [Hc _]. rewrite Hop' by done. by apply Hli.
    + intros ->. destruct Hsync as [[]|]; done.
    + destruct (decide (st' = Closed)) as [E|E]; [by rewrite Hcl|]. rewrite Hop' by done. apply Hli.
  - inherit Hpe.
  - destruct Hti. constructor; fields; try done.
Qed.

Lemma closed_inv s tu :
  tcp_inv s → opt_all (λ t, version (addr (local t)) = version (addr (remote t))) tu →
  tcp_inv (update tuple (λ _, tu) (update state (λ _, Closed) s)).
Proof.
  intros [Hrx Htx Hop Hli Hpe Hti] Htu. split.
  - inherit Hrx.
  - destruct Htx. constructor; fields; try assumption. by intros [? _].
  - intros Ho. fields_in Ho. by destruct Ho as [|[|]].
  - constructor; fields; [by intros [? _]|done|done].
  - inherit Hpe.
  - inherit Hti.
Qed.
Lemma listen_again_inv s :
  tcp_inv s → state s = SynReceived → tcp_inv (update state (λ _, Listen) (update tuple (λ _, None) s)).
Proof.
  intros [Hrx Htx Hop Hli Hpe Hti] Est. split.
  - inherit Hrx.
  - destruct Htx. constructor; fields; try assumption. by intros [_ ?].
  - intros _. apply Hop. unfold opening. auto.
  - constructor; fields; [by intros [_ ?]|done|done].
  - inherit Hpe.
  - inherit Hti.
Qed.
Lemma on_rst_ok repr acked s : tcp_inv s → state s ≠ Listen → wp on_rst s (transitioned s repr Rst acked).
Proof.
  intros Hinv Hl. unfold on_rst, set_state. wp_steps.
  destruct (bool_decide (state s = SynReceived) && _) eqn:E; wp_steps.
  - apply andb_true_iff in E as [E _]. apply bool_decide_eq_true in E.
    split_and!; [|done|by destruct (state s)]. constructor; [by apply listen_again_inv|done|done|by right; right|]. fields. by rewrite E.
  - split_and!; [|done|by destruct (state s)]. constructor; [by apply closed_inv|done|done|by right; left|]. fields. by destruct (state s).
Qed.

(** The control flag acted on *)
Definition acted (repr : TcpRepr) (s : Socket) : Control :=
  let c := quash_psh (control repr) in
  if bool_decide (c = Fin) && Seq.lt (as_i32 (expected s)) (seq_number repr) then CNone else c.
Lemma effective_control_ok {E} repr s : rx_inv s → @effective_control E repr s = Ok (acted repr s).
Proof. intros Hrx. unfold effective_control. by rewrite next_ack_ok. Qed.
Lemma acted_control repr s :
  (acted repr s = Rst ↔ control repr = Rst) ∧ acted repr s ≠ Psh ∧ (acted repr s = Syn ↔ control repr = Syn).
Proof.
  unfold acted. destruct (control repr); cbn [quash_psh]; rewrite ?bool_decide_false by done; cbn [andb]; try done.
  rewrite bool_decide_true by done. cbn [andb]. by destruct (Seq.lt _ _).
Qed.
Lemma acted_fin repr s :
  acted repr s = Fin → control repr = Fin ∧ Seq.lt (as_i32 (expected s)) (seq_number repr) = false.
Proof.
  unfold acted. destruct (control repr); cbn [quash_psh]; rewrite ?bool_decide_false by done; cbn [andb]; try done.
  rewrite bool_decide_true by done. cbn [andb]. by destruct (Seq.lt _ _).
Qed.

(** Two ways to write the same update of a socket in state [Est] *)
Ltac same_socket s Hri Est :=
  clear - Hri Est; destruct s; cbn in Hri, Est |- *; rewrite ?Est;
  rewrite ?orb_true_r, ?orb_false_r, ?Z.add_0_r, ?as_i32_id by assumption; reflexivity.
Lemma moved_eq s repr c acked s1 s2 : s1 = s2 → moved s repr c acked s2 → moved s repr c acked s1.
Proof. by intros ->. Qed.

Ltac plain H Hnf s Hri Est st t tu :=
  eapply moved_eq; [|apply (H st t tu); try done; try (by intros [|[|]]); cbn; auto with lia; intros _; rewrite ?Hnf by done; done]; same_socket s Hri Est.

Lemma transition_ok cx ip repr acked c s :
  tcp_inv s → context_ok cx → ip_ok ip → repr_ok repr → state s ≠ Closed →
  ack_accepted s repr → counted s repr acked → (c = Rst ↔ control repr = Rst) → c ≠ Psh → (c = Syn ↔ control repr = Syn) →
  wp (transition cx ip repr c (ack_of_fin acked)) s (transitioned s repr c acked).
Proof.
  intros Hinv Hcx Hip Hr Hcl Hacc Hcount Hrst Hpsh Hsyn.
  destruct (decide (c = Rst)) as [->|Hnr].
  { unfold transition. wp_steps. pose proof (on_rst_ok repr acked s Hinv) as Hgo.
    destruct (state s) eqn:E; try (by apply Hgo). wp_steps. split_and!; [by apply ended_refl|done|by rewrite E]. }
  assert (control repr ≠ Rst) as Hcr by tauto. specialize (Hacc Hcr).
  pose proof (inv_time s Hinv) as Hti. pose proof (timer_is_ok s Hti) as Htm.
  pose proof (rx_i32 s (inv_rx s Hinv)) as Hri.
  assert (∀ a k, ack_number repr = Some a → ack_at s a k → counts s k acked →
    ack_of_fin acked = true → k = tx_len s + ctl (state s)) as Hfin.
  { intros a k _ (_ & _ & Hs1) (_ & Hf) Hof. destruct Hf as [Hf _]. destruct (Hf Hof) as [Hsf ->].
    unfold sent_fin in Hsf. by destruct (state s). }
  assert (state s ≠ Listen → state s ≠ SynSent → is_Some (ack_number repr)) as Hsome.
  { destruct (ack_number repr); [by eexists|]. by destruct Hacc as [?|[? _]]. }
  assert (∀ st' t' tu', synced (state s) → state s ≠ SynSent →
    (st' = Closed → tu' = None) → (st' ≠ Closed → tu' = tuple s) → (¬ opening st') → edge (state s) st' = true → st' = target (state s) c (ack_of_fin acked) → timer_ok t' →
    (ctl (state s) <= ctl st' ∨ ack_of_fin acked = true ∨ state s = SynReceived) →
    (st' ≠ Closed → una_off st' = una_off (state s) + (if sent_syn s then 1 else flag_len (ack_of_fin acked))) →
    moved s repr c acked (update tuple (λ _, tu') (update timer (λ _, t') (update state (λ _, st')
          (update rx_fin_received (λ _, rx_fin_received s || bool_decide (c = Fin))
            (update remote_seq_no (λ _, as_i32 (remote_seq_no s + flag_len (bool_decide (c = Fin)))) s)))))) as Hplain.
  { intros st' t' tu' Hs1 Hs2 Ht1 Ht2 Ho He Htg Htk Hack Huna. destruct Hsome as [a Ea]; [apply Hs1|done|].
    eapply moved_plain; try done.
    - unfold opening, synced in *. destruct st'; auto; by destruct Ho; auto.
    - intros a' k Hk Hc. destruct Hack as [?|[Hof|Esr]]; [by left|right..].
      + destruct Hc as [_ [Hc _]]. destruct (Hc Hof) as [Hsf ->]. unfold sent_fin in Hsf. by destruct (state s).
      + destruct Hk as (_ & _ & Hk). rewrite Hk by (unfold sent_syn; by rewrite Esr).
        destruct (inv_opening s Hinv) as [-> _]; [unfold opening; auto|]. by rewrite Esr. }
  assert (state s ≠ Listen → state s ≠ SynSent →
    match state s with FinWait1 | LastAck | Closing => True | _ => ack_of_fin acked = false end) as Hnf.
  { intros Hs1 Hs2. destruct (Hsome Hs1 Hs2) as [a Ea]. unfold counted in Hcount. rewrite Ea in Hcount.
    destruct (Hcount Hcr) as (k & _ & _ & [Hf _]). unfold sent_fin in Hf.
    destruct (ack_of_fin acked); [|by destruct (state s)]. destruct (Hf eq_refl) as [? _]. by destruct (state s). }
  clear Hfin. unfold synced, opening, sent_syn in Hplain. unfold transition, set_state. wp_steps.
  destruct (state s) eqn:Est, c; try done; wp_steps; try (by split_and!; [apply ended_refl|done|rewrite Est]).
  - apply on_syn_listening_ok; try done. destruct (ack_number repr); [by destruct Hacc|done].
  - apply on_syn_connecting_ok; done.
  - plain Hplain Hnf s Hri Est Established (timer s) (tuple s).
  - apply take_fin_rule. wp_steps. plain Hplain Hnf s Hri Est CloseWait (timer s) (tuple s).
  - plain Hplain Hnf s Hri Est Established (timer s) (tuple s).
  - apply take_fin_rule. wp_steps. plain Hplain Hnf s Hri Est CloseWait (timer s) (tuple s).
  - destruct (ack_of_fin acked); wp_steps; [plain Hplain Hnf s Hri Est FinWait2 (timer s) (tuple s)|plain Hplain Hnf s Hri Est FinWait1 (timer s) (tuple s)].
  - apply take_fin_rule. destruct (ack_of_fin acked); wp_steps; [|plain Hplain Hnf s Hri Est Closing (timer s) (tuple s)].
    apply enter_time_wait_rule; [done|]. intros t Ht. plain Hplain Hnf s Hri Est TimeWait t (tuple s).
  - plain Hplain Hnf s Hri Est FinWait2 (timer s) (tuple s).
  - apply take_fin_rule. apply enter_time_wait_rule; [done|]. intros t Ht. plain Hplain Hnf s Hri Est TimeWait t (tuple s).
  - plain Hplain Hnf s Hri Est CloseWait (timer s) (tuple s).
  - destruct (ack_of_fin acked); wp_steps; [|plain Hplain Hnf s Hri Est Closing (timer s) (tuple s)].
    apply enter_time_wait_rule; [done|]. intros t Ht. plain Hplain Hnf s Hri Est TimeWait t (tuple s).
  - destruct (ack_of_fin acked); wp_steps; [plain Hplain Hnf s Hri Est Closed (timer s) (@None Tuple)|plain Hplain Hnf s Hri Est LastAck (timer s) (tuple s)].
Qed.
