(* ===== verification/TcpAcks.v ===== *)
(** * Taking an acknowledgement

    After the transition the acknowledged octets leave the transmit buffer, the
    send window moves to the acknowledged sequence number, and the timers are
    set; the invariant holds again. *)
From stdpp Require Import prelude.
From S2P Require Import Prelude Wire SeqSpec TcpTimers Assembler AssemblerSpec RingBuffer RingSpec TcpSocket TcpProcess.
From S2P Require Import TcpInv TcpReply TcpStages TcpMoves.
Open Scope Z_scope.

Lemma moved_rx_inv s repr c acked s1 : rx_inv s → moved s repr c acked s1 → rx_inv s1.
Proof.
  intros Hrx [_ (Hb & Ha & _) _ _ Hrecv _ _ _ _ _ _ _ _]. destruct Hrx as [H1 H2 H3 H4 H5 H6].
  unfold rx_capacity, rx_free in *. constructor; unfold rx_capacity, rx_free; rewrite ?Hb, ?Ha; try done.
  unfold recv_space in Hrecv. destruct (handshaking (state s)); destruct Hrecv as [-> _]; apply as_i32_range.
Qed.
Lemma shiftl_bound w n : 0 <= w <= u16_max → 0 <= n <= 14 → 0 <= Z.shiftl w n <= 2 ^ 30.
Proof.
  intros Hw Hn. rewrite Z.shiftl_mul_pow2 by lia. assert (1 <= 2 ^ n <= 2 ^ 14) as Hp.
  { split; [|by apply Z.pow_le_mono_r; lia]. change 1 with (2 ^ 0). apply Z.pow_le_mono_r; lia. }
  unfold u16_max in *. nia.
Qed.

(** Only what the sender knows of the remote end differs, besides the fields
    named by the arguments. *)
Definition sender_view (s : Socket) := (rx_view s, link_view s, state s).

Lemma count_duplicate_ack_ok repr b a s :
  wp (count_duplicate_ack repr b a) s (λ r s', r = Ok () ∧ ∃ n l c t, (t = timer s ∨ t = Timer.FastRetransmit) ∧
    s' = update timer (λ _, t) (update local_rx_last_ack (λ _, l) (update local_rx_dup_acks (λ _, n)
      (update congestion_controller (λ _, c) s)))).
Proof.
  unfold count_duplicate_ack. wp_steps. destruct (match local_rx_last_ack s with Some _ => _ | None => false end).
  - wp_steps. destruct (_ =? 3); wp_steps; unfold Timer.set_for_fast_retransmit; wp_steps; (split; [done|]).
    + exists (Z.min (local_rx_dup_acks s + 1) 255), (local_rx_last_ack s),
        (Congestion.on_duplicate_ack (congestion_controller s)), Timer.FastRetransmit. split; [by right|by destruct s].
    + exists (Z.min (local_rx_dup_acks s + 1) 255), (local_rx_last_ack s),
        (Congestion.on_duplicate_ack (congestion_controller s)), (timer s). split; [by left|by destruct s].
  - wp_steps. split; [done|]. exists 0, (Some a), (congestion_controller s), (timer s). split; [by left|by destruct s].
Qed.

(** The send space after the acknowledgement *)
Record settled (s1 : Socket) (repr : TcpRepr) (n : Z) (s2 : Socket) : Prop := {
  settled_inv : tcp_inv s2;
  settled_view : sender_view s2 = sender_view s1;
  settled_tx : RingSpec.contents (tx_buffer s2) = drop (Z.to_nat n) (RingSpec.contents (tx_buffer s1));
  settled_una : local_seq_no s2 = default (local_seq_no s1) (ack_number repr) }.

Lemma tx_drop (rb rb' : Ring.RingBuffer Z) n :
  RingSpec.holds rb rb' (drop n (RingSpec.contents rb)) → RingSpec.wf rb → (n <= Ring.len rb)%nat →
  Ring.len rb' = (Ring.len rb - n)%nat.
Proof.
  intros (Hwf & _ & Hc) Hwf0 Hn. change (Ring.rlen rb' = Ring.rlen rb - n)%nat.
  rewrite <- (RingSpec.contents_length rb' Hwf), Hc, length_drop, RingSpec.contents_length by done. done.
Qed.

(** The sequence number to send from next, once [a] is acknowledged *)
Definition last_after (s : Socket) (a : Z) : Z := if Seq.lt (remote_last_seq s) a then a else remote_last_seq s.

Lemma send_space_after s repr acked s1 a k :
  tx_inv s → ack_number repr = Some a → ack_at s a k → counts s k acked → send_space s repr acked s1 →
  is_i32 a ∧ is_i32 (last_after s1 a) ∧
  0 <= offset a (last_after s1 a) <= tx_len s - ack_len acked + ctl (state s1).
Proof.
  intros Htx Ea Hk Hc (Hu & Hl & Hsp). rewrite Ea in Hsp. destruct Hsp as (Hun & Hf & Hor). specialize (Hor k Hk Hc).
  destruct (ack_len_bound s a k acked Hk Hc) as [Hb1 Hb2]. pose proof (tx_len_cap s Htx) as Hcap.
  pose proof (ctl_range (state s)). pose proof (ctl_range (state s1)).
  assert (ack_len acked <= k) as Hle.
  { destruct Hk as (_ & ? & Hs). destruct Hc as [-> _]. destruct (sent_syn s); [rewrite Hs by done; lia|].
    destruct (ack_of_fin acked); lia. }
  destruct Hk as (Ha & Hk & _). rewrite <- Hun in Ha. set (f := flight s1) in *.
  assert (remote_last_seq s1 = as_i32 (local_seq_no s1 + f)) as Hlast by (by apply offset_eq).
  assert (is_i32 a) as Hai by (rewrite Ha; apply as_i32_range).
  assert (last_after s1 a = as_i32 (local_seq_no s1 + Z.max f k)) as Hla.
  { unfold last_after. rewrite Ha, Hlast, rel_lt by (unfold is_i32; lia).
    destruct (Z.ltb_spec f k); do 2 f_equal; lia. }
  split; [done|]. rewrite Hla. split; [apply as_i32_range|]. unfold offset. rewrite Ha, rel_dist by (unfold is_i32; lia).
  destruct Hor as [Hor|Hor]; lia.
Qed.
Lemma put_last a s :
  wp (last_seq ← gets remote_last_seq; if Seq.lt last_seq a then put remote_last_seq a else mret () : stage ()) s
    (λ r s', r = Ok () ∧ s' = update remote_last_seq (λ _, last_after s a) s).
Proof. wp_steps. unfold last_after. destruct (Seq.lt _ a); wp_steps; (split; [done|]); [done|by destruct s]. Qed.

Lemma rx_inv_view s s' : rx_view s' = rx_view s → rx_inv s → rx_inv s'.
Proof.
  intros Hv [H1 H2 H3 H4 H5 H6]. injection Hv as Hb Ha Hn _. unfold rx_capacity, rx_free in *.
  constructor; unfold rx_capacity, rx_free; rewrite ?Hb, ?Ha, ?Hn; done.
Qed.
Lemma reassemble_inv s1 s2 :
  rx_inv s1 → opening_inv s1 → link_inv s1 → sender_view s2 = sender_view s1 →
  tx_inv s2 → (opening (state s2) → tx_len s2 = 0) → peer_inv s2 → time_inv s2 → tcp_inv s2.
Proof.
  intros Hrx Hop [Hl1 Hl2 Hl3] Hv Htx Ho Hpe Hti. injection Hv as Hb Ha Hn Hf Ht He Hs Hst.
  assert (rx_view s2 = rx_view s1) as Hv by (unfold rx_view; by rewrite Hb, Ha, Hn, Hf).
  split; [by eapply rx_inv_view|done| | |done|done].
  - intros Hst2. specialize (Ho Hst2). rewrite Hst in Hst2. destruct (Hop Hst2) as (_ & H1 & H2 & H3).
    unfold rx_len in *. rewrite Hb, Ha, Hf. done.
  - constructor; rewrite ?Hst, ?Ht; done.
Qed.

Lemma take_ack_ok s repr c acked s1 b rb' :
  tcp_inv s → control repr ≠ Rst → counted s repr acked → moved s repr c acked s1 →
  RingSpec.holds (tx_buffer s) rb' (drop (Z.to_nat (ack_len acked)) (RingSpec.contents (tx_buffer s))) →
  ∀ s1', peer_inv s1' → time_inv s1' → sender_view s1' = sender_view s1 → tx_buffer s1' = rb' →
  local_seq_no s1' = local_seq_no s1 → remote_last_seq s1' = remote_last_seq s1 →
  wp (take_ack repr b) s1' (λ r s2, r = Ok () ∧ settled s1 repr (ack_len acked) s2).
Proof.
  intros Hinv Hnr Hcount Hm Hb s1' Hpe Hti Hview Htxb Hun Hla.
  pose proof (moved_rx_inv _ _ _ _ _ (inv_rx s Hinv) Hm) as Hrx1. pose proof (inv_tx s Hinv) as Htx.
  destruct Hm as [_ (_ & _ & Hm3) Hsend _ _ _ _ _ _ _ Hop Hli _ _].
  assert (∀ s2, sender_view s2 = sender_view s1 → tx_buffer s2 = rb' → peer_inv s2 → time_inv s2 →
    0 <= ack_len acked <= tx_len s → local_seq_no s2 = default (local_seq_no s1) (ack_number repr) →
    is_i32 (local_seq_no s2) → is_i32 (remote_last_seq s2) →
    0 <= flight s2 <= tx_len s - ack_len acked + ctl (state s1) → settled s1 repr (ack_len acked) s2) as Hfinish.
  { intros s2 Hv Htx2 Hpe2 Hti2 Hn Hu Hi1 Hi2 Hfl. pose proof Hb as (Hwf & Hcap & Hq).
    assert (tx_len s2 = tx_len s - ack_len acked) as Hlen.
    { unfold tx_len in *. rewrite Htx2, (tx_drop (tx_buffer s) rb' (Z.to_nat (ack_len acked))); [lia|done|apply Htx|lia]. }
    constructor; [|done|by rewrite Htx2, Hq, Hm3|done]. eapply (reassemble_inv s1); try done.
    - constructor; rewrite ?Htx2, ?Hcap; try done; [apply Htx|]. intros _. rewrite Hlen.
      injection Hv as _ _ _ _ _ _ _ ->. done.
    - injection Hv as _ _ _ _ _ _ _ Hst. rewrite Hst. intros Ho. destruct (Hop Ho) as [H0 _].
      unfold tx_len in H0. rewrite Hm3 in H0. fold (tx_len s) in H0. lia. }
  unfold take_ack, counted in *. destruct (ack_number repr) as [a|] eqn:Ea.
  - destruct (Hcount Hnr) as (k & Hk & Hc). wp_step. eapply wp_mono; [apply count_duplicate_ack_ok|].
    intros r s2 (-> & n & l & cc & t & Ht & ->). cbv beta iota. wp_step. wp_step.
    eapply wp_mono; [apply put_last|]. intros r s2 [-> ->]. split; [done|].
    destruct (send_space_after s repr acked s1 a k Htx Ea Hk Hc Hsend) as (Hi1 & Hi2 & Hfl).
    assert (∀ x, remote_last_seq x = remote_last_seq s1 → last_after x a = last_after s1 a) as Hx.
    { intros x E. unfold last_after. by rewrite E. }
    rewrite Hx by (by fields). apply Hfinish; unfold flight; fields; try done.
    + destruct Hpe. constructor; fields; done.
    + destruct Hti. constructor; fields; try done. by destruct Ht as [-> | ->].
    + by apply (ack_len_bound s a k).
  - destruct Hcount as [Hz _]. destruct Hsend as (Hi1 & Hi2 & Hfl). rewrite Ea in Hfl. wp_steps. split; [done|].
    apply Hfinish; try done.
    + rewrite Hz. unfold tx_len. lia.
    + by rewrite Hun.
    + by rewrite Hla.
    + unfold flight. rewrite Hun, Hla, Hz, Z.sub_0_r. exact Hfl.
Qed.

Lemma counted_bound s repr acked :
  control repr ≠ Rst → counted s repr acked → 0 <= ack_len acked <= tx_len s.
Proof.
  intros Hnr Hc. unfold counted in Hc. destruct (ack_number repr) as [a|].
  - destruct (Hc Hnr) as (k & Hk & Hn). by apply (ack_len_bound s a k).
  - destruct Hc as [-> _]. unfold tx_len. lia.
Qed.

Lemma update_remote_ok cx s repr c acked s1 :
  tcp_inv s → context_ok cx → repr_ok repr → control repr ≠ Rst → counted s repr acked → moved s repr c acked s1 →
  wp (update_remote cx repr acked) s1 (λ r s2, r = Ok () ∧ settled s1 repr (ack_len acked) s2).
Proof.
  intros Hinv Hcx Hr Hnr Hcount Hm. pose proof (counted_bound s repr acked Hnr Hcount) as Hn.
  pose proof Hm as [_ (_ & _ & Hm3) _ _ _ _ _ _ _ _ _ _ Hpe Hti].
  unfold update_remote. wp_steps. fields.
  set (scale := match control repr with Syn => 0 | _ => default 0 (remote_win_scale s1) end).
  assert (0 <= Z.shiftl (window_len repr) scale <= 2 ^ 30) as Hw.
  { apply shiftl_bound; [apply Hr|]. pose proof (scale_ok s1 Hpe) as Hs. unfold scale.
    destruct (control repr), (remote_win_scale s1); cbn in *; lia. }
  set (w := Z.shiftl (window_len repr) scale) in *. clearbody w.
  set (s1' := update congestion_controller _ _).
  assert (peer_inv s1') as Hpe' by (destruct Hpe; unfold s1'; constructor; fields; done).
  assert (time_inv s1') as Hti' by (destruct Hti; unfold s1'; constructor; fields; try done; apply Hcx).
  destruct (Z.ltb_spec 0 (ack_len acked)) as [Hlt|Hge]; wp_steps.
  - change (tx_len s1') with (tx_len s1).
    assert (tx_len s1 = tx_len s) as Hlen by (unfold tx_len; by rewrite Hm3). rewrite Hlen.
    rewrite assert_ok by (apply Z.leb_le; lia). wp_steps. change (tx_buffer s1') with (tx_buffer s1). rewrite Hm3.
    destruct (RingSpec.dequeue_allocated_spec (tx_buffer s) (Z.to_nat (ack_len acked))) as (rb' & Hrun & Hh).
    { apply Hinv. } { unfold tx_len, Ring.len in *. lia. }
    wp_call Hrun. eapply take_ack_ok; try done.
    + destruct Hpe'. constructor; fields; done.
    + destruct Hti'. constructor; fields; done.
  - apply (take_ack_ok s repr c acked s1 _ (tx_buffer s)); try done. unfold RingSpec.holds.
    replace (ack_len acked) with 0 by lia. split_and!; [apply Hinv|done|done].
Qed.

(** ** Timers *)

Definition set_timer (s : Socket) (t : Timer.Timer) : Socket := update timer (λ _, t) s.
Lemma set_timer_inv s t : tcp_inv s → timer_ok t → tcp_inv (set_timer s t).
Proof.
  intros [Hrx Htx Hop Hli Hpe Hti] Ht. unfold set_timer.
  split; [inherit Hrx|inherit Htx|exact Hop|inherit Hli|inherit Hpe|].
  destruct Hti. constructor; fields; done.
Qed.
(** An operation of the timer, on the socket *)
Lemma on_timer_rule {E} (m : prog Timer.Timer Empty_set ()) s (Q : outcome E () → Socket → Prop) :
  wp m (timer s) (done_with timer_ok) → (∀ t, timer_ok t → Q (Ok ()) (set_timer s t)) → wp (total (on timer m)) s Q.
Proof.
  intros Hm HQ. wp_steps. eapply wp_mono; [exact Hm|]. intros r t [-> Ht]. cbv beta iota. by apply HQ.
Qed.

Section timers.
Context (cx : Context) (Hcx : context_ok cx) (s0 : Socket).
Definition timed {E} : outcome E () → Socket → Prop := λ r s', r = Ok () ∧ untouched s0 s'.
Lemma untouched_timer {E} (m : prog Timer.Timer Empty_set ()) s :
  untouched s0 s → wp m (timer s) (done_with timer_ok) → wp (total (on timer m)) s (@timed E).
Proof.
  intros (Hi & Ha & Hb & Hc) Hm. apply on_timer_rule; [done|]. intros t Ht. split; [done|].
  split; [by apply set_timer_inv|done].
Qed.
Lemma refresh_timer_ok acked s : untouched s0 s → wp (refresh_timer cx acked) s timed.
Proof.
  intros Hs. pose proof Hs as [Hi _]. pose proof (inv_time s Hi) as Hti. unfold refresh_timer. wp_steps.
  assert (wp (total (on timer (Timer.set_for_idle (now cx) (keep_alive s))) : stage ()) s timed) as Hidle.
  { apply untouched_timer; [done|]. apply set_for_idle_ok; [apply Hcx|apply Hti]. }
  assert (wp (rto ← inspect (λ s, Rtte.retransmission_timeout (rtte s));
      total (on timer (Timer.set_for_retransmit (now cx) rto)) : stage ()) s timed) as Hre.
  { wp_steps. rewrite retransmission_timeout_ok by apply Hti. cbv beta iota. apply untouched_timer; [done|].
    apply set_for_retransmit_ok; [apply Hcx|apply rto_duration, Hti|apply Hti]. }
  destruct (timer s); try exact Hidle; try (by wp_steps);
    (destruct (ack_all acked); [exact Hidle|by destruct (0 <? ack_len acked); [|wp_steps]]).
Qed.
Lemma start_probing_ok acked s : untouched s0 s → wp (start_probing cx acked) s timed.
Proof.
  intros Hs. pose proof Hs as [Hi _]. pose proof (inv_time s Hi) as Hti. unfold start_probing. wp_steps.
  destruct (_ && _); wp_steps; [|done]. rewrite retransmission_timeout_ok by apply Hti. cbv beta iota.
  apply untouched_timer; [done|]. apply set_for_zero_window_probe_ok; [apply Hcx|].
  pose proof (rtte_is_ok s Hti) as Hr. pose proof (rto_ok _ Hr). destruct (rto_duration _ Hr). unfold Rtte.MIN_RTO in *. lia.
Qed.
Lemma stop_probing_ok s : untouched s0 s → wp (stop_probing cx) s timed.
Proof.
  intros Hs. pose proof Hs as [Hi _]. unfold stop_probing. wp_steps. destruct (_ && _); [|by wp_steps].
  apply untouched_timer; [done|]. apply set_for_idle_ok; [apply Hcx|apply Hi].
Qed.
Lemma update_timers_ok repr acked : tcp_inv s0 → wp (update_timers cx repr acked) s0 timed.
Proof.
  intros Hinv. unfold update_timers. wp_step.
  assert (∃ v, wp (match timestamp repr with Some t => put last_remote_tsval (tsval t) | None => mret () end : stage ()) s0
    (λ r s', r = Ok () ∧ s' = update last_remote_tsval (λ _, v) s0)) as [v Hv].
  { destruct (timestamp repr) as [t|]; [exists (tsval t); by wp_steps|].
    exists (last_remote_tsval s0). wp_steps. split; [done|by destruct s0]. }
  eapply wp_mono; [exact Hv|]. intros r s1 [-> ->]. cbv beta iota. clear Hv.
  assert (untouched s0 (update last_remote_tsval (λ _, v) s0)) as H1.
  { destruct Hinv as [Hrx Htx Hop Hli Hpe Hti]. split_and!; [|done..].
    split; [inherit Hrx|inherit Htx|exact Hop|inherit Hli|inherit Hpe|inherit Hti]. }
  wp_step. eapply wp_mono; [by apply refresh_timer_ok|]. intros r s2 [-> H2]. cbv beta iota.
  wp_step. eapply wp_mono; [by apply start_probing_ok|]. intros r s3 [-> H3]. cbv beta iota. by apply stop_probing_ok.
Qed.
End timers.
