(* ===== verification/TcpReceive.v ===== *)
(** * Reassembly and the whole of [process]

    The payload in the window is written to the free space of the receive
    buffer, and the run of octets at its front becomes readable. *)
From stdpp Require Import prelude.
From S2P Require Import Prelude Wire SeqSpec TcpTimers Assembler AssemblerSpec RingBuffer RingSpec TcpSocket TcpProcess.
From S2P Require Import TcpInv TcpReply TcpStages TcpMoves TcpAcks.
Open Scope Z_scope.

(** The free space with the part written, whose first [n] octets are readable *)
Record placed (s : Socket) (part : list Z) (o n : Z) (s' : Socket) : Prop := {
  placed_front : AssemblerSpec.front_post (AssemblerSpec.joined (assembler s) o (Z.of_nat (length part)))
    (assembler s) n (assembler s');
  placed_n : 0 <= n <= rx_free s;
  placed_contents : RingSpec.contents (rx_buffer s') =
    RingSpec.contents (rx_buffer s) ++ take (Z.to_nat n) (splice (Z.to_nat o) part (RingSpec.spare (rx_buffer s)));
  placed_spare : RingSpec.spare (rx_buffer s') = drop (Z.to_nat n) (splice (Z.to_nat o) part (RingSpec.spare (rx_buffer s)));
  placed_same : remote_seq_no s' = remote_seq_no s ∧ rx_fin_received s' = rx_fin_received s ∧
    tx_view s' = tx_view s ∧ link_view s' = link_view s;
  placed_inv : tcp_inv s' }.

Lemma front_bound l o len n l' b :
  AssemblerSpec.front_post (AssemblerSpec.joined l o len) l n l' →
  (∀ x, AssemblerSpec.present l x = true → x < b) → 0 <= b → 0 <= o → o + len <= b →
  0 <= n <= b ∧ (∀ x, AssemblerSpec.present l' x = true → x < b - n).
Proof.
  intros (_ & _ & Hn & Hin & _ & Hl') Hb Hb0 Ho Hlen.
  assert (∀ x, AssemblerSpec.joined l o len x = true → x < b) as Hj.
  { intros x Hx. unfold AssemblerSpec.joined, AssemblerSpec.in_range in Hx. apply orb_true_iff in Hx as [Hx|Hx]; [by apply Hb|].
    revert Hx. split_zbool; try done; lia. }
  assert (n <= b) as Hnb.
  { destruct (Z.eq_dec n 0); [lia|]. specialize (Hj (n - 1) (Hin (n - 1) ltac:(lia))). lia. }
  split; [lia|]. intros x Hx. destruct (Z.lt_ge_cases x 0); [lia|]. rewrite Hl' in Hx by done.
  specialize (Hj _ Hx). lia.
Qed.

Lemma store_ok part o n s :
  RingSpec.wf (rx_buffer s) → 0 <= o → o + Z.of_nat (length part) <= rx_free s → 0 <= n <= rx_free s →
  wp (store part o n) s (λ r s', r = Ok () ∧ ∃ rb, s' = update rx_buffer (λ _, rb) s ∧
    RingSpec.wf rb ∧ Ring.capacity rb = Ring.capacity (rx_buffer s) ∧ Ring.len rb = (Ring.len (rx_buffer s) + Z.to_nat n)%nat ∧
    RingSpec.contents rb =
      RingSpec.contents (rx_buffer s) ++ take (Z.to_nat n) (splice (Z.to_nat o) part (RingSpec.spare (rx_buffer s))) ∧
    RingSpec.spare rb = drop (Z.to_nat n) (splice (Z.to_nat o) part (RingSpec.spare (rx_buffer s)))).
Proof.
  intros Hwf Ho Hlen Hn. unfold rx_free in *.
  destruct (RingSpec.write_unallocated_spec (rx_buffer s) (Z.to_nat o) part Hwf) as (rb1 & Hrun1 & (Hwf1 & Hc1 & Hq1) & Hsp1 & Hl1); [lia|].
  rewrite Nat.min_l in Hrun1, Hsp1 by lia. rewrite take_ge in Hsp1 by done.
  unfold store. wp_steps. wp_call Hrun1. wp_steps. rewrite assert_ok by (by apply Nat.eqb_eq). wp_steps.
  assert (RingSpec.free rb1 = RingSpec.free (rx_buffer s)) as Hf1 by (unfold RingSpec.free; by rewrite Hc1, Hl1).
  destruct (Z.eqb_spec n 0) as [->|Hn0]; cbn [negb]; wp_steps.
  - split; [done|]. exists rb1. change (Z.to_nat 0) with 0%nat. rewrite Nat.add_0_r, take_0, drop_0, app_nil_r.
    unfold Ring.len. split_and!; done.
  - destruct (RingSpec.enqueue_unallocated_spec rb1 (Z.to_nat n) Hwf1) as (rb2 & Hrun2 & (Hwf2 & Hc2 & Hq2) & Hsp2 & Hl2); [lia|].
    fields. wp_call Hrun2. split; [done|]. exists rb2. rewrite Hq2, Hsp2, Hq1, Hsp1, Hc2, Hc1. unfold Ring.len. rewrite Hl2, Hl1.
    split_and!; done.
Qed.

Lemma assembler_is_empty_ok s (Q : outcome (option segment) bool → Socket → Prop) :
  assembler s ≠ [] → (∀ b, Q (Ok b) s) → wp assembler_is_empty s Q.
Proof.
  intros Hne HQ. unfold assembler_is_empty. wp_steps. destruct (assembler s) as [|c l]; [done|]. cbn. apply HQ.
Qed.
Lemma ack_to_transmit_ok {E} s : rx_inv s → ∃ b, @ack_to_transmit E s = Ok b.
Proof.
  intros Hrx. unfold ack_to_transmit. destruct (remote_last_ack s); [|by eexists].
  rewrite next_ack_ok by done. cbn [mbind outcome_bind]. by eexists.
Qed.
Lemma immediate_ack_to_transmit_ok {E} s : rx_inv s → peer_inv s → ∃ b, @immediate_ack_to_transmit E s = Ok b.
Proof.
  intros Hrx Hpe. unfold immediate_ack_to_transmit. destruct (remote_last_ack s) as [a|]; [|by eexists].
  pose proof (mss_ok s Hpe). rewrite seq_add_ok by (unfold i32_max, u16_max in *; lia). cbn [mbind outcome_bind].
  rewrite next_ack_ok by done. cbn [mbind outcome_bind]. by eexists.
Qed.
Lemma delay_ack_ok cx s :
  rx_inv s → peer_inv s → time_inv s → context_ok cx →
  wp (delay_ack cx) s (λ r s', r = Ok () ∧ ∃ t, s' = update ack_delay_timer (λ _, t) s).
Proof.
  intros Hrx Hpe Hti Hcx. unfold delay_ack.
  assert (∃ t, s = update ack_delay_timer (λ _, t) s) as Hid by (exists (ack_delay_timer s); by destruct s).
  wp_steps. pose proof (ack_delay_ok s Hti) as Hd. destruct (ack_delay s) as [d|]; wp_steps; [|done].
  destruct (ack_to_transmit_ok (E := option segment) s Hrx) as [b ->]. destruct b; wp_steps; [|done].
  destruct (ack_delay_timer s) as [|t|]; wp_steps; [| |done].
  - rewrite instant_add_ok by (done || apply Hcx). wp_steps. split; [done|]. by eexists.
  - destruct (immediate_ack_to_transmit_ok (E := option segment) s Hrx Hpe) as [b ->].
    destruct b; wp_steps; [|done]. split; [done|]. by eexists.
Qed.

Lemma placed_socket s part o n l rb s1 :
  tcp_inv s → ¬ opening (state s) → 0 <= o → o + Z.of_nat (length part) <= rx_free s →
  AssemblerSpec.front_post (AssemblerSpec.joined (assembler s) o (Z.of_nat (length part))) (assembler s) n l →
  RingSpec.wf rb → Ring.capacity rb = Ring.capacity (rx_buffer s) → Ring.len rb = (Ring.len (rx_buffer s) + Z.to_nat n)%nat →
  RingSpec.contents rb =
    RingSpec.contents (rx_buffer s) ++ take (Z.to_nat n) (splice (Z.to_nat o) part (RingSpec.spare (rx_buffer s))) →
  RingSpec.spare rb = drop (Z.to_nat n) (splice (Z.to_nat o) part (RingSpec.spare (rx_buffer s))) →
  s1 = update rx_buffer (λ _, rb) (update assembler (λ _, l) s) → placed s part o n s1.
Proof.
  intros Hinv Hop Ho Hlen Hfront Hwf Hcap Hl Hq Hsp ->. pose proof (inv_rx s Hinv) as Hrx.
  pose proof (rx_len_free s Hrx) as Hfree.
  destruct (front_bound _ _ _ _ _ (rx_free s) Hfront (held s Hrx)) as [Hn Hheld]; [lia..|].
  constructor; fields; try done. destruct Hinv as [_ Htx _ Hli Hpe Hti].
  split; [|inherit Htx|by intros ?%Hop|inherit Hli|inherit Hpe|inherit Hti].
  destruct Hfront as (Hwf' & Hlen' & _). destruct Hrx as [_ H2 _ H4 _ H6].
  constructor; unfold rx_capacity, rx_free, RingSpec.free in *; fields; rewrite ?Hcap; try done.
  - intros ->. by destruct (assembler s).
  - intros x Hx. specialize (Hheld x Hx). change (Ring.rlen rb) with (Ring.len rb). rewrite Hl.
    unfold Ring.len. destruct Hn. lia.
Qed.

Lemma placed_frame s1 s s' part o n :
  placed s part o n s1 → rx_view s' = rx_view s1 → tx_view s' = tx_view s1 → link_view s' = link_view s1 → tcp_inv s' →
  placed s part o n s'.
Proof.
  intros [H1 H2 H3 H4 (H5 & H6 & H7 & H8) _] Hrx Htx Hli Hinv. injection Hrx as Hb Ha Hr Hf.
  constructor; rewrite ?Hb, ?Ha, ?Hr, ?Hf, ?Htx, ?Hli; done.
Qed.

Lemma receive_ok cx ip repr part o s :
  tcp_inv s → context_ok cx → ip_ok ip →
  (part ≠ [] → ¬ opening (state s) ∧ 0 <= o ∧ o + Z.of_nat (length part) <= rx_free s) →
  wp (receive cx ip repr part o) s (λ r s', (sack_panic s r ∧ part ≠ []) ∨
    (∃ x, (r = Ok x ∨ r = Err x) ∧ plain_reply x) ∧ (untouched s s' ∧ (part = [] ∨ o ≠ 0) ∨ part ≠ [] ∧ ∃ n, placed s part o n s')).
Proof.
  intros Hinv Hcx Hip Hpart. unfold receive.
  destruct (Z.eqb_spec (Z.of_nat (length part)) 0) as [Hz|Hz].
  { wp_steps. right. split; [by exists None; split; [auto|]|]. left. split; [by apply untouched_refl|]. left. by destruct part. }
  assert (part ≠ []) as Hne by (by intros ->). destruct (Hpart Hne) as (Hop & Ho & Hlen). clear Hpart.
  pose proof (inv_rx s Hinv) as Hrx. pose proof (rx_len_free s Hrx) as Hfree. pose proof (rx_cap s Hrx) as Hcap.
  wp_step. apply assembler_is_empty_ok; [apply Hrx|]. intros was. wp_steps.
  pose proof (AssemblerSpec.add_then_remove_front_spec (assembler s) o (Z.of_nat (length part)) (asm_wf s Hrx) (asm_slots s Hrx) Ho)
    as Hadd. specialize (Hadd ltac:(lia) ltac:(unfold usize_max; lia)).
  destruct (Assembler.add_then_remove_front o (Z.of_nat (length part)) (assembler s)) as [r l] eqn:Hrun.
  cbn [fst snd] in Hadd. eapply wp_eq; [exact Hrun|]. cbv beta iota. clear Hrun.
  destruct r as [n|e|]; [|destruct Hadd as (Ho0 & _ & _ & -> & _)|done]; wp_steps.
  2: { right. split; [by exists None; split; [auto|]|]. left. assert (update assembler (λ _, assembler s) s = s) as -> by (by destruct s).
       split; [by apply untouched_refl|by right]. }
  destruct (front_bound _ _ _ _ _ (rx_free s) Hadd (held s Hrx)) as [Hn _]; [lia..|].
  eapply wp_mono; [apply store_ok; [apply Hrx|done|exact Hlen|exact Hn]|].
  intros r s2 (-> & rb & -> & Hwf & Hcap2 & Hl2 & Hq2 & Hsp2). cbv beta iota.
  pose proof (placed_socket s part o n l rb _ Hinv Hop Ho Hlen Hadd Hwf Hcap2 Hl2 Hq2 Hsp2 eq_refl) as Hp.
  set (s2 := update rx_buffer _ _) in *. pose proof (placed_inv _ _ _ _ _ Hp) as Hinv2.
  wp_step. eapply wp_mono; [apply delay_ack_ok; [apply Hinv2|apply Hinv2|apply Hinv2|done]|]. intros r s3 [-> [t ->]]. cbv beta iota.
  set (s3 := update ack_delay_timer _ s2).
  assert (placed s part o n s3) as Hp3.
  { apply (placed_frame s2); [done..|]. destruct Hinv2 as [H1 H2 H3 H4 H5 H6].
    split; [inherit H1|inherit H2|exact H3|inherit H4|inherit H5|inherit H6]. }
  pose proof (placed_inv _ _ _ _ _ Hp3) as Hinv3.
  wp_step. apply assembler_is_empty_ok; [apply Hinv3|]. intros b.
  destruct (negb b || negb was); wp_steps; [|right; split; [by exists None; split; [auto|]|right; split; [done|by eexists]]].
  eapply wp_mono; [apply ack_reply_ok; [apply Hinv3|apply Hinv3|done]|].
  intros r s4 [[-> Hs]|[(seg & -> & Hseg) Hr]]; wp_steps.
  { left. split; [|done]. split; [done|]. contradict Hs. unfold sack_ok, rx_capacity in *. change (rx_buffer s3) with rb. by rewrite Hcap2. }
  right. split; [by exists (Some seg); split; [auto|]|]. right. split; [done|]. exists n.
  apply (placed_frame s3); [done|..|by eapply replied_inv]; by destruct Hr as (m & w & _ & _ & ->).
Qed.

(** ** The whole of [process] *)

(** A segment whose processing reaches the end: the part of its payload in the
    window, what it acknowledges and the transition it makes, one after another *)
Record taken (s : Socket) (repr : TcpRepr) (s' : Socket) (part : list Z) (o : Z) (acked : Acked) (c : Control)
    (s1 s2 : Socket) : Prop := {
  taken_part : took_part s repr part o;
  taken_ack : ack_accepted s repr;
  taken_acked : counted s repr acked;
  taken_control : c = acted repr s;
  taken_moved : moved s repr c acked s1;
  taken_settled : settled s1 repr (ack_len acked) s2;
  taken_stored : untouched s2 s' ∧ (part = [] ∨ o ≠ 0) ∨ part ≠ [] ∧ ∃ n, placed s2 part o n s' }.
Definition processed (s : Socket) (repr : TcpRepr) (s' : Socket) : Prop :=
  ended s s' ∨ ∃ part o acked c s1 s2, taken s repr s' part o acked c s1 s2.
(** The segments of an open connection that are not refused *)
Definition admissible (s : Socket) (repr : TcpRepr) : Prop :=
  acceptable s repr ∧ in_window s repr = true ∧ moves_on (state s) (acted repr s) = true.

Lemma took_part_fits s repr part o :
  took_part s repr part o → part ≠ [] →
  handshaking (state s) = false ∧ 0 <= o ∧ o + Z.of_nat (length part) <= rx_free s.
Proof.
  unfold took_part. destruct (handshaking (state s)); [by intros [-> _]|]. intros (-> & Hhi & Hd & ->) _.
  split; [done|]. split; [lia|]. unfold slice. rewrite length_take. lia.
Qed.
Lemma sack_ok_moved s repr c acked s1 s2 :
  sack_safe s → rx_inv s → handshaking (state s) = false → moved s repr c acked s1 → sender_view s2 = sender_view s1 → sack_ok s2.
Proof.
  intros Hs Hrx Hh Hm Hv. injection Hv as Hb _ Hq _ _ _ Hsk _. unfold sack_ok, rx_capacity. rewrite Hsk, Hq, Hb.
  destruct (moved_left _ _ _ _ _ Hm Hh) as [_ ->]. intros Ht. specialize (Hs Ht).
  pose proof (moved_recv _ _ _ _ _ Hm) as Hr. unfold recv_space in Hr. rewrite Hh in Hr. destruct Hr as [-> _].
  destruct (moved_buffers _ _ _ _ _ Hm) as [-> _]. fold (rx_capacity s).
  pose proof (rx_cap s Hrx). pose proof (rx_i32 s Hrx) as Hi. assert (0 <= rx_capacity s) by (unfold rx_capacity; lia).
  destruct (bool_decide (c = Fin)); cbn [flag_len]; [|rewrite Z.add_0_r, as_i32_id by done; lia].
  unfold is_i32 in Hi. destruct (Z.eq_dec (remote_seq_no s) (2 ^ 31 - 1)) as [->|].
  - right. change (as_i32 _) with (- 2 ^ 31). lia.
  - rewrite as_i32_id by (unfold is_i32; lia). lia.
Qed.

(** The fields that differ before the transition play no part in it. *)
Definition noted (s : Socket) (q : option Z) (r : Rtte.RttEstimator) (c : Congestion.AnyController) : Socket :=
  update congestion_controller (λ _, c) (update rtte (λ _, r) (update local_rx_last_seq (λ _, q) s)).
Lemma noted_inv s q r c : tcp_inv s → rtte_ok r → tcp_inv (noted s q r c).
Proof.
  intros [Hrx Htx Hop Hli Hpe Hti] Hr.
  split; [inherit Hrx|inherit Htx|exact Hop|inherit Hli|inherit Hpe|destruct Hti; unfold noted; constructor; fields; done].
Qed.
Lemma noted_moved s q r cc repr c acked s1 : moved (noted s q r cc) repr c acked s1 → moved s repr c acked s1.
Proof. intros []. constructor; assumption. Qed.
Lemma noted_ended s q r cc s' : ended (noted s q r cc) s' → ended s s'.
Proof. intros []. constructor; assumption. Qed.

Section process.
Context (cx : Context) (ip : IpRepr) (repr : TcpRepr).
Context (Hcx : context_ok cx) (Hip : ip_ok ip) (Hr : repr_ok repr).

Definition stage_post (s : Socket) : outcome (option segment) (option segment) → Socket → Prop := λ r s',
  (r = Panic ∧ ¬ sack_safe s) ∨
  (∃ x, (r = Ok x ∨ r = Err x) ∧ plain_reply x) ∧ processed s repr s' ∧
  (admissible s repr → ∃ part o acked c s1 s2, taken s repr s' part o acked c s1 s2).
Lemma accepts_open s : accepts ip repr s = true → state s ≠ Closed.
Proof. unfold accepts. by destruct (state s). Qed.
Lemma settled_untouched s1 r n s2 s3 : settled s1 r n s2 → untouched s2 s3 → settled s1 r n s3.
Proof.
  intros [H1 H2 H3 H4] (Hi & Hrx & Htx & Hli). constructor; [done|..].
  - rewrite <- H2. unfold sender_view. rewrite Hrx, Hli. by injection Htx as -> _.
  - by injection Htx as _ -> _.
  - by injection Htx as _ _ -> _.
Qed.
Lemma stage_ended s x s' : ended s s' → plain_reply x → ¬ admissible s repr → stage_post s (Err x) s'.
Proof. intros He Hx Hno. right. split_and!; [by eexists; split; [right|]|by left|done]. Qed.
Lemma stage_panic s s' : ¬ sack_ok s → stage_post s Panic s'.
Proof. intros H. left. split; [done|]. by intros ?%sack_safe_ok. Qed.

Lemma finish_ok s part o acked c s1 :
  tcp_inv s → took_part s repr part o → ack_accepted s repr → counted s repr acked →
  c = acted repr s → control repr ≠ Rst → moved s repr c acked s1 →
  wp (update_remote cx repr acked;; update_timers cx repr acked;; receive cx ip repr part o) s1 (stage_post s).
Proof.
  intros Hinv Hpart Hacc Hcount Hc Hnr Hm. wp_step.
  eapply wp_mono; [by eapply update_remote_ok|]. intros r s2 [-> Hset]. cbv beta iota.
  pose proof (settled_inv _ _ _ _ Hset) as Hinv2. wp_step.
  eapply wp_mono; [by apply update_timers_ok|]. intros r s3 [-> H3]. cbv beta iota.
  apply (settled_untouched _ _ _ _ _ Hset) in H3 as Hset3. pose proof (settled_inv _ _ _ _ Hset3) as Hinv3.
  pose proof (settled_view _ _ _ _ Hset3) as Hv3.
  eapply wp_mono; [apply receive_ok; try done|].
  - intros Hne. destruct (took_part_fits s repr part o Hpart Hne) as (Hh & Ho & Hfit).
    injection Hv3 as Hb _ _ _ _ _ _ ->. unfold rx_free in *. rewrite Hb.
    destruct (moved_buffers _ _ _ _ _ Hm) as [-> _]. split_and!; try done. by apply (moved_left _ _ _ _ _ Hm).
  - intros r s' [[[-> Hs] Hne]|[Hx Hend]].
    { left. split; [done|]. contradict Hs. destruct (took_part_fits s repr part o Hpart Hne) as [Hh _]. eapply sack_ok_moved; try done; apply Hinv. }
    assert (∃ part o acked c s1 s2, taken s repr s' part o acked c s1 s2) as Hta by (exists part, o, acked, c, s1, s3; by constructor).
    right. split_and!; [done|by right|done].
Qed.

Lemma process_stages_ok s :
  tcp_inv s → sample_fresh (now cx) (rtte s) → accepts ip repr s = true →
  wp (process_stages cx ip repr) s (stage_post s).
Proof.
  intros Hinv Hf Hacc. unfold process_stages. wp_steps.
  rewrite Hacc, assert_ok by done. wp_steps.
  eapply wp_mono; [by apply check_ack_ok|]. intros [[]|x|] sa Ha; [|destruct Ha as (? & ? & Hno)|by apply stage_panic].
  2: { apply stage_ended; [by apply untouched_ended|done|]. by intros [? _]. }
  destruct Ha as [-> Hack]. cbv beta iota. wp_step.
  eapply wp_mono; [by apply trim_payload_ok|].
  intros [[part o]|x|] sa Ha; [|destruct Ha as (? & ? & Hno)|by apply stage_panic].
  2: { apply stage_ended; [by apply untouched_ended|done|]. intros (_ & ? & _). congruence. }
  destruct Ha as [Hpart [q ->]]. cbv beta iota.
  wp_step. eapply wp_mono.
  { apply count_acked_ok; [|done|exact Hf|exact Hack]. apply (noted_inv s q (rtte s) (congestion_controller s)); [done|apply Hinv]. }
  intros r sb (acked & -> & Hcount & rt & cc & Hrt & ->). cbv beta iota. fold (noted s q rt cc).
  pose proof (noted_inv s q rt cc Hinv Hrt) as Hinvb. wp_steps.
  rewrite effective_control_ok by apply Hinvb. change (acted repr (noted s q rt cc)) with (acted repr s). cbv beta iota.
  destruct (acted_control repr s) as (Hc1 & Hc2 & Hc3). wp_step.
  eapply wp_mono; [by apply transition_ok; [..|apply accepts_open; exact Hacc|exact Hack|exact Hcount| | |]|].
  intros [[]|x|] s1 Hm; [|destruct Hm as (Hm & -> & Hno)|done].
  2: { eapply stage_ended; [by eapply noted_ended|done|]. intros (_ & _ & Hy). change (moves_on (state s) (acted repr s) = false) in Hno. congruence. }
  cbv beta iota.
  pose proof (moved_control _ _ _ _ _ Hm) as Hnr. apply noted_moved in Hm. eapply finish_ok; try done. tauto.
Qed.
Lemma process_ok s :
  tcp_inv s → sample_fresh (now cx) (rtte s) → accepts ip repr s = true →
  wp (process cx ip repr) s (λ r s', (r = Panic ∧ ¬ sack_safe s) ∨ (∃ x, r = Ok x ∧ plain_reply x) ∧ processed s repr s').
Proof.
  intros. unfold process. wp_step. eapply wp_mono; [by apply process_stages_ok|].
  intros r s' [[-> Hs]|[(x & [->| ->] & Hx) [Hp _]]]; [by left|right..]; (split; [by eexists|done]).
Qed.
(** What is not refused is taken. *)
Lemma process_taken s :
  tcp_inv s → sample_fresh (now cx) (rtte s) → accepts ip repr s = true → admissible s repr → sack_safe s →
  ∃ x s' part o acked c s1 s2, process cx ip repr s = (Ok x, s') ∧ taken s repr s' part o acked c s1 s2.
Proof.
  intros Hinv Hf Hacc Hadm Hs. pose proof (process_stages_ok s Hinv Hf Hacc) as Hp. unfold process, early, wp in *.
  destruct (process_stages cx ip repr s) as [r s']. cbn [fst snd] in Hp.
  destruct Hp as [[_ ?]|[(x & [->| ->] & _) [_ Ht]]]; [done|..];
    destruct (Ht Hadm) as (part & o & acked & c & s1 & s2 & Hta); exists x, s', part, o, acked, c, s1, s2; done.
Qed.
(** A segment that does not panic is processed. *)
Lemma process_done s x s' :
  tcp_inv s → sample_fresh (now cx) (rtte s) → accepts ip repr s = true → process cx ip repr s = (Ok x, s') →
  plain_reply x ∧ processed s repr s'.
Proof.
  intros Hinv Hf Hacc Hrun. pose proof (process_ok s Hinv Hf Hacc) as Hp. unfold wp in Hp. rewrite Hrun in Hp.
  destruct Hp as [[? _]|[(y & [= <-] & Hx) Hp]]; done.
Qed.
End process.

(** What follows of the socket *)
Lemma taken_state s repr s' part o acked c s1 s2 :
  taken s repr s' part o acked c s1 s2 → tcp_inv s' ∧ state s' = state s1 ∧
  tx_buffer s' = tx_buffer s2 ∧ local_seq_no s' = local_seq_no s2 ∧ tuple s' = tuple s2.
Proof.
  intros [_ _ _ _ _ Hset Hst]. pose proof (settled_view _ _ _ _ Hset) as Hv. injection Hv as _ _ _ _ _ _ _ Hs.
  assert (tcp_inv s' ∧ tx_view s' = tx_view s2 ∧ link_view s' = link_view s2) as (Hinv & Htx & Hli).
  { destruct Hst as [[(? & _ & ? & ?) _]|[_ [n [_ _ _ _ (_ & _ & ? & ?) ?]]]]; done. }
  injection Htx as H1 H2 H3 _. injection Hli as H4 _ _. split_and!; congruence.
Qed.
Lemma processed_inv s repr s' : processed s repr s' → tcp_inv s'.
Proof. intros [H|(part & o & acked & c & s1 & s2 & H)]; [apply H|by apply taken_state in H as [? _]]. Qed.
Lemma processed_edge s repr s' : processed s repr s' → edge (state s) (state s') = true.
Proof.
  intros [H|(part & o & acked & c & s1 & s2 & H)]; [apply H|].
  pose proof (taken_state _ _ _ _ _ _ _ _ _ H) as (_ & -> & _). apply (taken_moved _ _ _ _ _ _ _ _ _ H).
Qed.
