(* ===== verification/TcpSend.v ===== *)
(** * Sending a segment, on a socket that satisfies the invariant

    [dispatch] does not panic unless the remote end was sent past the last
    advertised window, keeps the invariant, and the segment it emits carries the
    octets of the transmit buffer at their sequence numbers, within the window of
    the remote end and both maximum segment sizes. *)
From stdpp Require Import prelude.
From S2P Require Import Prelude Wire SeqSpec TcpTimers Assembler AssemblerSpec RingBuffer RingSpec TcpSocket TcpProcess.
From S2P Require Import TcpDispatch TcpInv TcpReply TcpStages TcpMoves TcpAcks TcpReceive.
Open Scope Z_scope.

(** ** The questions asked before sending do not panic *)

Lemma room_after_ok {E} edge sent : ∃ n, @room_after E edge sent = Ok n ∧ 0 <= n.
Proof.
  unfold room_after, Seq.ge, Seq.sub. destruct (Z.leb_spec 0 (as_i32 (edge - sent))); [|by exists 0].
  destruct (Z.ltb_spec (as_i32 (edge - sent)) 0); [lia|]. by eexists.
Qed.
Lemma mtu_payload_ok {E} cx n :
  context_ok cx → 0 <= n <= IPV6_HEADER_LEN → @mtu_payload E cx n = Ok (ip_mtu cx - n - TCP_HEADER_LEN).
Proof.
  intros [_ Hm] Hn. unfold mtu_payload, IPV6_HEADER_LEN in *. rewrite AssemblerSpec.usub_ok by lia.
  cbn [mbind outcome_bind]. by rewrite AssemblerSpec.usub_ok by lia.
Qed.
Lemma seq_to_transmit_ok {E} cx s :
  tcp_inv s → context_ok cx → is_Some (tuple s) → ∃ b, @seq_to_transmit E cx s = Ok b.
Proof.
  intros Hinv Hcx [t Ht]. unfold seq_to_transmit. rewrite Ht. cbn [expect mbind outcome_bind].
  rewrite mtu_payload_ok; [|done|unfold local_header_len, IPV4_HEADER_LEN, IPV6_HEADER_LEN; destruct (addr (local t)); lia].
  cbn [mbind outcome_bind]. destruct (_ && negb _); [by eexists|].
  pose proof (tx_len_cap s (inv_tx s Hinv)). pose proof (win_ok s (inv_peer s Hinv)).
  rewrite (seq_add_ok (local_seq_no s) (Z.min (remote_win_len s) (tx_len s))) by (unfold i32_max; lia).
  cbn [mbind outcome_bind].
  destruct (room_after_ok (E := E) (as_i32 (local_seq_no s + Z.min (remote_win_len s) (tx_len s))) (remote_last_seq s)) as (n & -> & _).
  cbn [mbind outcome_bind]. rewrite seq_add_ok by (unfold i32_max; lia). cbn [mbind outcome_bind]. by eexists.
Qed.

(** The remote end has stayed within the last window it was told of. *)
Definition within_window (s : Socket) : Prop :=
  opt_all (λ a, 0 <= offset (expected s) (a + Z.shiftl (remote_last_win s) (remote_win_shift s))) (remote_last_ack s).
Lemma last_scaled_window_ok {E} s :
  tcp_inv s → (∃ w, @last_scaled_window E s = Ok w ∧ within_window s) ∨ (@last_scaled_window E s = Panic ∧ ¬ within_window s).
Proof.
  intros Hinv. unfold last_scaled_window, within_window. destruct (remote_last_ack s) as [a|]; [|left; by eexists].
  cbn [opt_all]. rewrite next_ack_ok by apply Hinv. cbn [mbind outcome_bind].
  pose proof (last_win_ok s (inv_peer s Hinv)) as Hl. pose proof (shift_ok s (inv_peer s Hinv)) as Hs.
  rewrite seq_add_ok.
  2: { rewrite Z.shiftl_mul_pow2 by lia. assert (2 ^ remote_win_shift s <= 2 ^ 15) by (apply Z.pow_le_mono_r; lia).
       unfold u16_max, i32_max in *. nia. }
  cbn [mbind outcome_bind]. unfold Seq.sub. fold (expected s). rewrite as_i32_dist.
  set (e := a + Z.shiftl _ _). fold (offset (expected s) e).
  destruct (Z.ltb_spec (offset (expected s) e) 0); cbn [mbind outcome_bind]; [right|left; by eexists].
  split; [done|lia].
Qed.
Lemma window_to_update_ok {E} s :
  tcp_inv s → (∃ b, @window_to_update E s = Ok b) ∨ (@window_to_update E s = Panic ∧ ¬ within_window s).
Proof.
  intros Hinv. unfold window_to_update.
  destruct (scaled_window_ok (E := E) s (inv_rx s Hinv)) as (w & Hsw & _); [apply Hinv|]. rewrite Hsw. cbn [mbind outcome_bind].
  destruct (last_scaled_window_ok (E := E) s Hinv) as [(l & -> & _)|[-> Hw]]; cbn [mbind outcome_bind];
    [left; destruct (state s); by eexists|]. destruct (state s); try (left; by eexists); by right.
Qed.

(** The states in which a larger window is announced *)
Definition announces (st : State) : bool :=
  match st with SynSent | SynReceived | Established | FinWait1 | FinWait2 => true | _ => false end.
Lemma window_to_update_panics {E} s :
  tcp_inv s → announces (state s) = true → @window_to_update E s = Panic ↔ ¬ within_window s.
Proof.
  intros Hinv Ha. destruct (window_to_update_ok (E := E) s Hinv) as [[b Hb]|[-> Hw]]; [|done]. split; [by rewrite Hb|].
  intros Hw. unfold window_to_update in Hb. destruct (scaled_window_ok (E := E) s (inv_rx s Hinv)) as (w & Hsw & _); [apply Hinv|].
  rewrite Hsw in Hb. cbn [mbind outcome_bind] in Hb.
  destruct (last_scaled_window_ok (E := E) s Hinv) as [(l & _ & ?)|[Hl _]]; [done|]. rewrite Hl in Hb. by destruct (state s).
Qed.

(** ** A closed socket that is used again *)

(** The socket is as good as new, and keeps its options. *)
Record was_reset (s s' : Socket) : Prop := {
  reset_inv : tcp_inv s';
  reset_state : state s' = Closed ∧ tuple s' = None;
  reset_rx : rx_len s' = 0 ∧ rx_fin_received s' = false ∧ (∀ x, AssemblerSpec.present (assembler s') x = false);
  reset_tx : tx_len s' = 0;
  reset_capacity : rx_capacity s' = rx_capacity s ∧ Ring.capacity (tx_buffer s') = Ring.capacity (tx_buffer s) }.

Lemma clear_wf (rb : Ring.RingBuffer Z) : RingSpec.wf rb → RingSpec.wf (Ring.MkRing (Ring.storage rb) 0 0).
Proof. intros (Hc & _ & _). split_and!; [done|cbn; lia|by right]. Qed.
Lemma win_shift_ok n : 0 <= n <= 2 ^ 30 → 0 <= win_shift n <= 15.
Proof.
  intros Hn. unfold win_shift, cap_log2. destruct (Z.eqb_spec n 0) as [->|]; [lia|].
  pose proof (Z.log2_nonneg n). assert (Z.log2 n <= Z.log2 (2 ^ 30)) as Hl by (apply Z.log2_le_mono; lia).
  rewrite Z.log2_pow2 in Hl by lia. lia.
Qed.
Definition emptied (rb : Ring.RingBuffer Z) : Ring.RingBuffer Z := Ring.MkRing (Ring.storage rb) 0 0.
Definition cleared (s : Socket) : Socket :=
  MkSocket Closed Timer.new Rtte.default (Assembler.new (length (assembler s))) (emptied (rx_buffer s)) false
    (emptied (tx_buffer s)) (timeout s) (keep_alive s) (hop_limit s) default_listen_endpoint (bound_endpoint s) None
    0 0 0 None 0 (win_shift (rx_capacity s)) 0 None (remote_has_sack s) DEFAULT_MSS None
    (local_rx_last_seq s) (local_rx_last_ack s) (local_rx_dup_acks s) (ack_delay s) AckIdle 0 (nagle s)
    (congestion_controller s) (tsval_generator s) (last_remote_tsval s) (rand_state s) (tsval_calls s).
Lemma reset_run {E} s : @reset E s = (Ok (), cleared s).
Proof. by destruct s. Qed.
Lemma cleared_reset s : tcp_inv s → was_reset s (cleared s).
Proof.
  intros [[H1 H2 H3 H4 H5 H6] [H7 H8 H9 H10 H11] _ _ _ [H12 H13 H14 H15 H16 H17]].
  pose proof (clear_wf _ H1) as Hw1. pose proof (clear_wf _ H7) as Hw2.
  assert (0 <= rx_capacity s <= 2 ^ 30) as Hcap by (unfold rx_capacity in *; lia). pose proof (win_shift_ok _ Hcap) as Hsh.
  unfold rx_capacity in *. split; [|done|split_and!; [done|done|apply AssemblerSpec.new_absent]|done|done]. split.
  - constructor; cbn; try done; [apply AssemblerSpec.new_wf|by destruct (assembler s)|].
    intros x. by rewrite AssemblerSpec.new_absent.
  - constructor; cbn; try done.
  - by intros [?|[?|?]].
  - constructor; cbn; try done. by intros [? _].
  - by constructor.
  - by constructor.
Qed.
Lemma reset_ok {E} s : tcp_inv s → wp (@reset E) s (λ r s', r = Ok () ∧ was_reset s s').
Proof. intros Hinv. unfold wp. rewrite reset_run. split; [done|by apply cleared_reset]. Qed.

(** ** Timers *)

(** What was last told to the remote end, and what it told of its own window *)
Definition win_view (s : Socket) :=
  (remote_last_ack s, remote_last_win s, remote_win_shift s, remote_win_len s, remote_mss s).
(** What the timers may change: the socket is closed or sends again from the
    first octet that was not acknowledged. *)
Record ticked (s s' : Socket) : Prop := {
  ticked_inv : tcp_inv s';
  ticked_rx : rx_view s' = rx_view s;
  ticked_tx : tx_buffer s' = tx_buffer s ∧ local_seq_no s' = local_seq_no s;
  ticked_state : state s' = state s ∨ state s' = Closed;
  ticked_link : link_view s' = link_view s;
  ticked_alive : keep_alive s = None → ∀ n,
    Timer.should_keep_alive n (timer s) = false → Timer.should_keep_alive n (timer s') = false;
  ticked_keep : keep_alive s' = keep_alive s;
  ticked_win : win_view s' = win_view s;
  ticked_flight : flight s' = flight s ∨ flight s' = 0 }.
Lemma ticked_refl s : tcp_inv s → ticked s s.
Proof. intros. constructor; auto. Qed.
Lemma ticked_trans s1 s2 s3 : ticked s1 s2 → ticked s2 s3 → ticked s1 s3.
Proof.
  intros [A1 A2 [A3 A3'] A4 A5 A7 A8 A6 A9] [B1 B2 [B3 B3'] B4 B5 B7 B8 B6 B9]. constructor; try congruence.
  - split; congruence.
  - destruct A4 as [A4|A4], B4 as [B4|B4]; [left; congruence|by right|right; congruence|by right].
  - intros Hk n Hn. apply B7; [congruence|]. by apply A7.
  - destruct A9 as [A9|A9], B9 as [B9|B9]; [left; congruence|by right|right; congruence|by right].
Qed.
Lemma ticked_within s s' : ticked s s' → within_window s → within_window s'.
Proof.
  intros [_ A2 _ _ _ _ _ A6]. injection A2 as Hb _ Hn _. injection A6 as Hl Hw Hs _ _.
  unfold within_window, expected, rx_len. by rewrite Hb, Hn, Hl, Hw, Hs.
Qed.

Lemma timed_out_ok {E} now s : tcp_inv s → ∃ b, @timed_out E now s = Ok b.
Proof.
  intros Hinv. unfold timed_out. pose proof (last_ts_ok s (inv_time s Hinv)) as Hl.
  pose proof (timeout_ok s (inv_time s Hinv)) as Ht. destruct (remote_last_ts s), (timeout s); try (by eexists).
  rewrite instant_add_ok by done. by eexists.
Qed.
Definition rewound (s : Socket) (t : Timer.Timer) (r : Rtte.RttEstimator) (c : Congestion.AnyController) : Socket :=
  update congestion_controller (λ _, c) (update rtte (λ _, r) (update timer (λ _, t)
    (update remote_last_seq (λ _, local_seq_no s) s))).
Lemma rewound_ticked s t r c :
  tcp_inv s → timer_ok t → rtte_ok r → (keep_alive s = None → t = Timer.Idle None) → ticked s (rewound s t r c).
Proof.
  intros [Hrx Htx Hop Hli Hpe Hti] Ht Hr Hk. unfold rewound.
  constructor; fields; try done; [|by left|by intros ->%Hk|by right; unfold flight, offset; fields; rewrite Z.sub_diag].
  split; [inherit Hrx| |exact Hop|inherit Hli|inherit Hpe|destruct Hti; constructor; fields; done].
  destruct Htx. constructor; fields; try done. intros _. unfold flight, tx_len. fields. unfold offset. rewrite Z.sub_diag.
  pose proof (ctl_range (state s)). change (as_i32 0) with 0. lia.
Qed.
Lemma set_for_idle_none now k t : k = None → (Timer.set_for_idle now k t).2 = Timer.Idle None.
Proof. by intros ->. Qed.
Lemma check_timers_ok {E} cx s :
  tcp_inv s → context_ok cx → is_Some (tuple s) → wp (@check_timers E cx) s (λ r s', r = Ok () ∧ ticked s s').
Proof.
  intros Hinv Hcx Htu. unfold check_timers, set_state. wp_steps.
  destruct (timed_out_ok (E := leave E) (now cx) s Hinv) as [b ->]. cbv beta iota. destruct b; wp_steps.
  { split; [done|]. constructor; fields; try done; [|by right|by left].
    assert (update state (λ _, Closed) s = update tuple (λ _, tuple s) (update state (λ _, Closed) s)) as -> by (by destruct s).
    apply closed_inv; [done|]. apply Hinv. }
  destruct (seq_to_transmit_ok (E := leave E) cx s Hinv Hcx Htu) as [b ->]. cbv beta iota. wp_steps.
  destruct (_ && _); wp_steps; [|split; [done|by apply ticked_refl]]. fields.
  pose proof (set_for_idle_ok (now cx) (now_ok cx Hcx) (keep_alive s) (timer s) (keep_alive_ok s (inv_time s Hinv))) as Hidle.
  pose proof (set_for_idle_none (now cx) (keep_alive s) (timer s)) as Hnone.
  unfold wp, done_with in Hidle. destruct (Timer.set_for_idle (now cx) (keep_alive s) (timer s)) as [r t] eqn:Hrun.
  cbn [fst snd] in *. destruct Hidle as [-> Ht].
  eapply wp_eq; [exact Hrun|]. cbv beta iota. wp_steps. fields.
  eapply wp_mono; [apply on_retransmit_ok, Hinv|]. intros r rt [-> Hr]. cbv beta iota. wp_steps. split; [done|].
  by apply (rewound_ticked s t rt).
Qed.

(** ** The decision to send *)

Definition decided {E} (s : Socket) : outcome (leave E) () → Socket → Prop := λ r s',
  match r with
  | Ok _ => s' = s
  | Err ReturnOk => s' = s ∨ was_reset s s'
  | Err _ => False
  | Panic => ¬ within_window s
  end.
Lemma find_reason_ok {E} cx s :
  tcp_inv s → context_ok cx → is_Some (tuple s) → wp (@find_reason E cx) s (decided s).
Proof.
  intros Hinv Hcx Htu. unfold find_reason. wp_steps.
  destruct (seq_to_transmit_ok (E := leave E) cx s Hinv Hcx Htu) as [b ->]. cbv beta iota. destruct b; wp_steps; [done|].
  destruct (ack_to_transmit_ok (E := leave E) s) as [b ->]; [apply Hinv|]. cbv beta iota. wp_steps. destruct (_ && _); wp_steps; [done|].
  destruct (window_to_update_ok (E := leave E) s Hinv) as [[b' ->]|[-> Hw]]; cbv beta iota; [|exact Hw].
  destruct b'; wp_steps; [done|].
  destruct (bool_decide _); wp_steps; [done|]. destruct (Timer.should_keep_alive _ _); wp_steps; [done|].
  destruct (Timer.should_zero_window_probe _ _); wp_steps; [done|]. destruct (Timer.should_close _ _); wp_steps; [|by left].
  eapply wp_mono; [by apply reset_ok|]. intros r s' [-> Hr]. wp_steps. by right.
Qed.

(** ** The segment *)

(** The states in which data is sent *)
Definition data_state (st : State) : bool :=
  match st with Established | FinWait1 | Closing | CloseWait | LastAck => true | _ => false end.
Lemma data_state_synced st : data_state st = true → synced st.
Proof. by destruct st. Qed.

(** No option but a timestamp *)
Definition plain_options (r : TcpRepr) : Prop :=
  max_seg_size r = None ∧ window_scale r = None ∧ sack_permitted r = false ∧ sack_ranges r = no_sack_ranges.
(** A segment that starts [k] past the first unacknowledged sequence number *)
Record built (cx : Context) (s : Socket) (t : Tuple) (k : Z) (r : TcpRepr) (probe : bool) : Prop := {
  built_ports : src_port r = port (local t) ∧ dst_port r = port (remote t);
  built_seq : seq_number r = as_i32 (local_seq_no s + k);
  built_at : k = flight s ∨ (k = 0 ∧ sent_syn s = true);
  built_ack : ack_number r = Some (as_i32 (expected s)) ∨ (ack_number r = None ∧ state s = SynSent);
  built_window : 0 <= window_len r <= u16_max;
  built_options : control r ≠ Syn → plain_options r;
  built_control :
    match control r with
    | Syn => sent_syn s = true ∧ k = 0 ∧ payload r = []
    | Fin => sent_fin s = true ∧ k + plen r = tx_len s
    | Rst => state s = Closed ∧ payload r = []
    | _ => sent_syn s = false
    end;
  built_data : payload r ≠ [] →
    data_state (state s) = true ∧
    payload r = slice (Z.to_nat k) (length (payload r)) (RingSpec.contents (tx_buffer s)) ∧
    0 <= k ∧ k + plen r <= tx_len s ∧ plen r <= remote_mss s ∧
    plen r + local_header_len t + TCP_HEADER_LEN <= ip_mtu cx ∧
    (k + plen r <= remote_win_len s ∨ (probe = true ∧ plen r = 1 ∧ remote_win_len s <= k));
  built_sends : data_state (state s) = true →
    (flight s < Z.min (remote_win_len s) (tx_len s) → local_header_len t + TCP_HEADER_LEN < ip_mtu cx → payload r ≠ []) ∧
    (sent_fin s = true → flight s = tx_len s → control r = Fin);
  built_probe : probe = true → Timer.should_zero_window_probe (now cx) (timer s) = true;
  built_syn : sent_syn s = true → control r = Syn;
  built_ranges : sack_ranges r = no_sack_ranges }.

(** The segment before its state is looked at *)
Definition blank (s : Socket) (t : Tuple) (r : TcpRepr) : Prop :=
  (src_port r = port (local t) ∧ dst_port r = port (remote t)) ∧
  control r = CNone ∧ seq_number r = remote_last_seq s ∧ ack_number r = Some (as_i32 (expected s)) ∧
  0 <= window_len r <= u16_max ∧ payload r = [] ∧ plain_options r.
Lemma flight_seq s : tx_inv s → remote_last_seq s = as_i32 (local_seq_no s + flight s).
Proof. intros H. apply offset_eq, H. Qed.

(** The room left of a window of [n] octets from the first unacknowledged one *)
Lemma edge_room {E} s n :
  tcp_inv s → synced (state s) → 0 <= n <= 2 ^ 31 - 1 →
  @room_after E (as_i32 (local_seq_no s + n)) (remote_last_seq s) = Ok (Z.max 0 (n - flight s)).
Proof.
  intros Hinv Hsy Hn. pose proof (in_flight s (inv_tx s Hinv) Hsy) as Hf. pose proof (tx_len_cap s (inv_tx s Hinv)).
  pose proof (ctl_range (state s)). unfold room_after. rewrite (flight_seq s (inv_tx s Hinv)). rewrite rel_ge by (unfold is_i32; lia).
  destruct (Z.leb_spec (flight s) n); [rewrite rel_sub by lia|]; f_equal; lia.
Qed.

Lemma build_data_ok {E} cx ip t r s :
  tcp_inv s → context_ok cx → ip_header_len ip = local_header_len t → data_state (state s) = true → blank s t r →
  wp (@build_data E cx ip r) s (λ res s', ∃ r' probe, res = Ok (r', probe) ∧ s' = s ∧ built cx s t (flight s) r' probe).
Proof.
  intros Hinv Hcx Hh Hst (Hpo & Hc & Hq & Ha & Hw & Hp & Hopt). pose proof (data_state_synced _ Hst) as Hsy.
  pose proof (in_flight s (inv_tx s Hinv) Hsy) as Hf. pose proof (tx_len_cap s (inv_tx s Hinv)) as Htl.
  pose proof (ctl_range (state s)) as Hct. pose proof (win_ok s (inv_peer s Hinv)). pose proof (mss_ok s (inv_peer s Hinv)) as Hms.
  assert (0 <= local_header_len t <= IPV6_HEADER_LEN) as Hlh
    by (unfold local_header_len, IPV4_HEADER_LEN, IPV6_HEADER_LEN; destruct (addr (local t)); lia).
  pose proof (mtu_ok cx Hcx) as Hm. unfold build_data. wp_steps.
  rewrite seq_add_ok by (unfold i32_max; lia). wp_steps. rewrite edge_room by (done || lia). wp_steps.
  rewrite Hh, mtu_payload_ok by done. wp_steps.
  replace (@Seq.sub (leave E) (remote_last_seq s) (local_seq_no s)) with (@Ok (leave E) Z (flight s)).
  2: { rewrite (flight_seq s (inv_tx s Hinv)). pose proof (una_i32 s (inv_tx s Hinv)).
       rewrite <- (as_i32_id (local_seq_no s)) at 2 by done. rewrite <- (Z.add_0_r (local_seq_no s)) at 2.
       rewrite rel_sub by lia. f_equal. lia. }
  cbv beta iota. wp_steps. set (wl := Z.max 0 (remote_win_len s - flight s)).
  set (probe := (wl =? 0) && Timer.should_zero_window_probe (now cx) (timer s)).
  set (size := Z.min _ _). 
  destruct (RingSpec.get_allocated_spec (tx_buffer s) (Z.to_nat (flight s)) (Z.to_nat size)) as (m & Hrun & Hm1 & Hm2 & Hm3 & Hm4).
  { apply Hinv. } { pose proof (tx_wf s (inv_tx s Hinv)) as (_ & ? & _). unfold tx_len, Ring.len in *. lia. }
  wp_call Hrun. assert (update tx_buffer (λ _, tx_buffer s) s = s) as -> by (by destruct s). wp_steps.
  set (data := slice _ m _) in *. fields. rewrite Hc.
  match goal with |- context [update control (λ _, ?x) _] => set (ct := x) end.
  eexists _, probe. split; [done|]. split; [done|].
  assert (plen (update payload (λ _, data) r) = Z.of_nat m) as Hpl by (unfold plen; fields; by rewrite Hm3).
  assert (0 <= size) as Hs0 by (unfold size, wl; destruct probe; lia).
  constructor; unfold plen in *; fields; fields_in Hpl; rewrite ?Hpl.
  - done.
  - by rewrite Hq, <- flight_seq by apply Hinv.
  - by left.
  - by left.
  - done.
  - by intros _.
  - subst ct. unfold plen. fields. rewrite Hpl.
    destruct (Z.eqb_spec (flight s + Z.of_nat m) (tx_len s)); [|unfold sent_syn; by destruct (state s)].
    unfold sent_fin, sent_syn. destruct (state s); try done; by destruct (bool_decide (data = [])).
  - intros Hne. split; [done|].
    assert (0 < m)%nat as Hm0 by (destruct m; [by unfold data in Hne|lia]).
    unfold tx_len, Ring.len in *. rewrite Hm3. split_and!; [done|lia|lia|unfold size in *; lia|unfold size in *; lia|].
    unfold size in Hm1. destruct probe eqn:Ep; [|left; unfold wl in *; lia].
    right. unfold probe in Ep. apply andb_true_iff in Ep as [Ep _]. apply Z.eqb_eq in Ep. unfold wl in *. lia.
  - intros _. split.
    + intros Hlt Hmtu. assert (0 < m)%nat as Hm0.
      { unfold tx_len, Ring.len in *. apply Hm4; [|lia]. unfold size, wl. destruct probe; lia. }
      intros E0. rewrite E0 in Hm3. cbn in Hm3. lia.
    + intros Hsf Hfl. subst ct. unfold plen. fields. rewrite Hpl.
      assert (m = 0%nat) as -> by (unfold tx_len, Ring.len in *; lia).
      rewrite (proj2 (Z.eqb_eq _ _)) by lia. unfold sent_fin in Hsf. by destruct (state s).
  - intros Hp1. unfold probe in Hp1. by apply andb_true_iff in Hp1 as [_ ?].
  - unfold sent_syn. by destruct (state s).
  - apply Hopt.
Qed.

Lemma build_ok {E} cx ip t r s :
  tcp_inv s → context_ok cx → ip_header_len ip = local_header_len t → tuple s = Some t → blank s t r →
  wp (@build E cx ip r) s (λ res s', ∃ k r' probe, res = Ok (r', probe) ∧ s' = s ∧ built cx s t k r' probe).
Proof.
  intros Hinv Hcx Hh Ht Hb. pose proof (flight_seq s (inv_tx s Hinv)) as Hfs. unfold build. wp_steps.
  destruct (data_state (state s)) eqn:Hd.
  { pose proof (build_data_ok (E := E) cx ip t r s Hinv Hcx Hh Hd Hb) as Hgo.
    destruct (state s); try done; (eapply wp_mono; [exact Hgo|]); intros res s' (r' & p & -> & -> & H); by eexists _, r', p. }
  destruct Hb as (Hpo & Hc & Hq & Ha & Hw & Hp & Hopt). pose proof Hopt as (_ & _ & _ & Hrg).
  destruct (decide (sent_syn s = true)) as [Hsyn|Hsyn].
  - pose proof (una_i32 s (inv_tx s Hinv)) as Hu.
    assert (wp (@build_syn E r) s (λ res s', ∃ r', res = Ok r' ∧ s' = s ∧ built cx s t 0 r' false)) as Hgo.
    { unfold build_syn. wp_steps. rewrite RingSpec.window_ok by apply Hinv. wp_steps.
      assert (0 <= u16_or_max (Z.of_nat (RingSpec.free (rx_buffer s))) <= u16_max) as Hu16
        by (unfold u16_or_max, u16_max; split_zbool; lia).
      destruct (bool_decide_reflect (state s = SynSent)); wp_steps; eexists; (split; [done|]); (split; [done|]);
        constructor; fields; rewrite ?Hp, ?Z.add_0_r, ?as_i32_id by done; auto; intros; congruence. }
    unfold sent_syn in Hsyn. destruct (state s); try done; wp_steps; (eapply wp_mono; [exact Hgo|]);
      intros res s' (r' & -> & -> & H); wp_steps; by exists 0, r', false.
  - assert (∀ c, match c with CNone => True | Rst => state s = Closed | _ => False end →
      built cx s t (flight s) (update control (λ _, c) r) false) as Hplain.
    { intros c Hcc. apply not_true_is_false in Hsyn.
      constructor; fields; rewrite ?Hp, ?Hq; auto; try (intros; congruence). by destruct c. }
    unfold sent_syn in Hsyn. destruct (state s) eqn:Est; try done; wp_steps.
    + eexists _, _, _. split; [done|]. split; [done|]. by apply Hplain.
    + pose proof (link_listen s (inv_link s Hinv) Est). congruence.
    + specialize (Hplain CNone I). eexists _, _, _. split; [done|]. split; [done|].
      assert (update control (λ _, CNone) r = r) as Hr by (destruct r; cbn in Hc; by subst). by rewrite Hr in Hplain.
    + specialize (Hplain CNone I). eexists _, _, _. split; [done|]. split; [done|].
      assert (update control (λ _, CNone) r = r) as Hr by (destruct r; cbn in Hc; by subst). by rewrite Hr in Hplain.
Qed.

(** A keep-alive repeats the last octet before what is to be sent next. *)
Record kept_alive (s : Socket) (r : TcpRepr) : Prop := {
  alive_seq : seq_number r = as_i32 (local_seq_no s + flight s - 1);
  alive_payload : payload r = [0];
  alive_control : control r = CNone ∨ control r = Psh;
  alive_ack : ack_number r = Some (as_i32 (expected s)) ∨ (ack_number r = None ∧ state s = SynSent) }.
Definition emitted (cx : Context) (s : Socket) (seg : segment) (probe alive : bool) : Prop :=
  ∃ t, tuple s = Some t ∧
    src_addr seg.1 = addr (local t) ∧ dst_addr seg.1 = addr (remote t) ∧
    (src_port seg.2 = port (local t) ∧ dst_port seg.2 = port (remote t)) ∧
    if alive then kept_alive s seg.2 ∧ Timer.should_keep_alive (now cx) (timer s) = true ∧
      (∃ k r, built cx s t k r probe ∧ repr_is_empty r = true)
    else ∃ k, built cx s t k seg.2 probe.

Lemma ip_repr_new_ok {E} t hops :
  version (addr (local t)) = version (addr (remote t)) →
  ∃ ip, @ip_repr_new E (addr (local t)) (addr (remote t)) Tcp 0 hops = Ok ip ∧
    src_addr ip = addr (local t) ∧ dst_addr ip = addr (remote t) ∧ ip_header_len ip = local_header_len t.
Proof.
  unfold ip_repr_new, local_header_len, ip_header_len. destruct (addr (local t)), (addr (remote t)); try done; intros _; by eexists.
Qed.
Lemma generate_tsval_ok {E} v s :
  wp (@generate_reply_with_tsval E v) s (λ r s', ∃ ts n, r = Ok ts ∧ s' = update tsval_calls (λ _, n) s).
Proof.
  unfold generate_reply_with_tsval. wp_steps. destruct (tsval_generator s); wp_steps; [by eexists _, _|].
  exists None, (tsval_calls s). split; [done|by destruct s].
Qed.
Lemma counted_inv s n : tcp_inv s → tcp_inv (update tsval_calls (λ _, n) s).
Proof.
  intros [Hrx Htx Hop Hli Hpe Hti]. split; [inherit Hrx|inherit Htx|exact Hop|inherit Hli|inherit Hpe|inherit Hti].
Qed.
Lemma counted_built cx s n t k r probe : built cx (update tsval_calls (λ _, n) s) t k r probe → built cx s t k r probe.
Proof. intros []. constructor; assumption. Qed.
(** Adding the maximum segment size to a SYN *)
Lemma mss_built cx s t k r probe m :
  control r = Syn → built cx s t k r probe → built cx s t k (update max_seg_size (λ _, m) r) probe.
Proof. intros Hc []. constructor; unfold plen in *; fields; try done. Qed.
Lemma alive_built cx s t k r probe :
  built cx s t k r probe → repr_is_empty r = true →
  kept_alive s (update payload (λ _, [0]) (update seq_number (λ _, as_i32 (seq_number r - 1)) r)).
Proof.
  intros [_ Hq Hat Hak _ _ Hc _ _ _ _] He. unfold repr_is_empty in He.
  assert (sent_syn s = false ∧ (control r = CNone ∨ control r = Psh)) as [Hs Hcc].
  { destruct (payload r); [|done]. destruct (control r); try done; auto. }
  destruct Hat as [->|[_ ?]]; [|congruence]. constructor; fields; [|done..].
  rewrite Hq. unfold Z.sub. by rewrite as_i32_add.
Qed.
Lemma build_segment_ok {E} cx s :
  tcp_inv s → context_ok cx → is_Some (tuple s) →
  wp (@build_segment E cx) s (λ res s', ∃ seg probe alive n, res = Ok (seg, probe, alive) ∧
    s' = update tsval_calls (λ _, n) s ∧ emitted cx s seg probe alive).
Proof.
  intros Hinv Hcx [t Ht]. unfold build_segment. wp_steps. rewrite Ht. cbn [expect]. wp_steps.
  pose proof (link_version s (inv_link s Hinv)) as Hv. rewrite Ht in Hv. cbn in Hv.
  destruct (ip_repr_new_ok (E := leave E) t (default 64 (hop_limit s)) Hv) as (ip & Hip & Hsrc & Hdst & Hhl).
  rewrite Hip. wp_steps. rewrite next_ack_ok by apply Hinv. wp_steps.
  destruct (scaled_window_ok (E := leave E) s (inv_rx s Hinv)) as (w & Hw & Hwb); [apply Hinv|]. rewrite Hw. wp_steps.
  eapply wp_mono; [apply generate_tsval_ok|]. intros res s1 (ts & n & -> & ->). cbv beta iota zeta. wp_step.
  set (s1 := update tsval_calls (λ _, n) s). pose proof (counted_inv s n Hinv) as Hinv1. fold s1 in Hinv1.
  eapply wp_mono; [apply (build_ok cx ip t _ s1); try done|].
  intros res s2 (k & r & probe & -> & -> & Hb). apply counted_built in Hb. cbv beta iota. wp_steps.
  change (timer s1) with (timer s). pose proof (alive_built _ _ _ _ _ _ Hb) as Hal.
  pose proof (built_ports _ _ _ _ _ _ Hb) as Hpo.
  assert (∀ (r2 : TcpRepr) (alive : bool), (src_port r2 = port (local t) ∧ dst_port r2 = port (remote t)) →
    (if alive then kept_alive s r2 ∧ Timer.should_keep_alive (now cx) (timer s) = true ∧ repr_is_empty r = true
     else built cx s t k r2 probe) →
    emitted cx s (set_payload_len (buffer_len r2) ip, r2) probe alive) as Hem.
  { intros r2 alive Hp2 H2. exists t. do 4 (split; [done|]). destruct alive; [|by eexists].
    destruct H2 as (? & ? & ?). eauto 6. }
  destruct (_ && repr_is_empty r) eqn:Eka; wp_steps.
  - apply andb_true_iff in Eka as [Hdue He]. specialize (Hal He). rewrite seq_sub_usize_ok by done. wp_steps. fields.
    rewrite bool_decide_false by (by destruct (alive_control _ _ Hal) as [H|H]; fields_in H; rewrite H).
    wp_steps. eexists _, probe, true, n. split; [done|]. split; [done|]. by apply Hem.
  - destruct (bool_decide_reflect (control r = Syn)) as [Hsyn|]; wp_steps.
    + rewrite Hhl. rewrite mtu_payload_ok; [|done|unfold local_header_len, IPV4_HEADER_LEN, IPV6_HEADER_LEN; destruct (addr (local t)); lia].
      wp_steps. eexists _, probe, false, n. split; [done|]. split; [done|]. apply Hem; [done|]. by apply mss_built.
    + eexists _, probe, false, n. split; [done|]. split; [done|]. by apply Hem.
Qed.

(** ** After the segment was sent *)

Definition after_send (s : Socket) (q : Z) (a : option Z) (w : Z) (t : Timer.Timer) (r : Rtte.RttEstimator)
    (c : Congestion.AnyController) (tu : option Tuple) : Socket :=
  update tuple (λ _, tu) (update timer (λ _, t) (update congestion_controller (λ _, c) (update rtte (λ _, r)
    (update remote_last_win (λ _, w) (update remote_last_ack (λ _, a) (update remote_last_seq (λ _, q)
      (update ack_delay_timer (λ _, AckIdle) s))))))).
Lemma after_send_inv s q a w t r c tu :
  tcp_inv s → is_i32 q → (synced (state s) → 0 <= offset (local_seq_no s) q <= tx_len s + ctl (state s)) →
  opt_all is_i32 a → 0 <= w <= u16_max → timer_ok t → rtte_ok r → tu = tuple s ∨ (tu = None ∧ state s = Closed) →
  tcp_inv (after_send s q a w t r c tu).
Proof.
  intros [Hrx Htx Hop Hli Hpe Hti] Hq Hf Ha Hw Ht Hr Htu. unfold after_send.
  split; [inherit Hrx| |exact Hop| | |].
  - destruct Htx. constructor; fields; done.
  - destruct Hli. destruct Htu as [->|[-> Hc]]; constructor; fields; try done. rewrite Hc. by intros [? _].
  - destruct Hpe. constructor; fields; done.
  - destruct Hti. constructor; fields; done.
Qed.

(** Where the segment ends in the send sequence space *)
Definition sent_to (r : TcpRepr) : Z := as_i32 (seq_number r + segment_len r).
Lemma built_len cx s t k r probe : tcp_inv s → built cx s t k r probe → 0 <= segment_len r <= i32_max.
Proof.
  intros Hinv [_ _ _ _ _ _ _ Hd _ _ _]. assert (0 <= control_len (control r) <= 1) as Hcl by (destruct (control r); cbn; lia).
  pose proof (mss_ok s (inv_peer s Hinv)) as Hm. unfold u16_max in Hm. unfold segment_len, i32_max.
  assert (0 <= plen r <= 65535); [|lia]. unfold plen in *. destruct (payload r) eqn:Ep; [cbn; lia|].
  destruct Hd as (_ & _ & _ & _ & Hmss & _); [done|]. lia.
Qed.
Lemma built_fits cx s t k r probe :
  tcp_inv s → built cx s t k r probe → synced (state s) → 0 <= k ∧ k + segment_len r <= tx_len s + ctl (state s).
Proof.
  intros Hinv Hb Hsy. pose proof (in_flight s (inv_tx s Hinv) Hsy) as Hf. pose proof (ctl_range (state s)) as Hct.
  pose proof (tx_len_cap s (inv_tx s Hinv)).
  destruct Hb as [_ Hq Hat _ _ _ Hc Hd _ _ _].
  assert (0 <= k <= tx_len s + ctl (state s)) as Hk by (destruct Hat as [->|[-> _]]; [done|lia]). split; [lia|].
  unfold segment_len. destruct (decide (payload r = [])) as [Ep|Ep].
  - unfold plen in *. rewrite Ep in *. cbn [length] in *. destruct (control r); cbn [control_len]; try lia.
    + destruct Hc as (Hs & -> & _). destruct (sent_syn_ctl s Hs) as [_ ->]. lia.
    + destruct Hc as (Hs & Hk'). assert (ctl (state s) = 1) by (unfold sent_fin in Hs; by destruct (state s)). lia.
  - destruct (Hd Ep) as (_ & _ & _ & Hle & _). destruct (control r); cbn [control_len]; try lia.
    + destruct Hc as (_ & _ & ?). done.
    + destruct Hc as (Hs & Hk'). assert (ctl (state s) = 1) by (unfold sent_fin in Hs; by destruct (state s)). lia.
Qed.
Lemma built_offset cx s t k r probe :
  tcp_inv s → built cx s t k r probe → synced (state s) → offset (local_seq_no s) (sent_to r) = k + segment_len r.
Proof.
  intros Hinv Hb Hsy. destruct (built_fits _ _ _ _ _ _ Hinv Hb Hsy). destruct (built_len _ _ _ _ _ _ Hinv Hb).
  pose proof (tx_len_cap s (inv_tx s Hinv)). pose proof (ctl_range (state s)).
  unfold sent_to. rewrite (built_seq _ _ _ _ _ _ Hb), as_i32_add, <- Z.add_assoc. apply offset_add. unfold is_i32. lia.
Qed.
Lemma built_end cx s t k r probe :
  tcp_inv s → built cx s t k r probe → 0 <= segment_len r <= i32_max ∧
  (synced (state s) → 0 <= offset (local_seq_no s) (sent_to r) <= tx_len s + ctl (state s)).
Proof.
  intros Hinv Hb. pose proof (built_len _ _ _ _ _ _ Hinv Hb). split; [done|]. intros Hsy.
  rewrite (built_offset _ _ _ _ _ _ Hinv Hb Hsy). pose proof (built_fits _ _ _ _ _ _ Hinv Hb Hsy). lia.
Qed.

(** What is recorded of a segment: nothing for a probe or a keep-alive *)
Definition recorded (s : Socket) (r : TcpRepr) (quiet : bool) (s' : Socket) : Prop :=
  ∃ t rt c tu, timer_ok t ∧ rtte_ok rt ∧ (tu = tuple s ∨ (tu = None ∧ state s = Closed)) ∧
    s' = after_send s (if quiet then remote_last_seq s else sent_to r) (if quiet then remote_last_ack s else ack_number r)
           (if quiet then remote_last_win s else window_len r) t rt c tu.

Section sent.
Context {E : Type} (cx : Context) (Hcx : context_ok cx).
Lemma sample_sent_ok (b : bool) q n s :
  rtte_ok (rtte s) → is_i32 q →
  wp (if b then total (on rtte (Rtte.on_send (now cx) q));; modify (update congestion_controller (Congestion.post_transmit n))
      else mret () : sending E ()) s
    (λ r s', r = Ok () ∧ ∃ rt c, rtte_ok rt ∧ s' = update congestion_controller (λ _, c) (update rtte (λ _, rt) s)).
Proof.
  intros Hr Hq. destruct b; wp_steps.
  - eapply wp_mono; [by apply on_send_ok; [|apply Hcx|]|]. intros r rt [-> Hrt]. cbv beta iota. wp_steps.
    split; [done|]. by eexists rt, _.
  - split; [done|]. exists (rtte s), (congestion_controller s). split; [done|by destruct s].
Qed.
Lemma arm_retransmit_ok (b : bool) s :
  rtte_ok (rtte s) → timer_ok (timer s) →
  wp (if b then rto ← inspect (λ s, Rtte.retransmission_timeout (rtte s)); total (on timer (Timer.set_for_retransmit (now cx) rto))
      else mret () : sending E ()) s
    (λ r s', r = Ok () ∧ ∃ t, timer_ok t ∧ s' = set_timer s t).
Proof.
  intros Hr Ht. destruct b; wp_steps.
  - rewrite retransmission_timeout_ok by done. cbv beta iota. apply on_timer_rule; [|intros t Ht'; split; [done|by eexists]].
    apply set_for_retransmit_ok; [apply Hcx|by apply rto_duration|done].
  - split; [done|]. exists (timer s). split; [done|by destruct s].
Qed.
End sent.
Lemma segment_sent_ok {E} cx s r probe alive :
  tcp_inv s → context_ok cx → segment_len r <= i32_max →
  wp (@segment_sent E cx r probe alive) s (λ res s', res = Ok () ∧ recorded s r (probe || alive) s').
Proof.
  intros Hinv Hcx Hlen. pose proof (now_ok cx Hcx) as Hnow. pose proof (inv_time s Hinv) as Hti.
  unfold segment_sent. wp_step. apply wp_gets. wp_step.
  apply on_timer_rule; [by apply rewind_keep_alive_ok; [|apply Hti|apply Hti]|]. intros t Ht. unfold set_timer. wp_steps.
  destruct probe.
  { apply on_timer_rule; [apply rewind_zero_window_probe_ok; done|]. intros t' Ht'. split; [done|].
    exists t', (rtte s), (congestion_controller s), (tuple s). split_and!; [done|apply Hti|by left|by destruct s]. }
  destruct alive; wp_steps.
  { split; [done|]. exists t, (rtte s), (congestion_controller s), (tuple s). split_and!; [done|apply Hti|by left|by destruct s]. }
  rewrite seq_add_ok by done. fold (sent_to r). wp_steps.
  eapply wp_mono; [apply sample_sent_ok; [done|fields; apply Hti|apply as_i32_range]|].
  intros res s2 (-> & rt & c & Hrt & ->). cbv beta iota. wp_steps.
  eapply wp_mono; [apply arm_retransmit_ok; [done|by fields|by fields]|]. intros res s2 (-> & t' & Ht' & ->). cbv beta iota.
  unfold set_timer. wp_steps. fields. destruct (bool_decide_reflect (state s = Closed)); wp_steps; (split; [done|]).
  - exists t', rt, c, None. split_and!; [done|done|by right|by destruct s].
  - exists t', rt, c, (tuple s). split_and!; [done|done|by left|by destruct s].
Qed.

(** ** The whole of [dispatch] *)

Definition dispatched {E} (cx : Context) (s : Socket) : outcome E (option segment) → Socket → Prop := λ r s',
  match r with
  | Ok None => ticked s s' ∨ ∃ s1, ticked s s1 ∧ was_reset s1 s'
  | Ok (Some seg) => ∃ s1 probe alive,
      ticked s s1 ∧ emitted cx s1 seg probe alive ∧ recorded s1 seg.2 (probe || alive) s'
  | Err _ => ticked s s'
  | Panic => ¬ within_window s
  end.

Lemma emitted_counted cx s n seg probe alive :
  emitted cx s seg probe alive → emitted cx (update tsval_calls (λ _, n) s) seg probe alive.
Proof.
  intros (t & Ht & H1 & H2 & H3 & Hb). exists t. do 4 (split; [done|]).
  destruct alive; [destruct Hb as ([] & ? & k & r & [] & ?); split_and!; [constructor; assumption|assumption|];
    exists k, r; split; [constructor; assumption|assumption]|]. destruct Hb as [k []]. exists k. constructor; assumption.
Qed.
Lemma emitted_len cx s seg probe alive : tcp_inv s → emitted cx s seg probe alive → segment_len seg.2 <= i32_max.
Proof.
  intros Hinv (t & _ & _ & _ & _ & Hb). destruct alive.
  - destruct Hb as [[_ Hp Hc] _]. unfold segment_len, plen. rewrite Hp. destruct Hc as [-> | ->]; done.
  - destruct Hb as [k Hb]. by apply (built_end cx s t k seg.2 probe).
Qed.
Lemma recorded_inv cx s seg probe alive s' :
  tcp_inv s → emitted cx s seg probe alive → recorded s seg.2 (probe || alive) s' → tcp_inv s'.
Proof.
  intros Hinv (tp & _ & _ & _ & _ & Hb) (t & rt & c & tu & Ht & Hrt & Htu & ->).
  pose proof (inv_peer s Hinv) as Hpe. pose proof (inv_tx s Hinv) as Htx.
  destruct (probe || alive) eqn:Eq; [by apply after_send_inv; [|apply Htx|apply Htx|apply Hpe|apply Hpe|..]|].
  apply orb_false_iff in Eq as [-> ->]. destruct Hb as [k Hb].
  apply after_send_inv; try done; [apply as_i32_range|by apply (built_end cx s tp k seg.2 false)|..].
  - destruct (built_ack _ _ _ _ _ _ Hb) as [->|[-> _]]; [apply as_i32_range|done].
  - apply Hb.
Qed.
Lemma started_ticked s l c :
  tcp_inv s → opt_all instant_ok l → ticked s (update congestion_controller (λ _, c) (update remote_last_ts (λ _, l) s)).
Proof.
  intros [Hrx Htx Hop Hli Hpe Hti] Hl. constructor; fields; try done; [|by left|by left].
  split; [inherit Hrx|inherit Htx|exact Hop|inherit Hli|inherit Hpe|destruct Hti; constructor; fields; done].
Qed.
Lemma counted_ticked s n : tcp_inv s → ticked s (update tsval_calls (λ _, n) s).
Proof. intros Hinv. constructor; fields; try done; [by apply counted_inv|by left|by left]. Qed.

Section dispatch.
Context {E : Type} (cx : Context) (emit : segment → option E) (Hcx : context_ok cx).

(** The stages, with the way they end as [dispatch] reports it *)
Definition staged (s : Socket) : outcome (leave E) segment → Socket → Prop := λ r s',
  dispatched (E := E) cx s
    match r with Ok seg => Ok (Some seg) | Err ReturnOk => Ok None | Err (ReturnErr e) => Err e | Panic => Panic end s'.

Lemma send_segment_ok s s1 :
  ticked s s1 → is_Some (tuple s1) →
  wp ('(seg, probe, is_keep_alive) ← build_segment cx;
      match emit seg with Some e => throw (ReturnErr e) | None => mret () end;;
      segment_sent cx seg.2 probe is_keep_alive;;
      mret seg) s1 (staged s).
Proof.
  intros Hs1 Htu. pose proof (ticked_inv _ _ Hs1) as Hinv1. wp_step.
  eapply wp_mono; [by apply build_segment_ok|]. intros res s2 (seg & probe & alive & n & -> & -> & Hem). cbv beta iota.
  pose proof (emitted_counted cx s1 n seg probe alive Hem) as Hem2. set (s2 := update tsval_calls (λ _, n) s1) in *.
  assert (ticked s s2) as Hs2 by (eapply ticked_trans; [exact Hs1|by apply counted_ticked]).
  pose proof (ticked_inv _ _ Hs2) as Hinv2. wp_step. destruct (emit seg); wp_steps; [done|].
  eapply wp_mono; [apply segment_sent_ok; [done|done|by eapply emitted_len]|]. intros res s' [-> Hrec]. wp_steps.
  by exists s2, probe, alive.
Qed.
Lemma dispatch_stages_ok s :
  tcp_inv s → wp (dispatch_stages cx emit) s (staged s).
Proof.
  intros Hinv. unfold dispatch_stages. wp_step. apply wp_gets. cbv beta. destruct (tuple s) as [t|] eqn:Htu.
  2: { wp_steps. left. by apply ticked_refl. }
  assert (∃ l, opt_all instant_ok l ∧ wp (match remote_last_ts s with None => put remote_last_ts (Some (now cx)) | Some _ => mret () end
    : sending E ()) s (λ r s', r = Ok () ∧ s' = update remote_last_ts (λ _, l) s)) as (l & Hl & Hrun).
  { pose proof (last_ts_ok s (inv_time s Hinv)) as Hl. destruct (remote_last_ts s) as [l|] eqn:El.
    - exists (Some l). split; [done|]. wp_steps. split; [done|]. rewrite <- El. by destruct s.
    - exists (Some (now cx)). split; [apply Hcx|]. by wp_steps. }
  wp_step. apply wp_gets. cbv beta. wp_step. eapply wp_mono; [exact Hrun|]. intros r s0 [-> ->]. cbv beta iota. wp_step. wp_step.
  pose proof (started_ticked s l (Congestion.pre_transmit (congestion_controller s)) Hinv Hl) as Hs0.
  set (s0 := update congestion_controller _ _). change (ticked s s0) in Hs0.
  assert (is_Some (tuple s0)) as Htu0 by (by exists t). clearbody s0.
  pose proof (ticked_inv _ _ Hs0) as Hinv0. wp_step. eapply wp_mono; [by apply check_timers_ok|]. intros r s1 [-> Hs1]. cbv beta iota.
  assert (is_Some (tuple s1)) as Htu1 by (pose proof (ticked_link _ _ Hs1) as H; by injection H as -> _ _).
  pose proof (ticked_trans _ _ _ Hs0 Hs1) as Hs01. pose proof (ticked_inv _ _ Hs01) as Hinv1. wp_step.
  eapply wp_mono; [by apply find_reason_ok|].
  intros [[]|[|e]|] s2 Hd; cbn in Hd; [subst s2; by apply send_segment_ok| |done|].
  2: { intros Hw. by apply Hd, (ticked_within s). }
  destruct Hd as [->|Hr]; [by left|right; by exists s1].
Qed.
Lemma dispatch_ok s : tcp_inv s → wp (dispatch cx emit) s (dispatched cx s).
Proof.
  intros Hinv. pose proof (dispatch_stages_ok s Hinv) as Hgo. unfold wp, dispatch, staged in *.
  destruct (dispatch_stages cx emit s) as [[seg|[|e]|] s']; exact Hgo.
Qed.
End dispatch.

(** What follows from each way [dispatch] ends *)
Lemma dispatched_inv {E} cx s (r : outcome E (option segment)) s' :
  tcp_inv s → r ≠ Panic → dispatched cx s r s' → tcp_inv s'.
Proof.
  intros Hinv Hr Hd. destruct r as [[seg|]|e|]; [| |by apply Hd|done].
  - destruct Hd as (s1 & p & al & Ht & He & Hrec). eapply recorded_inv; [apply Ht|done..].
  - destruct Hd as [Ht|(s1 & _ & Hr')]; [apply Ht|apply Hr'].
Qed.
Lemma recorded_view s r q s' : recorded s r q s' → rx_view s' = rx_view s ∧ state s' = state s ∧
  tx_buffer s' = tx_buffer s ∧ local_seq_no s' = local_seq_no s.
Proof. by intros (? & ? & ? & ? & _ & _ & _ & ->). Qed.
Lemma dispatched_rx {E} cx s (r : outcome E (option segment)) s' :
  r ≠ Panic → dispatched cx s r s' →
  (rx_view s' = rx_view s ∧ (state s' = state s ∨ state s' = Closed)) ∨ (∃ s1, ticked s s1 ∧ was_reset s1 s').
Proof.
  intros Hr Hd. destruct r as [[seg|]|e|]; [| |left; split; apply Hd|done].
  - destruct Hd as (s1 & p & al & Ht & He & Hrec). destruct (recorded_view _ _ _ _ Hrec) as (-> & -> & _).
    left. split; apply Ht.
  - destruct Hd as [Ht|(s1 & Ht & Hr')]; [left; split; apply Ht|right; eauto].
Qed.
