(* ===== verification/TcpUser.v ===== *)
(** * The operations of the socket's user

    Opening, closing, writing and reading keep the invariant; a write appends to
    the transmit buffer and a read takes from the front of the receive buffer. *)
From stdpp Require Import prelude.
From S2P Require Import Prelude Wire SeqSpec TcpTimers Assembler AssemblerSpec RingBuffer RingSpec TcpSocket TcpProcess.
From S2P Require Import TcpDispatch TcpInv TcpReply TcpStages TcpMoves TcpAcks TcpReceive TcpSend.
Open Scope Z_scope.

(** ** Creation *)

Definition buffers_ok (n : nat) (rx tx : Ring.RingBuffer Z) : Prop :=
  (0 < n)%nat ∧ RingSpec.wf rx ∧ Ring.len rx = 0%nat ∧ Z.of_nat (Ring.capacity rx) <= 2 ^ 30 ∧
  RingSpec.wf tx ∧ Ring.len tx = 0%nat ∧ Z.of_nat (Ring.capacity tx) < 2 ^ 31 - 1.
Lemma new_ok {E} n rx tx seed :
  buffers_ok n rx tx → ∃ s, @new E n rx tx seed = Ok s ∧ tcp_inv s ∧ state s = Closed.
Proof.
  intros (Hn & H1 & H2 & H3 & H4 & H5 & H6). unfold new. change (Z.shiftl 1 30) with (2 ^ 30).
  rewrite (proj2 (Z.ltb_ge _ _)) by lia. eexists. split; [done|]. split; [|done].
  assert (0 <= Z.of_nat (Ring.capacity rx) <= 2 ^ 30) as Hc by lia. pose proof (win_shift_ok _ Hc) as Hs. split.
  - constructor; cbn; try done; [apply AssemblerSpec.new_wf|by destruct n; [lia|]|].
    intros x. by rewrite AssemblerSpec.new_absent.
  - constructor; cbn; try done. by intros [? _].
  - by intros [?|[?|?]].
  - constructor; cbn; try done. by intros [? _].
  - by constructor.
  - by constructor.
Qed.

(** ** Opening and closing *)

Definition opened (s : Socket) (e : IpListenEndpoint) : Socket :=
  update state (λ _, Listen) (update tuple (λ _, None) (update listen_endpoint (λ _, e) (cleared s))).
Lemma opened_inv s e : tcp_inv s → tcp_inv (opened s e).
Proof.
  intros Hinv. pose proof (cleared_reset s Hinv) as [[Hrx Htx _ _ Hpe Hti] _ (Hl & Hf & Hp) Ht _]. unfold opened.
  split; [inherit Hrx| | | |inherit Hpe|inherit Hti].
  - destruct Htx. constructor; fields; try done.
  - intros _. by split_and!.
  - constructor; fields; try done. by intros [_ ?].
Qed.
Lemma listen_ok e s :
  tcp_inv s → wp (listen e) s (λ r s',
    match r with
    | Ok _ => s' = s ∧ state s = Listen ∨ is_open s = false ∧ s' = opened s e
    | Err _ => s' = s
    | Panic => False
    end).
Proof.
  intros Hinv. unfold listen, set_state. destruct (listen_port e =? 0); wp_steps; [done|].
  destruct (is_open s) eqn:Ho; wp_steps.
  - destruct (bool_decide_reflect (state s = Listen)); cbn [andb]; [|by wp_steps].
    destruct (bool_decide _); wp_steps; [by left|done].
  - eapply wp_eq; [apply reset_run|]. cbv beta iota. wp_steps. by right.
Qed.

Definition connecting (s : Socket) (t : Tuple) (iss rs : Z) : Socket :=
  update remote_last_seq (λ _, iss) (update local_seq_no (λ _, iss) (update rand_state (λ _, rs)
    (update state (λ _, SynSent) (update tuple (λ _, Some t) (cleared s))))).
Lemma connecting_inv s t iss rs :
  tcp_inv s → is_i32 iss → version (addr (local t)) = version (addr (remote t)) → tcp_inv (connecting s t iss rs).
Proof.
  intros Hinv Hi Hv. pose proof (cleared_reset s Hinv) as [[Hrx Htx _ _ Hpe Hti] _ (Hl & Hf & Hp) Ht _]. unfold connecting.
  split; [inherit Hrx| | | |inherit Hpe|inherit Hti].
  - destruct Htx. constructor; fields; try done. intros _. unfold flight, tx_len. fields. unfold offset. rewrite Z.sub_diag.
    change (as_i32 0) with 0. cbn [ctl]. lia.
  - intros _. by split_and!.
  - by constructor; fields.
Qed.
Lemma connect_ok cx re le s :
  tcp_inv s → wp (connect cx re le) s (λ r s',
    match r with
    | Ok _ => is_open s = false ∧ tcp_inv s' ∧ ∃ t iss rs, s' = connecting s t iss rs ∧ remote t = re
    | Err _ => s' = s
    | Panic => False
    end).
Proof.
  intros Hinv. unfold connect, set_state. wp_steps. destruct (is_open s) eqn:Ho; [by wp_steps|].
  destruct (_ || _); [by wp_steps|]. destruct (listen_port le =? 0); [by wp_steps|].
  assert (∀ a (Q : outcome ConnectError () → Socket → Prop),
    (∀ r s', match r with
       | Ok _ => tcp_inv s' ∧ ∃ t iss rs, s' = connecting s t iss rs ∧ remote t = re
       | Err _ => s' = s
       | Panic => False end → Q r s') →
    wp (if negb (bool_decide (version a = version (addr re))) then throw ConnectUnaddressable else
      reset;; put tuple (Some (MkTuple (MkEndpoint a (listen_port le)) re));; put state SynSent;;
      seq ← random_seq_no; put local_seq_no seq;; put remote_last_seq seq : prog Socket ConnectError ()) s Q) as Hgo.
  { intros a Q HQ. destruct (bool_decide_reflect (version a = version (addr re))) as [Hv|]; cbn [negb].
    2: { wp_steps. by apply HQ. }
    wp_step. eapply wp_eq; [apply reset_run|]. cbv beta iota. wp_steps. unfold random_seq_no, rand_u32. wp_steps. fields.
    apply HQ. split; [apply connecting_inv; [done|apply as_i32_range|done]|]. by eexists _, _, _. }
  destruct (listen_addr le) as [a|]; [destruct (is_unspecified a)|]; wp_steps.
  - done.
  - apply Hgo. intros [[]|?|] s'; by auto.
  - destruct (get_source_address cx (addr re)) as [a|]; wp_steps; [|done]. apply Hgo. intros [[]|?|] s'; by auto.
Qed.

(** Closing moves along an edge and leaves the rest. *)
Definition next_closing (st : State) : State :=
  match st with
  | Listen | SynSent => Closed
  | SynReceived | Established => FinWait1
  | CloseWait => LastAck
  | st => st
  end.
Lemma close_run s : close s = (Ok (), update state (λ _, next_closing (state s)) s).
Proof. apply wp_run. unfold close, set_state. wp_steps. destruct (state s) eqn:E; wp_steps; first [done|cbn [next_closing]; rewrite <- E; by destruct s]. Qed.
Lemma close_inv s : tcp_inv s → tcp_inv (update state (λ _, next_closing (state s)) s).
Proof.
  intros [Hrx Htx Hop Hli Hpe Hti]. split; [inherit Hrx| | | |inherit Hpe|inherit Hti].
  - destruct Htx as [H1 H2 H3 H4 H5]. constructor; fields; try done. unfold flight, tx_len in *. fields.
    unfold synced in *. destruct (state s); cbn in *; try (by intros []); intros _; specialize (H5 ltac:(done)); lia.
  - unfold opening_inv, opening in *. fields. intros Ho. destruct (state s); cbn in Ho; try (by destruct Ho as [|[|]]).
  - destruct Hli as [H1 H2 H3]. constructor; fields; [|by destruct (state s)|done].
    unfold synced in *. destruct (state s); cbn; try (by intros []); auto.
Qed.
Lemma abort_inv s : tcp_inv s → tcp_inv (update state (λ _, Closed) s).
Proof.
  intros Hinv. assert (update state (λ _, Closed) s = update tuple (λ _, tuple s) (update state (λ _, Closed) s)) as -> by (by destruct s).
  apply closed_inv; [done|]. apply Hinv.
Qed.

(** ** Writing and reading *)

(** A write appends what fits. *)
Record wrote (s : Socket) (data : list Z) (n : nat) (s' : Socket) : Prop := {
  wrote_may : may_send s = true;
  wrote_n : n = min (length data) (RingSpec.free (tx_buffer s));
  wrote_tx : RingSpec.holds (tx_buffer s) (tx_buffer s') (RingSpec.contents (tx_buffer s) ++ take n data);
  wrote_same : rx_view s' = rx_view s ∧ link_view s' = link_view s ∧ state s' = state s ∧
    local_seq_no s' = local_seq_no s ∧ remote_last_seq s' = remote_last_seq s ∧ win_view s' = win_view s;
  wrote_inv : tcp_inv s' }.

Definition appended (s : Socket) (rb : Ring.RingBuffer Z) (l : option Z) (t : Timer.Timer) : Socket :=
  update timer (λ _, t) (update remote_last_ts (λ _, l) (update tx_buffer (λ _, rb) s)).
Lemma appended_inv s rb l t data :
  tcp_inv s → may_send s = true → RingSpec.holds (tx_buffer s) rb (RingSpec.contents (tx_buffer s) ++ data) →
  opt_all instant_ok l → timer_ok t → tcp_inv (appended s rb l t).
Proof.
  intros [Hrx Htx Hop Hli Hpe Hti] Hms (Hwf & Hcap & Hq) Hl Ht. unfold appended.
  assert (¬ opening (state s)) as Hno by (unfold may_send in Hms; destruct (state s); try done; intros [|[|]]; done).
  split; [inherit Hrx| |by intros Ho; destruct Hno|inherit Hli|inherit Hpe|destruct Hti; constructor; fields; done].
  destruct Htx as [H1 H2 H3 H4 H5]. constructor; unfold flight; fields; rewrite ?Hcap; try done.
  intros Hs. specialize (H5 Hs). unfold flight, tx_len in *. fields.
  assert (Ring.len (tx_buffer s) <= Ring.len rb)%nat; [|lia].
  change (Ring.rlen (tx_buffer s) <= Ring.rlen rb)%nat.
  rewrite <- !RingSpec.contents_length by done. rewrite Hq, length_app. lia.
Qed.
(** Data for a closed window starts the probe timer. *)
Lemma probe_on_write_ok {E} (b : bool) s :
  time_inv s →
  wp (if b then
        delay ← inspect (λ s, Rtte.retransmission_timeout (rtte s)); total (on timer (Timer.set_for_zero_window_probe 0 delay))
      else mret () : prog Socket E ()) s
    (λ r s', r = Ok () ∧ ∃ t, timer_ok t ∧ s' = set_timer s t).
Proof.
  intros Hti. destruct b; wp_steps.
  - rewrite retransmission_timeout_ok by apply Hti. cbv beta iota. pose proof (rtte_is_ok s Hti) as Hr.
    apply on_timer_rule; [apply set_for_zero_window_probe_ok; [by unfold instant_ok|]|intros t Ht; split; [done|by eexists]].
    destruct (rto_duration _ Hr) as [Hd ?]. unfold duration_ok in Hd. lia.
  - split; [done|]. exists (timer s). split; [apply Hti|by destruct s].
Qed.
Lemma send_slice_ok data s :
  tcp_inv s → wp (send_slice data) s (λ r s',
    match r with
    | Ok n => wrote s data n s'
    | Err _ => may_send s = false ∧ s' = s
    | Panic => False
    end).
Proof.
  intros Hinv. unfold send_slice, send_impl. wp_steps. destruct (may_send s) eqn:Hms; cbn [negb]; wp_steps; [|done].
  destruct (RingSpec.enqueue_slice_spec (tx_buffer s) data (tx_wf s (inv_tx s Hinv))) as (rb & Hrun & Hh).
  set (n := min _ _) in *. wp_call Hrun. wp_steps.
  assert (∀ l t, opt_all instant_ok l → timer_ok t → wrote s data n (appended s rb l t)) as Hw.
  { intros l t Hl Ht. constructor; try done. by eapply appended_inv. }
  pose proof (inv_time s Hinv) as Hti. set (s1 := update tx_buffer (λ _, rb) s).
  assert (s1 = appended s rb (remote_last_ts s) (timer s)) as Hs1 by (by destruct s).
  destruct (0 <? n)%nat; wp_steps; [|rewrite Hs1; apply Hw; apply Hti].
  assert (∀ (b : bool) l, opt_all instant_ok l → wp (if b then
        delay ← inspect (λ s, Rtte.retransmission_timeout (rtte s)); total (on timer (Timer.set_for_zero_window_probe 0 delay))
      else mret () : prog Socket SendError ()) (update remote_last_ts (λ _, l) s1)
    (λ r s', ∃ t, r = Ok () ∧ timer_ok t ∧ s' = appended s rb l t)) as Hgo.
  { intros b l Hl. eapply wp_mono; [apply probe_on_write_ok; destruct Hti; unfold s1; constructor; fields; done|].
    intros r s' (-> & t & Ht & ->). by exists t. }
  assert (s1 = update remote_last_ts (λ _, remote_last_ts s) s1) as Hs1' by (by unfold s1; destruct s).
  destruct (tx_len s =? 0); wp_steps.
  - eapply wp_mono; [by apply (Hgo _ None)|]. intros r s' (t & -> & Ht & ->). wp_steps. by apply Hw.
  - rewrite Hs1'. eapply wp_mono; [apply Hgo, Hti|]. intros r s' (t & -> & Ht & ->). wp_steps. apply Hw; [apply Hti|done].
Qed.

(** A read takes octets from the front, and the receive window moves past them. *)
Record took (s : Socket) (n : nat) (s' : Socket) : Prop := {
  took_may : may_recv s = true;
  took_n : (n <= Ring.len (rx_buffer s))%nat;
  took_rx : RingSpec.holds (rx_buffer s) (rx_buffer s') (drop n (RingSpec.contents (rx_buffer s)));
  took_spare : RingSpec.keeps_spare (rx_buffer s) (rx_buffer s');
  took_seq : remote_seq_no s' = as_i32 (remote_seq_no s + Z.of_nat n);
  took_same : assembler s' = assembler s ∧ rx_fin_received s' = rx_fin_received s ∧
    tx_view s' = tx_view s ∧ link_view s' = link_view s ∧ win_view s' = win_view s;
  took_inv : tcp_inv s' }.
Lemma took_len s n rb :
  RingSpec.wf (rx_buffer s) → (n <= Ring.len (rx_buffer s))%nat →
  RingSpec.holds (rx_buffer s) rb (drop n (RingSpec.contents (rx_buffer s))) → Ring.len rb = (Ring.len (rx_buffer s) - n)%nat.
Proof. intros. by eapply tx_drop. Qed.
Lemma read_took s rb n :
  tcp_inv s → (n <= Ring.len (rx_buffer s))%nat → may_recv s = true →
  RingSpec.holds (rx_buffer s) rb (drop n (RingSpec.contents (rx_buffer s))) → RingSpec.keeps_spare (rx_buffer s) rb →
  took s n (update remote_seq_no (λ _, as_i32 (remote_seq_no s + Z.of_nat n)) (update rx_buffer (λ _, rb) s)).
Proof.
  intros Hinv Hn Hmay Hh Hsp. constructor; try done. destruct Hinv as [Hrx Htx Hop Hli Hpe Hti].
  pose proof (took_len s n rb (rx_wf s Hrx) Hn Hh) as Hlen. destruct Hh as (Hwf & Hcap & Hq).
  split; [|inherit Htx| |inherit Hli|inherit Hpe|inherit Hti].
  - destruct Hrx as [H1 H2 H3 H4 H5 H6]. constructor; unfold rx_capacity, rx_free, RingSpec.free in *; fields; rewrite ?Hcap; try done.
    + intros x Hx. specialize (H5 x Hx). change (Ring.rlen rb) with (Ring.len rb). unfold Ring.len in *. lia.
    + apply as_i32_range.
  - intros Ho. destruct (Hop Ho) as (H1 & H2 & H3 & H4). unfold tx_len, rx_len in *. fields. split_and!; try done.
    rewrite Hlen. unfold Ring.len in *. lia.
Qed.
Lemma recv_error_check_rule s (Q : outcome RecvError () → Socket → Prop) :
  (may_recv s = true → Q (Ok ()) s) →
  (may_recv s = false → Q (Err (if rx_fin_received s then RecvFinished else RecvInvalidState)) s) →
  wp recv_error_check s Q.
Proof.
  intros H1 H2. unfold recv_error_check. wp_steps. destruct (may_recv s); cbn [negb]; wp_steps; [by apply H1|].
  destruct (rx_fin_received s); wp_steps; by apply H2.
Qed.
Lemma recv_slice_ok data s :
  tcp_inv s → wp (recv_slice data) s (λ r s',
    match r with
    | Ok (n, out) => took s n s' ∧ n = min (length data) (Ring.len (rx_buffer s)) ∧
        out = take n (RingSpec.contents (rx_buffer s)) ++ drop n data
    | Err e => may_recv s = false ∧ s' = s ∧ e = if rx_fin_received s then RecvFinished else RecvInvalidState
    | Panic => False
    end).
Proof.
  intros Hinv. unfold recv_slice, recv_impl. wp_step. apply recv_error_check_rule; [|done]. intros Hmay. cbv beta iota. wp_steps.
  pose proof (rx_wf s (inv_rx s Hinv)) as Hwf.
  destruct (RingSpec.dequeue_slice_spec (rx_buffer s) data Hwf) as (rb & Hrun & Hh).
  pose proof (RingSpec.dequeue_slice_keeps (rx_buffer s) data Hwf) as Hsp. rewrite Hrun in Hsp. cbn [snd] in Hsp.
  set (n := min _ _) in *. wp_call Hrun. wp_steps. fields.
  pose proof (rx_len_free s (inv_rx s Hinv)) as Hl. pose proof (rx_cap s (inv_rx s Hinv)).
  assert (n <= Ring.len (rx_buffer s))%nat as Hn by (unfold n, Ring.len; lia).
  rewrite seq_add_ok by (unfold i32_max, rx_len in *; lia). wp_steps. split; [|done]. by apply read_took.
Qed.
(** A socket that may not be read from has nothing to read. *)
Lemma unread_none s : tcp_inv s → may_recv s = false → RingSpec.contents (rx_buffer s) = [].
Proof.
  intros Hinv Hm. apply nil_length_inv. rewrite RingSpec.contents_length by apply Hinv.
  unfold may_recv, Ring.is_empty, Ring.len in Hm. destruct (Ring.rlen (rx_buffer s)); [done|]. by destruct (state s).
Qed.
