(* ===== verification/TcpStream.v ===== *)
(** * The stream a TCP socket receives

    Whatever segments of the remote end's stream arrive, in whatever order and
    however often, what the user reads is a prefix of that stream, and once the
    end of the stream is reported nothing of it is missing. *)
From stdpp Require Import prelude.
From S2P Require Import Prelude Wire SeqSpec TcpTimers Assembler AssemblerSpec RingBuffer RingSpec TcpSocket TcpProcess.
From S2P Require Import TcpDispatch TcpInv TcpReply TcpStages TcpMoves TcpAcks TcpReceive TcpSend TcpUser.
Open Scope Z_scope.

Lemma present_nonneg l x : AssemblerSpec.wf l → AssemblerSpec.present l x = true → 0 <= x.
Proof.
  intros (us & k & -> & Hg & _) Hx. rewrite AssemblerSpec.present_app_pad in Hx.
  destruct (Z.le_gt_cases 0 x) as [|Hn]; [done|]. by rewrite (AssemblerSpec.present_neg us x Hg Hn) in Hx.
Qed.

Section stream.
(** The octets of the remote end, and the sequence number of the first *)
Context (stream : list Z) (base : Z).
Implicit Types (s : Socket) (out : list Z) (repr : TcpRepr).

(** The position in the stream of the next sequence number expected; the end of
    the stream takes a sequence number of its own. *)
Definition position s out : Z := Z.of_nat (length out) + rx_len s + flag_len (rx_fin_received s).

(** A segment of the stream, less than 2^31 from the position: what it carries
    beyond the position is there in the stream. *)
Definition genuine (pos : Z) repr : Prop := ∃ p,
  seq_number repr = as_i32 (base + p) ∧ is_i32 (p - pos) ∧
  (∀ (i : nat) x, payload repr !! i = Some x → pos <= p + Z.of_nat i → stream !! Z.to_nat (p + Z.of_nat i) = Some x) ∧
  (control repr = Fin → p + plen repr = Z.of_nat (length stream)).
(** The end of the stream is sent only into the window. *)
Definition fin_fits s repr : Prop := control repr = Fin → distance s repr + plen repr <= rx_free s.

Record streaming s out : Prop := {
  st_seq : remote_seq_no s = as_i32 (base + (Z.of_nat (length out) + flag_len (rx_fin_received s)));
  st_out : out ++ RingSpec.contents (rx_buffer s) `prefix_of` stream;
  st_held : ∀ x, AssemblerSpec.present (assembler s) x = true → ∃ y,
    RingSpec.spare (rx_buffer s) !! Z.to_nat x = Some y ∧
    stream !! Z.to_nat (Z.of_nat (length out) + rx_len s + x) = Some y;
  st_fin : rx_fin_received s = true → Z.of_nat (length out) + rx_len s = Z.of_nat (length stream) }.

Lemma streaming_view s s' out : rx_view s' = rx_view s → streaming s out → streaming s' out.
Proof.
  intros Hv [H1 H2 H3 H4]. injection Hv as Hb Ha Hn Hf. unfold rx_len in *.
  constructor; unfold rx_len; rewrite ?Hb, ?Ha, ?Hn, ?Hf; done.
Qed.

(** ** Distances *)

Lemma distance_genuine s out repr p :
  streaming s out → seq_number repr = as_i32 (base + p) → is_i32 (p - position s out) →
  distance s repr = p - position s out.
Proof.
  intros [Hq _ _ _] Hs Hp. unfold distance, offset, expected. rewrite Hs, Hq.
  replace (as_i32 (base + p) - _) with
    (as_i32 (base + p) - as_i32 (base + (Z.of_nat (length out) + flag_len (rx_fin_received s))) + - rx_len s) by lia.
  rewrite <- as_i32_add, as_i32_dist, as_i32_add. rewrite <- (as_i32_id (p - position s out)) by done. f_equal.
  unfold position. lia.
Qed.
Lemma position_contents s out :
  rx_inv s → length (out ++ RingSpec.contents (rx_buffer s)) = Z.to_nat (Z.of_nat (length out) + rx_len s).
Proof.
  intros Hrx. rewrite length_app, RingSpec.contents_length by apply Hrx. unfold rx_len, Ring.len. lia.
Qed.
Lemma prefix_extend (pre l : list Z) n :
  pre `prefix_of` stream → (∀ i, (i < n)%nat → ∃ y, l !! i = Some y ∧ stream !! (length pre + i)%nat = Some y) →
  pre ++ take n l `prefix_of` stream.
Proof.
  intros [k ->] Hl. assert (take n l = take n k) as ->.
  { apply list_eq. intros i. destruct (decide (i < n)%nat) as [Hi|Hi].
    - rewrite !lookup_take_lt by done. destruct (Hl i Hi) as (y & -> & Hy). symmetry.
      rewrite lookup_app_r in Hy by lia. by replace (length pre + i - length pre)%nat with i in Hy by lia.
    - by rewrite !lookup_take_ge by lia. }
  exists (drop n k). by rewrite <- app_assoc, take_drop.
Qed.

(** ** Storing the part of a segment in the window *)

Lemma trimmed_fits s repr part o : trimmed s repr part o → 0 <= o ∧ o + Z.of_nat (length part) <= rx_free s.
Proof. intros (-> & Hhi & Hd & ->). unfold slice. rewrite length_take. lia. Qed.
Section segment.
Context (s : Socket) (out : list Z) (repr : TcpRepr) (part : list Z) (o : Z).
Context (Hinv : tcp_inv s) (Hst : streaming s out) (Hgen : genuine (position s out) repr).
Context (Htrim : trimmed s repr part o).

Lemma part_genuine i x :
  part !! i = Some x → stream !! Z.to_nat (position s out + o + Z.of_nat i) = Some x.
Proof.
  destruct Hgen as (p & Hs & Hp & Hpl & _). destruct Htrim as (Ho & Hhi & _ & ->).
  rewrite (distance_genuine s out repr p Hst Hs Hp) in *. rewrite RingSpec.slice_lookup.
  destruct (Nat.ltb_spec i (Z.to_nat (Z.min (rx_free s) (p - position s out + plen repr) - o))) as [Hi|]; [|done].
  intros Hx. apply Hpl in Hx; [|lia]. rewrite <- Hx. f_equal. lia.
Qed.
Lemma ended_part : rx_fin_received s = true → part = [].
Proof.
  intros Hf. pose proof (part_genuine 0) as Hx. destruct (part !! 0%nat) as [x|] eqn:E; [|by destruct part].
  specialize (Hx x eq_refl). apply lookup_lt_Some in Hx. pose proof (st_fin s out Hst Hf). destruct Htrim as (Ho & _).
  unfold position in Hx. rewrite Hf in Hx. cbn [flag_len] in Hx. lia.
Qed.
Lemma ended_no_fin : rx_fin_received s = true → control repr ≠ Fin.
Proof.
  intros Hf Hc. destruct Hgen as (p & Hs & Hp & _ & Hfin). specialize (Hfin Hc). pose proof (st_fin s out Hst Hf).
  destruct Htrim as (Ho & Hhi & _). rewrite (distance_genuine s out repr p Hst Hs Hp) in *.
  unfold position in *. rewrite Hf in *. cbn [flag_len] in *. lia.
Qed.

(** Every position that is present once the part is written holds its octet. *)
Lemma joined_genuine x :
  rx_fin_received s = false → AssemblerSpec.joined (assembler s) o (Z.of_nat (length part)) x = true → 0 <= x → ∃ y,
  splice (Z.to_nat o) part (RingSpec.spare (rx_buffer s)) !! Z.to_nat x = Some y ∧
  stream !! Z.to_nat (Z.of_nat (length out) + rx_len s + x) = Some y.
Proof.
  intros Hf Hj Hx. destruct (trimmed_fits s repr part o Htrim) as [Ho Hfit]. pose proof (inv_rx s Hinv) as Hrx.
  rewrite RingSpec.splice_lookup.
  2: { rewrite RingSpec.spare_length by apply Hrx. unfold rx_free in Hfit. lia. }
  unfold AssemblerSpec.joined, AssemblerSpec.in_range in Hj.
  destruct ((Z.to_nat o <=? Z.to_nat x)%nat && (Z.to_nat x <? Z.to_nat o + length part)%nat) eqn:Er.
  - apply andb_true_iff in Er as [E1%Nat.leb_le E2%Nat.ltb_lt].
    destruct (lookup_lt_is_Some_2 part (Z.to_nat x - Z.to_nat o)) as [y Hy]; [lia|]. exists y. split; [done|].
    rewrite <- (part_genuine _ _ Hy). f_equal. unfold position. rewrite Hf. cbn [flag_len]. lia.
  - apply (st_held s out Hst). apply orb_true_iff in Hj as [Hj|Hj]; [done|]. exfalso.
    apply andb_true_iff in Hj as [E1%Z.leb_le E2%Z.ltb_lt]. apply andb_false_iff in Er as [E3%Nat.leb_gt|E3%Nat.ltb_ge]; lia.
Qed.

(** The socket the part is placed in differs in the sequence number only. *)
Lemma placed_streaming s2 n s' fin :
  rx_fin_received s = false → rx_buffer s2 = rx_buffer s → assembler s2 = assembler s →
  remote_seq_no s2 = as_i32 (remote_seq_no s + flag_len fin) → rx_fin_received s2 = fin →
  (fin = true → Z.of_nat (length out) + rx_len s + n = Z.of_nat (length stream)) →
  placed s2 part o n s' → streaming s' out.
Proof.
  intros Hf Hb Ha Hq Hfin Hend [Hfr Hn Hc Hsp (Hs1 & Hs2 & _) Hinv']. rewrite Hb, Ha in *.
  destruct Hfr as (Hwf' & _ & Hn0 & Hin & Hout & Hsh).
  assert (rx_len s' = rx_len s + n) as Hlen.
  { unfold rx_len, rx_free, Ring.len in *. rewrite Hb in Hn. rewrite <- !RingSpec.contents_length by (apply Hinv || apply Hinv').
    rewrite Hc, length_app, length_take.
    destruct (trimmed_fits s repr part o Htrim) as [Ho Hfit]. unfold rx_free in Hfit.
    rewrite RingSpec.splice_length; rewrite RingSpec.spare_length by apply Hinv; lia. }
  constructor.
  - rewrite Hs1, Hq, Hs2, Hfin. rewrite (st_seq s out Hst), Hf. cbn [flag_len]. rewrite as_i32_add. f_equal. lia.
  - rewrite Hc, app_assoc. apply prefix_extend; [apply Hst|]. intros i Hi. rewrite position_contents by apply Hinv.
    destruct (joined_genuine (Z.of_nat i)) as (y & Hy1 & Hy2); [done|apply Hin; lia|lia|]. exists y.
    rewrite Nat2Z.id in Hy1. split; [done|]. rewrite <- Hy2. f_equal. unfold rx_len. lia.
  - intros x Hx. assert (0 <= x) as Hx0 by (by apply (present_nonneg (assembler s'))). rewrite Hsh in Hx by done.
    destruct (joined_genuine (x + n)) as (y & Hy1 & Hy2); [done|done|lia|]. exists y.
    rewrite Hsp, lookup_drop, Hlen. split; [rewrite <- Hy1|rewrite <- Hy2]; f_equal; lia.
  - rewrite Hs2, Hfin, Hlen. intros ->. rewrite <- Hend by done. lia.
Qed.

(** A FIN that is acted on ends the stream, and the part reaches its end. *)
Lemma fin_part :
  acted repr s = Fin → fin_fits s repr →
  rx_fin_received s = false ∧ o = 0 ∧ Z.of_nat (length out) + rx_len s + Z.of_nat (length part) = Z.of_nat (length stream).
Proof.
  intros Hact Hfit. destruct (acted_fin repr s Hact) as [Hc Hlt]. specialize (Hfit Hc).
  destruct (rx_fin_received s) eqn:Hf; [by destruct (ended_no_fin Hf)|]. split; [done|].
  destruct Hgen as (p & Hs & Hp & _ & Hfin). specialize (Hfin Hc).
  pose proof (distance_genuine s out repr p Hst Hs Hp) as Hd.
  assert (seq_number repr = as_i32 (expected s + distance s repr)) as Hq by (apply offset_eq; rewrite Hs; apply as_i32_range).
  assert (distance s repr <= 0) as Hd0.
  { destruct (Z.le_gt_cases (distance s repr) 0) as [|Hpos]; [done|].
    rewrite Hq in Hlt. rewrite <- (Z.add_0_r (expected s)) in Hlt at 1.
    rewrite rel_lt in Hlt by (rewrite Hd in *; unfold is_i32 in *; lia). apply Z.ltb_ge in Hlt. lia. }
  destruct Htrim as (Ho & Hhi & Hdl & Hpart). assert (o = 0) as -> by lia. split; [done|].
  rewrite Hpart. unfold slice. rewrite length_take, length_drop. unfold plen in *. rewrite Hd in *.
  unfold position in *. rewrite Hf in *. cbn [flag_len] in *. lia.
Qed.
End segment.

Lemma front_reaches s out (part : list Z) n l' :
  streaming s out → part ≠ [] → Z.of_nat (length out) + rx_len s + Z.of_nat (length part) = Z.of_nat (length stream) →
  AssemblerSpec.front_post (AssemblerSpec.joined (assembler s) 0 (Z.of_nat (length part))) (assembler s) n l' →
  n = Z.of_nat (length part).
Proof.
  intros Hst Hne Hlen (_ & _ & Hn & Hin & Hout & _). unfold AssemblerSpec.joined, AssemblerSpec.in_range in *.
  assert (0 < Z.of_nat (length part)) by (destruct part; [done|cbn; lia]).
  destruct (Z.lt_trichotomy n (Z.of_nat (length part))) as [Hlt|[->|Hgt]]; [|done|].
  - revert Hout. rewrite orb_false_iff, andb_false_iff, Z.leb_gt, Z.ltb_ge. lia.
  - specialize (Hin (Z.of_nat (length part)) ltac:(lia)). rewrite orb_true_iff, andb_true_iff, Z.ltb_lt in Hin.
    destruct Hin as [Hin|[_ ?]]; [|lia]. destruct (st_held s out Hst _ Hin) as (y & _ & Hy).
    apply lookup_lt_Some in Hy. lia.
Qed.

(** A segment of the stream keeps what was received a prefix of the stream. *)
Lemma processed_streaming s out repr s' :
  tcp_inv s → handshaking (state s) = false → streaming s out → genuine (position s out) repr → fin_fits s repr →
  processed s repr s' → streaming s' out.
Proof.
  intros Hinv Hh Hst Hgen Hfit [Hend|(part & o & acked & c & s1 & s2 & Ht)].
  { eapply streaming_view; [apply Hend|done]. }
  destruct Ht as [Hpart _ _ -> Hm Hset Hstore]. unfold took_part in Hpart. rewrite Hh in Hpart.
  pose proof (moved_recv _ _ _ _ _ Hm) as Hrecv. unfold recv_space in Hrecv. rewrite Hh in Hrecv. cbv zeta in Hrecv.
  set (fin := bool_decide (acted repr s = Fin)) in *. destruct Hrecv as [Hq Hf].
  destruct (moved_buffers _ _ _ _ _ Hm) as (Hb & Ha & _).
  pose proof (settled_view _ _ _ _ Hset) as Hv. injection Hv as Hv1 Hv2 Hv3 Hv4 _ _ _ _.
  rewrite Hb in Hv1. rewrite Ha in Hv2. rewrite Hq in Hv3. rewrite Hf in Hv4.
  assert (fin = true → acted repr s = Fin) as Hfin by apply bool_decide_eq_true_1.
  destruct (rx_fin_received s) eqn:Efin.
  { assert (fin = false) as Hf0.
    { destruct fin; [|done]. destruct (acted_fin repr s (Hfin eq_refl)) as [Hc _].
      by destruct (ended_no_fin s out repr part o Hst Hgen Hpart Efin). }
    assert (part = []) as -> by (by apply (ended_part s out repr part o)).
    destruct Hstore as [[(_ & Hrx & _) _]|[? _]]; [|done]. apply (streaming_view s); [|done].
    rewrite Hrx. unfold rx_view. rewrite Hv1, Hv2, Hv3, Hv4, Hf0, Efin. cbn [flag_len orb].
    by rewrite Z.add_0_r, as_i32_id by apply Hinv. }
  cbn [orb] in Hv4. assert (rx_len s2 = rx_len s) as Hl2 by (unfold rx_len; by rewrite Hv1).
  pose proof (fin_part s out repr part o Hst Hgen Hpart) as Hfp.
  destruct Hstore as [[(_ & Hrx & _) Hno]|[Hne [n Hpl]]].
  - apply (streaming_view s2); [done|]. destruct Hst as [H1 H2 H3 H4].
    constructor; rewrite ?Hl2, ?Hv1, ?Hv2, ?Hv3, ?Hv4; try done.
    + rewrite H1, Efin. cbn [flag_len]. rewrite as_i32_add. f_equal. lia.
    + intros ->. destruct (Hfp (Hfin eq_refl) Hfit) as (_ & Ho & Hlen). destruct Hno as [->|?]; [|done].
      cbn [length] in Hlen. lia.
  - eapply (placed_streaming s out repr part o Hinv Hst Hgen Hpart s2 n s' fin); try done.
    intros ->. destruct (Hfp (Hfin eq_refl) Hfit) as (_ & -> & Hlen). rewrite <- Hlen. f_equal.
    eapply front_reaches; [done|done|done|]. pose proof (placed_front _ _ _ _ _ Hpl) as H. by rewrite Hv2 in H.
Qed.

(** ** Reading *)

Lemma took_streaming s out n s' :
  tcp_inv s → streaming s out → took s n s' → streaming s' (out ++ take n (RingSpec.contents (rx_buffer s))).
Proof.
  intros Hinv [H1 H2 H3 H4] [_ Hn Hh Hsp Hq (Ha & Hf & _) Hinv'].
  pose proof (took_len s n (rx_buffer s') (rx_wf s (inv_rx s Hinv)) Hn Hh) as Hlen. destruct Hh as (Hwf & Hcap & Hc).
  assert (Z.of_nat (length (out ++ take n (RingSpec.contents (rx_buffer s)))) = Z.of_nat (length out) + Z.of_nat n) as Hout.
  { rewrite length_app, length_take, RingSpec.contents_length by apply Hinv. unfold Ring.len in *. lia. }
  assert (Z.of_nat (length out) + Z.of_nat n + rx_len s' = Z.of_nat (length out) + rx_len s) as Hpos.
  { unfold rx_len. rewrite Hlen. unfold Ring.len in *. lia. }
  constructor; rewrite ?Hout, ?Hpos, ?Hf.
  - rewrite Hq, H1, as_i32_add. f_equal. lia.
  - rewrite Hc, <- app_assoc, take_drop. done.
  - rewrite Ha. intros x Hx. destruct (H3 x Hx) as (y & Hy1 & Hy2). exists y. split; [|done].
    by eapply RingSpec.keeps_spare_lookup.
  - done.
Qed.
Lemma streaming_complete s out :
  rx_inv s → streaming s out → rx_fin_received s = true → out ++ RingSpec.contents (rx_buffer s) = stream.
Proof.
  intros Hrx Hst Hf. pose proof (st_fin s out Hst Hf) as Hl. destruct (st_out s out Hst) as [k Hk].
  assert (length k = 0%nat) as Hk0.
  { pose proof (position_contents s out Hrx) as Hp. rewrite Hk, !length_app in Hl. rewrite length_app in Hp. lia. }
  apply nil_length_inv in Hk0 as ->. by rewrite app_nil_r in Hk.
Qed.

(** ** One connection, step by step *)

(** What the interface guarantees of a segment it hands over *)
Record arrives (cx : Context) (ip : IpRepr) repr s : Prop := {
  arr_context : context_ok cx;
  arr_ip : ip_ok ip;
  arr_repr : repr_ok repr;
  arr_fresh : sample_fresh (now cx) (rtte s);
  arr_accepts : accepts ip repr s = true }.

Definition read_octets (r : outcome RecvError (nat * list Z)) : list Z :=
  match r with Ok (n, buf) => take n buf | _ => [] end.

(** The segments of this connection arrive, the user reads, writes and closes,
    and the interface polls the socket, in any order. *)
Inductive step : Socket * list Z → Socket * list Z → Prop :=
| step_arrive s out cx ip repr x s' :
    arrives cx ip repr s → handshaking (state s) = false →
    genuine (position s out) repr → fin_fits s repr →
    process cx ip repr s = (Ok x, s') → step (s, out) (s', out)
| step_read s out buf r s' :
    recv_slice buf s = (r, s') → step (s, out) (s', out ++ read_octets r)
| step_write s out data r s' :
    send_slice data s = (r, s') → step (s, out) (s', out)
| step_close s out r s' :
    close s = (r, s') → step (s, out) (s', out)
| step_poll {E} s out cx (emit : segment → option E) r s' :
    context_ok cx → dispatch cx emit s = (r, s') → r ≠ Panic → step (s, out) (s', out).

(** A socket that no longer belongs to the connection *)
Record gone s out : Prop := {
  gone_state : state s = Closed ∨ state s = Listen;
  gone_rx : rx_len s = 0 ∧ rx_fin_received s = false;
  gone_out : out `prefix_of` stream }.
Definition receiving (c : Socket * list Z) : Prop :=
  tcp_inv c.1 ∧ ((streaming c.1 c.2 ∧ handshaking (state c.1) = false) ∨ gone c.1 c.2).

Lemma edge_handshaking st st' : edge st st' = true → handshaking st = false → handshaking st' = true → st' = Listen.
Proof. by destruct st, st'. Qed.
Lemma streaming_prefix s out : streaming s out → out `prefix_of` stream.
Proof. intros H. eapply prefix_app_l, H. Qed.
Lemma receiving_view s s' out :
  tcp_inv s' → receiving (s, out) → rx_view s' = rx_view s → state s' = state s ∨ state s' = Closed → receiving (s', out).
Proof.
  intros Hinv' [_ [[Hst Hh]|[Hg (Hl & Hf) Ho]]] Hv Hs; (split; [done|]); cbn [fst snd] in *.
  - left. split; [by eapply streaming_view|]. destruct Hs as [-> | ->]; done.
  - right. injection Hv as Hb _ _ Hff. unfold rx_len in *. constructor; unfold rx_len; rewrite ?Hb, ?Hff; [|done..].
    destruct Hs as [-> | ->]; auto.
Qed.
Lemma arrive_receiving s out cx ip repr x s' :
  arrives cx ip repr s → handshaking (state s) = false → genuine (position s out) repr → fin_fits s repr →
  process cx ip repr s = (Ok x, s') → receiving (s, out) → receiving (s', out).
Proof.
  intros [Hcx Hip Hr Hfr Hacc] Hh Hgen Hfit Hrun [Hinv [[Hst _]|[Hg _ _]]]; cbn [fst snd] in *.
  2: { unfold accepts in Hacc. destruct Hg as [E|E]; rewrite E in *; done. }
  destruct (process_done cx ip repr Hcx Hip Hr s x s' Hinv Hfr Hacc Hrun) as [_ Hp].
  pose proof (processed_inv _ _ _ Hp) as Hinv'. split; [done|]. cbn [fst snd].
  pose proof (processed_streaming s out repr s' Hinv Hh Hst Hgen Hfit Hp) as Hst'.
  destruct (handshaking (state s')) eqn:Hh'; [right|by left].
  pose proof (edge_handshaking _ _ (processed_edge _ _ _ Hp) Hh Hh') as E.
  destruct (inv_opening s' Hinv') as (_ & Hl & _ & Hf); [by left|]. constructor; [by right|done|by eapply streaming_prefix].
Qed.
Lemma take_read n (l data : list Z) : (n <= length l)%nat → take n (take n l ++ drop n data) = take n l.
Proof. intros. rewrite take_app_le by (rewrite length_take; lia). rewrite take_take. f_equal. lia. Qed.
Lemma read_receiving s out buf r s' :
  recv_slice buf s = (r, s') → receiving (s, out) → receiving (s', out ++ read_octets r).
Proof.
  intros Hrun [Hinv Hrec]. pose proof (recv_slice_ok buf s Hinv) as Hp. unfold wp in Hp. rewrite Hrun in Hp. cbn [fst snd] in *.
  destruct r as [[n got]|e|]; cbn [read_octets]; [|destruct Hp as (_ & -> & _); rewrite app_nil_r; by split|done].
  destruct Hp as (Ht & Hn & ->). split; [apply Ht|]. cbn [fst snd].
  destruct Hrec as [[Hst Hh]|[Hg [Hl _] _]].
  - left. rewrite take_read by (rewrite RingSpec.contents_length by apply Hinv; unfold Ring.len in *; lia).
    split; [by apply took_streaming|]. destruct (took_same _ _ _ Ht) as (_ & _ & Hx & _). injection Hx as -> _. done.
  - pose proof (took_may _ _ _ Ht) as Hm. unfold may_recv, Ring.is_empty in Hm. unfold rx_len in Hl.
    assert (Ring.len (rx_buffer s) = 0%nat) as E by lia. rewrite E in Hm. destruct Hg as [G|G]; by rewrite G in Hm.
Qed.
Lemma write_receiving s out data r s' : send_slice data s = (r, s') → receiving (s, out) → receiving (s', out).
Proof.
  intros Hrun Hrec. pose proof Hrec as [Hinv _]. pose proof (send_slice_ok data s Hinv) as Hp. unfold wp in Hp.
  rewrite Hrun in Hp. cbn [fst snd] in *. destruct r as [n|e|]; [|by destruct Hp as [_ ->]|done].
  destruct Hp as [_ _ _ (Hv & _ & Hs & _) Hinv']. eapply receiving_view; eauto.
Qed.
Lemma close_receiving s out r s' : close s = (r, s') → receiving (s, out) → receiving (s', out).
Proof.
  rewrite close_run. intros H Hrec. injection H as <- <-. destruct Hrec as [Hinv Hrec]. split; [by apply close_inv|]. cbn [fst snd] in *.
  destruct Hrec as [[Hst Hh]|[Hg Hl Ho]].
  - left. split; [by apply (streaming_view s)|]. fields. by destruct (state s).
  - right. constructor; fields; [|done..]. destruct Hg as [-> | ->]; by left.
Qed.
Lemma poll_receiving {E} s out cx (emit : segment → option E) r s' :
  context_ok cx → dispatch cx emit s = (r, s') → r ≠ Panic → receiving (s, out) → receiving (s', out).
Proof.
  intros Hcx Hrun Hr Hrec. pose proof Hrec as [Hinv Hcase]. pose proof (dispatch_ok cx emit Hcx s Hinv) as Hp. unfold wp in Hp.
  rewrite Hrun in Hp. cbn [fst snd] in *. pose proof (dispatched_inv cx s r s' Hinv Hr Hp) as Hinv'.
  destruct (dispatched_rx cx s r s' Hr Hp) as [[Hv Hs]|(s1 & _ & [_ [Hc _] (Hl & Hf & _) _ _])].
  - by eapply receiving_view.
  - split; [done|]. right. constructor; [by left|done|]. cbn [fst snd].
    destruct Hcase as [[Hst _]|[_ _ Ho]]; [by eapply streaming_prefix|done].
Qed.
Lemma step_receiving c c' : step c c' → receiving c → receiving c'.
Proof.
  destruct 1; intros; [eapply arrive_receiving|eapply read_receiving|eapply write_receiving|eapply close_receiving|
    eapply poll_receiving]; eassumption.
Qed.
Lemma steps_receiving c c' : rtc step c c' → receiving c → receiving c'.
Proof. induction 1; eauto using step_receiving. Qed.
End stream.

(** A socket that has just synchronized with the remote end *)
Record synchronized (s : Socket) : Prop := {
  sync_inv : tcp_inv s;
  sync_state : handshaking (state s) = false;
  sync_empty : rx_len s = 0 ∧ rx_fin_received s = false ∧ (∀ x, AssemblerSpec.present (assembler s) x = false) }.
Lemma synchronized_receiving stream s : synchronized s → receiving stream (remote_seq_no s) (s, []).
Proof.
  intros [Hinv Hh (Hl & Hf & Hp)]. split; [done|]. left. split; [|done]. cbn [fst snd].
  assert (RingSpec.contents (rx_buffer s) = []) as Hc.
  { apply nil_length_inv. rewrite RingSpec.contents_length by apply Hinv. unfold rx_len, Ring.len in Hl. lia. }
  constructor; cbn [length].
  - rewrite Hf. cbn [flag_len]. rewrite Z.add_0_r, as_i32_id; [done|apply Hinv].
  - rewrite Hc. apply prefix_nil.
  - intros x. by rewrite Hp.
  - by rewrite Hf.
Qed.
