(* ===== verification/TcpNetwork.v ===== *)
(** * Two TCP sockets and the network between them

    The sender's segments go on a wire that may lose, repeat and reorder them.
    Whatever happens there, the receiver's user reads a prefix of what the
    sender's user wrote. *)
From stdpp Require Import prelude.
From S2P Require Import Prelude Wire SeqSpec TcpTimers Assembler AssemblerSpec RingBuffer RingSpec TcpSocket TcpProcess.
From S2P Require Import TcpDispatch TcpInv TcpReply TcpStages TcpMoves TcpAcks TcpReceive TcpSend TcpUser TcpStream.
Open Scope Z_scope.

(** ** The sender *)

(** What was written is what was acknowledged and then what is in the buffer,
    which starts at the first unacknowledged sequence number. *)
Definition sending (iss : Z) (s : Socket) (w : list Z) : Prop := ∃ acked,
  w = acked ++ RingSpec.contents (tx_buffer s) ∧
  (una_off (state s) = 0 → acked = []) ∧
  (synced (state s) → local_seq_no s = as_i32 (iss + (una_off (state s) + Z.of_nat (length acked)))).

Lemma sending_view iss s s' w :
  tx_buffer s' = tx_buffer s → local_seq_no s' = local_seq_no s → state s' = state s ∨ state s' = Closed →
  sending iss s w → sending iss s' w.
Proof.
  intros Hb Hu Hs (acked & Hw & H0 & Hq). exists acked. rewrite Hb. split; [done|].
  destruct Hs as [E|E]; rewrite E, Hu; [done|]. by split; [|intros [? _]].
Qed.
Lemma sending_stopped iss s s' w :
  tx_buffer s' = tx_buffer s → state s' = Closed ∨ state s' = Listen → sending iss s w → sending iss s' w.
Proof.
  intros Hb Hs (acked & Hw & _). exists acked. rewrite Hb. split; [done|].
  destruct Hs as [-> | ->]; (split; [done|]); by intros [? ?].
Qed.

Lemma taken_sending iss s repr s' part o acked c s1 s2 w :
  tcp_inv s → synced (state s) → sending iss s w → taken s repr s' part o acked c s1 s2 → sending iss s' w.
Proof.
  intros Hinv Hsy (l & -> & H0 & Hq) Ht. specialize (Hq Hsy).
  destruct (taken_state _ _ _ _ _ _ _ _ _ Ht) as (_ & Hst & Htx & Hun & _).
  destruct Ht as [_ Hacc Hcount -> Hm Hset _]. destruct (acted_control repr s) as (Hrst & _ & _).
  assert (control repr ≠ Rst) as Hnr by (intros E; by apply (moved_control _ _ _ _ _ Hm), Hrst).
  pose proof (counted_bound s repr acked Hnr Hcount) as Hn. destruct (moved_buffers _ _ _ _ _ Hm) as (_ & _ & Hb).
  pose proof (settled_tx _ _ _ _ Hset) as Hc. rewrite Hb in Hc.
  exists (l ++ take (Z.to_nat (ack_len acked)) (RingSpec.contents (tx_buffer s))). rewrite Htx, Hc.
  split; [by rewrite <- app_assoc, take_drop|]. rewrite Hst, Hun, (settled_una _ _ _ _ Hset).
  rewrite length_app, length_take, RingSpec.contents_length by apply Hinv.
  unfold tx_len, Ring.len in Hn. rewrite Nat.min_l by lia.
  pose proof (moved_flags _ _ _ _ _ Hm) as Hfl. unfold flags_acked, counted in *. specialize (Hacc Hnr).
  destruct (ack_number repr) as [a|]; cbn [default from_option id].
  - destruct (Hcount Hnr) as (k & (Ha & _ & Hk) & Hlen & _). destruct Hfl as [Ho Hfl].
    split; [unfold opening in Ho; destruct (state s1); try done; intros _; destruct Ho; auto|].
    intros Hsy1. specialize (Hfl (proj1 Hsy1)).
    rewrite Ha, Hq, as_i32_add, Hfl. f_equal. destruct (sent_syn s); [rewrite Hk by done; lia|].
    destruct (ack_of_fin acked); cbn [flag_len] in *; lia.
  - destruct Hcount as [-> _]. destruct Hacc as [E|[E _]]; [by destruct Hsy|]. destruct (Hfl E) as [-> ->].
    rewrite Hq, E in *. rewrite H0 by done. split; [done|]. intros _. f_equal.
Qed.
Lemma processed_sending iss s repr s' w :
  tcp_inv s → synced (state s) → sending iss s w → processed s repr s' → sending iss s' w.
Proof.
  intros Hinv Hsy Hw [[_ _ Hb [[Hs Hu]|Hs] _]|(part & o & acked & c & s1 & s2 & Ht)].
  - eapply sending_view; eauto.
  - by eapply sending_stopped.
  - by eapply taken_sending.
Qed.
Lemma ticked_sending iss s s' w : ticked s s' → sending iss s w → sending iss s' w.
Proof. intros [_ _ [Hb Hu] Hs _ _ _ _]. by apply sending_view. Qed.
Lemma reset_sending iss s s' w : was_reset s s' → sending iss s w → sending iss s' w.
Proof.
  intros [Hinv [Hs _] _ Hl _] _. exists w. assert (RingSpec.contents (tx_buffer s') = []) as ->.
  { apply nil_length_inv. rewrite RingSpec.contents_length by apply Hinv. unfold tx_len, Ring.len in Hl. lia. }
  rewrite app_nil_r. split; [done|]. rewrite Hs. by split; [|intros [? _]].
Qed.
Lemma dispatched_sending {E} iss cx s (r : outcome E (option segment)) s' w :
  r ≠ Panic → dispatched cx s r s' → sending iss s w → sending iss s' w.
Proof.
  intros Hr Hd Hw. destruct r as [[seg|]|e|]; [| |by eapply ticked_sending|done].
  - destruct Hd as (s1 & p & al & Ht & _ & Hrec). destruct (recorded_view _ _ _ _ Hrec) as (_ & Hs & Hb & Hu).
    eapply sending_view; [done|done|by left|by eapply ticked_sending].
  - destruct Hd as [Ht|(s1 & Ht & Hre)]; [by eapply ticked_sending|]. eapply reset_sending; [done|by eapply ticked_sending].
Qed.
Lemma close_sending iss s w :
  state s ≠ SynReceived → sending iss s w → sending iss (update state (λ _, next_closing (state s)) s) w.
Proof.
  intros Hs (acked & Hw & _ & Hq). exists acked. split; [done|]. fields. unfold synced in *.
  destruct (state s); cbn [next_closing una_off] in *; (split; [done|]); try done; try (by intros []); intros _; by rewrite Hq.
Qed.
Lemma wrote_sending iss s data n s' w : wrote s data n s' → sending iss s w → sending iss s' (w ++ take n data).
Proof.
  intros [_ _ (_ & _ & Hc) (_ & _ & Hs & Hu & _) _] (acked & -> & H0 & Hq). exists acked. rewrite Hc, <- app_assoc.
  split; [done|]. by rewrite Hs, Hu.
Qed.

(** ** The wire *)

(** A segment that carries octets of [w] at their sequence numbers, or none *)
Definition carried (iss : Z) (w : list Z) (seg : segment) : Prop :=
  let r := seg.2 in
  (payload r = [] ∧ control r ≠ Fin ∧ (control r = Syn → seq_number r = iss)) ∨
  (∃ p : nat, seq_number r = as_i32 (iss + 1 + Z.of_nat p) ∧ payload r = slice p (length (payload r)) w ∧
     (p + length (payload r) <= length w)%nat ∧ control r ≠ Syn ∧
     (control r = Fin → (p + length (payload r) = length w)%nat)).
Lemma carried_extend iss w d seg : carried iss w seg → control seg.2 ≠ Fin → carried iss (w ++ d) seg.
Proof.
  intros [H|(p & H1 & H2 & H3 & H4 & _)] Hf; [by left|right]. exists p. rewrite length_app. split_and!; try done; [|lia].
  rewrite H2 at 1. unfold slice. rewrite drop_app_le by lia. rewrite take_app_le; [done|]. rewrite length_drop. lia.
Qed.
Lemma plain_carried iss w seg : plain_segment seg → carried iss w seg ∧ control seg.2 ≠ Fin.
Proof. intros (Hp & [Hc|Hc] & _); (split; [left|]); rewrite Hc; done. Qed.

(** The states of a sender whose user has closed *)
Definition finished (st : State) : bool :=
  match st with SynSent | SynReceived | Established | CloseWait => false | _ => true end.
Lemma slice_skip (l k : list Z) i n : slice (length l + i) n (l ++ k) = slice i n k.
Proof. unfold slice. by rewrite drop_app_add. Qed.
Lemma emitted_carried iss cx s w seg probe :
  tcp_inv s → is_i32 iss → sending iss s w → emitted cx s seg probe false →
  carried iss w seg ∧ (control seg.2 = Fin → finished (state s) = true).
Proof.
  intros Hinv Hi (l & -> & H0 & Hq) (t & _ & _ & _ & _ & k & [_ Hseq Hat _ _ _ Hc Hd _ _ _]). unfold carried.
  set (r := seg.2) in *. pose proof (RingSpec.contents_length (tx_buffer s) (tx_wf s (inv_tx s Hinv))) as Hcl.
  split; [|intros E; rewrite E in Hc; destruct Hc as [Hc _]; unfold sent_fin in Hc; by destruct (state s)].
  assert (∀ st, st = state s → data_state st = true → una_off st = 1) as Huo by (intros st _; by destruct st).
  destruct (decide (payload r = [] ∧ control r ≠ Fin)) as [[Hp Hf]|Hdata].
  { left. split_and!; [done|done|]. intros Hsyn. rewrite Hsyn in Hc. destruct Hc as (Hs & -> & _).
    assert (una_off (state s) = 0 ∧ synced (state s)) as [Hz Hsy].
    { clear - Hs. unfold sent_syn in Hs. unfold synced. by destruct (state s). }
    rewrite Hseq, Z.add_0_r, Hq by done.
    rewrite Hz, H0 by done. cbn [length]. replace (iss + (0 + Z.of_nat 0)) with iss by lia. by rewrite !as_i32_id by (rewrite ?as_i32_id; done). }
  assert (data_state (state s) = true) as Hds.
  { destruct (decide (payload r = [])) as [Hp|Hp]; [|apply (Hd Hp)]. destruct (control r); try (by destruct Hdata).
    destruct Hc as [Hc _]. unfold sent_fin in Hc. by destruct (state s). }
  pose proof (data_state_synced _ Hds) as Hsy. pose proof (in_flight s (inv_tx s Hinv) Hsy) as Hf.
  assert (0 <= k) as Hk by (destruct Hat as [->|[-> _]]; lia).
  right. exists (length l + Z.to_nat k)%nat. rewrite slice_skip, length_app, Hcl. unfold tx_len, plen, Ring.len in *. split_and!.
  - rewrite Hseq, Hq, as_i32_add by done. rewrite (Huo _ eq_refl Hds). f_equal. lia.
  - destruct (decide (payload r = [])) as [Hp|Hp]; [by rewrite Hp|apply (Hd Hp)].
  - destruct (decide (payload r = [])) as [Hp|Hp]; [|destruct (Hd Hp) as (_ & _ & _ & Hle & _); lia].
    destruct (control r); try (by destruct Hdata). rewrite Hp. cbn [length]. destruct Hc as [_ Hc]. rewrite Hp in Hc. cbn [length] in Hc. lia.
  - intros E. rewrite E in Hc. destruct Hc as (Hs & _). unfold sent_syn in Hs. by destruct (state s).
  - intros E. rewrite E in Hc. lia.
Qed.

(** ** The receiver *)

(** Before the handshake, during the connection, and after it *)
Inductive receiver_phase (iss : Z) (w : list Z) (s : Socket) (got : list Z) : Prop :=
| rcv_before : handshaking (state s) = true → got = [] → receiver_phase iss w s got
| rcv_during : streaming w (iss + 1) s got → handshaking (state s) = false → (opening (state s) → got = []) →
    receiver_phase iss w s got
| rcv_after : state s = Closed → rx_len s = 0 → rx_fin_received s = false → got `prefix_of` w →
    receiver_phase iss w s got.

Lemma streaming_extend w d base s got :
  rx_fin_received s = false → streaming w base s got → streaming (w ++ d) base s got.
Proof.
  intros Hf [H1 H2 H3 H4]. constructor; [done|by apply prefix_app_r| |by rewrite Hf].
  intros x Hx. destruct (H3 x Hx) as (y & Hy1 & Hy2). exists y. split; [done|]. by apply lookup_app_l_Some.
Qed.
Lemma phase_extend iss w d s got :
  rx_fin_received s = false → receiver_phase iss w s got → receiver_phase iss (w ++ d) s got.
Proof.
  intros Hf [H1 H2|H1 H2 H3|H1 H2 H3 H4]; [by apply rcv_before|apply rcv_during; [by apply streaming_extend|done..]|].
  apply rcv_after; try done. by apply prefix_app_r.
Qed.
Lemma phase_prefix iss w s got :
  tcp_inv s → receiver_phase iss w s got → got ++ RingSpec.contents (rx_buffer s) `prefix_of` w ∧
  (rx_fin_received s = true → got ++ RingSpec.contents (rx_buffer s) = w).
Proof.
  intros Hinv [H1 ->|H1 _ _|_ Hl Hf H4].
  - destruct (inv_opening s Hinv) as (_ & Hl & _ & Hf); [unfold opening; destruct (state s); auto; done|].
    rewrite Hf. split; [|done]. assert (RingSpec.contents (rx_buffer s) = []) as ->; [|by apply prefix_nil].
    apply nil_length_inv. rewrite RingSpec.contents_length by apply Hinv. unfold rx_len, Ring.len in Hl. lia.
  - split; [apply H1|]. eapply streaming_complete; [apply Hinv|done].
  - rewrite Hf. split; [|done]. assert (RingSpec.contents (rx_buffer s) = []) as ->; [|by rewrite app_nil_r].
    apply nil_length_inv. rewrite RingSpec.contents_length by apply Hinv. unfold rx_len, Ring.len in Hl. lia.
Qed.

(** A segment of the sender is one of the stream, as long as sequence numbers do
    not come round. *)
Lemma carried_genuine iss w s got seg :
  tcp_inv s → streaming w (iss + 1) s got → Z.of_nat (length w) < 2 ^ 31 - 1 → is_i32 (seq_number seg.2) → carried iss w seg →
  genuine w (iss + 1) (position s got) seg.2.
Proof.
  intros Hinv Hst Hlen Hi Hc. assert (0 <= position s got <= Z.of_nat (length w) + 1) as Hpos.
  { pose proof (prefix_length _ _ (st_out _ _ _ _ Hst)) as Hp. rewrite (position_contents s got (inv_rx s Hinv)) in Hp.
    unfold position. assert (0 <= rx_len s) by (unfold rx_len; lia). destruct (rx_fin_received s); cbn [flag_len]; lia. }
  destruct Hc as [(Hp & Hf & _)|(p & Hs & Hp & Hle & _ & Hf)].
  - exists (position s got + offset (iss + 1 + position s got) (seq_number seg.2)). split_and!.
    + rewrite Z.add_assoc. by apply offset_eq.
    + replace (position s got + _ - position s got) with (offset (iss + 1 + position s got) (seq_number seg.2)) by lia.
      apply offset_range.
    + intros i x. by rewrite Hp.
    + done.
  - exists (Z.of_nat p). split_and!; [done|unfold is_i32; lia| |intros E; unfold plen; specialize (Hf E); lia].
    intros i x Hx _. rewrite Hp, RingSpec.slice_lookup in Hx. destruct (_ <? _)%nat; [|done]. rewrite <- Hx. f_equal. lia.
Qed.

Lemma processed_fin s repr s' :
  processed s repr s' → rx_fin_received s' = true → rx_fin_received s = true ∨ control repr = Fin.
Proof.
  intros [He|(part & o & acked & c & s1 & s2 & [_ _ _ -> Hm Hset Hst])] Hf.
  { pose proof (ended_rx _ _ He) as Hv. injection Hv as _ _ _ Hv. left. congruence. }
  pose proof (settled_view _ _ _ _ Hset) as Hv. injection Hv as _ _ _ Hv _ _ _ _.
  assert (rx_fin_received s' = rx_fin_received s2) as Hs.
  { destruct Hst as [[(_ & Hrx & _) _]|[_ [n [_ _ _ _ (_ & ? & _) _]]]]; [by injection Hrx|done]. }
  pose proof (moved_recv _ _ _ _ _ Hm) as Hr. unfold recv_space in Hr. destruct (handshaking (state s)).
  - destruct Hr as [_ Hr]. left. congruence.
  - destruct Hr as [_ Hr]. rewrite Hs, Hv, Hr in Hf. apply orb_true_iff in Hf as [Hf|Hf]; [by left|right].
    apply bool_decide_eq_true in Hf. by apply (acted_fin repr s).
Qed.

Lemma handshaking_opening st : handshaking st = true → opening st.
Proof. unfold opening. destruct st; auto; done. Qed.
Lemma opening_quiet s : tcp_inv s → opening (state s) → rx_len s = 0 ∧ rx_fin_received s = false ∧ may_recv s = false.
Proof.
  intros Hinv Ho. destruct (inv_opening s Hinv Ho) as (_ & Hl & _ & Hf). split_and!; [done|done|].
  unfold may_recv, Ring.is_empty. unfold rx_len in Hl. replace (Ring.len (rx_buffer s)) with 0%nat by lia.
  unfold opening in Ho. destruct (state s); try done; by destruct Ho as [|[|]].
Qed.
Lemma got_prefix iss w s got : receiver_phase iss w s got → got `prefix_of` w.
Proof. intros [_ ->|H1 _ _|]; [apply prefix_nil|by eapply streaming_prefix|done]. Qed.

Section phases.
Context (iss : Z) (w : list Z) (s : Socket) (got : list Z).
Context (Hinv : tcp_inv s) (Hphase : receiver_phase iss w s got).

Lemma phase_view s' :
  rx_view s' = rx_view s → state s' = state s ∨ state s' = Closed → receiver_phase iss w s' got.
Proof.
  intros Hv Hs. pose proof Hv as Hv'. injection Hv' as Hb _ _ Hff.
  assert (rx_len s' = rx_len s) as Hl by (unfold rx_len; by rewrite Hb).
  destruct Hphase as [H1 H2|H1 H2 H3|H1 H2 H3 H4].
  - destruct Hs as [E|E]; [apply rcv_before; by rewrite ?E|].
    destruct (opening_quiet s Hinv (handshaking_opening _ H1)) as (Hr & Hf & _).
    apply rcv_after; [done|by rewrite Hl|by rewrite Hff|]. rewrite H2. apply prefix_nil.
  - apply rcv_during; [by apply (streaming_view w _ s)|by destruct Hs as [-> | ->]|].
    destruct Hs as [-> | ->]; [done|]. by intros [|[|]].
  - apply rcv_after; [by destruct Hs as [-> | ->]|by rewrite Hl|by rewrite Hff|done].
Qed.
Lemma phase_took n s' :
  took s n s' → receiver_phase iss w s' (got ++ take n (RingSpec.contents (rx_buffer s))).
Proof.
  intros Ht. pose proof (took_may _ _ _ Ht) as Hm. destruct (took_same _ _ _ Ht) as (_ & _ & Htx & _). injection Htx as Hst _ _ _.
  destruct Hphase as [H1 H2|H1 H2 H3|H1 H2 H3 H4].
  - destruct (opening_quiet s Hinv (handshaking_opening _ H1)) as (_ & _ & ?). congruence.
  - apply rcv_during; [by apply took_streaming|by rewrite Hst|]. rewrite Hst. intros Ho.
    destruct (opening_quiet s Hinv Ho) as (_ & _ & ?). congruence.
  - unfold may_recv, Ring.is_empty in Hm. unfold rx_len in H2. rewrite H1 in Hm.
    replace (Ring.len (rx_buffer s)) with 0%nat in Hm by lia. done.
Qed.
Lemma phase_close : receiver_phase iss w (update state (λ _, next_closing (state s)) s) got.
Proof.
  destruct (decide (handshaking (state s) = true)) as [Hh|Hh].
  { apply phase_view; [done|]. fields. right. by destruct (state s). }
  destruct Hphase as [H1 H2|H1 H2 H3|H1 H2 H3 H4]; [done| |apply rcv_after; fields; [by rewrite H1|done..]].
  apply rcv_during; [by apply (streaming_view w _ s)|fields; by destruct (state s)|]. fields.
  intros Ho. exfalso. clear - Ho. unfold opening in Ho. destruct (state s); by destruct Ho as [|[|]].
Qed.
Lemma phase_reset s1 s' : was_reset s1 s' → receiver_phase iss w s' got.
Proof. intros [_ [Hs _] (Hl & Hf & _) _ _]. apply rcv_after; try done. by eapply got_prefix. Qed.

Lemma phase_syn repr s' part o acked s1 s2 :
  handshaking (state s) = true → got = [] → (control repr = Syn → seq_number repr = iss) →
  taken s repr s' part o acked (acted repr s) s1 s2 → receiver_phase iss w s' got.
Proof.
  intros Hh Hg Hseq Ht. destruct (taken_state _ _ _ _ _ _ _ _ _ Ht) as (Hinv' & Hst & _).
  destruct Ht as [Hpart _ _ _ Hm Hset Hstore]. unfold took_part in Hpart. rewrite Hh in Hpart. destruct Hpart as [-> ->].
  destruct Hstore as [[(_ & Hrx & _) _]|[? _]]; [|done].
  destruct (acted_control repr s) as (_ & _ & Hsyn). specialize (Hseq (proj1 Hsyn (moved_syn _ _ _ _ _ Hm Hh))).
  pose proof (moved_recv _ _ _ _ _ Hm) as Hr. unfold recv_space in Hr. rewrite Hh in Hr. destruct Hr as [Hq Hf].
  destruct (moved_buffers _ _ _ _ _ Hm) as (Hb & Ha & _).
  pose proof (settled_view _ _ _ _ Hset) as Hv. injection Hv as Hv1 Hv2 Hv3 Hv4 _ _ _ _. injection Hrx as Hr1 Hr2 Hr3 Hr4.
  destruct (inv_opening s Hinv (handshaking_opening _ Hh)) as (_ & Hl0 & Hp0 & Hf0).
  destruct (handshaking (state s')) eqn:Hh'; [by apply rcv_before|]. apply rcv_during; [|done|done].
  assert (rx_buffer s' = rx_buffer s) as Eb by congruence.
  assert (rx_fin_received s' = false) as Ef by congruence.
  assert (RingSpec.contents (rx_buffer s') = []) as Ec.
  { rewrite Eb. apply nil_length_inv. rewrite RingSpec.contents_length by apply Hinv. unfold rx_len, Ring.len in Hl0. lia. }
  rewrite Hg. constructor.
  - rewrite Ef. cbn [flag_len length]. rewrite Hr3, Hv3, Hq, Hseq. f_equal. lia.
  - rewrite Ec. apply prefix_nil.
  - intros x Hx. assert (assembler s' = assembler s) as Ea by congruence. rewrite Ea, Hp0 in Hx. done.
  - by rewrite Ef.
Qed.
Lemma phase_processed repr s' :
  state s ≠ Closed → (control repr = Syn → seq_number repr = iss ∨ handshaking (state s) = false) →
  (streaming w (iss + 1) s got → genuine w (iss + 1) (position s got) repr) → fin_fits s repr →
  processed s repr s' → receiver_phase iss w s' got.
Proof.
  intros Hcl Hseq Hgen Hfit Hp. pose proof (processed_edge _ _ _ Hp) as He. pose proof (processed_inv _ _ _ Hp) as Hinv'.
  destruct Hphase as [H1 H2|H1 H2 H3|H1 H2 H3 H4]; [| |done].
  - destruct Hp as [[_ Hrx _ Hun _]|(part & o & acked & c & s1 & s2 & Ht)].
    + destruct Hun as [[Hs _]|[Hs|Hs]]; [apply phase_view; auto|apply phase_view; auto|]. by apply rcv_before; [rewrite Hs|].
    + pose proof (taken_control _ _ _ _ _ _ _ _ _ Ht) as ->. eapply phase_syn; try done.
      intros Hsyn. destruct (Hseq Hsyn); congruence.
  - pose proof (processed_streaming w _ s got repr s' Hinv H2 H1 (Hgen H1) Hfit Hp) as Hst'.
    destruct (handshaking (state s')) eqn:Hh'.
    + apply rcv_before; [done|]. apply H3. pose proof (edge_handshaking _ _ He H2 Hh') as E. rewrite E in He.
      unfold opening. destruct (state s); auto; done.
    + apply rcv_during; [done|done|]. intros Ho. apply H3. unfold opening in *.
      destruct (state s'); destruct Ho as [|[|]]; try done; destruct (state s); auto; done.
Qed.
End phases.

(** ** The system *)

Record config := MkConfig { sender : Socket; receiver : Socket; wire : list segment; written : list Z; got : list Z }.

(** No keep-alive is due: its octet is none that the user wrote. *)
Definition no_keep_alive (cx : Context) (s : Socket) : Prop :=
  keep_alive s = None ∧ Timer.should_keep_alive (now cx) (timer s) = false.
Definition emitted_segments {E} (r : outcome E (option segment)) : list segment :=
  match r with Ok (Some seg) => [seg] | _ => [] end.
Definition accepted_octets (data : list Z) (r : outcome SendError nat) : list Z :=
  match r with Ok n => take n data | _ => [] end.

(** The sender writes, closes, reads, is polled, and receives any segments at all;
    the receiver receives segments that are on the wire, and does the rest too. A
    segment stays on the wire, so it may arrive any number of times or never. *)
Inductive hop : config → config → Prop :=
| hop_write a a' b ws w g data r :
    send_slice data a = (r, a') →
    hop (MkConfig a b ws w g) (MkConfig a' b ws (w ++ accepted_octets data r) g)
| hop_close a a' b ws w g r :
    state a ≠ SynReceived → close a = (r, a') →
    hop (MkConfig a b ws w g) (MkConfig a' b ws w g)
| hop_sender_read a a' b ws w g buf r :
    recv_slice buf a = (r, a') →
    hop (MkConfig a b ws w g) (MkConfig a' b ws w g)
| hop_send {E} a a' b ws w g cx (emit : segment → option E) r :
    context_ok cx → no_keep_alive cx a → dispatch cx emit a = (r, a') → r ≠ Panic →
    hop (MkConfig a b ws w g) (MkConfig a' b (emitted_segments r ++ ws) w g)
| hop_answer a a' b ws w g cx ip repr x :
    arrives cx ip repr a → state a ≠ Listen → process cx ip repr a = (Ok x, a') →
    hop (MkConfig a b ws w g) (MkConfig a' b (emitted_segments (E := Empty_set) (Ok x) ++ ws) w g)
| hop_receive a b b' ws w g cx seg x :
    seg ∈ ws → arrives cx seg.1 seg.2 b → fin_fits b seg.2 → process cx seg.1 seg.2 b = (Ok x, b') →
    hop (MkConfig a b ws w g) (MkConfig a b' ws w g)
| hop_read a b b' ws w g buf r :
    recv_slice buf b = (r, b') →
    hop (MkConfig a b ws w g) (MkConfig a b' ws w (g ++ read_octets r))
| hop_receiver_write a b b' ws w g data r :
    send_slice data b = (r, b') →
    hop (MkConfig a b ws w g) (MkConfig a b' ws w g)
| hop_receiver_close a b b' ws w g r :
    close b = (r, b') →
    hop (MkConfig a b ws w g) (MkConfig a b' ws w g)
| hop_receiver_send {E} a b b' ws w g cx (emit : segment → option E) r :
    context_ok cx → dispatch cx emit b = (r, b') → r ≠ Panic →
    hop (MkConfig a b ws w g) (MkConfig a b' ws w g).

(** Both sockets at the start of the handshake, and nothing sent yet *)
Record starting (c : config) : Prop := {
  start_sender : tcp_inv (sender c) ∧ (state (sender c) = SynSent ∨ state (sender c) = SynReceived);
  start_receiver : tcp_inv (receiver c) ∧ handshaking (state (receiver c)) = true;
  start_empty : wire c = [] ∧ written c = [] ∧ got c = [] }.

(** What holds all along the connection *)
Record linked (iss : Z) (c : config) : Prop := {
  link_iss : is_i32 iss;
  link_sender : tcp_inv (sender c);
  link_sending : sending iss (sender c) (written c);
  link_receiver : tcp_inv (receiver c);
  link_phase : receiver_phase iss (written c) (receiver c) (got c);
  link_wire : ∀ seg, seg ∈ wire c → carried iss (written c) seg;
  link_fin : ∀ seg, seg ∈ wire c → control seg.2 = Fin → finished (state (sender c)) = true;
  link_end : rx_fin_received (receiver c) = true → finished (state (sender c)) = true }.

Lemma starting_linked c : starting c → linked (local_seq_no (sender c)) c.
Proof.
  intros [[Hi1 Hs] [Hi2 Hh] (Hw & Hwr & Hg)]. destruct (inv_opening _ Hi1) as (Hl & _); [unfold opening; tauto|].
  assert (RingSpec.contents (tx_buffer (sender c)) = []) as Hc.
  { apply nil_length_inv. rewrite RingSpec.contents_length by apply Hi1. unfold tx_len, Ring.len in Hl. lia. }
  constructor; try done; rewrite ?Hw, ?Hwr, ?Hg; try set_solver.
  - apply Hi1.
  - exists []. rewrite Hc. split_and!; [done|done|]. intros _. cbn [length].
    replace (una_off (state (sender c))) with 0 by (by destruct Hs as [-> | ->]).
    rewrite Z.add_0_r, as_i32_id; [done|apply Hi1].
  - by apply rcv_before.
  - destruct (opening_quiet _ Hi2 (handshaking_opening _ Hh)) as (_ & -> & _). done.
Qed.

Section hops.
Context (iss : Z).
Lemma linked_sender a a' b ws w g :
  linked iss (MkConfig a b ws w g) → tcp_inv a' → sending iss a' w →
  (finished (state a) = true → finished (state a') = true) → linked iss (MkConfig a' b ws w g).
Proof. intros [H1 _ _ H4 H5 H6 H7 H8] Hinv Hs Hf. constructor; try done; cbn in *; eauto. Qed.
Lemma linked_wire a b new ws w g :
  linked iss (MkConfig a b ws w g) →
  (∀ seg, seg ∈ new → carried iss w seg ∧ (control seg.2 = Fin → finished (state a) = true)) →
  linked iss (MkConfig a b (new ++ ws) w g).
Proof.
  intros [H1 H2 H3 H4 H5 H6 H7 H8] Hnew. constructor; try done; cbn in *; intros seg [Hin|Hin]%elem_of_app; eauto.
  - by apply Hnew.
  - by apply Hnew.
Qed.
Lemma linked_receiver a b b' ws w g g' :
  linked iss (MkConfig a b ws w g) → tcp_inv b' → receiver_phase iss w b' g' →
  (rx_fin_received b' = true → rx_fin_received b = true ∨ finished (state a) = true) → linked iss (MkConfig a b' ws w g').
Proof.
  intros [H1 H2 H3 H4 H5 H6 H7 H8] Hinv Hp Hf. constructor; try done; cbn in *.
  intros E. destruct (Hf E); auto.
Qed.

Lemma write_linked a a' b ws w g data r :
  send_slice data a = (r, a') → linked iss (MkConfig a b ws w g) →
  linked iss (MkConfig a' b ws (w ++ accepted_octets data r) g).
Proof.
  intros Hrun Hl. pose proof (send_slice_ok data a (link_sender _ _ Hl)) as Hp. unfold wp in Hp. rewrite Hrun in Hp. cbn [fst snd] in Hp.
  destruct r as [n|e|]; cbn [accepted_octets]; [|destruct Hp as [_ ->]; by rewrite app_nil_r|done].
  assert (finished (state a) = false) as Hnf.
  { pose proof (wrote_may _ _ _ _ Hp) as Hm. unfold may_send in Hm. by destruct (state a). }
  destruct Hl as [H1 H2 H3 H4 H5 H6 H7 H8]. cbn in *. constructor; cbn; try done.
  - apply Hp.
  - by eapply wrote_sending.
  - apply phase_extend; [|done]. destruct (rx_fin_received b); [|done]. rewrite H8 in Hnf; done.
  - intros seg Hin. apply carried_extend; [by apply H6|]. intros E. rewrite (H7 seg Hin E) in Hnf. done.
  - intros seg Hin E. by rewrite (H7 seg Hin E) in Hnf.
  - intros E. by rewrite (H8 E) in Hnf.
Qed.
Lemma close_linked a a' b ws w g r :
  state a ≠ SynReceived → close a = (r, a') → linked iss (MkConfig a b ws w g) → linked iss (MkConfig a' b ws w g).
Proof.
  rewrite close_run. intros Hs H Hl. injection H as <- <-. pose proof (link_sender _ _ Hl) as Hi. cbn in Hi.
  eapply linked_sender; [done|by apply close_inv|apply close_sending; [done|apply Hl]|]. fields. by destruct (state a).
Qed.
Lemma sender_read_linked a a' b ws w g buf r :
  recv_slice buf a = (r, a') → linked iss (MkConfig a b ws w g) → linked iss (MkConfig a' b ws w g).
Proof.
  intros Hrun Hl. pose proof (recv_slice_ok buf a (link_sender _ _ Hl)) as Hp. unfold wp in Hp. rewrite Hrun in Hp. cbn [fst snd] in Hp.
  destruct r as [[n got]|e|]; [|by destruct Hp as (_ & -> & _)|done]. destruct Hp as (Ht & _).
  destruct (took_same _ _ _ Ht) as (_ & _ & Htx & _). injection Htx as Hs Hb Hu _.
  eapply linked_sender; [done|apply Ht|eapply sending_view; [done|done|by left|apply Hl]|by rewrite Hs].
Qed.
Lemma finished_edge st st' : st ≠ Listen → edge st st' = true → finished st = true → finished st' = true.
Proof. by destruct st, st'. Qed.
Lemma ticked_finished s s' : ticked s s' → finished (state s) = true → finished (state s') = true.
Proof. intros [_ _ _ [-> | ->] _ _ _ _]; done. Qed.
Lemma send_linked {E} a a' b ws w g cx (emit : segment → option E) r :
  context_ok cx → no_keep_alive cx a → dispatch cx emit a = (r, a') → r ≠ Panic →
  linked iss (MkConfig a b ws w g) → linked iss (MkConfig a' b (emitted_segments r ++ ws) w g).
Proof.
  intros Hcx [Hka Hdue] Hrun Hr Hl. pose proof (link_sender _ _ Hl) as Hi. pose proof (link_sending _ _ Hl) as Hse. cbn in Hi, Hse.
  pose proof (dispatch_ok cx emit Hcx a Hi) as Hp. unfold wp in Hp. rewrite Hrun in Hp. cbn [fst snd] in Hp.
  pose proof (dispatched_inv cx a r a' Hi Hr Hp) as Hi'. pose proof (dispatched_sending iss cx a r a' w Hr Hp Hse) as Hse'.
  apply linked_wire.
  - eapply linked_sender; [done|done|done|]. destruct r as [[seg|]|e|]; [| |by apply ticked_finished|done].
    + destruct Hp as (s1 & p & al & Ht & _ & Hrec). destruct (recorded_view _ _ _ _ Hrec) as (_ & -> & _). by apply ticked_finished.
    + destruct Hp as [Ht|(s1 & _ & [_ [-> _] _ _ _])]; [by apply ticked_finished|done].
  - intros seg Hin. destruct r as [[seg'|]|e|]; cbn in Hin; [|set_solver..]. assert (seg = seg') as -> by set_solver.
    destruct Hp as (s1 & p & al & Ht & Hem & Hrec). destruct (recorded_view _ _ _ _ Hrec) as (_ & Hs & _).
    assert (al = false) as ->.
    { destruct al; [|done]. destruct Hem as (t & _ & _ & _ & _ & _ & Hd & _).
      by rewrite (ticked_alive _ _ Ht Hka (now cx) Hdue) in Hd. }
    rewrite Hs. eapply emitted_carried; [apply Ht|apply Hl|by eapply ticked_sending|done].
Qed.
Lemma answer_linked a a' b ws w g cx ip repr x :
  arrives cx ip repr a → state a ≠ Listen → process cx ip repr a = (Ok x, a') →
  linked iss (MkConfig a b ws w g) → linked iss (MkConfig a' b (emitted_segments (E := Empty_set) (Ok x) ++ ws) w g).
Proof.
  intros [Hcx Hip Hr Hfr Hacc] Hnl Hrun Hl. pose proof (link_sender _ _ Hl) as Hi. pose proof (link_sending _ _ Hl) as Hse. cbn in Hi, Hse.
  destruct (process_done cx ip repr Hcx Hip Hr a x a' Hi Hfr Hacc Hrun) as [Hplain Hp].
  apply linked_wire.
  - eapply linked_sender; [done|by eapply processed_inv|eapply processed_sending; try done|].
    + split; [by eapply accepts_open|done].
    + apply finished_edge; [done|by eapply processed_edge].
  - intros seg Hin. destruct x as [seg'|]; cbn in Hin; [|set_solver]. assert (seg = seg') as -> by set_solver.
    destruct (plain_carried iss w seg' Hplain). done.
Qed.
Lemma receive_linked a b b' ws w g cx seg x :
  Z.of_nat (length w) < 2 ^ 31 - 1 → seg ∈ ws → arrives cx seg.1 seg.2 b → fin_fits b seg.2 →
  process cx seg.1 seg.2 b = (Ok x, b') → linked iss (MkConfig a b ws w g) → linked iss (MkConfig a b' ws w g).
Proof.
  intros Hlen Hin [Hcx Hip Hr Hfr Hacc] Hfit Hrun Hl. pose proof (link_receiver _ _ Hl) as Hi. cbn in Hi.
  destruct (process_done cx seg.1 seg.2 Hcx Hip Hr b x b' Hi Hfr Hacc Hrun) as [_ Hp].
  pose proof (link_wire _ _ Hl seg Hin) as Hc. cbn in Hc.
  eapply linked_receiver; [done|by eapply processed_inv|eapply phase_processed; try done|].
  - apply Hl.
  - by eapply accepts_open.
  - intros Hsyn. left. destruct Hc as [(_ & _ & Hc)|(p & _ & _ & _ & ? & _)]; [by apply Hc|done].
  - intros Hst. apply carried_genuine; try done. apply Hr.
  - intros Hf. destruct (processed_fin _ _ _ Hp Hf) as [|Hfin]; [by left|right]. by apply (link_fin _ _ Hl seg Hin).
Qed.
Lemma read_linked a b b' ws w g buf r :
  recv_slice buf b = (r, b') → linked iss (MkConfig a b ws w g) → linked iss (MkConfig a b' ws w (g ++ read_octets r)).
Proof.
  intros Hrun Hl. pose proof (link_receiver _ _ Hl) as Hi. pose proof (link_phase _ _ Hl) as Hph. cbn in Hi, Hph.
  pose proof (recv_slice_ok buf b Hi) as Hp. unfold wp in Hp. rewrite Hrun in Hp. cbn [fst snd] in Hp.
  destruct r as [[n out]|e|]; cbn [read_octets]; [|destruct Hp as (_ & -> & _); by rewrite app_nil_r|done].
  destruct Hp as (Ht & Hn & ->). rewrite take_read by (rewrite RingSpec.contents_length by apply Hi; unfold Ring.len in *; lia).
  eapply linked_receiver; [done|apply Ht|by apply phase_took|]. destruct (took_same _ _ _ Ht) as (_ & -> & _). by left.
Qed.
Lemma receiver_write_linked a b b' ws w g data r :
  send_slice data b = (r, b') → linked iss (MkConfig a b ws w g) → linked iss (MkConfig a b' ws w g).
Proof.
  intros Hrun Hl. pose proof (link_receiver _ _ Hl) as Hi. pose proof (link_phase _ _ Hl) as Hph. cbn in Hi, Hph.
  pose proof (send_slice_ok data b Hi) as Hp. unfold wp in Hp. rewrite Hrun in Hp. cbn [fst snd] in Hp.
  destruct r as [n|e|]; [|by destruct Hp as [_ ->]|done]. destruct (wrote_same _ _ _ _ Hp) as (Hv & _ & Hs & _).
  eapply linked_receiver; [done|apply Hp|by eapply phase_view; [..|left]|]. injection Hv as _ _ _ ->. by left.
Qed.
Lemma receiver_close_linked a b b' ws w g r :
  close b = (r, b') → linked iss (MkConfig a b ws w g) → linked iss (MkConfig a b' ws w g).
Proof.
  rewrite close_run. intros H Hl. injection H as <- <-. pose proof (link_receiver _ _ Hl) as Hi. cbn in Hi.
  eapply linked_receiver; [done|by apply close_inv|apply phase_close; [done|apply Hl]|by left].
Qed.
Lemma receiver_send_linked {E} a b b' ws w g cx (emit : segment → option E) r :
  context_ok cx → dispatch cx emit b = (r, b') → r ≠ Panic →
  linked iss (MkConfig a b ws w g) → linked iss (MkConfig a b' ws w g).
Proof.
  intros Hcx Hrun Hr Hl. pose proof (link_receiver _ _ Hl) as Hi. pose proof (link_phase _ _ Hl) as Hph. cbn in Hi, Hph.
  pose proof (dispatch_ok cx emit Hcx b Hi) as Hp. unfold wp in Hp. rewrite Hrun in Hp. cbn [fst snd] in Hp.
  pose proof (dispatched_inv cx b r b' Hi Hr Hp) as Hi'.
  destruct (dispatched_rx cx b r b' Hr Hp) as [[Hv Hs]|(s1 & _ & Hre)].
  - eapply linked_receiver; [done|done|by apply (phase_view iss w b g Hi Hph)|]. injection Hv as _ _ _ ->. by left.
  - eapply linked_receiver; [done|done|by eapply phase_reset|]. destruct Hre as [_ _ (_ & -> & _) _ _]. done.
Qed.
Lemma hop_linked c c' : hop c c' → Z.of_nat (length (written c)) < 2 ^ 31 - 1 → linked iss c → linked iss c'.
Proof.
  destruct 1; intros Hlen Hl; cbn in Hlen;
    [eapply write_linked|eapply close_linked|eapply sender_read_linked|eapply send_linked|eapply answer_linked|
     eapply receive_linked|eapply read_linked|eapply receiver_write_linked|eapply receiver_close_linked|
     eapply receiver_send_linked]; eassumption.
Qed.
Lemma hop_written c c' : hop c c' → (length (written c) <= length (written c'))%nat.
Proof. destruct 1; cbn; rewrite ?length_app; lia. Qed.
Lemma hops_linked c c' :
  rtc hop c c' → Z.of_nat (length (written c')) < 2 ^ 31 - 1 → linked iss c → linked iss c'.
Proof.
  intros Hr. induction Hr as [c|c1 c2 c3 Hs Hr IH]; [done|]. intros Hlen Hl. apply IH; [done|].
  apply (hop_linked c1); [done| |done]. assert (length (written c2) <= length (written c3))%nat as Hle.
  { clear - Hr. induction Hr as [|x y z H _ IH]; [done|]. pose proof (hop_written _ _ H). lia. }
  pose proof (hop_written _ _ Hs). lia.
Qed.
End hops.

(** What the receiver's user observes of a linked pair *)
Lemma linked_delivers iss c :
  linked iss c →
  got c ++ RingSpec.contents (rx_buffer (receiver c)) `prefix_of` written c ∧
  (∀ buf b', recv_slice buf (receiver c) = (Err RecvFinished, b') → got c = written c).
Proof.
  intros Hl. pose proof (link_receiver _ _ Hl) as Hi. destruct (phase_prefix _ _ _ _ Hi (link_phase _ _ Hl)) as [Hp Hend].
  split; [done|]. intros buf b' Hrun. pose proof (recv_slice_ok buf (receiver c) Hi) as Hrs. unfold wp in Hrs.
  rewrite Hrun in Hrs. destruct Hrs as (Hm & _ & He). destruct (rx_fin_received (receiver c)); [|done].
  rewrite <- Hend by done. rewrite (unread_none _ Hi Hm). by rewrite app_nil_r.
Qed.
