(* ===== verification/TcpLife.v ===== *)
(** * The life of a TCP socket

    Everything that can be done to a socket, as data: the calls of its user, the
    arrival of a segment and a poll of the interface. From its creation on, no
    sequence of them breaks the invariant or leaves the diagram of states. *)
From stdpp Require Import prelude.
From S2P Require Import Prelude Wire SeqSpec TcpTimers Assembler AssemblerSpec RingBuffer RingSpec TcpSocket TcpProcess.
From S2P Require Import TcpDispatch TcpInv TcpReply TcpStages TcpMoves TcpAcks TcpReceive TcpSend TcpUser TcpStream.
Open Scope Z_scope.

Inductive op :=
| OpTsval (g : option (nat → Z)) | OpCongestion (c : CongestionControl) | OpTimeout (d : option Z)
| OpAckDelay (d : option Z) | OpNagle (b : bool) | OpKeepAlive (d : option Z) | OpHopLimit (h : option Z)
| OpBind (e : IpListenEndpoint) | OpListen (e : IpListenEndpoint)
| OpConnect (cx : Context) (remote : IpEndpoint) (local : IpListenEndpoint)
| OpClose | OpAbort | OpSend (data : list Z) | OpRecv (buf : list Z) | OpPeek (n : nat) | OpPeekSlice (buf : list Z)
| OpProcess (cx : Context) (ip : IpRepr) (repr : TcpRepr)
| OpDispatch (cx : Context) (refused : bool).

(** The socket after a call, none if the call panicked *)
Definition survives {E A} (x : outcome E A * Socket) : option Socket :=
  match x with (Panic, _) => None | (_, s) => Some s end.
Definition run (o : op) (s : Socket) : option Socket :=
  match o with
  | OpTsval g => survives (set_tsval_generator g s)
  | OpCongestion c => survives (set_congestion_control c s)
  | OpTimeout d => survives (set_timeout d s)
  | OpAckDelay d => survives (set_ack_delay d s)
  | OpNagle b => survives (set_nagle_enabled b s)
  | OpKeepAlive d => survives (set_keep_alive d s)
  | OpHopLimit h => survives (set_hop_limit h s)
  | OpBind e => survives (set_bound_endpoint e s)
  | OpListen e => survives (listen e s)
  | OpConnect cx re le => survives (connect cx re le s)
  | OpClose => survives (close s)
  | OpAbort => survives (abort s)
  | OpSend data => survives (send_slice data s)
  | OpRecv buf => survives (recv_slice buf s)
  | OpPeek n => survives (peek n s)
  | OpPeekSlice buf => survives (peek_slice buf s)
  | OpProcess cx ip repr => survives (process cx ip repr s)
  | OpDispatch cx refused => survives (dispatch cx (λ _, if refused then Some () else None) s)
  end.
(** What a call may assume: durations and a hop limit in range, and a segment the
    interface has matched with the socket *)
Definition allowed (o : op) (s : Socket) : Prop :=
  match o with
  | OpTimeout d | OpAckDelay d | OpKeepAlive d => opt_all duration_ok d
  | OpHopLimit h => h ≠ Some 0
  | OpProcess cx ip repr => arrives cx ip repr s
  | OpDispatch cx _ => context_ok cx
  | _ => True
  end.
(** The two calls that can panic, and when: the answer to a segment where the
    receive window reaches sequence number 0, and a poll after the remote end has
    sent past the window last announced. *)
Definition exposed (o : op) (s : Socket) : Prop :=
  match o with
  | OpProcess _ _ _ => ¬ sack_safe s
  | OpDispatch _ _ => ¬ within_window s
  | _ => False
  end.
(** The edges the call may take: only a socket that is not open can be opened. *)
Definition moves (o : op) (st st' : State) : bool :=
  match o with
  | OpProcess _ _ _ | OpDispatch _ _ => edge st st'
  | OpListen _ =>
      bool_decide (st' = st) || bool_decide (st' = Listen) && (bool_decide (st = Closed) || bool_decide (st = TimeWait))
  | OpConnect _ _ _ =>
      bool_decide (st' = st) || bool_decide (st' = SynSent) && (bool_decide (st = Closed) || bool_decide (st = TimeWait))
  | OpClose => bool_decide (st' = next_closing st)
  | OpAbort => bool_decide (st' = Closed)
  | _ => bool_decide (st' = st)
  end.

Lemma edge_stay st st' : st' = st ∨ st' = Closed → edge st st' = true.
Proof. destruct 1 as [-> | ->]; by destruct st. Qed.
Lemma survives_wp {E A} (m : prog Socket E A) s (Q : Socket → Prop) :
  wp m s (λ r s', r ≠ Panic ∧ Q s') → ∃ s', survives (m s) = Some s' ∧ Q s'.
Proof. unfold wp. destruct (m s) as [[?|?|] s']; intros [? ?]; try done; by exists s'. Qed.
Lemma survives_unless {E A} (m : prog Socket E A) s (P : Prop) (Q : Socket → Prop) :
  wp m s (λ r s', (r = Panic ∧ P) ∨ (r ≠ Panic ∧ Q s')) →
  (∃ s', survives (m s) = Some s' ∧ Q s') ∨ (survives (m s) = None ∧ P).
Proof. unfold wp. destruct (m s) as [[?|?|] s']; intros [[? ?]|[? ?]]; try done; eauto. Qed.

(** Setting an option keeps the invariant and the state. *)
Definition option_op (o : op) : bool :=
  match o with
  | OpTsval _ | OpCongestion _ | OpTimeout _ | OpAckDelay _ | OpNagle _ | OpKeepAlive _ | OpHopLimit _ | OpBind _ => true
  | _ => false
  end.
Lemma set_keep_alive_run d s :
  set_keep_alive d s = (Ok (), update timer (λ _, match d, timer s with Some _, Timer.Idle None => Timer.Idle (Some 0) | _, t => t end)
    (update keep_alive (λ _, d) s)).
Proof. destruct s as [? t]. by destruct d, t as [[]| | | |]. Qed.
Lemma option_ok o s :
  option_op o = true → tcp_inv s → allowed o s → ∃ s', run o s = Some s' ∧ tcp_inv s' ∧ state s' = state s.
Proof.
  intros Ho [Hrx Htx Hop Hli Hpe Hti] Hal.
  destruct o as [g|c|d|d|b|d|h|e|e|cx re le| | |data|buf|n|buf|cx ip r|cx b]; try done; cbn [run allowed] in *; apply survives_wp.
  1-5: (unfold set_tsval_generator, set_congestion_control, set_timeout, set_ack_delay, set_nagle_enabled; wp_steps; split; [done|];
    split; [|done]; split; [inherit Hrx|inherit Htx|exact Hop|inherit Hli|inherit Hpe|destruct Hti; constructor; fields; done]).
  - assert (∀ t, timer_ok t → tcp_inv (update timer (λ _, t) (update keep_alive (λ _, d) s))) as Hgo.
    { intros t Ht. split; [inherit Hrx|inherit Htx|exact Hop|inherit Hli|inherit Hpe|destruct Hti; constructor; fields; done]. }
    pose proof (timer_is_ok s Hti) as Htm. eapply wp_eq; [apply set_keep_alive_run|]. split; [done|]. split; [apply Hgo|done].
    destruct d; [|done]. by destruct (timer s) as [[]| | | |].
  - unfold set_hop_limit. assert (wp (put hop_limit h : prog Socket Empty_set ()) s (λ r s', r ≠ Panic ∧ tcp_inv s' ∧ state s' = state s)) as Hgo.
    { wp_steps. split; [done|]. split; [|done]. split; [inherit Hrx|inherit Htx|exact Hop|inherit Hli|inherit Hpe|inherit Hti]. }
    by destruct h as [[]|].
  - unfold set_bound_endpoint. wp_steps. split; [done|]. split; [|done].
    split; [inherit Hrx|inherit Htx|exact Hop|inherit Hli|inherit Hpe|inherit Hti].
Qed.

(** The calls of the user *)
Lemma user_ok o s :
  tcp_inv s → allowed o s → match o with OpProcess _ _ _ | OpDispatch _ _ => false | _ => negb (option_op o) end = true →
  ∃ s', run o s = Some s' ∧ tcp_inv s' ∧ moves o (state s) (state s') = true.
Proof.
  intros Hinv Hal Ho. assert (bool_decide (state s = state s) = true) as Hst by (by apply bool_decide_eq_true).
  destruct o as [g|c|d|d|b|d|h|e|e|cx re le| | |data|buf|n|buf|cx ip r|cx b]; try done; cbn [run moves]; apply survives_wp.
  - eapply wp_mono; [by apply listen_ok|]. intros [[]|?|] s'; [|by intros ->; rewrite Hst|done].
    intros [[-> _]|[Hc ->]]; [by rewrite Hst|]. split; [done|]. split; [by apply opened_inv|]. unfold is_open in Hc. by destruct (state s).
  - eapply wp_mono; [by apply connect_ok|]. intros [[]|?|] s'; [|by intros ->; rewrite Hst|done].
    intros (Hc & Hi & t & iss & rs & -> & _). split; [done|]. split; [done|]. unfold is_open in Hc. by destruct (state s).
  - eapply wp_eq; [apply close_run|]. split; [done|]. split; [by apply close_inv|]. fields. by apply bool_decide_eq_true.
  - unfold abort, set_state. wp_steps. split; [done|]. split; [by apply abort_inv|]. by fields.
  - eapply wp_mono; [by apply send_slice_ok|]. intros [n|?|] s'; [|by intros [_ ->]|done].
    intros [_ _ _ (_ & _ & -> & _) Hi]. done.
  - eapply wp_mono; [by apply recv_slice_ok|]. intros [[n out]|?|] s'; [|by intros (_ & -> & _)|done].
    intros (Ht & _). split; [done|]. split; [apply Ht|]. destruct (took_same _ _ _ Ht) as (_ & _ & Hx & _). by injection Hx as -> _.
  - destruct (RingSpec.get_allocated_spec (rx_buffer s) 0 n (rx_wf s (inv_rx s Hinv))) as (m & Hrun & _); [lia|].
    unfold peek. wp_step. apply recv_error_check_rule; intros _; [|done]. cbv beta iota. wp_steps. wp_call Hrun.
    assert (update rx_buffer (λ _, rx_buffer s) s = s) as -> by (by destruct s). done.
  - pose proof (RingSpec.read_allocated_spec (rx_buffer s) 0 buf (rx_wf s (inv_rx s Hinv)) (Nat.le_0_l _)) as Hrun.
    unfold peek_slice. wp_steps. wp_call Hrun. assert (update rx_buffer (λ _, rx_buffer s) s = s) as -> by (by destruct s). done.
Qed.

Lemma was_reset_state s s' : was_reset s s' → state s' = Closed.
Proof. by intros [_ [? _] _ _ _]. Qed.
Lemma dispatched_state {E} cx s (r : outcome E (option segment)) s' :
  r ≠ Panic → dispatched cx s r s' → state s' = state s ∨ state s' = Closed.
Proof.
  intros Hr Hd. destruct (dispatched_rx cx s r s' Hr Hd) as [[_ H]|(s1 & _ & H)]; [done|]. right. by eapply was_reset_state.
Qed.

(** One call *)
Lemma run_ok o s :
  tcp_inv s → allowed o s →
  (∃ s', run o s = Some s' ∧ tcp_inv s' ∧ moves o (state s) (state s') = true) ∨ (run o s = None ∧ exposed o s).
Proof.
  intros Hinv Hal. destruct (option_op o) eqn:Ho.
  { left. destruct (option_ok o s Ho Hinv Hal) as (s' & Hr & Hi & Hs). exists s'. rewrite Hs.
    split_and!; [done|done|]. destruct o; try done; by apply bool_decide_eq_true. }
  destruct o as [g|c|d|d|b|d|h|e|e|cx re le| | |data|buf|n|buf|cx ip r|cx b]; try done; try (left; by apply user_ok).
  - cbn [run moves allowed] in *. apply survives_unless. destruct Hal as [Hcx Hip Hr Hfr Hacc].
    eapply wp_mono; [by apply process_ok|]. intros x s' [Hpan|[(y & -> & _) Hp]]; [by left|right].
    split; [done|]. split; [by eapply processed_inv|by eapply processed_edge].
  - cbn [run moves allowed] in *. apply survives_unless.
    eapply wp_mono; [by apply dispatch_ok|]. intros x s' Hd. cbv beta.
    assert (x = Panic ∨ x ≠ Panic) as [-> |Hx] by (destruct x; auto); [by left|right].
    split; [done|]. split; [by eapply dispatched_inv|]. by eapply edge_stay, dispatched_state.
Qed.

(** ** From the creation on *)

Inductive lives : list op → Socket → Socket → Prop :=
| lives_now s : lives [] s s
| lives_op o os s s1 s2 : allowed o s → run o s = Some s1 → lives os s1 s2 → lives (o :: os) s s2.
Lemma lives_inv os s s' : lives os s s' → tcp_inv s → tcp_inv s'.
Proof.
  induction 1 as [|o os s s1 s2 Ha Hr _ IH]; [done|]. intros Hinv. apply IH.
  destruct (run_ok o s Hinv Ha) as [(s1' & Hr' & Hi & _)|[? _]]; congruence.
Qed.

