(* ===== verification/TcpProgress.v ===== *)
(** * When a TCP socket is polled

    Polled before the time it asks for, a socket does nothing; polled when it has
    something to transmit, it emits a segment that advances the send sequence
    space. *)
From stdpp Require Import prelude.
From S2P Require Import Prelude Wire SeqSpec TcpTimers Assembler AssemblerSpec RingBuffer RingSpec TcpSocket TcpProcess.
From S2P Require Import TcpDispatch TcpInv TcpReply TcpStages TcpMoves TcpAcks TcpReceive TcpSend.
Open Scope Z_scope.

(** ** Polling early *)

(** The socket asks for no poll at [now] yet. *)
Definition later (now : Z) (p : PollAt) : bool :=
  match p with Now => false | Time t => now <? t | Ingress => true end.
Lemma later_min now a b : later now (poll_min a b) = later now a && later now b.
Proof.
  unfold poll_min. destruct a as [|t|], b as [|t'|]; cbn [poll_le]; try done; cbn [later].
  - by rewrite andb_false_r.
  - destruct (Z.leb_spec t t'); cbn [later]; split_zbool; try done; lia.
  - by rewrite andb_true_r.
Qed.
Lemma later_timer now t :
  later now (Timer.poll_at t) = true →
  Timer.should_keep_alive now t = false ∧ Timer.should_retransmit now t = false ∧
  Timer.should_zero_window_probe now t = false ∧ Timer.should_close now t = false.
Proof. destruct t as [[at_|]|at_| |at_ d|at_]; cbn; try done; rewrite Z.ltb_lt; intros; split_and!; try done; by apply Z.leb_gt. Qed.

(** What a socket that asks for a later poll answers when asked *)
Record idle {E} (cx : Context) (s : Socket) : Prop := {
  idle_started : is_Some (remote_last_ts s);
  idle_timeout : @timed_out E (now cx) s = Ok false;
  idle_data : @seq_to_transmit E cx s = Ok false;
  idle_ack : ∃ b, @ack_to_transmit E s = Ok b ∧ b && delayed_ack_expired (now cx) s = false;
  idle_window : @window_to_update E s = Ok false;
  idle_open : state s ≠ Closed;
  idle_timer : later (now cx) (Timer.poll_at (timer s)) = true }.
Lemma later_idle {E} cx s p :
  @poll_at E cx s = Ok p → later (now cx) p = true → is_Some (tuple s) → @idle E cx s.
Proof.
  unfold poll_at. intros Hp Hl [t Ht]. rewrite Ht in Hp. destruct (remote_last_ts s) as [last|] eqn:Ets; [|by injection Hp as <-].
  destruct (bool_decide_reflect (state s = Closed)); [by injection Hp as <-|].
  destruct (seq_to_transmit cx s) as [[]|?|] eqn:E1; cbn [mbind outcome_bind] in Hp; [by injection Hp as <-| |done..].
  destruct (window_to_update s) as [[]|?|] eqn:E2; cbn [mbind outcome_bind] in Hp; [by injection Hp as <-| |done..].
  destruct (ack_to_transmit s) as [b|?|] eqn:E3; cbn [mbind outcome_bind] in Hp; [|done..].
  destruct (match timeout s with Some t => _ | None => _ end) as [q|?|] eqn:E4; cbn [mbind outcome_bind] in Hp; [|done..].
  injection Hp as <-. rewrite !later_min in Hl. apply andb_true_iff in Hl as [[Hl1 Hl2]%andb_true_iff Hl3].
  constructor; try done; [|exists b; split; [done|]].
  - unfold timed_out. rewrite Ets. destruct (timeout s) as [d|]; [|done].
    destruct (Time.instant_add last d) as [lim|?|]; cbn [mbind outcome_bind] in E4 |- *; [|done..].
    injection E4 as <-. cbn in Hl2. f_equal. apply Z.ltb_lt in Hl2. by apply Z.leb_gt.
  - unfold delayed_ack_expired. destruct b; [|done]. destruct (ack_delay_timer s); try done. cbn in Hl3 |- *.
    apply Z.ltb_lt in Hl3. by apply Z.leb_gt.
Qed.
Lemma idle_dispatch {E} cx (emit : segment → option E) s :
  @idle (leave E) cx s → is_Some (tuple s) → dispatch cx emit s = (Ok None, s).
Proof.
  intros [[last Hts] Hto Hdata (b & Hack & Hexp) Hwin Hopen Htm] [t Ht]. destruct (later_timer _ _ Htm) as (Hk & Hre & Hz & Hcl).
  assert (dispatch_stages cx emit s = (Err ReturnOk, s)) as Hrun; [|unfold dispatch; by rewrite Hrun].
  apply wp_run. unfold dispatch_stages. wp_step. apply wp_gets. rewrite Ht. wp_step. apply wp_gets. rewrite Hts. wp_steps.
  assert (update congestion_controller Congestion.pre_transmit s = s) as -> by (by destruct s).
  unfold check_timers. wp_steps. rewrite Hto. wp_steps. rewrite Hdata. wp_steps. rewrite Hre. cbn [negb andb]. wp_steps.
  unfold find_reason. wp_steps. rewrite Hdata. wp_steps. rewrite Hack. wp_steps. rewrite Hexp. wp_steps. rewrite Hwin. wp_steps.
  rewrite bool_decide_false by done. rewrite Hk, Hz, Hcl. by wp_steps.
Qed.
(** A socket without a remote end sends nothing. *)
Lemma untupled_dispatch {E} cx (emit : segment → option E) s : tuple s = None → dispatch cx emit s = (Ok None, s).
Proof.
  intros Ht. assert (dispatch_stages cx emit s = (Err ReturnOk, s)) as Hrun; [|unfold dispatch; by rewrite Hrun].
  apply wp_run. unfold dispatch_stages. wp_step. apply wp_gets. rewrite Ht. by wp_steps.
Qed.

(** ** Progress *)

(** The states in which data or a SYN is sent *)
Definition sends (s : Socket) : Prop := data_state (state s) = true ∨ sent_syn s = true.
(** Polling the socket finds it neither timed out nor due for a zero-window probe. *)
Record pollable (cx : Context) (s : Socket) : Prop := {
  poll_alive : timeout s = None ∨ (is_Some (remote_last_ts s) ∧ @timed_out () (now cx) s = Ok false);
  poll_probe : Timer.should_zero_window_probe (now cx) (timer s) = false;
  poll_cwnd : 0 <= Congestion.window (congestion_controller s);
  poll_mtu : IPV6_HEADER_LEN + TCP_HEADER_LEN < ip_mtu cx;
  poll_sends : sends s }.

Lemma want_fin_sent s : want_fin s = sent_fin s.
Proof. unfold want_fin, sent_fin. by destruct (state s). Qed.
Lemma flight_eqb s n : tcp_inv s → synced (state s) → 0 <= n <= tx_len s →
  (remote_last_seq s =? as_i32 (local_seq_no s + n)) = (flight s =? n).
Proof.
  intros Hinv Hsy Hn. pose proof (inv_tx s Hinv) as Htx. rewrite (flight_seq s Htx).
  pose proof (in_flight s Htx Hsy). pose proof (tx_len_cap s Htx). pose proof (ctl_range (state s)).
  destruct (Z.eqb_spec (flight s) n) as [->|Hne]; [by apply Z.eqb_refl|]. apply Z.eqb_neq. intros Heq.
  assert (offset (local_seq_no s) (as_i32 (local_seq_no s + flight s)) = offset (local_seq_no s) (as_i32 (local_seq_no s + n))) as Ho
    by (by rewrite Heq).
  rewrite !offset_add in Ho by (unfold is_i32; lia). lia.
Qed.
(** What the window and the congestion controller leave to send *)
Definition sendable (s : Socket) : Z :=
  Z.min (Z.max 0 (Z.min (remote_win_len s) (tx_len s) - flight s)) (Congestion.window (congestion_controller s)).
Lemma sends_synced s : sends s → synced (state s).
Proof. intros [H|H]; [by apply data_state_synced|unfold sent_syn in H; by destruct (state s)]. Qed.
Lemma seq_to_transmit_run {E} cx s t :
  tcp_inv s → context_ok cx → tuple s = Some t → synced (state s) →
  @seq_to_transmit E cx s = Ok
    (if sent_syn s && (flight s =? 0) then true else
     (if nagle s && negb (flight s =? 0) &&
         negb (Z.min (ip_mtu cx - local_header_len t - TCP_HEADER_LEN) (remote_mss s) <=? sendable s) && negb (sent_fin s)
      then false else negb (sendable s =? 0)) || sent_fin s && (flight s =? tx_len s)).
Proof.
  intros Hinv Hcx Ht Hsy. pose proof (inv_tx s Hinv) as Htx.
  pose proof (in_flight s Htx Hsy) as Hf. pose proof (tx_len_cap s Htx). pose proof (win_ok s (inv_peer s Hinv)).
  pose proof (ctl_range (state s)) as Hct.
  pose proof (flight_eqb s 0 Hinv Hsy) as Hz. rewrite Z.add_0_r, as_i32_id in Hz by apply Htx.
  unfold seq_to_transmit. rewrite Ht. cbn [expect mbind outcome_bind].
  rewrite mtu_payload_ok; [|done|unfold local_header_len, IPV4_HEADER_LEN, IPV6_HEADER_LEN; destruct (addr (local t)); lia].
  cbn [mbind outcome_bind]. rewrite Hz, negb_involutive by lia. destruct (sent_syn s && (flight s =? 0)); [done|].
  rewrite (seq_add_ok (local_seq_no s) (Z.min (remote_win_len s) (tx_len s))) by (unfold i32_max; lia). cbn [mbind outcome_bind].
  rewrite edge_room by (done || lia). cbn [mbind outcome_bind]. rewrite seq_add_ok by (unfold i32_max; lia).
  cbn [mbind outcome_bind]. by rewrite flight_eqb, want_fin_sent by (done || lia).
Qed.
Lemma transmit_reason {E} cx s :
  tcp_inv s → context_ok cx → is_Some (tuple s) → sends s → 0 <= Congestion.window (congestion_controller s) →
  @seq_to_transmit E cx s = Ok true →
  (sent_syn s = true ∧ flight s = 0) ∨
  (data_state (state s) = true ∧ flight s < Z.min (remote_win_len s) (tx_len s)) ∨
  (data_state (state s) = true ∧ sent_fin s = true ∧ flight s = tx_len s).
Proof.
  intros Hinv Hcx [t Ht] Hst Hcw. pose proof (sends_synced s Hst) as Hsy. rewrite (seq_to_transmit_run cx s t) by done.
  destruct (sent_syn s && (flight s =? 0)) eqn:Hsyn; [apply andb_true_iff in Hsyn as [? ?%Z.eqb_eq]; by left|].
  pose proof (in_flight s (inv_tx s Hinv) Hsy) as Hf. intros Hgo. injection Hgo as Hgo. right.
  assert (data_state (state s) = true ∨ tx_len s = 0 ∧ sent_fin s = false) as Hds.
  { destruct Hst as [?|Hss]; [by left|right]. split; [apply (inv_opening s Hinv)|]; unfold opening, sent_syn, sent_fin in *; destruct (state s); auto; done. }
  apply orb_true_iff in Hgo as [Hgo|[Hfin Hl%Z.eqb_eq]%andb_true_iff]; [left|right].
  - match type of Hgo with (if ?b then _ else _) = _ => destruct b; [done|] end. apply negb_true_iff, Z.eqb_neq in Hgo.
    unfold sendable in Hgo. destruct Hds as [Hds|[Htl _]]; [split; [done|lia]|lia].
  - destruct Hds as [Hds|[_ Hsf]]; [done|congruence].
Qed.
(** With Nagle's algorithm off, nothing is left when there is nothing to transmit. *)
Lemma transmit_done {E} cx s :
  tcp_inv s → context_ok cx → is_Some (tuple s) → synced (state s) → @seq_to_transmit E cx s = Ok false →
  nagle s = false → 0 < Congestion.window (congestion_controller s) →
  Z.min (remote_win_len s) (tx_len s) <= flight s ∧ (sent_fin s = true → flight s ≠ tx_len s).
Proof.
  intros Hinv Hcx [t Ht] Hsy. rewrite (seq_to_transmit_run cx s t) by done. intros Hgo Hn Hw.
  destruct (sent_syn s && (flight s =? 0)); [done|]. rewrite Hn in Hgo. cbn [andb] in Hgo. injection Hgo as Hgo.
  apply orb_false_iff in Hgo as [Hr%negb_false_iff%Z.eqb_eq Hfin]. unfold sendable in Hr. split; [lia|].
  intros Hs. rewrite Hs in Hfin. by apply Z.eqb_neq in Hfin.
Qed.

(** A segment built when there is something to send takes sequence numbers. *)
Lemma built_advances {E} cx s t k r probe :
  tcp_inv s → context_ok cx → tuple s = Some t → pollable cx s → @seq_to_transmit E cx s = Ok true →
  built cx s t k r probe → probe = false ∧ 0 < segment_len r ∧ k = flight s.
Proof.
  intros Hinv Hcx Ht [_ Hz Hcw Hmtu Hst] Hmore Hb.
  assert (probe = false) as -> by (destruct probe; [|done]; pose proof (built_probe _ _ _ _ _ _ Hb eq_refl); congruence).
  split; [done|].
  assert (local_header_len t <= IPV6_HEADER_LEN) by (unfold local_header_len, IPV4_HEADER_LEN, IPV6_HEADER_LEN; destruct (addr (local t)); lia).
  assert (0 <= control_len (control r)) as Hcl by (destruct (control r); cbn; lia).
  destruct (transmit_reason (E := E) cx s Hinv Hcx (ex_intro _ t Ht) Hst Hcw Hmore) as [[Hs Hf]|[[Hd Hlt]|(Hd & Hs & Hf)]].
  - pose proof (built_syn _ _ _ _ _ _ Hb Hs) as Hc. split.
    + unfold segment_len, plen. rewrite Hc. cbn. lia.
    + by destruct (built_at _ _ _ _ _ _ Hb) as [->|[-> _]].
  - destruct (built_sends _ _ _ _ _ _ Hb Hd) as [Hp _]. specialize (Hp Hlt ltac:(lia)). split.
    + unfold segment_len, plen. destruct (payload r); [done|]. cbn [length]. lia.
    + destruct (built_at _ _ _ _ _ _ Hb) as [->|[_ Hs]]; [done|]. unfold sent_syn in Hs. by destruct (state s).
  - destruct (built_sends _ _ _ _ _ _ Hb Hd) as [_ Hp]. specialize (Hp Hs Hf). split.
    + unfold segment_len, plen. rewrite Hp. cbn. lia.
    + destruct (built_at _ _ _ _ _ _ Hb) as [->|[_ Hs']]; [done|]. unfold sent_syn in Hs'. by destruct (state s).
Qed.

Lemma timed_out_any {E E'} now s b : @timed_out E now s = Ok b → @timed_out E' now s = Ok b.
Proof.
  unfold timed_out. destruct (remote_last_ts s); [|by intros [= ->]]. destruct (timeout s); [|by intros [= ->]].
  unfold Time.instant_add, i64_checked, checked. destruct (_ && _); cbn [mbind outcome_bind]; [by intros [= ->]|done].
Qed.
(** The socket once its first poll is recorded *)
Definition started (now : Z) (s : Socket) : Socket :=
  match remote_last_ts s with Some _ => s | None => update remote_last_ts (λ _, Some now) s end.
Lemma started_ok {E} cx s :
  tcp_inv s → context_ok cx → pollable cx s →
  tcp_inv (started (now cx) s) ∧ pollable cx (started (now cx) s) ∧ @timed_out E (now cx) (started (now cx) s) = Ok false.
Proof.
  intros Hinv Hcx Hpo. pose proof (poll_alive _ _ Hpo) as Hal. unfold started. destruct (remote_last_ts s) as [l|] eqn:El.
  - split_and!; [done|done|]. destruct Hal as [Hn|[_ Hto]]; [|by eapply timed_out_any]. unfold timed_out. by rewrite El, Hn.
  - destruct Hal as [Hn|[[? [=]] _]]. split_and!.
    + destruct Hinv as [Hrx Htx Hop Hli Hpe Hti].
      split; [inherit Hrx|inherit Htx|exact Hop|inherit Hli|inherit Hpe|destruct Hti; constructor; fields; try done; apply Hcx].
    + destruct Hpo. constructor; try done. by left.
    + unfold timed_out. fields. by rewrite Hn.
Qed.

(** Sending a segment that is no probe does not set the timer for one, and leaves
    the congestion controller alone. *)
Section probe.
Context {E : Type} (now : Z) (c0 : Congestion.AnyController).
Definition unprobed (s : Socket) : Prop :=
  Timer.should_zero_window_probe now (timer s) = false ∧ congestion_controller s = c0.
Definition keeps_unprobed {A} (m : sending E A) : Prop := ∀ s, unprobed s → wp m s (λ _ s', unprobed s').
Lemma unprobed_bind {A B} (m : sending E A) (k : A → sending E B) :
  keeps_unprobed m → (∀ a, keeps_unprobed (k a)) → keeps_unprobed (m ≫= k).
Proof.
  intros Hm Hk s Hs. wp_step. eapply wp_mono; [by apply Hm|]. intros [a|e|] s' Hs'; [by apply Hk|done..].
Qed.
Lemma unprobed_lift {A} (x : outcome (leave E) A) : keeps_unprobed (lift x).
Proof. intros s Hs. by wp_step. Qed.
Lemma unprobed_gets {A} (f : Socket → A) : keeps_unprobed (gets f).
Proof. intros s Hs. by wp_step. Qed.
Lemma unprobed_inspect {A} (f : Socket → outcome (leave E) A) : keeps_unprobed (inspect f).
Proof. intros s Hs. by wp_step. Qed.
Lemma unprobed_ret {A} (a : A) : keeps_unprobed (mret a).
Proof. intros s Hs. by wp_step. Qed.
Lemma unprobed_rtte {A} (m : prog Rtte.RttEstimator Empty_set A) : keeps_unprobed (total (on rtte m)).
Proof. intros s Hs. wp_steps. unfold wp. by destruct (m _) as [[?|[]|] r]. Qed.
Lemma unprobed_modify f : (∀ s, timer (f s) = timer s ∧ congestion_controller (f s) = congestion_controller s) → keeps_unprobed (modify f).
Proof. intros Hf s Hs. wp_step. unfold unprobed. by destruct (Hf s) as [-> ->]. Qed.
Lemma unprobed_timer (m : prog Timer.Timer Empty_set ()) :
  (∀ t, Timer.should_zero_window_probe now t = false → wp m t (λ _ t', Timer.should_zero_window_probe now t' = false)) →
  keeps_unprobed (total (on timer m)).
Proof.
  intros Hm s [Hs Hc]. wp_steps. eapply wp_mono; [by apply Hm|]. intros [[]|[]|] t Ht; by split.
Qed.
Lemma unprobed_if {A} (b : bool) (m m' : sending E A) : keeps_unprobed m → keeps_unprobed m' → keeps_unprobed (if b then m else m').
Proof. by destruct b. Qed.
Lemma rewind_unprobed k t :
  Timer.should_zero_window_probe now t = false →
  wp (Timer.rewind_keep_alive now k) t (λ _ t', Timer.should_zero_window_probe now t' = false).
Proof.
  intros Ht. unfold Timer.rewind_keep_alive. wp_steps. destruct t; wp_steps; try done. by destruct (Time.after now k) as [?|[]|].
Qed.
Lemma retransmit_unprobed d t :
  Timer.should_zero_window_probe now t = false →
  wp (Timer.set_for_retransmit now d) t (λ _ t', Timer.should_zero_window_probe now t' = false).
Proof.
  intros Ht. unfold Timer.set_for_retransmit. wp_steps. destruct t; wp_steps; try done; by destruct (Time.instant_add now d) as [?|[]|].
Qed.
End probe.
Lemma segment_sent_unprobed {E} cx c r : keeps_unprobed (E := E) (now cx) c (segment_sent cx r false false).
Proof.
  unfold segment_sent.
  repeat first
    [ apply unprobed_bind; intros
    | apply unprobed_if
    | apply unprobed_gets
    | apply unprobed_lift | apply unprobed_inspect | apply unprobed_ret | apply unprobed_rtte
    | apply unprobed_timer, rewind_unprobed
    | apply unprobed_timer, retransmit_unprobed
    | apply unprobed_modify; done ].
Qed.

(** What the socket sends with does not change by sending. *)
Definition send_view (s : Socket) :=
  (state s, tx_buffer s, local_seq_no s, remote_win_len s, remote_mss s, nagle s, congestion_controller s).
(** A segment that starts where the last one ended, and the socket after it *)
Record advanced (cx : Context) (s : Socket) (r : TcpRepr) (s' : Socket) : Prop := {
  adv_len : 0 < segment_len r;
  adv_seq : seq_number r = remote_last_seq s;
  adv_flight : flight s' = flight s + segment_len r;
  adv_data : payload r = slice (Z.to_nat (flight s)) (length (payload r)) (RingSpec.contents (tx_buffer s));
  adv_end : sent_syn s = false → control_len (control r) ≠ 0 → flight s + plen r = tx_len s;
  adv_view : send_view s' = send_view s;
  adv_inv : tcp_inv s' ∧ is_Some (tuple s') ∧ pollable cx s' }.

Lemma advance_ok {E} cx s t r s' :
  tcp_inv s → context_ok cx → tuple s = Some t → pollable cx s → is_Some (remote_last_ts s) → @seq_to_transmit E cx s = Ok true →
  built cx s t (flight s) r false → 0 < segment_len r → tcp_inv s' →
  unprobed (now cx) (congestion_controller s) s' → recorded s r false s' → advanced cx s r s'.
Proof.
  intros Hinv Hcx Ht Hpo Hts Hmore Hb Hl Hinv' [Hun Hc] (tm & rt & c & tu & _ & _ & Htu & ->).
  pose proof (built_seq _ _ _ _ _ _ Hb) as Hq.
  assert (synced (state s)) as Hsy by apply sends_synced, Hpo.
  constructor; [done| | | | | |].
  - by rewrite Hq, <- flight_seq by apply Hinv.
  - unfold flight, after_send. fields. by apply (built_offset cx s t (flight s) r false).
  - destruct (payload r) eqn:Ep; [done|]. rewrite <- Ep. apply (built_data _ _ _ _ _ _ Hb). by rewrite Ep.
  - pose proof (built_control _ _ _ _ _ _ Hb) as Hct. intros Hs. destruct (control r); try done; intros _; [|apply Hct].
    destruct Hct. congruence.
  - unfold send_view. rewrite Hc. done.
  - split; [done|]. split; [|].
    + destruct Htu as [->|[_ E0]]; [by exists t|by destruct Hsy].
    + destruct Hpo as [H1 H2 H3 H4 H5]. constructor; rewrite ?Hc; try done.
Qed.

(** One poll of a socket that has something to send emits a segment that starts
    where the last one ended and advances the sequence number to send next. *)
Lemma dispatch_advances {E} cx (emit : segment → option E) s :
  tcp_inv s → context_ok cx → is_Some (tuple s) → pollable cx s → @seq_to_transmit (leave E) cx s = Ok true →
  (∀ seg, emit seg = None) →
  ∃ seg s', dispatch cx emit s = (Ok (Some seg), s') ∧ advanced cx s seg.2 s'.
Proof.
  intros Hinv Hcx [t Ht] Hpo Hmore Hemit.
  assert (wp (dispatch_stages cx emit) s (λ r s', ∃ seg, r = Ok seg ∧ advanced cx s seg.2 s')) as Hgo.
  2: { unfold wp in Hgo. unfold dispatch. destruct (dispatch_stages cx emit s) as [r s']. cbn [fst snd] in Hgo.
       destruct Hgo as (seg & -> & ?). by exists seg, s'. }
  unfold dispatch_stages. wp_step. apply wp_gets. rewrite Ht. wp_step. apply wp_gets. wp_step.
  destruct (started_ok (E := leave E) cx s Hinv Hcx Hpo) as (Hi0 & Hpo0 & Hto). set (s0 := started (now cx) s) in *.
  eapply (wp_eq _ _ (Ok ()) s0); [unfold s0, started; by destruct (remote_last_ts s)|]. cbv beta iota. wp_steps.
  assert (update congestion_controller Congestion.pre_transmit s0 = s0) as -> by (by destruct s0).
  assert (tuple s0 = Some t ∧ @seq_to_transmit (leave E) cx s0 = Ok true ∧ is_Some (remote_last_ts s0) ∧
    (∀ n r s', advanced cx (update tsval_calls (λ _, n) s0) r s' → advanced cx s r s')) as (Ht0 & Hm0 & Hts0 & Hadv).
  { unfold s0, started. destruct (remote_last_ts s) eqn:El; split_and!; try done; intros n r s' []; by constructor. }
  clearbody s0. clear Hinv Hpo Hmore Ht.
  unfold check_timers. wp_steps. rewrite Hto. wp_steps. rewrite Hm0. wp_steps. cbn [negb andb]. wp_steps.
  unfold find_reason. wp_steps. rewrite Hm0. wp_steps.
  eapply wp_mono; [apply build_segment_ok; [done|done|by eexists]|].
  intros res s2 (seg & probe & alive & n & -> & -> & Hem). cbv beta iota. pose proof Hem as (t' & Ht' & _ & _ & _ & Hb).
  assert (t' = t) as -> by congruence. wp_steps. rewrite Hemit. wp_steps.
  assert (alive = false) as ->.
  { destruct alive; [|done]. destruct Hb as (_ & _ & k & r & Hb & He).
    destruct (built_advances (E := leave E) cx s0 t k r probe) as (_ & Hl & _); try done.
    unfold repr_is_empty, segment_len, plen in *. destruct (payload r); [|done]. by destruct (control r). }
  destruct Hb as [k Hb]. destruct (built_advances (E := leave E) cx s0 t k seg.2 probe) as (-> & Hl & ->); try done.
  set (s1 := update tsval_calls (λ _, n) s0) in *. pose proof (counted_inv s0 n Hi0) as Hi1.
  assert (unprobed (now cx) (congestion_controller s1) s1) as Hun by (split; [apply Hpo0|done]).
  pose proof (segment_sent_unprobed (E := E) cx _ seg.2 _ Hun) as Hkeep.
  pose proof (segment_sent_ok (E := E) cx s1 seg.2 false false Hi1 Hcx (proj2 (built_len _ _ _ _ _ _ Hi0 Hb))) as Hsent.
  unfold wp in *. destruct (segment_sent cx seg.2 false false s1) as [r s']. cbn [fst snd] in *. destruct Hsent as [-> Hrec].
  exists seg. split; [done|]. apply (Hadv n). apply (advance_ok (E := leave E) cx s1 t); try done.
  - by destruct Hpo0.
  - destruct Hb. constructor; assumption.
  - apply (recorded_inv cx s1 seg false false); [done| |done]. by apply emitted_counted.
Qed.

(** ** Polling until there is nothing left to send *)

(** The segments emitted by at most [fuel] polls at one time *)
Fixpoint pump {E} (fuel : nat) (cx : Context) (emit : segment → option E) (s : Socket) : list segment * Socket :=
  match fuel with
  | O => ([], s)
  | S fuel =>
    match @seq_to_transmit E cx s with
    | Ok true =>
      match dispatch cx emit s with
      | (Ok (Some seg), s') => let '(segs, s'') := pump fuel cx emit s' in (seg :: segs, s'')
      | (_, s') => ([], s')
      end
    | _ => ([], s)
    end
  end.
Definition octets (segs : list segment) : list Z := concat ((λ seg, payload seg.2) <$> segs).

Lemma slice_join (l : list Z) (f a n : nat) : slice f a l ++ slice (f + a) n l = slice f (a + n) l.
Proof. unfold slice. by rewrite <- drop_drop, take_take_drop. Qed.
Lemma slice_past (l : list Z) (f n : nat) : (length l <= f)%nat → slice f n l = [].
Proof. intros H. unfold slice. by rewrite drop_ge, take_nil by done. Qed.
Lemma slice_rest (l : list Z) (f n : nat) : (length l <= f + n)%nat → slice f n l = drop f l.
Proof. intros H. unfold slice. apply take_ge. rewrite length_drop. lia. Qed.
Lemma seq_to_transmit_any {E E'} cx s b :
  tcp_inv s → context_ok cx → is_Some (tuple s) → synced (state s) →
  @seq_to_transmit E cx s = Ok b → @seq_to_transmit E' cx s = Ok b.
Proof. intros Hinv Hcx [t Ht] Hsy. rewrite !(seq_to_transmit_run cx s t) by done. by intros [= ->]. Qed.
(** The octets of a segment and of those after it *)
Lemma advanced_octets cx s r s' f :
  tcp_inv s → synced (state s) → sent_syn s = false → advanced cx s r s' → flight s' <= f →
  payload r ++ slice (Z.to_nat (flight s')) (Z.to_nat (f - flight s')) (RingSpec.contents (tx_buffer s)) =
  slice (Z.to_nat (flight s)) (Z.to_nat (f - flight s)) (RingSpec.contents (tx_buffer s)).
Proof.
  intros Hinv Hsy Hs [Hlen _ Hf Hd Hend _ _] Hle. pose proof (in_flight s (inv_tx s Hinv) Hsy) as Hfl.
  assert (control_len (control r) = 0 ∨ control_len (control r) = 1) as Hc by (destruct (control r); cbn; lia).
  assert (segment_len r = plen r + control_len (control r)) as Hsl by done. unfold plen in *. rewrite Hd at 1.
  destruct Hc as [Hc|Hc]; rewrite Hc in *.
  - replace (Z.to_nat (flight s')) with (Z.to_nat (flight s) + length (payload r))%nat by lia.
    rewrite slice_join. f_equal. lia.
  - specialize (Hend Hs ltac:(lia)). assert (length (RingSpec.contents (tx_buffer s)) = Z.to_nat (tx_len s)) as Hl
      by (rewrite RingSpec.contents_length by apply Hinv; unfold tx_len, Ring.len; lia).
    rewrite (slice_past _ (Z.to_nat (flight s'))) by lia. rewrite app_nil_r. by rewrite !slice_rest by lia.
Qed.
Lemma pump_ok {E} fuel cx (emit : segment → option E) s :
  context_ok cx → (∀ seg, emit seg = None) → tcp_inv s → is_Some (tuple s) → pollable cx s →
  tx_len s + ctl (state s) - flight s < Z.of_nat fuel →
  let '(segs, s') := pump fuel cx emit s in
  @seq_to_transmit E cx s' = Ok false ∧ send_view s' = send_view s ∧ tcp_inv s' ∧ is_Some (tuple s') ∧ flight s <= flight s' ∧
  (sent_syn s = false →
     octets segs = slice (Z.to_nat (flight s)) (Z.to_nat (flight s' - flight s)) (RingSpec.contents (tx_buffer s))).
Proof.
  intros Hcx Hemit. revert s. induction fuel as [|fuel IH]; intros s Hinv Htu Hpo Hfuel;
    pose proof (sends_synced s (poll_sends _ _ Hpo)) as Hsy; pose proof (in_flight s (inv_tx s Hinv) Hsy).
  { lia. }
  cbn [pump]. destruct (seq_to_transmit_ok (E := E) cx s Hinv Hcx Htu) as [b Hb]. rewrite Hb. destruct b.
  2: { split_and!; try done. intros _. by rewrite Z.sub_diag. }
  destruct (dispatch_advances cx emit s Hinv Hcx Htu Hpo) as (seg & s1 & Hrun & Hadv); [by eapply seq_to_transmit_any|done|].
  rewrite Hrun. pose proof Hadv as [Hlen _ Hf _ _ Hv (Hi1 & Ht1 & Hp1)]. specialize (IH s1 Hi1 Ht1 Hp1).
  assert (state s1 = state s ∧ tx_buffer s1 = tx_buffer s) as [Hst Htx] by (unfold send_view in Hv; by simplify_eq).
  unfold tx_len in *. rewrite Hst, Htx in IH. specialize (IH ltac:(lia)).
  destruct (pump fuel cx emit s1) as [segs s']. destruct IH as (H1 & H2 & H3 & H4 & H5 & H6).
  split_and!; [done|congruence|done|done|lia|]. intros Hs. unfold octets in *. cbn [fmap list_fmap concat].
  rewrite H6 by (unfold sent_syn in *; by rewrite Hst). by eapply advanced_octets.
Qed.
