(* ===== verification/TcpTheorems.v ===== *)
(** * Theorems on the TCP socket (crates/smoltcp/src/socket/tcp.rs)

    What the users of two sockets and of the interface observe: the stream
    arrives as it was written, calls panic in two ways only, and polls are made
    when they are needed and make progress. *)
From stdpp Require Import prelude.
From S2P Require Import Prelude Wire SeqSpec TcpTimers Assembler AssemblerSpec RingBuffer RingSpec TcpSocket TcpProcess.
From S2P Require Import TcpDispatch TcpInv TcpReply TcpStages TcpMoves TcpAcks TcpReceive TcpSend TcpUser TcpStream.
From S2P Require Import TcpNetwork TcpLife TcpProgress.
Open Scope Z_scope.

(** ** The stream *)

(** Two sockets, one connecting or answering and the other not yet
    synchronized, are driven by any interleaving of writes, reads, closes,
    polls, and arrivals of the sender's segments, which the network may lose,
    repeat, delay and reorder. While less than 2^31 - 1 octets are written, the
    octets the receiver's user has read, and those waiting in its buffer, are a
    prefix of the octets the sender's user wrote; and when a read reports the
    end of the stream, every octet written has been read. The conditions are
    those of [hop]: the sender has no keep-alive and is not closed in
    SYN-RECEIVED, and a FIN reaches the receiver only where it fits. *)
Theorem tcp_delivers c c' :
  starting c → rtc hop c c' → Z.of_nat (length (written c')) < 2 ^ 31 - 1 →
  got c' ++ RingSpec.contents (rx_buffer (receiver c')) `prefix_of` written c' ∧
  (∀ buf b', recv_slice buf (receiver c') = (Err RecvFinished, b') → got c' = written c').
Proof.
  intros Hst Hr Hlen. apply (linked_delivers (local_seq_no (sender c))). eapply hops_linked; [done|done|by apply starting_linked].
Qed.

(** C14: Against any remote end that sends the octets of one stream at their
    sequence numbers, in any order, any number of times and cut into segments in
    any way, each less than 2^31 from what was received, a synchronized socket
    hands its user a prefix of the stream, however its user reads, writes and
    closes and the interface polls meanwhile, and the whole stream once a read
    has reported its end. Two conditions are on the remote end: a FIN arrives
    only on a segment that the free space of the receive buffer has room for to
    its end ([fin_fits]; otherwise the stream is cut short), and no segment
    arrives 2^29 ms or more after the octet whose round trip is being timed. A
    run stops at a call that panics. Clock and MTU are as in [context_ok]. *)
Theorem tcp_receives stream s s' out :
  synchronized s → rtc (step stream (remote_seq_no s)) (s, []) (s', out) →
  out `prefix_of` stream ∧ tcp_inv s' ∧
  (∀ buf b', recv_slice buf s' = (Err RecvFinished, b') → out = stream).
Proof.
  intros Hs Hr. destruct (steps_receiving _ _ _ _ Hr (synchronized_receiving stream s Hs)) as [Hi Hc]. cbn [fst snd] in *.
  split; [destruct Hc as [[H _]|H]; [by eapply streaming_prefix|apply H]|]. split; [done|].
  intros buf b' Hrun. pose proof (recv_slice_ok buf s' Hi) as Hrs. unfold wp in Hrs. rewrite Hrun in Hrs.
  destruct Hrs as (Hm & _ & He). destruct (rx_fin_received s') eqn:Hf; [|done].
  destruct Hc as [[H _]|[_ [_ Hf'] _]]; [|congruence].
  pose proof (streaming_complete _ _ _ _ (inv_rx _ Hi) H Hf) as He'. rewrite (unread_none _ Hi Hm), app_nil_r in He'. done.
Qed.

(** ** The operations of the socket *)

(** C9: From its creation, through any sequence of calls that did not panic, a
    socket satisfies the invariant of its buffers, sequence numbers, windows,
    timers and endpoints. The calls are those of its user, with durations up to
    2^62 us and a hop limit that is not 0, polls, and segments that the
    interface matched with the socket, less than 2^29 ms after the octet that is
    timed; the clock is below 2^62 us and the MTU has room for the headers. The
    next such call keeps the invariant and moves the state along an edge of the
    connection state diagram that this kind of call may take, unless it panics;
    and there are two ways to panic only: a segment where selective
    acknowledgements are in use and the receive window reaches sequence number
    0, and a poll after the remote end has sent past the window last announced.
    *)
Theorem tcp_socket_life n rx tx seed s0 os s o :
  buffers_ok n rx tx → @new Empty_set n rx tx seed = Ok s0 → lives os s0 s → allowed o s →
  tcp_inv s ∧
  match run o s with
  | Some s' => tcp_inv s' ∧ moves o (state s) (state s') = true
  | None => exposed o s
  end.
Proof.
  intros Hb Hn Hl Ha. destruct (new_ok (E := Empty_set) n rx tx seed Hb) as (s0' & Hn' & Hi & _).
  assert (s0' = s0) as -> by congruence. pose proof (lives_inv _ _ _ Hl Hi) as Hinv. split; [done|].
  by destruct (run_ok o s Hinv Ha) as [(s' & -> & ?)|[-> ?]].
Qed.

(** What a keep-alive and any other segment carry, [k] past the first
    unacknowledged sequence number *)
Record keep_alive_segment cx s (k : Z) (r : TcpRepr) : Prop := {
  ka_due : is_Some (keep_alive s) ∨ Timer.should_keep_alive (now cx) (timer s) = true;
  ka_at : k = flight s - 1 ∨ k = - 1;
  ka_payload : payload r = [0];
  ka_control : control r = CNone ∨ control r = Psh }.
Record data_segment cx s (t : Tuple) (k : Z) (r : TcpRepr) : Prop := {
  ds_at : k = flight s ∨ k = 0;
  ds_octets : payload r ≠ [] →
    payload r = slice (Z.to_nat k) (length (payload r)) (RingSpec.contents (tx_buffer s)) ∧
    0 <= k ∧ k + plen r <= tx_len s;
  ds_size : payload r ≠ [] → plen r <= remote_mss s ∧ plen r + local_header_len t + TCP_HEADER_LEN <= ip_mtu cx;
  ds_window : payload r ≠ [] → k + plen r <= remote_win_len s ∨ (plen r = 1 ∧ remote_win_len s <= k);
  ds_fin : control r = Fin → sent_fin s = true ∧ k + plen r = tx_len s }.

(** C15: The segment a poll hands to the interface, with clock and MTU as in
    [context_ok], goes between the socket's endpoints and acknowledges exactly
    what was received, except for the SYN that opens a connection, which
    acknowledges nothing. When a keep-alive is set or due, it may be one: a zero
    octet just before what was sent or before what is unacknowledged. Otherwise
    it starts after what was sent, or with what is unacknowledged, and carries
    the octets of the transmit buffer that belong there, no more than the remote
    maximum segment size, and no more than fill the MTU with an IP and a TCP
    header without options, within the remote window save for a probe of one
    octet when the window has no room; and a FIN only after the last octet of a
    closed socket's buffer. *)
Theorem dispatch_segment {E} cx (emit : segment → option E) s seg s' :
  tcp_inv s → context_ok cx → dispatch cx emit s = (Ok (Some seg), s') →
  ∃ t k, tuple s = Some t ∧
    src_addr seg.1 = addr (local t) ∧ dst_addr seg.1 = addr (remote t) ∧
    src_port seg.2 = port (local t) ∧ dst_port seg.2 = port (remote t) ∧
    seq_number seg.2 = as_i32 (local_seq_no s + k) ∧
    (ack_number seg.2 = Some (as_i32 (expected s)) ∨ (ack_number seg.2 = None ∧ state s = SynSent)) ∧
    (keep_alive_segment cx s k seg.2 ∨ data_segment cx s t k seg.2).
Proof.
  intros Hinv Hcx Hrun. pose proof (dispatch_ok cx emit Hcx s Hinv) as Hd. unfold wp in Hd. rewrite Hrun in Hd.
  destruct Hd as (s1 & probe & alive & Ht & (t & Htu & H1 & H2 & (H3 & H4) & Hb) & _).
  destruct Ht as [_ Hv [Hb' Hu] Hst Hlk Hal _ Hw Hfl]. injection Hlk as Htu' _ _. injection Hv as Hrb _ Hrs Hfin.
  injection Hw as _ _ _ Hwl Hms.
  assert (expected s1 = expected s) as He by (unfold expected, rx_len; by rewrite Hrb, Hrs).
  assert (∀ a, a = Some (as_i32 (expected s1)) ∨ (a = None ∧ state s1 = SynSent) →
    a = Some (as_i32 (expected s)) ∨ (a = None ∧ state s = SynSent)) as Hack.
  { rewrite He. intros a [?|[? Hs]]; [by left|right]. split; [done|]. destruct Hst as [<-|E0]; [done|congruence]. }
  destruct alive.
  - destruct Hb as ([Hq Hp Hc Ha] & Hdue & _). exists t, (flight s1 - 1). rewrite <- Htu', <- Hu.
    split_and!; try done; [by rewrite Hq, Z.add_sub_assoc|by apply Hack|]. left. constructor; [|lia|done|done].
    destruct (keep_alive s) eqn:Ek; [by left|right]. apply not_false_is_true. intros Hno. by rewrite Hal in Hdue.
  - destruct Hb as [k [_ Hq Hat Ha _ _ Hc Hd _ _ _]]. exists t, k. rewrite <- Htu', <- Hu.
    split_and!; try done; [by apply Hack|]. right. unfold tx_len in *. rewrite Hb', Hwl, Hms in *. constructor.
    + lia.
    + intros (_ & ? & ? & ? & _)%Hd. done.
    + intros (_ & _ & _ & _ & ? & ? & _)%Hd. done.
    + intros (_ & _ & _ & _ & _ & _ & [?|(_ & ? & ?)])%Hd; [by left|by right].
    + intros Ec. rewrite Ec in Hc. destruct Hc as [Hsf Hk]. split; [|done]. unfold sent_fin in *.
      destruct Hst as [<-|E0]; [done|by rewrite E0 in Hsf].
Qed.

(** ** Timers and polls *)

(** The estimators reachable by the calls the socket makes on its own *)
Inductive estimated : Rtte.RttEstimator → Prop :=
| est_new : estimated Rtte.default
| est_send r now seq r' :
    estimated r → instant_ok now → is_i32 seq → Rtte.on_send now seq r = (Ok (), r') → estimated r'
| est_ack r now seq r' :
    estimated r → instant_ok now → sample_fresh now r → Rtte.on_ack now seq r = (Ok (), r') → estimated r'
| est_retransmit r r' : estimated r → Rtte.on_retransmit r = (Ok (), r') → estimated r'.
Lemma estimated_ok r : estimated r → rtte_ok r.
Proof.
  induction 1 as [|r now seq r' _ IH Hn Hs Hr|r now seq r' _ IH Hn Hs Hr|r r' _ IH Hr]; [by constructor|..].
  - pose proof (on_send_ok now seq r IH Hn Hs) as H. unfold wp in H. rewrite Hr in H. apply H.
  - pose proof (on_ack_ok now seq r IH Hn Hs) as H. unfold wp in H. rewrite Hr in H. apply H.
  - pose proof (on_retransmit_ok r IH) as H. unfold wp in H. rewrite Hr in H. apply H.
Qed.

(** C36: Whatever segments are sent, acknowledged within the longest round trip
    the estimator can represent and sent again, the retransmission timeout stays
    between one second and one minute, and the next retransmission does not
    overflow and doubles it up to that bound. *)
Theorem rto_bounded r :
  estimated r →
  1000 <= Rtte.rto r <= 60000 ∧ @Rtte.retransmission_timeout Empty_set r = Ok (Rtte.rto r * 1000) ∧
  ∃ r', Rtte.on_retransmit r = (Ok (), r') ∧ Rtte.rto r' = Z.min (2 * Rtte.rto r) 60000.
Proof.
  intros H%estimated_ok. pose proof (rto_ok r H) as Hr. split; [exact Hr|]. split; [by rewrite retransmission_timeout_ok|].
  pose proof (retransmit_doubles r H) as Hd. unfold wp in Hd. destruct (Rtte.on_retransmit r) as [x r']. cbn [fst snd] in Hd.
  destruct Hd as [-> Hd]. exists r'. split; [done|]. rewrite Hd. unfold Rtte.MAX_RTO. lia.
Qed.

(** C35: [poll_at] is sound: a poll made before the time it names changes nothing
    and emits nothing. *)
Theorem poll_at_sound {E} cx (emit : segment → option E) s p :
  @poll_at (leave E) cx s = Ok p → later (now cx) p = true → dispatch cx emit s = (Ok None, s).
Proof.
  intros Hp Hl. destruct (tuple s) as [t|] eqn:Ht; [|by apply untupled_dispatch].
  apply idle_dispatch; [|by exists t]. eapply later_idle; [done..|by exists t].
Qed.

(** C12: Polled again and again by an interface that accepts its segments, a
    socket with something to send reaches, within as many polls as it has
    sequence numbers to send, the point where nothing is left to transmit; the
    segments carry the unsent octets in order and once each. With Nagle's
    algorithm off, everything the window allows is then in flight. *)
Theorem polling_drains {E} fuel cx (emit : segment → option E) s :
  context_ok cx → (∀ seg, emit seg = None) → tcp_inv s → is_Some (tuple s) → pollable cx s →
  tx_len s + ctl (state s) - flight s < Z.of_nat fuel →
  let '(segs, s') := pump fuel cx emit s in
  @seq_to_transmit E cx s' = Ok false ∧ send_view s' = send_view s ∧ tcp_inv s' ∧
  (sent_syn s = false → octets segs =
     slice (Z.to_nat (flight s)) (Z.to_nat (flight s' - flight s)) (RingSpec.contents (tx_buffer s))) ∧
  (nagle s = false → 0 < Congestion.window (congestion_controller s) →
     Z.min (remote_win_len s) (tx_len s) <= flight s').
Proof.
  intros Hcx Hem Hinv Htu Hpo Hf. pose proof (pump_ok fuel cx emit s Hcx Hem Hinv Htu Hpo Hf) as H.
  destruct (pump fuel cx emit s) as [segs s']. destruct H as (H1 & H2 & H3 & H4 & _ & H6). split_and!; try done.
  pose proof (sends_synced s (poll_sends _ _ Hpo)) as Hsy. injection H2 as Est Etx _ Ewin _ Enag Econ. intros Hn Hw.
  unfold tx_len. rewrite <- Etx, <- Ewin. apply (transmit_done (E := E) cx s' H3 Hcx H4); [by rewrite Est|done|congruence..].
Qed.
