(* ===== verification/TcpDefects.v ===== *)
(** * Where the TCP socket does not do what it means to

    The conditions under which the socket panics or ends a stream wrongly, for
    every socket that satisfies the invariant: a remote end that sends past the
    announced window, a close before the handshake is over, and a FIN behind
    more octets than the window has room for. *)
From stdpp Require Import prelude.
From S2P Require Import Prelude Wire SeqSpec TcpTimers Assembler AssemblerSpec RingBuffer RingSpec TcpSocket TcpProcess.
From S2P Require Import TcpDispatch TcpInv TcpReply TcpStages TcpMoves TcpAcks TcpReceive TcpSend TcpUser TcpStream.
From S2P Require Import TcpNetwork TcpLife TcpProgress.
Open Scope Z_scope.

(** ** The window that was announced *)

(** A connection with nothing to send, in a state in which windows are announced *)
Record only_window {E} (cx : Context) (s : Socket) : Prop := {
  ow_open : is_Some (tuple s) ∧ is_Some (remote_last_ts s);
  ow_state : announces (state s) = true;
  ow_data : @seq_to_transmit E cx s = Ok false }.
(** No timer has run out and no acknowledgement is due. *)
Record nothing_due {E} (cx : Context) (s : Socket) : Prop := {
  nd_timeout : @timed_out E (now cx) s = Ok false;
  nd_retransmit : Timer.should_retransmit (now cx) (timer s) = false;
  nd_ack : ∃ b, @ack_to_transmit E s = Ok b ∧ b && delayed_ack_expired (now cx) s = false }.

Lemma poll_at_window {E} cx s :
  tcp_inv s → @only_window E cx s → @poll_at E cx s = Panic ↔ @window_to_update E s = Panic.
Proof.
  intros Hinv [[[t Ht] [last Hl]] Ha Hd]. unfold poll_at. rewrite Ht, Hl.
  rewrite bool_decide_false by (by destruct (state s)). rewrite Hd. cbn [mbind outcome_bind].
  destruct (window_to_update s) as [[]|e|]; cbn [mbind outcome_bind]; [done| |done|done]. split; [|done].
  destruct (ack_to_transmit_ok (E := E) s (inv_rx s Hinv)) as [b ->]. cbn [mbind outcome_bind].
  pose proof (last_ts_ok s (inv_time s Hinv)) as Hts. rewrite Hl in Hts. pose proof (timeout_ok s (inv_time s Hinv)) as Hto.
  destruct (timeout s) as [d|]; cbn [mbind outcome_bind]; [|done]. by rewrite instant_add_ok by done.
Qed.
Lemma dispatch_window {E} cx (emit : segment → option E) s :
  tcp_inv s → context_ok cx → @only_window (leave E) cx s → @nothing_due (leave E) cx s → @window_to_update (leave E) s = Panic →
  (dispatch cx emit s).1 = Panic.
Proof.
  intros Hinv Hcx [[[t Ht] [last Hl]] Ha Hd] [Hto Hre (b & Hack & Hexp)] Hw.
  assert (dispatch_stages cx emit s = (Panic, s)) as Hrun; [|unfold dispatch; by rewrite Hrun].
  apply wp_run. unfold dispatch_stages. wp_step. apply wp_gets. rewrite Ht. wp_step. apply wp_gets. rewrite Hl. wp_steps.
  assert (update congestion_controller Congestion.pre_transmit s = s) as -> by (by destruct s).
  unfold check_timers. wp_steps. rewrite Hto. wp_steps. rewrite Hd. wp_steps. rewrite Hre. cbn [negb andb]. wp_steps.
  unfold find_reason. wp_steps. rewrite Hd. wp_steps. rewrite Hack. wp_steps. rewrite Hexp. wp_steps. by rewrite Hw.
Qed.

(** C37: For a socket with nothing to send, in a state in which it announces
    larger windows, [poll_at] panics exactly when the octets received go past
    the window last announced, whether or not the buffer has room for them; and
    where moreover no timer has run out and no acknowledgement is due, so does
    [dispatch]. *)
Theorem window_overrun_panics {E} cx (emit : segment → option E) s :
  tcp_inv s → context_ok cx → @only_window (leave E) cx s →
  (@poll_at (leave E) cx s = Panic ↔ ¬ within_window s) ∧
  (@nothing_due (leave E) cx s → (dispatch cx emit s).1 = Panic ↔ ¬ within_window s).
Proof.
  intros Hinv Hcx Ho. pose proof (window_to_update_panics (E := leave E) s Hinv (ow_state _ _ Ho)) as Hw.
  split; [by rewrite poll_at_window|]. intros Hn. split; [|intros H; apply dispatch_window; [done..|by apply Hw]].
  intros Hp. pose proof (dispatch_ok cx emit Hcx s Hinv) as Hd. unfold wp in Hd. by rewrite Hp in Hd.
Qed.

(** ** Closing before the handshake is over *)

(** The calls that do not open a socket again *)
Definition opens (o : op) : bool := match o with OpListen _ | OpConnect _ _ _ => true | _ => false end.
(** The states of a socket that has nothing more to send *)
Definition silent (st : State) : bool := match st with FinWait2 | TimeWait | Closed => true | _ => false end.

Lemma silent_moves o st st' : opens o = false → moves o st st' = true → silent st = true → silent st' = true.
Proof.
  intros Ho Hm Hs. assert (∀ st0, bool_decide (st' = st0) = true → silent st0 = true → silent st' = true) as Heq.
  { by intros st0 ->%bool_decide_eq_true. }
  destruct o; try done; cbn [moves] in Hm; try (by apply (Heq _ Hm)); try (by destruct st, st').
Qed.
Lemma silent_lives os s s' :
  lives os s s' → Forall (λ o, opens o = false) os → tcp_inv s → silent (state s) = true → tcp_inv s' ∧ silent (state s') = true.
Proof.
  induction 1 as [|o os s s1 s2 Ha Hr _ IH]; [done|]. intros [Ho Hos]%Forall_cons Hinv Hs.
  destruct (run_ok o s Hinv Ha) as [(s1' & Hr' & Hi & Hm)|[? _]]; [|congruence]. assert (s1' = s1) as -> by congruence.
  apply IH; [done|done|]. by eapply silent_moves.
Qed.
Lemma silent_no_fin {E} cx (emit : segment → option E) s seg s' :
  tcp_inv s → context_ok cx → silent (state s) = true → dispatch cx emit s = (Ok (Some seg), s') → control seg.2 ≠ Fin.
Proof.
  intros Hinv Hcx Hs Hrun Hc. pose proof (dispatch_ok cx emit Hcx s Hinv) as Hd. unfold wp in Hd. rewrite Hrun in Hd.
  destruct Hd as (s1 & probe & alive & Ht & (t & _ & _ & _ & _ & Hb) & _). destruct alive.
  - destruct Hb as ([_ _ [?|?] _] & _); congruence.
  - destruct Hb as [k Hb]. pose proof (built_control _ _ _ _ _ _ Hb) as Hf. rewrite Hc in Hf. destruct Hf as [Hf _].
    unfold sent_fin in Hf. destruct (ticked_state _ _ Ht) as [E0|E0]; rewrite E0 in Hf; [by destruct (state s)|done].
Qed.

(** A segment of the connection at the sequence number expected *)
Record in_order (s : Socket) (repr : TcpRepr) : Prop := {
  io_seq : seq_number repr = as_i32 (expected s);
  io_open : payload repr ≠ [] → 0 < rx_free s }.
Lemma in_order_distance s repr : in_order s repr → distance s repr = 0.
Proof.
  intros [Hs _]. unfold distance. rewrite Hs. rewrite <- (Z.add_0_r (expected s)) at 2. by apply offset_add.
Qed.
Lemma in_order_window s repr : rx_inv s → in_order s repr → in_window s repr = true.
Proof.
  intros Hrx Hio. unfold in_window. rewrite in_order_distance by done. pose proof (rx_len_free s Hrx) as Hf.
  assert (plen repr = 0 ∨ 0 < rx_free s) as Hn.
  { destruct (payload repr) as [|y l] eqn:Ep; [left; unfold plen; by rewrite Ep|right]. apply (io_open s repr Hio). by rewrite Ep. }
  split_zbool; cbn; try done; lia.
Qed.
Lemma in_order_acted s repr : in_order s repr → acted repr s = quash_psh (control repr).
Proof.
  intros [Hs _]. unfold acted. rewrite Hs. replace (Seq.lt (as_i32 (expected s)) (as_i32 (expected s))) with false.
  - by rewrite andb_false_r.
  - unfold Seq.lt. by rewrite as_i32_dist, Z.sub_diag.
Qed.

(** C38: A socket closed in SYN-RECEIVED takes the acknowledgement of its SYN
    for one of a FIN: whichever socket it is and whenever the segment arrives,
    in order and without data, it goes to FIN-WAIT-2; and until it is opened
    again, no poll after any calls and segments emits a FIN. The remote end is
    never told that the stream has ended. The segment is one that the interface
    matched with the socket, less than 2^29 ms after the octet that is timed,
    and the receive window does not reach sequence number 0 while selective
    acknowledgements are in use ([sack_safe]). *)
Theorem close_in_syn_received_sends_no_fin cx ip repr s :
  tcp_inv s → state s = SynReceived → sack_safe s →
  let s1 := (close s).2 in
  arrives cx ip repr s1 → in_order s1 repr →
  control repr = CNone → payload repr = [] → ack_number repr = Some (as_i32 (local_seq_no s + 1)) →
  state s1 = FinWait1 ∧ ∃ x s2, process cx ip repr s1 = (Ok x, s2) ∧ state s2 = FinWait2 ∧
  ∀ os s3, lives os s2 s3 → Forall (λ o, opens o = false) os →
  ∀ E cx' (emit : segment → option E) seg s4, context_ok cx' → dispatch cx' emit s3 = (Ok (Some seg), s4) → control seg.2 ≠ Fin.
Proof.
  intros Hinv Est Hsk. cbv zeta. rewrite close_run. cbn [snd]. pose proof (close_inv s Hinv) as Hinv1. rewrite Est in *. cbn [next_closing] in *.
  set (s1 := update state (λ _, FinWait1) s) in *. intros [Hcx Hip Hr Hf Hacc] Hio Hc Hp Ha. split; [done|].
  destruct (inv_opening s Hinv) as (Hl & _); [unfold opening; auto|]. change (tx_len s1 = 0) in Hl.
  assert (ack_at s1 (as_i32 (local_seq_no s + 1)) 1) as Hat by (split_and!; [done|lia|rewrite Hl; cbn; lia|done]).
  assert (admissible s1 repr) as Hadm.
  { split_and!; [split_and!; [by intros [|[|]]|by rewrite Hc|by eauto]|apply in_order_window; [apply Hinv1|done]|].
    by rewrite in_order_acted, Hc by done. }
  destruct (process_taken cx ip repr Hcx Hip Hr s1 Hinv1 Hf Hacc Hadm Hsk) as (x & s2 & part & o & acked & c & sm & sn & Hrun & Ht).
  exists x, s2. split; [done|]. destruct (taken_state _ _ _ _ _ _ _ _ _ Ht) as (Hinv2 & Hst2 & _).
  assert (state s2 = FinWait2) as Hs2.
  { rewrite Hst2. destruct Ht as [_ _ Hcount -> Hm _ _]. rewrite (moved_target _ _ _ _ _ Hm eq_refl). cbn [state s1 target].
    rewrite in_order_acted, Hc by done. fields. cbn. unfold counted in Hcount. rewrite Ha in Hcount.
    destruct Hcount as (k & (Hk & Hkr & _) & _ & [_ Hfin]); [by rewrite Hc|]. rewrite Hfin; [done|]. split; [done|].
    rewrite Hl in *. cbn in Hkr. destruct (Z.eq_dec k 1) as [->|]; [done|]. assert (k = 0) as -> by lia. exfalso.
    assert (offset (local_seq_no s) (as_i32 (local_seq_no s + 1)) = offset (local_seq_no s) (as_i32 (local_seq_no s + 0))) as Ho by (by rewrite Hk).
    by rewrite !offset_add in Ho. }
  split; [done|]. intros os s3 Hlv Hos E cx' emit seg s4 Hcx' Hd.
  destruct (silent_lives _ _ _ Hlv Hos Hinv2) as [Hinv3 Hs3]; [by rewrite Hs2|]. by eapply silent_no_fin.
Qed.

(** ** A FIN behind more octets than there is room for *)


