(* ===== verification/TcpRuns.v ===== *)
(** * Runs of the TCP sockets

    A client and a server that connect, transfer three octets and close: the
    theorems of TcpTheorems.v applied to it. Then runs in which the conditions
    of TcpDefects.v are met. *)
From stdpp Require Import prelude.
From S2P Require Import Prelude Wire SeqSpec TcpTimers Assembler AssemblerSpec RingBuffer RingSpec TcpSocket TcpProcess.
From S2P Require Import TcpDispatch TcpInv TcpReply TcpStages TcpMoves TcpAcks TcpReceive TcpSend TcpUser TcpStream.
From S2P Require Import TcpNetwork TcpLife TcpProgress TcpTheorems TcpDefects.
Open Scope Z_scope.

Module TcpExample.
Definition at_ (t : Z) : Context := MkContext t 1500 (λ _, None).
Definition accept : segment → option () := λ _, None.
Definition client : IpEndpoint := MkEndpoint (Ipv4 1) 9.
Definition server : IpEndpoint := MkEndpoint (Ipv4 2) 80.
(** A new socket with buffers of [n] octets *)
Definition closed (n : nat) (seed : Z) : Socket :=
  MkSocket Closed Timer.new Rtte.default (Assembler.new 4) (Ring.new (replicate n 0)) false (Ring.new (replicate n 0))
    None None None default_listen_endpoint default_listen_endpoint None 0 0 0 None 0 (win_shift (Z.of_nat n)) 0 None false
    DEFAULT_MSS None None None 0 (Some ACK_DELAY_DEFAULT) AckIdle 0 true Congestion.NoControl None 0 seed 0.
Definition next (o : op) (s : Socket) : Socket := default s (run o s).
Definition sent (t : Z) (s : Socket) : segment :=
  match (dispatch (at_ t) accept s).1 with
  | Ok (Some seg) => seg
  | _ => (MkIpRepr V4 (Ipv4 0) (Ipv4 0) Tcp 0 0, MkRepr 0 0 CNone 0 None 0 None None false no_sack_ranges None [])
  end.
Definition poll (t : Z) : op := OpDispatch (at_ t) false.
Definition arrive (t : Z) (seg : segment) : op := OpProcess (at_ t) seg.1 seg.2.

(** The client connects and the server listens. *)
Definition a0 : Socket := Eval vm_compute in next (OpConnect (at_ 0) server (MkListenEndpoint (Some (Ipv4 1)) 9)) (closed 8 1).
Definition b0 : Socket := Eval vm_compute in next (OpListen (MkListenEndpoint None 80)) (closed 8 2).
(** The handshake *)
Definition syn : segment := Eval vm_compute in sent 0 a0.
Definition a1 : Socket := Eval vm_compute in next (poll 0) a0.
Definition b1 : Socket := Eval vm_compute in next (arrive 1 syn) b0.
Definition syn_ack : segment := Eval vm_compute in sent 1 b1.
Definition b2 : Socket := Eval vm_compute in next (poll 1) b1.
Definition a2 : Socket := Eval vm_compute in next (arrive 2 syn_ack) a1.
Definition ack : segment := Eval vm_compute in sent 2 a2.
Definition a3 : Socket := Eval vm_compute in next (poll 2) a2.
Definition b3 : Socket := Eval vm_compute in next (arrive 3 ack) b2.
(** The client writes three octets and closes; the server reads them. *)
Definition a4 : Socket := Eval vm_compute in next (OpSend [1; 2; 3]) a3.
Definition a5 : Socket := Eval vm_compute in next OpClose a4.
Definition data : segment := Eval vm_compute in sent 4 a5.
Definition a6 : Socket := Eval vm_compute in next (poll 4) a5.
Definition b4 : Socket := Eval vm_compute in next (arrive 5 data) b3.
Definition b5 : Socket := Eval vm_compute in next (OpRecv (replicate 8 0)) b4.

Lemma at_ok t : 0 <= t < 1000000 → context_ok (at_ t).
Proof. intros. constructor; [unfold instant_ok; cbn; lia|done]. Qed.
(** The conditions of a call, by evaluation *)
Ltac holds :=
  first [done | lia | vm_compute; repeat split; intros; first [discriminate | left; intros ?; discriminate | by right]].
Ltac arrived := constructor; [apply at_ok; lia|reflexivity|constructor; holds|holds|reflexivity].
Lemma buffers_8 : buffers_ok 4 (Ring.new (replicate 8 0)) (Ring.new (replicate 8 0)).
Proof. unfold buffers_ok, RingSpec.wf. split_and!; first [by right | cbn; lia | vm_compute; intros; discriminate]. Qed.
Lemma lives_8 seed os s : lives os (closed 8 seed) s → tcp_inv s.
Proof.
  intros Hl. eapply lives_inv; [exact Hl|].
  destruct (new_ok (E := Empty_set) _ _ _ seed buffers_8) as (s' & Hn & Hi & _). by injection Hn as <-.
Qed.
Ltac live := repeat (eapply lives_op; [first [done | arrived | apply at_ok; lia]|vm_compute; reflexivity|]); apply lives_now.

(** What was done to the two sockets *)
Definition client_ops : list op :=
  [OpConnect (at_ 0) server (MkListenEndpoint (Some (Ipv4 1)) 9); poll 0; arrive 2 syn_ack; poll 2; OpSend [1; 2; 3]; OpClose; poll 4].
Definition server_ops : list op :=
  [OpListen (MkListenEndpoint None 80); arrive 1 syn; poll 1; arrive 3 ack; arrive 5 data; OpRecv (replicate 8 0)].
Lemma a0_inv : tcp_inv a0.
Proof. apply (lives_8 1 (take 1 client_ops)). live. Qed.
Lemma a5_inv : tcp_inv a5.
Proof. apply (lives_8 1 (take 6 client_ops)). live. Qed.
Lemma b0_inv : tcp_inv b0.
Proof. apply (lives_8 2 (take 1 server_ops)). live. Qed.
Lemma b3_inv : tcp_inv b3.
Proof. apply (lives_8 2 (take 4 server_ops)). live. Qed.

(** The whole transfer, with the network in between *)
Lemma transfer : rtc hop (MkConfig a0 b0 [] [] []) (MkConfig a6 b5 [data; ack; syn] [1; 2; 3] [1; 2; 3]).
Proof.
  assert (∀ t s, 0 <= t < 1000000 → Timer.should_keep_alive t (timer s) = false → keep_alive s = None → no_keep_alive (at_ t) s) as Hk by (by split).
  eapply rtc_l; [apply (hop_send a0 a1 b0 [] [] [] (at_ 0) accept (Ok (Some syn))); [apply at_ok; lia|by apply Hk|reflexivity|done]|].
  eapply rtc_l; [apply (hop_receive a1 b0 b1 [syn] [] [] (at_ 1) syn None); [set_solver|arrived|done|reflexivity]|].
  eapply rtc_l; [apply (hop_receiver_send a1 b1 b2 [syn] [] [] (at_ 1) accept (Ok (Some syn_ack))); [apply at_ok; lia|reflexivity|done]|].
  eapply rtc_l; [apply (hop_answer a1 a2 b2 [syn] [] [] (at_ 2) syn_ack.1 syn_ack.2 None); [arrived|done|reflexivity]|].
  eapply rtc_l; [apply (hop_send a2 a3 b2 [syn] [] [] (at_ 2) accept (Ok (Some ack))); [apply at_ok; lia|by apply Hk|reflexivity|done]|].
  eapply rtc_l; [apply (hop_receive a3 b2 b3 [ack; syn] [] [] (at_ 3) ack None); [set_solver|arrived|done|reflexivity]|].
  eapply rtc_l; [apply (hop_write a3 a4 b3 [ack; syn] [] [] [1; 2; 3] (Ok 3%nat)); reflexivity|].
  eapply rtc_l; [apply (hop_close a4 a5 b3 [ack; syn] [1; 2; 3] [] (Ok ())); [done|reflexivity]|].
  eapply rtc_l; [apply (hop_send a5 a6 b3 [ack; syn] [1; 2; 3] [] (at_ 4) accept (Ok (Some data))); [apply at_ok; lia|by apply Hk|reflexivity|done]|].
  eapply rtc_l; [apply (hop_receive a6 b3 b4 [data; ack; syn] [1; 2; 3] [] (at_ 5) data None); [set_solver|arrived|intros _; holds|reflexivity]|].
  apply rtc_once. apply (hop_read a6 b4 b5 [data; ack; syn] [1; 2; 3] [] (replicate 8 0) (Ok (3%nat, [1; 2; 3; 0; 0; 0; 0; 0]))). reflexivity.
Qed.
Lemma tcp_delivers_witness : [1; 2; 3] = written (MkConfig a6 b5 [data; ack; syn] [1; 2; 3] [1; 2; 3]).
Proof.
  eapply (tcp_delivers (MkConfig a0 b0 [] [] []) (MkConfig a6 b5 [data; ack; syn] [1; 2; 3] [1; 2; 3])).
  - constructor; [split; [apply a0_inv|by left]|split; [apply b0_inv|done]|done].
  - apply transfer.
  - vm_compute. reflexivity.
  - apply (eq_refl : recv_slice [0] b5 = (Err RecvFinished, b5)).
Defined.

(** The same octets from any remote end *)
Lemma tcp_receives_witness : [1; 2; 3] = [1; 2; 3] ∧ tcp_inv b5.
Proof.
  assert (synchronized b3) as Hs by (split; [apply b3_inv|done|split_and!; [done|done|intros x; apply (AssemblerSpec.new_absent 4 x)]]).
  destruct (tcp_receives [1; 2; 3] b3 b5 [1; 2; 3] Hs) as (_ & Hi & Hfin).
  - eapply rtc_l.
    + apply (step_arrive _ _ b3 [] (at_ 5) data.1 data.2 None b4); [arrived|done| |intros _; holds|reflexivity].
      exists 0. split; [reflexivity|]. split; [vm_compute; split; [discriminate|reflexivity]|]. split; [|done].
      intros [|[|[|i]]] x Hx; cbn in Hx; [by injection Hx as <-..|]. by destruct i.
    + apply rtc_once. apply (step_read _ _ b4 [] (replicate 8 0) (Ok (3%nat, [1; 2; 3; 0; 0; 0; 0; 0])) b5). reflexivity.
  - split; [|exact Hi]. apply (Hfin [0] b5). reflexivity.
Defined.
Lemma tcp_socket_life_witness : run (OpRecv (replicate 8 0)) b4 = Some b5 ∧ tcp_inv b5 ∧
  moves (OpRecv (replicate 8 0)) (state b4) (state b5) = true.
Proof.
  pose proof (tcp_socket_life 4 (Ring.new (replicate 8 0)) (Ring.new (replicate 8 0)) 2 (closed 8 2) (take 5 server_ops) b4 (OpRecv (replicate 8 0)))
    as [_ H]; [apply buffers_8|reflexivity|live|done|].
  assert (run (OpRecv (replicate 8 0)) b4 = Some b5) as Hr by (vm_compute; reflexivity). rewrite Hr in H. split; [exact Hr|exact H].
Defined.
Lemma dispatch_segment_witness : ∃ k, seq_number data.2 = as_i32 (local_seq_no a5 + k) ∧ k + plen data.2 = tx_len a5.
Proof.
  destruct (dispatch_segment (at_ 4) accept a5 data a6) as (t & k & _ & _ & _ & _ & _ & Hq & _ & [Hk|Hd]);
    [apply a5_inv|apply at_ok; lia|reflexivity|by pose proof (ka_payload _ _ _ _ Hk)|].
  exists k. split; [exact Hq|]. by apply (ds_fin _ _ _ _ _ Hd).
Defined.
Lemma rto_bounded_witness : 1000 <= Rtte.rto (rtte a6) <= 60000.
Proof.
  apply (rto_bounded (rtte a6)).
  apply (est_send (rtte a2) 4 788327606); [|holds|holds|reflexivity].
  apply (est_ack (rtte a1) 2 788327602); [|holds|holds|reflexivity].
  apply (est_send Rtte.default 0 788327602); [apply est_new|holds|holds|reflexivity].
Defined.
Lemma poll_at_sound_witness : dispatch (at_ 6) accept b5 = (Ok None, b5).
Proof. apply (poll_at_sound (at_ 6) accept b5 (Time 10005)); vm_compute; reflexivity. Defined.
Lemma polling_drains_witness :
  let '(segs, s') := pump 5 (at_ 4) accept a5 in @seq_to_transmit () (at_ 4) s' = Ok false ∧ octets segs = [1; 2; 3].
Proof.
  assert (pollable (at_ 4) a5) as Hpo by (constructor; [left; reflexivity|reflexivity|vm_compute; discriminate|reflexivity|left; reflexivity]).
  pose proof (polling_drains 5 (at_ 4) accept a5 (at_ok 4 ltac:(lia)) (λ _, eq_refl) a5_inv (ex_intro _ _ eq_refl) Hpo eq_refl) as H.
  destruct (pump 5 (at_ 4) accept a5) as [segs s'] eqn:Hp. destruct H as (H1 & _ & _ & Ho & _).
  split; [exact H1|]. rewrite (Ho eq_refl). vm_compute in Hp. injection Hp as _ <-. reflexivity.
Defined.

(** ** Runs in which the code does not do what it says *)

(** A remote end that opens a connection to port 80 with sequence number 100 *)
Definition from_peer : IpRepr := MkIpRepr V4 (Ipv4 1) (Ipv4 2) Tcp 0 64.
Definition peer_sends (c : Control) (seq : Z) (ack : option Z) (octets : list Z) : TcpRepr :=
  MkRepr 9 80 c seq ack 1000 None None false no_sack_ranges None octets.
Definition iss : Z := Eval vm_compute in local_seq_no (next (OpProcess (at_ 0) from_peer (peer_sends Syn 100 None []))
  (next (OpListen (MkListenEndpoint None 80)) (closed 4 0))).
Definition peer_data (t seq : Z) (c : Control) (octets : list Z) : op :=
  OpProcess (at_ t) from_peer (peer_sends c seq (Some (iss + 1)) octets).
Definition handshake : list op :=
  [OpListen (MkListenEndpoint None 80); OpProcess (at_ 0) from_peer (peer_sends Syn 100 None []); poll 0; peer_data 1 101 CNone []].
(** Reaching a socket by evaluation *)
Fixpoint after (os : list op) (s : Socket) : Socket := match os with [] => s | o :: os => after os (next o s) end.

(** A remote end that fills the window, and sends on as soon as the socket's
    user has read but before the larger window was announced *)
Definition overrun_ops : list op :=
  handshake ++ [peer_data 2 101 CNone [1; 2; 3; 4]; poll 20000; OpRecv [0; 0; 0; 0]; peer_data 30000 105 CNone [5]].
Definition overrun : Socket := Eval vm_compute in after overrun_ops (closed 4 0).
Lemma buffers_4 : buffers_ok 4 (Ring.new (replicate 4 0)) (Ring.new (replicate 4 0)).
Proof. unfold buffers_ok, RingSpec.wf. split_and!; first [by right | cbn; lia | vm_compute; intros; discriminate]. Qed.
Lemma lives_4 seed os s : lives os (closed 4 seed) s → tcp_inv s.
Proof.
  intros Hl. eapply lives_inv; [exact Hl|].
  destruct (new_ok (E := Empty_set) _ _ _ seed buffers_4) as (s' & Hn & Hi & _). by injection Hn as <-.
Qed.
Lemma overrun_lives : lives overrun_ops (closed 4 0) overrun.
Proof. unfold overrun_ops. cbn [app handshake]. live. Qed.
(** Its octet is accepted, and the next poll panics. *)
Lemma window_overrun_panics_witness :
  lives overrun_ops (closed 4 0) overrun ∧ rx_len overrun = 1 ∧
  @poll_at (leave ()) (at_ 30000) overrun = Panic ∧ (dispatch (at_ 30000) accept overrun).1 = Panic.
Proof.
  assert (¬ within_window overrun) as Hw by (vm_compute; intros H; by apply H).
  destruct (window_overrun_panics (at_ 30000) accept overrun) as [Hp Hd].
  - apply (lives_4 0 overrun_ops), overrun_lives.
  - apply at_ok. lia.
  - constructor; [split; by eexists|reflexivity|reflexivity].
  - split; [apply overrun_lives|]. split; [reflexivity|]. split; [by apply Hp|]. apply Hd; [|exact Hw].
    constructor; [reflexivity|reflexivity|]. eexists. split; reflexivity.
Defined.

(** A server that is closed once its SYN is out *)
Definition early_ops : list op :=
  [OpListen (MkListenEndpoint None 80); OpProcess (at_ 0) from_peer (peer_sends Syn 100 None []); poll 0].
Definition early : Socket := Eval vm_compute in after early_ops (closed 4 0).
Lemma early_inv : tcp_inv early.
Proof. apply (lives_4 0 early_ops). unfold early_ops. live. Qed.
Definition early_end : Socket := Eval vm_compute in after [OpClose; peer_data 1 101 CNone []] early.
Lemma close_in_syn_received_sends_no_fin_witness :
  state early_end = FinWait2 ∧ ∀ E cx (emit : segment → option E) seg s, context_ok cx →
  dispatch cx emit early_end = (Ok (Some seg), s) → control seg.2 ≠ Fin.
Proof.
  destruct (close_in_syn_received_sends_no_fin (at_ 1) from_peer (peer_sends CNone 101 (Some (iss + 1)) []) early) as (_ & x & s2 & Hrun & Hs & Hno).
  - apply early_inv.
  - reflexivity.
  - holds.
  - arrived.
  - constructor; [reflexivity|done].
  - reflexivity.
  - reflexivity.
  - reflexivity.
  - assert (process (at_ 1) from_peer (peer_sends CNone 101 (Some (iss + 1)) []) (close early).2 = (Ok None, early_end)) as Hr by (vm_compute; reflexivity).
    rewrite Hr in Hrun. injection Hrun as _ <-. split; [exact Hs|]. intros E cx emit seg s Hcx Hd.
    apply (Hno [] early_end (lives_now _) (Forall_nil_2 _) E cx emit seg s Hcx Hd).
Defined.

End TcpExample.
