(* ===== verification/TcpWire.v ===== *)
(** * TCP headers on the wire (crates/smoltcp/src/wire/{tcp,ip}.rs)

    Parsing and emission of TCP segments: the fields of the header, the
    options, and the Internet checksum. A packet is the octets of its buffer;
    an index or a slice out of its bounds is a panic. *)
From stdpp Require Import prelude list.
From S2P Require Import Prelude Wire.
Open Scope Z_scope.

(** [byteorder::NetworkEndian]: numbers in network byte order at the front of a
    buffer. Every operation panics ([None]) on a buffer that is too short. *)
Class NetworkEndian := {
  read_u16 : list Z → option Z;
  read_u32 : list Z → option Z;
  write_u16 : Z → list Z → option (list Z);
  write_u32 : Z → list Z → option (list Z);
  read_u16_spec : ∀ a b l, read_u16 (a :: b :: l) = Some (a * 256 + b);
  read_u16_short : ∀ l, (length l < 2)%nat → read_u16 l = None;
  read_u32_spec : ∀ a b c d l, read_u32 (a :: b :: c :: d :: l) = Some (((a * 256 + b) * 256 + c) * 256 + d);
  read_u32_short : ∀ l, (length l < 4)%nat → read_u32 l = None;
  write_u16_spec : ∀ n a b l, write_u16 n (a :: b :: l) = Some (n / 256 mod 256 :: n mod 256 :: l);
  write_u16_short : ∀ n l, (length l < 2)%nat → write_u16 n l = None;
  write_u32_spec : ∀ n a b c d l, write_u32 n (a :: b :: c :: d :: l) =
    Some (n / 16777216 mod 256 :: n / 65536 mod 256 :: n / 256 mod 256 :: n mod 256 :: l);
  write_u32_short : ∀ n l, (length l < 4)%nat → write_u32 n l = None;
}.

(** [wire::Error] *)
Inductive WireError := MalformedPacket.

(** ** Slices *)

(** [&data[a..b]] and [data.get(a..b)] *)
Definition get_range (a b : nat) (data : list Z) : option (list Z) :=
  if (a <=? b)%nat && (b <=? length data)%nat then Some (take (b - a) (drop a data)) else None.
Definition slice {E} (a b : nat) (data : list Z) : outcome E (list Z) := expect (get_range a b data).
(** An operation on [&mut data[a..b]], and on [&mut data[a..]] *)
Definition on_slice {E} (a b : nat) (f : list Z → option (list Z)) : prog (list Z) E () := λ data,
  match (s ← get_range a b data; f s) with
  | Some s' => (Ok (), take a data ++ s' ++ drop b data)
  | None => (Panic, data)
  end.
Definition on_tail {E} (a : nat) (f : list Z → option (list Z)) : prog (list Z) E () := λ data,
  on_slice a (length data) f data.
Definition as_u8 (x : Z) : Z := x mod 256.
Definition as_u16 (x : Z) : Z := x mod 2 ^ 16.

(** [copy_from_slice]: panics when the lengths differ *)
Definition copy_from_slice (src dst : list Z) : option (list Z) :=
  if (length src =? length dst)%nat then Some src else None.

(** A [for] loop with an accumulator, and [if let Some(a)] *)
Fixpoint for_fold {E A B} (f : B → A → outcome E B) (l : list A) (acc : B) : outcome E B :=
  match l with [] => Ok acc | a :: l => acc ← f acc a; for_fold f l acc end.
Definition if_some {S E A} (o : option A) (f : A → prog S E ()) : prog S E () :=
  match o with Some a => f a | None => mret () end.

(** ** The Internet checksum (ip.rs, [mod checksum]) *)

Abbreviation CHUNK_SIZE := 32%nat (only parsing).

Section checksum.
Context {NE : NetworkEndian}.

Definition propagate_carries {E} (word : Z) : outcome E Z :=
  let sum := Z.shiftr word 16 + Z.land word 0xffff in
  checked 0 (2 ^ 16 - 1) (as_u16 (Z.shiftr sum 16) + as_u16 sum).

(** The loop over 16-bit words, returning what is left *)
Fixpoint sum_words {E} (d : list Z) (accum : Z) : outcome E (Z * list Z) :=
  match d with
  | _ :: (_ :: d' as d1) =>
      v ← expect (read_u16 d);
      accum ← u32_checked (accum + v);
      sum_words d' accum
  | _ => Ok (accum, d)
  end.
Fixpoint sum_chunks {E} (fuel : nat) (d : list Z) (accum : Z) : outcome E (Z * list Z) :=
  match fuel with
  | O => Ok (accum, d)
  | S fuel =>
      if (CHUNK_SIZE <=? length d)%nat then
        r ← sum_words (take CHUNK_SIZE d) accum;
        sum_chunks fuel (drop CHUNK_SIZE d) r.1
      else Ok (accum, d)
  end.
Definition checksum_data {E} (d : list Z) : outcome E Z :=
  r ← sum_chunks (length d) d 0;
  r ← sum_words r.2 r.1;
  accum ← match r.2 with value :: _ => u32_checked (r.1 + Z.shiftl value 8) | [] => Ok r.1 end;
  propagate_carries accum.

Definition combine {E} (checksums : list Z) : outcome E Z :=
  accum ← for_fold (λ accum word, u32_checked (accum + word)) checksums 0; propagate_carries accum.

(** [octets()] of an address *)
Fixpoint octets (n : nat) (a : Z) : list Z :=
  match n with O => [] | S n => octets n (a / 256) ++ [a mod 256] end.
Definition protocol_number (p : IpProtocol) : Z :=
  match p with Tcp => 6 | OtherProtocol n => n end.
Definition pseudo_header_of {E} (src_octets dst_octets : list Z) (next : IpProtocol) (len : Z) : outcome E Z :=
  proto_len ← expect (s ← write_u16 (as_u16 len) [0; 0]; Some ([0; protocol_number next] ++ s));
  a ← checksum_data src_octets;
  b ← checksum_data dst_octets;
  c ← checksum_data proto_len;
  combine [a; b; c].
Definition pseudo_header {E} (src dst : IpAddress) (next : IpProtocol) (len : Z) : outcome E Z :=
  match src, dst with
  | Ipv4 a, Ipv4 b => pseudo_header_of (octets 4 a) (octets 4 b) next len
  | Ipv6 a, Ipv6 b => pseudo_header_of (octets 16 a) (octets 16 b) next len
  | _, _ => Panic
  end.

End checksum.

(** ** The fields of a packet (tcp.rs, [Packet]) *)

Module Packet.
(** [field::URGENT.end], and the flags *)
Abbreviation URGENT_END := 20%nat (only parsing).
Abbreviation FLG_FIN := (0x001)%Z (only parsing).
Abbreviation FLG_SYN := (0x002)%Z (only parsing).
Abbreviation FLG_RST := (0x004)%Z (only parsing).
Abbreviation FLG_PSH := (0x008)%Z (only parsing).
Abbreviation FLG_ACK := (0x010)%Z (only parsing).

Section packet.
Context {NE : NetworkEndian}.
Definition get_u16 {E} (a b : nat) (data : list Z) : outcome E Z := s ← slice a b data; expect (read_u16 s).
Definition get_i32 {E} (a b : nat) (data : list Z) : outcome E Z :=
  s ← slice a b data; v ← expect (read_u32 s); Ok (as_i32 v).
Definition src_port {E} : list Z → outcome E Z := get_u16 0 2.
Definition dst_port {E} : list Z → outcome E Z := get_u16 2 4.
Definition seq_number {E} : list Z → outcome E Z := get_i32 4 8.
Definition ack_number {E} : list Z → outcome E Z := get_i32 8 12.
(** [fin], [syn], [rst], [psh] and [ack], by the bit they test *)
Definition flag {E} (bit : Z) (data : list Z) : outcome E bool :=
  raw ← get_u16 12 14 data; Ok (negb (Z.land raw bit =? 0)).
Definition header_len {E} (data : list Z) : outcome E Z :=
  raw ← get_u16 12 14 data; Ok (as_u8 (Z.shiftr raw 12 * 4)).
Definition window_len {E} : list Z → outcome E Z := get_u16 14 16.
Definition check_len (data : list Z) : outcome WireError () :=
  if (length data <? URGENT_END)%nat then Err MalformedPacket
  else
    n ← header_len data;
    if (length data <? Z.to_nat n)%nat || (Z.to_nat n <? URGENT_END)%nat then Err MalformedPacket else Ok ().
Definition options {E} (data : list Z) : outcome E (list Z) :=
  n ← header_len data; slice URGENT_END (Z.to_nat n) data.
Definition payload {E} (data : list Z) : outcome E (list Z) :=
  n ← header_len data; slice (Z.to_nat n) (length data) data.

Definition set_u16 {E} (a b : nat) (value : Z) : prog (list Z) E () := on_slice a b (write_u16 value).
Definition set_i32 {E} (a b : nat) (value : Z) : prog (list Z) E () := on_slice a b (write_u32 (as_u32 value)).
Definition set_src_port {E} : Z → prog (list Z) E () := set_u16 0 2.
Definition set_dst_port {E} : Z → prog (list Z) E () := set_u16 2 4.
Definition set_seq_number {E} : Z → prog (list Z) E () := set_i32 4 8.
Definition set_ack_number {E} : Z → prog (list Z) E () := set_i32 8 12.
Definition clear_flags {E} : prog (list Z) E () :=
  raw ← inspect (get_u16 12 14); set_u16 12 14 (Z.ldiff raw 0x0fff).
Definition set_flag {E} (bit : Z) (value : bool) : prog (list Z) E () :=
  raw ← inspect (get_u16 12 14);
  set_u16 12 14 (if value then Z.lor raw bit else Z.ldiff raw bit).
Definition set_header_len {E} (value : Z) : prog (list Z) E () :=
  raw ← inspect (get_u16 12 14);
  set_u16 12 14 (Z.lor (Z.ldiff raw 0xf000) (as_u16 (Z.shiftl (value / 4) 12))).
Definition set_window_len {E} : Z → prog (list Z) E () := set_u16 14 16.
Definition set_checksum {E} : Z → prog (list Z) E () := set_u16 16 18.
Definition set_urgent_at {E} : Z → prog (list Z) E () := set_u16 18 20.

Definition packet_sum {E} (src dst : IpAddress) (data : list Z) : outcome E Z :=
  a ← pseudo_header src dst Tcp (as_u32 (Z.of_nat (length data)));
  b ← checksum_data data;
  combine [a; b].
Definition verify_checksum {E} (src dst : IpAddress) (data : list Z) : outcome E bool :=
  sum ← packet_sum src dst data; Ok (sum =? 2 ^ 16 - 1).
Definition fill_checksum {E} (src dst : IpAddress) : prog (list Z) E () :=
  set_checksum 0;;
  sum ← inspect (packet_sum src dst);
  set_checksum (2 ^ 16 - 1 - sum).
End packet.
End Packet.

(** ** Options (tcp.rs, [TcpOption]) *)

Module Option.
Inductive TcpOption :=
  | EndOfList
  | NoOperation
  | MaxSegmentSize (value : Z)
  | WindowScale (value : Z)
  | SackPermitted
  | SackRange (ranges : list (option (Z * Z)))
  | TimeStamp (tsval tsecr : Z)
  | Unknown (kind : Z) (data : list Z).

Abbreviation OPT_END := (0x00)%Z (only parsing).
Abbreviation OPT_NOP := (0x01)%Z (only parsing).
Abbreviation OPT_MSS := (0x02)%Z (only parsing).
Abbreviation OPT_WS := (0x03)%Z (only parsing).
Abbreviation OPT_SACKPERM := (0x04)%Z (only parsing).
Abbreviation OPT_SACKRNG := (0x05)%Z (only parsing).
Abbreviation OPT_TSTAMP := (0x08)%Z (only parsing).

Section option.
Context {NE : NetworkEndian}.


(** The body of the loop over the three ranges *)
Definition sack_block {E} (data : list Z) (i : nat) : outcome E (option (Z * Z)) :=
  let left := (i * 8)%nat in
  if (left <? length data)%nat then
    let mid := (left + 4)%nat in
    let right := (mid + 4)%nat in
    l ← slice left mid data; range_left ← expect (read_u32 l);
    r ← slice mid right data; range_right ← expect (read_u32 r);
    Ok (Some (range_left, range_right))
  else Ok None.
(** The match on the kind and the length; [length] counts the two leading octets. *)
Definition parse_kind (kind : Z) (len : nat) (data : list Z) : outcome WireError TcpOption :=
  if kind =? OPT_MSS then
    if (len =? 4)%nat then v ← expect (read_u16 data); Ok (MaxSegmentSize v) else Err MalformedPacket
  else if kind =? OPT_WS then
    if (len =? 3)%nat then v ← expect (data !! 0%nat); Ok (WindowScale v) else Err MalformedPacket
  else if kind =? OPT_SACKPERM then
    if (len =? 2)%nat then Ok SackPermitted else Err MalformedPacket
  else if kind =? OPT_SACKRNG then
    if (len <? 10)%nat || negb ((len - 2) mod 8 =? 0)%nat then Err MalformedPacket
    else
      a ← sack_block data 0; b ← sack_block data 1; c ← sack_block data 2;
      Ok (SackRange [a; b; c])
  else if (kind =? OPT_TSTAMP) && (len =? 10)%nat then
    l ← slice 0 4 data; tsval ← expect (read_u32 l);
    r ← slice 4 8 data; tsecr ← expect (read_u32 r);
    Ok (TimeStamp tsval tsecr)
  else Ok (Unknown kind data).
Definition parse (buffer : list Z) : outcome WireError (list Z * TcpOption) :=
  kind ← ok_or MalformedPacket (buffer !! 0%nat);
  r ← (if kind =? OPT_END then Ok (1%nat, EndOfList)
       else if kind =? OPT_NOP then Ok (1%nat, NoOperation)
       else
         len ← ok_or MalformedPacket (buffer !! 1%nat);
         data ← ok_or MalformedPacket (get_range 2 (Z.to_nat len) buffer);
         o ← parse_kind kind (Z.to_nat len) data;
         Ok (Z.to_nat len, o));
  rest ← slice r.1 (length buffer) buffer;
  Ok (rest, r.2).

Definition somes {A} (l : list (option A)) : list A := omap id l.
Definition buffer_len (o : TcpOption) : nat :=
  match o with
  | EndOfList | NoOperation => 1
  | MaxSegmentSize _ => 4
  | WindowScale _ => 3
  | SackPermitted => 2
  | SackRange s => length (somes s) * 8 + 2
  | TimeStamp _ _ => 10
  | Unknown _ data => 2 + length data
  end.
Fixpoint emit_blocks {E} (i : nat) (blocks : list (Z * Z)) : prog (list Z) E () :=
  match blocks with
  | [] => mret ()
  | (first, second) :: blocks =>
      let pos := (i * 8 + 2)%nat in
      on_tail pos (write_u32 first);;
      on_tail (pos + 4) (write_u32 second);;
      emit_blocks (S i) blocks
  end.
Definition write {E} (o : TcpOption) : prog (list Z) E () :=
  match o with
  | EndOfList => modify (fmap (λ _, OPT_END))
  | NoOperation => aset 0 OPT_NOP
  | _ =>
      aset 1 (as_u8 (Z.of_nat (buffer_len o)));;
      match o with
      | MaxSegmentSize value => aset 0 OPT_MSS;; on_tail 2 (write_u16 value)
      | WindowScale value => aset 0 OPT_WS;; aset 2 value
      | SackPermitted => aset 0 OPT_SACKPERM
      | SackRange s => aset 0 OPT_SACKRNG;; emit_blocks 0 (somes s)
      | TimeStamp tsval tsecr =>
          aset 0 OPT_TSTAMP;; on_tail 2 (write_u32 tsval);; on_tail 6 (write_u32 tsecr)
      | Unknown kind data => aset 0 kind;; on_tail 2 (copy_from_slice data)
      | _ => panic
      end
  end.
(** [o.emit(options)]: the octets before [options], and [options], which moves on *)
Definition emit {E} (o : TcpOption) : prog (list Z * list Z) E () := λ s,
  match write o s.2 with
  | (Ok _, buffer) =>
      if (buffer_len o <=? length buffer)%nat
      then (Ok (), (s.1 ++ take (buffer_len o) buffer, drop (buffer_len o) buffer))
      else (Panic, s)
  | (Err e, _) => (Err e, s)
  | (Panic, _) => (Panic, s)
  end.
End option.
End Option.

(** ** Segments (tcp.rs, [Repr::parse] and [Repr::emit]) *)

(** [phy::Checksum] *)
Inductive Checksum := CsBoth | CsRx | CsTx | CsNone.
Definition rx (c : Checksum) : bool := match c with CsBoth | CsRx => true | _ => false end.
Definition tx (c : Checksum) : bool := match c with CsBoth | CsTx => true | _ => false end.

Module Repr.
Import Option.
(** The local variables of the loop over the options *)
Record Options := MkOptions {
  o_max_seg_size : option Z;
  o_window_scale : option Z;
  o_sack_permitted : bool;
  o_sack_ranges : list (option (Z * Z));
  o_timestamp : option TcpTimestampRepr }.
Abbreviation no_options := (MkOptions None None false [None; None; None] None) (only parsing).

Section repr.
Context {NE : NetworkEndian}.

Definition control_of (syn fin rst psh : bool) : outcome WireError Control :=
  match syn, fin, rst, psh with
  | false, false, false, false => Ok CNone
  | false, false, false, true => Ok Psh
  | true, false, false, _ => Ok Syn
  | false, true, false, _ => Ok Fin
  | false, false, true, _ => Ok Rst
  | _, _, _, _ => Err MalformedPacket
  end.

Definition set_option (o : TcpOption) (r : Options) : Options :=
  let '(MkOptions mss ws sack ranges ts) := r in
  match o with
  | MaxSegmentSize value => MkOptions (Some value) ws sack ranges ts
  | WindowScale value => MkOptions mss (Some (if 14 <? value then 14 else value)) sack ranges ts
  | SackPermitted => MkOptions mss ws true ranges ts
  | SackRange slice => MkOptions mss ws sack slice ts
  | TimeStamp tsval tsecr => MkOptions mss ws sack ranges (Some (MkTimestamp tsval tsecr))
  | _ => r
  end.
Fixpoint parse_options (fuel : nat) (options : list Z) (r : Options) : outcome WireError Options :=
  match options, fuel with
  | [], _ => Ok r
  | _, O => Panic
  | _, S fuel =>
      x ← Option.parse options;
      match x.2 with
      | EndOfList => Ok r
      | o => parse_options fuel x.1 (set_option o r)
      end
  end.

Definition parse (src dst : IpAddress) (caps : Checksum) (packet : list Z) : outcome WireError TcpRepr :=
  Packet.check_len packet;;
  src_port ← Packet.src_port packet;
  if src_port =? 0 then Err MalformedPacket
  else
    dst_port ← Packet.dst_port packet;
    if dst_port =? 0 then Err MalformedPacket
    else
      valid ← (if rx caps then Packet.verify_checksum src dst packet else Ok true);
      if negb valid then Err MalformedPacket
      else
        syn ← Packet.flag Packet.FLG_SYN packet;
        fin ← Packet.flag Packet.FLG_FIN packet;
        rst ← Packet.flag Packet.FLG_RST packet;
        psh ← Packet.flag Packet.FLG_PSH packet;
        control ← control_of syn fin rst psh;
        ack ← Packet.flag Packet.FLG_ACK packet;
        ack_number ← (if ack : bool then n ← Packet.ack_number packet; Ok (Some n) else Ok None);
        options ← Packet.options packet;
        o ← parse_options (length options) options no_options;
        seq_number ← Packet.seq_number packet;
        window_len ← Packet.window_len packet;
        payload ← Packet.payload packet;
        Ok (MkRepr src_port dst_port control seq_number ack_number window_len
              (o_window_scale o) (o_max_seg_size o) (o_sack_permitted o) (o_sack_ranges o) (o_timestamp o) payload).

Definition emit_options {E} (r : TcpRepr) : prog (list Z * list Z) E () :=
  if_some (max_seg_size r) (λ value, Option.emit (MaxSegmentSize value));;
  if_some (window_scale r) (λ value, Option.emit (WindowScale value));;
  (if sack_permitted r then Option.emit SackPermitted
   else if bool_decide (is_Some (ack_number r)) && existsb (λ s, bool_decide (is_Some s)) (sack_ranges r)
   then Option.emit (SackRange (sack_ranges r)) else mret ());;
  if_some (timestamp r) (λ t, Option.emit (TimeStamp (tsval t) (tsecr t)));;
  options ← gets snd;
  match options with [] => mret () | _ => Option.emit EndOfList end.

(** Running a program on [packet.options_mut()] *)
Definition on_options {E} (m : prog (list Z * list Z) E ()) : prog (list Z) E () :=
  n ← inspect Packet.header_len;
  options ← inspect Packet.options;
  match m ([], options) with
  | (Ok _, (done, rest)) => on_slice Packet.URGENT_END (Z.to_nat n) (λ _, Some (done ++ rest))
  | (Err e, _) => throw e
  | (Panic, _) => panic
  end.
Definition emit {E} (r : TcpRepr) (src dst : IpAddress) (caps : Checksum) : prog (list Z) E () :=
  Packet.set_src_port (src_port r);;
  Packet.set_dst_port (dst_port r);;
  Packet.set_seq_number (seq_number r);;
  Packet.set_ack_number (default 0 (ack_number r));;
  Packet.set_window_len (window_len r);;
  Packet.set_header_len (as_u8 (header_len r));;
  Packet.clear_flags;;
  match control r with
  | CNone => mret ()
  | Psh => Packet.set_flag Packet.FLG_PSH true
  | Syn => Packet.set_flag Packet.FLG_SYN true
  | Fin => Packet.set_flag Packet.FLG_FIN true
  | Rst => Packet.set_flag Packet.FLG_RST true
  end;;
  Packet.set_flag Packet.FLG_ACK (bool_decide (is_Some (ack_number r)));;
  on_options (emit_options r);;
  Packet.set_urgent_at 0;;
  n ← inspect Packet.header_len;
  on_slice (Z.to_nat n) (Z.to_nat n + length (payload r)) (copy_from_slice (payload r));;
  if tx caps then Packet.fill_checksum src dst else Packet.set_checksum 0.
End repr.
End Repr.
