(* ===== verification/TcpCodec.v ===== *)
(** * The checksum and the options of TCP segments on the wire

    Numbers in network byte order, the Internet checksum as a sum with
    end-around carries whatever way the loops cut the octets, and the octets
    of each option: writing an option produces them and parsing reads them
    back. *)
From stdpp Require Import prelude list.
From S2P Require Import Prelude Wire SeqSpec TcpWire.
Open Scope Z_scope.

Definition octet (x : Z) : Prop := 0 <= x < 256.
Definition is_u16 (x : Z) : Prop := 0 <= x < 2 ^ 16.
Definition is_u32 (x : Z) : Prop := 0 <= x < 2 ^ 32.

(** ** Numbers in network byte order *)

Definition be16 (n : Z) : list Z := [n / 256 mod 256; n mod 256].
Definition be32 (n : Z) : list Z := [n / 16777216 mod 256; n / 65536 mod 256; n / 256 mod 256; n mod 256].
Lemma be16_octets n : Forall octet (be16 n).
Proof. unfold be16, octet. repeat constructor; apply Z.mod_pos_bound; lia. Qed.
Lemma be32_octets n : Forall octet (be32 n).
Proof. unfold be32, octet. repeat constructor; apply Z.mod_pos_bound; lia. Qed.
Lemma be16_value n : is_u16 n → n / 256 mod 256 * 256 + n mod 256 = n.
Proof. unfold is_u16. intros Hn. rewrite (Z.mod_small (n / 256)) by (split; [apply Z.div_pos|apply Z.div_lt_upper_bound]; lia).
  pose proof (Z.div_mod n 256). lia. Qed.
Lemma be32_value n : is_u32 n →
  ((n / 16777216 mod 256 * 256 + n / 65536 mod 256) * 256 + n / 256 mod 256) * 256 + n mod 256 = n.
Proof.
  unfold is_u32. intros Hn. rewrite (Z.mod_small (n / 16777216)) by (split; [apply Z.div_pos|apply Z.div_lt_upper_bound]; lia).
  replace 16777216 with (65536 * 256) by lia. rewrite <- Z.div_div by lia. replace 65536 with (256 * 256) by lia.
  rewrite <- Z.div_div by lia. pose proof (Z.div_mod n 256). pose proof (Z.div_mod (n / 256) 256).
  pose proof (Z.div_mod (n / 256 / 256) 256). lia.
Qed.
Lemma read_be16 a b : octet a → octet b → is_u16 (a * 256 + b).
Proof. unfold octet, is_u16. lia. Qed.
Lemma read_be32 a b c d : octet a → octet b → octet c → octet d → is_u32 (((a * 256 + b) * 256 + c) * 256 + d).
Proof. unfold octet, is_u32. lia. Qed.

Section codec.
Context {NE : NetworkEndian}.
Implicit Types (l d : list Z).

(** ** The checksum as a sum of 16-bit words *)

Lemma pair_ind (P : list Z → Prop) :
  P [] → (∀ a, P [a]) → (∀ a b l, P l → P (a :: b :: l)) → ∀ l, P l.
Proof.
  intros H0 H1 H2 l. assert (P l ∧ ∀ a, P (a :: l)) as [? _]; [|done].
  induction l as [|b l [IH1 IH2]]; [auto|]. split; auto.
Qed.
Fixpoint words l : Z := match l with a :: b :: l => a * 256 + b + words l | _ => 0 end.
Fixpoint odd_end l : list Z := match l with _ :: _ :: l => odd_end l | l => l end.
(** The sum of a buffer, an odd last octet being the high half of a word *)
Definition sum16 l : Z := words l + match odd_end l with a :: _ => a * 256 | [] => 0 end.

Lemma words_bound l : Forall octet l → 0 <= words l <= 65535 * (Z.of_nat (length l) / 2).
Proof.
  induction l as [|a|a b l IH] using pair_ind; [done|done|]. intros Hl. inversion_clear Hl as [|? ? Ha Hl']. inversion_clear Hl' as [|? ? Hb Hl].
  specialize (IH Hl). unfold octet in *. cbn [words length].
  replace (Z.of_nat (S (S (length l)))) with (Z.of_nat (length l) + 1 * 2) by lia. rewrite Z.div_add by lia. lia.
Qed.
Lemma sum_words_spec {E} l acc :
  Forall octet l → 0 <= acc → acc + words l <= u32_max → sum_words (E := E) l acc = Ok (acc + words l, odd_end l).
Proof.
  revert acc. induction l as [|a|a b l IH] using pair_ind; intros acc Hl H0 Hb; [cbn; do 2 f_equal; lia..|].
  inversion_clear Hl as [|? ? Ha Hl']. inversion_clear Hl' as [|? ? Hb' Hl].
  pose proof (words_bound l Hl). unfold octet in *. cbn [sum_words words odd_end] in *.
  rewrite read_u16_spec. cbn [expect mbind outcome_bind]. unfold u32_checked. rewrite checked_ok by lia. cbn [mbind outcome_bind].
  rewrite IH by (done || lia). do 2 f_equal. lia.
Qed.
Lemma words_split n l :
  (2 * n <= length l)%nat → words l = words (take (2 * n) l) + words (drop (2 * n) l) ∧ odd_end l = odd_end (drop (2 * n) l).
Proof.
  revert l. induction n as [|n IH]; intros l Hn; [cbn; done|].
  destruct l as [|a [|b l]]; cbn in Hn; [lia..|]. replace (2 * S n)%nat with (S (S (2 * n))) by lia. cbn [take drop words odd_end].
  destruct (IH l ltac:(cbn in Hn; lia)) as [-> ->]. split; [lia|done].
Qed.
Lemma sum_chunks_spec {E} fuel l acc :
  Forall octet l → 0 <= acc → acc + words l <= u32_max → (length l <= fuel)%nat →
  ∃ acc' l', sum_chunks (E := E) fuel l acc = Ok (acc', l') ∧ acc' + words l' = acc + words l ∧ odd_end l' = odd_end l ∧
    Forall octet l' ∧ 0 <= acc'.
Proof.
  revert l acc. induction fuel as [|fuel IH]; intros l acc Hl H0 Hb Hf; cbn [sum_chunks]; [by eexists _, _|].
  destruct (Nat.leb_spec CHUNK_SIZE (length l)) as [Hc|Hc]; [|by eexists _, _].
  destruct (words_split 16 l Hc) as [Hw Ho]. change (2 * 16)%nat with CHUNK_SIZE in *.
  pose proof (words_bound _ (Forall_drop octet CHUNK_SIZE l Hl)). pose proof (words_bound _ (Forall_take octet CHUNK_SIZE l Hl)).
  rewrite sum_words_spec by (done || lia || by apply Forall_take). cbn [mbind outcome_bind fst].
  destruct (IH (drop CHUNK_SIZE l) (acc + words (take CHUNK_SIZE l))) as (acc' & l' & Hs & Ha & Ho' & Hl' & Hp); [by apply Forall_drop|lia|lia| |].
  { rewrite length_drop. lia. }
  exists acc', l'. split_and!; try done; [lia|congruence].
Qed.

(** The end-around carry *)
Definition fold16 (w : Z) : Z := let s := w / 65536 + w mod 65536 in s / 65536 + s mod 65536.
Lemma fold16_range w : is_u32 w → 0 <= fold16 w <= 65535 ∧ (fold16 w = 0 → w = 0).
Proof.
  unfold is_u32, fold16. intros Hw. pose proof (Z.div_mod w 65536). pose proof (Z.mod_pos_bound w 65536).
  assert (0 <= w / 65536 < 65536) by (split; [apply Z.div_pos|apply Z.div_lt_upper_bound]; lia).
  set (s := w / 65536 + w mod 65536) in *. pose proof (Z.div_mod s 65536). pose proof (Z.mod_pos_bound s 65536).
  assert (0 <= s / 65536 <= 1) by (split; [apply Z.div_pos|apply Z.lt_succ_r, Z.div_lt_upper_bound]; lia). lia.
Qed.
Lemma fold16_mod w : ∃ k, fold16 w = w + 65535 * k.
Proof.
  unfold fold16. set (s := w / 65536 + w mod 65536). exists (- (w / 65536) - s / 65536).
  pose proof (Z.div_mod w 65536). pose proof (Z.div_mod s 65536). unfold s in *. lia.
Qed.
Lemma propagate_carries_spec {E} w : is_u32 w → propagate_carries (E := E) w = Ok (fold16 w).
Proof.
  intros Hw. unfold propagate_carries. change 0xffff with (Z.ones 16). rewrite !Z.shiftr_div_pow2, Z.land_ones by lia.
  change (2 ^ 16) with 65536. fold (fold16 w). destruct (fold16_range w Hw) as [Hf _].
  unfold fold16 in *. unfold is_u32 in Hw. set (s := w / 65536 + w mod 65536) in *. unfold as_u16. change (2 ^ 16) with 65536.
  assert (0 <= s < 131072) as Hs.
  { pose proof (Z.mod_pos_bound w 65536). assert (0 <= w / 65536 < 65536) by (split; [apply Z.div_pos|apply Z.div_lt_upper_bound]; lia). lia. }
  rewrite (Z.mod_small (s / 65536)) by (split; [apply Z.div_pos|apply Z.div_lt_upper_bound]; lia). by apply checked_ok.
Qed.

(** Buffers of at most 2^16 octets, as IP packets are, cannot overflow the accumulator. *)
Definition packet_sized l : Prop := Z.of_nat (length l) <= 65535.
Lemma odd_end_octets l : Forall octet l → Forall octet (odd_end l).
Proof. induction l as [|a|a b l IH] using pair_ind; try done. intros Hl. apply IH. by inversion_clear Hl as [|? ? _ Hl']; inversion_clear Hl'. Qed.
Lemma sum16_bound l : Forall octet l → packet_sized l → is_u32 (sum16 l) ∧ words l <= sum16 l.
Proof.
  intros Hl Hs. pose proof (words_bound l Hl). unfold packet_sized, sum16, is_u32 in *.
  assert (Z.of_nat (length l) / 2 <= 32768) by (apply Z.div_le_upper_bound; lia).
  pose proof (odd_end_octets l Hl) as Ho. destruct (odd_end l) as [|a ?]; [lia|]. inversion_clear Ho. unfold octet in *. lia.
Qed.
Lemma sum16_room l : Forall octet l → packet_sized l → 0 <= sum16 l ∧ is_u32 (sum16 l + 65535).
Proof.
  intros Hl Hs. pose proof (words_bound l Hl). pose proof (Z.div_le_mono _ _ 2 ltac:(lia) Hs). change (65535 / 2) with 32767 in *.
  pose proof (odd_end_octets l Hl) as Ho. unfold is_u32, sum16. destruct (odd_end l) as [|a ?]; [lia|].
  inversion_clear Ho as [|? ? Ha]. unfold octet in Ha. lia.
Qed.
Lemma checksum_data_spec {E} l : Forall octet l → packet_sized l → checksum_data (E := E) l = Ok (fold16 (sum16 l)).
Proof.
  intros Hl Hs. destruct (sum16_bound l Hl Hs) as [Hr Hw]. unfold checksum_data.
  assert (words l <= u32_max) by (unfold is_u32, u32_max in *; lia).
  destruct (sum_chunks_spec (E := E) (length l) l 0) as (acc & l' & -> & Ha & Ho & Hl' & Hp); [done|done|lia|done|].
  cbn [mbind outcome_bind fst snd]. rewrite sum_words_spec by (done || lia). cbn [mbind outcome_bind fst snd].
  rewrite Ho. unfold sum16 in *. destruct (odd_end l) as [|a e]; cbn [mbind outcome_bind].
  - rewrite propagate_carries_spec by (unfold is_u32 in *; lia). do 2 f_equal. lia.
  - rewrite Z.shiftl_mul_pow2 by lia. change (2 ^ 8) with 256. unfold u32_checked, is_u32, u32_max in *. rewrite checked_ok by lia.
    cbn [mbind outcome_bind]. rewrite propagate_carries_spec by (unfold is_u32; lia). do 2 f_equal. lia.
Qed.
Lemma combine_spec {E} cs :
  Forall (λ c, 0 <= c <= 65535) cs → (length cs <= 3)%nat → combine (E := E) cs = Ok (fold16 (foldr Z.add 0 cs)).
Proof.
  intros Hc Hn. unfold combine, u32_checked.
  assert (∀ acc, 0 <= acc <= 65535 * (3 - Z.of_nat (length cs)) → for_fold (λ acc c, checked (E := E) 0 u32_max (acc + c)) cs acc = Ok (acc + foldr Z.add 0 cs) ∧
    0 <= acc + foldr Z.add 0 cs <= 65535 * 3) as Hs.
  { induction Hc as [|c cs Hc Hcs IH]; intros acc Ha; cbn [for_fold foldr length] in *; [split; [f_equal|]; lia|].
    rewrite checked_ok by (unfold u32_max; lia). cbn [mbind outcome_bind].
    destruct (IH ltac:(lia) (acc + c)) as [-> ?]; [lia|]. split; [f_equal|]; lia. }
  destruct (Hs 0) as [-> ?]; [lia|]. cbn [mbind outcome_bind]. rewrite propagate_carries_spec by (unfold is_u32; lia). done.
Qed.

Definition same_family (a b : IpAddress) : Prop := version a = version b.
Lemma octets_spec n a : Forall octet (octets n a) ∧ length (octets n a) = n.
Proof.
  revert a. induction n as [|n IH]; intros a; cbn; [done|]. destruct (IH (a / 256)) as [H1 H2]. rewrite length_app, H2. cbn.
  split; [|lia]. apply Forall_app. split; [done|]. constructor; [|done]. apply Z.mod_pos_bound. lia.
Qed.
Lemma pseudo_header_spec {E} src dst len :
  same_family src dst → ∃ ph, pseudo_header (E := E) src dst Tcp len = Ok ph ∧ 0 < ph <= 65535.
Proof.
  intros Hf. assert (∀ n a b, (n <= 16)%nat → ∃ ph, pseudo_header_of (E := E) (octets n a) (octets n b) Tcp len = Ok ph ∧ 0 < ph <= 65535) as Hof.
  { intros n a b Hn. unfold pseudo_header_of. rewrite write_u16_spec. cbn [mbind option_bind expect outcome_bind app protocol_number].
    destruct (octets_spec n a) as [Ha Hla], (octets_spec n b) as [Hb Hlb].
    set (pl := [0; 6; _; _]). assert (Forall octet pl) as Hp.
    { unfold pl. constructor; [unfold octet; lia|]. constructor; [unfold octet; lia|]. apply be16_octets. }
    assert (packet_sized pl) as Hps by (unfold packet_sized; cbn; lia).
    rewrite !checksum_data_spec by (done || (unfold packet_sized; lia)). cbn [mbind outcome_bind].
    assert (packet_sized (octets n a) ∧ packet_sized (octets n b)) as [Hsa Hsb] by (unfold packet_sized; lia).
    destruct (fold16_range (sum16 (octets n a))) as [Ra _]; [by apply sum16_bound|].
    destruct (fold16_range (sum16 (octets n b))) as [Rb _]; [by apply sum16_bound|].
    destruct (fold16_range (sum16 pl)) as [Rp Zp]; [by apply sum16_bound|].
    rewrite combine_spec by (repeat constructor; done || (cbn; lia)). cbn [foldr]. eexists. split; [done|].
    assert (fold16 (sum16 pl) ≠ 0) as Hne.
    { intros Hz%Zp. destruct (sum16_bound pl Hp Hps) as [_ Hw]. revert Hz Hw. unfold pl, sum16. cbn [words odd_end].
      pose proof (be16_octets (as_u16 len)) as Ho. inversion_clear Ho as [|? ? H1 H2]. inversion_clear H2 as [|? ? H3 _]. unfold octet in *. lia. }
    destruct (fold16_range (fold16 (sum16 (octets n a)) + (fold16 (sum16 (octets n b)) + (fold16 (sum16 pl) + 0)))) as [Rs Zs];
      [unfold is_u32; lia|]. lia. }
  unfold pseudo_header. destruct src, dst; try done; apply Hof; lia.
Qed.
(** The checksum of a packet: its complement makes the sum all ones. *)
Lemma packet_sum_spec {E} src dst l :
  Forall octet l → packet_sized l → same_family src dst →
  ∃ ph, 0 < ph <= 65535 ∧ (∀ d, Forall octet d → length d = length l → Packet.packet_sum (E := E) src dst d = Ok (fold16 (ph + fold16 (sum16 d)))).
Proof.
  intros Hl Hs Hf. destruct (pseudo_header_spec (E := E) src dst (as_u32 (Z.of_nat (length l))) Hf) as (ph & Hph & Hr).
  exists ph. split; [done|]. intros d Hd Hlen. assert (packet_sized d) as Hsd by (unfold packet_sized in *; by rewrite Hlen).
  unfold Packet.packet_sum. rewrite Hlen, Hph. cbn [mbind outcome_bind]. rewrite checksum_data_spec by done. cbn [mbind outcome_bind].
  destruct (fold16_range (sum16 d)) as [Rd _]; [by apply sum16_bound|].
  rewrite combine_spec by (repeat constructor; done || (cbn; lia)). cbn [foldr]. do 2 f_equal. lia.
Qed.
Lemma complement ph s :
  0 < ph <= 65535 → is_u32 (s + 65535) → 0 <= s → fold16 (ph + fold16 (s + (65535 - fold16 (ph + fold16 s)))) = 65535.
Proof.
  unfold is_u32. intros Hp Hs H0. destruct (fold16_range s) as [R1 _]; [unfold is_u32; lia|].
  destruct (fold16_range (ph + fold16 s)) as [R2 _]; [unfold is_u32; lia|].
  set (c := 65535 - fold16 (ph + fold16 s)) in *. destruct (fold16_range (s + c)) as [R3 _]; [unfold is_u32; lia|].
  destruct (fold16_range (ph + fold16 (s + c))) as [R4 Z4]; [unfold is_u32; lia|].
  destruct (fold16_mod s) as [k1 E1], (fold16_mod (ph + fold16 s)) as [k2 E2], (fold16_mod (s + c)) as [k3 E3],
    (fold16_mod (ph + fold16 (s + c))) as [k4 E4]. unfold c in *. lia.
Qed.

(** ** The octets of an option *)

Import Option.
Definition enc_block (b : Z * Z) : list Z := be32 b.1 ++ be32 b.2.
Definition enc (o : TcpOption) : list Z :=
  match o with
  | EndOfList => [OPT_END]
  | NoOperation => [OPT_NOP]
  | MaxSegmentSize v => [OPT_MSS; 4] ++ be16 v
  | WindowScale v => [OPT_WS; 3; v]
  | SackPermitted => [OPT_SACKPERM; 2]
  | SackRange s => [OPT_SACKRNG; Z.of_nat (buffer_len o)] ++ concat (enc_block <$> somes s)
  | TimeStamp a b => [OPT_TSTAMP; 10] ++ be32 a ++ be32 b
  | Unknown kind data => [kind; Z.of_nat (buffer_len o)] ++ data
  end.
(** The options a segment has, with their values in range *)
Definition is_block (b : Z * Z) : Prop := is_u32 b.1 ∧ is_u32 b.2.
Definition ranges_ok (s : list (option (Z * Z))) : Prop := length s = 3%nat ∧ Forall is_block (somes s).
Definition option_ok (o : TcpOption) : Prop :=
  match o with
  | MaxSegmentSize v => is_u16 v
  | WindowScale v => octet v
  | SackPermitted => True
  | SackRange s => ranges_ok s ∧ somes s ≠ []
  | TimeStamp a b => is_u32 a ∧ is_u32 b
  | _ => False
  end.
Lemma somes_length {A} (s : list (option A)) : (length (somes s) <= length s)%nat.
Proof. unfold somes. induction s as [|[a|] s IH]; cbn in *; lia. Qed.

(** Writing at a known place of the buffer *)
Lemma on_tail_app {E} pre post f a post' :
  length pre = a → f post = Some post' → on_tail (E := E) a f (pre ++ post) = (Ok (), pre ++ post').
Proof.
  intros <- Hf. unfold on_tail, on_slice, get_range. rewrite length_app, (proj2 (Nat.leb_le _ _)), Nat.leb_refl by lia. cbn [andb mbind option_bind].
  rewrite drop_app_length. replace (length pre + length post - length pre)%nat with (length post) by lia.
  rewrite firstn_all, Hf, take_app_length, drop_ge by (rewrite length_app; lia). by rewrite app_nil_r.
Qed.
Lemma on_tail_two {E} x y l l' f :
  f l = Some l' → on_tail (E := E) 2 f (x :: y :: l) = (Ok (), x :: y :: l').
Proof. intros Hf. by apply (on_tail_app [x; y] l). Qed.
Lemma write_be32 n l : (4 <= length l)%nat → write_u32 n l = Some (be32 n ++ drop 4 l).
Proof. destruct l as [|a [|b [|c [|d l]]]]; cbn [length]; intros; try lia. by rewrite write_u32_spec. Qed.
Lemma write_be16 n l : (2 <= length l)%nat → write_u16 n l = Some (be16 n ++ drop 2 l).
Proof. destruct l as [|a [|b l]]; cbn [length]; intros; try lia. by rewrite write_u16_spec. Qed.

Lemma emit_blocks_spec {E} blocks i pre post :
  length pre = (i * 8 + 2)%nat → (length blocks * 8 <= length post)%nat →
  emit_blocks (E := E) i blocks (pre ++ post) = (Ok (), pre ++ concat (enc_block <$> blocks) ++ drop (length blocks * 8) post).
Proof.
  revert i pre post. induction blocks as [|[a b] blocks IH]; intros i pre post Hp Hl; cbn [length] in Hl; [done|].
  cbn [emit_blocks fmap list_fmap concat length]. unfold mbind, prog_bind.
  rewrite (on_tail_app pre post _ _ (be32 a ++ drop 4 post)) by (done || apply write_be32; lia).
  rewrite app_assoc, (on_tail_app (pre ++ be32 a) (drop 4 post) _ _ (be32 b ++ drop 4 (drop 4 post)));
    [|rewrite length_app; cbn [be32 length]; lia|apply write_be32; rewrite length_drop; lia].
  rewrite app_assoc, IH; [|rewrite !length_app; cbn [be32 length]; lia|rewrite !length_drop; lia].
  f_equal. unfold enc_block. cbn [fst snd]. by rewrite <- !app_assoc, !drop_drop.
Qed.
Lemma write_enc {E} o l :
  option_ok o → (buffer_len o <= length l)%nat → write (E := E) o l = (Ok (), enc o ++ drop (buffer_len o) l).
Proof.
  intros Ho Hl. destruct o as [| |v|v| |s|a b|]; try done; cbn [buffer_len] in Hl.
  - destruct l as [|x0 [|x1 l]]; cbn [length] in Hl; try lia. cbn [write]. unfold mbind, prog_bind, aset. cbn [length Nat.ltb Nat.leb insert list_insert].
    by rewrite (on_tail_two _ _ l (be16 v ++ drop 2 l)) by (apply write_be16; lia).
  - destruct l as [|x0 [|x1 [|x2 l]]]; cbn [length] in Hl; try lia. done.
  - destruct l as [|x0 [|x1 l]]; cbn [length] in Hl; try lia. done.
  - destruct l as [|x0 [|x1 l]]; cbn [length] in Hl; try lia. cbn [write]. unfold mbind, prog_bind, aset. cbn [length Nat.ltb Nat.leb insert list_insert].
    destruct Ho as [[Hs _] _]. pose proof (somes_length s).
    pose proof (emit_blocks_spec (E := E) (somes s) 0 [OPT_SACKRNG; as_u8 (Z.of_nat (buffer_len (SackRange s)))] l) as Hb. cbn [app] in Hb.
    rewrite Hb by (done || lia). cbn [enc app buffer_len]. unfold as_u8. rewrite Z.mod_small by lia.
    replace (length (somes s) * 8 + 2)%nat with (S (S (length (somes s) * 8))) by lia. done.
  - destruct l as [|x0 [|x1 l]]; cbn [length] in Hl; try lia. cbn [write]. unfold mbind, prog_bind, aset. cbn [length Nat.ltb Nat.leb insert list_insert].
    rewrite (on_tail_two _ _ l (be32 a ++ drop 4 l)) by (apply write_be32; lia).
    pose proof (on_tail_app (E := E) ([OPT_TSTAMP; as_u8 (Z.of_nat (buffer_len (TimeStamp a b)))] ++ be32 a) (drop 4 l)
      (write_u32 b) 6 (be32 b ++ drop 4 (drop 4 l)) eq_refl) as Hb. rewrite <- app_assoc in Hb. cbn [app] in Hb.
    rewrite Hb by (apply write_be32; rewrite length_drop; lia). by rewrite drop_drop.
Qed.
Lemma enc_length o : option_ok o → length (enc o) = buffer_len o.
Proof.
  destruct o as [| |v|v| |s|a b|]; try done. intros _. cbn [enc buffer_len]. rewrite length_app. cbn [length].
  induction (somes s) as [|[a b] l IH]; cbn in *; lia.
Qed.
Lemma emit_enc {E} o done l :
  option_ok o → (buffer_len o <= length l)%nat →
  Option.emit (E := E) o (done, l) = (Ok (), (done ++ enc o, drop (buffer_len o) l)).
Proof.
  intros Ho Hl. unfold Option.emit. cbn [fst snd]. rewrite write_enc by done. cbn iota beta.
  rewrite (proj2 (Nat.leb_le _ _)) by (rewrite length_app, enc_length by done; lia).
  rewrite <- (enc_length o Ho), take_app_length, drop_app_length. done.
Qed.

(** ** Reading options back *)

Lemma get_range_mid pre mid post a b :
  length pre = a → (a + length mid = b)%nat → get_range a b (pre ++ mid ++ post) = Some mid.
Proof.
  intros <- <-. unfold get_range. rewrite !length_app, !(proj2 (Nat.leb_le _ _)) by lia. cbn [andb].
  rewrite drop_app_length. replace (length pre + length mid - length pre)%nat with (length mid) by lia. by rewrite take_app_length.
Qed.
Lemma slice_tail {E} pre post a :
  length pre = a → slice (E := E) a (length (pre ++ post)) (pre ++ post) = Ok post.
Proof.
  intros Ha. unfold slice. pose proof (get_range_mid pre post [] a (length (pre ++ post)) Ha) as Hg.
  rewrite app_nil_r in Hg. rewrite Hg; [done|]. rewrite length_app. lia.
Qed.
Lemma parse_at kind body rest o :
  kind ≠ OPT_END → kind ≠ OPT_NOP → parse_kind kind (2 + length body) body = Ok o →
  Option.parse (kind :: Z.of_nat (2 + length body) :: body ++ rest) = Ok (rest, o).
Proof.
  intros H0 H1 Hp. unfold Option.parse. cbn [lookup list_lookup ok_or mbind outcome_bind].
  rewrite (proj2 (Z.eqb_neq _ _) H0), (proj2 (Z.eqb_neq _ _) H1). rewrite Nat2Z.id.
  rewrite (get_range_mid [kind; Z.of_nat (2 + length body)] body rest 2) by done. cbn [ok_or mbind outcome_bind]. rewrite Hp. cbn [fst snd mbind outcome_bind].
  rewrite (slice_tail (kind :: Z.of_nat (2 + length body) :: body) rest) by done. done.
Qed.
(** The ranges that are present, first *)
Definition packed (s : list (option (Z * Z))) : list (option (Z * Z)) :=
  take 3 ((Some <$> somes s) ++ [None; None; None]).
Definition read_back (o : TcpOption) : TcpOption :=
  match o with SackRange s => SackRange (packed s) | o => o end.
Lemma enc_block_length b : length (enc_block b) = 8%nat.
Proof. done. Qed.
Lemma be32_length n : length (be32 n) = 4%nat.
Proof. done. Qed.
Lemma read_u32_be n l : is_u32 n → read_u32 (be32 n ++ l) = Some n.
Proof. intros Hn. unfold be32. cbn [app]. by rewrite read_u32_spec, be32_value. Qed.
Lemma read_u16_be n l : is_u16 n → read_u16 (be16 n ++ l) = Some n.
Proof. intros Hn. unfold be16. cbn [app]. by rewrite read_u16_spec, be16_value. Qed.
Lemma blocks_length bl : length (concat (enc_block <$> bl)) = (length bl * 8)%nat.
Proof. induction bl as [|b bl IH]; [done|]. rewrite fmap_cons. cbn [concat length]. rewrite length_app, IH, enc_block_length. lia. Qed.
Lemma read_block {E} pre b post i :
  is_block b → length pre = (i * 8)%nat → sack_block (E := E) (pre ++ enc_block b ++ post) i = Ok (Some b).
Proof.
  intros [H1 H2] Hp. unfold sack_block. rewrite (proj2 (Nat.ltb_lt _ _)) by (rewrite !length_app, enc_block_length; lia).
  unfold slice, enc_block. rewrite <- app_assoc.
  rewrite (get_range_mid pre (be32 b.1) _ (i * 8)) by (rewrite ?be32_length; lia).
  rewrite (app_assoc pre), (get_range_mid (pre ++ be32 b.1) (be32 b.2) _ (i * 8 + 4)) by (rewrite ?length_app, ?be32_length; lia).
  cbn [expect mbind outcome_bind]. rewrite <- (app_nil_r (be32 b.1)), <- (app_nil_r (be32 b.2)), !read_u32_be by done. by destruct b.
Qed.
Lemma read_no_block {E} d i : (length d <= i * 8)%nat → sack_block (E := E) d i = Ok None.
Proof. intros Hd. unfold sack_block. by rewrite (proj2 (Nat.ltb_ge _ _)). Qed.
Lemma parse_ranges bl :
  (1 <= length bl <= 3)%nat → Forall is_block bl →
  parse_kind OPT_SACKRNG (2 + length (concat (enc_block <$> bl))) (concat (enc_block <$> bl)) =
    Ok (SackRange (take 3 ((Some <$> bl) ++ [None; None; None]))).
Proof.
  intros Hn Hb. unfold parse_kind. cbn [Z.eqb Pos.eqb].
  destruct bl as [|b1 [|b2 [|b3 [|]]]]; cbn [length] in Hn; try lia; decompose_Forall_hyps; cbn [fmap list_fmap concat].
  - rewrite (read_block [] b1 [] 0) by done. done.
  - rewrite (read_block [] b1 (enc_block b2 ++ []) 0) by done.
    by rewrite (read_block (enc_block b1) b2 [] 1) by done.
  - rewrite (read_block [] b1 (enc_block b2 ++ enc_block b3 ++ []) 0) by done.
    rewrite (read_block (enc_block b1) b2 (enc_block b3 ++ []) 1) by done.
    by rewrite (read_block (enc_block b1 ++ enc_block b2) b3 [] 2) by done.
Qed.
Lemma parse_enc o rest : option_ok o → Option.parse (enc o ++ rest) = Ok (rest, read_back o).
Proof.
  destruct o as [| |v|v| |s|a b|]; try done; intros Ho; cbn [enc read_back].
  - apply (parse_at OPT_MSS (be16 v)); try done. unfold parse_kind. cbn [Z.eqb Pos.eqb Nat.eqb length be16 Nat.add].
    unfold be16. by rewrite read_u16_spec, be16_value.
  - by apply (parse_at OPT_WS [v]).
  - by apply (parse_at OPT_SACKPERM []).
  - destruct Ho as [[Hl Hb] Hne]. pose proof (somes_length s).
    pose proof (blocks_length (somes s)) as Hlen.
    pose proof (parse_at OPT_SACKRNG (concat (enc_block <$> somes s)) rest (SackRange (packed s))) as Hp.
    rewrite <- app_assoc. cbn [app]. rewrite Hlen in Hp. cbn [buffer_len]. replace (length (somes s) * 8 + 2)%nat with (2 + length (somes s) * 8)%nat by lia.
    apply Hp; try done. rewrite <- Hlen. apply parse_ranges; [|done]. split; [|lia]. destruct (somes s); [done|cbn; lia].
  - destruct Ho as [Ha Hb]. rewrite <- app_assoc. cbn [app]. apply (parse_at OPT_TSTAMP (be32 a ++ be32 b)); try done.
    unfold parse_kind. cbn [Z.eqb Pos.eqb]. rewrite length_app, !be32_length. cbn [Nat.add Nat.eqb andb].
    unfold slice. rewrite (get_range_mid [] (be32 a) (be32 b) 0), <- (app_nil_r (be32 b)), (get_range_mid (be32 a) (be32 b) [] 4) by done.
    cbn [expect mbind outcome_bind]. by rewrite <- (app_nil_r (be32 a)), <- (app_nil_r (be32 b)), !read_u32_be.
Qed.

(** ** The options of a segment *)

Definition sack_option (r : TcpRepr) : list TcpOption :=
  if sack_permitted r then [SackPermitted]
  else if bool_decide (is_Some (ack_number r)) && existsb (λ s, bool_decide (is_Some s)) (sack_ranges r)
  then [SackRange (sack_ranges r)] else [].
Definition opts_of (r : TcpRepr) : list TcpOption :=
  match max_seg_size r with Some v => [MaxSegmentSize v] | None => [] end ++
  match window_scale r with Some v => [WindowScale v] | None => [] end ++ sack_option r ++
  match timestamp r with Some t => [TimeStamp (tsval t) (tsecr t)] | None => [] end.
Definition enc_all (os : list TcpOption) : list Z := concat (enc <$> os).
Definition total_len (os : list TcpOption) : nat := foldr (λ o n, (buffer_len o + n)%nat) 0%nat os.

Lemma enc_all_length os : Forall option_ok os → length (enc_all os) = total_len os.
Proof.
  induction 1 as [|o os Ho Hos IH]; [done|]. unfold enc_all in *. rewrite fmap_cons. cbn [concat total_len foldr].
  rewrite length_app, IH, enc_length by done. done.
Qed.
Lemma parse_options_enc os fuel pad acc :
  Forall option_ok os → (length (enc_all os) + pad <= fuel)%nat →
  Repr.parse_options fuel (enc_all os ++ replicate pad 0) acc = Ok (foldl (λ r o, Repr.set_option (read_back o) r) acc os).
Proof.
  intros Hos. revert fuel acc. induction Hos as [|o os Ho Hos IH]; intros fuel acc Hf.
  - destruct pad as [|pad]; [by destruct fuel|]. destruct fuel as [|fuel]; cbn in Hf; [lia|]. cbn [enc_all app replicate Repr.parse_options fmap list_fmap concat].
    unfold Option.parse. cbn [lookup list_lookup ok_or mbind outcome_bind Z.eqb fst snd].
    by rewrite (slice_tail [0] (replicate pad 0) 1).
  - unfold enc_all in *. rewrite fmap_cons in Hf |- *. cbn [concat] in Hf |- *. rewrite length_app, enc_length in Hf by done.
    rewrite <- app_assoc. assert (1 <= buffer_len o)%nat as H1 by (destruct o; cbn; lia).
    pose proof (enc_length o Ho) as Hl. destruct fuel as [|fuel]; [lia|].
    destruct (enc o ++ concat (enc <$> os) ++ replicate pad 0) as [|x l] eqn:Heq; [apply (f_equal length) in Heq; rewrite length_app in Heq; cbn in Heq; lia|].
    cbn [Repr.parse_options]. rewrite <- Heq, parse_enc by done. cbn [mbind outcome_bind fst snd].
    destruct o; try done; cbn [read_back foldl]; apply IH; lia.
Qed.
Lemma emit_all {E} os done l :
  Forall option_ok os → (total_len os <= length l)%nat →
  for_each os (Option.emit (E := E)) (done, l) = (Ok (), (done ++ enc_all os, drop (total_len os) l)).
Proof.
  intros Hos. revert done l. induction Hos as [|o os Ho Hos IH]; intros dn l Hl; cbn [for_each total_len foldr] in *.
  - unfold enc_all. cbn. by rewrite app_nil_r.
  - unfold mbind, prog_bind. rewrite emit_enc by (done || lia). rewrite IH by (rewrite length_drop; unfold total_len; lia).
    unfold enc_all. rewrite fmap_cons. cbn [concat]. by rewrite drop_drop, app_assoc.
Qed.
Lemma emit_options_spec {E} r l :
  Forall option_ok (opts_of r) → (total_len (opts_of r) <= length l)%nat →
  ∃ a b, Repr.emit_options (E := E) r ([], l) = (Ok (), (a, b)) ∧
    a ++ b = enc_all (opts_of r) ++ replicate (length l - total_len (opts_of r)) 0.
Proof.
  intros Hos Hl. pose proof (emit_all (E := E) (opts_of r) [] l Hos Hl) as Hall. cbn [app] in Hall.
  assert (Repr.emit_options (E := E) r ([], l) =
    (for_each (opts_of r) (Option.emit (E := E));; options ← gets snd;
     match options with [] => mret () | _ => Option.emit EndOfList end : prog _ E ()) ([], l)) as ->.
  { unfold Repr.emit_options, opts_of, sack_option, if_some, mbind, prog_bind, gets, mret, prog_ret.
    destruct (max_seg_size r), (window_scale r), (timestamp r), (sack_permitted r); try destruct (_ && _); cbn [app for_each]; unfold mbind, prog_bind, mret, prog_ret;
      repeat (case_match; try done). }
  unfold mbind, prog_bind, gets. rewrite Hall. cbn [snd fst].
  rewrite <- (length_drop l (total_len (opts_of r))). destruct (drop (total_len (opts_of r)) l) as [|x l'].
  - eexists _, _. split; [done|]. cbn. done.
  - unfold Option.emit. cbn [write snd fst]. unfold modify. cbn [buffer_len fmap list_fmap length Nat.leb take drop].
    eexists _, _. split; [done|]. rewrite <- app_assoc. cbn [app length replicate]. do 2 f_equal.
    clear. rewrite take_0, drop_0. cbn [app]. induction l' as [|y l' IH]; cbn; [done|]. by f_equal.
Qed.
End codec.
