(* ===== verification/TcpSegment.v ===== *)
(** * Parsing and emission of TCP segments

    The octets of a segment as a specification (header, options, payload).
    Emission writes exactly those octets with a checksum that verifies,
    parsing reads them back, and parsing arbitrary octets never panics. *)
From stdpp Require Import prelude list.
From S2P Require Import Prelude Wire SeqSpec TcpWire TcpCodec.
Import Option.
Open Scope Z_scope.

Section codec.
Context {NE : NetworkEndian}.

(** ** The header *)

(** The eight fields of the header, as the octets of each, and what follows *)
Record fields := Fields { f_src : list Z; f_dst : list Z; f_seq : list Z; f_ack : list Z;
  f_flags : list Z; f_win : list Z; f_sum : list Z; f_urg : list Z }.
Definition shaped (f : fields) : Prop :=
  length (f_src f) = 2%nat ∧ length (f_dst f) = 2%nat ∧ length (f_seq f) = 4%nat ∧ length (f_ack f) = 4%nat ∧
  length (f_flags f) = 2%nat ∧ length (f_win f) = 2%nat ∧ length (f_sum f) = 2%nat ∧ length (f_urg f) = 2%nat.
Definition header (f : fields) : list Z :=
  f_src f ++ f_dst f ++ f_seq f ++ f_ack f ++ f_flags f ++ f_win f ++ f_sum f ++ f_urg f.
Lemma header_length f : shaped f → length (header f) = 20%nat.
Proof. intros (H1 & H2 & H3 & H4 & H5 & H6 & H7 & H8). unfold header. rewrite !length_app. lia. Qed.
Lemma header_split l : (20 <= length l)%nat → ∃ f rest, l = header f ++ rest ∧ shaped f.
Proof.
  intros Hl. do 20 (destruct l as [|? l]; [cbn in Hl; lia|]).
  eexists (Fields [_; _] [_; _] [_; _; _; _] [_; _; _; _] [_; _] [_; _] [_; _] [_; _]), _. by split_and!.
Qed.
Lemma two l : length l = 2%nat → ∃ a b : Z, l = [a; b].
Proof. destruct l as [|a [|b [|]]]; intros; try done. by exists a, b. Qed.
Lemma four l : length l = 4%nat → ∃ a b c e : Z, l = [a; b; c; e].
Proof. destruct l as [|a [|b [|c [|d [|]]]]]; intros; try done. by exists a, b, c, d. Qed.
Ltac open_fields :=
  lazymatch goal with
  | H : shaped ?f |- _ => let t := fresh in destruct f as [s d q a g w c u]; destruct H as (H1 & H2 & H3 & H4 & H5 & H6 & H7 & H8);
      cbn [f_src f_dst f_seq f_ack f_flags f_win f_sum f_urg] in *;
      apply two in H1 as (? & ? & ->); apply two in H2 as (? & ? & ->); apply four in H3 as (? & ? & ? & ? & ->);
      apply four in H4 as (? & ? & ? & ? & ->); apply two in H5 as (? & ? & ->); apply two in H6 as (? & ? & ->);
      apply two in H7 as (? & ? & ->); apply two in H8 as (? & ? & ->)
  end.
Ltac run_field :=
  intros; open_fields; cbn;
  unfold Packet.set_src_port, Packet.set_dst_port, Packet.set_seq_number, Packet.set_ack_number, Packet.set_window_len,
    Packet.set_checksum, Packet.set_urgent_at, Packet.src_port, Packet.dst_port, Packet.seq_number, Packet.ack_number,
    Packet.window_len, Packet.set_u16, Packet.set_i32, Packet.get_u16, Packet.get_i32, slice, on_slice, get_range; cbn;
  rewrite ?write_u16_spec, ?write_u32_spec; done.
Lemma set_src_run {E} f rest v : shaped f →
  Packet.set_src_port (E := E) v (header f ++ rest) = (Ok (), header (Fields (be16 v) (f_dst f) (f_seq f) (f_ack f) (f_flags f) (f_win f) (f_sum f) (f_urg f)) ++ rest).
Proof. run_field. Qed.
Lemma set_dst_run {E} f rest v : shaped f →
  Packet.set_dst_port (E := E) v (header f ++ rest) = (Ok (), header (Fields (f_src f) (be16 v) (f_seq f) (f_ack f) (f_flags f) (f_win f) (f_sum f) (f_urg f)) ++ rest).
Proof. run_field. Qed.
Lemma set_seq_run {E} f rest v : shaped f →
  Packet.set_seq_number (E := E) v (header f ++ rest) = (Ok (), header (Fields (f_src f) (f_dst f) (be32 (as_u32 v)) (f_ack f) (f_flags f) (f_win f) (f_sum f) (f_urg f)) ++ rest).
Proof. run_field. Qed.
Lemma set_ack_run {E} f rest v : shaped f →
  Packet.set_ack_number (E := E) v (header f ++ rest) = (Ok (), header (Fields (f_src f) (f_dst f) (f_seq f) (be32 (as_u32 v)) (f_flags f) (f_win f) (f_sum f) (f_urg f)) ++ rest).
Proof. run_field. Qed.
Lemma set_flags_run {E} f rest v : shaped f →
  Packet.set_u16 (E := E) 12 14 v (header f ++ rest) = (Ok (), header (Fields (f_src f) (f_dst f) (f_seq f) (f_ack f) (be16 v) (f_win f) (f_sum f) (f_urg f)) ++ rest).
Proof. run_field. Qed.
Lemma set_win_run {E} f rest v : shaped f →
  Packet.set_window_len (E := E) v (header f ++ rest) = (Ok (), header (Fields (f_src f) (f_dst f) (f_seq f) (f_ack f) (f_flags f) (be16 v) (f_sum f) (f_urg f)) ++ rest).
Proof. run_field. Qed.
Lemma set_sum_run {E} f rest v : shaped f →
  Packet.set_checksum (E := E) v (header f ++ rest) = (Ok (), header (Fields (f_src f) (f_dst f) (f_seq f) (f_ack f) (f_flags f) (f_win f) (be16 v) (f_urg f)) ++ rest).
Proof. run_field. Qed.
Lemma set_urg_run {E} f rest v : shaped f →
  Packet.set_urgent_at (E := E) v (header f ++ rest) = (Ok (), header (Fields (f_src f) (f_dst f) (f_seq f) (f_ack f) (f_flags f) (f_win f) (f_sum f) (be16 v)) ++ rest).
Proof. run_field. Qed.
Lemma get_src_run {E} f rest : shaped f → Packet.src_port (E := E) (header f ++ rest) = expect (read_u16 (f_src f)).
Proof. run_field. Qed.
Lemma get_dst_run {E} f rest : shaped f → Packet.dst_port (E := E) (header f ++ rest) = expect (read_u16 (f_dst f)).
Proof. run_field. Qed.
Lemma get_win_run {E} f rest : shaped f → Packet.window_len (E := E) (header f ++ rest) = expect (read_u16 (f_win f)).
Proof. run_field. Qed.
Lemma get_flags_run {E} f rest : shaped f → Packet.get_u16 (E := E) 12 14 (header f ++ rest) = expect (read_u16 (f_flags f)).
Proof. run_field. Qed.
Lemma get_seq_run {E} f rest : shaped f →
  Packet.seq_number (E := E) (header f ++ rest) = (v ← expect (read_u32 (f_seq f)); Ok (as_i32 v)).
Proof. run_field. Qed.
Lemma get_ack_run {E} f rest : shaped f →
  Packet.ack_number (E := E) (header f ++ rest) = (v ← expect (read_u32 (f_ack f)); Ok (as_i32 v)).
Proof. run_field. Qed.

(** ** The flags *)

Lemma u16_mod x : is_u16 x ↔ Z.land x (Z.ones 16) = x.
Proof.
  unfold is_u16. rewrite Z.land_ones by lia. split; [intros; by rewrite Z.mod_small|intros <-; apply Z.mod_pos_bound; lia].
Qed.
Lemma u16_lor a b : is_u16 a → is_u16 b → is_u16 (Z.lor a b).
Proof. rewrite !u16_mod. intros Ha Hb. by rewrite Z.land_lor_distr_l, Ha, Hb. Qed.
Lemma u16_ldiff a b : is_u16 a → is_u16 (Z.ldiff a b).
Proof.
  rewrite !u16_mod. intros Ha. apply Z.bits_inj_iff'. intros n _. rewrite <- Ha at 2.
  rewrite !Z.land_spec, !Z.ldiff_spec, Z.land_spec. destruct (Z.testbit a n), (Z.testbit b n), (Z.testbit (Z.ones 16) n); done.
Qed.
Lemma cleared w k : is_u16 w → 0 <= k < 16 →
  Z.ldiff (Z.lor (Z.ldiff w 0xf000) (as_u16 (Z.shiftl k 12))) 0x0fff = k * 4096.
Proof.
  intros Hw Hk. unfold as_u16. rewrite Z.mod_small by (rewrite Z.shiftl_mul_pow2; lia).
  replace (k * 4096) with (Z.shiftl k 12) by (rewrite Z.shiftl_mul_pow2; lia). apply Z.bits_inj_iff'. intros n Hn.
  rewrite Z.ldiff_spec, Z.lor_spec, Z.ldiff_spec. change 0xf000 with (Z.shiftl (Z.ones 4) 12). change 0x0fff with (Z.ones 12).
  rewrite !Z.shiftl_spec, !Z.testbit_ones by lia. apply u16_mod in Hw. rewrite <- Hw, Z.land_spec, Z.testbit_ones by lia.
  destruct (Z.testbit w n); destruct (Z.testbit k (n - 12)) eqn:Hkb; split_zbool; try done; try lia.
  all: rewrite Z.testbit_neg_r in Hkb by lia; done.
Qed.
Definition ctl_bit (c : Control) : Z :=
  match c with CNone => 0 | Psh => 8 | Syn => 2 | Fin => 1 | Rst => 4 end.
Definition flags_word (k : Z) (c : Control) (ack : bool) : Z := k * 4096 + ctl_bit c + (if ack then 16 else 0).
#[local] Instance wire_error_dec : EqDecision WireError.
Proof. solve_decision. Defined.
Lemma flags_facts k c ack : 0 <= k < 16 →
  is_u16 (flags_word k c ack) ∧
  (if ack then Z.lor (k * 4096 + ctl_bit c) Packet.FLG_ACK else Z.ldiff (k * 4096 + ctl_bit c) Packet.FLG_ACK) = flags_word k c ack ∧
  Z.lor (k * 4096) (ctl_bit c) = k * 4096 + ctl_bit c ∧
  as_u8 (Z.shiftr (flags_word k c ack) 12 * 4) = k * 4 ∧
  (negb (Z.land (flags_word k c ack) Packet.FLG_ACK =? 0)) = ack ∧
  Repr.control_of (negb (Z.land (flags_word k c ack) Packet.FLG_SYN =? 0)) (negb (Z.land (flags_word k c ack) Packet.FLG_FIN =? 0))
    (negb (Z.land (flags_word k c ack) Packet.FLG_RST =? 0)) (negb (Z.land (flags_word k c ack) Packet.FLG_PSH =? 0)) = Ok c.
Proof.
  intros Hk. assert (k ∈ seqZ 0 16) as Hin by (apply elem_of_seqZ; lia). clear Hk. revert k Hin. apply Forall_forall.
  unfold is_u16. destruct c, ack; apply (bool_decide_unpack _); vm_compute; exact I.
Qed.

(** A step that rewrites the flags *)
Definition with_flags (f : fields) (w : Z) : fields :=
  Fields (f_src f) (f_dst f) (f_seq f) (f_ack f) (be16 w) (f_win f) (f_sum f) (f_urg f).
Lemma with_flags_shaped f w : shaped f → shaped (with_flags f w).
Proof. intros (? & ? & ? & ? & ? & ? & ? & ?). by split_and!. Qed.
Lemma flags_step {E} f w F rest : shaped f → f_flags f = be16 w → is_u16 w →
  (raw ← inspect (Packet.get_u16 12 14); Packet.set_u16 12 14 (F raw) : prog (list Z) E ()) (header f ++ rest) =
    (Ok (), header (with_flags f (F w)) ++ rest).
Proof.
  intros Hf Hw Hu. unfold mbind, prog_bind, inspect. rewrite get_flags_run, Hw, <- (app_nil_r (be16 w)), read_u16_be by done. cbn [expect].
  by rewrite set_flags_run.
Qed.
Lemma be16_of x y : octet x → octet y → [x; y] = be16 (x * 256 + y).
Proof.
  unfold octet, be16. intros Hx Hy. f_equal; [|f_equal].
  - rewrite Z.div_add_l, (Z.div_small y), Z.add_0_r by lia. by rewrite Z.mod_small.
  - rewrite Z.add_comm, Z_mod_plus_full. by rewrite Z.mod_small.
Qed.
Lemma octets_be16 l : length l = 2%nat → Forall octet l → ∃ w, l = be16 w ∧ is_u16 w.
Proof.
  intros (x & y & ->)%two Ho. decompose_Forall_hyps. eexists. split; [by apply be16_of|by apply read_be16].
Qed.

(** ** Segments *)

(** The fields of a representation within the ranges of their types, and a
    header the length field can hold *)
Record typed (r : TcpRepr) : Prop := {
  ro_src : is_u16 (src_port r);
  ro_dst : is_u16 (dst_port r);
  ro_seq : is_i32 (seq_number r);
  ro_ack : ∀ a, ack_number r = Some a → is_i32 a;
  ro_win : is_u16 (window_len r);
  ro_ws : ∀ v, window_scale r = Some v → octet v;
  ro_mss : ∀ v, max_seg_size r = Some v → is_u16 v;
  ro_ranges : ranges_ok (sack_ranges r);
  ro_ts : ∀ t, timestamp r = Some t → is_u32 (tsval t) ∧ is_u32 (tsecr t);
  ro_payload : Forall octet (payload r);
}.
Record wire_ok (r : TcpRepr) : Prop := { ro_typed :> typed r; ro_header : header_len r <= 60 }.
Definition opt_len (r : TcpRepr) : Z :=
  present_len (max_seg_size r) 4 + present_len (window_scale r) 3 + (if sack_permitted r then 2 else 0) + present_len (timestamp r) 10 +
  (if 0 <? Z.of_nat (length (somes (sack_ranges r))) then 8 * Z.of_nat (length (somes (sack_ranges r))) + 2 else 0).
Lemma header_len_opt r : header_len r = 20 + (opt_len r + 3) / 4 * 4.
Proof.
  assert (foldr Z.add 0 ((λ o, present_len o 8) <$> sack_ranges r) = 8 * Z.of_nat (length (somes (sack_ranges r)))) as Hs.
  { unfold somes. induction (sack_ranges r) as [|[b|] l IH]; [done|..]; rewrite fmap_cons; cbn [foldr present_len omap list_omap id length] in *; lia. }
  unfold header_len, opt_len. rewrite Hs. set (n := Z.of_nat (length _)).
  set (o := present_len (max_seg_size r) 4). set (p := present_len (window_scale r) 3). set (q := if sack_permitted r then 2 else 0).
  set (t := present_len (timestamp r) 10).
  assert (∀ z, (if (20 + z) mod 4 =? 0 then 20 + z else 20 + z + (4 - (20 + z) mod 4)) = 20 + (z + 3) / 4 * 4) as Hr.
  { intros z. pose proof (Z.div_mod (20 + z) 4). pose proof (Z.mod_pos_bound (20 + z) 4). pose proof (Z.div_mod (z + 3) 4).
    pose proof (Z.mod_pos_bound (z + 3) 4). split_zbool; lia. }
  rewrite <- Hr. destruct (Z.ltb_spec 0 (8 * n)), (Z.ltb_spec 0 n); try lia.
  - replace (20 + (o + p + q + t + (8 * n + 2))) with (20 + o + p + q + t + (8 * n + 2)) by lia. done.
  - replace (20 + (o + p + q + t + 0)) with (20 + o + p + q + t) by lia. done.
Qed.
Lemma opts_total r : Z.of_nat (total_len (opts_of r)) <= opt_len r.
Proof.
  unfold opts_of, sack_option, opt_len, total_len.
  assert (existsb (λ s, bool_decide (is_Some s)) (sack_ranges r) = true → (1 <= length (somes (sack_ranges r)))%nat) as He.
  { unfold somes. induction (sack_ranges r) as [|[b|] l IH]; cbn; [done|lia|exact IH]. }
  destruct (max_seg_size r), (window_scale r), (timestamp r), (sack_permitted r); try destruct (bool_decide _ && _) eqn:Hb;
    cbn [app foldr buffer_len present_len]; try (apply andb_true_iff in Hb as [_ Hb]; specialize (He Hb)); split_zbool; lia.
Qed.

Definition hl (r : TcpRepr) : nat := Z.to_nat (header_len r).
Definition fields_of (r : TcpRepr) (ck : Z) : fields :=
  Fields (be16 (src_port r)) (be16 (dst_port r)) (be32 (as_u32 (seq_number r))) (be32 (as_u32 (default 0 (ack_number r))))
    (be16 (flags_word (header_len r / 4) (control r) (bool_decide (is_Some (ack_number r))))) (be16 (window_len r)) (be16 ck) (be16 0).
Definition options_area (r : TcpRepr) : list Z :=
  enc_all (opts_of r) ++ replicate (hl r - 20 - total_len (opts_of r)) 0.
Definition wire_octets (r : TcpRepr) (ck : Z) : list Z := header (fields_of r ck) ++ options_area r ++ payload r.

Lemma opts_ok r : wire_ok r → Forall option_ok (opts_of r).
Proof.
  intros [[_ _ _ _ _ Hws Hmss Hr Hts _] _]. unfold opts_of, sack_option. repeat apply Forall_app_2.
  - destruct (max_seg_size r); repeat constructor; cbn; by apply Hmss.
  - destruct (window_scale r) as [v|]; repeat constructor; by apply Hws.
  - destruct (sack_permitted r); [by repeat constructor|]. destruct (_ && _) eqn:Hb; repeat constructor; try done; cbn; try apply Hr.
    apply andb_true_iff in Hb as [_ Hb]. intros Hn. revert Hb Hn. unfold somes. clear. induction (sack_ranges r) as [|[b|] l IH]; cbn; done.
  - destruct (timestamp r); repeat constructor; cbn; by apply Hts.
Qed.
Lemma hl_facts r : wire_ok r →
  header_len r = Z.of_nat (hl r) ∧ 5 <= header_len r / 4 < 16 ∧ header_len r / 4 * 4 = header_len r ∧ (20 + total_len (opts_of r) <= hl r)%nat.
Proof.
  intros Hr. pose proof (ro_header r Hr) as Hh. pose proof (opts_total r) as Ht. rewrite header_len_opt in Hh. unfold hl. rewrite header_len_opt.
  pose proof (Z.div_mod (opt_len r + 3) 4). pose proof (Z.mod_pos_bound (opt_len r + 3) 4).
  replace ((20 + (opt_len r + 3) / 4 * 4) / 4) with (5 + (opt_len r + 3) / 4) by (replace (20 + (opt_len r + 3) / 4 * 4) with ((5 + (opt_len r + 3) / 4) * 4) by lia; by rewrite Z.div_mul).
  lia.
Qed.
Lemma fields_shaped r ck : shaped (fields_of r ck).
Proof. by split_and!. Qed.
Lemma area_length r : wire_ok r → length (options_area r) = (hl r - 20)%nat.
Proof.
  intros Hr. destruct (hl_facts r Hr) as (_ & _ & _ & Ht). unfold options_area. rewrite length_app, enc_all_length, length_replicate by by apply opts_ok. lia.
Qed.
Lemma segment_length r ck : wire_ok r → Z.of_nat (length (wire_octets r ck)) = Wire.buffer_len r.
Proof.
  intros Hr. destruct (hl_facts r Hr) as (Hh & _ & _ & Ht). unfold wire_octets, Wire.buffer_len, plen.
  rewrite !length_app, header_length, area_length by (done || apply fields_shaped). lia.
Qed.
Lemma header_len_run {E} f w rest : shaped f → f_flags f = be16 w → is_u16 w →
  Packet.header_len (E := E) (header f ++ rest) = Ok (as_u8 (Z.shiftr w 12 * 4)).
Proof.
  intros Hf Hw Hu. unfold Packet.header_len. rewrite get_flags_run, Hw, <- (app_nil_r (be16 w)), read_u16_be by done. done.
Qed.

Lemma then_run {S E A B} (m : prog S E A) (f : A → prog S E B) s a s' : m s = (Ok a, s') → (m ≫= f) s = f a s'.
Proof. unfold mbind, prog_bind. by intros ->. Qed.
(** The header as [emit] leaves it before the options, the urgent pointer and the checksum *)
Definition before_options (r : TcpRepr) (f : fields) : fields :=
  Fields (be16 (src_port r)) (be16 (dst_port r)) (be32 (as_u32 (seq_number r))) (be32 (as_u32 (default 0 (ack_number r))))
    (f_flags (fields_of r 0)) (be16 (window_len r)) (f_sum f) (f_urg f).
Lemma emit_header_spec {E} r src dst caps f rest : wire_ok r → shaped f → Forall octet (f_flags f) →
  Repr.emit (E := E) r src dst caps (header f ++ rest) =
    (Repr.on_options (Repr.emit_options r);;
     Packet.set_urgent_at 0;;
     n ← inspect Packet.header_len;
     on_slice (Z.to_nat n) (Z.to_nat n + length (payload r)) (copy_from_slice (payload r));;
     if tx caps then Packet.fill_checksum src dst else Packet.set_checksum 0 : prog (list Z) E ()) (header (before_options r f) ++ rest).
Proof.
  intros Hr Hf Ho. destruct (hl_facts r Hr) as (_ & Hk & Hk4 & _). unfold Repr.emit.
  assert (∃ w, f_flags f = be16 w ∧ is_u16 w) as (w & Hw & Hwu).
  { by apply octets_be16; [apply Hf|]. }
  destruct Hf as (H1 & H2 & H3 & H4 & H5 & H6 & H7 & H8).
  erewrite then_run by by apply set_src_run. erewrite then_run by by apply set_dst_run. erewrite then_run by by apply set_seq_run.
  erewrite then_run by by apply set_ack_run. erewrite then_run by by apply set_win_run. cbn [f_src f_dst f_seq f_ack f_flags f_win f_sum f_urg].
  replace (as_u8 (header_len r)) with (header_len r) by (unfold as_u8; rewrite Z.mod_small; lia).
  destruct (flags_facts (header_len r / 4) (control r) (bool_decide (is_Some (ack_number r)))) as (F1 & F2 & F3 & _); [lia|].
  assert (is_u16 (header_len r / 4 * 4096)) as Hu by (unfold is_u16; lia).
  erewrite then_run; [|apply (flags_step _ w (λ raw, Z.lor (Z.ldiff raw 0xf000) (as_u16 (Z.shiftl (header_len r / 4) 12)))); [by repeat split|done|done]].
  erewrite then_run; [|apply (flags_step _ (Z.lor (Z.ldiff w 0xf000) (as_u16 (Z.shiftl (header_len r / 4) 12))) (λ raw, Z.ldiff raw 0x0fff))];
    [|by repeat split|done|apply u16_lor; [by apply u16_ldiff|unfold is_u16, as_u16; apply Z.mod_pos_bound; lia]].
  rewrite cleared by (done || lia). unfold with_flags. cbn [f_src f_dst f_seq f_ack f_flags f_win f_sum f_urg].
  erewrite then_run with (s' := header (Fields _ _ _ _ (be16 (header_len r / 4 * 4096 + ctl_bit (control r))) _ _ _) ++ rest).
  2: { rewrite <- F3. destruct (control r); cbn [ctl_bit]; [rewrite Z.lor_0_r; reflexivity|..];
       (etransitivity; [apply (flags_step _ (header_len r / 4 * 4096) (λ raw, Z.lor raw _)); [by repeat split|done|done]|reflexivity]). }
  erewrite then_run; [|apply (flags_step _ (header_len r / 4 * 4096 + ctl_bit (control r))
    (λ raw, if bool_decide (is_Some (ack_number r)) then Z.lor raw Packet.FLG_ACK else Z.ldiff raw Packet.FLG_ACK));
    [by repeat split|done|unfold is_u16; destruct (control r); cbn [ctl_bit]; lia]].
  rewrite F2. done.
Qed.
Lemma on_slice_mid {E} f pre mid mid' post a b :
  a = length pre → b = (a + length mid)%nat → f mid = Some mid' →
  on_slice (E := E) a b f (pre ++ mid ++ post) = (Ok (), pre ++ mid' ++ post).
Proof.
  intros -> -> Hf. unfold on_slice. rewrite get_range_mid by done. cbn [mbind option_bind]. rewrite Hf.
  rewrite take_app_length, (app_assoc pre mid), drop_app_length' by (rewrite length_app; lia). done.
Qed.
Lemma header_len_before {E} r f rest : wire_ok r → shaped f →
  Packet.header_len (E := E) (header (before_options r f) ++ rest) = Ok (header_len r).
Proof.
  intros Hr Hf. destruct (hl_facts r Hr) as (_ & Hk & Hk4 & _).
  destruct (flags_facts (header_len r / 4) (control r) (bool_decide (is_Some (ack_number r)))) as (F1 & _ & _ & F4 & _); [lia|].
  destruct Hf as (_ & _ & _ & _ & _ & _ & H7 & H8).
  erewrite header_len_run; [|by repeat split|reflexivity|done]. by rewrite F4, Hk4.
Qed.
Lemma on_options_spec {E} r f area rest :
  wire_ok r → shaped f → length area = (hl r - 20)%nat →
  Repr.on_options (E := E) (Repr.emit_options r) (header (before_options r f) ++ area ++ rest) =
    (Ok (), header (before_options r f) ++ options_area r ++ rest).
Proof.
  intros Hr Hf Ha. destruct (hl_facts r Hr) as (Hh & _ & _ & Ht). unfold Repr.on_options.
  assert (length (header (before_options r f)) = 20%nat) as Hl by (apply header_length; destruct Hf as (_ & _ & _ & _ & _ & _ & H7 & H8); by repeat split).
  unfold mbind at 1, prog_bind at 1, inspect at 1. rewrite header_len_before by done.
  unfold mbind at 1, prog_bind at 1, inspect at 1. unfold Packet.options. rewrite header_len_before by done. cbn [mbind outcome_bind].
  unfold slice. rewrite get_range_mid by (fold (hl r); lia). cbn [expect].
  destruct (emit_options_spec (E := E) r area) as (a & b & -> & Hab); [by apply opts_ok|lia|].
  rewrite Hab, Ha. apply on_slice_mid; [by rewrite Hl|fold (hl r); lia|done].
Qed.
Lemma sum16_segment r ck : is_u16 ck → sum16 (wire_octets r ck) = sum16 (wire_octets r 0) + ck.
Proof.
  intros Hc. unfold wire_octets, header, fields_of. cbn [f_src f_dst f_seq f_ack f_flags f_win f_sum f_urg].
  pose proof (be16_value ck Hc) as Hv. unfold sum16, be16, be32. cbn [app words odd_end]. 
  rewrite <- Hv at 3. change (0 / 256 mod 256) with 0. change (0 mod 256) with 0. lia.
Qed.
Lemma enc_octets o : option_ok o → Forall octet (enc o).
Proof.
  assert (octet OPT_MSS ∧ octet OPT_WS ∧ octet OPT_SACKPERM ∧ octet OPT_SACKRNG ∧ octet OPT_TSTAMP ∧ octet 4 ∧ octet 3 ∧ octet 2 ∧ octet 10)
    as (? & ? & ? & ? & ? & ? & ? & ? & ?) by by repeat split.
  destruct o as [| |v|v| |s|a b|]; try done; cbn [enc option_ok]; intros Ho; try apply Forall_app_2; rewrite ?Forall_cons; split_and?; try done;
    try apply Forall_app_2; try apply be16_octets; try apply be32_octets.
  - destruct Ho as [[Hl _] _]. pose proof (somes_length s). unfold octet. cbn [buffer_len]. lia.
  - apply Forall_concat, Forall_fmap, Forall_true. intros b. apply Forall_app_2; apply be32_octets.
Qed.
Lemma segment_octets r ck : wire_ok r → Forall octet (wire_octets r ck).
Proof.
  intros Hr. repeat apply Forall_app_2; try apply be16_octets; try apply be32_octets.
  - apply Forall_concat, Forall_fmap. eapply Forall_impl; [by apply opts_ok|]. apply enc_octets.
  - apply Forall_replicate. done.
  - apply (ro_payload r Hr).
Qed.
Lemma set_sum_segment {E} r ck v : Packet.set_checksum (E := E) v (wire_octets r ck) = (Ok (), wire_octets r v).
Proof. apply set_sum_run, fields_shaped. Qed.
Lemma fill_checksum_spec r src dst ck :
  wire_ok r → packet_sized (wire_octets r ck) → same_family src dst →
  ∃ ck', is_u16 ck' ∧ Packet.fill_checksum (E := WireError) src dst (wire_octets r ck) = (Ok (), wire_octets r ck') ∧
    Packet.verify_checksum (E := WireError) src dst (wire_octets r ck') = Ok true.
Proof.
  intros Hr Hs Hf. destruct (packet_sum_spec (E := WireError) src dst (wire_octets r ck)) as (ph & Hph & Hsum); [by apply segment_octets|done|done|].
  assert (∀ v, length (wire_octets r v) = length (wire_octets r ck)) as Hlen by done.
  assert (0 <= sum16 (wire_octets r 0) ∧ is_u32 (sum16 (wire_octets r 0) + 65535)) as [H0 Hb] by (apply sum16_room; [by apply segment_octets|done]).
  unfold Packet.fill_checksum. erewrite then_run by apply set_sum_segment.
  erewrite then_run; [|unfold inspect; rewrite Hsum by (done || by apply segment_octets); reflexivity].
  set (s0 := sum16 (wire_octets r 0)) in *. destruct (fold16_range s0) as [R1 _]; [unfold is_u32 in *; lia|].
  destruct (fold16_range (ph + fold16 s0)) as [R2 _]; [unfold is_u32 in *; lia|].
  exists (2 ^ 16 - 1 - fold16 (ph + fold16 s0)). split; [unfold is_u16; lia|]. split; [apply set_sum_segment|].
  unfold Packet.verify_checksum. rewrite Hsum by (done || by apply segment_octets). cbn [mbind outcome_bind].
  rewrite sum16_segment by (unfold is_u16; lia). fold s0. change (2 ^ 16 - 1) with 65535. by rewrite complement.
Qed.
(** [emit] writes the octets of the segment, and a checksum that verifies when it computes one. *)
Lemma emit_spec r src dst caps l :
  wire_ok r → Forall octet l → Z.of_nat (length l) = Wire.buffer_len r → packet_sized l → same_family src dst →
  ∃ ck, is_u16 ck ∧ Repr.emit (E := WireError) r src dst caps l = (Ok (), wire_octets r ck) ∧
    (tx caps = true → Packet.verify_checksum (E := WireError) src dst (wire_octets r ck) = Ok true).
Proof.
  intros Hr Ho Hl Hs Hfam. destruct (hl_facts r Hr) as (Hh & Hk & Hk4 & Ht). unfold Wire.buffer_len, plen in Hl.
  destruct (header_split l) as (f & rest & -> & Hf); [lia|]. rewrite length_app, header_length in Hl by done.
  assert (Forall octet (f_flags f)) as Hof.
  { apply Forall_app in Ho as [Ho _]. unfold header in Ho. rewrite !Forall_app in Ho. tauto. }
  assert (∃ w, f_sum f = be16 w ∧ is_u16 w) as Hsum.
  { apply octets_be16; [apply Hf|]. apply Forall_app in Ho as [Ho _]. unfold header in Ho. rewrite !Forall_app in Ho. tauto. }
  rewrite emit_header_spec by done.
  assert (∃ area body, rest = area ++ body ∧ length area = (hl r - 20)%nat ∧ length body = length (payload r)) as (area & body & -> & Ha & Hb).
  { exists (take (hl r - 20) rest), (drop (hl r - 20) rest). rewrite take_drop, length_take, length_drop. split_and!; [done|lia|lia]. }
  erewrite then_run by by apply on_options_spec.
  assert (shaped (before_options r f)) as Hbf by (destruct Hf as (_ & _ & _ & _ & _ & _ & H7 & H8); by repeat split).
  erewrite then_run by by apply set_urg_run. cbn [f_src f_dst f_seq f_ack f_flags f_win f_sum f_urg before_options].
  destruct Hsum as (w & Hw & Hwu). rewrite Hw. change (Fields _ _ _ _ _ _ _ _) with (fields_of r w).
  assert (Packet.header_len (E := WireError) (header (fields_of r w) ++ options_area r ++ body) = Ok (header_len r)) as Hn.
  { apply (header_len_before r (fields_of r w)); [done|apply fields_shaped]. }
  erewrite then_run; [|unfold inspect; rewrite Hn; reflexivity].
  assert (∀ b, header (fields_of r w) ++ options_area r ++ b = (header (fields_of r w) ++ options_area r) ++ b ++ []) as Happ.
  { intros b. by rewrite <- app_assoc, app_nil_r. }
  rewrite Happ. erewrite then_run; [|apply on_slice_mid with (mid' := payload r)].
  - rewrite <- Happ. fold (wire_octets r w). destruct (tx caps).
    + destruct (fill_checksum_spec r src dst w) as (ck & ? & ? & ?); [done| |done|by exists ck]. unfold packet_sized in *. rewrite segment_length by done. unfold Wire.buffer_len, plen.
      rewrite !length_app, header_length in Hs by done. lia.
    + exists 0. rewrite set_sum_segment. split_and!; [by unfold is_u16|done|done].
  - fold (hl r). rewrite length_app, header_length, area_length by (done || apply fields_shaped). lia.
  - lia.
  - unfold copy_from_slice. by rewrite (proj2 (Nat.eqb_eq _ _)).
Qed.

(** The representation parsing returns for an emitted one: selective
    acknowledgements are written with an acknowledgement and without
    [sack_permitted], and are packed to the front; a window scale above 14 is
    read as 14. *)
Definition clamp (v : Z) : Z := if 14 <? v then 14 else v.
Definition normal (r : TcpRepr) : TcpRepr :=
  MkRepr (src_port r) (dst_port r) (control r) (seq_number r) (ack_number r) (window_len r) (clamp <$> window_scale r) (max_seg_size r)
    (sack_permitted r)
    (if sack_permitted r || negb (bool_decide (is_Some (ack_number r))) then [None; None; None] else packed (sack_ranges r))
    (timestamp r) (payload r).
Lemma packed_none s : length s = 3%nat → existsb (λ x : option (Z * Z), bool_decide (is_Some x)) s = false → packed s = [None; None; None].
Proof. unfold packed, somes. destruct s as [|[a|] [|[b|] [|[c|] [|]]]]; cbn; try done. Qed.
Lemma options_normal r : wire_ok r →
  foldl (λ x o, Repr.set_option (read_back o) x) Repr.no_options (opts_of r) =
    Repr.MkOptions (max_seg_size r) (clamp <$> window_scale r) (sack_permitted r) (sack_ranges (normal r)) (timestamp r).
Proof.
  intros [[_ _ _ _ _ Hws _ Hr _ _] _]. destruct Hr as [Hl _]. pose proof (packed_none _ Hl) as Hp. unfold opts_of, sack_option, normal. cbn [sack_ranges].
  destruct (max_seg_size r), (window_scale r), (sack_permitted r), (timestamp r) as [[]|];
    try (destruct (bool_decide _), (existsb _ _)); cbn;
    rewrite ?Hp by done; done.
Qed.
Lemma as_i32_u32 v : is_i32 v → as_i32 (as_u32 v) = v ∧ is_u32 (as_u32 v).
Proof.
  intros Hv. unfold as_u32, is_u32. split; [|apply Z.mod_pos_bound; lia]. rewrite <- (as_i32_id v Hv) at 2.
  apply (as_i32_eq _ _ (- (v / 2 ^ 32))). pose proof (Z.div_mod v (2 ^ 32)). lia.
Qed.
Lemma read_i32_be {E} v : is_i32 v → (x ← expect (read_u32 (be32 (as_u32 v))); Ok (as_i32 x) : outcome E Z) = Ok v.
Proof.
  intros [H1 H2]%as_i32_u32. rewrite <- (app_nil_r (be32 _)), read_u32_be by done. cbn. by rewrite H1.
Qed.
Lemma read_be16_ok {E} v : is_u16 v → expect (E := E) (read_u16 (be16 v)) = Ok v.
Proof. intros Hv. by rewrite <- (app_nil_r (be16 _)), read_u16_be. Qed.
Lemma flag_segment {E} r ck bit : wire_ok r →
  Packet.flag (E := E) bit (wire_octets r ck) =
    Ok (negb (Z.land (flags_word (header_len r / 4) (control r) (bool_decide (is_Some (ack_number r)))) bit =? 0)).
Proof.
  intros Hr. destruct (hl_facts r Hr) as (_ & Hk & _). unfold Packet.flag, wire_octets.
  rewrite get_flags_run by apply fields_shaped. cbn [fields_of f_flags]. rewrite read_be16_ok by (apply flags_facts; lia). done.
Qed.
Lemma fields_segment {E} r ck : wire_ok r →
  Packet.src_port (E := E) (wire_octets r ck) = Ok (src_port r) ∧ Packet.dst_port (E := E) (wire_octets r ck) = Ok (dst_port r) ∧
  Packet.seq_number (E := E) (wire_octets r ck) = Ok (seq_number r) ∧ Packet.window_len (E := E) (wire_octets r ck) = Ok (window_len r) ∧
  (∀ a, ack_number r = Some a → Packet.ack_number (E := E) (wire_octets r ck) = Ok a).
Proof.
  intros Hr. pose proof (fields_shaped r ck) as Hf. unfold wire_octets.
  rewrite get_src_run, get_dst_run, get_seq_run, get_win_run, get_ack_run by done. cbn [fields_of f_src f_dst f_seq f_win f_ack].
  split_and!; [apply read_be16_ok, Hr.(ro_typed _)|apply read_be16_ok, Hr.(ro_typed _)|apply read_i32_be, Hr.(ro_typed _)|apply read_be16_ok, Hr.(ro_typed _)|].
  intros a Ha. rewrite Ha. by apply read_i32_be, (ro_ack r Hr).
Qed.
Lemma slices_segment {E} r ck : wire_ok r →
  slice (E := E) Packet.URGENT_END (Z.to_nat (header_len r)) (wire_octets r ck) = Ok (options_area r) ∧
  slice (E := E) (Z.to_nat (header_len r)) (length (wire_octets r ck)) (wire_octets r ck) = Ok (payload r).
Proof.
  intros Hr. destruct (hl_facts r Hr) as (_ & _ & _ & Ht). fold (hl r). pose proof (area_length r Hr) as Ha.
  pose proof (header_length _ (fields_shaped r ck)) as Hhl. unfold wire_octets. split.
  - unfold slice. by rewrite (get_range_mid (header (fields_of r ck))) by (lia).
  - rewrite app_assoc. apply slice_tail. rewrite length_app. lia.
Qed.
Lemma parse_segment r ck src dst caps :
  wire_ok r → is_u16 ck →
  (rx caps = true → Packet.verify_checksum (E := WireError) src dst (wire_octets r ck) = Ok true) →
  Repr.parse src dst caps (wire_octets r ck) =
    if (src_port r =? 0) || (dst_port r =? 0) then Err MalformedPacket else Ok (normal r).
Proof.
  intros Hr Hc Hv. destruct (hl_facts r Hr) as (Hh & Hk & Hk4 & Ht). pose proof (fields_shaped r ck) as Hf.
  pose proof (segment_length r ck Hr) as Hl. unfold Wire.buffer_len, plen in Hl.
  assert (Packet.header_len (E := WireError) (wire_octets r ck) = Ok (header_len r)) as Hn by by apply (header_len_before r (fields_of r ck)).
  destruct (flags_facts (header_len r / 4) (control r) (bool_decide (is_Some (ack_number r)))) as (_ & _ & _ & _ & F5 & F6); [lia|].
  unfold Repr.parse, Packet.check_len, Packet.options, Packet.payload.
  rewrite (proj2 (Nat.ltb_ge _ _)), Hn by (lia). cbn [mbind outcome_bind].
  rewrite !(proj2 (Nat.ltb_ge _ _)) by (lia). cbn [orb mbind outcome_bind].
  destruct (fields_segment (E := WireError) r ck Hr) as (-> & -> & -> & -> & Hack). cbn [mbind outcome_bind].
  destruct (src_port r =? 0), (dst_port r =? 0); try done. cbn [orb].
  assert ((if rx caps then Packet.verify_checksum src dst (wire_octets r ck) else Ok true) = Ok (E := WireError) true) as ->.
  { destruct (rx caps); [by apply Hv|done]. }
  cbn [mbind outcome_bind negb]. rewrite !flag_segment by done. cbn [mbind outcome_bind]. rewrite F6. cbn [mbind outcome_bind]. rewrite F5.
  assert ((if bool_decide (is_Some (ack_number r)) then n ← Packet.ack_number (wire_octets r ck); Ok (Some n) else Ok None) =
    Ok (E := WireError) (ack_number r)) as ->.
  { case_bool_decide as Ha; [destruct Ha as [a Ha]; by rewrite (Hack a Ha), Ha|]. destruct (ack_number r); [|done]. destruct Ha. by eexists. }
  destruct (slices_segment (E := WireError) r ck Hr) as [-> ->]. cbn [mbind outcome_bind].
  unfold options_area at 2. rewrite parse_options_enc by (try apply opts_ok; try done; unfold options_area; rewrite length_app, length_replicate; lia).
  cbn [mbind outcome_bind]. by rewrite options_normal.
Qed.

(** ** Arbitrary octets *)

(** An outcome that is no panic, and whose result satisfies [P] *)
Definition safe {E A} (o : outcome E A) (P : A → Prop) : Prop :=
  match o with Ok a => P a | Err _ => True | Panic => False end.
Lemma safe_bind {E A B} (o : outcome E A) (f : A → outcome E B) P Q :
  safe o P → (∀ a, P a → safe (f a) Q) → safe (o ≫= f) Q.
Proof. destruct o; cbn; auto. Qed.
Lemma get_range_safe a b l : Forall octet l →
  match get_range a b l with Some s => length s = (b - a)%nat ∧ (a <= b <= length l)%nat ∧ Forall octet s | None => True end.
Proof.
  intros Hl. unfold get_range. destruct (Nat.leb_spec a b), (Nat.leb_spec b (length l)); cbn; try done.
  rewrite length_take, length_drop. split_and!; try lia. by apply Forall_take, Forall_drop.
Qed.
Lemma slice_safe {E} a b l : Forall octet l → (a <= b <= length l)%nat →
  safe (slice (E := E) a b l) (λ s, length s = (b - a)%nat ∧ Forall octet s).
Proof.
  intros Hl Hab. unfold slice. pose proof (get_range_safe a b l Hl) as Hg. unfold get_range in *.
  rewrite !(proj2 (Nat.leb_le _ _)) in * by lia. cbn in *. tauto.
Qed.
Lemma read_u16_safe {E} l : Forall octet l → length l = 2%nat → safe (expect (E := E) (read_u16 l)) is_u16.
Proof. intros Ho Hl. destruct (octets_be16 l Hl Ho) as (w & -> & Hw). by rewrite read_be16_ok. Qed.
Lemma read_u32_safe {E} l : Forall octet l → length l = 4%nat → safe (expect (E := E) (read_u32 l)) is_u32.
Proof.
  intros Ho (a & b & c & d & ->)%four. decompose_Forall_hyps. rewrite read_u32_spec. cbn. by apply read_be32.
Qed.
Lemma sack_block_safe {E} l i : Forall octet l → (length l mod 8 = 0)%nat →
  safe (sack_block (E := E) l i) (λ b, Forall is_block (somes [b]) ∧ (b = None ∨ (i * 8 + 8 <= length l)%nat)).
Proof.
  intros Ho Hm. unfold sack_block. destruct (Nat.ltb_spec (i * 8) (length l)) as [Hi|Hi]; [|by split; [|left]].
  assert (i * 8 + 8 <= length l)%nat by (pose proof (Nat.div_mod (length l) 8); lia).
  eapply safe_bind; [apply slice_safe; [done|lia]|]. intros s1 [L1 O1].
  eapply safe_bind; [apply read_u32_safe; [done|lia]|]. intros v1 V1.
  eapply safe_bind; [apply slice_safe; [done|lia]|]. intros s2 [L2 O2].
  eapply safe_bind; [apply read_u32_safe; [done|lia]|]. intros v2 V2. split; [by apply Forall_singleton|right; lia].
Qed.
(** The options parsing returns, with their values in range *)
Definition parsed_ok (o : TcpOption) : Prop :=
  match o with
  | MaxSegmentSize v => is_u16 v
  | WindowScale v => octet v
  | SackRange s => ranges_ok s
  | TimeStamp a b => is_u32 a ∧ is_u32 b
  | _ => True
  end.
Lemma parse_kind_safe kind len l :
  Forall octet l → (len = 2 + length l)%nat → safe (parse_kind kind len l) (λ o, parsed_ok o ∧ (buffer_len o <= len)%nat).
Proof.
  intros Ho Hlen. unfold parse_kind.
  destruct (kind =? OPT_MSS). { destruct (Nat.eqb_spec len 4); [|done]. eapply safe_bind; [apply read_u16_safe; [done|lia]|]. intros v Hv. split; [done|cbn; lia]. }
  destruct (kind =? OPT_WS).
  { destruct (Nat.eqb_spec len 3); [|done]. destruct l as [|v l]; cbn in *; [lia|]. decompose_Forall_hyps. split; [done|lia]. }
  destruct (kind =? OPT_SACKPERM). { destruct (Nat.eqb_spec len 2); [|done]. split; [done|cbn; lia]. }
  destruct (kind =? OPT_SACKRNG).
  { destruct (_ || _) eqn:Hg; [done|]. apply orb_false_iff in Hg as [Hg1%Nat.ltb_ge Hg2%negb_false_iff%Nat.eqb_eq].
    replace (len - 2)%nat with (length l) in Hg2 by lia.
    eapply safe_bind; [by apply (sack_block_safe l 0)|]. intros a [A1 A2].
    eapply safe_bind; [by apply (sack_block_safe l 1)|]. intros b [B1 B2].
    eapply safe_bind; [by apply (sack_block_safe l 2)|]. intros c [C1 C2].
    assert (somes [a; b; c] = somes [a] ++ somes [b] ++ somes [c]) as Hs by by destruct a, b, c.
    cbn [safe parsed_ok buffer_len]. unfold ranges_ok. rewrite Hs. split; [split; [done|]; by repeat apply Forall_app_2|].
    rewrite !length_app. destruct a, b, c; cbn; destruct A2 as [A2|A2], B2 as [B2|B2], C2 as [C2|C2]; try done; lia. }
  destruct (_ && _) eqn:Hg; [apply andb_true_iff in Hg as [_ Hg%Nat.eqb_eq]|by split; cbn; [|lia]].
  eapply safe_bind; [apply slice_safe; [done|lia]|]. intros s1 [L1 O1]. eapply safe_bind; [apply read_u32_safe; [done|lia]|]. intros v1 V1.
  eapply safe_bind; [apply slice_safe; [done|lia]|]. intros s2 [L2 O2]. eapply safe_bind; [apply read_u32_safe; [done|lia]|]. intros v2 V2.
  split; [done|cbn; lia].
Qed.
Lemma option_parse_safe l : Forall octet l →
  safe (Option.parse l) (λ x, parsed_ok x.2 ∧ (buffer_len x.2 + length x.1 <= length l)%nat ∧ Forall octet x.1).
Proof.
  intros Ho. unfold Option.parse. destruct l as [|kind l']; [done|]. set (l := kind :: l') in *. change (l !! 0%nat) with (Some kind). cbn [ok_or mbind outcome_bind].
  eapply safe_bind with (P := λ x, parsed_ok x.2 ∧ (buffer_len x.2 <= x.1 <= length l)%nat).
  - destruct (kind =? OPT_END); [cbn; lia|]. destruct (kind =? OPT_NOP); [cbn; lia|].
    destruct (l !! 1%nat) as [len|] eqn:Hlen; [|done]. cbn [ok_or mbind outcome_bind].
    pose proof (get_range_safe 2 (Z.to_nat len) l Ho) as Hg. destruct (get_range _ _ _) as [data|]; [|done]. destruct Hg as (H1 & H2 & H3).
    cbn [ok_or mbind outcome_bind]. eapply safe_bind; [apply parse_kind_safe; [done|lia]|]. intros o [O1 O2]. split; [done|]. cbn [fst snd]. lia.
  - intros [n o] [P1 P2]. cbn [fst snd] in *. eapply safe_bind; [apply slice_safe; [done|lia]|]. intros s [S1 S2]. cbn [safe mret fst snd]. split_and!; [done|lia|done].
Qed.

Definition olen (o : Repr.Options) : Z :=
  present_len (Repr.o_max_seg_size o) 4 + present_len (Repr.o_window_scale o) 3 + (if Repr.o_sack_permitted o then 2 else 0) +
  present_len (Repr.o_timestamp o) 10 +
  (if 0 <? Z.of_nat (length (somes (Repr.o_sack_ranges o))) then 8 * Z.of_nat (length (somes (Repr.o_sack_ranges o))) + 2 else 0).
Record options_ok (o : Repr.Options) : Prop := {
  oo_ws : ∀ v, Repr.o_window_scale o = Some v → 0 <= v <= 14;
  oo_mss : ∀ v, Repr.o_max_seg_size o = Some v → is_u16 v;
  oo_ranges : ranges_ok (Repr.o_sack_ranges o);
  oo_ts : ∀ t, Repr.o_timestamp o = Some t → is_u32 (tsval t) ∧ is_u32 (tsecr t);
}.
Lemma set_option_ok x o : parsed_ok x → options_ok o →
  options_ok (Repr.set_option x o) ∧ olen (Repr.set_option x o) <= olen o + Z.of_nat (buffer_len x).
Proof.
  destruct o as [mss ws sp rs ts]. intros Hx [Hws Hmss Hrs Hts]. cbn in *.
  destruct x; cbn [Repr.set_option parsed_ok buffer_len] in *; (split; [split; cbn; try done|unfold olen; cbn [Repr.o_max_seg_size Repr.o_window_scale Repr.o_sack_permitted Repr.o_sack_ranges Repr.o_timestamp];
    destruct mss, ws, sp, ts; cbn [present_len]; split_zbool; lia]).
  - by intros ? [= <-].
  - intros ? [= <-]. unfold octet in Hx. split_zbool; lia.
  - by intros ? [= <-].
Qed.
Lemma parse_options_safe fuel l o :
  Forall octet l → (length l <= fuel)%nat → options_ok o →
  safe (Repr.parse_options fuel l o) (λ o', options_ok o' ∧ olen o' <= olen o + Z.of_nat (length l)).
Proof.
  revert l o. induction fuel as [|fuel IH]; intros l o Ho Hl Hok.
  - destruct l; [|cbn in Hl; lia]. cbn. split; [done|lia].
  - destruct l as [|a l']; [cbn; split; [done|lia]|]. set (l := a :: l') in *. change (Repr.parse_options (S fuel) l o) with
      (x ← Option.parse l; match x.2 with EndOfList => Ok o | x2 => Repr.parse_options fuel x.1 (Repr.set_option x2 o) end).
    eapply safe_bind; [by apply option_parse_safe|]. intros [rest x] (P1 & P2 & P3). cbn [fst snd] in *.
    destruct (set_option_ok x o P1 Hok) as [S1 S2]. assert (1 <= buffer_len x)%nat as Hb by (destruct x; cbn; lia).
    assert (safe (Repr.parse_options fuel rest (Repr.set_option x o)) (λ o', options_ok o' ∧ olen o' <= olen o + Z.of_nat (length l))) as Hrec.
    { pose proof (IH rest (Repr.set_option x o) P3 ltac:(lia) S1) as Hi. destruct (Repr.parse_options _ _ _); try done.
      destruct Hi. split; [done|lia]. }
    destruct x; try exact Hrec. split; [done|lia].
Qed.

Lemma get_u16_safe {E} a l : Forall octet l → (a + 2 <= length l)%nat → safe (Packet.get_u16 (E := E) a (a + 2) l) is_u16.
Proof. intros Ho Hl. eapply safe_bind; [apply slice_safe; [done|lia]|]. intros s [S1 S2]. apply read_u16_safe; [done|lia]. Qed.
Lemma get_i32_safe {E} a l : Forall octet l → (a + 4 <= length l)%nat → safe (Packet.get_i32 (E := E) a (a + 4) l) is_i32.
Proof.
  intros Ho Hl. eapply safe_bind; [apply slice_safe; [done|lia]|]. intros s [S1 S2].
  eapply safe_bind; [apply read_u32_safe; [done|lia]|]. intros v _. apply as_i32_range.
Qed.
Lemma flag_safe {E} bit l : Forall octet l → (20 <= length l)%nat → safe (Packet.flag (E := E) bit l) (λ _, True).
Proof. intros Ho Hl. by eapply safe_bind; [apply (get_u16_safe 12); [done|lia]|]. Qed.
Lemma header_len_safe {E} l : Forall octet l → (20 <= length l)%nat →
  ∃ k, 0 <= k < 16 ∧ Packet.header_len (E := E) l = Ok (k * 4).
Proof.
  intros Ho Hl. destruct (header_split l Hl) as (f & rest & -> & Hf). apply Forall_app in Ho as [Ho _]. unfold header in Ho. rewrite !Forall_app in Ho.
  destruct (octets_be16 (f_flags f)) as (w & Hw & Hu); [apply Hf|tauto|]. exists (Z.shiftr w 12).
  rewrite (header_len_run f w) by done. unfold is_u16 in Hu. rewrite Z.shiftr_div_pow2 by lia.
  assert (0 <= w / 2 ^ 12 < 16) by (split; [apply Z.div_pos|apply Z.div_lt_upper_bound]; lia). split; [done|].
  unfold as_u8. by rewrite Z.mod_small by lia.
Qed.
Lemma valid_safe src dst caps l : Forall octet l → packet_sized l → same_family src dst →
  safe (E := WireError) (if rx caps then Packet.verify_checksum src dst l else Ok true) (λ _, True).
Proof.
  intros Ho Hs Hf. destruct (rx caps); [|done]. destruct (packet_sum_spec (E := WireError) src dst l Ho Hs Hf) as (ph & _ & Hsum).
  unfold Packet.verify_checksum. by rewrite Hsum.
Qed.
(** What parsing guarantees of the representations it accepts *)
Definition in_range (r : TcpRepr) : Prop :=
  wire_ok r ∧ src_port r ≠ 0 ∧ dst_port r ≠ 0 ∧ (∀ v, window_scale r = Some v → v <= 14).
(** Parsing arbitrary octets does not panic, and what it accepts is in range and no longer than the packet. *)
Lemma parse_safe src dst caps l :
  Forall octet l → packet_sized l → same_family src dst →
  safe (Repr.parse src dst caps l) (λ r, in_range r ∧ Wire.buffer_len r <= Z.of_nat (length l)).
Proof.
  intros Ho Hs Hf. unfold Repr.parse, Packet.check_len, Packet.options, Packet.payload.
  destruct (Nat.ltb_spec (length l) Packet.URGENT_END) as [|Hl]; [done|].
  destruct (header_len_safe (E := WireError) l Ho Hl) as (k & Hk & ->). cbn [mbind outcome_bind].
  destruct (_ || _) eqn:Hg; [done|]. apply orb_false_iff in Hg as [Hg1%Nat.ltb_ge Hg2%Nat.ltb_ge]. cbn [mbind outcome_bind].
  eapply safe_bind; [apply (get_u16_safe 0); [done|lia]|]. intros sp Hsp. destruct (Z.eqb_spec sp 0); [done|].
  eapply safe_bind; [apply (get_u16_safe 2); [done|lia]|]. intros dp Hdp. destruct (Z.eqb_spec dp 0); [done|].
  eapply safe_bind; [by apply valid_safe|]. intros [|] _; [|done]. cbn [negb].
  eapply safe_bind; [by apply flag_safe|]. intros syn _. eapply safe_bind; [by apply flag_safe|]. intros fin _.
  eapply safe_bind; [by apply flag_safe|]. intros rst _. eapply safe_bind; [by apply flag_safe|]. intros psh _.
  eapply safe_bind with (P := λ _, True); [by destruct syn, fin, rst, psh|]. intros ctl _.
  eapply safe_bind; [by apply flag_safe|]. intros ack _.
  eapply safe_bind with (P := λ a : option Z, ∀ x, a = Some x → is_i32 x).
  { destruct ack; [|done]. eapply safe_bind; [apply (get_i32_safe 8); [done|lia]|]. intros x Hx. by intros ? [= <-]. }
  intros an Han. eapply safe_bind; [apply slice_safe; [done|lia]|]. intros os [Hol Hoo].
  eapply safe_bind; [apply parse_options_safe; [done|done|by split; cbn; try done; split]|]. intros o [[] Hlen].
  eapply safe_bind; [apply (get_i32_safe 4); [done|lia]|]. intros sq Hsq.
  eapply safe_bind; [apply (get_u16_safe 14); [done|lia]|]. intros wl Hwl.
  eapply safe_bind; [apply slice_safe; [done|lia]|]. intros pl [Hpl Hpo]. cbn [safe].
  match goal with |- in_range ?x ∧ _ => set (r := x) end. assert (opt_len r <= k * 4 - 20) as Hopt.
  { change (opt_len r) with (olen o). change (olen Repr.no_options) with 0 in Hlen. lia. }
  assert (header_len r <= k * 4) as Hh.
  { rewrite header_len_opt. pose proof (Z.div_mod (opt_len r + 3) 4). pose proof (Z.mod_pos_bound (opt_len r + 3) 4). lia. }
  split; [split_and!; [split; [split; try done|lia]|done|done|]; intros v Hv; specialize (oo_ws0 v Hv); unfold octet; lia|].
  unfold Wire.buffer_len, plen. change (payload r) with pl. lia.
Qed.

(** C13: Parsing and emission of TCP segments over one pair of addresses
    of one family. Parsing any packet of at most 65535 octets does not panic,
    whatever its header length, options and flags say; a representation it
    accepts has its fields in range, ports that are not zero, a window scale of
    at most 14, a header of at most 60 octets, and needs no more octets than
    the packet had. Emitting a representation whose fields have their types'
    ranges and whose header has at most 60 octets, into a buffer of its
    [buffer_len], succeeds whatever the buffer held and keeps its length. The
    octets are refused exactly when a port is zero and otherwise parse back to
    the representation, its selective acknowledgements packed to the front and
    left out on segments that do not carry them, and its window scale cut to
    14; the checksum verifies whenever the sender computed it. *)
Theorem segment_codec (src dst : IpAddress) (caps caps' : Checksum) :
  same_family src dst → (rx caps' = true → tx caps = true) →
  (∀ l, Forall octet l → Z.of_nat (length l) <= 65535 →
     match Repr.parse src dst caps' l with
     | Ok r => in_range r ∧ Wire.buffer_len r <= Z.of_nat (length l)
     | Err _ => True
     | Panic => False
     end) ∧
  (∀ r l, wire_ok r → Wire.buffer_len r <= 65535 → Forall octet l → Z.of_nat (length l) = Wire.buffer_len r →
     ∃ l', Repr.emit (E := WireError) r src dst caps l = (Ok (), l') ∧ length l' = length l ∧ Forall octet l' ∧
       Repr.parse src dst caps' l' = if (src_port r =? 0) || (dst_port r =? 0) then Err MalformedPacket else Ok (normal r)).
Proof.
  intros Hf Hc. split; [intros l Ho Hl; by apply (parse_safe src dst caps' l)|]. intros r l Hr Hb Ho Hl.
  destruct (emit_spec r src dst caps l) as (ck & Hck & He & Hv); [done|done|done|unfold packet_sized; lia|done|].
  exists (wire_octets r ck). pose proof (segment_length r ck Hr). split_and!; [done|lia|by apply segment_octets|].
  apply parse_segment; auto.
Qed.
End codec.
