(* ===== verification/TcpSegmentRuns.v ===== *)
(** * A TCP segment on the wire

    Network byte order made concrete, and the packet of wire/tcp.rs's tests
    emitted and parsed. *)
From stdpp Require Import prelude list.
From S2P Require Import Prelude Wire SeqSpec TcpWire TcpCodec TcpSegment.
Open Scope Z_scope.

Module CodecExample.
Definition take_u16 (l : list Z) : option Z := match l with a :: b :: _ => Some (a * 256 + b) | _ => None end.
Definition take_u32 (l : list Z) : option Z :=
  match l with a :: b :: c :: d :: _ => Some (((a * 256 + b) * 256 + c) * 256 + d) | _ => None end.
Definition put_u16 (n : Z) (l : list Z) : option (list Z) :=
  match l with _ :: _ :: l => Some (n / 256 mod 256 :: n mod 256 :: l) | _ => None end.
Definition put_u32 (n : Z) (l : list Z) : option (list Z) :=
  match l with
  | _ :: _ :: _ :: _ :: l => Some (n / 16777216 mod 256 :: n / 65536 mod 256 :: n / 256 mod 256 :: n mod 256 :: l)
  | _ => None
  end.
#[export] Instance big_endian : NetworkEndian.
Proof.
  refine {| read_u16 := take_u16; read_u32 := take_u32; write_u16 := put_u16; write_u32 := put_u32 |}; try done.
  - intros [|? [|]] Hl; cbn in *; done || lia.
  - intros [|? [|? [|? [|]]]] Hl; cbn in *; done || lia.
  - intros n [|? [|]] Hl; cbn in *; done || lia.
  - intros n [|? [|? [|? [|]]]] Hl; cbn in *; done || lia.
Defined.

Definition src : IpAddress := Ipv4 0xc0a80101.
Definition dst : IpAddress := Ipv4 0xc0a80102.
Definition syn_bytes : list Z :=
  [0xbf; 0x00; 0x00; 0x50; 0x01; 0x23; 0x45; 0x67; 0x00; 0x00; 0x00; 0x00; 0x50; 0x02; 0x01;
   0x23; 0x7a; 0x8d; 0x00; 0x00; 0xaa; 0x00; 0x00; 0xff].
Definition syn : TcpRepr :=
  MkRepr 48896 80 Syn 0x01234567 None 0x0123 None None false [None; None; None] None [0xaa; 0x00; 0x00; 0xff].
(** A segment with options: two of three ranges acknowledged selectively *)
Definition sacks : TcpRepr :=
  MkRepr 48896 80 Psh (-5) (Some (-1985229329)) 0x0123 None None false [None; Some (7, 9); Some (11, 13)] (Some (MkTimestamp 1 2))
    [0xaa; 0x00; 0xff].
Definition room (r : TcpRepr) : list Z := replicate (Z.to_nat (Wire.buffer_len r)) 0xa5.
Lemma octets_by (l : list Z) : forallb (λ x, (0 <=? x) && (x <? 256)) l = true → Forall octet l.
Proof. intros Hl%Is_true_true%forallb_True. eapply Forall_impl; [exact Hl|]. cbn. unfold octet. intros x Hx%Is_true_true. lia. Qed.
Lemma syn_ok : wire_ok syn.
Proof. split; [split; try done|done]. by apply octets_by. Qed.
Lemma sacks_ok : wire_ok sacks.
Proof.
  split; [split; try done|done].
  - by intros ? [= <-].
  - split; [done|]. by repeat constructor.
  - by intros ? [= <-].
  - by apply octets_by.
Qed.

(** The packet of the tests parses, the octets [emit] writes are those of the
    tests, and the segment with options comes back with its ranges packed. *)
Lemma segment_codec_witness :
  (∃ r, Repr.parse src dst CsBoth syn_bytes = Ok r ∧ in_range r) ∧
  Repr.emit (E := WireError) syn src dst CsBoth (room syn) = (Ok (), syn_bytes) ∧
  ∃ l', Repr.emit (E := WireError) sacks src dst CsBoth (room sacks) = (Ok (), l') ∧ Repr.parse src dst CsBoth l' = Ok (normal sacks) ∧
    sack_ranges (normal sacks) = [Some (7, 9); Some (11, 13); None].
Proof.
  destruct (segment_codec src dst CsBoth CsBoth eq_refl (λ _, eq_refl)) as [Hp He]. split_and!.
  - specialize (Hp syn_bytes (octets_by syn_bytes eq_refl)). exists syn.
    assert (Repr.parse src dst CsBoth syn_bytes = Ok syn) as Heq by (vm_compute; reflexivity). rewrite Heq in Hp. split; [exact Heq|].
    apply Hp. cbn. lia.
  - vm_compute. reflexivity.
  - destruct (He sacks (room sacks)) as (l' & H1 & _ & _ & H2); [exact sacks_ok|by vm_compute|by apply octets_by; vm_compute|by vm_compute|].
    exists l'. by repeat split.
Defined.
End CodecExample.
