(* ===== verification/TcpIface.v ===== *)
(** * TCP in the network interface (crates/smoltcp/src/iface)

    How the interface hands the payload of an IP packet to the TCP sockets, and
    how it writes the segments they emit into the payload of one. *)
From stdpp Require Import prelude list.
From S2P Require Import Prelude Wire TcpTimers Assembler RingBuffer TcpSocket TcpProcess TcpWire.
Open Scope Z_scope.

(** [phy::DeviceCapabilities], as far as TCP reads it; [checksum] is that of TCP *)
Record DeviceCapabilities := MkCaps {
  max_transmission_unit : Z;
  max_burst_size : option Z;
  checksum : Checksum }.

Section iface.
Context {NE : NetworkEndian}.

(** ** Ingress (iface/interface/tcp.rs) *)

(** The loop over the TCP sockets: the first that accepts the segment processes it. *)
Fixpoint offer (cx : Context) (ip_repr : IpRepr) (tcp_repr : TcpRepr) (sockets : list Socket) :
    option (outcome Empty_set (option segment) * list Socket) :=
  match sockets with
  | [] => None
  | s :: rest =>
      if accepts ip_repr tcp_repr s then
        let '(x, s') := process cx ip_repr tcp_repr s in Some (x, s' :: rest)
      else prod_map id (cons s) <$> offer cx ip_repr tcp_repr rest
  end.
Definition process_tcp (cx : Context) (caps : DeviceCapabilities) (ip_repr : IpRepr) (ip_payload : list Z) :
    prog (list Socket) Empty_set (option segment) := λ sockets,
  match
    Packet.check_len ip_payload;;
    Repr.parse (src_addr ip_repr) (dst_addr ip_repr) (checksum caps) ip_payload
  with
  | Panic => (Panic, sockets)
  | Err _ => (Ok None, sockets)
  | Ok tcp_repr =>
      match offer cx ip_repr tcp_repr sockets with
      | Some r => r
      | None =>
          if bool_decide (control tcp_repr = Rst) || is_unspecified (dst_addr ip_repr) || is_unspecified (src_addr ip_repr)
          then (Ok None, sockets)
          else (seg ← rst_reply ip_repr tcp_repr; Ok (Some seg), sockets)
      end
  end.

(** ** Egress (iface/packet.rs, the TCP case of [emit_payload]) *)

(** The window advertised by a device that cannot take long bursts *)
Definition limit_window {E} (caps : DeviceCapabilities) (ip_repr : IpRepr) (tcp_repr : TcpRepr) : outcome E TcpRepr :=
  match max_burst_size caps with
  | None => Ok tcp_repr
  | Some burst =>
      m ← usub (max_transmission_unit caps) (ip_header_len ip_repr);
      max_segment_size ← usub m (header_len tcp_repr);
      max_window_size ← checked 0 usize_max (burst * max_segment_size);
      Ok (if max_window_size <? window_len tcp_repr
          then update window_len (λ _, as_u16 max_window_size) tcp_repr else tcp_repr)
  end.
Definition emit_payload {E} (caps : DeviceCapabilities) (ip_repr : IpRepr) (tcp_repr : TcpRepr) : prog (list Z) E () :=
  r ← lift (limit_window caps ip_repr tcp_repr);
  Repr.emit r (src_addr ip_repr) (dst_addr ip_repr) (checksum caps).
End iface.
