(* ===== verification/TcpOctets.v ===== *)
(** * Octets in, octets out

    The sockets of TcpNetwork.v joined to the parsing and the emission of
    segments: whatever octets reach an interface its sockets survive them, and
    the octets one interface writes carry the stream to another. *)
From stdpp Require Import prelude list.
From S2P Require Import Prelude Wire SeqSpec TcpTimers Assembler AssemblerSpec RingBuffer RingSpec TcpSocket TcpProcess.
From S2P Require Import TcpDispatch TcpInv TcpReply TcpStages TcpMoves TcpAcks TcpReceive TcpSend TcpUser TcpStream.
From S2P Require Import TcpNetwork TcpWire TcpCodec TcpSegment TcpIface.
Open Scope Z_scope.

Section octets.
Context {NE : NetworkEndian}.

(** ** Ingress *)

Definition octet_packet (l : list Z) : Prop := Forall octet l ∧ Z.of_nat (length l) <= 65535.
Lemma parsed_repr src dst caps l r :
  same_family src dst → octet_packet l → Repr.parse src dst caps l = Ok r → repr_ok r.
Proof.
  intros Hf [Ho Hl] Hp. pose proof (parse_safe src dst caps l Ho Hl Hf) as Hs. rewrite Hp in Hs.
  destruct Hs as ((Hw & _ & _ & Hws) & Hb). pose proof (hl_facts r Hw) as (Hh & Hk & Hk4 & _).
  pose proof (ro_seq r Hw). pose proof (ro_ack r Hw) as Ha. pose proof (ro_win r Hw) as Hwin. pose proof (ro_mss r Hw) as Hm.
  pose proof (ro_ws r Hw) as Ho'. unfold Wire.buffer_len, is_u16, octet, u16_max in *.
  split; unfold u16_max; try done; try lia.
  - destruct (ack_number r) as [a|]; [exact (Ha a eq_refl)|done].
  - destruct (window_scale r) as [v|]; [|done]. specialize (Hws v eq_refl). specialize (Ho' v eq_refl). cbn. lia.
  - destruct (max_seg_size r) as [v|]; [|done]. specialize (Hm v eq_refl). cbn. lia.
Qed.

(** A socket whose round-trip sample in progress, if any, is within what the estimator can hold *)
Definition ready (cx : Context) (s : Socket) : Prop := tcp_inv s ∧ sample_fresh (now cx) (rtte s).
(** The first socket that accepts the segment has processed it, or none did. *)
Definition first_accepts ip r (ss pre : list Socket) (s : Socket) (post : list Socket) : Prop :=
  ss = pre ++ s :: post ∧ Forall (λ s, accepts ip r s = false) pre ∧ accepts ip r s = true.
Definition offered cx ip r (ss : list Socket) (x : option segment) (ss' : list Socket) : Prop :=
  ∃ pre s post s', first_accepts ip r ss pre s post ∧ ss' = pre ++ s' :: post ∧ process cx ip r s = (Ok x, s').
(** The socket that accepts the segment holds data for selective
    acknowledgement around sequence number 0. *)
Definition wrapping ip r (ss : list Socket) : Prop := ∃ pre s post, first_accepts ip r ss pre s post ∧ ¬ sack_safe s.
Lemma offer_ok cx ip r ss :
  context_ok cx → ip_ok ip → repr_ok r → Forall (ready cx) ss →
  match offer cx ip r ss with
  | Some (Ok x, ss') => plain_reply x ∧ Forall tcp_inv ss' ∧ offered cx ip r ss x ss'
  | Some (Err _, _) => False
  | Some (Panic, _) => wrapping ip r ss
  | None => Forall (λ s, accepts ip r s = false) ss
  end.
Proof.
  intros Hcx Hip Hr. induction ss as [|s ss IH]; intros Hs; [by constructor|]. apply Forall_cons in Hs as [(Hi & Hf) Hs]. cbn [offer].
  destruct (accepts ip r s) eqn:Ha.
  - assert (first_accepts ip r (s :: ss) [] s ss) as Hfst by done.
    pose proof (process_ok cx ip r Hcx Hip Hr s Hi Hf Ha) as Hp. unfold wp in Hp. destruct (process cx ip r s) as [o s'] eqn:Hrun.
    destruct Hp as [[Hx Hsk]|[(x & Hx & Hpl) Hp]]; cbn [fst snd] in *; subst o; [by exists [], s, ss|]. split_and!; try done.
    + constructor; [by eapply processed_inv|]. eapply Forall_impl; [done|]. by intros ? [].
    + by exists [], s, ss, s'.
  - assert (∀ pre s0 post, first_accepts ip r ss pre s0 post → first_accepts ip r (s :: ss) (s :: pre) s0 post) as Hfst.
    { intros pre s0 post (-> & Hpre & Hacc). split_and!; [done|by constructor|done]. }
    specialize (IH Hs). destruct (offer cx ip r ss) as [[[x|e|] ss']|]; cbn; [|done| |by constructor].
    + destruct IH as (Hpl & Hss & (pre & s0 & post & s' & Hsp & -> & Hrun)). split_and!; [done|by constructor|].
      exists (s :: pre), s0, post, s'. split_and!; try done. by apply Hfst.
    + destruct IH as (pre & s0 & post & Hsp & Hsk). exists (s :: pre), s0, post. split; [by apply Hfst|done].
Qed.
Lemma offer_none cx ip r ss : Forall (λ s, accepts ip r s = false) ss → offer cx ip r ss = None.
Proof. induction 1 as [|s ss Hs _ IH]; [done|]. cbn. by rewrite Hs, IH. Qed.
(** Parsing checks the length again. *)
Lemma process_tcp_parse cx caps ip l ss :
  process_tcp cx caps ip l ss =
    match Repr.parse (src_addr ip) (dst_addr ip) (checksum caps) l with
    | Panic => (Panic, ss)
    | Err _ => (Ok None, ss)
    | Ok r =>
        match offer cx ip r ss with
        | Some y => y
        | None =>
            if bool_decide (control r = Rst) || is_unspecified (dst_addr ip) || is_unspecified (src_addr ip) then (Ok None, ss)
            else (seg ← rst_reply ip r; Ok (Some seg), ss)
        end
    end.
Proof. unfold process_tcp, Repr.parse. by destruct (Packet.check_len l). Qed.
(** What [process_tcp] does with any octets *)
Definition taken_in cx caps ip l (ss : list Socket) (x : option segment) (ss' : list Socket) : Prop :=
  (ss' = ss ∧ ∀ r, Repr.parse (src_addr ip) (dst_addr ip) (checksum caps) l = Ok r → Forall (λ s, accepts ip r s = false) ss) ∨
  (∃ r, Repr.parse (src_addr ip) (dst_addr ip) (checksum caps) l = Ok r ∧ repr_ok r ∧ offered cx ip r ss x ss').
Lemma process_tcp_ok cx caps ip l ss :
  context_ok cx → ip_ok ip → octet_packet l → Forall (ready cx) ss →
  match process_tcp cx caps ip l ss with
  | (Ok x, ss') => plain_reply x ∧ Forall tcp_inv ss' ∧ taken_in cx caps ip l ss x ss'
  | (Err _, _) => False
  | (Panic, _) => ∃ r, Repr.parse (src_addr ip) (dst_addr ip) (checksum caps) l = Ok r ∧ wrapping ip r ss
  end.
Proof.
  intros Hcx Hip Hl Hss. rewrite process_tcp_parse. pose proof (parse_safe (src_addr ip) (dst_addr ip) (checksum caps) l) as Hs.
  specialize (Hs (proj1 Hl) (proj2 Hl) Hip).
  pose proof (parsed_repr (src_addr ip) (dst_addr ip) (checksum caps) l) as Hrp.
  assert (Forall tcp_inv ss) as Hinv by (eapply Forall_impl; [done|]; by intros ? []).
  unfold taken_in. destruct (Repr.parse _ _ _ l) as [r|e|]; [|split_and!; try done; by left|done].
  specialize (Hrp r Hip Hl eq_refl). pose proof (offer_ok cx ip r ss Hcx Hip Hrp Hss) as Ho.
  destruct (offer cx ip r ss) as [[[x|e|] ss']|]; [|done|by exists r|].
  - destruct Ho as (Hpl & Hinv' & Hof). split_and!; try done. right. by exists r.
  - assert (∀ r', Ok r = Ok (E := WireError) r' → Forall (λ s, accepts ip r' s = false) ss) as Hno by (by intros ? [= <-]).
    destruct (_ || _) eqn:Hb; [split_and!; try done; by left|].
    apply orb_false_iff in Hb as [[Hb _]%orb_false_iff _]. apply bool_decide_eq_false in Hb.
    destruct (rst_reply_ok (E := Empty_set) ip r Hip Hrp Hb) as (seg & -> & Hseg).
    cbn [mbind outcome_bind]. split_and!; try done. by left.
Qed.
(** What holds where nothing has panicked *)
Lemma process_tcp_done cx caps ip l ss x ss' :
  context_ok cx → ip_ok ip → octet_packet l → Forall (ready cx) ss → process_tcp cx caps ip l ss = (Ok x, ss') →
  plain_reply x ∧ taken_in cx caps ip l ss x ss'.
Proof.
  intros Hcx Hip Hl Hss Hrun. pose proof (process_tcp_ok cx caps ip l ss Hcx Hip Hl Hss) as H. rewrite Hrun in H.
  by destruct H as (? & _ & ?).
Qed.

(** C8: Whatever octets, up to 65535, arrive in an IP packet of one address
    family, at a time below 2^62 us and with an MTU that has room for the
    headers, for sockets that satisfy the invariant and whose round-trip sample
    in progress is less than 2^29 ms old, the interface hands them to its TCP
    sockets with at most one way to panic: the first socket that accepts the
    segment has negotiated selective acknowledgements and its receive window
    reaches sequence number 0, where the offsets of the held data overflow.
    Octets that are no segment, or whose checksum is wrong, change nothing and
    are not answered. Otherwise at most one socket changes, the first that
    accepts the segment: it keeps its invariant, moves along the connection
    diagram, and loses octets of its transmit buffer only by their being
    acknowledged. The answer carries no data, and a reset no socket accepts is
    not answered. *)
Theorem process_tcp_safe cx caps ip l ss :
  context_ok cx → ip_ok ip → Forall octet l → Z.of_nat (length l) <= 65535 → Forall (ready cx) ss →
  match process_tcp cx caps ip l ss with
  | (Ok x, ss') => plain_reply x ∧ Forall tcp_inv ss' ∧
      match Repr.parse (src_addr ip) (dst_addr ip) (checksum caps) l with
      | Ok r =>
          (∃ pre s post s', first_accepts ip r ss pre s post ∧ ss' = pre ++ s' :: post ∧
             edge (state s) (state s') = true ∧
             (synced (state s) → ∀ iss w, sending iss s w → sending iss s' w)) ∨
          (ss' = ss ∧ Forall (λ s, accepts ip r s = false) ss ∧ (control r = Rst → x = None))
      | _ => x = None ∧ ss' = ss
      end
  | (Err _, _) => False
  | (Panic, _) => ∃ r pre s post, Repr.parse (src_addr ip) (dst_addr ip) (checksum caps) l = Ok r ∧
      first_accepts ip r ss pre s post ∧ remote_has_sack s = true ∧
      remote_seq_no s < 0 <= remote_seq_no s + rx_capacity s + 1
  end.
Proof.
  intros Hcx Hip Ho Hl Hss. pose proof (process_tcp_ok cx caps ip l ss Hcx Hip (conj Ho Hl) Hss) as H.
  destruct (process_tcp cx caps ip l ss) as [[x|e|] ss'] eqn:Hrun; [|done|].
  2: { destruct H as (r & Hp & pre & s & post & Hfst & Hsk). exists r, pre, s, post.
       by destruct (not_sack_safe s Hsk) as (? & ? & ?). }
  destruct H as (Hpl & Hinv & Ht). split_and!; try done. rewrite process_tcp_parse in Hrun. unfold taken_in in Ht.
  destruct (Repr.parse _ _ _ l) as [r|e|]; [|by injection Hrun as <- <-|done]. destruct Ht as [[-> Hno]|(r' & [= <-] & Hr & Hof)].
  - right. specialize (Hno r eq_refl). split_and!; [done|done|]. intros Hc. rewrite offer_none in Hrun by done.
    rewrite bool_decide_true in Hrun by done. by injection Hrun as <-.
  - left. destruct Hof as (pre & s & post & s' & Hfst & -> & Hp). exists pre, s, post, s'.
    pose proof Hfst as (-> & Hpre & Ha). apply Forall_app in Hss as [_ Hss]. apply Forall_cons in Hss as [(Hi & Hf) _].
    destruct (process_done cx ip r Hcx Hip Hr s x s' Hi Hf Ha Hp) as [_ Hw]. split_and!; try done.
    + by eapply processed_edge.
    + intros Hsy iss w Hse. by eapply processed_sending.
Qed.

(** ** Egress *)

Abbreviation packet := (IpRepr * list Z)%type.
(** The interface writes a segment, whose fields the types bound, into a buffer of its length. *)
Definition transmitted (caps : DeviceCapabilities) (seg : segment) (pk : packet) : Prop :=
  pk.1 = seg.1 ∧ typed seg.2 ∧ Wire.buffer_len seg.2 <= 65535 ∧
  ∃ buf, Forall octet buf ∧ Z.of_nat (length buf) = Wire.buffer_len seg.2 ∧
    emit_payload (E := WireError) caps seg.1 seg.2 buf = (Ok (), pk.2).
(** Headers of sockets fit: the options of a SYN do not meet selective acknowledgements. *)
Definition short_header (r : TcpRepr) : Prop := sack_ranges r = no_sack_ranges ∨ no_syn_options r.
Lemma short_wire r : short_header r → typed r → wire_ok r.
Proof.
  intros Hs Ht. split; [done|]. rewrite header_len_opt.
  assert (opt_len r <= 36) as Ho; [|pose proof (Z.div_mod (opt_len r + 3) 4); pose proof (Z.mod_pos_bound (opt_len r + 3) 4); lia].
  pose proof (proj1 (ro_ranges r Ht)) as Hl. pose proof (somes_length (sack_ranges r)) as Hn. unfold opt_len. destruct Hs as [Hs|(-> & -> & ->)].
  - rewrite Hs. change (0 <? Z.of_nat (length (Option.somes no_sack_ranges))) with false.
    destruct (max_seg_size r), (window_scale r), (sack_permitted r), (timestamp r); cbn [present_len]; lia.
  - destruct (timestamp r); cbn [present_len]; split_zbool; lia.
Qed.
(** Limiting the window changes no other field. *)
Lemma limit_window_ok {E} caps ip r r' :
  limit_window (E := E) caps ip r = Ok r' → typed r →
  typed r' ∧ header_len r' = header_len r ∧ payload r' = payload r ∧ control r' = control r ∧ seq_number r' = seq_number r.
Proof.
  unfold limit_window, usub, checked. destruct (max_burst_size caps) as [b|]; [|by intros [= <-]].
  destruct (_ <=? _); cbn [mbind outcome_bind]; [|done]. destruct (_ <=? _); cbn [mbind outcome_bind]; [|done].
  destruct (_ && _); cbn [mbind outcome_bind]; [|done]. destruct (_ <? _); intros [= <-] Ht; [|done].
  split_and!; try done. destruct Ht. split; try done. cbn. unfold is_u16, as_u16. apply Z.mod_pos_bound. lia.
Qed.
(** What a decoded packet has in common with the segment it was written from *)
Definition same_stream (r r' : TcpRepr) : Prop :=
  payload r' = payload r ∧ control r' = control r ∧ seq_number r' = seq_number r.
Lemma transmitted_ok caps caps' seg pk :
  (rx (checksum caps') = true → tx (checksum caps) = true) → ip_ok seg.1 → short_header seg.2 → transmitted caps seg pk →
  octet_packet pk.2 ∧
  ∀ r, Repr.parse (src_addr pk.1) (dst_addr pk.1) (checksum caps') pk.2 = Ok r → same_stream seg.2 r.
Proof.
  intros Hc Hip Hs (-> & Ht & Hb & buf & Hbuf & Hlen & He). unfold emit_payload in He.
  destruct (limit_window caps seg.1 seg.2) as [r0|e|] eqn:Hw; [|done|done].
  destruct (limit_window_ok _ _ _ _ Hw Ht) as (Ht0 & Hh & Hp & Hctl & Hseq).
  assert (wire_ok r0) as Hr0 by (split; [done|rewrite Hh; by apply short_wire]).
  assert (Wire.buffer_len r0 = Wire.buffer_len seg.2) as Hbl by (unfold Wire.buffer_len, plen; by rewrite Hh, Hp).
  unfold mbind, prog_bind, lift in He.
  destruct (emit_spec r0 (src_addr seg.1) (dst_addr seg.1) (checksum caps) buf) as (ck & Hck & He' & Hv);
    [done|done|lia|unfold packet_sized; lia|done|]. rewrite He' in He. injection He as Hl. rewrite <- Hl. split.
  - split; [by apply segment_octets|]. rewrite segment_length by done. lia.
  - intros r Hr. rewrite parse_segment in Hr by auto. destruct (_ || _); [done|]. injection Hr as <-. done.
Qed.

(** ** Two hosts and the octets between them *)

Record hosts := MkHosts {
  h_sender : Socket; h_receiver : Socket; h_wire : list packet; h_written : list Z; h_got : list Z }.
Context (capsA capsB : DeviceCapabilities).

(** As [hop], with packets of octets on the wire: what the sender's interface
    emits is written by [emit_payload], and what reaches either host goes
    through [process_tcp]. The receiver is reached by packets that are on the
    wire, the sender by any octets at all. The sender has no keep-alive, a FIN
    arrives only where the receiver has room for what it ends, and no round trip
    is timed for longer than the estimator can hold. *)
Inductive exchange : hosts → hosts → Prop :=
| tr_local a a' b b' ws w w' g g' :
    hop (MkConfig a b [] w g) (MkConfig a' b' [] w' g') →
    exchange (MkHosts a b ws w g) (MkHosts a' b' ws w' g')
| tr_send {E} a a' b ws w g cx (emit : segment → option E) r pks :
    context_ok cx → no_keep_alive cx a → dispatch cx emit a = (r, a') → r ≠ Panic →
    Forall2 (transmitted capsA) (emitted_segments r) pks →
    exchange (MkHosts a b ws w g) (MkHosts a' b (pks ++ ws) w g)
| tr_answer a a' b ws w g cx ip l x pks :
    context_ok cx → ip_ok ip → octet_packet l → sample_fresh (now cx) (rtte a) → state a ≠ Listen →
    process_tcp cx capsA ip l [a] = (Ok x, [a']) →
    Forall2 (transmitted capsA) (emitted_segments (E := Empty_set) (Ok x)) pks →
    exchange (MkHosts a b ws w g) (MkHosts a' b (pks ++ ws) w g)
| tr_receive a b b' ws w g cx pk x :
    pk ∈ ws → context_ok cx → sample_fresh (now cx) (rtte b) →
    (∀ r, Repr.parse (src_addr pk.1) (dst_addr pk.1) (checksum capsB) pk.2 = Ok r → fin_fits b r) →
    process_tcp cx capsB pk.1 pk.2 [b] = (Ok x, [b']) →
    exchange (MkHosts a b ws w g) (MkHosts a b' ws w g).

(** The segments the receiver's host reads from the packets on the wire *)
Definition decode (pk : packet) : option segment :=
  match Repr.parse (src_addr pk.1) (dst_addr pk.1) (checksum capsB) pk.2 with Ok r => Some (pk.1, r) | _ => None end.
Definition decoded (h : hosts) : config :=
  MkConfig (h_sender h) (h_receiver h) (omap decode (h_wire h)) (h_written h) (h_got h).
Definition sound (pk : packet) : Prop := octet_packet pk.2 ∧ ip_ok pk.1.
Definition joined (iss : Z) (h : hosts) : Prop := linked iss (decoded h) ∧ Forall sound (h_wire h).

Lemma local_hop a a' b b' ws w w' g g' :
  hop (MkConfig a b [] w g) (MkConfig a' b' [] w' g') → hop (MkConfig a b ws w g) (MkConfig a' b' ws w' g').
Proof.
  intros H. inversion H; subst; try (by econstructor).
  - match goal with He : emitted_segments _ ++ [] = [] |- _ => rewrite app_nil_r in He; change ws with ([] ++ ws) at 2; rewrite <- He end.
    by eapply hop_send.
  - destruct x; [done|]. change ws with (emitted_segments (E := Empty_set) (Ok None) ++ ws) at 2. by eapply hop_answer.
  - set_solver.
Qed.
Lemma carried_same iss w ip ip' r r' : same_stream r r' → carried iss w (ip, r) → carried iss w (ip', r').
Proof. intros (Hp & Hc & Hs). unfold carried. cbn [fst snd]. by rewrite Hp, Hc, Hs. Qed.

Section joint.
Context (iss : Z) (Hcaps : rx (checksum capsB) = true → tx (checksum capsA) = true).

(** The packets a host puts on the wire for its segments may stand for them. *)
Lemma transmitted_joined a b segs pks ws w g :
  linked iss (MkConfig a b (segs ++ omap decode ws) w g) → Forall sound ws →
  Forall (λ seg, ip_ok seg.1 ∧ short_header seg.2) segs → Forall2 (transmitted capsA) segs pks →
  joined iss (MkHosts a b (pks ++ ws) w g).
Proof.
  intros [H1 H2 H3 H4 H5 H6 H7 H8] Hws Hsegs Hpk. cbn in *.
  assert (∀ pk, pk ∈ pks → ∃ seg, seg ∈ segs ∧ sound pk ∧ ∀ r, decode pk = Some r → same_stream seg.2 r.2) as Hd.
  { intros pk Hin. apply list_elem_of_lookup in Hin as [i Hi]. destruct (Forall2_lookup_r _ _ _ _ _ Hpk Hi) as (seg & Hsi & Ht).
    destruct (Forall_lookup_1 _ _ _ _ Hsegs Hsi) as [Hip Hsh]. destruct (transmitted_ok capsA capsB seg pk Hcaps Hip Hsh Ht) as [Ho Hs].
    exists seg. split; [by eapply list_elem_of_lookup_2|]. split; [split; [done|by rewrite (proj1 Ht)]|].
    intros r. unfold decode. destruct (Repr.parse _ _ _ _) as [r0| |]; try done. intros [= <-]. by apply Hs. }
  assert (∀ seg', seg' ∈ omap decode (pks ++ ws) → seg' ∈ omap decode ws ∨ ∃ seg, seg ∈ segs ∧ same_stream seg.2 seg'.2) as Hin.
  { intros seg' Hin. rewrite omap_app in Hin. apply elem_of_app in Hin as [Hin|Hin]; [right|by left].
    apply list_elem_of_omap in Hin as (pk & Hpin & Hdec). destruct (Hd pk Hpin) as (seg & Hs & _ & Hst). exists seg. auto. }
  split; [|apply Forall_app; split; [|done]; apply Forall_forall; intros pk Hp; by destruct (Hd pk Hp) as (? & _ & ? & _)].
  constructor; cbn; try done.
  - intros seg' [Hw|(seg & Hs & Hst)]%Hin; [apply H6, elem_of_app; by right|].
    destruct seg as [ip r], seg' as [ip' r']. eapply carried_same; [exact Hst|]. apply H6, elem_of_app. by left.
  - intros seg' [Hw|(seg & Hs & Hst)]%Hin Hf; [apply (H7 seg'); [apply elem_of_app; by right|done]|].
    apply (H7 seg); [apply elem_of_app; by left|]. destruct Hst as (_ & <- & _). done.
Qed.
Lemma emitted_short cx s seg probe : tcp_inv s → emitted cx s seg probe false → ip_ok seg.1 ∧ short_header seg.2.
Proof.
  intros Hinv (t & Ht & Hs & Hd & _ & k & Hb). split; [|left; exact (built_ranges _ _ _ _ _ _ Hb)]. unfold ip_ok. rewrite Hs, Hd.
  pose proof (link_version s (inv_link s Hinv)) as Hv. by rewrite Ht in Hv.
Qed.
Lemma send_joined {E} a a' b ws w g cx (emit : segment → option E) r pks :
  context_ok cx → no_keep_alive cx a → dispatch cx emit a = (r, a') → r ≠ Panic →
  Forall2 (transmitted capsA) (emitted_segments r) pks →
  joined iss (MkHosts a b ws w g) → joined iss (MkHosts a' b (pks ++ ws) w g).
Proof.
  intros Hcx Hk Hrun Hr Hpk [Hl Hs]. eapply transmitted_joined; [|exact Hs| |exact Hpk].
  - by eapply send_linked.
  - pose proof (dispatch_ok cx emit Hcx a (link_sender _ _ Hl)) as Hp. unfold wp in Hp. rewrite Hrun in Hp. cbn [fst snd] in Hp.
    destruct r as [[seg|]|e|]; cbn [emitted_segments]; try by constructor. destruct Hp as (s1 & p & al & Ht & Hem & _).
    constructor; [|constructor]. assert (al = false) as ->; [|eapply emitted_short; [apply Ht|done]].
    destruct Hk as [Hka Hdue]. destruct al; [|done]. destruct Hem as (t & _ & _ & _ & _ & _ & Hd & _).
    by rewrite (ticked_alive _ _ Ht Hka (now cx) Hdue) in Hd.
Qed.
Lemma one_socket cx ip r s x ss' :
  offered cx ip r [s] x ss' → accepts ip r s = true ∧ ∃ s', ss' = [s'] ∧ process cx ip r s = (Ok x, s').
Proof.
  intros (pre & s0 & post & s' & (Hs & _ & Ha) & -> & Hrun). destruct pre as [|? [|]]; [|done|done].
  injection Hs as <- <-. split; [done|]. by exists s'.
Qed.
Lemma answer_joined a a' b ws w g cx ip l x pks :
  context_ok cx → ip_ok ip → octet_packet l → sample_fresh (now cx) (rtte a) → state a ≠ Listen →
  process_tcp cx capsA ip l [a] = (Ok x, [a']) →
  Forall2 (transmitted capsA) (emitted_segments (E := Empty_set) (Ok x)) pks →
  joined iss (MkHosts a b ws w g) → joined iss (MkHosts a' b (pks ++ ws) w g).
Proof.
  intros Hcx Hip Hlp Hf Hnl Hrun Hpk [Hl Hs].
  destruct (process_tcp_done cx capsA ip l [a] x [a'] Hcx Hip Hlp) as [Hpl Ht]; [by constructor; [split; [apply Hl|done]|constructor]|done|]. eapply transmitted_joined; [|exact Hs| |exact Hpk].
  - destruct Ht as [[Ha _]|(r & _ & Hr & Hof)].
    + injection Ha as ->. apply linked_wire; [exact Hl|]. intros seg Hin. destruct x as [seg'|]; cbn in Hin; [|set_solver].
      assert (seg = seg') as -> by set_solver. by destruct (plain_carried iss w seg' Hpl).
    + apply one_socket in Hof as (Hacc & s' & [= <-] & Hp). eapply answer_linked; [by split|done|exact Hp|exact Hl].
  - destruct x as [seg|]; cbn [emitted_segments]; constructor; [|constructor]. destruct Hpl as (_ & _ & Ho & Hi). split; [done|by right].
Qed.
Lemma receive_joined a b b' ws w g cx pk x :
  Z.of_nat (length w) < 2 ^ 31 - 1 → pk ∈ ws → context_ok cx → sample_fresh (now cx) (rtte b) →
  (∀ r, Repr.parse (src_addr pk.1) (dst_addr pk.1) (checksum capsB) pk.2 = Ok r → fin_fits b r) →
  process_tcp cx capsB pk.1 pk.2 [b] = (Ok x, [b']) →
  joined iss (MkHosts a b ws w g) → joined iss (MkHosts a b' ws w g).
Proof.
  intros Hlen Hin Hcx Hf Hfit Hrun [Hl Hs]. split; [|exact Hs]. destruct (proj1 (Forall_forall _ _) Hs pk Hin) as [Hlp Hip].
  destruct (process_tcp_done cx capsB pk.1 pk.2 [b] x [b'] Hcx Hip Hlp) as [_ Ht]; [by constructor; [split; [apply Hl|done]|constructor]|done|].
  destruct Ht as [[Hb _]|(r & Hp & Hr & Hof)]; [by injection Hb as ->|].
  apply one_socket in Hof as (Hacc & s' & [= <-] & Hpr).
  eapply (receive_linked iss a b b' _ w g cx (pk.1, r) x); [done| |by split|by apply Hfit|exact Hpr|exact Hl].
  apply list_elem_of_omap. exists pk. split; [done|]. unfold decode. by rewrite Hp.
Qed.
Lemma exchange_joined h h' :
  exchange h h' → Z.of_nat (length (h_written h)) < 2 ^ 31 - 1 → joined iss h → joined iss h'.
Proof.
  destruct 1; intros Hlen Hj; cbn in Hlen.
  - destruct Hj as [Hl Hs]. split; [|exact Hs]. eapply hop_linked; [by apply local_hop|exact Hlen|exact Hl].
  - by eapply send_joined.
  - by eapply answer_joined.
  - by eapply receive_joined.
Qed.
Lemma exchange_written h h' : exchange h h' → (length (h_written h) <= length (h_written h'))%nat.
Proof. destruct 1 as [? ? ? ? ? ? ? ? ? H| | |]; cbn; try lia. by apply hop_written in H. Qed.
Lemma exchanges_joined h h' :
  rtc exchange h h' → Z.of_nat (length (h_written h')) < 2 ^ 31 - 1 → joined iss h → joined iss h'.
Proof.
  induction 1 as [h|h1 h2 h3 Hs Hr IH]; [done|]. intros Hlen Hj. apply IH; [done|].
  apply (exchange_joined h1); [done| |done]. assert (length (h_written h2) <= length (h_written h3))%nat as Hle.
  { clear - Hr. induction Hr as [|x y z H _ IH]; [done|]. pose proof (exchange_written _ _ H). lia. }
  pose proof (exchange_written _ _ Hs). lia.
Qed.
End joint.

(** C1: Two hosts, each with a socket, exchange packets of octets over a network
    that loses, repeats, delays and reorders them, and delivers to the sender
    any other octets as well. Segments are written by the sender's interface
    with the checksum if the receiver's verifies it, into buffers that held
    anything, with the window cut to the device's bursts, and read from the
    octets by the receiver's. While less than 2^31 - 1 octets are written, what
    the receiver's user has read and what waits in its buffer are a prefix of
    what the sender's user wrote, and all of it when a read reports the end of
    the stream. The runs are those of [exchange], from the start of the
    handshake: the users write, read and close, the interfaces poll, with a
    clock below 2^62 us and an MTU with room for the headers, the receiver gets
    packets of the sender only, and no call of the run panics. In them the
    sender has no keep-alive, whose octet is not of the stream; it is not closed
    in SYN-RECEIVED, from where it would send no FIN; a FIN reaches the receiver
    only on a segment that its free buffer has room for to its end ([fin_fits]),
    as it would otherwise end the stream early; and no segment arrives 2^29 ms
    or more after the octet whose round trip is being timed. *)
Theorem octets_delivered a b h' :
  (rx (checksum capsB) = true → tx (checksum capsA) = true) →
  starting (MkConfig a b [] [] []) → rtc exchange (MkHosts a b [] [] []) h' → Z.of_nat (length (h_written h')) < 2 ^ 31 - 1 →
  h_got h' ++ RingSpec.contents (rx_buffer (h_receiver h')) `prefix_of` h_written h' ∧
  (∀ buf b', recv_slice buf (h_receiver h') = (Err RecvFinished, b') → h_got h' = h_written h').
Proof.
  intros Hcaps Hst Hr Hlen. destruct (exchanges_joined (local_seq_no a) Hcaps _ _ Hr Hlen) as [Hl _].
  - split; [exact (starting_linked _ Hst)|constructor].
  - exact (linked_delivers _ _ Hl).
Qed.
End octets.
