(* ===== verification/TcpOctetsRuns.v ===== *)
(** * The transfer of TcpRuns.v, as octets

    The client and the server of TcpRuns.v on two hosts that exchange packets
    of octets with checksums, the client's device limited to bursts of one
    packet; and octets that are no segment at all. *)
From stdpp Require Import prelude list.
From S2P Require Import Prelude Wire SeqSpec TcpTimers Assembler AssemblerSpec RingBuffer RingSpec TcpSocket TcpProcess.
From S2P Require Import TcpDispatch TcpInv TcpReply TcpStages TcpMoves TcpAcks TcpReceive TcpSend TcpUser TcpStream.
From S2P Require Import TcpNetwork TcpLife TcpProgress TcpTheorems TcpRuns TcpWire TcpCodec TcpSegment TcpSegmentRuns TcpIface TcpOctets.
Open Scope Z_scope.

Module OctetExample.
Import TcpExample CodecExample.
Definition caps_client : DeviceCapabilities := MkCaps 1500 (Some 1) CsBoth.
Definition caps_server : DeviceCapabilities := MkCaps 1500 None CsBoth.
(** A segment of a host as its interface writes it over what the buffer held *)
Definition on_wire (caps : DeviceCapabilities) (seg : segment) : IpRepr * list Z :=
  (seg.1, (emit_payload (E := WireError) caps seg.1 seg.2 (room seg.2)).2).
Definition p_syn := Eval vm_compute in on_wire caps_client TcpExample.syn.
Definition p_ack := Eval vm_compute in on_wire caps_client ack.
Definition p_data := Eval vm_compute in on_wire caps_client data.
Definition p_syn_ack := Eval vm_compute in on_wire caps_server syn_ack.

Lemma room_octets r : Forall octet (room r).
Proof. apply Forall_replicate. done. Qed.
Lemma transmitted_of caps seg pk :
  typed seg.2 → Wire.buffer_len seg.2 <= 65535 → Z.of_nat (length (room seg.2)) = Wire.buffer_len seg.2 → pk.1 = seg.1 →
  emit_payload (E := WireError) caps seg.1 seg.2 (room seg.2) = (Ok (), pk.2) → transmitted caps seg pk.
Proof. intros Ht Hb Hl Hp He. split_and!; try done. exists (room seg.2). split_and!; [apply room_octets|done|done]. Qed.
Ltac on_the_wire :=
  apply transmitted_of; [split; first [done | by intros ? [= <-] | by intros ? H; vm_compute in H; injection H as <- | by apply octets_by]|by vm_compute|by vm_compute|done|by vm_compute].
Lemma syn_transmitted : transmitted caps_client TcpExample.syn p_syn.
Proof. on_the_wire. Qed.
Lemma ack_transmitted : transmitted caps_client ack p_ack.
Proof. on_the_wire. Qed.
Lemma data_transmitted : transmitted caps_client data p_data.
Proof. on_the_wire. Qed.

(** A step of the receiver on the packet [pk] at time [t] *)
Ltac receives pk t :=
  eapply rtc_l; [eapply (tr_receive _ _ _ _ _ _ _ _ (at_ t) pk None);
    [set_solver|apply at_ok; lia|holds
    |let r := fresh "r" in let H := fresh "H" in intros r H; vm_compute in H; injection H as <-; first [done | intros _; holds]|vm_compute; reflexivity]|].
Ltac sends s s' t seg pk H :=
  eapply rtc_l; [eapply (tr_send _ _ s s' _ _ _ _ (at_ t) accept (Ok (Some seg)) [pk]);
    [apply at_ok; lia|split; reflexivity|reflexivity|done|by constructor; [apply H|constructor]]|cbn [app]].
Ltac locally h := eapply rtc_l; [apply tr_local; apply h|].
Lemma octets_run : rtc (exchange caps_client caps_server) (MkHosts a0 b0 [] [] []) (MkHosts a6 b5 [p_data; p_ack; p_syn] [1; 2; 3] [1; 2; 3]).
Proof.
  sends a0 a1 0 TcpExample.syn p_syn syn_transmitted. receives p_syn 1.
  change (rtc (exchange caps_client caps_server) (MkHosts a1 b1 [p_syn] [] []) (MkHosts a6 b5 [p_data; p_ack; p_syn] [1; 2; 3] [1; 2; 3])).
  locally (hop_receiver_send a1 b1 b2 [] [] [] (at_ 1) accept (Ok (Some syn_ack)) ltac:(apply at_ok; lia) ltac:(reflexivity) ltac:(done)).
  eapply rtc_l; [apply (tr_answer _ _ a1 a2 b2 [p_syn] [] [] (at_ 2) p_syn_ack.1 p_syn_ack.2 None []);
    [apply at_ok; lia|reflexivity|split; [by apply octets_by|by vm_compute]|holds|done|vm_compute; reflexivity|constructor]|].
  sends a2 a3 2 ack p_ack ack_transmitted. receives p_ack 3.
  change (rtc (exchange caps_client caps_server) (MkHosts a3 b3 [p_ack; p_syn] [] []) (MkHosts a6 b5 [p_data; p_ack; p_syn] [1; 2; 3] [1; 2; 3])).
  locally (hop_write a3 a4 b3 [] [] [] [1; 2; 3] (Ok 3%nat) eq_refl).
  locally (hop_close a4 a5 b3 [] [1; 2; 3] [] (Ok ()) ltac:(done) eq_refl).
  sends a5 a6 4 data p_data data_transmitted. receives p_data 5.
  change (rtc (exchange caps_client caps_server) (MkHosts a6 b4 [p_data; p_ack; p_syn] [1; 2; 3] []) (MkHosts a6 b5 [p_data; p_ack; p_syn] [1; 2; 3] [1; 2; 3])).
  apply rtc_once, tr_local. apply (hop_read a6 b4 b5 [] [1; 2; 3] [] (replicate 8 0) (Ok (3%nat, [1; 2; 3; 0; 0; 0; 0; 0]))). reflexivity.
Qed.
Lemma octets_delivered_witness :
  h_got (MkHosts a6 b5 [p_data; p_ack; p_syn] [1; 2; 3] [1; 2; 3]) = [1; 2; 3] ∧ recv_slice [0] b5 = (Err RecvFinished, b5).
Proof.
  destruct (octets_delivered caps_client caps_server a0 b0 (MkHosts a6 b5 [p_data; p_ack; p_syn] [1; 2; 3] [1; 2; 3])) as [_ Hend].
  - done.
  - constructor; [split; [apply a0_inv|by left]|split; [apply b0_inv|done]|done].
  - apply octets_run.
  - vm_compute. reflexivity.
  - assert (recv_slice [0] b5 = (Err RecvFinished, b5)) as Hr by reflexivity. split; [exact (Hend [0] b5 Hr)|exact Hr].
Defined.
(** The server's socket behind a closed one: the segment is taken, and refused with an octet flipped. *)
Definition flipped : list Z := <[20%nat := 255]> p_data.2.
Lemma process_tcp_safe_witness :
  (∃ x ss', process_tcp (at_ 5) caps_server p_data.1 p_data.2 [closed 8 1; b3] = (Ok x, ss') ∧ Forall tcp_inv ss' ∧ ss' = [closed 8 1; b4]) ∧
  process_tcp (at_ 5) caps_server p_data.1 flipped [closed 8 1; b3] = (Ok None, [closed 8 1; b3]).
Proof.
  assert (Forall (ready (at_ 5)) [closed 8 1; b3]) as Hr.
  { constructor; [split; [apply (lives_8 1 []); live|holds]|]. constructor; [|constructor]. split; [apply b3_inv|holds]. }
  pose proof (process_tcp_safe (at_ 5) caps_server p_data.1) as Hs. split.
  - specialize (Hs p_data.2 [closed 8 1; b3]).
    assert (process_tcp (at_ 5) caps_server p_data.1 p_data.2 [closed 8 1; b3] = (Ok None, [closed 8 1; b4])) as Hrun by (vm_compute; reflexivity).
    rewrite Hrun in Hs. destruct Hs as (_ & Hi & _); [apply at_ok; lia|reflexivity|by apply octets_by|by vm_compute|exact Hr|].
    exists None, [closed 8 1; b4]. split; [exact Hrun|]. split; [exact Hi|reflexivity].
  - specialize (Hs flipped [closed 8 1; b3]).
    destruct (process_tcp (at_ 5) caps_server p_data.1 flipped [closed 8 1; b3]) as [[x|e|] ss'] eqn:Hrun; [|by destruct e|].
    2: { vm_compute in Hrun. discriminate. }
    destruct Hs as (_ & _ & Hp); [apply at_ok; lia|reflexivity|by apply octets_by|by vm_compute|exact Hr|].
    assert (Repr.parse (src_addr p_data.1) (dst_addr p_data.1) (checksum caps_server) flipped = Err MalformedPacket) as He by (vm_compute; reflexivity).
    rewrite He in Hp. destruct Hp as [-> ->]. reflexivity.
Defined.
End OctetExample.
