(* ===== verification/Sched.v ===== *)
(** * Task schedulers (xmodules/xsched)

    The scheduler trait as a class of operations, and its three
    implementations. A task is shared by reference ([Arc]); here it is a
    number, and the fields the schedulers add to it are a store beside the
    queue, so that a task may change while it is queued. *)
From stdpp Require Import prelude list gmap functions.
From S2P Require Import Prelude.
Open Scope Z_scope.

Abbreviation task := nat.
Definition isize (x : Z) : Prop := - 2 ^ 63 <= x < 2 ^ 63.
(** Arithmetic on [isize]: checked, and wrapping as in atomic additions *)
Definition isize_checked {E} (x : Z) : outcome E Z := if (- 2 ^ 63 <=? x) && (x <? 2 ^ 63) then Ok x else Panic.
Definition as_isize (x : Z) : Z := (x + 2 ^ 63) mod 2 ^ 64 - 2 ^ 63.

(** [BaseScheduler] (lib.rs) *)
Class BaseScheduler (S : Type) := {
  init : prog S Empty_set ();
  add_task : task → prog S Empty_set ();
  remove_task : task → prog S Empty_set (option task);
  pick_next_task : prog S Empty_set (option task);
  put_prev_task : task → bool → prog S Empty_set ();
  task_tick : task → prog S Empty_set bool;
  set_priority : task → Z → prog S Empty_set bool }.

(** [intrusive_collections::LinkedList] over links in the tasks: inserting a
    task that is linked already panics ([None]); the cursor is made from a
    task that is in the list. *)
Class LinkedList := {
  il : Type;
  il_new : il;
  push_back : task → il → option il;
  push_front : task → il → option il;
  pop_front : il → option task * il;
  cursor_remove : task → il → option task * il;
  il_items : il → list task;
  il_new_items : il_items il_new = [];
  push_back_items : ∀ t q, t ∉ il_items q → ∃ q', push_back t q = Some q' ∧ il_items q' = il_items q ++ [t];
  push_front_items : ∀ t q, t ∉ il_items q → ∃ q', push_front t q = Some q' ∧ il_items q' = t :: il_items q;
  pop_front_items : ∀ q, (pop_front q).1 = head (il_items q) ∧ il_items (pop_front q).2 = tail (il_items q);
  cursor_remove_items : ∀ t q l1 l2, il_items q = l1 ++ t :: l2 → t ∉ l1 →
    (cursor_remove t q).1 = Some t ∧ il_items (cursor_remove t q).2 = l1 ++ l2 }.

Definition or_panic {S E} (x : S → option S) : prog S E () := λ s,
  match x s with Some s' => (Ok (), s') | None => (Panic, s) end.
Definition pure_op {S E A} (f : S → A * S) : prog S E A := λ s, (Ok (f s).1, (f s).2).

(** ** First in, first out (fifo.rs) *)

Module Fifo.
Section fifo.
Context {LL : LinkedList}.

Record FifoScheduler := MkFifo { ready_queue : il }.
Definition new : FifoScheduler := MkFifo il_new.
Definition on_queue {E A} (m : prog il E A) : prog FifoScheduler E A := zoom ready_queue (λ q _, MkFifo q) m.
#[export] Instance scheduler : BaseScheduler FifoScheduler := {
  init := mret ();
  add_task t := on_queue (or_panic (push_back t));
  remove_task t := on_queue (pure_op (cursor_remove t));
  pick_next_task := on_queue (pure_op pop_front);
  put_prev_task prev _ := on_queue (or_panic (push_back prev));
  task_tick _ := mret false;
  set_priority _ _ := mret false }.
End fifo.
End Fifo.

(** ** Round robin (round_robin.rs) *)

Module RR.
Section rr.
Context {LL : LinkedList} (MAX_TIME_SLICE : Z).

Record RRScheduler := MkRR { ready_queue : il; time_slice : task → Z }.
(** A scheduler, with every task as [RRTask::new] makes it *)
Definition new : RRScheduler := MkRR il_new (λ _, as_isize MAX_TIME_SLICE).
Definition on_queue {E A} (m : prog il E A) : prog RRScheduler E A := zoom ready_queue (λ q s, MkRR q (time_slice s)) m.
Definition reset_time_slice {E} (t : task) : prog RRScheduler E () :=
  modify (λ s, MkRR (ready_queue s) (<[t := as_isize MAX_TIME_SLICE]> (time_slice s))).
Definition rr_put_prev_task {E} (prev : task) (preempt : bool) : prog RRScheduler E () :=
  slice ← gets (λ s, time_slice s prev);
  if (0 <? slice) && preempt then on_queue (or_panic (push_front prev))
  else reset_time_slice prev;; on_queue (or_panic (push_back prev)).
Definition rr_task_tick {E} (current : task) : prog RRScheduler E bool :=
  old_slice ← gets (λ s, time_slice s current);
  modify (λ s, MkRR (ready_queue s) (<[current := as_isize (old_slice - 1)]> (time_slice s)));;
  mret (old_slice <=? 1).
#[export] Instance scheduler : BaseScheduler RRScheduler := {
  init := mret ();
  add_task t := on_queue (or_panic (push_back t));
  remove_task t := on_queue (pure_op (cursor_remove t));
  pick_next_task := on_queue (pure_op pop_front);
  put_prev_task := rr_put_prev_task;
  task_tick := rr_task_tick;
  set_priority _ _ := mret false }.
End rr.
End RR.

(** ** Completely fair (cfs.rs) *)

Module Cfs.
Record CFSTask := MkTask { init_vruntime : Z; delta : Z; nice : Z; id : Z }.
Definition new_task : CFSTask := MkTask 0 0 0 0.
Definition NICE2WEIGHT_POS : list Z :=
  [1024; 820; 655; 526; 423; 335; 272; 215; 172; 137; 110; 87; 70; 56; 45; 36; 29; 23; 18; 15].
Definition NICE2WEIGHT_NEG : list Z :=
  [1024; 1277; 1586; 1991; 2501; 3121; 3906; 4904; 6100; 7620; 9548; 11916; 14949; 18705; 23254;
   29154; 36291; 46273; 56483; 71755; 88761].
Definition get_weight {E} (t : CFSTask) : outcome E Z :=
  if 0 <=? nice t then expect (NICE2WEIGHT_POS !! Z.to_nat (nice t))
  else expect (NICE2WEIGHT_NEG !! Z.to_nat (- nice t)).
Definition get_vruntime {E} (t : CFSTask) : outcome E Z :=
  if nice t =? 0 then isize_checked (init_vruntime t + delta t)
  else
    d ← isize_checked (delta t * 1024);
    w ← get_weight t;
    isize_checked (init_vruntime t + Z.quot d w).
Definition set_vruntime (v : Z) (t : CFSTask) : CFSTask := MkTask v (delta t) (nice t) (id t).
Definition set_id (i : Z) (t : CFSTask) : CFSTask := MkTask (init_vruntime t) (delta t) (nice t) i.
Definition task_set_priority {E} (nice' : Z) (t : CFSTask) : outcome E CFSTask :=
  v ← get_vruntime t; Ok (MkTask v 0 nice' (id t)).
Definition tick (t : CFSTask) : CFSTask := MkTask (init_vruntime t) (as_isize (delta t + 1)) (nice t) (id t).

(** [BTreeMap<(isize, isize), _>]: the entries in the order of their keys *)
Abbreviation entry := ((Z * Z) * task)%type.
Definition key_lt (a b : Z * Z) : bool := (a.1 <? b.1) || ((a.1 =? b.1) && (a.2 <? b.2)).
Fixpoint q_insert (k : Z * Z) (t : task) (q : list entry) : list entry :=
  match q with
  | [] => [(k, t)]
  | (k', t') :: q' =>
      if key_lt k k' then (k, t) :: q
      else if bool_decide (k = k') then (k, t) :: q'
      else (k', t') :: q_insert k t q'
  end.
Fixpoint q_remove (k : Z * Z) (q : list entry) : option task * list entry :=
  match q with
  | [] => (None, [])
  | (k', t') :: q' =>
      if bool_decide (k = k') then (Some t', q')
      else let '(r, q'') := q_remove k q' in (r, (k', t') :: q'')
  end.

Record CFScheduler := MkCfs {
  ready_queue : list entry; min_vruntime : option Z; id_pool : Z; tasks : task → CFSTask }.
(** A scheduler, with every task as [CFSTask::new] makes it *)
Definition new : CFScheduler := MkCfs [] None 0 (λ _, new_task).
Definition set_queue (q : list entry) : CFScheduler → CFScheduler := λ s, MkCfs q (min_vruntime s) (id_pool s) (tasks s).
Definition set_min (m : option Z) : CFScheduler → CFScheduler := λ s, MkCfs (ready_queue s) m (id_pool s) (tasks s).
Definition on_task (t : task) (f : CFSTask → CFSTask) : CFScheduler → CFScheduler := λ s,
  MkCfs (ready_queue s) (min_vruntime s) (id_pool s) (<[t := f (tasks s t)]> (tasks s)).

Section cfs.
Context {E : Type}.
Definition next_id : prog CFScheduler E Z := λ s,
  (Ok (id_pool s), MkCfs (ready_queue s) (min_vruntime s) (as_isize (id_pool s + 1)) (tasks s)).
(** [min_vruntime] becomes that of the first entry *)
Definition refresh_min : prog CFScheduler E () := modify (λ s,
  set_min (match ready_queue s with (k, _) :: _ => Some k.1 | [] => None end) s).
Definition cfs_add_task (t : task) : prog CFScheduler E () :=
  modify (λ s, match min_vruntime s with None => set_min (Some 0) s | Some _ => s end);;
  vruntime ← inspect (λ s, expect (min_vruntime s));
  taskid ← next_id;
  modify (on_task t (set_vruntime vruntime));;
  modify (on_task t (set_id taskid));;
  modify (λ s, set_queue (q_insert (vruntime, taskid) t (ready_queue s)) s);;
  refresh_min.
Definition cfs_remove_task (t : task) : prog CFScheduler E (option task) :=
  v ← inspect (λ s, get_vruntime (tasks s t));
  r ← gets (λ s, q_remove (v, id (tasks s t)) (ready_queue s));
  match r with
  | (Some tmp, q) => modify (set_queue q);; refresh_min;; mret (Some tmp)
  | (None, _) => mret None
  end.
Definition cfs_pick_next_task : prog CFScheduler E (option task) :=
  q ← gets ready_queue;
  match q with
  | (_, v) :: q' => modify (set_queue q');; mret (Some v)
  | [] => mret None
  end.
Definition cfs_put_prev_task (prev : task) : prog CFScheduler E () :=
  taskid ← next_id;
  modify (on_task prev (set_id taskid));;
  v ← inspect (λ s, get_vruntime (tasks s prev));
  modify (λ s, set_queue (q_insert (v, taskid) prev (ready_queue s)) s).
Definition cfs_task_tick (current : task) : prog CFScheduler E bool :=
  modify (on_task current tick);;
  q ← gets ready_queue;
  match q with
  | [] => mret false
  | _ =>
      m ← gets min_vruntime;
      match m with
      | None => mret true
      | Some m => v ← inspect (λ s, get_vruntime (tasks s current)); mret (m <? v)
      end
  end.
Definition cfs_set_priority (t : task) (prio : Z) : prog CFScheduler E bool :=
  if (-20 <=? prio) && (prio <=? 19) then
    t' ← inspect (λ s, task_set_priority prio (tasks s t));
    modify (on_task t (λ _, t'));; mret true
  else mret false.
End cfs.
#[export] Instance scheduler : BaseScheduler CFScheduler := {
  init := mret ();
  add_task := cfs_add_task;
  remove_task := cfs_remove_task;
  pick_next_task := cfs_pick_next_task;
  put_prev_task prev _ := cfs_put_prev_task prev;
  task_tick := cfs_task_tick;
  set_priority := cfs_set_priority }.
End Cfs.
