(* ===== verification/SchedSpec.v ===== *)
(** * What a scheduler promises

    The contract of [BaseScheduler] as an abstract set of runnable tasks, and
    the proof that the three schedulers keep it: no task is lost, invented or
    handed out twice. *)
From stdpp Require Import prelude list gmap functions sorting.
From S2P Require Import Prelude Sched.
Open Scope Z_scope.

(** ** The contract *)

Inductive call := Add (t : task) | Remove (t : task) | Pick | Put (t : task) (preempt : bool) | Tick (t : task) | SetPriority (t : task) (prio : Z).
Inductive answer := Done | Got (o : option task) | Flag (b : bool).
Definition run_call {S} `{BaseScheduler S} (c : call) : prog S Empty_set answer :=
  match c with
  | Add t => add_task t;; mret Done
  | Remove t => o ← remove_task t; mret (Got o)
  | Pick => o ← pick_next_task; mret (Got o)
  | Put t p => put_prev_task t p;; mret Done
  | Tick t => b ← task_tick t; mret (Flag b)
  | SetPriority t p => b ← set_priority t p; mret (Flag b)
  end.
(** What the answer to a call may be when [R] is runnable, and what is runnable then *)
Definition allowed (R : gset task) (c : call) (a : answer) (R' : gset task) : Prop :=
  match c, a with
  | Add t, Done | Put t _, Done => R' = {[t]} ∪ R
  | Remove t, Got o => o = Some t ∧ R' = R ∖ {[t]}
  | Pick, Got None => R = ∅ ∧ R' = ∅
  | Pick, Got (Some t) => t ∈ R ∧ R' = R ∖ {[t]}
  | Tick _, Flag _ | SetPriority _ _, Flag _ => R' = R
  | _, _ => False
  end.
(** A task enters once, is removed while it is there, and runs while it is not. *)
Definition permitted {S} (fresh : S → task → Prop) (R : gset task) (s : S) (c : call) : Prop :=
  match c with
  | Add t => (t ∉ R) ∧ fresh s t
  | Put t _ | Tick t => t ∉ R
  | Remove t => t ∈ R
  | Pick | SetPriority _ _ => True
  end.
(** More calls than a machine makes, so that no counter overflows *)
Definition max_calls : Z := 2 ^ 50.

Class ReadySet (S : Type) `{BaseScheduler S} := {
  fresh : S → task → Prop;
  holds : nat → gset task → S → Prop;
  call_ok : ∀ n R s c, holds n R s → Z.of_nat n < max_calls → permitted fresh R s c →
    ∃ a s' R', run_call c s = (Ok a, s') ∧ allowed R c a R' ∧ holds (Datatypes.S n) R' s' }.

Inductive reaches {S} `{BaseScheduler S} (fr : S → task → Prop) (s0 : S) : nat → gset task → S → Prop :=
| reaches_start : reaches fr s0 0 ∅ s0
| reaches_call n R s c a s' R' :
    reaches fr s0 n R s → permitted fr R s c → run_call c s = (Ok a, s') → allowed R c a R' →
    reaches fr s0 (Datatypes.S n) R' s'.
(** Every permitted call is answered, as the contract allows. *)
Definition keeps_contract {S} `{BaseScheduler S} (fr : S → task → Prop) (s0 : S) : Prop :=
  ∀ n R s c, reaches fr s0 n R s → Z.of_nat n < max_calls → permitted fr R s c →
  ∃ a s' R', run_call c s = (Ok a, s') ∧ allowed R c a R'.

Lemma allowed_functional R c a R1 R2 : allowed R c a R1 → allowed R c a R2 → R1 = R2.
Proof. destruct c, a as [|[]|]; cbn; naive_solver. Qed.
Lemma reaches_holds {S} `{ReadySet S} (s0 : S) n R s :
  holds 0 ∅ s0 → reaches fresh s0 n R s → Z.of_nat n <= max_calls → holds n R s.
Proof.
  intros Hz Hr. induction Hr as [|n R s c a s' R' Hr IH Hp Hrun Ha]; intros Hn; [done|].
  destruct (call_ok n R s c) as (a' & s'' & R'' & Hrun' & Ha' & Hh); [apply IH; lia|lia|done|].
  rewrite Hrun in Hrun'. injection Hrun' as <- <-. by rewrite (allowed_functional _ _ _ _ _ Ha Ha').
Qed.
Lemma ready_set_contract {S} `{ReadySet S} (s0 : S) : holds 0 ∅ s0 → keeps_contract fresh s0.
Proof.
  intros Hz n R s c Hr Hn Hp. destruct (call_ok n R s c) as (a & s' & R' & ? & ? & _); [eapply reaches_holds; eauto; lia|done|done|].
  by exists a, s', R'.
Qed.

(** ** Linked queues *)

Section linked.
Context {LL : LinkedList}.
Definition queued (R : gset task) (q : il) : Prop := NoDup (il_items q) ∧ ∀ t, t ∈ il_items q ↔ t ∈ R.
Lemma queued_new : queued ∅ il_new.
Proof. split; rewrite il_new_items; [constructor|set_solver]. Qed.
Lemma push_back_queued {E} R q t : queued R q → t ∉ R →
  ∃ q', or_panic (E := E) (push_back t) q = (Ok (), q') ∧ queued ({[t]} ∪ R) q'.
Proof.
  intros [Hn Hq] Ht. destruct (push_back_items t q) as (q' & Hp & Hi); [by rewrite Hq|]. exists q'. unfold or_panic. rewrite Hp. split; [done|].
  split; rewrite Hi; [|set_solver]. apply NoDup_app. split_and!; [done|set_solver|by apply NoDup_singleton].
Qed.
Lemma push_front_queued {E} R q t : queued R q → t ∉ R →
  ∃ q', or_panic (E := E) (push_front t) q = (Ok (), q') ∧ queued ({[t]} ∪ R) q'.
Proof.
  intros [Hn Hq] Ht. destruct (push_front_items t q) as (q' & Hp & Hi); [by rewrite Hq|]. exists q'. unfold or_panic. rewrite Hp. split; [done|].
  split; rewrite Hi; [|set_solver]. constructor; [by rewrite Hq|done].
Qed.
Lemma pop_queued R q : queued R q →
  ∃ o q', pop_front q = (o, q') ∧ match o with None => R = ∅ ∧ queued ∅ q' | Some t => t ∈ R ∧ queued (R ∖ {[t]}) q' end.
Proof.
  intros [Hn Hq]. destruct (pop_front_items q) as [Ho Hi]. destruct (pop_front q) as [o q']. cbn [fst snd] in *. exists o, q'. split; [done|].
  subst o. unfold queued. rewrite Hi. destruct (il_items q) as [|t l]; cbn [head tail].
  - split; [set_solver|]. split; [constructor|set_solver].
  - apply NoDup_cons in Hn as [Ht Hn]. split; [set_solver|]. split; [done|]. set_solver.
Qed.
Lemma remove_queued R q t : queued R q → t ∈ R →
  ∃ q', cursor_remove t q = (Some t, q') ∧ queued (R ∖ {[t]}) q'.
Proof.
  intros [Hn Hq] Ht. apply Hq in Ht. apply list_elem_of_split in Ht as (l1 & l2 & Hl). rewrite Hl in Hn.
  apply NoDup_app in Hn as (Hn1 & Hd & Hn2). apply NoDup_cons in Hn2 as [Ht2 Hn2].
  assert (t ∉ l1) as Ht1 by (intros Hin; apply (Hd t Hin); set_solver).
  destruct (cursor_remove_items t q l1 l2 Hl Ht1) as [Ho Hi]. destruct (cursor_remove t q) as [o q']. cbn [fst snd] in *. subst o.
  exists q'. split; [done|]. split; rewrite Hi; [apply NoDup_app; split_and!; [done|set_solver|done]|].
  intros x. rewrite elem_of_difference, <- Hq, Hl. set_solver.
Qed.

(** First in, first out *)
#[export] Instance fifo_ready : ReadySet Fifo.FifoScheduler (H := Fifo.scheduler).
Proof.
  refine {| fresh := λ _ _, True; holds := λ _ R s, queued R (Fifo.ready_queue s) |}.
  intros _ R [q] c Hq _ Hp. cbn in Hq.
  assert (∀ A (m : prog il Empty_set A) a q', m q = (Ok a, q') → Fifo.on_queue m (Fifo.MkFifo q) = (Ok a, Fifo.MkFifo q')) as Hon.
  { intros A m a q' Hm. unfold Fifo.on_queue, zoom. cbn. by rewrite Hm. }
  destruct c as [t|t| |t p|t|t p]; cbn in Hp; unfold run_call;
    cbn [add_task remove_task pick_next_task put_prev_task task_tick set_priority Fifo.scheduler]; unfold mbind, prog_bind.
  - destruct (push_back_queued (E := Empty_set) R q t) as (q' & Hrun & Hq'); [done|tauto|]. erewrite Hon by exact Hrun. by eexists Done, _, _.
  - destruct (remove_queued R q t) as (q' & Hrun & Hq'); [done|done|].
    erewrite Hon by (unfold pure_op; rewrite Hrun; reflexivity). by eexists (Got (Some t)), _, _.
  - destruct (pop_queued R q Hq) as (o & q' & Hrun & Ho). erewrite Hon by (unfold pure_op; rewrite Hrun; reflexivity).
    destruct o as [t|]; destruct Ho as [H1 H2]; eexists (Got _), _, _; (split; [reflexivity|]); (split; [split; [exact H1|reflexivity]|exact H2]).
  - destruct (push_back_queued (E := Empty_set) R q t) as (q' & Hrun & Hq'); [done|done|]. erewrite Hon by exact Hrun. by eexists Done, _, _.
  - by eexists (Flag _), _, _.
  - by eexists (Flag _), _, _.
Defined.

(** Round robin *)
Context (MAX_TIME_SLICE : Z).
#[export] Instance rr_ready : ReadySet RR.RRScheduler (H := RR.scheduler MAX_TIME_SLICE).
Proof.
  refine {| fresh := λ _ _, True; holds := λ _ R s, queued R (RR.ready_queue s) |}.
  intros _ R [q ts] c Hq _ Hp. cbn in Hq.
  assert (∀ A (m : prog il Empty_set A) a q' ts, m q = (Ok a, q') → RR.on_queue m (RR.MkRR q ts) = (Ok a, RR.MkRR q' ts)) as Hon.
  { intros A m a q' ts' Hm. unfold RR.on_queue, zoom. cbn. by rewrite Hm. }
  destruct c as [t|t| |t p|t|t p]; cbn in Hp; unfold run_call;
    cbn [add_task remove_task pick_next_task put_prev_task task_tick set_priority RR.scheduler]; unfold mbind, prog_bind.
  - destruct (push_back_queued (E := Empty_set) R q t) as (q' & Hrun & Hq'); [done|tauto|]. erewrite Hon by exact Hrun. by eexists Done, _, _.
  - destruct (remove_queued R q t) as (q' & Hrun & Hq'); [done|done|].
    erewrite Hon by (unfold pure_op; rewrite Hrun; reflexivity). by eexists (Got (Some t)), _, _.
  - destruct (pop_queued R q Hq) as (o & q' & Hrun & Ho). erewrite Hon by (unfold pure_op; rewrite Hrun; reflexivity).
    destruct o as [t|]; destruct Ho as [H1 H2]; eexists (Got _), _, _; (split; [reflexivity|]); (split; [split; [exact H1|reflexivity]|exact H2]).
  - unfold RR.rr_put_prev_task, RR.reset_time_slice, mbind, prog_bind, gets, modify. cbn [RR.time_slice RR.ready_queue].
    destruct (_ && p).
    + destruct (push_front_queued (E := Empty_set) R q t) as (q' & Hrun & Hq'); [done|done|]. erewrite Hon by exact Hrun. by eexists Done, _, _.
    + destruct (push_back_queued (E := Empty_set) R q t) as (q' & Hrun & Hq'); [done|done|]. erewrite Hon by exact Hrun. by eexists Done, _, _.
  - by eexists (Flag _), _, _.
  - by eexists (Flag _), _, _.
Defined.
End linked.
