(* ===== verification/SchedCfs.v ===== *)
(** * The completely fair scheduler (xmodules/xsched/src/cfs.rs)

    The queue is in the order of virtual runtimes, its keys agree with the
    tasks, and the scheduler keeps the contract of SchedSpec.v. *)
From stdpp Require Import prelude list gmap functions sorting.
From S2P Require Import Prelude Sched SchedSpec.
Import Cfs.
Open Scope Z_scope.

(** ** Virtual runtime *)

Definition weight_of (n : Z) : Z :=
  default 1024 (if 0 <=? n then NICE2WEIGHT_POS !! Z.to_nat n else NICE2WEIGHT_NEG !! Z.to_nat (- n)).
Definition nice_ok (n : Z) : Prop := -20 <= n <= 19.
Lemma weights n : nice_ok n →
  15 <= weight_of n <= 88761 ∧
  (if 0 <=? n then NICE2WEIGHT_POS !! Z.to_nat n else NICE2WEIGHT_NEG !! Z.to_nat (- n)) = Some (weight_of n).
Proof.
  intros Hn. assert (n ∈ seqZ (-20) 40) as Hin by (apply elem_of_seqZ; unfold nice_ok in Hn; lia). clear Hn. revert n Hin.
  apply Forall_forall. apply (bool_decide_unpack _). vm_compute. exact I.
Qed.
Definition share (d n : Z) : Z := d * 1024 / weight_of n.
Definition vr (t : CFSTask) : Z := init_vruntime t + share (delta t) (nice t).
Lemma share_zero n : share 0 n = 0.
Proof. done. Qed.
(** A tick adds at most 69 to the virtual runtime, and enough ticks add something. *)
Lemma share_tick d n : 0 <= d → nice_ok n → 0 <= share d n <= share (d + 1) n ∧ share (d + 1) n <= share d n + 69.
Proof.
  intros Hd [Hw _]%weights. unfold share. split; [split; [apply Z.div_pos; lia|apply Z.div_le_mono; lia]|].
  apply Z.lt_succ_r, Z.div_lt_upper_bound; [lia|]. pose proof (Z.div_mod (d * 1024) (weight_of n)). pose proof (Z.mod_pos_bound (d * 1024) (weight_of n)). nia.
Qed.
Lemma share_positive d n : 87 <= d → nice_ok n → 0 < share d n.
Proof. intros Hd [Hw _]%weights. unfold share. apply Z.div_str_pos. lia. Qed.
Lemma share_bound d n : 0 <= d → nice_ok n → share d n <= 69 * d.
Proof. intros Hd [Hw _]%weights. unfold share. apply Z.div_le_upper_bound; nia. Qed.

Record task_ok (n : Z) (t : CFSTask) : Prop := {
  tk_nice : nice_ok (nice t);
  tk_delta : 0 <= delta t <= n;
  tk_init : 0 <= init_vruntime t;
  tk_vr : vr t <= 69 * n }.
Lemma checked_isize {E} x : isize x → isize_checked (E := E) x = Ok x.
Proof. unfold isize, isize_checked. intros Hx. by rewrite (proj2 (andb_true_iff _ _)) by lia. Qed.
Lemma as_isize_id x : isize x → as_isize x = x.
Proof. unfold isize, as_isize. intros Hx. rewrite Z.mod_small; lia. Qed.
Lemma get_vruntime_ok {E} n t : task_ok n t → n <= max_calls → get_vruntime (E := E) t = Ok (vr t).
Proof.
  intros [Hn Hd Hi Hv] Hm. unfold max_calls in Hm. pose proof (share_tick (delta t) (nice t) (proj1 Hd) Hn) as Hs. unfold get_vruntime, vr in *.
  destruct (Z.eqb_spec (nice t) 0) as [E0|E0].
  - rewrite E0 in *. assert (share (delta t) 0 = delta t) as Hsh by (unfold share; change (weight_of 0) with 1024; apply Z.div_mul; lia).
    rewrite Hsh in *. apply checked_isize. unfold isize. lia.
  - rewrite checked_isize by (unfold isize; lia). cbn [mbind outcome_bind]. unfold get_weight.
    destruct (weights _ Hn) as [Hw Hlk]. assert ((if 0 <=? nice t then expect (NICE2WEIGHT_POS !! Z.to_nat (nice t))
      else expect (NICE2WEIGHT_NEG !! Z.to_nat (- nice t))) = Ok (E := E) (weight_of (nice t))) as ->.
    { destruct (0 <=? nice t); by rewrite Hlk. }
    cbn [mbind outcome_bind]. rewrite Z.quot_div_nonneg by lia. apply checked_isize. unfold isize, share in *. lia.
Qed.

(** ** The queue *)

Definition before (a b : entry) : Prop := key_lt a.1 b.1 = true.
Lemma key_lt_trans a b c : key_lt a b = true → key_lt b c = true → key_lt a c = true.
Proof. unfold key_lt. lia. Qed.
Lemma key_total a b : a ≠ b → key_lt a b = false → key_lt b a = true.
Proof. destruct a as [a1 a2], b as [b1 b2]. unfold key_lt. cbn. intros Hne H. assert (a1 ≠ b1 ∨ a2 ≠ b2) by (destruct (decide (a1 = b1)); [right; congruence|by left]). lia. Qed.
Lemma q_insert_split k t q :
  StronglySorted before q → (∀ e, e ∈ q → e.1 ≠ k) →
  ∃ q1 q2, q = q1 ++ q2 ∧ q_insert k t q = q1 ++ (k, t) :: q2 ∧ StronglySorted before (q1 ++ (k, t) :: q2).
Proof.
  induction q as [|[k' t'] q IH]; intros Hs Hk; [exists [], []; split_and!; [done|done|by repeat constructor]|].
  apply StronglySorted_inv in Hs as [Hs Hall]. cbn [q_insert]. destruct (key_lt k k') eqn:Hlt.
  - exists [], ((k', t') :: q). split_and!; [done|done|]. constructor; [by constructor|]. constructor; [done|].
    eapply Forall_impl; [exact Hall|]. intros e He. by eapply key_lt_trans.
  - assert (k' ≠ k) as Hne by (apply (Hk (k', t')); left). rewrite bool_decide_false by congruence.
    destruct IH as (q1 & q2 & -> & -> & Hs'); [done|intros e He; apply Hk; by right|].
    exists ((k', t') :: q1), q2. split_and!; [done|done|]. cbn. constructor; [done|].
    apply Forall_app in Hall as [Ha1 Ha2]. apply Forall_app. split; [done|]. constructor; [|done]. by apply key_total.
Qed.
Lemma q_remove_split k t q1 q2 : (∀ e, e ∈ q1 → e.1 ≠ k) → q_remove k (q1 ++ (k, t) :: q2) = (Some t, q1 ++ q2).
Proof.
  induction q1 as [|[k' t'] q1 IH]; intros Hq; cbn [app q_remove]; [by rewrite bool_decide_true|].
  assert (k' ≠ k) by (apply (Hq (k', t')); left). rewrite bool_decide_false by congruence. rewrite IH; [done|]. intros e He. apply Hq. by right.
Qed.

(** ** The invariant *)

Record cfs_ok (n : Z) (R : gset task) (s : CFScheduler) : Prop := {
  ck_sorted : StronglySorted before (ready_queue s);
  ck_keys : ∀ e, e ∈ ready_queue s → e.1 = (vr (tasks s e.2), id (tasks s e.2));
  ck_ready : ∀ t, (∃ k, (k, t) ∈ ready_queue s) ↔ t ∈ R;
  ck_ids : ∀ e, e ∈ ready_queue s → e.1.2 < id_pool s;
  ck_pool : 0 <= id_pool s <= n;
  ck_tasks : ∀ t, task_ok n (tasks s t);
  ck_min : ∀ m, min_vruntime s = Some m → 0 <= m <= 69 * n }.

Lemma vr_nonneg n t : task_ok n t → 0 <= vr t.
Proof. intros [Hn Hd Hi _]. pose proof (share_tick (delta t) (nice t) (proj1 Hd) Hn). unfold vr. lia. Qed.
Lemma task_ok_mono n t : task_ok n t → task_ok (n + 1) t.
Proof. intros []. split; try done; lia. Qed.
Lemma key_irrefl k : key_lt k k = false.
Proof. unfold key_lt. lia. Qed.
Lemma sorted_apart q1 e q2 : StronglySorted before (q1 ++ e :: q2) → ∀ e', e' ∈ q1 ++ q2 → e'.1 ≠ e.1.
Proof.
  intros Hs e' Hin Heq. apply elem_of_app in Hin as [Hin|Hin].
  - pose proof (StronglySorted_app_1_elem_of before q1 (e :: q2) e' e Hs Hin ltac:(left)) as Hb.
    unfold before in Hb. by rewrite Heq, key_irrefl in Hb.
  - apply StronglySorted_app_1_r in Hs. apply StronglySorted_inv in Hs as [_ Ha]. rewrite Forall_forall in Ha.
    specialize (Ha e' Hin). unfold before in Ha. by rewrite Heq, key_irrefl in Ha.
Qed.
Lemma sorted_without q1 (e : entry) q2 : StronglySorted before (q1 ++ e :: q2) → StronglySorted before (q1 ++ q2).
Proof.
  induction q1 as [|x q1 IH]; cbn; intros Hs; apply StronglySorted_inv in Hs as [Hs Ha]; [done|].
  constructor; [by apply IH|]. apply Forall_app in Ha as [Ha1 Ha2]. apply Forall_app. split; [done|]. by inversion Ha2.
Qed.

Lemma cfs_ok_mono n R s : cfs_ok n R s → cfs_ok (n + 1) R s.
Proof.
  intros []. split; try done; [lia|intros t; by apply task_ok_mono|]. intros m Hm. specialize (ck_min0 m Hm). lia.
Qed.

(** Queueing a task under its virtual runtime and a new number *)
Lemma insert_ok n R s t ts mn :
  cfs_ok n R s → t ∉ R → (∀ x, x ≠ t → ts x = tasks s x) → task_ok (n + 1) (ts t) → id (ts t) = id_pool s →
  (∀ m, mn = Some m → 0 <= m <= 69 * (n + 1)) →
  cfs_ok (n + 1) ({[t]} ∪ R) (MkCfs (q_insert (vr (ts t), id_pool s) t (ready_queue s)) mn (id_pool s + 1) ts).
Proof.
  intros [Hs Hk Hr Hi Hp Ht Hm] Hnt Hts Htk Hid Hmn. set (k := (vr (ts t), id_pool s)).
  destruct (q_insert_split k t (ready_queue s)) as (q1 & q2 & Hq & -> & Hs').
  { done. } { intros e He Heq. specialize (Hi e He). rewrite Heq in Hi. cbn in Hi. lia. }
  assert (∀ e, e ∈ q1 ++ (k, t) :: q2 → e = (k, t) ∨ e ∈ ready_queue s ∧ e.2 ≠ t) as Hin.
  { intros e He. assert (e = (k, t) ∨ e ∈ ready_queue s) as [->|He'] by (rewrite Hq; set_solver); [by left|].
    right. split; [done|]. intros <-. apply Hnt, Hr. exists e.1. by destruct e. }
  split; cbn [ready_queue min_vruntime id_pool tasks]; try done; try lia.
  - intros e [->|[He Hne]]%Hin; cbn [fst snd]; [by rewrite Hid|]. rewrite Hts by done. by apply Hk.
  - intros x. rewrite elem_of_union, elem_of_singleton, <- Hr, Hq. split.
    + intros [k' Hx]. apply elem_of_app in Hx as [Hx|Hx%elem_of_cons]; [right; exists k'; set_solver|].
      destruct Hx as [[= _ ->]|Hx]; [by left|right; exists k'; set_solver].
    + intros [->|[k' Hx]]; [exists k; set_solver|]. exists k'. set_solver.
  - intros e [->|[He _]]%Hin; cbn; [lia|]. specialize (Hi e He). lia.
  - intros x. destruct (decide (x = t)) as [->|]; [done|]. rewrite Hts by done. by apply task_ok_mono.
Qed.
(** Taking an entry out *)
Lemma delete_ok n R s q1 k t q2 mn :
  cfs_ok n R s → ready_queue s = q1 ++ (k, t) :: q2 → (∀ m, mn = Some m → 0 <= m <= 69 * (n + 1)) →
  cfs_ok (n + 1) (R ∖ {[t]}) (MkCfs (q1 ++ q2) mn (id_pool s) (tasks s)).
Proof.
  intros [Hs Hk Hr Hi Hp Ht Hm] Hq Hmn. rewrite Hq in *. pose proof (sorted_apart _ _ _ Hs) as Hap.
  split; cbn [ready_queue min_vruntime id_pool tasks]; try done; try lia.
  - by eapply sorted_without.
  - intros e He. apply Hk. set_solver.
  - intros x. rewrite elem_of_difference, elem_of_singleton, <- Hr. split.
    + intros [k' Hx]. split; [exists k'; set_solver|]. intros ->. apply (Hap _ Hx).
      rewrite (Hk (k', t)) by set_solver. by rewrite (Hk (k, t)) by set_solver.
    + intros [[k' Hx] Hne]. exists k'. set_solver.
  - intros e He. apply Hi. set_solver.
  - intros x. by apply task_ok_mono.
Qed.
Lemma first_min n R s : cfs_ok n R s → ∀ m, match ready_queue s with (k, _) :: _ => Some k.1 | [] => None end = Some m → 0 <= m <= 69 * n.
Proof.
  intros [_ Hk _ _ _ Ht _] m. destruct (ready_queue s) as [|[k t] q]; [done|]. intros [= <-].
  change k with (k, t).1. rewrite (Hk (k, t)) by left. cbn [fst snd]. split; [by eapply vr_nonneg|apply Ht].
Qed.
Lemma set_min_ok n R s mn : cfs_ok n R s → (∀ m, mn = Some m → 0 <= m <= 69 * n) → cfs_ok n R (set_min mn s).
Proof. intros []. by split. Qed.

(** ** The operations *)

(** A task may change as long as its virtual runtime and number do not, or it is not queued. *)
Lemma on_task_ok n R s t f :
  cfs_ok n R s → task_ok (n + 1) (f (tasks s t)) →
  (t ∉ R ∨ vr (f (tasks s t)) = vr (tasks s t) ∧ id (f (tasks s t)) = id (tasks s t)) → cfs_ok (n + 1) R (on_task t f s).
Proof.
  intros [Hs Hk Hr Hi Hp Ht Hm] Hf Hkey. split; cbn [on_task ready_queue min_vruntime id_pool tasks]; try done; try lia.
  - intros [k x] He. cbn [fst snd]. destruct (decide (t = x)) as [<-|Hne]; [|rewrite fn_lookup_insert_ne by done; by apply (Hk (k, x))].
    rewrite fn_lookup_insert. destruct Hkey as [Hn|[-> ->]]; [|by apply (Hk (k, t))]. exfalso. apply Hn, Hr. by exists k.
  - intros x. destruct (decide (t = x)) as [<-|]; [by rewrite fn_lookup_insert|]. rewrite fn_lookup_insert_ne by done. by apply task_ok_mono.
  - intros m Hmin. specialize (Hm m Hmin). lia.
Qed.
Lemma cfs_add_ok {E} n R s t :
  cfs_ok n R s → n < max_calls → t ∉ R → delta (tasks s t) = 0 →
  ∃ s', cfs_add_task (E := E) t s = (Ok (), s') ∧ cfs_ok (n + 1) ({[t]} ∪ R) s' ∧
    min_vruntime s' = match ready_queue s' with (k, _) :: _ => Some k.1 | [] => None end ∧
    ∀ x, tasks s' x = if decide (x = t) then MkTask (default 0 (min_vruntime s)) 0 (nice (tasks s t)) (id_pool s) else tasks s x.
Proof.
  intros Hok Hn Ht Hd. pose proof (ck_tasks _ _ _ Hok t) as [Hni Hde _ _]. pose proof (ck_pool _ _ _ Hok) as Hp. unfold max_calls in Hn.
  set (m := default 0 (min_vruntime s)).
  assert (0 <= m <= 69 * n) as Hm.
  { unfold m. pose proof (ck_min _ _ _ Hok) as Hm. destruct (min_vruntime s); cbn; [by apply Hm|lia]. }
  set (ts := <[t := set_id (id_pool s) (<[t := set_vruntime m (tasks s t)]> (tasks s) t)]> (<[t := set_vruntime m (tasks s t)]> (tasks s))).
  assert (ts t = MkTask m 0 (nice (tasks s t)) (id_pool s)) as Hts.
  { unfold ts. rewrite !fn_lookup_insert. unfold set_id, set_vruntime. cbn. by rewrite Hd. }
  assert (vr (ts t) = m) as Hv by (rewrite Hts; unfold vr; cbn [init_vruntime delta nice]; rewrite share_zero; lia).
  assert (cfs_ok (n + 1) ({[t]} ∪ R) (MkCfs (q_insert (vr (ts t), id_pool s) t (ready_queue s)) (Some m) (id_pool s + 1) ts)) as H1.
  { apply insert_ok; [done|done|..].
    - intros x Hx. unfold ts. by rewrite !fn_lookup_insert_ne.
    - split; [by rewrite Hts|rewrite Hts; cbn; lia|rewrite Hts; cbn; lia|lia].
    - by rewrite Hts.
    - intros ? [= <-]. lia. }
  rewrite Hv in H1. eexists. split; [|split; [exact (set_min_ok _ _ _ _ H1 (first_min _ _ _ H1))|split; [done|]]].
  2:{ intros x. cbn. case_decide as Hx; [by subst|]. unfold ts. by rewrite !fn_lookup_insert_ne. }
  unfold cfs_add_task, mbind, prog_bind, modify, inspect, next_id, refresh_min.
  assert (min_vruntime s = Some m ∨ min_vruntime s = None ∧ m = 0) as [E0|[E0 Em]].
  { unfold m. destruct (min_vruntime s); auto. }
  - rewrite E0. cbn. rewrite E0. cbn. rewrite as_isize_id by (unfold isize; lia). reflexivity.
  - rewrite E0. cbn. rewrite as_isize_id by (unfold isize; lia). unfold ts. rewrite Em. reflexivity.
Qed.
Lemma cfs_put_ok {E} n R s t :
  cfs_ok n R s → n < max_calls → t ∉ R →
  ∃ s', cfs_put_prev_task (E := E) t s = (Ok (), s') ∧ cfs_ok (n + 1) ({[t]} ∪ R) s' ∧
    ready_queue s' = q_insert (vr (tasks s t), id_pool s) t (ready_queue s) ∧ min_vruntime s' = min_vruntime s ∧
    ∀ x, tasks s' x = if decide (x = t) then set_id (id_pool s) (tasks s t) else tasks s x.
Proof.
  intros Hok Hn Ht. pose proof (task_ok_mono _ _ (ck_tasks _ _ _ Hok t)) as Htk. pose proof (ck_pool _ _ _ Hok) as Hp.
  unfold max_calls in Hn. set (ts := <[t := set_id (id_pool s) (tasks s t)]> (tasks s)).
  assert (ts t = set_id (id_pool s) (tasks s t)) as Hts by apply fn_lookup_insert.
  assert (task_ok (n + 1) (ts t)) as Htk' by (rewrite Hts; by destruct Htk).
  assert (vr (ts t) = vr (tasks s t)) as Hv by by rewrite Hts.
  eexists. split; [|split; [apply (insert_ok n R s t ts (min_vruntime s)); try done|split_and!]].
  - unfold cfs_put_prev_task, mbind, prog_bind, modify, inspect, next_id, on_task. cbn [ready_queue min_vruntime id_pool tasks]. fold ts.
    rewrite (get_vruntime_ok (n + 1)) by (done || unfold max_calls; lia). cbn. rewrite as_isize_id by (unfold isize; lia). reflexivity.
  - intros x Hx. by apply fn_lookup_insert_ne.
  - by rewrite Hts.
  - intros m Hmin. pose proof (ck_min _ _ _ Hok m Hmin). lia.
  - cbn. by rewrite Hv.
  - done.
  - intros x. cbn. case_decide as Hx; [by subst|]. by apply fn_lookup_insert_ne.
Qed.
Lemma cfs_remove_ok {E} n R s t :
  cfs_ok n R s → n < max_calls → t ∈ R →
  ∃ s', cfs_remove_task (E := E) t s = (Ok (Some t), s') ∧ cfs_ok (n + 1) (R ∖ {[t]}) s'.
Proof.
  intros Hok Hn Ht. pose proof (ck_tasks _ _ _ Hok t) as Htk. apply (ck_ready _ _ _ Hok) in Ht as [k Hin].
  pose proof (ck_keys _ _ _ Hok _ Hin) as Hk. cbn [fst snd] in Hk. apply list_elem_of_split in Hin as (q1 & q2 & Hq).
  pose proof (ck_sorted _ _ _ Hok) as Hs. rewrite Hq in Hs. pose proof (sorted_apart _ _ _ Hs) as Hap.
  assert (cfs_ok (n + 1) (R ∖ {[t]}) (MkCfs (q1 ++ q2) (min_vruntime s) (id_pool s) (tasks s))) as H1.
  { eapply delete_ok; [done|done|]. intros m Hm. pose proof (ck_min _ _ _ Hok m Hm). lia. }
  eexists. split; [|exact (set_min_ok _ _ _ _ H1 (first_min _ _ _ H1))].
  unfold cfs_remove_task, mbind, prog_bind, inspect, gets. rewrite (get_vruntime_ok n) by (done || lia).
  rewrite Hq, <- Hk, q_remove_split; [reflexivity|]. intros e He. apply Hap. set_solver.
Qed.
Lemma tick_ok n tk : task_ok n tk → n < max_calls → tick tk = MkTask (init_vruntime tk) (delta tk + 1) (nice tk) (id tk) ∧ task_ok (n + 1) (tick tk).
Proof.
  intros [Hn Hd Hi Hv] Hm. unfold max_calls in Hm. unfold tick. rewrite as_isize_id by (unfold isize; lia). split; [done|].
  pose proof (share_tick (delta tk) (nice tk) (proj1 Hd) Hn) as Hs. unfold vr in Hv. split; unfold vr; cbn; try done; lia.
Qed.
(** Whether the running task has to leave *)
Definition leaves (s : CFScheduler) (v : Z) : bool :=
  match ready_queue s, min_vruntime s with [], _ => false | _, None => true | _, Some m => m <? v end.
Lemma cfs_tick_ok {E} n R s t :
  cfs_ok n R s → n < max_calls → t ∉ R →
  cfs_task_tick (E := E) t s = (Ok (leaves s (vr (tick (tasks s t)))), on_task t tick s) ∧ cfs_ok (n + 1) R (on_task t tick s).
Proof.
  intros Hok Hn Ht. destruct (tick_ok n (tasks s t)) as [_ Htk]; [by apply (ck_tasks _ _ _ Hok)|done|].
  split; [|apply on_task_ok; auto]. unfold cfs_task_tick, leaves, mbind, prog_bind, modify, gets, inspect.
  cbn [on_task ready_queue min_vruntime tasks]. destruct (ready_queue s); [done|].
  cbn [on_task ready_queue min_vruntime tasks]. destruct (min_vruntime s); [|done]. cbn [on_task ready_queue min_vruntime tasks]. rewrite fn_lookup_insert. by rewrite (get_vruntime_ok (n + 1)) by (done || lia).
Qed.
Lemma cfs_pick_ok {E} n R s : cfs_ok n R s →
  match ready_queue s with
  | [] => cfs_pick_next_task (E := E) s = (Ok None, s) ∧ R = ∅
  | (_, t) :: q => cfs_pick_next_task (E := E) s = (Ok (Some t), set_queue q s) ∧ t ∈ R ∧ cfs_ok (n + 1) (R ∖ {[t]}) (set_queue q s)
  end.
Proof.
  intros Hok. unfold cfs_pick_next_task, mbind, prog_bind, gets, modify. pose proof (ck_ready _ _ _ Hok) as Hr.
  destruct (ready_queue s) as [|[k t] q] eqn:Hq; (split; [done|]).
  - apply leibniz_equiv, elem_of_equiv_empty. intros t [k Hin]%Hr. by apply not_elem_of_nil in Hin.
  - split; [apply Hr; exists k; left|]. apply (delete_ok n R s [] k t q); [done|done|]. intros m Hm. pose proof (ck_min _ _ _ Hok m Hm). lia.
Qed.
Lemma cfs_set_priority_ok {E} n R s t p : cfs_ok n R s → n < max_calls →
  ∃ s', cfs_set_priority (E := E) t p s = (Ok ((-20 <=? p) && (p <=? 19)), s') ∧ cfs_ok (n + 1) R s' ∧
    s' = if (-20 <=? p) && (p <=? 19) then on_task t (λ _, MkTask (vr (tasks s t)) 0 p (id (tasks s t))) s else s.
Proof.
  intros Hok Hn. pose proof (ck_tasks _ _ _ Hok t) as Htk. unfold cfs_set_priority. destruct (_ && _) eqn:Hp.
  - eexists. split; [|split; [|reflexivity]].
    + unfold mbind, prog_bind, inspect, task_set_priority. rewrite (get_vruntime_ok n) by (done || lia). reflexivity.
    + pose proof (vr_nonneg _ _ Htk). apply on_task_ok; [done| |right; split; [|done]];
        unfold vr; cbn [init_vruntime delta nice id]; rewrite ?share_zero; [|unfold vr; lia].
      destruct Htk as [? ? ? Hv]. unfold vr in *. split; cbn; try (unfold nice_ok; lia).
      unfold vr. cbn [init_vruntime delta nice]. rewrite share_zero. lia.
  - exists s. split; [done|]. split; [by apply cfs_ok_mono|done].
Qed.

#[export] Instance cfs_ready : ReadySet CFScheduler.
Proof.
  refine {| fresh := λ s t, delta (tasks s t) = 0; holds := λ n R s, cfs_ok (Z.of_nat n) R s |}.
  intros n R s c Hok Hn Hp. replace (Z.of_nat (S n)) with (Z.of_nat n + 1) by lia.
  destruct c as [t|t| |t p|t|t p]; cbn in Hp; unfold run_call;
    cbn [add_task remove_task pick_next_task put_prev_task task_tick set_priority scheduler]; unfold mbind, prog_bind.
  - destruct (cfs_add_ok (E := Empty_set) (Z.of_nat n) R s t) as (s' & -> & ? & _); [tauto..|]. by exists Done, s', ({[t]} ∪ R).
  - destruct (cfs_remove_ok (E := Empty_set) (Z.of_nat n) R s t) as (s' & -> & ?); [done..|]. by exists (Got (Some t)), s', (R ∖ {[t]}).
  - pose proof (cfs_pick_ok (E := Empty_set) _ _ _ Hok) as Hpick. destruct (ready_queue s) as [|[k t] q].
    + destruct Hpick as [-> ->]. exists (Got None), s, ∅. split_and!; try done. by apply cfs_ok_mono.
    + destruct Hpick as (-> & ? & ?). by eexists (Got (Some t)), _, _.
  - destruct (cfs_put_ok (E := Empty_set) (Z.of_nat n) R s t) as (s' & -> & ? & _); [done..|]. by exists Done, s', ({[t]} ∪ R).
  - destruct (cfs_tick_ok (E := Empty_set) (Z.of_nat n) R s t) as [-> ?]; [done..|]. by eexists (Flag _), _, R.
  - destruct (cfs_set_priority_ok (E := Empty_set) (Z.of_nat n) R s t p) as (s' & -> & ? & _); [done..|]. by eexists (Flag _), s', R.
Defined.
Lemma cfs_new_ok : cfs_ok 0 ∅ new.
Proof. split; cbn; try done; [constructor|set_solver|intros t; split; [by intros [? ?%not_elem_of_nil]|set_solver]|set_solver]. Qed.

(** C7: each of the three schedulers keeps the contract of a set of runnable
    tasks: starting empty, any permitted sequence of calls is answered without
    panicking; a task that is added or put back is runnable until it is picked
    or removed, picking hands out a runnable task and says [None] only when
    there is none, and removing a runnable task finds it. For the fair
    scheduler this is for tasks that have not run when they are added. *)
Theorem schedulers_keep_contract {LL : LinkedList} (MAX_TIME_SLICE : Z) :
  keeps_contract (H := Fifo.scheduler) (λ _ _, True) Fifo.new ∧
  keeps_contract (H := RR.scheduler MAX_TIME_SLICE) (λ _ _, True) (RR.new MAX_TIME_SLICE) ∧
  keeps_contract (λ s t, delta (tasks s t) = 0) Cfs.new.
Proof.
  split_and!.
  - apply (ready_set_contract (H0 := fifo_ready)), queued_new.
  - apply (ready_set_contract (H0 := rr_ready MAX_TIME_SLICE)), queued_new.
  - apply (ready_set_contract (H0 := cfs_ready)), cfs_new_ok.
Qed.
