(* ===== verification/SchedFair.v ===== *)
(** * Fairness of the completely fair scheduler

    Turns of the processor: a task is picked, ticks come until the scheduler
    asks for it to leave, and it is put back. Tasks that started together are
    never far apart in virtual runtime. *)
From stdpp Require Import prelude list gmap functions sorting.
From S2P Require Import Prelude Sched SchedSpec SchedCfs.
Import Cfs.
Open Scope Z_scope.

(** ** Turns *)

Section turns.
Context {S : Type} `{BaseScheduler S}.
Abbreviation run A := (prog S Empty_set A).
Fixpoint start (l : list (task * Z)) : run () :=
  match l with
  | [] => mret ()
  | (t, prio) :: l => set_priority t prio;; add_task t;; start l
  end.
(** Ticks, until the task has to leave; it has at most [fuel] of them. *)
Fixpoint slice (fuel : nat) (t : task) : run () :=
  match fuel with
  | O => panic
  | Datatypes.S fuel => leave ← task_tick t; if (leave : bool) then mret () else slice fuel t
  end.
Definition turn (fuel : nat) : run task :=
  o ← pick_next_task;
  t ← inspect (λ _, expect o);
  slice fuel t;;
  put_prev_task t false;;
  mret t.
Fixpoint turns (fuel k : nat) : run (list task) :=
  match k with
  | O => mret []
  | Datatypes.S k => t ← turn fuel; ts ← turns fuel k; mret (t :: ts)
  end.
End turns.

Lemma turns_length {S} `{BaseScheduler S} fuel k (s s' : S) l : turns fuel k s = (Ok l, s') → length l = k.
Proof.
  revert s s' l. induction k as [|k IH]; intros s s' l; cbn [turns]; [by intros [= <- _]|]. unfold mbind, prog_bind.
  destruct (turn fuel s) as [[t|?|] s1]; try done. destruct (turns fuel k s1) as [[ts|?|] s2] eqn:E; try done. intros [= <- _]. cbn. f_equal. by eapply IH.
Qed.

(** ** One slice *)

Lemma cfs_ok_le n m R s : cfs_ok n R s → n <= m → cfs_ok m R s.
Proof.
  intros Hok Hle. replace m with (n + Z.of_nat (Z.to_nat (m - n))) by lia. generalize (Z.to_nat (m - n)). intros k.
  induction k as [|k IH]; [by rewrite Z.add_0_r|]. replace (n + Z.of_nat (S k)) with (n + Z.of_nat k + 1) by lia. by apply cfs_ok_mono.
Qed.
Lemma gone (R : gset task) t : t ∉ R ∖ {[t]}.
Proof. set_solver. Qed.
Lemma back (R : gset task) t : t ∈ R → {[t]} ∪ R ∖ {[t]} = R.
Proof. intros Ht. apply leibniz_equiv. intros x. destruct (decide (x = t)); set_solver. Qed.
(** The task has received [d] more ticks *)
Definition ticked (d : Z) (t : CFSTask) : CFSTask := MkTask (init_vruntime t) (delta t + d) (nice t) (id t).
Lemma slice_step n R s t :
  cfs_ok n R s → n < max_calls → t ∉ R → ready_queue s ≠ [] → min_vruntime s = Some 0 → init_vruntime (tasks s t) = 0 →
  ∃ b s', task_tick t s = (Ok b, s') ∧ cfs_ok (n + 1) R s' ∧ ready_queue s' = ready_queue s ∧ min_vruntime s' = Some 0 ∧
    tasks s' t = ticked 1 (tasks s t) ∧ (∀ x, x ≠ t → tasks s' x = tasks s x) ∧
    vr (tasks s' t) <= vr (tasks s t) + 69 ∧ (b = false → vr (tasks s' t) = vr (tasks s t) ∧ delta (tasks s' t) < 87).
Proof.
  intros Hok Hn Ht Hq Hm Hi. destruct (cfs_tick_ok (E := Empty_set) n R s t Hok Hn Ht) as [Hrun Hok'].
  destruct (tick_ok n (tasks s t)) as [Htick _]; [apply (ck_tasks _ _ _ Hok)|done|].
  pose proof (ck_tasks _ _ _ Hok t) as [Hni Hde _ _]. pose proof (share_tick (delta (tasks s t)) _ (proj1 Hde) Hni) as Hsh.
  assert (tasks (on_task t tick s) t = ticked 1 (tasks s t)) as Htk by (cbn; rewrite fn_lookup_insert; exact Htick).
  assert (vr (tick (tasks s t)) = share (delta (tasks s t) + 1) (nice (tasks s t))) as Hv by (rewrite Htick; unfold vr; cbn; lia).
  assert (vr (tasks s t) = share (delta (tasks s t)) (nice (tasks s t))) as Hv0 by (unfold vr; lia).
  eexists _, _. split; [exact Hrun|]. split_and!; try done.
  - intros x Hx. cbn. by apply fn_lookup_insert_ne.
  - rewrite Htk. change (ticked 1 (tasks s t)) with (MkTask (init_vruntime (tasks s t)) (delta (tasks s t) + 1) (nice (tasks s t)) (id (tasks s t))).
    rewrite <- Htick. lia.
  - unfold leaves. destruct (ready_queue s); [done|]. rewrite Hm, Htk. unfold ticked. rewrite <- Htick. intros Hb.
    assert (vr (tick (tasks s t)) <= 0) as Hle by lia. split; [lia|].
    destruct (Z.lt_ge_cases (delta (tick (tasks s t))) 87) as [|Hge]; [done|]. exfalso.
    rewrite Htick in Hge. cbn in Hge. pose proof (share_positive _ _ Hge Hni). lia.
Qed.
Lemma slice_ok fuel n R s t :
  cfs_ok n R s → n + Z.of_nat (S fuel) <= max_calls → t ∉ R → ready_queue s ≠ [] → min_vruntime s = Some 0 →
  init_vruntime (tasks s t) = 0 → 87 <= delta (tasks s t) + Z.of_nat (S fuel) →
  ∃ d s', slice (S fuel) t s = (Ok (), s') ∧ 1 <= d ∧ cfs_ok (n + Z.of_nat (S fuel)) R s' ∧
    ready_queue s' = ready_queue s ∧ min_vruntime s' = Some 0 ∧
    tasks s' t = ticked d (tasks s t) ∧ (∀ x, x ≠ t → tasks s' x = tasks s x) ∧ vr (tasks s' t) <= vr (tasks s t) + 69.
Proof.
  revert n s. induction fuel as [|fuel IH]; intros n s Hok Hn Ht Hq Hm Hi Hd;
    (destruct (slice_step n R s t) as (b & s' & Hrun & Hok' & Hq' & Hm' & Ht' & Hx & Hv & Hb); [done|lia|done|done|done|done|]).
  - cbn [slice]. unfold mbind, prog_bind at 1. rewrite Hrun. destruct b; [exists 1, s'; by split_and!|].
    destruct (Hb eq_refl) as [_ Hlt]. rewrite Ht' in Hlt. cbn [delta ticked] in Hlt. lia.
  - cbn [slice]. unfold mbind, prog_bind at 1. rewrite Hrun. destruct b.
    { exists 1, s'. split_and!; try done. eapply cfs_ok_le; [done|lia]. }
    specialize (Hb eq_refl). destruct (IH (n + 1) s') as (d & s'' & Hrun' & Hd1 & Hok'' & Hq'' & Hm'' & Ht'' & Hx' & Hv').
    { done. } { lia. } { done. } { by rewrite Hq'. } { done. } { by rewrite Ht'. } { rewrite Ht'. cbn [delta ticked]. lia. }
    exists (1 + d), s''. split_and!; [exact Hrun'|lia|eapply cfs_ok_le; [done|lia]|by rewrite Hq''|done| | |].
    + rewrite Ht'', Ht'. unfold ticked. cbn. f_equal. lia.
    + intros x Hne. rewrite Hx' by done. by apply Hx.
    + lia.
Qed.

(** ** Turns of tasks that started together *)

Definition total_ticks (s : CFScheduler) (ts : list task) : Z := foldr (λ t a, delta (tasks s t) + a) 0 ts.
Lemma total_ticks_at s s' ts t d : NoDup ts → t ∈ ts → delta (tasks s' t) = delta (tasks s t) + d →
  (∀ x, x ≠ t → tasks s' x = tasks s x) → total_ticks s' ts = total_ticks s ts + d.
Proof.
  intros Hnd Ht Htk Hx. assert (∀ l, t ∉ l → total_ticks s' l = total_ticks s l) as Hsame.
  { induction l as [|y l IH]; [done|]. intros [Hy Hl]%not_elem_of_cons. cbn. rewrite Hx by congruence. f_equal. by apply IH. }
  induction Hnd as [|y l Hy Hnd IH]; [by apply not_elem_of_nil in Ht|]. cbn. apply elem_of_cons in Ht as [<-|Hl].
  - rewrite Htk. fold (total_ticks s' l) (total_ticks s l). rewrite Hsame by done. cbn. lia.
  - rewrite Hx by (intros ->; done). fold (total_ticks s' l) (total_ticks s l). rewrite IH by done. lia.
Qed.

Section fair.
Context (ts : list task) (prio : task → Z).
(** Nobody is more than a tick of the lightest task ahead; [k] ticks were counted at least. *)
Record fair (n k : Z) (s : CFScheduler) : Prop := {
  fr_ok : cfs_ok n (list_to_set ts) s;
  fr_min : min_vruntime s = Some 0;
  fr_task : ∀ t, t ∈ ts → init_vruntime (tasks s t) = 0 ∧ nice (tasks s t) = prio t;
  fr_spread : ∀ t u, t ∈ ts → u ∈ ts → vr (tasks s t) <= vr (tasks s u) + 69;
  fr_ticks : k <= total_ticks s ts }.

(** The first task of the queue is the one with the least virtual runtime *)
Lemma first_least n R s k t q : cfs_ok n R s → ready_queue s = (k, t) :: q → ∀ u, u ∈ R → vr (tasks s t) <= vr (tasks s u).
Proof.
  intros Hok Hq u Hu. apply (ck_ready _ _ _ Hok) in Hu as [k' Hu]. pose proof (ck_sorted _ _ _ Hok) as Hs. pose proof (ck_keys _ _ _ Hok) as Hk.
  rewrite Hq in *. apply elem_of_cons in Hu as [[= -> ->]|Hu]; [done|]. apply StronglySorted_inv in Hs as [_ Ha]. rewrite Forall_forall in Ha.
  specialize (Ha _ Hu). unfold before, key_lt in Ha. rewrite (Hk (k, t)), (Hk (k', u)) in Ha by set_solver. cbn in Ha. lia.
Qed.
Context (Hnd : NoDup ts) (Htwo : (2 <= length ts)%nat).
Lemma another t : ∃ u, u ∈ ts ∧ u ≠ t.
Proof.
  destruct ts as [|a [|b l]]; cbn in Htwo; [lia|lia|]. apply NoDup_cons in Hnd as [Ha _]. destruct (decide (a = t)) as [->|]; [|exists a; set_solver].
  exists b. split; [set_solver|]. intros ->. apply Ha. left.
Qed.
Lemma turn_run n s :
  cfs_ok n (list_to_set ts) s → n + 90 <= max_calls → min_vruntime s = Some 0 → (∀ t, t ∈ ts → init_vruntime (tasks s t) = 0) →
  ∃ t d s' i, turn 87 s = (Ok t, s') ∧ t ∈ ts ∧ (∀ u, u ∈ ts → vr (tasks s t) <= vr (tasks s u)) ∧ 1 <= d ∧
    cfs_ok (n + 90) (list_to_set ts) s' ∧ min_vruntime s' = Some 0 ∧
    tasks s' t = set_id i (ticked d (tasks s t)) ∧ vr (tasks s' t) <= vr (tasks s t) + 69 ∧ ∀ x, x ≠ t → tasks s' x = tasks s x.
Proof.
  intros Hok Hn Hmin Hini. pose proof (cfs_pick_ok (E := Empty_set) _ _ _ Hok) as Hpick.
  pose proof (λ k t q, first_least _ _ s k t q Hok) as Hleast. destruct (ready_queue s) as [|[key t] q] eqn:Hq.
  { destruct Hpick as [_ He]. destruct (another 0%nat) as (u & Hu & _). set_solver. }
  destruct Hpick as (Hpick & Hin & Hok1). specialize (Hleast key t q eq_refl). rewrite elem_of_list_to_set in Hin.
  assert (q ≠ []) as Hqne.
  { intros ->. destruct (another t) as (u & Hu & Hne). assert (u ∈ (list_to_set ts ∖ {[t]} : gset task)) as Hu' by set_solver.
    apply (ck_ready _ _ _ Hok1) in Hu' as [? Hu']. by apply not_elem_of_nil in Hu'. }
  destruct (slice_ok 86 (n + 1) _ (set_queue q s) t Hok1) as (d & s2 & Hslice & Hd & Hok2 & Hq2 & Hm2 & Ht2 & Hx2 & Hv2).
  { lia. } { apply gone. } { done. } { done. } { by apply Hini. } { pose proof (ck_tasks _ _ _ Hok t) as [_ Hde _ _]. cbn [set_queue tasks]. lia. }
  cbn [set_queue tasks ready_queue] in *.
  destruct (cfs_put_ok (E := Empty_set) _ _ s2 t Hok2) as (s3 & Hput & Hok3 & _ & Hm3 & Hts3); [lia|apply gone|].
  assert (tasks s3 t = set_id (id_pool s2) (ticked d (tasks s t))) as Ht3 by (rewrite Hts3, decide_True, Ht2 by done; done).
  exists t, d, s3, (id_pool s2). split_and!; [|done|intros u Hu; apply Hleast; by apply elem_of_list_to_set|done| |congruence|done| |].
  - unfold turn, mbind, prog_bind. cbn [pick_next_task put_prev_task scheduler]. rewrite Hpick. cbn [inspect expect]. by rewrite Hslice, Hput.
  - rewrite back in Hok3 by by apply elem_of_list_to_set. eapply cfs_ok_le; [exact Hok3|lia].
  - rewrite Ht3, <- Ht2. exact Hv2.
  - intros x Hne. rewrite Hts3, decide_False by done. by apply Hx2.
Qed.
Lemma turn_ok n k s : fair n k s → n + 90 <= max_calls → ∃ t s', turn 87 s = (Ok t, s') ∧ t ∈ ts ∧ fair (n + 90) (k + 1) s'.
Proof.
  intros [Hok Hmin Htask Hsp Htk] Hn.
  destruct (turn_run n s Hok Hn Hmin) as (t & d & s' & i & Hrun & Hin & Hleast & Hd & Hok' & Hm' & Ht' & Hv & Hx); [intros x Hi; by apply Htask|].
  exists t, s'. split; [done|]. split; [done|].
  assert (vr (tasks s t) <= vr (tasks s' t)) as Hup.
  { rewrite Ht'. unfold vr, ticked. cbn. pose proof (ck_tasks _ _ _ Hok t) as [Hni Hde _ _].
    apply Z.add_le_mono_l. unfold share. destruct (weights _ Hni). apply Z.div_le_mono; lia. }
  split; [done|done|..].
  - intros x Hi. destruct (decide (x = t)) as [->|]; [rewrite Ht'|rewrite Hx by done]; by apply Htask.
  - intros x y Hi Hj. destruct (decide (x = t)) as [->|], (decide (y = t)) as [->|].
    + lia.
    + rewrite (Hx y) by done. specialize (Hleast y Hj). lia.
    + rewrite (Hx x) by done. specialize (Hsp x t Hi Hin). lia.
    + rewrite (Hx x), (Hx y) by done. by apply Hsp.
  - rewrite (total_ticks_at s s' ts t d); [lia|done|done|by rewrite Ht'|done].
Qed.
Lemma turns_ok j n k s : fair n k s → n + 90 * Z.of_nat j <= max_calls →
  ∃ l s', turns 87 j s = (Ok l, s') ∧ Forall (.∈ ts) l ∧ fair (n + 90 * Z.of_nat j) (k + Z.of_nat j) s'.
Proof.
  revert n k s. induction j as [|j IH]; intros n k s Hf Hn; [exists [], s; split_and!; [done|constructor|by rewrite Z.mul_0_r, !Z.add_0_r]|].
  destruct (turn_ok n k s Hf) as (t & s1 & H1 & Ht & Hf1); [lia|]. destruct (IH _ _ _ Hf1) as (l & s2 & H2 & Hl & Hf2); [lia|].
  exists (t :: l), s2. split_and!; [|by constructor|].
  - cbn [turns]. unfold mbind, prog_bind. by rewrite H1, H2.
  - replace (n + 90 * Z.of_nat (S j)) with (n + 90 + 90 * Z.of_nat j) by lia. by replace (k + Z.of_nat (S j)) with (k + 1 + Z.of_nat j) by lia.
Qed.
End fair.

(** ** The start *)

(** Tasks that have not run: those of [R] are queued with their priorities. *)
Record waiting (prio : task → Z) (n : Z) (R : gset task) (s : CFScheduler) : Prop := {
  wt_ok : cfs_ok n R s;
  wt_min : min_vruntime s = if decide (R = ∅) then None else Some 0;
  wt_tasks : ∀ x, init_vruntime (tasks s x) = 0 ∧ delta (tasks s x) = 0;
  wt_prio : ∀ x, x ∈ R → nice (tasks s x) = prio x }.
Lemma waiting_step prio n R s t :
  waiting prio n R s → n + 2 <= max_calls → t ∉ R → nice_ok (prio t) →
  ∃ s', (set_priority t (prio t);; add_task t) s = (Ok (), s') ∧ waiting prio (n + 2) ({[t]} ∪ R) s'.
Proof.
  intros [Hok Hm Hz Hp] Hn Ht Hni.
  destruct (cfs_set_priority_ok (E := Empty_set) n R s t (prio t) Hok) as (s1 & H1 & Hok1 & Hs1); [lia|].
  rewrite (proj2 (andb_true_iff _ _)) in H1, Hs1 by (unfold nice_ok in Hni; lia).
  assert (vr (tasks s t) = 0) as Hvr by (unfold vr; destruct (Hz t) as [-> ->]; done).
  assert (∀ x, x ≠ t → tasks s1 x = tasks s x) as Hx1 by (intros x Hne; subst s1; by apply fn_lookup_insert_ne).
  assert (tasks s1 t = MkTask 0 0 (prio t) (id (tasks s t))) as Ht1 by (subst s1; cbn; by rewrite fn_lookup_insert, Hvr).
  assert (default 0 (min_vruntime s1) = 0) as Hm1 by (subst s1; cbn; rewrite Hm; by case_decide).
  destruct (cfs_add_ok (E := Empty_set) (n + 1) R s1 t Hok1) as (s2 & H2 & Hok2 & Hm2 & Hts2); [lia|done|by rewrite Ht1|].
  rewrite Hm1, Ht1 in Hts2. cbn [nice] in Hts2.
  assert (∀ x, init_vruntime (tasks s2 x) = 0 ∧ delta (tasks s2 x) = 0) as Hz2.
  { intros x. rewrite Hts2. destruct (decide (x = t)) as [->|Hne]; [done|]. rewrite Hx1 by done. apply Hz. }
  exists s2. split; [unfold mbind, prog_bind; cbn [set_priority add_task scheduler]; by rewrite H1|].
  split; [by replace (n + 2) with (n + 1 + 1) by lia| |done|].
  - rewrite Hm2, decide_False by set_solver. pose proof (ck_keys _ _ _ Hok2) as Hk.
    assert (t ∈ ({[t]} ∪ R : gset task)) as [k Hin]%(ck_ready _ _ _ Hok2) by set_solver.
    destruct (ready_queue s2) as [|[k' x] q]; [by apply not_elem_of_nil in Hin|]. change k' with (k', x).1. rewrite (Hk (k', x)) by left.
    unfold vr. cbn [fst snd]. destruct (Hz2 x) as [-> ->]. done.
  - intros x Hx. rewrite Hts2. destruct (decide (x = t)) as [->|Hne]; [done|]. rewrite Hx1 by done. apply Hp. set_solver.
Qed.
Lemma start_ok prio l n R s :
  waiting prio n R s → n + 2 * Z.of_nat (length l) <= max_calls → NoDup l.*1 → Forall (λ tp, (tp.1 ∉ R) ∧ nice_ok tp.2 ∧ prio tp.1 = tp.2) l →
  ∃ s', start l s = (Ok (), s') ∧ waiting prio (n + 2 * Z.of_nat (length l)) (list_to_set l.*1 ∪ R) s'.
Proof.
  revert n R s. induction l as [|[t p] l IH]; intros n R s Hw Hn Hnd Hl.
  { exists s. split; [done|]. cbn. by rewrite Z.add_0_r, (left_id_L ∅ (∪)). }
  apply Forall_cons in Hl as [(Ht & Hp & Heq) Hl]. cbn in Ht, Hp, Heq, Hn. subst p. cbn in Hnd. apply NoDup_cons in Hnd as [Htl Hnd].
  destruct (waiting_step prio n R s t Hw) as (s1 & H1 & Hw1); [lia|done|done|].
  destruct (IH (n + 2) ({[t]} ∪ R) s1 Hw1) as (s2 & H2 & Hw2); [lia|done|..].
  { rewrite Forall_forall in Hl |- *. intros [x q] Hin. destruct (Hl _ Hin) as (? & ? & ?). split_and!; [|done|done].
    cbn in *. intros [->%elem_of_singleton|]%elem_of_union; [|done]. apply Htl. apply list_elem_of_fmap. by exists (t, q). }
  exists s2. split.
  - cbn [start]. unfold mbind, prog_bind in H1 |- *. destruct (set_priority t (prio t) s) as [[?|?|] ?]; try done. by rewrite H1.
  - cbn [length fmap list_fmap list_to_set]. replace (n + 2 * Z.of_nat (S (length l))) with (n + 2 + 2 * Z.of_nat (length l)) by lia.
    replace ({[t]} ∪ list_to_set l.*1 ∪ R : gset task) with (list_to_set l.*1 ∪ ({[t]} ∪ R) : gset task) by set_solver. exact Hw2.
Qed.
Lemma waiting_new prio : waiting prio 0 ∅ new.
Proof. split; [apply cfs_new_ok|done|done|set_solver]. Qed.
Lemma waiting_fair prio n ts s : waiting prio n (list_to_set ts) s → ts ≠ [] → fair ts prio n 0 s.
Proof.
  intros [Hok Hm Hz Hp] Hne. assert (∀ x, vr (tasks s x) = 0) as Hv by (intros x; unfold vr; by destruct (Hz x) as [-> ->]).
  split; [done| | | |].
  - rewrite Hm, decide_False; [done|]. destruct ts; [done|]. set_solver.
  - intros x Hx. split; [apply Hz|apply Hp; set_solver].
  - intros x y _ _. rewrite !Hv. lia.
  - clear Hm Hp Hok Hne. induction ts as [|x ts IH]; [done|]. cbn. fold (total_ticks s ts). destruct (Hz x) as [_ ->]. lia.
Qed.

(** C6: tasks with any of the forty priorities are added to a new scheduler, at least two
    of them, and take [k] turns each of which ends when [task_tick] says so.
    No call panics and every turn ends within 87 ticks; at least [k] ticks are
    given out; and the time any two of the tasks have received, divided by
    their weights, differs by at most 69, which is a tick of the lightest. *)
Theorem cfs_fair (l : list (task * Z)) (k : nat) :
  NoDup l.*1 → Forall (λ tp, nice_ok tp.2) l → (2 <= length l)%nat → 2 * Z.of_nat (length l) + 90 * Z.of_nat k <= max_calls →
  ∃ run s, (start l;; turns 87 k) Cfs.new = (Ok run, s) ∧ length run = k ∧ Forall (.∈ l.*1) run ∧ Z.of_nat k <= total_ticks s l.*1 ∧
    ∀ t p u q, (t, p) ∈ l → (u, q) ∈ l →
      Z.abs (delta (tasks s t) * 1024 / weight_of p - delta (tasks s u) * 1024 / weight_of q) <= 69.
Proof.
  intros Hnd Hni Hlen Hk. set (prio t := default 0 ((list_to_map l : gmap task Z) !! t)).
  assert (∀ t p, (t, p) ∈ l → prio t = p) as Hprio by (intros t p Hin; unfold prio; by rewrite (elem_of_list_to_map_1 l t p)).
  destruct (start_ok prio l 0 ∅ Cfs.new (waiting_new prio)) as (s1 & H1 & Hw); [lia|done|..].
  { rewrite Forall_forall in Hni |- *. intros [t p] Hin. split_and!; [set_solver|by apply (Hni _ Hin)|by apply Hprio]. }
  rewrite (right_id_L ∅ (∪)) in Hw. apply waiting_fair in Hw; [|by destruct l; cbn in Hlen; [lia|]].
  destruct (turns_ok l.*1 prio Hnd ltac:(by rewrite length_fmap) k _ _ _ Hw) as (run & s & H2 & Hrun & Hf); [lia|].
  exists run, s. split_and!; [by unfold mbind, prog_bind; rewrite H1|by eapply turns_length|done|apply (fr_ticks _ _ _ _ _ Hf)|].
  assert (∀ t p, (t, p) ∈ l → t ∈ l.*1 ∧ vr (tasks s t) = delta (tasks s t) * 1024 / weight_of p) as Hv.
  { intros t p Hin. assert (t ∈ l.*1) as Ht by (apply list_elem_of_fmap; by exists (t, p)). split; [done|].
    destruct (fr_task _ _ _ _ _ Hf t Ht) as [Hi Hn]. unfold vr, share. rewrite Hi, Hn, (Hprio t p Hin). lia. }
  intros t p u q [Ht <-]%Hv [Hu <-]%Hv. pose proof (fr_spread _ _ _ _ _ Hf t u Ht Hu). pose proof (fr_spread _ _ _ _ _ Hf u t Hu Ht). lia.
Qed.
