(* ===== verification/SchedRuns.v ===== *)
(** * Runs of the schedulers

    The linked list of the queues as a list, and concrete runs: the contract,
    fairness, and two runs of the fair scheduler outside what they cover. *)
From stdpp Require Import prelude list gmap functions sorting.
From S2P Require Import Prelude Sched SchedSpec SchedCfs SchedFair.
Import Cfs.
Open Scope Z_scope.

Module SchedExample.
Fixpoint unlink (t : task) (q : list task) : list task :=
  match q with [] => [] | x :: q => if decide (x = t) then q else x :: unlink t q end.
Lemma unlink_at t l1 l2 : t ∉ l1 → unlink t (l1 ++ t :: l2) = l1 ++ l2.
Proof.
  induction l1 as [|x l1 IH]; cbn; intros Ht; [by rewrite decide_True|]. apply not_elem_of_cons in Ht as [Hx Ht].
  rewrite decide_False by congruence. by rewrite IH.
Qed.
#[export] Instance list_links : LinkedList.
Proof.
  refine {|
    il := list task; il_new := [];
    push_back t q := if decide (t ∈ q) then None else Some (q ++ [t]);
    push_front t q := if decide (t ∈ q) then None else Some (t :: q);
    pop_front q := (head q, tail q);
    cursor_remove t q := if decide (t ∈ q) then (Some t, unlink t q) else (None, q);
    il_items q := q |}.
  - done.
  - intros t q Ht. rewrite decide_False by done. by eexists.
  - intros t q Ht. rewrite decide_False by done. by eexists.
  - done.
  - intros t q l1 l2 -> Ht. rewrite decide_True by set_solver. cbn. by rewrite unlink_at.
Defined.

Lemma schedulers_keep_contract_witness :
  keeps_contract (H := Fifo.scheduler) (λ _ _, True) Fifo.new ∧
  keeps_contract (H := RR.scheduler 5) (λ _ _, True) (RR.new 5) ∧
  keeps_contract (λ s t, delta (tasks s t) = 0) Cfs.new.
Proof. exact (schedulers_keep_contract (LL := list_links) 5). Defined.

(** Three tasks, of the greatest, the usual and the least weight *)
Definition three : list (task * Z) := [(1%nat, -20); (2%nat, 0); (3%nat, 19)].
Lemma cfs_fair_witness :
  ∃ run s, (start three;; turns 87 10) Cfs.new = (Ok run, s) ∧ length run = 10%nat ∧ Forall (.∈ three.*1) run ∧ 10 <= total_ticks s three.*1 ∧
    ∀ t p u q, (t, p) ∈ three → (u, q) ∈ three →
      Z.abs (delta (tasks s t) * 1024 / weight_of p - delta (tasks s u) * 1024 / weight_of q) <= 69.
Proof.
  apply (cfs_fair three 10).
  - apply (bool_decide_unpack _). vm_compute. exact I.
  - unfold three, nice_ok. repeat constructor; cbn; lia.
  - cbn. lia.
  - unfold max_calls. cbn. lia.
Defined.

(** A task that has run is added again, as when it wakes up: [add_task] sets
    where its virtual runtime starts and keeps what it has run, so the queue
    has it under another key, and it cannot be removed. *)
Definition wakes : prog CFScheduler Empty_set (option task) :=
  add_task 1%nat;; add_task 2%nat;;
  pick_next_task;; task_tick 1%nat;;
  add_task 1%nat;; remove_task 1%nat.
Lemma woken_not_removed : ∃ s, wakes Cfs.new = (Ok None, s) ∧ 1%nat ∈ (ready_queue s).*2.
Proof. eexists. split; [vm_compute; reflexivity|]. vm_compute. right. left. Qed.

(** A task added after others have run starts from a [min_vruntime] that turns
    do not move, and has all the turns until it has caught up. *)
Definition late : prog CFScheduler Empty_set (list task) :=
  start [(1%nat, 0); (2%nat, 0)];; turns 87 200;; add_task 3%nat;; turns 87 100.
Lemma late_task_alone : (late Cfs.new).1 = Ok (repeat 3%nat 100).
Proof. vm_compute. reflexivity. Qed.
End SchedExample.
